(* ===== verification/_CoqProject ===== *)
-Q . S2P
Prelude.v
Slices.v
SortedVec.v
Text.v
Floats.v
Decimal.v
Types.v
Order.v
Instrument.v
Currency.v
Margin.v
Liquidation.v
Funding.v
Tick.v
Strategy.v
RestingBook.v
L0.v
L0Correct.v
Depth.v
DepthRead.v
L1.v
L1Correct.v
L2.v
Matcher.v
Cost.v
Bytes.v
Crc.v
Sha.v
Base64.v
Json.v
Control.v
Account.v
Reconcile.v
Watch.v
Supervisor.v
Stream.v
Frame.v
Journal.v
Recovery.v
Snapshot.v
Event.v
Codec.v
Kernel.v
Sequencer.v
Risk.v
Dedup.v
Books.v
LiveBook.v
Interlock.v
ClientIds.v
Latency.v
LiveRecord.v
RecordDecode.v
Twin.v
FundingWatch.v
FundingKept.v
LiveLedger.v
LiveRun.v
LiveSession.v
SessionLife.v
Restart.v
Belief.v
OrderIds.v
FundingTold.v
LiveJournal.v
LiveReplay.v
Ledger.v
Positions.v
Enforcement.v
Shard.v
Trader.v
Reports.v
Operator.v
Capture.v
UtcDay.v
Manifest.v
CaptureWriter.v
CaptureKept.v
Backtest.v
BacktestRun.v
