(* ===== verification/Prelude.v ===== *)
(** * OpenQuanter, verified

    OpenQuanter is a trading system: a deterministic core that turns a journal
    of events into fills, balances and liquidations, matching engines of three
    fidelity tiers, the margin rules of a perpetual-futures venue, a journal
    that survives crashes, and a risk gate in front of a live venue.  This
    library models that core in Rocq, definition by definition, and proves what
    makes it correct.  Paths below are under [src/crates/].

    ** How the program is put together

    Events ([oq-core/src/event.rs]) are sequenced: the sequencer
    ([oq-core/src/sequencer.rs]) appends each one to a journal
    ([oq-journal/src]) and then applies it to the kernel
    ([oq-core/src/kernel.rs]).  The kernel keeps one account: its holdings, its
    balances and the orders it works.  Each holding owns a matcher
    ([oq-core/src/matcher.rs]), one of three engines ([oq-engine/src/l0.rs],
    [l1.rs], [l2.rs]) over a book of own orders ([book.rs]) and, for the third,
    a venue's depth book ([oq-book/src/book.rs]).  Fills move positions through
    a recorded cost basis ([oq-core/src/cost.rs]); marks move margin
    ([oq-margin/src]); an account below its requirement is closed.  Shards
    ([oq-core/src/shard.rs]) run one kernel per instrument.

    Live, a session ([oq-live/src/session.rs]) stands in the sequencer's place:
    an order passes the risk gate ([oq-risk/src/lib.rs]), is written to the
    session's journal ([record.rs]) under an id no other process can use
    ([order_ids.rs], [interlock.rs], [oq-gateway/src/broker.rs]), and only then
    reaches the venue.  What the venue answers and streams
    ([oq-gateway/src/stream.rs]) moves the order book ([book.rs]), the account's
    books ([books.rs], which are a kernel) and the funding watch ([funding.rs]);
    every one of those moves is journalled, so the account can be rebuilt
    ([ledger.rs]) and unanswered orders asked about ([recovery.rs]).  Beside
    it a supervisor ([supervisor.rs]) compares what was streamed with what the
    venue says ([oq-gateway/src/snapshot.rs], [position_read.rs],
    [reconcile.rs], [watch.rs]), read from responses by a scanner ([json.rs]) and
    asked for with signatures ([oq-hash/src]).  A strategy
    ([oq-strategy/src/lib.rs]) is run by a trader ([trader.rs]), which turns its
    intents into submissions and remembers which are still unanswered; an
    operator halts and resumes it through a port ([control.rs], [run.rs]); and
    [belief.rs] says, from the journal alone, what a process thought it held.

    A backtest ([oq-backtest/src/run.rs]) drives the same strategy interface
    from a stream of ticks and depth, with the kernel in the venue's place, once
    with margin and once without ([deviation.rs]).

    Apart from all that, a recorder ([oq-l2feed/src]) captures a venue's depth
    stream into files that are replayed later: frames ([frame.rs]), a file per
    window of time ([day.rs], [stream.rs]), a manifest that seals each
    ([manifest.rs]) and the writer that survives being killed ([writer.rs]).

    ** Which file models what

    - [Prelude]: this file.  The effect [run] (return, panic, out of fuel),
      machine integers at their width, [result].
    - [Slices], [SortedVec]: the slice and vector operations the code uses:
      partition points, insertion and removal, stable sorting, binary search in
      a sorted vector of pairs.
    - [Types], [Order], [Instrument], [Currency]: [oq-types/src].
    - [Margin], [Liquidation], [Funding]: [oq-margin/src] ([tier.rs] and
      [schedule.rs], [position.rs], [funding.rs]).
    - [Tick], [RestingBook], [L0], [L1], [L2]: [oq-engine/src] ([tick.rs],
      [book.rs], [l0.rs], [l1.rs], [l2.rs]); [Depth]: [oq-book/src/book.rs] and
      the types of [depth.rs]; [Decimal], [DepthRead]: the reader of [depth.rs],
      which takes updates and snapshots out of a venue's messages.
    - [L0Correct], [L1Correct]: what the first two tiers promise.
    - [Matcher]: [oq-core/src/matcher.rs]; the class [MatcherOps] is what the
      kernel calls, so the kernel's theorems hold for any matcher.
    - [Cost]: [oq-core/src/cost.rs].  [Event], [Codec]: [oq-core/src/event.rs].
      [Kernel]: [oq-core/src/kernel.rs].
    - [Ledger], [Positions], [Enforcement]: what the kernel does with money,
      positions and margin.
    - [Backtest]: the loop of [oq-backtest/src/run.rs] over the observations of
      [oq-engine/src/observation.rs], and [deviation.rs]; [BacktestRun]: what a
      run amounts to.
    - [Bytes], [Crc] ([oq-hash/src/crc32.rs]), [Frame], [Journal], [Snapshot]
      ([oq-journal/src/frame.rs], [reader.rs] and [writer.rs], [snapshot.rs]);
      [Recovery]: the journal through crashes.
    - [Sequencer]: [oq-core/src/sequencer.rs] and [sink.rs]; the class
      [SinkLaws] is what a sink promises the sequencer.
    - [Shard]: [oq-core/src/shard.rs].  [Risk]: [oq-risk/src/lib.rs].
    - [Text], [Floats]: texts as lists of bytes, their printing, trimming and
      characters, and binary64 with its decimal reader.
    - [Dedup], [Books], [LiveBook], [Latency], [Interlock]: [oq-live/src]
      ([dedup.rs], [books.rs], [book.rs], [latency.rs], [interlock.rs] and
      [order_ids.rs]).  [ClientIds]: [oq-gateway/src/broker.rs].
    - [LiveRecord], [RecordDecode]: [oq-live/src/record.rs].
    - [FundingWatch], [FundingKept]: [oq-live/src/funding.rs].
    - [LiveLedger]: [oq-live/src/ledger.rs].  [LiveRun]: what [run.rs] does to
      the books, the watch and the journal.  [Twin], [FundingTold],
      [LiveJournal], [LiveReplay]: the run, its journal and the ledger replayed
      from it.
    - [LiveSession]: [oq-live/src/session.rs]; [SessionLife]: the life of a
      session and what it has written before anything is sent; [OrderIds]: ids
      over many processes; [Restart]: [oq-live/src/recovery.rs] and what a
      restart learns from the journal of such a life; [Belief]:
      [oq-live/src/belief.rs].
    - [Strategy]: [oq-strategy/src/lib.rs], the callbacks as a class.  [Trader]:
      [oq-live/src/trader.rs].  [Reports]: how [run.rs] reads what a venue
      reports of a fill.  [Control]: [oq-live/src/control.rs].  [Operator]: what
      [run.rs] does with the requests of the port, and how it shuts down.
    - [Capture], [UtcDay], [Manifest], [CaptureWriter]: [oq-l2feed/src]
      ([frame.rs], [day.rs] and [stream.rs], [manifest.rs], [writer.rs]), the
      writer over a disk whose calls may fail part way; [CaptureKept]: the
      archive that any number of killed processes leaves.
    - [Sha]: [oq-hash/src/sha256.rs], [sha512.rs], [hmac.rs].  [Base64], [Json],
      [Account], [Reconcile], [Watch], [Stream]: [oq-gateway/src] ([b64.rs],
      [json.rs], [snapshot.rs] and [position_read.rs], [reconcile.rs],
      [watch.rs], [stream.rs]).  [Supervisor]: [oq-live/src/supervisor.rs] and
      the stream health of [stream.rs].

    ** Conventions

    An integer is a [Z]; the range of its type is a predicate ([i64], [u64],
    ...).  The workspace is built with overflow checks, so a bare operator is
    [chk], which panics outside the range; [saturating_*] is [sat64] and its
    kin, [checked_*] is [checked].  A Rust struct is a record, an enum an
    inductive type, [Option] is [option], [Result] is [result], a [Vec] is a
    list.  A method with [&mut self] returns the new state.  An index out of
    range, a failed [expect] and an assertion are [Panic].  What the operating
    system answers (a write that fails after some bytes, a lock that is taken)
    is an argument of the operation; so are the
    venue, the socket and the clock.  [f64] is the binary64 of [Floats],
    computed by the specification floats of the standard library; where the
    code prints one, the printer is a parameter.  A [String] is the list of its
    UTF-8 bytes.

    Loops that are not structural take fuel; each is proved to return with the
    fuel it is given: [Journal.replay_loop] and [frame_follows_loop],
    [Capture.decode_loop] and the scans of [CaptureWriter] take one more than
    the length of the file, since every turn consumes a byte.

    ** What is proved

    - Money.  [Ledger.kernel_refines_ledger]: every event is a transaction of
      an abstract ledger; [Ledger.balance_is_conserved]: over a run the balance
      moved by exactly what was realized, paid, funded, forfeited and deposited;
      [Positions.session_profit_is_cash]: realized profit and open positions
      account for every unit traded; [Cost.closes_telescope],
      [Funding.funding_windows_partition] and the others on each piece.
    - Margin.  [Enforcement.insolvent_accounts_are_closed]: no event leaves an
      account below its requirement; [Liquidation.liquidation_price_exact]: the
      liquidation price is exact to the tick.
    - Matching.  [L0Correct.on_tick_implements_rule]: an abstract matching rule
      refined by the first tier; [L1Correct.transparent_is_l0],
      [l1_reports_every_trade_once], [l1_orders_accounted]: the second tier
      delays and queues but neither loses nor invents; [Depth.sweep_optimal],
      [Depth.feed_follows_the_sequence], [L2.measured_price_is_the_sweep]: the
      third tier prices by the venue's depth and stops when it has a gap.
    - Durability.  [Recovery.acknowledged_records_survive],
      [Journal.tears_and_damage_are_told_apart], [Frame.damage_is_reported],
      [Crc.crc32_detects_bursts], [Snapshot.newest_snapshot_wins].
    - Determinism.  [Codec.event_roundtrip], [Codec.decode_is_total],
      [Sequencer.replay_rebuilds_the_run]: replaying what a crash left runs the
      events that were accepted and yields the live kernel and its outputs;
      [Shard.shards_are_independent]: interleaving does not matter.
    - Backtesting.  [BacktestRun.no_liquidation_means_no_difference]: where
      margin never acted the run without it is the same run;
      [BacktestRun.a_run_is_its_script]: a run is a list of operations on the
      kernel, with every settlement charged once and at its place;
      [BacktestRun.a_result_adds_up]: the numbers of a result balance.
    - Risk.  [Risk.permit_means_every_limit], [Risk.rate_holds_in_every_window],
      [Risk.exposure_bounded].
    - Sending.  [SessionLife.no_order_is_sent_unrecorded]: over the whole life
      of a session no order reaches the venue before its record reaches the
      file; [SessionLife.submission_tells_what_happened]: each answer means what
      it says; [OrderIds.ids_are_never_reused],
      [Interlock.claims_exclude_the_same_triple],
      [ClientIds.a_process_claims_its_own_orders]: no two processes share an id,
      a lock or an order; [Restart.a_restart_asks_about_open_orders]: after a
      crash every order the venue was asked for is either settled or asked
      about.
    - The live account.  [LiveBook.book_takes_each_fill_once],
      [Books.each_trade_is_booked_once], [Dedup.window_forgets_nothing]: a
      redelivered fill changes nothing;
      [FundingKept.funding_is_accounted_line_by_line];
      [LiveReplay.replay_is_the_live_account]: replaying the journal of a run
      yields the account the run had.  [LiveRecord.record_roundtrip],
      [RecordDecode.decode_record_is_total]: its records.
    - Watching the venue.  [Supervisor.supervisor_implements_its_counts]: the
      supervisor is three counters; [Account.checked_read_covers_every_leg],
      [Reconcile.agreement_means_the_same_account],
      [Watch.tally_counts_the_log]: a read that is accepted is complete, one that
      agrees is the same account, and the tally counts the changes;
      [Stream.events_are_delivered_in_order],
      [Stream.no_frame_overtakes_its_login], [Stream.dead_link_is_condemned].
    - Reading and signing.  [Json.scans_return], [Json.field_str_reads_back],
      [Json.objects_splits_the_array], [Base64.decode_undoes_encode],
      [Sha.pieces_hash_as_one], [Sha.hmac_is_rfc_2104];
      [DepthRead.depth_reads_back]: an update as a venue writes it is read as
      the update; [Reports.a_fill_is_read_exactly]: and so is a fill.
    - Trading.  [Trader.every_submission_is_answered_once]: a strategy hears of
      each order it asked for exactly once, however late the venue answers;
      [Trader.a_halt_withdraws_what_opens]: a halt withdraws what could open a
      position and leaves what closes one;
      [Belief.belief_is_what_was_moved]: the belief is the sum of what the
      journal says was traded and adopted.
    - Operating.  [Control.the_port_is_orderly]: only an allowed peer is heard,
      and every request is answered once and in order;
      [Operator.a_resume_is_never_blind]: trading resumes only over a recent
      comparison that agreed; [Operator.every_change_is_on_record].
    - Recording.  [CaptureKept.a_file_holds_only_its_window],
      [CaptureKept.a_manifest_describes_its_file]: over every sequence of
      operations, failures and kills; [Capture.damage_is_never_taken_for_a_tear],
      [CaptureWriter.a_file_scanned_in_pieces_is_the_file],
      [UtcDay.dates_follow_the_calendar].

    ** Where the code and its comments part

    [Enforcement] ends with two runs in which an account trades after its
    liquidation, and [BacktestRun.a_liquidation_ends_orders_silently] is a
    strategy left waiting for an order the liquidation withdrew;
    [Risk.position_limit_is_passed], [Codec.truncated_fill_loses_its_fee],
    [Codec.odd_price_flag_is_a_market_order] and
    [Shard.named_funding_is_refused], [Base64.truncated_text_is_decoded] and
    [Supervisor.two_replacements_precede_the_halt] each exhibit a comment that
    says more than the code does.  [ClientIds.hyphenated_prefix_claims_anothers]
    is a process that takes another's orders for its own, and
    [Json.array_field_panics] a response that stops the reader.
    [Trader.an_ended_order_is_registered] is an order taken for a resting one
    after it ended; [Reports.a_finer_size_is_cut_off] and
    [Reports.an_empty_size_is_zero] are sizes read as less than they are;
    [Belief.closed_position_is_held_both_ways] is a closed position believed to
    be two open ones, and [Belief.absent_journal_is_flat] a journal that is not
    there believed to be empty; [Control.a_poll_gives_more_than_PER_POLL] is a
    bound that is not one.  Of the recorder, [CaptureKept] has
    [a_restart_forgets_the_gaps], [a_late_gap_is_not_flushed],
    [an_older_frame_is_counted_long] and [two_are_sealed_and_one_reported], and
    [Capture.a_cleared_version_bit_hides_the_rest] is damage that reads as a
    torn tail.

    ** Not modelled

    Floating-point display and statistics ([oq-stats], [oq-features], the
    indicators of [oq-strategy], the reports and sweeps of [oq-backtest]); sockets, threads and
    processes (the session loop, the TLS client and the upload of [oq-l2feed],
    [oq-ingest], the loop of [oq-live/src/run.rs] with its status replies, and
    the creation of the control socket); the venues' own protocols
    ([oq-gateway]'s adapters); the simulated and shadow venues of [oq-live]; the
    columnar stores of [oq-data]; the comparison of runs of [oq-parity]; bindings
    and command lines ([oq-env], [oq-py], [oq-cli]).  Of modelled files, the
    [Display] of errors and [Belief]'s conversion to a record of the run are left
    out.  A payload over 16 MiB panics in the journal's writer, and the theorems
    say so by speaking of runs that return.

    ** Next

    The venue adapters on top of [Json], the as-of joins of [oq-data]. *)

(** Shared prelude: the effect of a Rust computation, machine integers at
    their width, and generic lemmas. *)

From Stdlib Require Export ZArith Lia Sorting.Sorted Sorting.Permutation.
From stdpp Require Export prelude.

#[global] Open Scope Z_scope.
#[global] Set Default Goal Selector "1".

(** * Computations that may panic

    The workspace builds with [overflow-checks = true] in release, so a bare
    [+], [-] or [*] that leaves its type stops the process.  [run A] is what
    such a computation does: it returns, it panics, or (for loops given fuel)
    it was not given enough of it.  A theorem that a function [returns] is
    therefore a proof that it neither panics nor loops. *)

Inductive run (A : Type) : Type :=
| Ret (a : A)
| Panic
| OutOfFuel.
Arguments Ret {A} _.
Arguments Panic {A}.
Arguments OutOfFuel {A}.

#[export] Instance run_ret : MRet run := λ A a, Ret a.
#[export] Instance run_bind : MBind run := λ A B f m,
  match m with
  | Ret a => f a
  | Panic => Panic
  | OutOfFuel => OutOfFuel
  end.

#[export] Instance run_fmap : FMap run := λ A B f m,
  match m with
  | Ret a => Ret (f a)
  | Panic => Panic
  | OutOfFuel => OutOfFuel
  end.

#[export] Instance run_eq_dec `{EqDecision A} : EqDecision (run A).
Proof. solve_decision. Defined.

(** [Option::expect] and [unwrap]: a missing value is a panic. *)
Definition expect {A} (o : option A) : run A :=
  match o with Some a => Ret a | None => Panic end.

(** Total correctness: the computation returns, and its value satisfies [P]. *)
Definition returns {A} (m : run A) (P : A → Prop) : Prop :=
  ∃ a, m = Ret a ∧ P a.

Lemma bind_ret {A B} (m : run A) (f : A → run B) b :
  m ≫= f = Ret b ↔ ∃ a, m = Ret a ∧ f a = Ret b.
Proof.
  destruct m; simpl; split; [eauto | | | | |]; try (intros (?&?&?); congruence); done.
Qed.

Lemma bind_Ret {A B} (a : A) (f : A → run B) : Ret a ≫= f = f a.
Proof. done. Qed.

Lemma returns_ret {A} (a : A) (P : A → Prop) : P a → returns (mret a) P.
Proof. intros ?. exists a. done. Qed.

Lemma returns_Ret {A} (a : A) (P : A → Prop) : P a → returns (Ret a) P.
Proof. intros ?. exists a. done. Qed.

Lemma returns_bind {A B} (m : run A) (f : A → run B) (P : B → Prop) :
  returns m (λ a, returns (f a) P) → returns (m ≫= f) P.
Proof. intros (a & -> & b & Hb & HP). exists b. done. Qed.

Lemma returns_mono {A} (m : run A) (P Q : A → Prop) :
  returns m P → (∀ a, P a → Q a) → returns m Q.
Proof. intros (a & ? & ?) HPQ. exists a. auto. Qed.

Lemma returns_and {A} (m : run A) (P Q : A → Prop) :
  returns m P → returns m Q → returns m (λ a, P a ∧ Q a).
Proof. intros (a & Ha & ?) (b & Hb & ?). exists a. by simplify_eq. Qed.

Lemma returns_inv {A} (m : run A) (P : A → Prop) a :
  returns m P → m = Ret a → P a.
Proof. intros (b & Hb & ?) ?. by simplify_eq. Qed.

(** Partial correctness: whatever the computation returns satisfies [P]. *)
Definition yields {A} (m : run A) (P : A → Prop) : Prop := ∀ a, m = Ret a → P a.

Lemma yields_ret {A} (a : A) (P : A → Prop) : P a → yields (mret a) P.
Proof. by intros ? ? [= <-]. Qed.
Lemma yields_bind {A B} (m : run A) (f : A → run B) (P : B → Prop) :
  yields m (λ a, yields (f a) P) → yields (m ≫= f) P.
Proof. intros H b (a & Ha & Hb)%bind_ret. by apply (H a Ha). Qed.
(** A [for] loop: the state through every turn. *)
Fixpoint foldM {A B} (f : B → A → run B) (b : B) (l : list A) : run B :=
  match l with
  | [] => mret b
  | a :: l => b ← f b a; foldM f b l
  end.
Lemma foldM_app {A B} (f : B → A → run B) (l l' : list A) : ∀ b, foldM f b (l ++ l') = foldM f b l ≫= λ b, foldM f b l'.
Proof. induction l as [|a l IH]; intros b; [done|]. cbn. destruct (f b a); [apply IH|done..]. Qed.
Lemma foldM_kept {A B} (f : B → A → run B) (P : B → Prop) l :
  (∀ b a b', P b → f b a = Ret b' → P b') → ∀ b b', P b → foldM f b l = Ret b' → P b'.
Proof.
  intros Hf. induction l as [|a l IH]; intros b b' Hb; [by intros [= <-]|].
  intros (b1 & E & H)%bind_ret. by eapply IH, H; eapply Hf.
Qed.

(** Two loops in step, read backwards from a property of the end. *)
Lemma foldM_twin {A B} (f f' : B → A → run B) (g : B → B) (P : B → Prop) l :
  (∀ b a b', f b a = Ret b' → P b' → P b ∧ f' (g b) a = Ret (g b')) →
  ∀ b b', foldM f b l = Ret b' → P b' → P b ∧ foldM f' (g b) l = Ret (g b').
Proof.
  intros Hf. induction l as [|a l IH]; intros b b'; [by intros [= <-]|].
  intros (b1 & E & H)%bind_ret HP. destruct (IH _ _ H HP) as [H1 H2]. destruct (Hf _ _ _ E H1) as [H3 H4].
  split; [exact H3|]. cbn. by rewrite H4.
Qed.

Lemma yields_returns {A} (m : run A) (P : A → Prop) : (∃ a, m = Ret a) → yields m P → returns m P.
Proof. intros [a E] H. exists a. auto. Qed.

(** [Result<A, E>], an ordinary value: an error is not a panic. *)
Inductive result (A E : Type) : Type :=
| Ok (a : A)
| Err (e : E).
Arguments Ok {A E} _.
Arguments Err {A E} _.

#[export] Instance result_eq_dec `{EqDecision A, EqDecision E} : EqDecision (result A E).
Proof. solve_decision. Defined.

(** Inversion of a chain of binds that returned. *)
Ltac inv_run :=
  repeat match goal with
  | H : _ ≫= _ = Ret _ |- _ =>
      let a := fresh "v" in let E := fresh "E" in
      apply bind_ret in H as (a & E & H)
  | H : mret _ = Ret _ |- _ => unfold mret, run_ret in H
  | H : Ret _ = Ret _ |- _ => injection H; clear H; intros; subst
  | H : Panic = Ret _ |- _ => discriminate H
  | H : OutOfFuel = Ret _ |- _ => discriminate H
  end.

(** * Machine integers

    A Rust integer is a [Z] in the range of its type. *)

Abbreviation I64_MIN := (-9223372036854775808) (only parsing).
Abbreviation I64_MAX := 9223372036854775807 (only parsing).
Abbreviation I128_MIN := (-170141183460469231731687303715884105728) (only parsing).
Abbreviation I128_MAX := 170141183460469231731687303715884105727 (only parsing).
Abbreviation U32_MAX := 4294967295 (only parsing).
Abbreviation U64_MAX := 18446744073709551615 (only parsing).

Definition i64 (z : Z) : Prop := I64_MIN ≤ z ≤ I64_MAX.
Definition i128 (z : Z) : Prop := I128_MIN ≤ z ≤ I128_MAX.
Definition u64 (z : Z) : Prop := 0 ≤ z ≤ U64_MAX.
Definition i32 (z : Z) : Prop := -2147483648 ≤ z ≤ 2147483647.
Definition u32 (z : Z) : Prop := 0 ≤ z ≤ U32_MAX.
Definition u16 (z : Z) : Prop := 0 ≤ z ≤ 65535.
Definition u8 (z : Z) : Prop := 0 ≤ z ≤ 255.

#[export] Instance i64_dec z : Decision (i64 z).
Proof. unfold i64; apply _. Defined.
#[export] Instance i128_dec z : Decision (i128 z).
Proof. unfold i128; apply _. Defined.
#[export] Instance u64_dec z : Decision (u64 z).
Proof. unfold u64; apply _. Defined.
#[export] Instance i32_dec z : Decision (i32 z).
Proof. unfold i32; apply _. Defined.
#[export] Instance u32_dec z : Decision (u32 z).
Proof. unfold u32; apply _. Defined.
#[export] Instance u16_dec z : Decision (u16 z).
Proof. unfold u16; apply _. Defined.
#[export] Instance u8_dec z : Decision (u8 z).
Proof. unfold u8; apply _. Defined.

(** The overflow check on a bare operator: the exact result, or a panic. *)
Definition chk (P : Z → Prop) `{∀ z, Decision (P z)} (z : Z) : run Z :=
  if decide (P z) then Ret z else Panic.

Abbreviation chk64 := (chk i64).
Abbreviation chk128 := (chk i128).
Abbreviation chku64 := (chk u64).

Lemma returns_chk (P : Z → Prop) `{∀ z, Decision (P z)} z (Q : Z → Prop) :
  P z → Q z → returns (chk P z) Q.
Proof. intros. exists z. unfold chk. by rewrite decide_True. Qed.

Lemma chk_ret (P : Z → Prop) `{∀ z, Decision (P z)} z : P z → chk P z = Ret z.
Proof. intros. unfold chk. by rewrite decide_True. Qed.

Lemma chk_inv (P : Z → Prop) `{∀ z, Decision (P z)} z a :
  chk P z = Ret a → a = z ∧ P z.
Proof. unfold chk. case_decide; naive_solver. Qed.

(** [checked_*] operators: [None] outside the range. *)
Definition checked (P : Z → Prop) `{∀ z, Decision (P z)} (z : Z) : option Z :=
  if decide (P z) then Some z else None.

Lemma checked_some (P : Z → Prop) `{∀ z, Decision (P z)} z : P z → checked P z = Some z.
Proof. intros. unfold checked. by rewrite decide_True. Qed.
Lemma checked_none (P : Z → Prop) `{∀ z, Decision (P z)} z : ¬ P z → checked P z = None.
Proof. intros. unfold checked. by rewrite decide_False. Qed.

(** [saturating_*] operators clamp. *)
Definition sat64 (z : Z) : Z := Z.max I64_MIN (Z.min I64_MAX z).
Definition sat128 (z : Z) : Z := Z.max I128_MIN (Z.min I128_MAX z).
Definition satu64 (z : Z) : Z := Z.max 0 (Z.min U64_MAX z).

Definition i64_saturating_abs (z : Z) : Z := sat64 (Z.abs z).

(** [as u32], [as u64]: truncation modulo the width. *)
Definition as_u32 (z : Z) : Z := z mod 2 ^ 32.
Definition as_u64 (z : Z) : Z := z mod 2 ^ 64.

(** [div_euclid] and [rem_euclid], as the standard library computes them from
    the truncating [/] and [%] ([Z.quot] and [Z.rem]). *)
Definition div_euclid (a b : Z) : Z :=
  let q := Z.quot a b in
  if Z.rem a b <? 0 then (if 0 <? b then q - 1 else q + 1) else q.
Definition rem_euclid (a b : Z) : Z :=
  let r := Z.rem a b in if r <? 0 then r + Z.abs b else r.

(** The sum of a list. *)
Definition zsum (l : list Z) : Z := foldr Z.add 0 l.
(** And of its absolute values. *)
Definition weight (l : list Z) : Z := zsum (Z.abs <$> l).

(** [signum]. *)
Definition signum (z : Z) : Z := Z.sgn z.

(** Bounds arithmetic: unfold the ranges and the clamps, then decide. *)
Ltac mlia :=
  unfold i64_saturating_abs in *;
  unfold i64, i128, i32, u64, u32, u16, u8, sat64, sat128, satu64 in *; lia.

Lemma sat64_id z : i64 z → sat64 z = z.
Proof. mlia. Qed.
Lemma sat64_range z : i64 (sat64 z).
Proof. mlia. Qed.
Lemma sat64_idem z : sat64 (sat64 z) = sat64 z.
Proof. mlia. Qed.
Lemma sat128_id z : i128 z → sat128 z = z.
Proof. mlia. Qed.
Lemma sat64_mono a b : a ≤ b → sat64 a ≤ sat64 b.
Proof. mlia. Qed.
Lemma i64_i128 z : i64 z → i128 z.
Proof. mlia. Qed.
Lemma sat64_abs_abs z : i64 z → z ≠ I64_MIN → i64_saturating_abs z = Z.abs z.
Proof. mlia. Qed.
Lemma sat64_abs_nonneg z : 0 ≤ i64_saturating_abs z ≤ I64_MAX.
Proof. mlia. Qed.

Lemma div_euclid_pos a b : 0 < b → div_euclid a b = a / b.
Proof.
  intros Hb. unfold div_euclid.
  pose proof (Z.quot_rem' a b) as Hq. pose proof (Z.rem_bound_abs a b ltac:(lia)).
  rewrite (proj2 (Z.ltb_lt 0 b)) by done.
  destruct (Z.ltb_spec (Z.rem a b) 0).
  - apply (Z.div_unique_pos _ _ _ (Z.rem a b + b)); lia.
  - apply (Z.div_unique_pos _ _ _ (Z.rem a b)); lia.
Qed.

Lemma rem_euclid_pos a b : 0 < b → rem_euclid a b = a mod b.
Proof.
  intros Hb. unfold rem_euclid.
  pose proof (Z.quot_rem' a b). pose proof (Z.rem_bound_abs a b ltac:(lia)).
  destruct (Z.ltb_spec (Z.rem a b) 0).
  - apply (Z.mod_unique_pos _ _ (Z.quot a b - 1)); lia.
  - apply (Z.mod_unique_pos _ _ (Z.quot a b)); lia.
Qed.

(** Sums. *)
Lemma zsum_app l l' : zsum (l ++ l') = zsum l + zsum l'.
Proof. induction l as [|a l IH]; simpl; [done|]. rewrite IH. lia. Qed.
Lemma weight_app l l' : weight (l ++ l') = weight l + weight l'.
Proof. unfold weight. by rewrite fmap_app, zsum_app. Qed.
Lemma weight_cons a l : weight (a :: l) = Z.abs a + weight l.
Proof. done. Qed.
Lemma zsum_cons a l : zsum (a :: l) = a + zsum l.
Proof. done. Qed.
Lemma weight_nonneg l : 0 ≤ weight l.
Proof. induction l as [|a l IH]; [done|]. rewrite weight_cons. lia. Qed.
Lemma zsum_weight l : Z.abs (zsum l) ≤ weight l.
Proof. induction l as [|a l IH]; [done|]. rewrite weight_cons, zsum_cons. lia. Qed.
Lemma zsum_perm l l' : Permutation l l' → zsum l = zsum l'.
Proof. induction 1; simpl; lia. Qed.

Create HintDb machine.
#[export] Hint Resolve sat64_range i64_i128 : machine.
