(* ===== verification/Slices.v ===== *)
(** The slice and [Vec] operations of the Rust standard library that the
    crates use: binary search as the library runs it (a halving loop), with
    the linear specification it meets on a partitioned slice; insertion and
    removal by index; [position]; and stable sorting by a key. *)

From S2P Require Import Prelude.

Section search.
Context {A : Type}.
Implicit Types (l : list A) (f : A → comparison).

(** The loop of [binary_search_by]: [base] moves to the middle unless the
    middle compares [Greater]; [size] is halved. *)
Fixpoint bs_loop (fuel : nat) f l (base size : nat) : nat :=
  match fuel with
  | O => base
  | S fuel =>
      if (size <=? 1)%nat then base
      else
        let half := (size / 2)%nat in
        let mid := (base + half)%nat in
        let base' := match l !! mid with
                     | Some x => match f x with Gt => base | _ => mid end
                     | None => base
                     end in
        bs_loop fuel f l base' (size - half)
  end.

Definition binary_search_by f l : result nat nat :=
  match l with
  | [] => Err 0%nat
  | _ =>
      let base := bs_loop (length l) f l 0 (length l) in
      match f <$> l !! base with
      | Some Eq => Ok base
      | Some Lt => Err (S base)
      | _ => Err base
      end
  end.

(** [partition_point] is a binary search for the first element that fails
    the predicate. *)
Definition partition_point (p : A → bool) l : nat :=
  match binary_search_by (λ x, if p x then Lt else Gt) l with
  | Ok i => i
  | Err i => i
  end.

(** Splitting a slice by a comparison: everything less, then at most one
    equal, then everything greater. *)
Record ordered_by f (l1 : list A) (m : option A) (l2 : list A) : Prop := {
  ob_lt : Forall (λ x, f x = Lt) l1;
  ob_eq : ∀ x, m = Some x → f x = Eq;
  ob_gt : Forall (λ x, f x = Gt) l2;
}.

Lemma bs_loop_spec f l1 m l2 fuel base size :
  ordered_by f l1 m l2 →
  (size ≤ fuel)%nat → (1 ≤ size)%nat →
  (base + size ≤ length (l1 ++ option_list m ++ l2))%nat →
  (base = 0 ∨ base < length (l1 ++ option_list m))%nat →
  (length (l1 ++ option_list m) ≤ base + size)%nat →
  let r := bs_loop fuel f (l1 ++ option_list m ++ l2) base size in
  (r < length (l1 ++ option_list m ++ l2))%nat ∧
  (r = 0 ∨ r < length (l1 ++ option_list m))%nat ∧
  (length (l1 ++ option_list m) ≤ S r)%nat.
Proof.
  intros Hob. revert base size.
  induction fuel as [|fuel IH]; intros base size Hf H1 Hlen Hb Hs; [lia|].
  cbn [bs_loop]. destruct (Nat.leb_spec size 1); [cbv zeta; split_and!; lia|].
  cbv zeta.
  assert (0 < size / 2 < size)%nat as Hh.
  { split; [apply Nat.div_str_pos; lia | apply Nat.div_lt; lia]. }
  pose proof (Nat.Div0.mul_div_le size 2). set (half := (size / 2)%nat) in *.
  destruct (lookup_lt_is_Some_2 (l1 ++ option_list m ++ l2) (base + half)) as [x Hx]; [lia|].
  rewrite Hx. rewrite (assoc_L (++)) in Hx.
  destruct (decide (base + half < length (l1 ++ option_list m))%nat) as [Hin|Hout].
  - rewrite lookup_app_l in Hx by done.
    assert (f x ≠ Gt) as Hne.
    { destruct (decide (base + half < length l1)%nat).
      - rewrite lookup_app_l in Hx by done.
        pose proof (Forall_lookup_1 _ _ _ _ (ob_lt _ _ _ _ Hob) Hx). simpl in *. congruence.
      - rewrite lookup_app_r in Hx by lia. destruct m; simpl in *; [|done].
        apply list_lookup_singleton_Some in Hx as [_ <-].
        by rewrite (ob_eq _ _ _ _ Hob _ eq_refl). }
    destruct (f x) eqn:?; try done; apply IH; rewrite ?length_app in *; lia.
  - rewrite lookup_app_r in Hx by lia.
    pose proof (Forall_lookup_1 _ _ _ _ (ob_gt _ _ _ _ Hob) Hx) as ->.
    apply IH; lia.
Qed.

Lemma binary_search_by_spec f l1 m l2 :
  ordered_by f l1 m l2 →
  binary_search_by f (l1 ++ option_list m ++ l2) =
    match m with Some _ => Ok (length l1) | None => Err (length l1) end.
Proof.
  intros Hob. unfold binary_search_by.
  destruct (l1 ++ option_list m ++ l2) as [|y ys] eqn:El.
  { apply app_eq_nil in El as [-> [E ->]%app_eq_nil]. by destruct m. }
  rewrite <-El. clear y ys El.
  set (l := l1 ++ option_list m ++ l2).
  destruct (decide (length l = 0%nat)) as [Hz|Hz].
  { unfold l in *. destruct l1, m, l2; simpl in *; try lia. done. }
  destruct (bs_loop_spec f l1 m l2 (length l) 0 (length l) Hob) as (Hr & Hb & Hs);
    try (unfold l in *; rewrite ?length_app in *; lia).
  fold l in Hr, Hb, Hs. set (r := bs_loop _ _ _ _ _) in *.
  destruct (lookup_lt_is_Some_2 l r Hr) as [x Hx]. rewrite Hx. simpl. unfold l in Hx.
  destruct (decide (r < length l1)%nat) as [Hlt|Hge].
  { rewrite lookup_app_l in Hx by done.
    pose proof (Forall_lookup_1 _ _ _ _ (ob_lt _ _ _ _ Hob) Hx) as Hf. simpl in Hf. rewrite Hf.
    destruct m; rewrite length_app in Hs; simpl in *; [lia|]. f_equal. lia. }
  rewrite lookup_app_r in Hx by lia. destruct m as [y|]; simpl in *.
  - rewrite length_app in Hs, Hb; simpl in *. assert (r = length l1) as -> by lia.
    rewrite Nat.sub_diag in Hx. simpl in Hx. injection Hx as ->.
    by rewrite (ob_eq _ _ _ _ Hob _ eq_refl).
  - pose proof (Forall_lookup_1 _ _ _ _ (ob_gt _ _ _ _ Hob) Hx) as Hf. simpl in Hf. rewrite Hf.
    rewrite app_nil_r in Hb. f_equal. lia.
Qed.

Lemma partition_point_spec (p : A → bool) l1 l2 :
  Forall (λ x, p x = true) l1 → Forall (λ x, p x = false) l2 →
  partition_point p (l1 ++ l2) = length l1.
Proof.
  intros H1 H2. unfold partition_point.
  change (l1 ++ l2) with (l1 ++ option_list None ++ l2).
  rewrite (binary_search_by_spec _ l1 None l2); [done|].
  split; [|done|]; eapply Forall_impl; try done; intros ? ->; done.
Qed.
End search.

(** A predicate that holds on a prefix and fails after it. *)
Definition partitioned {A} (p : A → bool) (l : list A) : Prop :=
  ∃ l1 l2, l = l1 ++ l2 ∧ Forall (λ x, p x = true) l1 ∧ Forall (λ x, p x = false) l2.

Lemma sorted_partitioned {A} (R : relation A) (p : A → bool) l :
  StronglySorted R l → (∀ x y, R x y → p y = true → p x = true) → partitioned p l.
Proof.
  intros Hs Hp. induction Hs as [|x l Hs IH HF]; [by exists [], []|].
  destruct IH as (l1 & l2 & -> & H1 & H2). destruct (p x) eqn:Hx.
  - exists (x :: l1), l2. split_and!; auto.
  - exists [], (x :: l1 ++ l2). split_and!; auto.
    constructor; [done|]. eapply Forall_impl; [apply HF|]. intros y HR.
    destruct (p y) eqn:Hy; [|done]. rewrite (Hp x y) in Hx; done.
Qed.

(** * Indexing a [Vec] *)

Section vec.
Context {A : Type}.
Implicit Types (l : list A).

(** [Vec::insert]: shifts the tail right.  Every caller's index comes from
    a search of the same vector, so it is at most the length. *)
Definition vec_insert (i : nat) (x : A) l : list A := take i l ++ x :: drop i l.

Lemma vec_insert_app l1 l2 x : vec_insert (length l1) x (l1 ++ l2) = l1 ++ x :: l2.
Proof. unfold vec_insert. by rewrite take_app_length, drop_app_length. Qed.

Lemma vec_insert_perm i x l : Permutation (vec_insert i x l) (x :: l).
Proof.
  unfold vec_insert. rewrite <-Permutation_middle. by rewrite take_drop.
Qed.

Lemma length_vec_insert i x l : length (vec_insert i x l) = S (length l).
Proof. by rewrite vec_insert_perm. Qed.

(** [Iterator::position]. *)
Fixpoint position (p : A → bool) l : option nat :=
  match l with
  | [] => None
  | x :: l => if p x then Some 0%nat else S <$> position p l
  end.

Lemma position_Some p l i :
  position p l = Some i →
  ∃ x, l !! i = Some x ∧ p x = true ∧ Forall (λ y, p y = false) (take i l).
Proof.
  revert i. induction l as [|x l IH]; intros i; simpl; [done|].
  destruct (p x) eqn:Hx; [intros [= <-]; exists x; simpl; auto|].
  intros (j & Hj & ->)%fmap_Some. destruct (IH j) as (y & ? & ? & ?); [done|].
  exists y. simpl. auto.
Qed.

(** An update that does not change the verdict does not move it. *)
Lemma position_insert_same p l h x y : l !! h = Some x → p y = p x →
  position p (<[h := y]> l) = position p l.
Proof.
  revert h. induction l as [|z l IH]; intros [|h] Hx Hp; simpl in *; simplify_eq; [by rewrite Hp|].
  by rewrite (IH h).
Qed.

Lemma position_None p l : position p l = None ↔ Forall (λ y, p y = false) l.
Proof.
  induction l as [|x l IH]; simpl; [split; auto|].
  destruct (p x) eqn:Hx; [split; [done|intros H; inversion H; congruence]|].
  rewrite fmap_None, IH. split; [auto | intros H; by inversion H].
Qed.

(** [Vec::remove] at an index a search returned, and what is left. *)
Lemma delete_perm l i x : l !! i = Some x → Permutation l (x :: delete i l).
Proof.
  intros H. rewrite delete_take_drop, <-(take_drop_middle l i x H) at 1.
  symmetry. apply Permutation_middle.
Qed.

Lemma StronglySorted_delete (R : relation A) l i :
  StronglySorted R l → StronglySorted R (delete i l).
Proof.
  intros Hs. revert i. induction Hs as [|x l Hs IH HF]; intros [|i]; simpl; auto.
  - constructor.
  - constructor.
  - constructor; [apply IH|]. by apply Forall_delete.
Qed.

Lemma StronglySorted_app (R : relation A) l1 l2 :
  StronglySorted R (l1 ++ l2) ↔
  StronglySorted R l1 ∧ StronglySorted R l2 ∧ (∀ x y, x ∈ l1 → y ∈ l2 → R x y).
Proof.
  induction l1 as [|a l1 IH]; simpl.
  - split; [intros; split_and!; auto; [constructor|intros ?? ?%not_elem_of_nil; done]|naive_solver].
  - split.
    + inversion 1 as [|?? Hs HF]; subst. apply IH in Hs as (H1 & H2 & H3).
      apply Forall_app in HF as [F1 F2]. split_and!; auto; [by constructor|].
      intros x y [->|Hx]%elem_of_cons Hy; [|by apply H3].
      rewrite Forall_forall in F2. by apply F2.
    + intros (H1 & H2 & H3). inversion H1; subst. constructor.
      * apply IH. split_and!; auto. intros. apply H3; [by right|done].
      * apply Forall_app; split; [done|]. apply Forall_forall. intros. apply H3; [by left|done].
Qed.
End vec.

(** * [sort_by_key], which is stable *)

Section sort.
Context {A : Type} (key : A → Z).

Fixpoint insert_by (x : A) (l : list A) : list A :=
  match l with
  | [] => [x]
  | y :: l' => if key x <=? key y then x :: l else y :: insert_by x l'
  end.

Definition sort_by_key (l : list A) : list A := foldr insert_by [] l.

Lemma insert_by_perm x l : Permutation (insert_by x l) (x :: l).
Proof.
  induction l as [|y l IH]; simpl; [done|]. destruct (key x <=? key y); [done|].
  rewrite IH. apply perm_swap.
Qed.

Lemma sort_by_key_perm l : Permutation (sort_by_key l) l.
Proof. induction l as [|x l IH]; simpl; [done|]. by rewrite insert_by_perm, IH. Qed.

Definition key_le (x y : A) : Prop := key x ≤ key y.

Lemma insert_by_sorted x l : StronglySorted key_le l → StronglySorted key_le (insert_by x l).
Proof.
  unfold key_le. induction 1 as [|y l Hs IH HF]; simpl; [repeat constructor|].
  destruct (Z.leb_spec (key x) (key y)).
  - constructor; [by constructor|]. constructor; [done|].
    eapply Forall_impl; [apply HF|]. simpl. intros; lia.
  - constructor; [done|]. rewrite insert_by_perm. constructor; [lia|done].
Qed.

Lemma sort_by_key_sorted l : StronglySorted key_le (sort_by_key l).
Proof. induction l; simpl; [constructor | by apply insert_by_sorted]. Qed.

Lemma sort_by_key_id l : StronglySorted key_le l → sort_by_key l = l.
Proof.
  induction 1 as [|x l Hs IH HF]; simpl; [done|]. rewrite IH.
  destruct l as [|y l]; simpl; [done|]. inversion HF; subst.
  unfold key_le in *. by rewrite (proj2 (Z.leb_le _ _)).
Qed.
End sort.

(** * [retain], which is [filter] *)

Lemma filter_all {A} (P : A → Prop) `{∀ x, Decision (P x)} l : Forall P l → filter P l = l.
Proof. induction 1; [done|]. rewrite filter_cons_True by done. by f_equal. Qed.
Lemma filter_none {A} (P : A → Prop) `{∀ x, Decision (P x)} l : Forall (λ x, ¬ P x) l → filter P l = [].
Proof. induction 1; [done|]. by rewrite filter_cons_False. Qed.

Lemma filter_ext_in {A} (P Q : A → Prop) `{∀ x, Decision (P x)} `{∀ x, Decision (Q x)} (l : list A) :
  (∀ x, x ∈ l → P x ↔ Q x) → filter P l = filter Q l.
Proof.
  induction l as [|x l IH]; intros HPQ; [done|].
  specialize (IH (λ y Hy, HPQ y (list_elem_of_further _ _ _ Hy))).
  destruct (decide (P x)) as [HP|HP].
  - rewrite !filter_cons_True; [by rewrite IH| |done]. apply HPQ; [by left|done].
  - rewrite !filter_cons_False; [done| |done]. intros HQ. apply HP, HPQ; [by left|done].
Qed.

Lemma Forall_retain {A} (P Q : A → Prop) `{∀ x, Decision (Q x)} (l : list A) :
  Forall P l → Forall P (filter Q l).
Proof.
  rewrite !Forall_forall. intros HP x [_ Hx]%list_elem_of_filter. auto.
Qed.

Lemma NoDup_fmap_retain {A B} (f : A → B) (Q : A → Prop) `{∀ x, Decision (Q x)} (l : list A) :
  NoDup (f <$> l) → NoDup (f <$> filter Q l).
Proof.
  induction l as [|x l IH]; [done|]. rewrite fmap_cons. intros [Hx Hl]%NoDup_cons.
  destruct (decide (Q x)).
  - rewrite filter_cons_True, fmap_cons by done. constructor; [|by apply IH].
    intros (y & Hy & [_ Hyl]%list_elem_of_filter)%list_elem_of_fmap. apply Hx. rewrite Hy.
    by apply list_elem_of_fmap_2.
  - rewrite filter_cons_False by done. by apply IH.
Qed.

Lemma StronglySorted_retain {A} (R : relation A) (Q : A → Prop) `{∀ x, Decision (Q x)} (l : list A) :
  StronglySorted R l → StronglySorted R (filter Q l).
Proof.
  induction 1 as [|x l Hs IH HF]; [constructor|]. destruct (decide (Q x)).
  - rewrite filter_cons_True by done. constructor; [done|]. by apply Forall_retain.
  - by rewrite filter_cons_False.
Qed.

(** A sorted permutation with distinct keys is unique, so an unstable sort on
    such keys is the stable one. *)
Lemma sorted_perm_unique {A} (key : A → Z) l k :
  StronglySorted (key_le key) l → StronglySorted (key_le key) k →
  NoDup (key <$> l) → Permutation l k → l = k.
Proof.
  intros Hl. revert k. induction Hl as [|x l Hs IH HF]; intros k Hk Hd Hp.
  { symmetry. apply Permutation_nil. done. }
  destruct Hk as [|y k Hk HG]; [apply Permutation_nil; by symmetry|].
  rewrite fmap_cons in Hd. apply NoDup_cons in Hd as [Hn Hd].
  rewrite Forall_forall in HF, HG.
  assert (x = y) as <-.
  { assert (y ∈ x :: l) as Hy by (rewrite Hp; by left).
    assert (x ∈ y :: k) as Hx by (rewrite <-Hp; by left).
    apply elem_of_cons in Hy as [->|Hy]; [done|]. apply elem_of_cons in Hx as [->|Hx]; [done|].
    specialize (HF y Hy). specialize (HG x Hx). unfold key_le in *.
    exfalso. apply Hn. replace (key x) with (key y) by lia. by apply list_elem_of_fmap_2. }
  f_equal. apply IH; [done|done|]. by apply Permutation_cons_inv in Hp.
Qed.

Lemma StronglySorted_fmap {A B} (f : A → B) (R : relation A) (S : relation B) l :
  (∀ x y, R x y → S (f x) (f y)) → StronglySorted R l → StronglySorted S (f <$> l).
Proof.
  intros HRS. induction 1 as [|x l Hs IH HF]; [constructor|]. rewrite fmap_cons.
  constructor; [done|]. apply Forall_fmap. eapply Forall_impl; [exact HF|]. simpl. auto.
Qed.

Lemma NoDup_of_submseteq {A} (l k : list A) : NoDup k → l ⊆+ k → NoDup l.
Proof.
  intros Hk [k' Hp]%submseteq_Permutation. rewrite Hp in Hk. by apply NoDup_app in Hk as [? _].
Qed.

Lemma sublist_list_filter {A} (p : A → bool) (l : list A) : List.filter p l `sublist_of` l.
Proof. induction l as [|a l IH]; simpl; [done|]. destruct (p a); by constructor. Qed.
Lemma in_list_filter {A} (p : A → bool) (l : list A) x : x ∈ List.filter p l ↔ x ∈ l ∧ p x = true.
Proof. rewrite !list_elem_of_In. apply filter_In. Qed.
