(* ===== verification/SortedVec.v ===== *)
(** A [Vec<(K, V)>] kept sorted by key and searched with
    [binary_search_by_key]: the representation of [Balances] and [Rates].
    The client's key type promises a total order ([KeyOrder]); this file
    promises back the lookup and update laws of a map. *)

From S2P Require Import Prelude Slices.

(** What [Ord] on a key type promises. *)
Class KeyOrder (K : Type) := {
  kcmp : K → K → comparison;
  kcmp_eq : ∀ x y, kcmp x y = Eq ↔ x = y;
  kcmp_sym : ∀ x y, kcmp y x = CompOpp (kcmp x y);
  kcmp_trans : ∀ x y z, kcmp x y = Lt → kcmp y z = Lt → kcmp x z = Lt;
}.

Lemma kcmp_refl `{KeyOrder K} x : kcmp x x = Eq.
Proof. by apply kcmp_eq. Qed.

#[export] Program Instance Z_key : KeyOrder Z := { kcmp := Z.compare }.
Next Obligation. intros. apply Z.compare_eq_iff. Qed.
Next Obligation. intros. apply Z.compare_antisym. Qed.
Next Obligation. intros x y z. rewrite !Z.compare_lt_iff. lia. Qed.

(** Pairs compare lexicographically, as a derived [Ord] does. *)
Definition pair_cmp {K L} `{KeyOrder K, KeyOrder L} (a b : K * L) : comparison :=
  match kcmp a.1 b.1 with Eq => kcmp a.2 b.2 | c => c end.

#[export] Program Instance pair_key `{KeyOrder K, KeyOrder L} : KeyOrder (K * L) :=
  { kcmp := pair_cmp }.
Next Obligation.
  intros K ? L ? [a1 a2] [b1 b2]. unfold pair_cmp; simpl.
  destruct (kcmp a1 b1) eqn:E; rewrite ?kcmp_eq in *; split; try congruence.
  all: intros [= -> ->]; rewrite kcmp_refl in E; congruence.
Qed.
Next Obligation.
  intros K ? L ? [a1 a2] [b1 b2]. unfold pair_cmp; simpl.
  rewrite (kcmp_sym a1 b1). destruct (kcmp a1 b1) eqn:E; simpl; [apply kcmp_sym|done|done].
Qed.
Next Obligation.
  intros K ? L ? [a1 a2] [b1 b2] [c1 c2]. unfold pair_cmp; simpl.
  destruct (kcmp a1 b1) eqn:E1, (kcmp b1 c1) eqn:E2; rewrite ?kcmp_eq in *; subst; try done.
  - rewrite kcmp_refl. apply kcmp_trans.
  - by rewrite E2.
  - by rewrite E1.
  - by rewrite (kcmp_trans _ _ _ E1 E2).
Qed.

(** Byte arrays compare lexicographically; the arrays here have one length. *)
Fixpoint list_cmp (a b : list Z) : comparison :=
  match a, b with
  | [], [] => Eq
  | [], _ => Lt
  | _, [] => Gt
  | x :: a, y :: b => match x ?= y with Eq => list_cmp a b | c => c end
  end.

#[export] Program Instance list_key : KeyOrder (list Z) := { kcmp := list_cmp }.
Next Obligation.
  induction x as [|x a IH]; intros [|y b]; simpl; try (split; congruence).
  destruct (Z.compare_spec x y) as [->| |]; [|split; [done|intros [= -> ->]; lia]..].
  rewrite IH. split; congruence.
Qed.
Next Obligation.
  induction x as [|x a IH]; intros [|y b]; simpl; try done.
  rewrite (Z.compare_antisym x y). destruct (x ?= y); simpl; [apply IH|done|done].
Qed.
Next Obligation.
  induction x as [|x a IH]; intros [|y b] [|z c]; simpl; try done.
  destruct (Z.compare_spec x y) as [->| |]; destruct (Z.compare_spec y z) as [->| |]; try done.
  - rewrite ?Z.compare_refl. apply IH.
  - by rewrite ?(proj2 (Z.compare_lt_iff _ _)) by lia.
  - by rewrite ?(proj2 (Z.compare_lt_iff _ _)) by lia.
Qed.

Section sorted_vec.
Context {K V : Type} `{!KeyOrder K}.
Implicit Types (l : list (K * V)) (k : K).

(** [v.binary_search_by_key(&k, |(c, _)| *c)]. *)
Definition search k l : result nat nat := binary_search_by (λ e, kcmp e.1 k) l.

Definition sv_get k l : option V :=
  match search k l with Ok i => snd <$> l !! i | Err _ => None end.

(** Update the entry the search found, or insert one where it belongs. *)
Definition sv_upsert k (found : V → V) (fresh : V) l : list (K * V) :=
  match search k l with
  | Ok i => match l !! i with Some e => <[i := (e.1, found e.2)]> l | None => l end
  | Err i => vec_insert i (k, fresh) l
  end.

Definition key_lt (a b : K * V) : Prop := kcmp a.1 b.1 = Lt.
Definition sv_ok l : Prop := StronglySorted key_lt l.

(** A sorted vector splits around any key. *)
Lemma sv_split k l : sv_ok l →
  ∃ l1 m l2, l = l1 ++ option_list m ++ l2 ∧
    ordered_by (λ e, kcmp e.1 k) l1 m l2 ∧ (∀ e, m = Some e → e.1 = k).
Proof.
  induction 1 as [|e l Hs (l1 & m & l2 & -> & [H1 H2 H3] & Hm) HF].
  { exists [], None, []. repeat split; try constructor; done. }
  destruct (kcmp e.1 k) eqn:E.
  - apply kcmp_eq in E as <-. exists [], (Some e), (l1 ++ option_list m ++ l2).
    split_and!; [done| |naive_solver]. split; [done|intros ? [= <-]; apply kcmp_refl|].
    eapply Forall_impl; [apply HF|]. intros y Hy. unfold key_lt in Hy. by rewrite kcmp_sym, Hy.
  - exists (e :: l1), m, l2. split_and!; [done| |done]. split; auto.
  - exists [], None, (e :: l1 ++ option_list m ++ l2). split_and!; [done| |done].
    split; [constructor|done|]. constructor; [done|].
    eapply Forall_impl; [apply HF|]. intros y Hy. unfold key_lt in Hy.
    rewrite kcmp_sym. rewrite kcmp_sym in E. destruct (kcmp k e.1) eqn:E'; try done.
    by rewrite (kcmp_trans _ _ _ E' Hy).
Qed.

Lemma search_split k l1 m l2 :
  ordered_by (λ e : K * V, kcmp e.1 k) l1 m l2 →
  search k (l1 ++ option_list m ++ l2) =
    match m with Some _ => Ok (length l1) | None => Err (length l1) end.
Proof. apply binary_search_by_spec. Qed.

Lemma sv_get_split k l1 m l2 :
  ordered_by (λ e : K * V, kcmp e.1 k) l1 m l2 →
  sv_get k (l1 ++ option_list m ++ l2) = snd <$> m.
Proof.
  intros H. unfold sv_get. rewrite search_split by done. destruct m; [|done]. simpl.
  by rewrite list_lookup_middle.
Qed.

(** Membership and lookup agree. *)
Lemma sv_get_elem k v l : sv_ok l → sv_get k l = Some v ↔ (k, v) ∈ l.
Proof.
  intros Hok. destruct (sv_split k l Hok) as (l1 & m & l2 & -> & Hob & Hm).
  rewrite sv_get_split by done. rewrite !elem_of_app. split.
  - intros ([k' v'] & Hk & ->)%fmap_Some. rewrite Hk in *. specialize (Hm _ eq_refl). simpl in *.
    subst. right; left. by apply list_elem_of_singleton.
  - destruct Hob as [H1 H2 H3]. rewrite !Forall_forall in H1, H3.
    intros [Hin|[Hin|Hin]].
    + apply H1 in Hin. simpl in Hin. by rewrite kcmp_refl in Hin.
    + destruct m; [|by apply not_elem_of_nil in Hin]. by apply list_elem_of_singleton in Hin as <-.
    + apply H3 in Hin. simpl in Hin. by rewrite kcmp_refl in Hin.
Qed.

Lemma sv_upsert_split k f v l1 m l2 :
  ordered_by (λ e : K * V, kcmp e.1 k) l1 m l2 → (∀ e, m = Some e → e.1 = k) →
  sv_upsert k f v (l1 ++ option_list m ++ l2) =
    l1 ++ [(k, match m with Some e => f e.2 | None => v end)] ++ l2.
Proof.
  intros Hob Hm. unfold sv_upsert. rewrite search_split by done. destruct m as [e|]; simpl.
  - rewrite list_lookup_middle by done. rewrite <-(Hm e eq_refl).
    by rewrite insert_app_r_alt, Nat.sub_diag by done.
  - by rewrite vec_insert_app.
Qed.

Lemma sv_upsert_ok k f v l : sv_ok l → sv_ok (sv_upsert k f v l).
Proof.
  intros Hok. destruct (sv_split k l Hok) as (l1 & m & l2 & -> & Hob & Hm).
  rewrite sv_upsert_split by done. unfold sv_ok in *.
  apply StronglySorted_app in Hok as (S1 & S2 & S12).
  apply StronglySorted_app in S2 as (_ & S2 & Sm).
  destruct Hob as [H1 H2 H3]. rewrite Forall_forall in H1, H3.
  apply StronglySorted_app. split_and!; [done| |].
  - simpl. constructor; [done|]. apply Forall_forall. intros e He. unfold key_lt. simpl.
    apply H3 in He. by rewrite kcmp_sym, He.
  - intros x y Hx [->%list_elem_of_singleton|Hy]%elem_of_app; [by apply H1|].
    apply S12; [done|]. apply elem_of_app; by right.
Qed.

Lemma sv_get_upsert k k' f v l : sv_ok l →
  sv_get k' (sv_upsert k f v l) =
    if decide (kcmp k' k = Eq) then Some (match sv_get k l with Some x => f x | None => v end)
    else sv_get k' l.
Proof.
  intros Hok. apply option_eq. intros x.
  rewrite sv_get_elem by (by apply sv_upsert_ok).
  destruct (sv_split k l Hok) as (l1 & m & l2 & -> & Hob & Hm).
  rewrite sv_upsert_split, sv_get_split by done. destruct (decide _) as [->%kcmp_eq|Hne].
  - rewrite !elem_of_app, list_elem_of_singleton. destruct Hob as [H1 H2 H3].
    rewrite Forall_forall in H1, H3. split.
    + intros [Hin|[[= ->]|Hin]].
      * apply H1 in Hin. simpl in Hin. by rewrite kcmp_refl in Hin.
      * by destruct m.
      * apply H3 in Hin. simpl in Hin. by rewrite kcmp_refl in Hin.
    + intros [= <-]. right; left. by destruct m.
  - rewrite sv_get_elem by done. rewrite !elem_of_app, list_elem_of_singleton.
    assert (∀ y, (k', y) ∉ option_list m ∧ (k', x) ≠ (k, y)) as Hx.
    { intros y. split.
      - destruct m as [e|]; simpl; [|apply not_elem_of_nil].
        intros Hin%list_elem_of_singleton. subst. specialize (Hm _ eq_refl). simpl in Hm.
        subst. by rewrite kcmp_refl in Hne.
      - intros [= -> _]. by rewrite kcmp_refl in Hne. }
    destruct (Hx x) as [Hx1 _].
    destruct (Hx (match m with Some e => f e.2 | None => v end)) as [_ Hx2]. tauto.
Qed.
End sorted_vec.
