(* ===== verification/Text.v ===== *)
(** Text as the standard library has it: a [str] is its UTF-8 bytes. *)

From stdpp Require Import strings pretty.
From S2P Require Import Prelude.
#[local] Open Scope Z_scope.

Abbreviation text := (list Z).
Implicit Types (s : text).

(** The bytes of a text in the source. *)
Definition text_of (x : string) : text := (λ a, Z.of_N (Ascii.N_of_ascii a)) <$> String.list_ascii_of_string x.
(** [{}] of an [i64]. *)
Definition shown (z : Z) : text := text_of (pretty z).

(** [eq_ignore_ascii_case]. *)
Definition ascii_lower (b : Z) : Z := if (65 <=? b) && (b <=? 90) then b + 32 else b.
Definition ascii_upper (b : Z) : Z := if (97 <=? b) && (b <=? 122) then b - 32 else b.
Definition eq_ignore_ascii_case (a b : text) : bool := bool_decide (ascii_lower <$> a = ascii_lower <$> b).
(** [str::trim]: the characters of [White_Space], in UTF-8. *)
Definition white_space : list text :=
  ((λ b, [b]) <$> [9; 10; 11; 12; 13; 32]) ++ [[194; 133]; [194; 160]; [225; 154; 128]] ++
  ((λ b, [226; 128; b]) <$> [128; 129; 130; 131; 132; 133; 134; 135; 136; 137; 138; 168; 169; 175]) ++
  [[226; 129; 159]; [227; 128; 128]].
Definition starts_with s (w : text) : bool := bool_decide (take (length w) s = w).
Fixpoint trim_start_loop (n : nat) s : text :=
  match n with
  | O => s
  | S n => match find (starts_with s) white_space with Some w => trim_start_loop n (drop (length w) s) | None => s end
  end.
Definition trim_start s : text := trim_start_loop (length s) s.
Definition ends_with s (w : text) : bool := (length w <=? length s)%nat && bool_decide (drop (length s - length w) s = w).
Fixpoint trim_end_loop (n : nat) s : text :=
  match n with
  | O => s
  | S n => match find (ends_with s) white_space with
           | Some w => trim_end_loop n (take (length s - length w) s)
           | None => s
           end
  end.
Definition trim s : text := let s := trim_start s in trim_end_loop (length s) s.

(** [UTF-8], as the Unicode standard's table of well-formed sequences has it. *)
Definition tail_byte (b : Z) : bool := (128 <=? b) && (b <=? 191).
Definition within_ (lo hi b : Z) : bool := (lo <=? b) && (b <=? hi).
Fixpoint utf8 (bs : list Z) : bool :=
  match bs with
  | [] => true
  | a :: r0 =>
      if within_ 0 127 a then utf8 r0
      else
        match r0 with
        | [] => false
        | b :: r1 =>
            if within_ 194 223 a then tail_byte b && utf8 r1
            else
              match r1 with
              | [] => false
              | c :: r2 =>
                  if within_ 224 239 a then
                    within_ (if a =? 224 then 160 else 128) (if a =? 237 then 159 else 191) b && tail_byte c && utf8 r2
                  else
                    match r2 with
                    | [] => false
                    | d :: r3 =>
                        within_ 240 244 a && within_ (if a =? 240 then 144 else 128) (if a =? 244 then 143 else 191) b &&
                        tail_byte c && tail_byte d && utf8 r3
                    end
              end
        end
  end.

(** The character at the head of a UTF-8 text, and its characters. *)
Definition char_len (b : Z) : nat := if b <? 128 then 1 else if b <? 224 then 2 else if b <? 240 then 3 else 4.
Fixpoint chars_loop (fuel : nat) s : list text :=
  match fuel, s with
  | S fuel, b :: _ => take (char_len b) s :: chars_loop fuel (drop (char_len b) s)
  | _, _ => []
  end.
Definition chars s : list text := chars_loop (length s) s.
(** [str::find] of a text. *)
Fixpoint find_text (needle s : text) : option nat :=
  if starts_with s needle then Some 0%nat
  else match s with [] => None | _ :: s => S <$> find_text needle s end.

(** * Numbers *)

Definition is_digit (c : Z) : bool := (48 <=? c) && (c <=? 57).
Definition digits_value s : Z := fold_left (λ v c, v * 10 + (c - 48)) s 0.
Fixpoint trim_signs s : text :=
  match s with
  | c :: s' => if (c =? 45) || (c =? 43) then trim_signs s' else s
  | [] => []
  end.
(** [str::parse::<i128>] of a text with no sign. *)
Definition parse_digits s : option Z :=
  if bool_decide (s = []) || negb (forallb is_digit s) then None
  else if decide (i128 (digits_value s)) then Some (digits_value s) else None.

(** The order of [str]: bytewise. *)
Fixpoint text_leb (a b : text) : bool :=
  match a, b with
  | [], _ => true
  | _ :: _, [] => false
  | x :: a, y :: b => (x <? y) || ((x =? y) && text_leb a b)
  end.
Definition text_le (a b : text) : Prop := text_leb a b = true.
#[export] Instance text_le_dec : RelDecision text_le.
Proof. intros a b. unfold text_le. apply _. Defined.
(** [sort_by] on a name, which is stable. *)
Fixpoint insert_named {A} (name : A → text) (x : A) (l : list A) : list A :=
  match l with
  | [] => [x]
  | y :: l' => if text_leb (name x) (name y) then x :: l else y :: insert_named name x l'
  end.
Definition sort_named {A} (name : A → text) (l : list A) : list A := foldr (insert_named name) [] l.

(** * Printed numbers *)

#[export] Instance text_of_inj : Inj (=) (=) text_of.
Proof.
  intros x. unfold text_of. induction x as [|a x IH]; intros [|b y] H; try done. simpl in H. injection H as Ha H.
  f_equal; [|by apply IH]. apply N2Z.inj in Ha.
  rewrite <-(Ascii.ascii_N_embedding a), <-(Ascii.ascii_N_embedding b). congruence.
Qed.
#[export] Instance shown_inj : Inj (=) (=) shown.
Proof. intros x y H. by apply (inj text_of) in H; apply (inj pretty) in H. Qed.
Lemma text_of_cons a x : text_of (String a x) = Z.of_N (Ascii.N_of_ascii a) :: text_of x.
Proof. done. Qed.

(** [Path::join]: an absolute path replaces, a relative one follows a slash. *)
Definition path_join (a b : text) : text :=
  if starts_with b [47] then b
  else if bool_decide (a = []) || ends_with a [47] then a ++ b
  else a ++ [47] ++ b.

Definition ascii s : Prop := Forall (λ b, 0 ≤ b ≤ 127) s.
Definition number s (z : Z) : Prop := s ≠ [] ∧ forallb is_digit s = true ∧ digits_value s = z.

Lemma digits_value_from v s : fold_left (λ v c, v * 10 + (c - 48)) s v = v * 10 ^ Z.of_nat (length s) + digits_value s.
Proof.
  unfold digits_value. revert v. induction s as [|c s IH]; intros v; [simpl; lia|].
  cbn [fold_left length]. rewrite IH, (IH (0 * 10 + (c - 48))). replace (Z.of_nat (S (length s))) with (Z.of_nat (length s) + 1) by lia.
  rewrite Z.pow_add_r by lia. lia.
Qed.
Lemma digits_value_cons c s : digits_value (c :: s) = (c - 48) * 10 ^ Z.of_nat (length s) + digits_value s.
Proof. unfold digits_value at 1. cbn [fold_left]. rewrite digits_value_from. lia. Qed.

Lemma pretty_char (x : N) : (x < 10)%N → Z.of_N (Ascii.N_of_ascii (pretty_N_char x)) = 48 + Z.of_N x.
Proof.
  intros H. assert (x = 0 ∨ x = 1 ∨ x = 2 ∨ x = 3 ∨ x = 4 ∨ x = 5 ∨ x = 6 ∨ x = 7 ∨ x = 8 ∨ x = 9)%N as Hx by lia.
  by destruct_or! Hx; subst.
Qed.

Lemma shown_go (x : N) : ∀ y, forallb is_digit (text_of y) = true →
  forallb is_digit (text_of (pretty_N_go x y)) = true ∧
  digits_value (text_of (pretty_N_go x y)) =
    Z.of_N x * 10 ^ Z.of_nat (length (text_of y)) + digits_value (text_of y) ∧
  (y ≠ ""%string ∨ (0 < x)%N → text_of (pretty_N_go x y) ≠ []).
Proof.
  induction (N.lt_wf_0 x) as [x _ IH]; intros y Hy. destruct (decide (x = 0)%N) as [->|Hx].
  { rewrite pretty_N_go_0. split_and!; [done|lia|]. intros [Hne|?]; [|lia]. by destruct y. }
  rewrite pretty_N_go_step by lia. set (c := (x `mod` 10)%N). assert (c < 10)%N as Hc by (by apply N.mod_lt).
  destruct (IH (x / 10)%N ltac:(by apply N.div_lt; lia) (String (pretty_N_char c) y)) as (H1 & H2 & H3).
  { rewrite text_of_cons. cbn [forallb]. rewrite pretty_char, Hy by done. unfold is_digit. lia. }
  split_and!; [done| |intros _; apply H3; by left]. rewrite H2, text_of_cons, digits_value_cons, pretty_char by done.
  cbn [length]. rewrite Nat2Z.inj_succ, Z.pow_succ_r by lia.
  pose proof (N.div_mod x 10 ltac:(done)) as Hd. fold c in Hd. apply (f_equal Z.of_N) in Hd.
  rewrite N2Z.inj_add, N2Z.inj_mul in Hd. lia.
Qed.

(** A number that is not negative prints as digits, and reads back. *)
Lemma shown_number z : 0 ≤ z → number (shown z) z.
Proof.
  intros Hz. unfold shown. destruct z as [|p|p]; [done| |lia]. change (pretty (Z.pos p)) with (pretty_N_go (N.pos p) "").
  destruct (shown_go (N.pos p) "" eq_refl) as (H1 & H2 & H3). split_and!; [apply H3; right; lia|done|].
  rewrite H2. unfold digits_value; simpl. lia.
Qed.
Lemma number_ascii s z : number s z → ascii s.
Proof.
  intros (_ & H & _). apply Forall_forall. intros b Hb. rewrite forallb_forall in H. specialize (H b ltac:(by apply list_elem_of_In)). unfold is_digit in H. lia.
Qed.
Lemma shown_ascii z : ascii (shown z).
Proof.
  destruct (Z.le_gt_cases 0 z) as [Hz|Hz]; [by eapply number_ascii, shown_number|]. destruct z as [|p|p]; try lia.
  change (shown (Z.neg p)) with (45 :: shown (Z.pos p)). constructor; [done|].
  eapply number_ascii, (shown_number (Z.pos p)). lia.
Qed.
Lemma ascii_app a b : ascii a → ascii b → ascii (a ++ b).
Proof. apply Forall_app_2. Qed.
(** ASCII is UTF-8. *)
Lemma ascii_utf8 s : ascii s → utf8 s = true.
Proof.
  induction 1 as [|x s Hx _ IH]; [done|]. cbn [utf8].
  assert (within_ 0 127 x = true) as -> by (unfold within_; lia). done.
Qed.
Lemma shown_go_length (k : nat) : ∀ x y, (x < 10 ^ N.of_nat k)%N →
  (length (text_of (pretty_N_go x y)) ≤ k + length (text_of y))%nat.
Proof.
  induction k as [|k IH]; intros x y Hx.
  { change (10 ^ N.of_nat 0)%N with 1%N in Hx. assert (x = 0)%N as -> by lia. rewrite pretty_N_go_0. simpl. lia. }
  destruct (decide (x = 0)%N) as [->|]; [rewrite pretty_N_go_0; lia|]. rewrite pretty_N_go_step by lia.
  etrans; [apply IH|rewrite text_of_cons; simpl; lia].
  rewrite Nat2N.inj_succ, N.pow_succ_r in Hx by lia. apply N.Div0.div_lt_upper_bound. lia.
Qed.
Lemma shown_length z : 0 ≤ z < 10 ^ 20 → (length (shown z) ≤ 20)%nat.
Proof.
  intros [H0 H]. destruct z as [|p|p]; [vm_compute; lia| |lia].
  unfold shown. change (pretty (Z.pos p)) with (pretty_N_go (N.pos p) "").
  etrans; [apply (shown_go_length 20)|simpl; lia]. change (10 ^ N.of_nat 20)%N with 100000000000000000000%N. lia.
Qed.

(** * Order *)

Lemma text_leb_total a b : text_leb a b = false → text_leb b a = true.
Proof.
  revert b. induction a as [|x a IH]; intros [|y b]; cbn [text_leb]; try done. intros H.
  apply orb_false_iff in H as [H1 H2]. destruct (Z.eqb_spec x y) as [->|]; [|lia]. rewrite Z.eqb_refl, Z.ltb_irrefl in *. by apply IH.
Qed.
Lemma text_leb_refl a : text_leb a a = true.
Proof. induction a as [|x a IH]; cbn [text_leb]; [done|]. rewrite Z.eqb_refl, IH. by rewrite orb_true_r. Qed.
Lemma insert_named_perm {A} (name : A → text) x l : Permutation (insert_named name x l) (x :: l).
Proof.
  induction l as [|y l IH]; cbn [insert_named]; [done|]. destruct (text_leb (name x) (name y)); [done|]. rewrite IH. apply perm_swap.
Qed.
Lemma sort_named_perm {A} (name : A → text) l : Permutation (sort_named name l) l.
Proof. induction l as [|x l IH]; [done|]. cbn [sort_named foldr]. fold (sort_named name l). by rewrite insert_named_perm, IH. Qed.
Lemma sort_named_sorted {A} (name : A → text) l : Sorted (λ a b, text_le (name a) (name b)) (sort_named name l).
Proof.
  assert (∀ x l, Sorted (λ a b, text_le (name a) (name b)) l → Sorted (λ a b, text_le (name a) (name b)) (insert_named name x l)) as H.
  { intros x k Hk. induction Hk as [|y k Hk IH Hy]; cbn [insert_named]; [repeat constructor|].
    destruct (text_leb (name x) (name y)) eqn:E; [repeat constructor; done|]. constructor; [done|].
    apply text_leb_total in E. destruct k as [|z k]; cbn [insert_named]; [by constructor|].
    inversion Hy; subst. destruct (text_leb (name x) (name z)); by constructor. }
  induction l as [|x l IH]; [constructor|]. by apply H.
Qed.
