(* ===== verification/Floats.v ===== *)
(** IEEE-754 binary64, with the executable floats of the Standard Library
    ([SpecFloat], 53 bits of precision, round to nearest even). *)

From Stdlib Require Import Floats.SpecFloat.
From stdpp Require Import strings.
From S2P Require Import Prelude Text.

Module F64.
Definition prec : Z := 53.
Definition emax : Z := 1024.

(** [x as f64] for an integer. *)
Definition of_int (z : Z) : spec_float := binary_normalize prec emax z 0 false.
Definition mul : spec_float → spec_float → spec_float := SFmul prec emax.
Definition div : spec_float → spec_float → spec_float := SFdiv prec emax.
Definition sqrt : spec_float → spec_float := SFsqrt prec emax.

(** [x as i64]: truncate toward zero, saturate, NaN is zero. *)
Definition to_i64 (x : spec_float) : Z :=
  match x with
  | S754_zero _ | S754_nan => 0
  | S754_infinity s => if s then I64_MIN else I64_MAX
  | S754_finite s m e =>
      let a := if 0 <=? e then Zpos m * 2 ^ e else Zpos m / 2 ^ (- e) in
      sat64 (if s then - a else a)
  end.
(** [x.round() as i64]: halves away from zero. *)
Definition round_i64 (x : spec_float) : Z :=
  match x with
  | S754_finite s m e =>
      let a := if 0 <=? e then Zpos m * 2 ^ e else (2 * Zpos m + 2 ^ (- e)) / (2 * 2 ^ (- e)) in
      sat64 (if s then - a else a)
  | _ => to_i64 x
  end.

Definition one : spec_float := of_int 1.
Definition add : spec_float → spec_float → spec_float := SFadd prec emax.
Definition neg : spec_float → spec_float := SFopp.
Definition ltb : spec_float → spec_float → bool := SFltb.
Definition eqb : spec_float → spec_float → bool := SFeqb.
Definition leb : spec_float → spec_float → bool := SFleb.
Definition zero : spec_float := S754_zero false.
Definition is_nan (x : spec_float) : bool := match x with S754_nan => true | _ => false end.
(** [f64::max]: the other one when one is not a number. *)
Definition max (x y : spec_float) : spec_float :=
  if is_nan x then y else if is_nan y then x else if ltb x y then y else x.
(** [f64::ceil]: below two to the 53 the result is exact, above it the number
    is an integer already. *)
Definition ceil (x : spec_float) : spec_float :=
  match x with
  | S754_finite s m e =>
      if 0 <=? e then x
      else
        let z := - ((if s then Z.pos m else - Z.pos m) / 2 ^ (- e)) in
        if z =? 0 then S754_zero s else of_int z
  | _ => x
  end.
Definition sub : spec_float → spec_float → spec_float := SFsub prec emax.
Definition abs : spec_float → spec_float := SFabs.
(** [f64::round]: halves away from zero. *)
Definition round (x : spec_float) : spec_float :=
  match x with
  | S754_finite s m e =>
      if 0 <=? e then x
      else
        let z := (2 * Zpos m + 2 ^ (- e)) / (2 * 2 ^ (- e)) in
        if z =? 0 then S754_zero s else of_int (if s then - z else z)
  | _ => x
  end.
(** [as u64]. *)
Definition to_u64 (x : spec_float) : Z :=
  match x with
  | S754_finite false m e => Z.min U64_MAX (Z.shiftl (Z.pos m) e)
  | S754_infinity false => U64_MAX
  | _ => 0
  end.
Definition is_finite (x : spec_float) : bool := match x with S754_zero _ | S754_finite _ _ _ => true | _ => false end.

(** [iter().sum()], from minus zero. *)
Definition sum (l : list spec_float) : spec_float := fold_left add l (S754_zero true).

(** [10_f64.powi(n)], by repeated squaring; exact up to [10^22]. *)
Fixpoint powi_loop (fuel : nat) (r a : spec_float) (n : Z) : spec_float :=
  match fuel with
  | O => r
  | S fuel =>
      let r := if Z.odd n then mul r a else r in
      let n := n / 2 in
      if n =? 0 then r else powi_loop fuel r (mul a a) n
  end.
Definition pow10 (n : Z) : spec_float := powi_loop 32 one (of_int 10) n.

(** The float nearest to [m * 10^e]. *)
Definition of_decimal (s : bool) (m e : Z) : spec_float :=
  match m with
  | Zpos p =>
      if 0 <=? e then match m * 10 ^ e with Zpos q => binary_round prec emax s q 0 | _ => S754_zero s end
      else match 10 ^ (- e) with
           | Zpos q => let '(mz, ez, lz) := SFdiv_core_binary prec emax (Zpos p) 0 (Zpos q) 0 in
                       binary_round_aux prec emax s mz ez lz
           | _ => S754_nan
           end
  | _ => S754_zero s
  end.

(** [str::parse::<f64>]. *)
Definition INF : text := text_of "inf".
Definition INFINITY : text := text_of "infinity".
Definition NAN : text := text_of "nan".
Definition parse_exponent (x : text) : option Z :=
  match x with
  | c :: ds =>
      let ds' := if (c =? 43) || (c =? 45) then ds else x in
      if bool_decide (ds' = []) || negb (forallb is_digit ds') then None
      else Some (if c =? 45 then - digits_value ds' else digits_value ds')
  | [] => None
  end.
Fixpoint digits_of (x : text) : text * text :=
  match x with
  | c :: x' => if is_digit c then let '(d, r) := digits_of x' in (c :: d, r) else ([], x)
  | [] => ([], [])
  end.
Definition parse_number (s : bool) (x : text) : option spec_float :=
  let '(whole, rest) := digits_of x in
  let '(frac, rest) := match rest with c :: r => if c =? 46 then digits_of r else ([], rest) | [] => ([], []) end in
  if bool_decide (whole ++ frac = []) then None
  else
    let value e := of_decimal s (digits_value (whole ++ frac)) (e - Z.of_nat (length frac)) in
    match rest with
    | [] => Some (value 0)
    | c :: r => if (c =? 69) || (c =? 101) then value <$> parse_exponent r else None
    end.
Definition parse (x : text) : option spec_float :=
  let '(s, x) := match x with c :: x' => if c =? 45 then (true, x') else if c =? 43 then (false, x') else (false, x) | [] => (false, []) end in
  if eq_ignore_ascii_case x INF || eq_ignore_ascii_case x INFINITY then Some (S754_infinity s)
  else if eq_ignore_ascii_case x NAN then Some S754_nan
  else parse_number s x.
End F64.
