(* ===== verification/Decimal.v ===== *)
(** Decimal numbers in texts: a sign, a whole and a fraction, and what they are
    worth in units of a scale. *)

From stdpp Require Import strings pretty.
From S2P Require Import Prelude Text.
#[local] Open Scope Z_scope.

Implicit Types (s : text).

(** [split_once] and [trim_end_matches]. *)
Fixpoint split_once (c : Z) s : option (text * text) :=
  match s with
  | [] => None
  | x :: s => if x =? c then Some ([], s) else '(a, b) ← split_once c s; Some (x :: a, b)
  end.
Fixpoint drop_zeros s : text := match s with c :: r => if c =? 48 then drop_zeros r else s | [] => [] end.
Definition trim_zeros s : text := rev (drop_zeros (rev s)).

(** * Exact decimals *)

(** A plain decimal: an optional minus, digits, and perhaps a point with more. *)
Record decimal s (neg : bool) (int frac : text) : Prop := {
  d_text : ∃ point, s = (if neg then [45] else []) ++ int ++ point ∧ (point = 46 :: frac ∨ (point = [] ∧ frac = []));
  d_some : int ++ frac ≠ [];
  d_int : forallb is_digit int = true;
  d_frac : forallb is_digit frac = true;
}.
(** [w] is what a decimal of these digits is worth, in units of the scale. *)
Definition worth (int frac : text) (scale : nat) (w : Z) : Prop :=
  w * 10 ^ Z.of_nat (length frac) = digits_value (int ++ frac) * 10 ^ Z.of_nat scale.
Definition signed (neg : bool) (w : Z) : Z := if neg then - w else w.

Lemma split_once_some c s a b : split_once c s = Some (a, b) → s = a ++ c :: b ∧ c ∉ a.
Proof.
  revert a b. induction s as [|x s IH]; intros a b; [done|]. cbn [split_once]. case_match eqn:E.
  { intros [= <- <-]. apply Z.eqb_eq in E as ->. split; [done|apply not_elem_of_nil]. }
  apply Z.eqb_neq in E. destruct (split_once c s) as [[a' b']|]; [|done]. intros [= <- <-].
  destruct (IH _ _ eq_refl) as [-> Ha]. split; [done|]. rewrite elem_of_cons. intros [->|?]; done.
Qed.
Lemma split_once_none c s : split_once c s = None ↔ c ∉ s.
Proof.
  induction s as [|x s IH]; [split; [intros _; apply not_elem_of_nil|done]|]. cbn [split_once]. rewrite elem_of_cons.
  destruct (Z.eqb_spec x c) as [->|]; [split; [done|intros []; by left]|].
  destruct (split_once c s) as [[]|] eqn:E; [|naive_solver]. apply split_once_some in E as [-> _].
  split; [done|]. intros []. right. rewrite elem_of_app, elem_of_cons. auto.
Qed.
Lemma split_once_app c a b : c ∉ a → split_once c (a ++ c :: b) = Some (a, b).
Proof.
  induction a as [|x a IH]; intros H; cbn [app split_once]; [by rewrite Z.eqb_refl|].
  rewrite elem_of_cons in H. destruct (Z.eqb_spec x c) as [->|]; [destruct H; by left|]. rewrite IH; [done|]. intros ?; apply H; by right.
Qed.
Lemma digits_none c s : forallb is_digit s = true → is_digit c = false → c ∉ s.
Proof. intros H Hc ?%list_elem_of_In. rewrite forallb_forall in H. apply H in H0. congruence. Qed.

Lemma digits_value_app a b : digits_value (a ++ b) = digits_value a * 10 ^ Z.of_nat (length b) + digits_value b.
Proof. unfold digits_value at 1. rewrite fold_left_app. apply digits_value_from. Qed.
Lemma digits_value_bound s : forallb is_digit s = true → 0 ≤ digits_value s < 10 ^ Z.of_nat (length s).
Proof.
  induction s as [|c s IH]; [done|]. intros [Hc Hs]%andb_true_iff. rewrite digits_value_cons. specialize (IH Hs).
  unfold is_digit in Hc. cbn [length]. rewrite Nat2Z.inj_succ, Z.pow_succ_r by lia. nia.
Qed.

(** The digits that count at a scale, with zeros where there are none. *)
Definition places (n : nat) (frac : text) : Z :=
  digits_value (take n frac) * 10 ^ Z.of_nat (n - length frac).
Lemma places_S n frac : places (S n) frac = (match frac with d :: _ => d - 48 | [] => 0 end) * 10 ^ Z.of_nat n + places n (tail frac).
Proof.
  unfold places. destruct frac as [|d frac].
  { cbn [tail]. rewrite !take_nil. unfold digits_value; cbn [fold_left]. lia. }
  cbn [take tail length Nat.sub]. rewrite digits_value_cons, length_take, Z.mul_add_distr_r. f_equal.
  rewrite <-Z.mul_assoc, <-Z.pow_add_r by lia. do 2 f_equal. lia.
Qed.
Lemma places_nonneg n frac : forallb is_digit frac = true → 0 ≤ places n frac.
Proof.
  intros H. unfold places. apply Z.mul_nonneg_nonneg; [|lia]. apply digits_value_bound. rewrite <-(take_drop n frac), forallb_app in H.
  by apply andb_true_iff in H as [? _].
Qed.

(** Zeros at the end count for nothing, and what is left ends in another digit. *)
Lemma trim_zeros_spec s : ∃ k, s = trim_zeros s ++ replicate k 48 ∧ (trim_zeros s = [] ∨ ∃ b c, trim_zeros s = b ++ [c] ∧ c ≠ 48).
Proof.
  unfold trim_zeros. induction s as [|c s IH] using rev_ind; [exists 0%nat; auto|]. rewrite rev_app_distr. cbn [rev app drop_zeros].
  destruct (Z.eqb_spec c 48) as [->|Hc].
  - destruct IH as (k & Hs & Hl). exists (S k). split; [|done]. rewrite Hs at 1. rewrite <-app_assoc. f_equal.
    by rewrite replicate_S_end.
  - exists 0%nat. cbn [rev]. rewrite rev_involutive, app_nil_r. split; [done|]. right. eauto.
Qed.
Lemma digits_value_zeros k : digits_value (replicate k 48) = 0.
Proof. induction k as [|k IH]; [done|]. cbn [replicate]. rewrite digits_value_cons, IH. lia. Qed.

Lemma places_exact n frac : (length (trim_zeros frac) ≤ n)%nat →
  places n frac * 10 ^ Z.of_nat (length frac) = digits_value frac * 10 ^ Z.of_nat n.
Proof.
  destruct (trim_zeros_spec frac) as (k & Hf & _). set (s := trim_zeros frac) in *. clearbody s. subst frac. intros Hn.
  unfold places. rewrite take_app_ge, take_replicate, !digits_value_app, !digits_value_zeros, !length_app, !length_replicate, !Z.add_0_r by done.
  rewrite <-!Z.mul_assoc, <-!Z.pow_add_r by lia. do 2 f_equal. lia.
Qed.

(** What the digits come to, where none past the scale counts. *)
Lemma worth_places int frac n : (length (trim_zeros frac) ≤ n)%nat → worth int frac n (digits_value int * 10 ^ Z.of_nat n + places n frac).
Proof. intros Hn. unfold worth. rewrite digits_value_app, !Z.mul_add_distr_r, places_exact by done. lia. Qed.
(** Nothing but zeros past the scale. *)
Lemma zeros_past frac n : existsb (λ c, negb (c =? 48)) (drop n frac) = false ↔ (length (trim_zeros frac) ≤ n)%nat.
Proof.
  destruct (trim_zeros_spec frac) as (k & Hf & Hl). split.
  - intros Hz. destruct (decide (length (trim_zeros frac) ≤ n)%nat) as [|Hn]; [done|]. exfalso. destruct Hl as [E|(b & c & E & Hc)]; [by rewrite E in Hn; simpl in Hn; lia|].
    rewrite Hf, E in Hz. rewrite E, length_app in Hn. cbn [length] in Hn. rewrite <- app_assoc, drop_app_le, existsb_app in Hz by lia. cbn [app existsb] in Hz.
    apply Z.eqb_neq in Hc. rewrite Hc in Hz. cbn [negb orb] in Hz. by rewrite orb_true_r in Hz.
  - intros Hn. rewrite Hf, drop_app_ge, drop_replicate by done. generalize (k - (n - length (trim_zeros frac)))%nat. intros m. by induction m.
Qed.
(** Past the scale, nothing exact. *)
Lemma too_precise_inexact int frac n w : forallb is_digit frac = true → (n < length (trim_zeros frac))%nat → ¬ worth int frac n w.
Proof.
  intros Hd Hn Hw. destruct (trim_zeros_spec frac) as (k & Hf & [E|(b & c & E & Hc)]); [by rewrite E in Hn; simpl in Hn; lia|].
  rewrite E in Hf, Hn. clear E. rewrite length_app in Hn. cbn [length] in Hn. unfold worth in Hw.
  rewrite Hf, app_assoc, digits_value_app, digits_value_zeros, app_assoc, digits_value_app, !length_app, length_replicate in Hw. cbn [length] in Hw.
  assert (is_digit c = true) as Hcd.
  { rewrite Hf, !forallb_app in Hd. apply andb_true_iff in Hd as [Hd _]. apply andb_true_iff in Hd as [_ Hd]. by apply andb_true_iff in Hd as [? _]. }
  unfold is_digit in Hcd. change (digits_value [c]) with (0 * 10 + (c - 48)) in Hw.
  set (A := digits_value (int ++ b)) in *. assert (∃ j, length b = (n + j)%nat) as [j Hj] by (exists (length b - n)%nat; lia).
  rewrite Hj in Hw.
  assert (10 * (w * 10 ^ Z.of_nat j - A) = c - 48); [|lia].
  apply (Z.mul_reg_r _ _ (10 ^ Z.of_nat n * 10 ^ Z.of_nat k)); [lia|].
  replace (Z.of_nat (n + j + 1 + k)) with (1 + Z.of_nat j + Z.of_nat n + Z.of_nat k) in Hw by lia.
  rewrite !Z.pow_add_r in Hw by lia. change (10 ^ Z.of_nat 1) with 10 in Hw. change (10 ^ 1) with 10 in Hw. lia.
Qed.

(** The sign, the whole and the fraction a text would have. *)
Definition reading s : bool * text * text :=
  let '(negative, digits) := match s with c :: r => if c =? 45 then (true, r) else (false, s) | [] => (false, s) end in
  let '(int_part, frac_part) := default (digits, []) (split_once 46 digits) in (negative, int_part, frac_part).
Lemma reading_text s : let '(neg, int, frac) := reading s in
  ∃ point, s = (if neg then [45] else []) ++ int ++ point ∧ (point = 46 :: frac ∨ (point = [] ∧ frac = [])).
Proof.
  unfold reading. set (q := match s with c :: r => if c =? 45 then (true, r) else (false, s) | [] => (false, s) end).
  assert (s = (if q.1 then [45] else []) ++ q.2) as Hs.
  { subst q. destruct s as [|c r]; [done|]. destruct (Z.eqb_spec c 45) as [->|]; done. }
  destruct q as [neg digits]. cbn [fst snd] in Hs. destruct (split_once 46 digits) as [[a b]|] eqn:E; cbn [default from_option id].
  - apply split_once_some in E as [-> _]. eauto.
  - exists []. rewrite app_nil_r. auto.
Qed.
Lemma decimal_reading s neg int frac : decimal s neg int frac → reading s = (neg, int, frac).
Proof.
  intros [(point & Hs & Hp) Hne Hi Hf]. unfold reading.
  assert ((match s with c :: r => if c =? 45 then (true, r) else (false, s) | [] => (false, s) end) = (neg, int ++ point)) as ->.
  { subst s. destruct neg; [done|]. cbn [app]. destruct int as [|c int].
    - destruct Hp as [->|[-> ->]]; done.
    - cbn [app]. destruct (Z.eqb_spec c 45) as [->|]; [done|done]. }
  destruct Hp as [->|[-> ->]].
  - by rewrite split_once_app by by apply digits_none.
  - rewrite app_nil_r. by rewrite (proj2 (split_once_none 46 int)) by by apply digits_none.
Qed.

Lemma worth_unique int frac n w w' : worth int frac n w → worth int frac n w' → w = w'.
Proof. unfold worth. intros H H'. rewrite <-H' in H. apply Z.mul_reg_r in H; [done|lia]. Qed.

(** * Printing at a width *)

(** [{:0n}] of a number that is not negative, and of any: the sign counts. *)
Definition padded (n : nat) (z : Z) : text := replicate (n - length (shown z)) 48 ++ shown z.
Definition zero_padded (n : nat) (z : Z) : text := if z <? 0 then 45 :: padded (n - 1) (- z) else padded n z.

Lemma padded_spec n z : 0 ≤ z < 10 ^ Z.of_nat n → (0 < n)%nat →
  length (padded n z) = n ∧ forallb is_digit (padded n z) = true ∧ digits_value (padded n z) = z.
Proof.
  intros Hz Hn. destruct (shown_number z) as (_ & Hd & Hv); [lia|].
  assert (length (shown z) ≤ n)%nat as Hl.
  { destruct z as [|p|p]; [change (shown 0) with [48]; simpl; lia| |lia]. unfold shown. change (pretty (Z.pos p)) with (pretty_N_go (N.pos p) EmptyString).
    etrans; [apply (shown_go_length n)|simpl; lia]. apply N2Z.inj_lt. rewrite N2Z.inj_pow. change (Z.of_N 10) with 10. rewrite nat_N_Z. simpl. lia. }
  unfold padded. rewrite length_app, length_replicate, forallb_app, Hd, digits_value_app, digits_value_zeros, Hv. split_and!; [lia| |lia].
  apply andb_true_iff; split; [|done]. clear. by induction (n - length (shown z))%nat.
Qed.
