(* ===== verification/Types.v ===== *)
(** The vocabulary crate [oq-types]: fixed-point money ([fixed.rs]), sides and
    fills ([lib.rs]), clocks ([time.rs]) and identifiers ([ids.rs]).  The
    newtypes over [i64] and [u64] are transparent abbreviations for [Z]; their
    range is carried by the hypotheses [i64] and [u64]. *)

From S2P Require Import Prelude.

Abbreviation PriceTicks := Z (only parsing).
Abbreviation QtyLots := Z (only parsing).
Abbreviation Cash := Z (only parsing).
Abbreviation Ratio := Z (only parsing).
Abbreviation Nanos := Z (only parsing).
Abbreviation OrderId := Z (only parsing).
Abbreviation TradeId := Z (only parsing).
Abbreviation InstrumentId := Z (only parsing).

(** Parts per billion, and cash units per quote unit. *)
Definition RATIO_SCALE : Z := 1000000000.
Definition CASH_SCALE : Z := 100000000.

Module Cash.
Definition ZERO : Cash := 0.
Definition from_units (units : Z) : Cash := sat64 (units * CASH_SCALE).
Definition add (self other : Cash) : Cash := sat64 (self + other).
Definition sub (self other : Cash) : Cash := sat64 (self - other).
Definition neg (self : Cash) : Cash := sat64 (- self).

(** [self * ratio / RATIO_SCALE] in [i128], truncated toward zero, clamped. *)
Definition scaled (self : Cash) (ratio : Ratio) : Cash :=
  let v := Z.quot (self * ratio) RATIO_SCALE in
  if v >? I64_MAX then I64_MAX else if v <? I64_MIN then I64_MIN else v.
End Cash.

Module Ratio.
Definition ZERO : Ratio := 0.
Definition ONE : Ratio := RATIO_SCALE.
Definition from_ppm (ppm : Z) : Ratio := sat64 (ppm * 1000).
Definition from_percent (percent : Z) : Ratio := sat64 (percent * Z.quot RATIO_SCALE 100).
End Ratio.

Inductive Side := Buy | Sell.
Inductive Liquidity := Maker | Taker.
Inductive Offset := Open | Close.

(** What a fill paid, and who said so. *)
Inductive Fee := Reported (c : Cash) | Unreadable | Unsaid.

#[export] Instance Side_eq_dec : EqDecision Side.
Proof. solve_decision. Defined.
#[export] Instance Liquidity_eq_dec : EqDecision Liquidity.
Proof. solve_decision. Defined.
#[export] Instance Offset_eq_dec : EqDecision Offset.
Proof. solve_decision. Defined.

Definition opposite (s : Side) : Side := match s with Buy => Sell | Sell => Buy end.
Definition sign (s : Side) : Z := match s with Buy => 1 | Sell => -1 end.

Module QtyLots.
Definition ZERO : QtyLots := 0.
Definition abs (q : QtyLots) : QtyLots := i64_saturating_abs q.
Definition is_zero (q : QtyLots) : bool := q =? 0.
Definition add (self other : QtyLots) : QtyLots := sat64 (self + other).
Definition sub (self other : QtyLots) : QtyLots := sat64 (self - other).
(** The signed side of a position, [None] when flat. *)
Definition side (q : QtyLots) : option Side :=
  if q >? 0 then Some Buy else if q <? 0 then Some Sell else None.
End QtyLots.

(** * Clocks *)

Definition NANOS_PER_DAY : Z := 86400000000000.

Module Nanos.
Definition ZERO : Nanos := 0.
Definition from_millis (ms : Z) : Nanos := sat64 (ms * 1000000).
Definition from_secs (s : Z) : Nanos := sat64 (s * 1000000000).
Definition as_millis (n : Nanos) : Z := Z.quot n 1000000.
Definition as_secs (n : Nanos) : Z := Z.quot n 1000000000.
Definition since (self earlier : Nanos) : Z := sat64 (self - earlier).

(** Days since the epoch; the negative branch is written with bare
    operators, each of which can overflow. *)
Definition utc_day (n : Nanos) : run Z :=
  if 0 <=? n then mret (Z.quot n NANOS_PER_DAY)
  else
    m ← chk64 (- n);
    a ← chk64 (m + NANOS_PER_DAY);
    b ← chk64 (a - 1);
    chk64 (- Z.quot b NANOS_PER_DAY).
End Nanos.

Record Stamp := mkStamp { exch : Nanos; local : Nanos }.

#[export] Instance Stamp_eq_dec : EqDecision Stamp.
Proof. solve_decision. Defined.

Definition feed_latency (s : Stamp) : Z := Nanos.since (local s) (exch s).
Definition synthetic (ns : Z) : Stamp := {| exch := ns; local := ns |}.

(** * Executions *)

Record Fill := mkFill {
  f_stamp : Stamp;
  f_instrument : InstrumentId;
  f_order : OrderId;
  f_trade : TradeId;
  f_side : Side;
  f_offset : Offset;
  f_price : PriceTicks;
  f_qty : QtyLots;
  f_liquidity : Liquidity;
}.

#[export] Instance Fee_eq_dec : EqDecision Fee.
Proof. solve_decision. Defined.
#[export] Instance Fill_eq_dec : EqDecision Fill.
Proof. solve_decision. Defined.

(** Signed position change; a bare multiplication. *)
Definition position_delta (f : Fill) : run QtyLots := chk64 (f_qty f * sign (f_side f)).

(** * Identifier allocation *)

Record IdAllocator := mkIds { next_order : Z; next_trade : Z }.

Module Ids.
Definition new : IdAllocator := {| next_order := 0; next_trade := 0 |}.
Definition order (a : IdAllocator) : run (OrderId * IdAllocator) :=
  n ← chku64 (next_order a + 1);
  mret (n, {| next_order := n; next_trade := next_trade a |}).
Definition trade (a : IdAllocator) : run (TradeId * IdAllocator) :=
  n ← chku64 (next_trade a + 1);
  mret (n, {| next_order := next_order a; next_trade := n |}).
Definition watermark (a : IdAllocator) : Z * Z := (next_order a, next_trade a).
Definition restore (a : IdAllocator) (w : Z * Z) : IdAllocator :=
  {| next_order := w.1; next_trade := w.2 |}.
End Ids.

(** * Lemmas *)

Lemma scaled_eq c r : Cash.scaled c r = sat64 (Z.quot (c * r) RATIO_SCALE).
Proof.
  unfold Cash.scaled.
  destruct (Z.gtb_spec (Z.quot (c * r) RATIO_SCALE) I64_MAX); [mlia|].
  destruct (Z.ltb_spec (Z.quot (c * r) RATIO_SCALE) I64_MIN); mlia.
Qed.

Lemma scaled_range c r : i64 (Cash.scaled c r).
Proof. rewrite scaled_eq. apply sat64_range. Qed.

(** For a non-negative product truncation is the floor. *)
Lemma scaled_nonneg c r : 0 ≤ c * r → i64 (c * r / RATIO_SCALE) →
  Cash.scaled c r = c * r / RATIO_SCALE.
Proof.
  intros H ?. rewrite scaled_eq, Z.quot_div_nonneg by (unfold RATIO_SCALE in *; lia).
  by apply sat64_id.
Qed.

Lemma cash_add_range a b : i64 (Cash.add a b).
Proof. apply sat64_range. Qed.

Lemma cash_add_exact a b : i64 (a + b) → Cash.add a b = a + b.
Proof. apply sat64_id. Qed.

Lemma cash_neg_exact a : i64 a → a ≠ I64_MIN → Cash.neg a = - a.
Proof. unfold Cash.neg. mlia. Qed.

(** The UTC day is floor division wherever the additions fit, which leaves out
    only the first day of the [i64] range. *)
Lemma utc_day_floor n : i64 n → I64_MIN + NANOS_PER_DAY < n →
  Nanos.utc_day n = Ret (n / NANOS_PER_DAY).
Proof.
  unfold Nanos.utc_day, NANOS_PER_DAY. intros Hn Hlo.
  destruct (Z.leb_spec 0 n).
  - unfold mret, run_ret. f_equal. apply Z.quot_div_nonneg; lia.
  - unfold mbind, run_bind. do 3 (rewrite chk_ret by mlia; cbv iota).
    rewrite Z.quot_div_nonneg by lia.
    assert (- ((- n + 86400000000000 - 1) / 86400000000000) = n / 86400000000000) as ->.
    { pose proof (Z.div_mod n 86400000000000 ltac:(lia)).
      pose proof (Z.mod_pos_bound n 86400000000000 ltac:(lia)).
      pose proof (Z.div_mod (- n + 86400000000000 - 1) 86400000000000 ltac:(lia)).
      pose proof (Z.mod_pos_bound (- n + 86400000000000 - 1) 86400000000000 ltac:(lia)).
      lia. }
    apply chk_ret. pose proof (Z.div_mod n 86400000000000 ltac:(lia)).
    pose proof (Z.mod_pos_bound n 86400000000000 ltac:(lia)). mlia.
Qed.

Lemma ids_trade_returns a P :
  next_trade a + 1 ≤ U64_MAX → 0 ≤ next_trade a →
  P (next_trade a + 1, mkIds (next_order a) (next_trade a + 1)) → returns (Ids.trade a) P.
Proof.
  intros ? ? HP. unfold Ids.trade. apply returns_bind, returns_chk; [mlia|].
  by apply returns_ret.
Qed.

#[export] Hint Resolve scaled_range cash_add_range : machine.
