(* ===== verification/Order.v ===== *)
(** The order lifecycle ([oq-types/src/order.rs]).  An [Order] is indexed by
    its state, so a transition that the crate does not offer does not typecheck
    here either. *)

From S2P Require Import Prelude Types.

Inductive TimeInForce := GoodTilCancel | ImmediateOrCancel | FillOrKill.

Inductive OrderKind := Limit (price : PriceTicks) | Market.

Definition limit_price (k : OrderKind) : option PriceTicks :=
  match k with Limit p => Some p | Market => None end.

Inductive OrderState := Pending | Live | PartiallyFilled | Filled | Cancelled | Rejected.

Definition TERMINAL (s : OrderState) : bool :=
  match s with Pending | Live | PartiallyFilled => false | Filled | Cancelled | Rejected => true end.

#[export] Instance TimeInForce_eq_dec : EqDecision TimeInForce.
Proof. solve_decision. Defined.
#[export] Instance OrderKind_eq_dec : EqDecision OrderKind.
Proof. solve_decision. Defined.

Record Order (S : OrderState) := mkOrder {
  o_id : OrderId;
  o_side : Side;
  o_kind : OrderKind;
  o_qty : QtyLots;
  o_filled : QtyLots;
  o_tif : TimeInForce;
  o_placed : Stamp;
  o_offset : Offset;
}.
Arguments mkOrder {S} _ _ _ _ _ _ _ _.
Arguments o_id {S} _.
Arguments o_side {S} _.
Arguments o_kind {S} _.
Arguments o_qty {S} _.
Arguments o_filled {S} _.
Arguments o_tif {S} _.
Arguments o_placed {S} _.
Arguments o_offset {S} _.

#[export] Instance Order_eq_dec S : EqDecision (Order S).
Proof. solve_decision. Defined.

(** Quantity still outstanding: a bare subtraction. *)
Definition remaining {S} (o : Order S) : run QtyLots := chk64 (o_qty o - o_filled o).

Definition price {S} (o : Order S) : option PriceTicks := limit_price (o_kind o).

(** Every field carried over, the state re-indexed. *)
Definition transition {S} (T : OrderState) (o : Order S) : Order T :=
  mkOrder (o_id o) (o_side o) (o_kind o) (o_qty o) (o_filled o) (o_tif o) (o_placed o) (o_offset o).

Definition with_offset (id : OrderId) (side : Side) (kind : OrderKind) (qty : QtyLots)
    (tif : TimeInForce) (placed : Stamp) (offset : Offset) : option (Order Pending) :=
  if qty <=? 0 then None
  else Some (mkOrder id side kind qty QtyLots.ZERO tif placed offset).

Definition new (id : OrderId) (side : Side) (kind : OrderKind) (qty : QtyLots)
    (tif : TimeInForce) (placed : Stamp) : option (Order Pending) :=
  with_offset id side kind qty tif placed Open.

Definition accept (o : Order Pending) : Order Live := transition Live o.
Definition reject (o : Order Pending) : Order Rejected := transition Rejected o.

Inductive FillOutcome := Partial (o : Order PartiallyFilled) | Complete (o : Order Filled).

Inductive FillError :=
| NonPositive
| Overfill (remaining attempted : QtyLots).

Definition with_filled {S} (o : Order S) (f : QtyLots) : Order S :=
  mkOrder (o_id o) (o_side o) (o_kind o) (o_qty o) f (o_tif o) (o_placed o) (o_offset o).

Definition apply_fill {S} (o : Order S) (qty : QtyLots) : run (result FillOutcome FillError) :=
  if qty <=? 0 then mret (Err NonPositive)
  else
    rem ← remaining o;
    if qty >? rem then mret (Err (Overfill rem qty))
    else
      f ← chk64 (o_filled o + qty);
      let filled := with_filled o f in
      if o_filled filled =? o_qty filled
      then mret (Ok (Complete (transition Filled filled)))
      else mret (Ok (Partial (transition PartiallyFilled filled))).

(** An order still on the book: two states, never a terminal one. *)
Inductive Working :=
| WLive (o : Order Live)
| WPartial (o : Order PartiallyFilled).

#[export] Instance Working_eq_dec : EqDecision Working.
Proof. solve_decision. Defined.

Definition w_id (w : Working) : OrderId :=
  match w with WLive o => o_id o | WPartial o => o_id o end.
Definition w_side (w : Working) : Side :=
  match w with WLive o => o_side o | WPartial o => o_side o end.
Definition w_kind (w : Working) : OrderKind :=
  match w with WLive o => o_kind o | WPartial o => o_kind o end.
Definition w_offset (w : Working) : Offset :=
  match w with WLive o => o_offset o | WPartial o => o_offset o end.
Definition w_remaining (w : Working) : run QtyLots :=
  match w with WLive o => remaining o | WPartial o => remaining o end.
Definition w_price (w : Working) : option PriceTicks := limit_price (w_kind w).
Definition w_placed (w : Working) : Stamp :=
  match w with WLive o => o_placed o | WPartial o => o_placed o end.
Definition w_fill (w : Working) (qty : QtyLots) : run (result FillOutcome FillError) :=
  match w with WLive o => apply_fill o qty | WPartial o => apply_fill o qty end.
Definition w_cancel (w : Working) : Order Cancelled :=
  match w with WLive o => transition Cancelled o | WPartial o => transition Cancelled o end.

(** [From<FillOutcome> for Option<Working>]. *)
Definition still_working (f : FillOutcome) : option Working :=
  match f with Partial o => Some (WPartial o) | Complete _ => None end.

(** * The well-formed orders: what construction gives and fills preserve *)

Definition w_qty (w : Working) : QtyLots :=
  match w with WLive o => o_qty o | WPartial o => o_qty o end.
Definition w_filled (w : Working) : QtyLots :=
  match w with WLive o => o_filled o | WPartial o => o_filled o end.

Definition working_ok (w : Working) : Prop :=
  i64 (w_qty w) ∧ 0 ≤ w_filled w < w_qty w.

(** The outstanding quantity of a well-formed working order. *)
Definition left (w : Working) : Z := w_qty w - w_filled w.

Lemma with_offset_ok id side kind qty tif placed off o :
  i64 qty → with_offset id side kind qty tif placed off = Some o →
  working_ok (WLive (accept o)) ∧ left (WLive (accept o)) = qty ∧
  w_side (WLive (accept o)) = side ∧ w_id (WLive (accept o)) = id ∧
  w_kind (WLive (accept o)) = kind ∧ w_offset (WLive (accept o)) = off.
Proof.
  unfold with_offset. intros Hq. destruct (Z.leb_spec qty 0); [done|]. intros [= <-].
  unfold working_ok, left; simpl. unfold QtyLots.ZERO. split_and!; try done; lia.
Qed.

Lemma w_remaining_ok w : working_ok w → w_remaining w = Ret (left w).
Proof.
  unfold working_ok, left. destruct w; simpl; unfold remaining; intros [??]; apply chk_ret; mlia.
Qed.

Lemma left_pos w : working_ok w → 0 < left w ∧ i64 (left w).
Proof. unfold working_ok, left. mlia. Qed.

(** One fill, on every branch. *)
Lemma w_fill_spec w q : working_ok w →
  w_fill w q =
    if q <=? 0 then Ret (Err NonPositive)
    else if left w <? q then Ret (Err (Overfill (left w) q))
    else if q =? left w then
      Ret (Ok (Complete (mkOrder (w_id w) (w_side w) (w_kind w) (w_qty w) (w_qty w)
        (match w with WLive o => o_tif o | WPartial o => o_tif o end) (w_placed w) (w_offset w))))
    else
      Ret (Ok (Partial (mkOrder (w_id w) (w_side w) (w_kind w) (w_qty w) (w_filled w + q)
        (match w with WLive o => o_tif o | WPartial o => o_tif o end) (w_placed w) (w_offset w)))).
Proof.
  intros (Hq & Hf). destruct w as [o|o]; simpl in *; unfold apply_fill, left; simpl.
  all: destruct (Z.leb_spec q 0); [done|].
  all: unfold remaining; rewrite (chk_ret i64 (o_qty o - o_filled o)) by mlia; cbn [mbind run_bind].
  all: rewrite Z.gtb_ltb; destruct (Z.ltb_spec (o_qty o - o_filled o) q); [done|].
  all: rewrite chk_ret by mlia; cbn [mbind run_bind with_filled o_filled o_qty].
  all: destruct (Z.eqb_spec q (o_qty o - o_filled o)) as [->|].
  all: unfold transition, with_filled; simpl.
  all: try (replace (o_filled o + (o_qty o - o_filled o)) with (o_qty o) by lia;
            by rewrite Z.eqb_refl).
  all: destruct (Z.eqb_spec (o_filled o + q) (o_qty o)); [lia|done].
Qed.

(** Filling exactly what is left completes the order. *)
Lemma w_fill_left w : working_ok w →
  ∃ o, w_fill w (left w) = Ret (Ok (Complete o)).
Proof.
  intros Hw. pose proof (left_pos w Hw) as [? _]. rewrite w_fill_spec by done.
  destruct (Z.leb_spec (left w) 0); [lia|]. rewrite Z.ltb_irrefl, Z.eqb_refl. eauto.
Qed.

Lemma w_fill_partial w q o : working_ok w → w_fill w q = Ret (Ok (Partial o)) →
  working_ok (WPartial o) ∧ left (WPartial o) = left w - q ∧ 0 < q < left w ∧
  w_id (WPartial o) = w_id w ∧ w_side (WPartial o) = w_side w ∧ w_kind (WPartial o) = w_kind w.
Proof.
  intros Hw. rewrite w_fill_spec by done. destruct Hw as [? ?].
  destruct (Z.leb_spec q 0); [done|]. destruct (Z.ltb_spec (left w) q); [done|].
  destruct (Z.eqb_spec q (left w)); [done|]. intros [= <-].
  unfold working_ok, left in *; simpl. split_and!; try done; mlia.
Qed.

(** * Sequences of fills *)

(** Apply fills one by one until the order completes or one is refused.
    [None] in the first component: the order has left the book. *)
Fixpoint fill_all (w : Working) (qs : list QtyLots)
    : run (option Working * option FillError * list QtyLots) :=
  match qs with
  | [] => mret (Some w, None, [])
  | q :: qs =>
      r ← w_fill w q;
      match r with
      | Err e => mret (Some w, Some e, [])
      | Ok out =>
          match still_working out with
          | None => mret (None, None, [q])
          | Some w' =>
              '(o, e, taken) ← fill_all w' qs;
              mret (o, e, q :: taken)
          end
      end
  end.

(** A run of fills against an order never panics, never takes more than
    was outstanding, and conserves it: what was executed plus what is left is
    what there was; the order leaves the book exactly when nothing is left. *)
Theorem fill_all_conserves (w : Working) (qs : list QtyLots) (Hw : working_ok w) :
  returns (fill_all w qs) (λ '(o, e, taken),
    Forall (λ q, 0 < q) taken ∧
    match o with
    | Some w' => working_ok w' ∧ left w' + foldr Z.add 0 taken = left w ∧ w_id w' = w_id w
    | None => e = None ∧ foldr Z.add 0 taken = left w
    end).
Proof.
  revert w Hw. induction qs as [|q qs IH]; intros w Hw; simpl.
  { apply returns_ret. split_and!; [constructor|done| |done]. simpl. lia. }
  destruct (w_fill w q) as [[[o|o]|e]| |] eqn:Hf.
  2: { rewrite w_fill_spec in Hf by done. pose proof (left_pos w Hw).
       destruct (Z.leb_spec q 0); [done|]. destruct (Z.ltb_spec (left w) q); [done|].
       destruct (Z.eqb_spec q (left w)); [|done].
       apply returns_ret. split_and!; simpl; [by repeat constructor|done|lia]. }
  2: { apply returns_ret. split_and!; simpl; [constructor|done|lia|done]. }
  2,3: rewrite w_fill_spec in Hf by done; repeat case_match; done.
  destruct (w_fill_partial w q o Hw Hf) as (Ho & Hl & Hq & Hid & _).
  apply returns_bind, returns_Ret. simpl. apply returns_bind.
  eapply returns_mono; [by apply IH|]. intros [[o' e] taken] [Ht Hrest].
  apply returns_ret. split; [constructor; [lia|done]|]. simpl.
  destruct o' as [w'|]; naive_solver lia.
Qed.

Lemma fill_all_conserves_witness :
  let w := WLive (mkOrder 1 Buy (Limit 100) 10 0 GoodTilCancel (mkStamp 0 0) Open) in
  working_ok w ∧ returns (fill_all w [4; 0; 7]) (λ '(_, _, taken), Forall (λ q, 0 < q) taken).
Proof.
  intros w. assert (working_ok w) as Hw by (split; simpl; mlia). split; [exact Hw|].
  eapply returns_mono; [apply (fill_all_conserves w [4; 0; 7] Hw)|].
  intros [[o e] taken] [H _]. exact H.
Defined.
