(* ===== verification/Instrument.v ===== *)
(** Instrument definitions ([oq-types/src/instrument.rs]): the price and
    quantity grid, and the cash one tick of one lot is worth. *)

From S2P Require Import Prelude Types.

Definition CONTRACT_SCALE : Z := 100000000.

Record Instrument := mkInstrument {
  price_scale : Z;   (* u8 *)
  qty_scale : Z;     (* u8 *)
  contract_size : Z;
  price_tick : Z;
  qty_step : Z;
  min_notional : Cash;
}.

Definition linear (ps qs : Z) : Instrument := mkInstrument ps qs CONTRACT_SCALE 1 1 0.
Definition sized (ps qs size : Z) : Instrument := mkInstrument ps qs size 1 1 0.

Definition with_grid (i : Instrument) (tick step : Z) : Instrument :=
  mkInstrument (price_scale i) (qty_scale i) (contract_size i)
    (if tick >? 0 then tick else 1) (if step >? 0 then step else 1) (min_notional i).

Definition with_min_notional (i : Instrument) (m : Cash) : Instrument :=
  mkInstrument (price_scale i) (qty_scale i) (contract_size i) (price_tick i) (qty_step i) m.

(** [%] and [rem_euclid] on [i64]: a zero divisor panics, and so does
    [i64::MIN] by [-1]. *)
Definition i64_rem (op : Z → Z → Z) (a b : Z) : run Z :=
  if (b =? 0) || ((a =? I64_MIN) && (b =? -1)) then Panic else mret (op a b).

Definition price_on_grid (i : Instrument) (p : PriceTicks) : run bool :=
  r ← i64_rem Z.rem p (price_tick i); mret (r =? 0).
Definition qty_on_grid (i : Instrument) (q : QtyLots) : run bool :=
  r ← i64_rem Z.rem q (qty_step i); mret (r =? 0).

Definition snap_price_down (i : Instrument) (p : PriceTicks) : run PriceTicks :=
  r ← i64_rem rem_euclid p (price_tick i); chk64 (p - r).

Definition snap_up (step v : Z) : run Z :=
  r ← i64_rem rem_euclid v step;
  if r =? 0 then mret v else d ← chk64 (step - r); chk64 (v + d).
Definition snap_price_up (i : Instrument) (p : PriceTicks) : run PriceTicks :=
  snap_up (price_tick i) p.
Definition snap_qty_up (i : Instrument) (q : QtyLots) : run QtyLots :=
  snap_up (qty_step i) q.

(** [10^n], [None] past the point it stops being useful. *)
Definition pow10 (n : Z) : option Z := if n >? 18 then None else Some (10 ^ n).

Definition tick_cash (i : Instrument) : option Z :=
  a ← pow10 (price_scale i);
  d1 ← checked i128 (CONTRACT_SCALE * a);
  b ← pow10 (qty_scale i);
  divisor ← checked i128 (d1 * b);
  num ← checked i128 (CASH_SCALE * contract_size i);
  v ← (if divisor =? 0 then None else checked i128 (Z.quot num divisor));
  if v <=? 0 then None else checked i64 v.

Definition notional (i : Instrument) (p : PriceTicks) (q : QtyLots) : option Cash :=
  k ← tick_cash i;
  pq ← checked i128 (p * i64_saturating_abs q);
  v ← checked i128 (pq * k);
  checked i64 v.

(** The [i128] operators below have [i64] operands, so none can overflow. *)
Definition smallest_allowed (i : Instrument) (p : PriceTicks) : QtyLots :=
  if (min_notional i <=? 0) || (p <=? 0) then 1
  else match tick_cash i with
  | None => 1
  | Some k =>
      let per_lot := p * k in
      if per_lot <=? 0 then 1
      else
        let need := Z.quot (min_notional i * 11) 10 in
        let lots := Z.quot (need + per_lot - 1) per_lot in
        Z.max (default 1 (checked i64 lots)) 1
  end.

(** * Lemmas *)

Lemma i64_rem_pos op a b : 0 < b → i64_rem op a b = Ret (op a b).
Proof.
  intros. unfold i64_rem. destruct (Z.eqb_spec b 0); [lia|].
  destruct (Z.eqb_spec b (-1)); [lia|]. by rewrite andb_false_r.
Qed.

Lemma checked_Some (P : Z → Prop) `{∀ z, Decision (P z)} z v :
  checked P z = Some v ↔ v = z ∧ P z.
Proof. unfold checked. case_decide; naive_solver. Qed.

(** A [tick_cash] is positive and is the floor of the exact cash value. *)
Lemma tick_cash_spec i k : tick_cash i = Some k →
  0 < k ∧ i64 k ∧
  k = Z.quot (CASH_SCALE * contract_size i)
             (CONTRACT_SCALE * 10 ^ price_scale i * 10 ^ qty_scale i).
Proof.
  unfold tick_cash, pow10. intros H.
  destruct (price_scale i >? 18); [done|]. simpl in H.
  apply bind_Some in H as (d1 & [-> _]%checked_Some & H).
  destruct (qty_scale i >? 18); [done|]. simpl in H.
  apply bind_Some in H as (d & [-> _]%checked_Some & H).
  apply bind_Some in H as (n & [-> _]%checked_Some & H).
  apply bind_Some in H as (v & Hv & H).
  destruct (_ =? 0); [done|]. apply checked_Some in Hv as [-> _].
  destruct (Z.leb_spec (Z.quot (CASH_SCALE * contract_size i)
    (CONTRACT_SCALE * 10 ^ price_scale i * 10 ^ qty_scale i)) 0); [done|].
  apply checked_Some in H as [-> ?]. done.
Qed.

Lemma snap_up_spec step v : 0 < step → i64 step → i64 v → v + step ≤ I64_MAX →
  returns (snap_up step v) (λ u, v ≤ u < v + step ∧ u mod step = 0).
Proof.
  intros Hs ? ? ?. unfold snap_up. rewrite i64_rem_pos by done. cbn [mbind run_bind].
  rewrite rem_euclid_pos by done. pose proof (Z.mod_pos_bound v step Hs).
  pose proof (Z.div_mod v step ltac:(lia)) as Hdm.
  destruct (Z.eqb_spec (v mod step) 0) as [Hz|Hz]; [apply returns_ret; split; [lia|done]|].
  apply returns_bind, returns_chk; [mlia|]. apply returns_chk; [mlia|]. split; [lia|].
  replace (v + (step - v mod step)) with ((v / step + 1) * step) by lia. apply Z.mod_mul. lia.
Qed.

(** * Properties *)

(** Snapping never makes an order more aggressive than asked: with a
    positive tick, the price a buy is snapped to is the highest grid price not
    above it and the price a sell is snapped to the lowest not below it; each
    is on the grid, and neither computation panics away from the ends of the
    [i64] range. *)
Theorem snap_price_nearest (i : Instrument) (p : PriceTicks)
    (Ht : 0 < price_tick i) (Hti : i64 (price_tick i))
    (Hlo : I64_MIN + price_tick i ≤ p) (Hhi : p + price_tick i ≤ I64_MAX) :
  returns (snap_price_down i p) (λ d,
    d ≤ p ∧ price_on_grid i d = Ret true ∧
    ∀ g, g ≤ p → g mod price_tick i = 0 → g ≤ d) ∧
  returns (snap_price_up i p) (λ u,
    p ≤ u ∧ price_on_grid i u = Ret true ∧
    ∀ g, p ≤ g → g mod price_tick i = 0 → u ≤ g).
Proof.
  assert (∀ g, g mod price_tick i = 0 → price_on_grid i g = Ret true) as Hg.
  { intros g Hg. unfold price_on_grid. rewrite i64_rem_pos by done. cbn [mbind run_bind].
    apply Z.rem_mod_eq_0 in Hg; [|lia]. by rewrite Hg. }
  assert (∀ a b, a mod price_tick i = 0 → b mod price_tick i = 0 → a < b + price_tick i → a ≤ b) as Hgap.
  { intros a b Ha Hb Hab.
    pose proof (Z.div_mod a (price_tick i) ltac:(lia)). pose proof (Z.div_mod b (price_tick i) ltac:(lia)).
    assert (a / price_tick i < b / price_tick i + 1) by (apply (Z.mul_lt_mono_pos_l (price_tick i)); lia).
    nia. }
  pose proof (Z.mod_pos_bound p (price_tick i) Ht).
  split.
  - unfold snap_price_down. rewrite i64_rem_pos by done. cbn [mbind run_bind].
    rewrite rem_euclid_pos by done.
    assert ((p - p mod price_tick i) mod price_tick i = 0) as Hz.
    { rewrite Zminus_mod_idemp_r, Z.sub_diag. apply Z.mod_0_l. lia. }
    apply returns_chk; [mlia|]. split_and!; [lia|by apply Hg|].
    intros g ??. apply Hgap; [done|done|lia].
  - eapply returns_mono; [apply snap_up_spec; [done|done|mlia|done]|].
    intros u [? ?]. split_and!; [lia|by apply Hg|]. intros g ??. apply Hgap; [done|done|lia].
Qed.

Lemma snap_price_nearest_witness :
  returns (snap_price_down (with_grid (linear 2 4) 10 1) (-14)) (λ d, d ≤ -14) ∧
  returns (snap_price_up (with_grid (linear 2 4) 10 1) (-14)) (λ d, -14 ≤ d).
Proof.
  destruct (snap_price_nearest (with_grid (linear 2 4) 10 1) (-14)) as [H1 H2];
    [done|by vm_compute|simpl; lia|simpl; lia|].
  split; (eapply returns_mono; [eassumption|]); intros ? [? _]; done.
Defined.

(** The smallest size a contract accepts at a price: its notional clears
    the venue's floor with ten percent of headroom, and one lot less would
    not.  The floor with its headroom has to fit [i64]; past that the code
    falls back to one lot. *)
Theorem smallest_allowed_minimal (i : Instrument) (p : PriceTicks) (k : Z)
    (Hk : tick_cash i = Some k) (Hp : 0 < p) (Hm : 0 < min_notional i)
    (Hfit : min_notional i * 11 / 10 ≤ I64_MAX) :
  let need := min_notional i * 11 / 10 in
  min_notional i ≤ need ∧
  need ≤ smallest_allowed i p * (p * k) ∧
  (1 < smallest_allowed i p → (smallest_allowed i p - 1) * (p * k) < need).
Proof.
  destruct (tick_cash_spec i k Hk) as (Hkp & _ & _). cbv zeta.
  unfold smallest_allowed. rewrite Hk.
  destruct (Z.leb_spec (min_notional i) 0); [lia|]. destruct (Z.leb_spec p 0); [lia|].
  cbn [orb]. assert (0 < p * k) as Hpk by nia. destruct (Z.leb_spec (p * k) 0); [lia|].
  rewrite (Z.quot_div_nonneg (min_notional i * 11)) by lia.
  set (need := min_notional i * 11 / 10) in *. set (L := p * k) in *.
  assert (min_notional i ≤ need) as Hneed by (apply Z.div_le_lower_bound; lia).
  rewrite Z.quot_div_nonneg by lia.
  pose proof (Z.div_mod (need + L - 1) L ltac:(lia)) as Hdm.
  pose proof (Z.mod_pos_bound (need + L - 1) L Hpk) as Hmb.
  set (lots := (need + L - 1) / L) in *.
  assert (1 ≤ lots) by (apply Z.div_le_lower_bound; lia).
  assert (lots ≤ need) by (apply Z.div_le_upper_bound; nia).
  unfold checked. rewrite decide_True by mlia. simpl.
  rewrite Z.max_l by lia. split_and!; [done|nia|nia].
Qed.

Lemma smallest_allowed_minimal_witness :
  let i := with_min_notional (linear 2 4) 5000000000 in
  let need := min_notional i * 11 / 10 in
  tick_cash i = Some 100 ∧ smallest_allowed i 7800000 = 8 ∧
  need ≤ smallest_allowed i 7800000 * (7800000 * 100).
Proof.
  split_and!; [done|done|].
  apply (smallest_allowed_minimal (with_min_notional (linear 2 4) 5000000000) 7800000 100); done.
Defined.
