(* ===== verification/Currency.v ===== *)
(** Multi-currency balances ([oq-types/src/currency.rs]): currency codes,
    balances kept sorted by code, and dated conversion rates. *)

From S2P Require Import Prelude Slices SortedVec Types.

(** Eight bytes, the code padded with zeros. *)
Abbreviation Currency := (list Z) (only parsing).

Definition code_byte (b : Z) : bool :=
  ((65 <=? b) && (b <=? 90)) || ((48 <=? b) && (b <=? 57)).

Module Currency.
Definition new (bytes : list Z) : option Currency :=
  if (length bytes =? 0)%nat || (8 <? length bytes)%nat then None
  else if forallb code_byte bytes then Some (bytes ++ replicate (8 - length bytes) 0) else None.

Definition code (c : Currency) : list Z :=
  take (default (length c) (position (λ b, b =? 0) c)) c.

Definition usdt : Currency := [85; 83; 68; 84; 0; 0; 0; 0].
End Currency.

(** [held: Vec<(Currency, Cash)>], sorted by currency. *)
Abbreviation Balances := (list (list Z * Z)) (only parsing).

Module Balances.
Definition new : Balances := [].
Definition of_ (c : Currency) (amount : Cash) : Balances := [(c, amount)].
Definition get (self : Balances) (c : Currency) : Cash := default Cash.ZERO (sv_get c self).
Definition add (self : Balances) (c : Currency) (amount : Cash) : Balances :=
  sv_upsert c (λ held, Cash.add held amount) amount self.
Definition len (self : Balances) : nat := length self.
Definition is_empty (self : Balances) : bool := (length self =? 0)%nat.
End Balances.

(** Rates per whole unit, at one instant. *)
Definition RATE_SCALE : Z := 100000000.

Record Rates := mkRates { r_at : Z; r_pairs : list ((list Z * list Z) * Z) }.

Module Rates.
Definition at_ (at_ : Z) : Rates := mkRates at_ [].
Definition instant (r : Rates) : Z := r_at r.
Definition quote (r : Rates) (from to : Currency) (rate : Z) : Rates :=
  mkRates (r_at r) (sv_upsert (from, to) (λ _, rate) rate (r_pairs r)).
Definition rate (r : Rates) (from to : Currency) : option Z :=
  if decide (from = to) then Some RATE_SCALE else sv_get (from, to) (r_pairs r).
Definition convert (r : Rates) (amount : Cash) (from to : Currency) : option Cash :=
  rt ← rate r from to;
  p ← checked i128 (amount * rt);
  v ← checked i128 (Z.quot p RATE_SCALE);
  checked i64 v.
End Rates.

(** The loop of [total_in]: zero balances are skipped, one that cannot be
    converted ends it with [None]. *)
Fixpoint total_loop (held : Balances) (into : Currency) (rates : Rates) (sum : Cash) : option Cash :=
  match held with
  | [] => Some sum
  | (c, amount) :: held =>
      if amount =? Cash.ZERO then total_loop held into rates sum
      else
        v ← Rates.convert rates amount c into;
        total_loop held into rates (Cash.add sum v)
  end.

Definition total_in (b : Balances) (into : Currency) (rates : Rates) : option Cash :=
  total_loop b into rates Cash.ZERO.

Definition unconvertible (b : Balances) (into : Currency) (rates : Rates) : list Currency :=
  fst <$> filter (λ e : list Z * Z, e.2 ≠ Cash.ZERO ∧ Rates.rate rates e.1 into = None) b.

(** * Lemmas *)

Definition balances_ok (b : Balances) : Prop := sv_ok b ∧ Forall (λ e, i64 e.2) b.

Lemma balances_of_ok c a : i64 a → balances_ok (Balances.of_ c a).
Proof. intros. split; [repeat constructor|]. by constructor. Qed.

Lemma balances_get_of c a : Balances.get (Balances.of_ c a) c = a.
Proof.
  unfold Balances.get, Balances.of_.
  assert (sv_get c [(c, a)] = Some a) as ->; [|done].
  apply (sv_get_elem c a); [repeat constructor|]. by left.
Qed.

Lemma balances_get_add b c c' a : balances_ok b →
  Balances.get (Balances.add b c a) c' =
    if decide (c' = c)
    then match sv_get c b with Some _ => Cash.add (Balances.get b c) a | None => a end
    else Balances.get b c'.
Proof.
  intros [Hok _]. unfold Balances.get, Balances.add. rewrite sv_get_upsert by done.
  destruct (decide (c' = c)) as [->|Hne].
  - rewrite decide_True by apply kcmp_refl. by destruct (sv_get c b).
  - rewrite decide_False by (by rewrite kcmp_eq). done.
Qed.

(** A missing balance reads as zero, so an in-range amount is added to it
    exactly as to a stored one. *)
Lemma balances_get_add_same b c a : balances_ok b → i64 a →
  Balances.get (Balances.add b c a) c = Cash.add (Balances.get b c) a.
Proof.
  intros Hb Ha. rewrite balances_get_add, decide_True by done.
  unfold Balances.get. destruct (sv_get c b); [done|]. simpl.
  unfold Cash.add, Cash.ZERO. by rewrite sat64_id.
Qed.

Lemma balances_get_i64 b c : balances_ok b → i64 (Balances.get b c).
Proof.
  intros [Hok Hr]. unfold Balances.get. destruct (sv_get c b) as [v|] eqn:E; simpl; [|by vm_compute].
  apply sv_get_elem in E; [|done]. rewrite Forall_forall in Hr. by apply (Hr (c, v)).
Qed.

Lemma balances_add_ok b c a : balances_ok b → i64 a → balances_ok (Balances.add b c a).
Proof.
  intros Hb Ha. pose proof Hb as [Hok Hr]. split; [by apply sv_upsert_ok|].
  apply Forall_forall. intros [k v] Hin. simpl.
  apply (sv_get_elem k v) in Hin; [|by apply sv_upsert_ok].
  assert (Balances.get (Balances.add b c a) k = v) as <- by (unfold Balances.get; by rewrite Hin).
  rewrite balances_get_add by done.
  repeat case_match; auto using cash_add_range, balances_get_i64.
Qed.

(** * Properties *)

(** The total is all-or-nothing: it exists exactly when every non-zero
    balance converts, and [unconvertible] names exactly the currencies that
    have no rate, so an account is never valued with a holding left out. *)
Theorem total_in_all_or_nothing (b : Balances) (into : Currency) (rates : Rates) :
  (is_Some (total_in b into rates) ↔
     ∀ c a, (c, a) ∈ b → a ≠ 0 → is_Some (Rates.convert rates a c into)) ∧
  (∀ c, c ∈ unconvertible b into rates ↔
     ∃ a, (c, a) ∈ b ∧ a ≠ 0 ∧ Rates.rate rates c into = None) ∧
  (unconvertible b into rates ≠ [] → total_in b into rates = None).
Proof.
  assert (∀ sum, is_Some (total_loop b into rates sum) ↔
     ∀ c a, (c, a) ∈ b → a ≠ 0 → is_Some (Rates.convert rates a c into)) as Hloop.
  { induction b as [|[c a] b IH]; intros sum; simpl.
    { split; [intros _ ?? ?%not_elem_of_nil; done|by eexists]. }
    unfold Cash.ZERO. destruct (Z.eqb_spec a 0) as [->|Ha].
    - rewrite IH. split; intros H c' a'; [rewrite elem_of_cons|];
        intros; [|eapply H; [by right|done]]. naive_solver.
    - destruct (Rates.convert rates a c into) as [v|] eqn:E; simpl.
      + rewrite IH. split; intros H c' a'; [rewrite elem_of_cons|];
          intros; [|eapply H; [by right|done]]. naive_solver.
      + split; [intros [? [=]]|]. intros H. specialize (H c a ltac:(by left) Ha).
        rewrite E in H. by destruct H. }
  assert (∀ c, c ∈ unconvertible b into rates ↔
     ∃ a, (c, a) ∈ b ∧ a ≠ 0 ∧ Rates.rate rates c into = None) as Hun.
  { intros c. unfold unconvertible. rewrite list_elem_of_fmap. unfold Cash.ZERO. split.
    - intros ([c' a] & -> & [[Ha Hr] Hin]%list_elem_of_filter). simpl in *. eauto.
    - intros (a & Hin & Ha & Hr). exists (c, a). split; [done|].
      apply list_elem_of_filter. done. }
  split_and!; [apply Hloop|exact Hun|].
  intros Hne. destruct (unconvertible b into rates) as [|c cs]; [done|].
  destruct (proj1 (Hun c) ltac:(by left)) as (a & Hin & Ha & Hr).
  apply eq_None_not_Some. unfold total_in. rewrite Hloop. intros H. destruct (H c a Hin Ha) as [v Hv].
  unfold Rates.convert in Hv. by rewrite Hr in Hv.
Qed.

(** A code accepted by [Currency::new] reads back as the bytes it was
    built from, and distinct codes are distinct currencies. *)
Theorem currency_code_roundtrip (bytes : list Z) (c : Currency)
    (H : Currency.new bytes = Some c) :
  Currency.code c = bytes ∧ length c = 8%nat ∧
  (∀ bytes', Currency.new bytes' = Some c → bytes' = bytes).
Proof.
  assert (∀ bs c, Currency.new bs = Some c → Currency.code c = bs ∧ length c = 8%nat) as Hrt.
  { clear. intros bs c. unfold Currency.new, Currency.code.
    destruct (Nat.eqb_spec (length bs) 0); [done|].
    destruct (Nat.ltb_spec 8 (length bs)); [done|]. simpl.
    destruct (forallb code_byte bs) eqn:Hf; [|done]. intros [= <-].
    split; [|rewrite length_app, length_replicate; lia].
    assert (Forall (λ b, (b =? 0) = false) bs) as Hnz.
    { apply Forall_forall. intros b Hb. rewrite forallb_forall in Hf.
      apply list_elem_of_In, Hf in Hb. unfold code_byte in Hb. lia. }
    assert (∀ n (ys : list Z), Forall (λ b, (b =? 0) = false) ys →
      position (λ b, b =? 0) (ys ++ replicate n 0) = if decide (n = 0%nat) then None else Some (length ys)) as Hp.
    { intros k ys. induction 1 as [|y ys Hy _ IH]; simpl; [by destruct k|].
      rewrite Hy, IH. by destruct (decide _). }
    rewrite Hp by done. destruct (decide _) as [Hz|Hz]; simpl.
    - rewrite Hz. simpl. by rewrite app_nil_r, firstn_all.
    - by rewrite take_app_length. }
  destruct (Hrt _ _ H) as [H1 H2]. split_and!; [done|done|].
  intros bs' H'. destruct (Hrt _ _ H') as [H3 _]. congruence.
Qed.

Lemma currency_code_roundtrip_witness :
  Currency.code Currency.usdt = [85; 83; 68; 84].
Proof. exact (proj1 (currency_code_roundtrip [85; 83; 68; 84] Currency.usdt eq_refl)). Defined.
