(* ===== verification/Margin.v ===== *)
(** Contracts, tiered maintenance margin and dated tier tables
    ([oq-margin/src/tier.rs] and [schedule.rs]). *)

From S2P Require Import Prelude Slices Types Instrument.

(** * Contracts *)

Record Contract := mkContract { c_tick_cash : Z }.

#[export] Instance Contract_eq_dec : EqDecision Contract.
Proof. solve_decision. Defined.

(** [Contract::of]. *)
Definition contract_of (i : Instrument) : option Contract :=
  k ← tick_cash i; Some (mkContract k).

(** [saturate]: an [i128] clamped into [i64]. *)
Definition saturate (v : Z) : Z :=
  if v >? I64_MAX then I64_MAX else if v <? I64_MIN then I64_MIN else v.

Definition notional_wide (c : Contract) (p : PriceTicks) (q : QtyLots) : Z :=
  sat128 (sat128 (p * i64_saturating_abs q) * c_tick_cash c).

Definition c_notional (c : Contract) (p : PriceTicks) (q : QtyLots) : Cash :=
  saturate (notional_wide c p q).

Definition unrealized_from_cost (c : Contract) (cost : Z) (mark : PriceTicks) (q : QtyLots) : Cash :=
  if q =? 0 then Cash.ZERO
  else
    let delta := sat128 (notional_wide c mark q - cost) in
    saturate (if q >? 0 then delta else sat128 (- delta)).

(** Bare [i128] products: a large position panics rather than wrapping. *)
Definition unrealized (c : Contract) (entry mark : PriceTicks) (q : QtyLots) : run Cash :=
  a ← chk128 ((mark - entry) * q);
  b ← chk128 (a * c_tick_cash c);
  mret (saturate b).

(** * Tier tables *)

Record MarginTier := mkTier { max_notional : Cash; rate : Ratio; amount : Cash }.

Record TierTable := mkTable { tiers : list MarginTier }.

Module TierTable.
(** [tiers.windows(2).any(|w| w[0].max >= w[1].max)]. *)
Fixpoint unordered (ts : list MarginTier) : bool :=
  match ts with
  | a :: ((b :: _) as ts') => (max_notional b <=? max_notional a) || unordered ts'
  | _ => false
  end.

Definition new (ts : list MarginTier) : option TierTable :=
  match ts with
  | [] => None
  | _ => if unordered ts then None else Some (mkTable ts)
  end.

(** The first bracket the notional fits in, else the last one. *)
Fixpoint scan (ts : list MarginTier) (n : Cash) : option MarginTier :=
  match ts with
  | [] => None
  | t :: ts => if n <=? max_notional t then Some t else scan ts n
  end.

Definition tier_for (t : TierTable) (n : Cash) : run MarginTier :=
  match scan (tiers t) n with
  | Some tier => mret tier
  | None => expect (last (tiers t))
  end.

Definition maintenance (t : TierTable) (c : Contract) (p : PriceTicks) (q : QtyLots) : run Cash :=
  let n := c_notional c p q in
  tier ← tier_for t n;
  let required := Cash.sub (Cash.scaled n (rate tier)) (amount tier) in
  mret (if required <? 0 then Cash.ZERO else required).

Definition example_btcusdt : run TierTable :=
  let usdt := Cash.from_units in
  expect (new [
    mkTier (usdt 50000) (Ratio.from_ppm 4000) Cash.ZERO;
    mkTier (usdt 500000) (Ratio.from_ppm 5000) (usdt 50);
    mkTier (usdt 1000000) (Ratio.from_ppm 10000) (usdt 2550);
    mkTier (usdt 10000000) (Ratio.from_ppm 25000) (usdt 17550);
    mkTier I64_MAX (Ratio.from_ppm 50000) (usdt 267550)]).
End TierTable.

(** * Dated tables *)

Record TierSchedule := mkSchedule { entries : list (Nanos * TierTable) }.

Module TierSchedule.
Definition constant (t : TierTable) : TierSchedule := mkSchedule [(I64_MIN, t)].

Fixpoint has_duplicate (es : list (Nanos * TierTable)) : bool :=
  match es with
  | a :: ((b :: _) as es') => (a.1 =? b.1) || has_duplicate es'
  | _ => false
  end.

Definition new (es : list (Nanos * TierTable)) : option TierSchedule :=
  match es with
  | [] => None
  | _ =>
      let es := sort_by_key fst es in
      if has_duplicate es then None else Some (mkSchedule es)
  end.

Definition insert (s : TierSchedule) (from : Nanos) (t : TierTable) : bool * TierSchedule :=
  if existsb (λ e, e.1 =? from) (entries s) then (false, s)
  else
    let at_ := partition_point (λ e, e.1 <? from) (entries s) in
    (true, mkSchedule (vec_insert at_ (from, t) (entries s))).

Definition at_ (s : TierSchedule) (when : Nanos) : option TierTable :=
  match partition_point (λ e, e.1 <=? when) (entries s) with
  | O => None
  | S i => snd <$> entries s !! i
  end.

Definition revisions (s : TierSchedule) : list Nanos := fst <$> entries s.
End TierSchedule.

(** * Lemmas *)

Lemma saturate_eq v : saturate v = sat64 v.
Proof.
  unfold saturate. destruct (Z.gtb_spec v I64_MAX); [mlia|]. destruct (Z.ltb_spec v I64_MIN); mlia.
Qed.

Lemma saturate_range v : i64 (saturate v).
Proof. rewrite saturate_eq. apply sat64_range. Qed.

#[export] Hint Resolve saturate_range : machine.

(** With every factor in range and the product inside [i128], nothing clamps. *)
Lemma notional_wide_exact c p q :
  i64 p → i64 q → q ≠ I64_MIN → i128 (p * Z.abs q * c_tick_cash c) →
  notional_wide c p q = p * Z.abs q * c_tick_cash c.
Proof.
  intros Hp Hq Hm Hi. unfold notional_wide. rewrite sat64_abs_abs by done.
  rewrite (sat128_id (p * Z.abs q)); [by apply sat128_id|]. unfold i64, i128 in *. nia.
Qed.

Lemma sat128_nonneg v : 0 ≤ v → 0 ≤ sat128 v.
Proof. mlia. Qed.
Lemma sat128_mono a b : a ≤ b → sat128 a ≤ sat128 b.
Proof. mlia. Qed.

Lemma notional_wide_nonneg c p q : 0 ≤ p → 0 ≤ c_tick_cash c → 0 ≤ notional_wide c p q.
Proof.
  intros. unfold notional_wide. apply sat128_nonneg, Z.mul_nonneg_nonneg; [|done].
  apply sat128_nonneg, Z.mul_nonneg_nonneg; [done|apply sat64_abs_nonneg].
Qed.

Lemma c_notional_range c p q : i64 (c_notional c p q).
Proof. apply saturate_range. Qed.

Lemma c_notional_nonneg c p q : 0 ≤ p → 0 ≤ c_tick_cash c → 0 ≤ c_notional c p q.
Proof.
  intros. pose proof (notional_wide_nonneg c p q ltac:(done) ltac:(done)).
  unfold c_notional. rewrite saturate_eq. mlia.
Qed.

Lemma c_notional_mono c p q1 q2 : 0 ≤ p → 0 ≤ c_tick_cash c → Z.abs q1 ≤ Z.abs q2 →
  c_notional c p q1 ≤ c_notional c p q2.
Proof.
  intros Hp Hc Hq. unfold c_notional. rewrite !saturate_eq. apply sat64_mono.
  unfold notional_wide. apply sat128_mono, Z.mul_le_mono_nonneg_r; [done|].
  apply sat128_mono, Z.mul_le_mono_nonneg_l; [done|]. mlia.
Qed.

(** ** Tier tables *)

Definition tier_lt (a b : MarginTier) : Prop := max_notional a < max_notional b.

(** What [TierTable::new] establishes. *)
Definition table_ok (t : TierTable) : Prop :=
  tiers t ≠ [] ∧ StronglySorted tier_lt (tiers t).

Lemma unordered_sorted ts : TierTable.unordered ts = false → StronglySorted tier_lt ts.
Proof.
  intros H. apply Sorted_StronglySorted; [intros ???; unfold tier_lt; lia|].
  induction ts as [|a [|b ts] IH]; [constructor|repeat constructor|].
  cbn [TierTable.unordered] in H. apply orb_false_iff in H as [H1 H2].
  constructor; [by apply IH|]. constructor. unfold tier_lt. lia.
Qed.

Lemma table_new_ok ts t : TierTable.new ts = Some t → table_ok t ∧ tiers t = ts.
Proof.
  unfold TierTable.new. destruct ts as [|a ts]; [done|].
  destruct (TierTable.unordered _) eqn:E; [done|]. intros [= <-].
  split; [|done]. split; [done|]. by apply unordered_sorted.
Qed.

Lemma scan_spec ts n x : TierTable.scan ts n = Some x →
  ∃ l1 l2, ts = l1 ++ x :: l2 ∧ Forall (λ t, max_notional t < n) l1 ∧ n ≤ max_notional x.
Proof.
  induction ts as [|t ts IH]; simpl; [done|]. destruct (Z.leb_spec n (max_notional t)).
  - intros [= ->]. exists [], ts. auto.
  - intros (l1 & l2 & -> & ? & ?)%IH. exists (t :: l1), l2. auto.
Qed.

Lemma scan_None ts n : TierTable.scan ts n = None → Forall (λ t, max_notional t < n) ts.
Proof.
  induction ts as [|t ts IH]; simpl; [constructor|].
  destruct (Z.leb_spec n (max_notional t)); [done|]. auto.
Qed.

Lemma tier_for_returns t n (P : MarginTier → Prop) : table_ok t →
  (∀ tier, tier ∈ tiers t → P tier) → returns (TierTable.tier_for t n) P.
Proof.
  intros [Hne _] HP. unfold TierTable.tier_for.
  destruct (TierTable.scan (tiers t) n) as [x|] eqn:E.
  - apply returns_ret, HP. apply scan_spec in E as (l1 & l2 & -> & _).
    apply elem_of_app. right. by left.
  - destruct (last (tiers t)) as [x|] eqn:El; [|by apply last_None in El].
    apply returns_Ret, HP. apply last_Some in El as [l ->]. apply elem_of_app. right. by left.
Qed.

Lemma maintenance_returns t c p q : table_ok t →
  returns (TierTable.maintenance t c p q) (λ m, 0 ≤ m ∧ i64 m).
Proof.
  intros Ht. unfold TierTable.maintenance. apply returns_bind.
  eapply returns_mono; [apply (tier_for_returns _ _ (λ _, True)); done|]. intros tier _.
  apply returns_ret. case_match; [by vm_compute|]. split; [lia|apply sat64_range].
Qed.

(** The bracket a notional falls in, by the boundaries on either side of it. *)
Lemma tier_for_bracket t n x : table_ok t → TierTable.tier_for t n = Ret x →
  ∃ l1 l2, tiers t = l1 ++ x :: l2 ∧ Forall (λ y, max_notional y < n) l1 ∧
    (n ≤ max_notional x ∨ l2 = []).
Proof.
  intros [Hne _]. unfold TierTable.tier_for.
  destruct (TierTable.scan (tiers t) n) as [y|] eqn:E.
  - intros [= ->]. apply scan_spec in E as (l1 & l2 & -> & ? & ?). exists l1, l2. auto.
  - destruct (last (tiers t)) as [y|] eqn:El; [|done]. intros [= ->].
    apply last_Some in El as [l Hl]. apply scan_None in E. rewrite Hl in *.
    apply Forall_app in E as [E _]. exists l, []. auto.
Qed.

(** ** A table whose requirement does not jump

    What makes the maintenance amounts of a venue's table more than numbers:
    rates grow with the bracket and each amount continues the previous
    bracket's line from its boundary. *)

Definition continues (a b : MarginTier) : Prop :=
  0 ≤ rate a ≤ rate b ∧ 0 ≤ max_notional a ∧
  (amount b - amount a) * RATIO_SCALE = max_notional a * (rate b - rate a).

Definition table_continuous (t : TierTable) : Prop :=
  Sorted continues (tiers t) ∧
  Forall (λ x, 0 ≤ rate x ≤ RATIO_SCALE ∧ i64 (amount x)) (tiers t).

(** A bracket's line, before clamping. *)
Definition line (x : MarginTier) (n : Z) : Z := n * rate x / RATIO_SCALE - amount x.

Lemma line_mono x m n : 0 ≤ rate x → m ≤ n → line x m ≤ line x n.
Proof.
  intros. unfold line. pose proof (Z.div_le_mono (m * rate x) (n * rate x) RATIO_SCALE).
  unfold RATIO_SCALE in *. nia.
Qed.

Lemma line_continues a b n : continues a b → max_notional a ≤ n → line a n ≤ line b n.
Proof.
  intros (Hr & Hm & Hc) Hn. unfold line, RATIO_SCALE in *.
  assert (n * rate b / 1000000000 - (amount b - amount a) =
          (n * rate b - (amount b - amount a) * 1000000000) / 1000000000) as E.
  { replace (n * rate b - (amount b - amount a) * 1000000000)
      with (n * rate b + (- (amount b - amount a)) * 1000000000) by lia.
    rewrite Z.div_add by lia. lia. }
  assert (n * rate a / 1000000000 ≤ (n * rate b - (amount b - amount a) * 1000000000) / 1000000000).
  { apply Z.div_le_mono; [lia|]. rewrite Hc. nia. }
  lia.
Qed.

(** Climbing brackets never lowers the requirement at a notional above the
    boundaries climbed. *)
Lemma line_climb x l y n : Sorted continues (x :: l ++ [y]) →
  Forall (λ t, max_notional t ≤ n) (x :: l) → line x n ≤ line y n.
Proof.
  revert x. induction l as [|z l IH]; intros x Hs HF; simpl in *.
  - apply Sorted_inv in Hs as [_ Hh]. apply HdRel_inv in Hh. inversion HF. by apply line_continues.
  - apply Sorted_inv in Hs as [Hs Hh]. apply HdRel_inv in Hh. inversion HF; subst.
    transitivity (line z n); [by apply line_continues|by apply IH].
Qed.

Lemma maintenance_line t c p q x : table_continuous t → 0 ≤ p → 0 ≤ c_tick_cash c →
  x ∈ tiers t → TierTable.tier_for t (c_notional c p q) = Ret x →
  TierTable.maintenance t c p q = Ret (Z.max 0 (sat64 (line x (c_notional c p q)))).
Proof.
  intros [_ HF] Hp Hc Hx Ht. unfold TierTable.maintenance. rewrite Ht. cbn [mbind run_bind].
  rewrite Forall_forall in HF. destruct (HF x Hx) as [Hr Ha].
  pose proof (c_notional_nonneg c p q Hp Hc). pose proof (c_notional_range c p q).
  set (n := c_notional c p q) in *.
  assert (0 ≤ n * rate x / RATIO_SCALE ≤ n).
  { unfold RATIO_SCALE in *. split; [apply Z.div_pos; nia|apply Z.div_le_upper_bound; nia]. }
  rewrite scaled_nonneg by (nia || mlia). unfold Cash.sub, Cash.ZERO, mret, run_ret. fold (line x n).
  f_equal. destruct (Z.ltb_spec (sat64 (line x n)) 0); mlia.
Qed.

Lemma Sorted_sub {A} (R : relation A) l1 l l2 x y :
  Sorted R (l1 ++ x :: l ++ y :: l2) → Sorted R (x :: l ++ [y]).
Proof.
  intros H. assert (Sorted R (x :: l ++ y :: l2)) as H'.
  { induction l1 as [|a l1 IH]; [done|]. simpl in H. apply Sorted_inv in H as [H _]. auto. }
  clear H. revert x H'. induction l as [|z l IH]; intros x H; simpl in *.
  - apply Sorted_inv in H as [_ H]. apply HdRel_inv in H. repeat constructor; done.
  - apply Sorted_inv in H as [H Hh]. apply HdRel_inv in Hh. constructor; [by apply IH|].
    by constructor.
Qed.

(** A larger notional falls in the same bracket or a later one, with every
    boundary between the two at most the larger notional. *)
Lemma tier_for_order t n1 n2 x1 x2 : table_ok t → n1 ≤ n2 →
  TierTable.tier_for t n1 = Ret x1 → TierTable.tier_for t n2 = Ret x2 →
  x1 = x2 ∨ ∃ l1 l l2, tiers t = l1 ++ x1 :: l ++ x2 :: l2 ∧
    Forall (λ y, max_notional y < n2) (x1 :: l).
Proof.
  intros Ht Hn E1 E2.
  destruct (tier_for_bracket t n1 x1 Ht E1) as (a1 & b1 & Et1 & F1 & _).
  destruct (tier_for_bracket t n2 x2 Ht E2) as (a2 & b2 & Et2 & F2 & L2).
  rewrite Et1 in Et2. apply app_eq_inv in Et2 as [(k & -> & Hk)|(k & -> & Hk)].
  - destruct k as [|y k]; simpl in Hk; [naive_solver|]. injection Hk as -> ->.
    apply Forall_app in F1 as [_ F1]. inversion F1; subst.
    destruct L2 as [?|L2]; [lia|]. by destruct k.
  - destruct k as [|y k]; simpl in Hk; [naive_solver|]. injection Hk as -> ->.
    right. exists a1, k, b2. split; [done|]. by apply Forall_app in F2 as [_ F2].
Qed.

(** Under a table whose amounts continue each bracket from its boundary,
    the maintenance requirement never falls as a position grows: no bracket
    boundary can be crossed into a lower requirement. *)
Theorem maintenance_monotone (t : TierTable) (c : Contract) (p : PriceTicks) (q1 q2 : QtyLots)
    (Ht : table_ok t) (Hcont : table_continuous t) (Hp : 0 ≤ p) (Hc : 0 ≤ c_tick_cash c)
    (Hq : Z.abs q1 ≤ Z.abs q2) :
  ∃ m1 m2, TierTable.maintenance t c p q1 = Ret m1 ∧
    TierTable.maintenance t c p q2 = Ret m2 ∧ 0 ≤ m1 ≤ m2.
Proof.
  pose proof (c_notional_mono c p q1 q2 Hp Hc Hq) as Hn.
  assert (∀ q, ∃ x, TierTable.tier_for t (c_notional c p q) = Ret x ∧ x ∈ tiers t) as Hx.
  { intros q. destruct (tier_for_returns t (c_notional c p q) (λ x, x ∈ tiers t) Ht) as (x & ? & ?); eauto. }
  destruct (Hx q1) as (x1 & E1 & H1), (Hx q2) as (x2 & E2 & H2).
  eexists _, _. split_and!; [exact (maintenance_line t c p q1 x1 Hcont Hp Hc H1 E1)
    |exact (maintenance_line t c p q2 x2 Hcont Hp Hc H2 E2)|lia|].
  apply Z.max_le_compat_l, sat64_mono.
  transitivity (line x1 (c_notional c p q2)).
  { apply line_mono; [|done]. destruct Hcont as [_ HF]. rewrite Forall_forall in HF. by apply HF. }
  destruct Hcont as [Hs _].
  destruct (tier_for_order t _ _ x1 x2 Ht Hn E1 E2) as [->|(l1 & l & l2 & Et & HF)]; [done|].
  rewrite Et in Hs. apply Sorted_sub in Hs.
  apply (line_climb x1 l x2); [done|]. eapply Forall_impl; [apply HF|]. simpl. lia.
Qed.

Lemma maintenance_monotone_witness :
  ∃ t m1 m2, TierTable.example_btcusdt = Ret t ∧
    TierTable.maintenance t (mkContract 10000) 1200000 416 = Ret m1 ∧
    TierTable.maintenance t (mkContract 10000) 1200000 (-417) = Ret m2 ∧ 0 ≤ m1 ≤ m2.
Proof.
  destruct TierTable.example_btcusdt as [t| |] eqn:E; [|discriminate|discriminate].
  exists t. vm_compute in E. injection E as <-.
  destruct (maintenance_monotone (mkTable [mkTier 5000000000000 4000000 0;
      mkTier 50000000000000 5000000 5000000000; mkTier 100000000000000 10000000 255000000000;
      mkTier 1000000000000000 25000000 1755000000000;
      mkTier 9223372036854775807 50000000 26755000000000]) (mkContract 10000) 1200000 416 (-417))
    as (m1 & m2 & H); try (simpl; lia).
  - split; [done|]. apply unordered_sorted. reflexivity.
  - split; [repeat constructor; simpl; unfold RATIO_SCALE; lia|].
    repeat (apply Forall_cons; split); try apply Forall_nil; simpl; unfold RATIO_SCALE; mlia.
  - exists m1, m2. split; [reflexivity|exact H].
Defined.

(** ** Dated tables *)

Definition date_lt (a b : Nanos * TierTable) : Prop := a.1 < b.1.
Definition schedule_ok (s : TierSchedule) : Prop := StronglySorted date_lt (entries s).

Lemma schedule_new_ok es s : TierSchedule.new es = Some s →
  schedule_ok s ∧ Permutation (entries s) es.
Proof.
  unfold TierSchedule.new. destruct es as [|e es]; [done|].
  destruct (TierSchedule.has_duplicate _) eqn:Hd; [done|]. intros [= <-].
  split; [|apply (sort_by_key_perm fst (e :: es))]. unfold schedule_ok. cbn [entries].
  change (insert_by fst e (sort_by_key fst es)) with (sort_by_key fst (e :: es)) in *.
  pose proof (sort_by_key_sorted fst (e :: es)) as Hs.
  set (l := sort_by_key fst (e :: es)) in *. clearbody l.
  apply Sorted_StronglySorted; [intros ???; unfold date_lt; lia|].
  induction Hs as [|a l Hs IH HF]; [constructor|].
  destruct l as [|b l]; [repeat constructor|]. cbn [TierSchedule.has_duplicate] in Hd.
  apply orb_false_iff in Hd as [H1 H2]. constructor; [by apply IH|].
  inversion HF; subst. constructor. unfold key_le, date_lt in *. lia.
Qed.

(** A date splits a well-formed schedule into what is in force by then and
    what is not yet. *)
Lemma schedule_split s (p : Nanos * TierTable → bool) :
  schedule_ok s → (∀ x y, x.1 < y.1 → p y = true → p x = true) →
  ∃ l1 l2, entries s = l1 ++ l2 ∧ Forall (λ e, p e = true) l1 ∧ Forall (λ e, p e = false) l2 ∧
    partition_point p (entries s) = length l1.
Proof.
  intros Hs Hp. destruct (sorted_partitioned date_lt p (entries s) Hs) as (l1 & l2 & E & F1 & F2).
  { intros x y. apply Hp. }
  exists l1, l2. split_and!; try done. rewrite E. by apply partition_point_spec.
Qed.

Lemma schedule_at s when : schedule_ok s →
  ∃ l1 l2, entries s = l1 ++ l2 ∧ Forall (λ e, e.1 ≤ when) l1 ∧ Forall (λ e, when < e.1) l2 ∧
    TierSchedule.at_ s when = snd <$> last l1.
Proof.
  intros Hs. destruct (schedule_split s (λ e, e.1 <=? when) Hs) as (l1 & l2 & E & F1 & F2 & Hp).
  { intros x y ?. rewrite !Z.leb_le. lia. }
  exists l1, l2. split_and!; [done| | |].
  - eapply Forall_impl; [apply F1|]. simpl. intros; lia.
  - eapply Forall_impl; [apply F2|]. simpl. intros; lia.
  - unfold TierSchedule.at_. rewrite Hp, E. destruct l1 as [|e l1 _] using rev_ind; [done|].
    rewrite length_app. simpl. rewrite Nat.add_1_r, last_snoc. simpl.
    rewrite <-(assoc_L (++)). simpl. by rewrite list_lookup_middle.
Qed.

Lemma schedule_insert_ok s from t : schedule_ok s → schedule_ok (TierSchedule.insert s from t).2.
Proof.
  intros Hs. unfold TierSchedule.insert. destruct (existsb _ _) eqn:Hx; [done|].
  destruct (schedule_split s (λ e, e.1 <? from) Hs) as (l1 & l2 & E & F1 & F2 & Hp).
  { intros x y ?. rewrite !Z.ltb_lt. lia. }
  unfold schedule_ok in *. cbn [snd entries]. rewrite Hp, E, vec_insert_app. rewrite E in Hs, Hx.
  apply StronglySorted_app in Hs as (S1 & S2 & S12).
  rewrite existsb_app in Hx. apply orb_false_iff in Hx as [_ Hx].
  rewrite Forall_forall in F1, F2.
  apply StronglySorted_app. split_and!; [done| |].
  - constructor; [done|]. apply Forall_forall. intros e He. unfold date_lt. simpl.
    specialize (F2 e He). simpl in F2. assert (e.1 ≠ from); [|lia]. intros <-.
    apply not_true_iff_false in Hx. apply Hx. apply existsb_exists. exists e.
    split; [by apply list_elem_of_In|lia].
  - intros x y Hx' [->|Hy]%elem_of_cons; [|by apply S12].
    unfold date_lt. simpl. specialize (F1 x Hx'). simpl in F1. lia.
Qed.

(** Rules are resolved by the event's time: the table in force at an
    instant is the latest one dated at or before it, there is none before the
    first, and recording a later revision never changes the answer for an
    earlier instant. *)
Theorem schedule_bitemporal (s : TierSchedule) (when : Nanos) (Hs : schedule_ok s) :
  (∀ t, TierSchedule.at_ s when = Some t ↔
     ∃ d, (d, t) ∈ entries s ∧ d ≤ when ∧ ∀ e, e ∈ entries s → e.1 ≤ when → e.1 ≤ d) ∧
  (∀ from t, when < from →
     TierSchedule.at_ (TierSchedule.insert s from t).2 when = TierSchedule.at_ s when).
Proof.
  assert (∀ s, schedule_ok s → ∀ t, TierSchedule.at_ s when = Some t ↔
     ∃ d, (d, t) ∈ entries s ∧ d ≤ when ∧ ∀ e, e ∈ entries s → e.1 ≤ when → e.1 ≤ d) as Hat.
  { clear s Hs. intros s Hs t. destruct (schedule_at s when Hs) as (l1 & l2 & E & F1 & F2 & ->).
    unfold schedule_ok in Hs. rewrite E in *. apply StronglySorted_app in Hs as (S1 & S2 & S12).
    rewrite Forall_forall in F1, F2. split.
    - intros ([d t'] & Hl & ->)%fmap_Some. apply last_Some in Hl as [k ->]. exists d. split_and!.
      + rewrite !elem_of_app. left; right. by left.
      + apply (F1 (d, t')). apply elem_of_app. right. by left.
      + intros e [[He| ->%list_elem_of_singleton]%elem_of_app|He]%elem_of_app Hle; [|done|].
        * apply StronglySorted_app in S1 as (_ & _ & S). specialize (S e (d, t') He ltac:(by left)).
          unfold date_lt in S. simpl in S. lia.
        * specialize (F2 e He). simpl in F2. lia.
    - intros (d & [Hin|Hin]%elem_of_app & Hd & Hmax).
      2: { specialize (F2 _ Hin). simpl in F2. lia. }
      destruct l1 as [|e l1 _] using rev_ind; [by apply not_elem_of_nil in Hin|].
      rewrite last_snoc. simpl. apply elem_of_app in Hin as [Hin|Hin%list_elem_of_singleton];
        [|by subst].
      apply StronglySorted_app in S1 as (_ & _ & S). specialize (S (d, t) e Hin ltac:(by left)).
      assert (e.1 ≤ d).
      { apply Hmax; [rewrite !elem_of_app; left; right; by left|].
        apply F1. rewrite elem_of_app. right. by left. }
      unfold date_lt in S. simpl in S. lia. }
  split; [by apply Hat|]. intros from t Hlt. apply option_eq. intros x.
  rewrite !Hat by auto using schedule_insert_ok.
  unfold TierSchedule.insert. destruct (existsb _ _); [done|]. cbn [snd entries].
  assert (∀ e, e ∈ vec_insert (partition_point (λ e, e.1 <? from) (entries s)) (from, t) (entries s) ↔
     e = (from, t) ∨ e ∈ entries s) as Hin.
  { intros e. rewrite (vec_insert_perm _ (from, t) (entries s)). apply elem_of_cons. }
  setoid_rewrite Hin. split; intros (d & H1 & H2 & H3); exists d; split_and!; try done.
  - destruct H1 as [[= -> ->]|]; [lia|done].
  - intros e He. apply H3. by right.
  - by right.
  - intros e [->|He]; [simpl; lia|by apply H3].
Qed.

Lemma schedule_bitemporal_witness :
  TierSchedule.at_ (TierSchedule.insert (mkSchedule [(10, mkTable []); (20, mkTable [])])
    30 (mkTable [])).2 15 = Some (mkTable []).
Proof.
  destruct (schedule_bitemporal (mkSchedule [(10, mkTable []); (20, mkTable [])]) 15) as [_ H].
  - repeat constructor.
  - rewrite (H 30 (mkTable [])); [reflexivity|lia].
Defined.
