(* ===== verification/Liquidation.v ===== *)
(** A margined position and the price at which the venue takes it
    ([oq-margin/src/position.rs]). *)

From S2P Require Import Prelude Types Margin.

Record MarginedPosition := mkPosition {
  mp_contract : Contract;
  mp_entry : PriceTicks;
  mp_qty : QtyLots;
  mp_margin : Cash;
  mp_entry_cost : option Z;
}.

Inductive LiquidationOutcome :=
| Flat
| Safe (equity maintenance : Cash) (distance_ticks : option Z)
| Liquidatable (equity maintenance : Cash).

Module Position.
Definition new (c : Contract) (entry : PriceTicks) (qty : QtyLots) (margin : Cash) :=
  mkPosition c entry qty margin None.
Definition with_entry_cost (p : MarginedPosition) (cost : Z) :=
  mkPosition (mp_contract p) (mp_entry p) (mp_qty p) (mp_margin p) (Some cost).
Definition is_flat (p : MarginedPosition) : bool := mp_qty p =? 0.

Definition unrealized (p : MarginedPosition) (mark : PriceTicks) : run Cash :=
  match mp_entry_cost p with
  | Some cost => mret (unrealized_from_cost (mp_contract p) cost mark (mp_qty p))
  | None => Margin.unrealized (mp_contract p) (mp_entry p) mark (mp_qty p)
  end.

Definition equity (p : MarginedPosition) (mark : PriceTicks) : run Cash :=
  u ← unrealized p mark; mret (Cash.add (mp_margin p) u).

Definition maintenance (p : MarginedPosition) (t : TierTable) (mark : PriceTicks) : run Cash :=
  TierTable.maintenance t (mp_contract p) mark (mp_qty p).

(** [ticks as i64] truncates. *)
Definition as_i64 (v : Z) : Z := (v + 2 ^ 63) mod 2 ^ 64 - 2 ^ 63.

Definition liquidation_price_at (p : MarginedPosition) (t : TierTable) (mark : PriceTicks)
    : run (option PriceTicks) :=
  if is_flat p then mret None
  else
    let n := c_notional (mp_contract p) mark (mp_qty p) in
    tier ← TierTable.tier_for t n;
    let k := c_tick_cash (mp_contract p) in
    let size := i64_saturating_abs (mp_qty p) in
    let cost := match mp_entry_cost p with
                | Some c => c
                | None => notional_wide (mp_contract p) (mp_entry p) (mp_qty p)
                end in
    let margin := mp_margin p in
    let am := amount tier in
    let rt := rate tier in
    let scale := RATIO_SCALE in
    '(num, den) ←
      (if mp_qty p >? 0 then
         a ← chk128 (cost - margin);
         b ← chk128 (a - am);
         num ← chk128 (b * scale);
         sk ← chk128 (size * k);
         den ← chk128 (sk * (scale - rt));
         mret (num, den)
       else
         a ← chk128 (cost + margin);
         b ← chk128 (a + am);
         num ← chk128 (b * scale);
         sk ← chk128 (size * k);
         den ← chk128 (sk * (scale + rt));
         mret (num, den));
    if den <=? 0 then mret None
    else
      let ticks :=
        if mp_qty p >? 0 then div_euclid num den
        else div_euclid num den + (if rem_euclid num den =? 0 then 0 else 1) in
      if ticks <=? 0 then mret (if mp_qty p >? 0 then None else Some 0)
      else mret (Some (as_i64 ticks)).

(** The bracket at the entry notional. *)
Definition liquidation_price (p : MarginedPosition) (t : TierTable) : run (option PriceTicks) :=
  if is_flat p then mret None else liquidation_price_at p t (mp_entry p).

Definition assess (p : MarginedPosition) (t : TierTable) (mark : PriceTicks)
    : run LiquidationOutcome :=
  if is_flat p then mret Flat
  else
    eq ← equity p mark;
    m ← maintenance p t mark;
    if eq <=? m then mret (Liquidatable eq m)
    else
      liq ← liquidation_price_at p t mark;
      d ← match liq with
          | None => mret None
          | Some l => x ← chk64 (mark - l); y ← chk64 (Z.abs x); mret (Some y)
          end;
      mret (Safe eq m d).

Definition is_liquidatable (p : MarginedPosition) (t : TierTable) (mark : PriceTicks) : run bool :=
  o ← assess p t mark;
  mret match o with Liquidatable _ _ => true | _ => false end.

Definition with_margin (p : MarginedPosition) (margin : Cash) :=
  mkPosition (mp_contract p) (mp_entry p) (mp_qty p) margin (mp_entry_cost p).
Definition adjust_margin (p : MarginedPosition) (delta : Cash) :=
  with_margin p (Cash.add (mp_margin p) delta).
End Position.

(** * Where nothing clamps

    Magnitudes below [2^60] cash units (about 1.1e10 units of quote currency)
    on every figure the derivation uses. *)

Definition B : Z := 2 ^ 60.

Definition cost_of (p : MarginedPosition) : Z :=
  match mp_entry_cost p with
  | Some c => c
  | None => mp_entry p * Z.abs (mp_qty p) * c_tick_cash (mp_contract p)
  end.

Record position_bounded (p : MarginedPosition) (mark : PriceTicks) : Prop := {
  pb_qty : mp_qty p ≠ 0;
  pb_tick : 0 < c_tick_cash (mp_contract p);
  pb_mark : 0 < mark < B;
  pb_entry : - B < mp_entry p < B;
  pb_value : mark * Z.abs (mp_qty p) * c_tick_cash (mp_contract p) < B;
  pb_cost : - B < cost_of p < B;
  pb_margin : - B < mp_margin p < B;
}.

Lemma le_div_iff n d m : 0 < d → m ≤ n / d ↔ m * d ≤ n.
Proof.
  intros Hd. split; intros H.
  - pose proof (Z.mul_div_le n d Hd). nia.
  - apply Z.div_le_lower_bound; lia.
Qed.

Lemma ceil_le_iff n d m : 0 < d →
  n / d + (if n mod d =? 0 then 0 else 1) ≤ m ↔ n ≤ m * d.
Proof.
  intros Hd. pose proof (Z.div_mod n d ltac:(lia)). pose proof (Z.mod_pos_bound n d Hd).
  destruct (Z.eqb_spec (n mod d) 0); split; intros; nia.
Qed.

Lemma div_cap n d : 0 < d → n < 2 ^ 63 * d - d → n / d < 2 ^ 63 - 1.
Proof. intros. apply Z.div_lt_upper_bound; lia. Qed.

Section exact.
Context (p : MarginedPosition) (t : TierTable) (mark : PriceTicks) (tier : MarginTier).
Context (Hb : position_bounded p mark).
Context (Htier : TierTable.tier_for t (c_notional (mp_contract p) mark (mp_qty p)) = Ret tier).
Context (Hrate : 0 ≤ rate tier ≤ 750000000).

Local Abbreviation s := (Z.abs (mp_qty p)).
Local Abbreviation k := (c_tick_cash (mp_contract p)).
Local Abbreviation value := (mark * s * k).

Context (Hamount : 0 ≤ amount tier ≤ value * rate tier / RATIO_SCALE).

Lemma sk_bounds : 0 < s * k < B.
Proof. clear -Hb. destruct Hb as [? ? ? ? ? ? ?]. split; nia. Qed.

Lemma qty_small : 0 < s < B.
Proof. clear -Hb. destruct Hb as [? ? ? ? ? ? ?]. pose proof sk_bounds. split; nia. Qed.

Lemma wide_at_mark : notional_wide (mp_contract p) mark (mp_qty p) = value.
Proof. clear -Hb.
  pose proof qty_small. destruct Hb as [? ? ? ? ? ? ?]. unfold B in *.
  apply notional_wide_exact; unfold i64, i128 in *; lia.
Qed.

Lemma notional_at_mark : c_notional (mp_contract p) mark (mp_qty p) = value.
Proof. clear -Hb.
  unfold c_notional. rewrite saturate_eq, wide_at_mark. apply sat64_id.
  pose proof sk_bounds. destruct Hb as [? ? ? ? ? ? ?]. unfold B, i64 in *. nia.
Qed.

Lemma value_bounds : 0 < value < B.
Proof. clear -Hb. pose proof sk_bounds. destruct Hb as [? ? ? ? ? ? ?]. split; nia. Qed.

(** Unrealized profit is exactly the signed change in value. *)
Lemma unrealized_exact :
  Position.unrealized p mark = Ret (if mp_qty p >? 0 then value - cost_of p else cost_of p - value).
Proof. clear -Hb.
  pose proof value_bounds. pose proof qty_small. pose proof sk_bounds. pose proof Hb as [? ? ? ? ? ? ?].
  unfold Position.unrealized, cost_of in *. unfold B in *. destruct (mp_entry_cost p) as [c|].
  - unfold unrealized_from_cost. destruct (Z.eqb_spec (mp_qty p) 0); [done|].
    rewrite saturate_eq, wide_at_mark. unfold mret, run_ret. f_equal.
    destruct (Z.gtb_spec (mp_qty p) 0); mlia.
  - unfold Margin.unrealized.
    assert ((mark - mp_entry p) * mp_qty p * k =
      (if mp_qty p >? 0 then value - mp_entry p * s * k else mp_entry p * s * k - value)) as E.
    { destruct (Z.gtb_spec (mp_qty p) 0);
        [rewrite Z.abs_eq by lia | rewrite Z.abs_neq by lia]; ring. }
    rewrite chk_ret. 2:{ unfold i128. nia. }
    cbn [mbind run_bind]. rewrite E, chk_ret. 2:{ unfold i128. destruct (_ >? _); lia. }
    cbn [mbind run_bind]. unfold mret, run_ret. f_equal. rewrite saturate_eq.
    apply sat64_id. unfold i64. destruct (_ >? _); lia.
Qed.

(** The bracket's requirement is exactly its line. *)
Lemma maintenance_exact : Position.maintenance p t mark =
  Ret (value * rate tier / RATIO_SCALE - amount tier).
Proof.
  unfold Position.maintenance, TierTable.maintenance. rewrite Htier. cbn [mbind run_bind].
  rewrite notional_at_mark. pose proof value_bounds. unfold B in *.
  assert (0 ≤ value * rate tier / RATIO_SCALE ≤ value).
  { unfold RATIO_SCALE in *. split; [lia|apply Z.div_le_upper_bound; nia]. }
  rewrite scaled_nonneg by (nia || mlia). unfold Cash.sub. rewrite sat64_id by mlia.
  destruct (Z.ltb_spec (value * rate tier / RATIO_SCALE - amount tier) 0); [lia|done].
Qed.

(** The derivation in the module's header, with the rounding made exact:
    below the reported tick for a long, above it for a short. *)
Local Abbreviation num :=
  ((if mp_qty p >? 0 then cost_of p - mp_margin p - amount tier
    else cost_of p + mp_margin p + amount tier) * RATIO_SCALE).
Local Abbreviation den :=
  (s * k * (if mp_qty p >? 0 then RATIO_SCALE - rate tier else RATIO_SCALE + rate tier)).

Lemma cost_eq : match mp_entry_cost p with
                | Some c => c
                | None => notional_wide (mp_contract p) (mp_entry p) (mp_qty p)
                end = cost_of p.
Proof. clear -Hb.
  pose proof qty_small. pose proof Hb as [? ? ? ? ? Hc ?]. unfold cost_of in *. unfold B in *.
  destruct (mp_entry_cost p); [done|]. apply notional_wide_exact; unfold i64, i128; lia.
Qed.

Lemma num_den_bounds :
  0 < den < 2 ^ 91 ∧ 0 ≤ amount tier < B ∧
  - 2 ^ 93 < num < 2 ^ 63 * den - den.
Proof.
  pose proof value_bounds. pose proof sk_bounds. pose proof Hb as [? ? ? ? ? ? ?].
  assert (value * rate tier / RATIO_SCALE ≤ value).
  { unfold RATIO_SCALE in *. apply Z.div_le_upper_bound; nia. }
  set (c := cost_of p) in *. set (m := mp_margin p) in *. set (a := amount tier) in *.
  set (r := rate tier) in *. set (sk := s * k) in *. set (v := value) in *.
  clearbody c m a r sk v. unfold B, RATIO_SCALE in *.
  assert (∀ D, 250000000 ≤ D ≤ 2000000000 → 0 < sk * D < 2 ^ 91 ∧ 250000000 ≤ sk * D) as HD by nia.
  assert (∀ D, 1000000000 ≤ D → 1000000000 ≤ sk * D) as HD' by nia.
  destruct (Z.gtb_spec (mp_qty p) 0).
  - pose proof (HD (1000000000 - r) ltac:(lia)). lia.
  - pose proof (HD (1000000000 + r) ltac:(lia)). pose proof (HD' (1000000000 + r) ltac:(lia)). lia.
Qed.

Lemma liquidation_price_eq :
  ∃ L, Position.liquidation_price_at p t mark =
      Ret (if L <=? 0 then (if mp_qty p >? 0 then None else Some 0) else Some L) ∧ L < 2 ^ 63 ∧
    ∀ m, if mp_qty p >? 0 then (m ≤ L ↔ m * den ≤ num) else (L ≤ m ↔ num ≤ m * den).
Proof.
  pose proof num_den_bounds as (Hd & Ha & Hn). pose proof qty_small as Hs.
  pose proof sk_bounds as Hsk. pose proof Hb as [? ? ? ? ? ? ?].
  destruct Hn as [Hlo Hn]. pose proof (div_cap num den (proj1 Hd) Hn) as Hhi.
  exists (if mp_qty p >? 0 then num / den else num / den + (if num mod den =? 0 then 0 else 1)).
  split; [|split].
  2: { revert Hhi. generalize (num / den) (num mod den =? 0). intros x b ?.
       destruct (mp_qty p >? 0), b; lia. }
  2: { intros m. destruct (mp_qty p >? 0); [apply le_div_iff|apply ceil_le_iff]; apply Hd. }
  unfold Position.liquidation_price_at, Position.is_flat.
  destruct (Z.eqb_spec (mp_qty p) 0); [done|]. rewrite Htier. cbn [mbind run_bind].
  rewrite cost_eq, (sat64_abs_abs (mp_qty p)) by (unfold B, i64 in *; lia).
  assert (∀ x, 0 < x < 2 ^ 63 → Position.as_i64 x = x) as Hasi.
  { intros x Hx. unfold Position.as_i64. rewrite Z.mod_small; lia. }
  unfold B, RATIO_SCALE in *. destruct (Z.gtb_spec (mp_qty p) 0).
  all: do 5 (rewrite chk_ret by (unfold i128; lia); cbn [mbind run_bind]).
  all: unfold mret, run_ret; cbn [mbind run_bind].
  all: rewrite (proj2 (Z.leb_gt _ _)) by (apply (proj1 Hd)).
  all: rewrite div_euclid_pos, ?rem_euclid_pos by (apply (proj1 Hd)).
  all: match goal with |- context [?a / ?b] => revert Hhi; generalize (a / b) end.
  all: intros x Hhi; try destruct (_ =? 0).
  all: match goal with |- context [?a <=? 0] => destruct (Z.leb_spec a 0) end;
    [done|rewrite Hasi; [done|lia]].
Qed.
End exact.


