(* ===== verification/Funding.v ===== *)
(** Funding settlements and schedules ([oq-margin/src/funding.rs]). *)

From S2P Require Import Prelude Slices Types Margin.

Record FundingRate := mkRate { fr_at : Nanos; fr_rate : Ratio; fr_mark : PriceTicks }.

Record FundingSettlement := mkSettlement {
  fs_at : Nanos; fs_amount : Cash; fs_rate : Ratio; fs_mark : PriceTicks }.

(** What one settlement does to the collateral of a position of [qty]. *)
Definition settle (r : FundingRate) (c : Contract) (qty : QtyLots) : FundingSettlement :=
  let notional := c_notional c (fr_mark r) qty in
  let magnitude := Cash.scaled notional (fr_rate r) in
  let amount := if 0 <=? qty then Cash.neg magnitude else magnitude in
  mkSettlement (fr_at r) amount (fr_rate r) (fr_mark r).

Record FundingSchedule := mkFunding { rates : list FundingRate }.

Module FundingSchedule.
Definition new (rs : list FundingRate) : FundingSchedule := mkFunding (sort_by_key fr_at rs).

(** [rates.get(start..end).unwrap_or(&[])]. *)
Definition between (s : FundingSchedule) (from to : Nanos) : list FundingRate :=
  let start := partition_point (λ r, fr_at r <=? from) (rates s) in
  let stop := partition_point (λ r, fr_at r <=? to) (rates s) in
  if (start <=? stop)%nat && (stop <=? length (rates s))%nat
  then take (stop - start) (drop start (rates s)) else [].

Definition with_spike (s : FundingSchedule) (from to : Nanos) (multiple : Z) : FundingSchedule :=
  mkFunding ((λ r, if (from <=? fr_at r) && (fr_at r <=? to)
                   then mkRate (fr_at r) (sat64 (fr_rate r * multiple)) (fr_mark r) else r)
             <$> rates s).

Definition accrue (s : FundingSchedule) (c : Contract) (qty : QtyLots) (from to : Nanos) : Cash :=
  fold_left (λ acc r, Cash.add acc (fs_amount (settle r c qty))) (between s from to) Cash.ZERO.
End FundingSchedule.

(** * Lemmas *)

Definition funding_ok (s : FundingSchedule) : Prop := StronglySorted (key_le fr_at) (rates s).

Lemma funding_new_ok rs : funding_ok (FundingSchedule.new rs).
Proof. apply (sort_by_key_sorted fr_at). Qed.

Lemma with_spike_ok s from to m : funding_ok s → funding_ok (FundingSchedule.with_spike s from to m).
Proof.
  unfold funding_ok. simpl. induction 1 as [|r l Hs IH HF]; simpl; [constructor|].
  constructor; [done|]. apply Forall_fmap. eapply Forall_impl; [apply HF|].
  intros x Hx. unfold key_le in *. simpl. repeat case_match; done.
Qed.

(** An instant splits a schedule into what has settled by then and the rest. *)
Lemma funding_split s t : funding_ok s →
  ∃ l1 l2, rates s = l1 ++ l2 ∧ Forall (λ r, fr_at r ≤ t) l1 ∧ Forall (λ r, t < fr_at r) l2 ∧
    partition_point (λ r, fr_at r <=? t) (rates s) = length l1.
Proof.
  intros Hs. destruct (sorted_partitioned _ (λ r, fr_at r <=? t) _ Hs) as (l1 & l2 & E & F1 & F2).
  { intros x y. unfold key_le. rewrite !Z.leb_le. lia. }
  exists l1, l2. split_and!; [done| | |rewrite E; by apply partition_point_spec];
    (eapply Forall_impl; [eassumption|]); simpl; intros; lia.
Qed.

Definition in_window (from to : Nanos) (r : FundingRate) : Prop := from < fr_at r ≤ to.
#[export] Instance in_window_dec from to r : Decision (in_window from to r).
Proof. unfold in_window. apply _. Defined.

(** The slice is exactly the settlements of the window. *)
Lemma between_filter s from to : funding_ok s →
  FundingSchedule.between s from to = filter (in_window from to) (rates s).
Proof.
  intros Hs. destruct (funding_split s from Hs) as (a1 & b1 & E1 & F1 & G1 & P1).
  destruct (funding_split s to Hs) as (a2 & b2 & E2 & F2 & G2 & P2).
  unfold FundingSchedule.between. rewrite P1, P2.
  assert (length a2 ≤ length (rates s))%nat as Hle by (rewrite E2, length_app; lia).
  rewrite (proj2 (Nat.leb_le _ _) Hle), andb_true_r.
  destruct (Nat.leb_spec (length a1) (length a2)) as [H|H].
  - assert (∃ k, a2 = a1 ++ k ∧ b1 = k ++ b2) as (k & -> & ->).
    { rewrite E1 in E2. apply app_eq_inv in E2 as [(k & -> & ->)|(k & -> & ->)]; [|eauto].
      rewrite length_app in H. destruct k; simpl in *; [|lia]. exists []. by rewrite !app_nil_r. }
    rewrite E1, drop_app_length, length_app.
    replace (length a1 + length k - length a1)%nat with (length k) by lia.
    rewrite take_app_length, !filter_app. apply Forall_app in F2 as [_ F2], G1 as [G1 _].
    rewrite (filter_none _ a1), (filter_none _ b2), (filter_all _ k), app_nil_r; [done| | |].
    + apply Forall_forall. intros x Hx. rewrite Forall_forall in F2, G1. split; auto.
    + eapply Forall_impl; [apply G2|]. unfold in_window. intros; simpl in *; lia.
    + eapply Forall_impl; [apply F1|]. unfold in_window. intros; simpl in *; lia.
  - symmetry. apply filter_none. rewrite E1 in E2.
    apply app_eq_inv in E2 as [(k & -> & ->)|(k & -> & _)]; [|rewrite length_app in H; lia].
    rewrite E1. apply Forall_app in F1 as [F1 F1'].
    destruct k as [|y k]; [rewrite app_nil_r in H; lia|].
    apply Forall_app in G2 as [G2 _]. inversion F1'; subst. inversion G2; subst.
    apply Forall_forall. intros x _ [??]. lia.
Qed.

(** * Properties *)

(** Nothing settles twice and nothing is missed: adjacent windows
    partition the settlements of their union, so accruing tick by tick in
    any number of steps charges exactly the settlements of the whole interval;
    a window that runs backwards holds nothing. *)
Theorem funding_windows_partition (s : FundingSchedule) (a b c : Nanos)
    (Hs : funding_ok s) (Hab : a ≤ b) (Hbc : b ≤ c) :
  FundingSchedule.between s a b ++ FundingSchedule.between s b c = FundingSchedule.between s a c ∧
  FundingSchedule.between s c a = [] ∧
  (∀ r, r ∈ FundingSchedule.between s a c ↔ r ∈ rates s ∧ a < fr_at r ≤ c).
Proof.
  rewrite !between_filter by done. split_and!.
  - destruct (funding_split s b Hs) as (l1 & l2 & -> & F1 & F2 & _).
    rewrite !filter_app.
    rewrite (filter_none (in_window a b) l2), (filter_none (in_window b c) l1).
    2: eapply Forall_impl; [apply F1|]; unfold in_window; simpl; intros; lia.
    2: eapply Forall_impl; [apply F2|]; unfold in_window; simpl; intros; lia.
    rewrite app_nil_r. simpl. rewrite Forall_forall in F1, F2.
    f_equal; apply filter_ext_in; intros x Hx; unfold in_window.
    + specialize (F1 x Hx). simpl in F1. lia.
    + specialize (F2 x Hx). simpl in F2. lia.
  - apply filter_none, Forall_forall. unfold in_window. intros; lia.
  - intros r. rewrite list_elem_of_filter. unfold in_window. tauto.
Qed.

Lemma funding_windows_partition_witness :
  let s := FundingSchedule.new [mkRate 24 1 5; mkRate 8 2 5; mkRate 16 3 5] in
  FundingSchedule.between s 0 16 ++ FundingSchedule.between s 16 24 = FundingSchedule.between s 0 24.
Proof.
  apply (funding_windows_partition (FundingSchedule.new [mkRate 24 1 5; mkRate 8 2 5; mkRate 16 3 5]) 0 16 24);
    [apply funding_new_ok|lia|lia].
Defined.

(** A settlement moves money between the two sides and creates none: at
    one rate and mark, what a long is charged is what a short of the same size
    receives, a positive rate is paid by the long, and a flat position settles
    nothing. *)
Theorem funding_zero_sum (r : FundingRate) (c : Contract) (qty : QtyLots)
    (Hq : 0 < qty) (Hqi : i64 qty) (Hc : 0 ≤ c_tick_cash c) (Hm : 0 ≤ fr_mark r)
    (Hfit : Z.abs (c_notional c (fr_mark r) qty * fr_rate r) ≤ I64_MAX) :
  fs_amount (settle r c qty) + fs_amount (settle r c (- qty)) = 0 ∧
  (0 ≤ fr_rate r → fs_amount (settle r c qty) ≤ 0) ∧
  (fr_rate r ≤ 0 → 0 ≤ fs_amount (settle r c qty)) ∧
  fs_amount (settle r c 0) = 0.
Proof.
  assert (c_notional c (fr_mark r) (- qty) = c_notional c (fr_mark r) qty) as Hn.
  { unfold c_notional, notional_wide, i64_saturating_abs. by rewrite Z.abs_opp. }
  pose proof (c_notional_nonneg c (fr_mark r) qty Hm Hc) as Hnn.
  unfold settle; simpl. rewrite Hn.
  rewrite (proj2 (Z.leb_le 0 qty)), (proj2 (Z.leb_gt 0 (- qty))) by lia.
  set (n := c_notional c (fr_mark r) qty) in *.
  assert (Cash.scaled n (fr_rate r) = Z.quot (n * fr_rate r) RATIO_SCALE ∧
    Z.abs (Z.quot (n * fr_rate r) RATIO_SCALE) ≤ I64_MAX) as [-> Hb].
  { rewrite scaled_eq. pose proof (Z.quot_abs_l (n * fr_rate r) RATIO_SCALE ltac:(done)) as Ha.
    assert (Z.abs (Z.quot (n * fr_rate r) RATIO_SCALE) ≤ I64_MAX).
    { rewrite <-Z.quot_abs by done. unfold RATIO_SCALE. simpl Z.abs.
      rewrite Z.quot_div_nonneg by lia. apply Z.div_le_upper_bound; lia. }
    split; [apply sat64_id; mlia|done]. }
  rewrite cash_neg_exact by mlia. split_and!.
  - lia.
  - intros. pose proof (Z.quot_pos (n * fr_rate r) RATIO_SCALE). unfold RATIO_SCALE in *. nia.
  - intros. pose proof (Z.quot_opp_l (n * fr_rate r) RATIO_SCALE ltac:(done)).
    pose proof (Z.quot_pos (- (n * fr_rate r)) RATIO_SCALE). unfold RATIO_SCALE in *. nia.
  - unfold c_notional, notional_wide, i64_saturating_abs. simpl Z.abs.
    change (sat64 0) with 0. by rewrite Z.mul_0_r.
Qed.

Lemma funding_zero_sum_witness :
  let r := mkRate 0 100000 1200000 in
  fs_amount (settle r (mkContract 10000) 10) = -12000000 ∧
  fs_amount (settle r (mkContract 10000) 10) + fs_amount (settle r (mkContract 10000) (-10)) = 0.
Proof.
  split; [reflexivity|].
  apply (funding_zero_sum (mkRate 0 100000 1200000) (mkContract 10000) 10); vm_compute; try done; by split.
Defined.
