(* ===== verification/Tick.v ===== *)
(** The market observation a replay consumes ([oq-engine/src/tick.rs]).  Zero
    is "absent" in every price but [last]. *)

From S2P Require Import Prelude Types.

Record Tick := mkTick {
  t_stamp : Stamp;
  t_last : PriceTicks;
  t_high : PriceTicks;
  t_low : PriceTicks;
  t_bid : PriceTicks;
  t_ask : PriceTicks;
  t_volume : QtyLots;
}.

#[export] Instance Tick_eq_dec : EqDecision Tick.
Proof. solve_decision. Defined.

Module Tick.
Definition trades_only (s : Stamp) (last high low : Z) : Tick := mkTick s last high low 0 0 0.
Definition quoted (s : Stamp) (last high low bid ask : Z) : Tick := mkTick s last high low bid ask 0.
Definition with_volume (t : Tick) (v : Z) : Tick :=
  mkTick (t_stamp t) (t_last t) (t_high t) (t_low t) (t_bid t) (t_ask t) v.

Definition volume_since (t previous : Tick) : QtyLots :=
  let delta := sat64 (t_volume t - t_volume previous) in
  if delta <? 0 then 0 else delta.

Definition buy_trigger (t : Tick) : PriceTicks :=
  if t_ask t >? 0 then t_ask t else if t_low t >? 0 then t_low t else t_last t.
Definition buy_fill_reference (t : Tick) : PriceTicks :=
  if t_ask t >? 0 then t_ask t else t_last t.
Definition sell_trigger (t : Tick) : PriceTicks :=
  if t_bid t >? 0 then t_bid t else if t_high t >? 0 then t_high t else t_last t.
Definition sell_fill_reference (t : Tick) : PriceTicks :=
  if t_bid t >? 0 then t_bid t else t_last t.
Definition up_extent (t : Tick) : PriceTicks := if t_high t >? 0 then t_high t else t_last t.
Definition dn_extent (t : Tick) : PriceTicks := if t_low t >? 0 then t_low t else t_last t.
End Tick.
