(* ===== verification/Strategy.v ===== *)
(** The strategy interface ([oq-strategy/src/lib.rs]): what a strategy is
    shown, what it may ask for, and the callbacks a host makes.  The backtest
    and the live trader drive the same one. *)

From S2P Require Import Prelude Text Types Order Instrument Tick.
#[local] Open Scope Z_scope.

(** What a strategy is shown. *)
Record Context := mkContext {
  cx_instrument : InstrumentId; cx_tick : Tick; cx_position : QtyLots; cx_entry : PriceTicks;
  cx_short_position : QtyLots; cx_short_entry : PriceTicks; cx_equity : Cash; cx_working : nat;
}.

Inductive Intent :=
| Limit (instrument : InstrumentId) (id : OrderId) (side : Side) (price : PriceTicks) (qty : QtyLots) (offset : Offset)
| Market (instrument : InstrumentId) (id : OrderId) (side : Side) (qty : QtyLots) (offset : Offset)
| Cancel (id : OrderId)
| CancelAll.
Module Intent.
Definition instrument (i : Intent) : option InstrumentId :=
  match i with Limit n _ _ _ _ _ | Market n _ _ _ _ => Some n | Cancel _ | CancelAll => None end.
Definition limit_on (n : InstrumentId) (id : OrderId) (side : Side) (price : PriceTicks) (qty : QtyLots) : Intent :=
  Limit n id side price qty Open.
Definition market_on (n : InstrumentId) (id : OrderId) (side : Side) (qty : QtyLots) : Intent := Market n id side qty Open.
Definition closing (i : Intent) : Intent :=
  match i with
  | Limit n id side price qty _ => Limit n id side price qty Close
  | Market n id side qty _ => Market n id side qty Close
  | other => other
  end.
End Intent.
Inductive CloseReason := Liquidation | Adl | Settlement.
Record VenueClosed := mkVenueClosed {
  vc_instrument : InstrumentId; vc_reason : CloseReason; vc_leg : Side; vc_qty : QtyLots; vc_price : PriceTicks; vc_at : Nanos;
}.
Inductive Ending := Filled | Cancelled.

#[export] Instance Intent_eq_dec : EqDecision Intent.
Proof. solve_decision. Defined.
#[export] Instance CloseReason_eq_dec : EqDecision CloseReason.
Proof. solve_decision. Defined.
#[export] Instance VenueClosed_eq_dec : EqDecision VenueClosed.
Proof. solve_decision. Defined.
#[export] Instance Ending_eq_dec : EqDecision Ending.
Proof. solve_decision. Defined.

(** The trait.  [out] is the buffer of intents the callback is handed, and the
    buffer it leaves. *)
Module Strategy.
Class Strategy (S : Type) := {
  on_tick : S → Context → list Intent → S * list Intent;
  on_fill : S → Fill → Context → list Intent → S * list Intent;
  on_venue_closed : S → VenueClosed → Context → list Intent → S * list Intent;
  on_placed : S → OrderId → bool → S;
  on_cancel_failed : S → OrderId → text → S;
  on_ended : S → OrderId → Ending → list Intent → S * list Intent;
  on_history : S → Context → S;
  on_history_fill : S → Fill → Context → S;
  waiting_on : S → list (text * Z);
  name : S → text;
}.
End Strategy.
