(* ===== verification/RestingBook.v ===== *)
(** The book of the strategy's own resting orders ([oq-engine/src/book.rs]):
    two price-sorted vectors and two market queues, searched by binary search
    on insertion and linearly by identifier on removal. *)

From S2P Require Import Prelude Slices Types Order.

Record Resting := mkResting { r_order : Working; r_arrival : Z }.

#[export] Instance Resting_eq_dec : EqDecision Resting.
Proof. solve_decision. Defined.

Definition r_id (r : Resting) : OrderId := w_id (r_order r).
Definition r_price (r : Resting) : option PriceTicks := w_price (r_order r).

Record Book := mkBook {
  bids : list Resting;
  asks : list Resting;
  market_buys : list Resting;
  market_sells : list Resting;
  next_arrival : Z;
}.

(** [opt.is_some_and(f)]. *)
Definition is_some_and {A} (f : A → bool) (o : option A) : bool :=
  match o with Some a => f a | None => false end.

Module Book.
Definition new : Book := mkBook [] [] [] [] 0.

(** Bids, asks, market buys, market sells. *)
Definition iter (b : Book) : list Resting :=
  bids b ++ asks b ++ market_buys b ++ market_sells b.

Definition len (b : Book) : nat :=
  (length (bids b) + length (asks b) + length (market_buys b) + length (market_sells b))%nat.
Definition is_empty (b : Book) : bool := (len b =? 0)%nat.
Definition best_bid (b : Book) : option PriceTicks := r ← head (bids b); r_price r.
Definition best_ask (b : Book) : option PriceTicks := r ← head (asks b); r_price r.
Definition has_market_orders (b : Book) : bool :=
  negb (match market_buys b with [] => true | _ => false end) ||
  negb (match market_sells b with [] => true | _ => false end).

Definition insert (b : Book) (order : Working) : run Book :=
  let resting := mkResting order (next_arrival b) in
  next ← chku64 (next_arrival b + 1);
  mret match w_side order, w_price order with
  | Buy, None => mkBook (bids b) (asks b) (market_buys b ++ [resting]) (market_sells b) next
  | Sell, None => mkBook (bids b) (asks b) (market_buys b) (market_sells b ++ [resting]) next
  | Buy, Some p =>
      let at_ := partition_point (λ r, is_some_and (λ q, p <=? q) (r_price r)) (bids b) in
      mkBook (vec_insert at_ resting (bids b)) (asks b) (market_buys b) (market_sells b) next
  | Sell, Some p =>
      let at_ := partition_point (λ r, is_some_and (λ q, q <=? p) (r_price r)) (asks b) in
      mkBook (bids b) (vec_insert at_ resting (asks b)) (market_buys b) (market_sells b) next
  end.

(** Removal from one vector: the order found, and what is left. *)
Definition take_out (id : OrderId) (side : list Resting) : option (Working * list Resting) :=
  pos ← position (λ r, r_id r =? id) side;
  r ← side !! pos;
  Some (r_order r, delete pos side).

Definition remove (b : Book) (id : OrderId) : option Working * Book :=
  match take_out id (bids b) with
  | Some (w, l) => (Some w, mkBook l (asks b) (market_buys b) (market_sells b) (next_arrival b))
  | None =>
  match take_out id (asks b) with
  | Some (w, l) => (Some w, mkBook (bids b) l (market_buys b) (market_sells b) (next_arrival b))
  | None =>
  match take_out id (market_buys b) with
  | Some (w, l) => (Some w, mkBook (bids b) (asks b) l (market_sells b) (next_arrival b))
  | None =>
  match take_out id (market_sells b) with
  | Some (w, l) => (Some w, mkBook (bids b) (asks b) (market_buys b) l (next_arrival b))
  | None => (None, b)
  end end end end.

Definition contains (b : Book) (id : OrderId) : bool := existsb (λ r, r_id r =? id) (iter b).
Definition resting_ids (b : Book) : list OrderId := r_id <$> iter b.

(** A partial fill keeps its queue position; a completed order leaves. *)
Definition put_back (id : OrderId) (updated : option Working) (side : list Resting)
    : option (list Resting) :=
  pos ← position (λ r, r_id r =? id) side;
  match updated with
  | Some w => r ← side !! pos; Some (<[pos := mkResting w (r_arrival r)]> side)
  | None => Some (delete pos side)
  end.

Definition replace (b : Book) (id : OrderId) (updated : option Working) : Book :=
  match put_back id updated (bids b) with
  | Some l => mkBook l (asks b) (market_buys b) (market_sells b) (next_arrival b)
  | None =>
  match put_back id updated (asks b) with
  | Some l => mkBook (bids b) l (market_buys b) (market_sells b) (next_arrival b)
  | None =>
  match put_back id updated (market_buys b) with
  | Some l => mkBook (bids b) (asks b) l (market_sells b) (next_arrival b)
  | None =>
  match put_back id updated (market_sells b) with
  | Some l => mkBook (bids b) (asks b) (market_buys b) l (next_arrival b)
  | None => b
  end end end end.
End Book.

(** * The invariant: price-time priority *)

(** Bids: better price first, earlier arrival first within a price. *)
Definition bid_before (a b : Resting) : Prop :=
  ∃ p q, r_price a = Some p ∧ r_price b = Some q ∧ (q < p ∨ p = q ∧ r_arrival a < r_arrival b).
Definition ask_before (a b : Resting) : Prop :=
  ∃ p q, r_price a = Some p ∧ r_price b = Some q ∧ (p < q ∨ p = q ∧ r_arrival a < r_arrival b).
Definition arrival_before (a b : Resting) : Prop := r_arrival a < r_arrival b.

Definition r_side (r : Resting) : Side := w_side (r_order r).

Record book_ok (b : Book) : Prop := {
  ok_bids : StronglySorted bid_before (bids b);
  ok_asks : StronglySorted ask_before (asks b);
  ok_mbuys : StronglySorted arrival_before (market_buys b);
  ok_msells : StronglySorted arrival_before (market_sells b);
  ok_bid_kind : Forall (λ r, r_side r = Buy ∧ is_Some (r_price r)) (bids b);
  ok_ask_kind : Forall (λ r, r_side r = Sell ∧ is_Some (r_price r)) (asks b);
  ok_mbuy_kind : Forall (λ r, r_side r = Buy ∧ r_price r = None) (market_buys b);
  ok_msell_kind : Forall (λ r, r_side r = Sell ∧ r_price r = None) (market_sells b);
  ok_arrivals : Forall (λ r, 0 ≤ r_arrival r < next_arrival b) (Book.iter b);
  ok_working : Forall (λ r, working_ok (r_order r)) (Book.iter b);
  ok_ids : NoDup (r_id <$> Book.iter b);
  ok_arrival_ids : NoDup (r_arrival <$> Book.iter b);
  ok_next : 0 ≤ next_arrival b;
}.

Lemma book_new_ok : book_ok Book.new.
Proof.
  split; try apply SSorted_nil; try apply Forall_nil_2; [apply NoDup_nil_2|apply NoDup_nil_2|done].
Qed.

(** The book without one identifier. *)
Definition drop_id (id : OrderId) (l : list Resting) : list Resting := filter (λ r, r_id r ≠ id) l.

Definition without (id : OrderId) (b : Book) : Book :=
  mkBook (drop_id id (bids b)) (drop_id id (asks b)) (drop_id id (market_buys b))
    (drop_id id (market_sells b)) (next_arrival b).

Lemma iter_without id b : Book.iter (without id b) = drop_id id (Book.iter b).
Proof. unfold Book.iter, without, drop_id; simpl. by rewrite !filter_app. Qed.

Lemma drop_id_absent id l : id ∉ (r_id <$> l) → drop_id id l = l.
Proof.
  unfold drop_id. induction l as [|r l IH]; simpl; [done|].
  intros [Hne Hn]%not_elem_of_cons. rewrite filter_cons_True by done. by rewrite IH.
Qed.

Lemma position_absent id l : id ∉ (r_id <$> l) → position (λ r, r_id r =? id) l = None.
Proof.
  intros H. apply position_None, Forall_forall. intros r Hr. apply Z.eqb_neq. intros <-.
  apply H. by apply list_elem_of_fmap_2.
Qed.

Lemma position_present id l : id ∈ (r_id <$> l) → NoDup (r_id <$> l) →
  ∃ i r, position (λ r, r_id r =? id) l = Some i ∧ l !! i = Some r ∧ r_id r = id ∧
    delete i l = drop_id id l.
Proof.
  induction l as [|x l IH]; simpl; [by intros ?%not_elem_of_nil|].
  intros [->|Hin]%elem_of_cons [Hn Hd]%NoDup_cons.
  - exists 0%nat, x. rewrite Z.eqb_refl. split_and!; try done. simpl.
    unfold drop_id. rewrite filter_cons_False by naive_solver. symmetry. by apply drop_id_absent.
  - destruct (Z.eqb_spec (r_id x) id) as [<-|Hne]; [done|].
    destruct (IH Hin Hd) as (i & r & Hp & Hl & Hr & Hdel). exists (S i), r.
    rewrite Hp. split_and!; try done. simpl. rewrite Hdel. unfold drop_id.
    by rewrite filter_cons_True.
Qed.

Lemma put_back_none id l : NoDup (r_id <$> l) →
  Book.put_back id None l = if decide (id ∈ r_id <$> l) then Some (drop_id id l) else None.
Proof.
  intros Hd. unfold Book.put_back. case_decide as Hin.
  - destruct (position_present id l Hin Hd) as (i & r & -> & _ & _ & <-). done.
  - by rewrite position_absent.
Qed.

Lemma take_out_spec id l : NoDup (r_id <$> l) →
  match Book.take_out id l with
  | Some (w, l') => w_id w = id ∧ l' = drop_id id l ∧ ∃ r, r ∈ l ∧ r_order r = w
  | None => id ∉ r_id <$> l
  end.
Proof.
  intros Hd. unfold Book.take_out. destruct (decide (id ∈ r_id <$> l)) as [Hin|Hin].
  - destruct (position_present id l Hin Hd) as (i & r & -> & Hl & Hr & Hdel). simpl.
    rewrite Hl. simpl. rewrite Hdel. split_and!; [done|done|].
    exists r. split; [by eapply list_elem_of_lookup_2|done].
  - by rewrite position_absent.
Qed.

Lemma ids_split b : NoDup (r_id <$> Book.iter b) →
  NoDup (r_id <$> bids b) ∧ NoDup (r_id <$> asks b) ∧ NoDup (r_id <$> market_buys b) ∧
  NoDup (r_id <$> market_sells b) ∧
  (∀ id, id ∈ r_id <$> bids b → id ∉ r_id <$> asks b ∧ id ∉ r_id <$> market_buys b ∧ id ∉ r_id <$> market_sells b) ∧
  (∀ id, id ∈ r_id <$> asks b → id ∉ r_id <$> market_buys b ∧ id ∉ r_id <$> market_sells b) ∧
  (∀ id, id ∈ r_id <$> market_buys b → id ∉ r_id <$> market_sells b).
Proof.
  unfold Book.iter. rewrite !fmap_app, !NoDup_app. setoid_rewrite elem_of_app.
  setoid_rewrite elem_of_app. naive_solver.
Qed.

(** Removing an identifier, however the four vectors are searched. *)
Lemma replace_none b id : NoDup (r_id <$> Book.iter b) → Book.replace b id None = without id b.
Proof.
  intros (H1 & H2 & H3 & H4 & D1 & D2 & D3)%ids_split. unfold Book.replace, without.
  rewrite !put_back_none by done.
  destruct (decide (id ∈ r_id <$> bids b)) as [I1|I1].
  { destruct (D1 id I1) as (N1 & N2 & N3).
    by rewrite (drop_id_absent id (asks b)), (drop_id_absent id (market_buys b)),
      (drop_id_absent id (market_sells b)) by done. }
  rewrite (drop_id_absent id (bids b)) by done.
  destruct (decide (id ∈ r_id <$> asks b)) as [I2|I2].
  { destruct (D2 id I2) as (N1 & N2).
    by rewrite (drop_id_absent id (market_buys b)), (drop_id_absent id (market_sells b)) by done. }
  rewrite (drop_id_absent id (asks b)) by done.
  destruct (decide (id ∈ r_id <$> market_buys b)) as [I3|I3].
  { pose proof (D3 id I3). by rewrite !(drop_id_absent id (market_sells b)) by done. }
  rewrite (drop_id_absent id (market_buys b)) by done.
  destruct (decide (id ∈ r_id <$> market_sells b)) as [I4|I4]; [done|].
  rewrite (drop_id_absent id (market_sells b)) by done. by destruct b.
Qed.

Lemma remove_spec b id : NoDup (r_id <$> Book.iter b) →
  (Book.remove b id).2 = without id b ∧
  match (Book.remove b id).1 with
  | Some w => w_id w = id ∧ ∃ r, r ∈ Book.iter b ∧ r_order r = w
  | None => id ∉ r_id <$> Book.iter b
  end.
Proof.
  intros Hd. pose proof Hd as (H1 & H2 & H3 & H4 & D1 & D2 & D3)%ids_split.
  unfold Book.remove, without.
  assert (∀ r, r ∈ Book.iter b ↔ r ∈ bids b ∨ r ∈ asks b ∨ r ∈ market_buys b ∨ r ∈ market_sells b)
    as Hit by (intros; unfold Book.iter; by rewrite !elem_of_app).
  assert (∀ id, id ∈ r_id <$> Book.iter b ↔ id ∈ r_id <$> bids b ∨ id ∈ r_id <$> asks b ∨
     id ∈ r_id <$> market_buys b ∨ id ∈ r_id <$> market_sells b) as Hii
    by (intros; unfold Book.iter; by rewrite !fmap_app, !elem_of_app).
  pose proof (take_out_spec id _ H1) as T1. pose proof (take_out_spec id _ H2) as T2.
  pose proof (take_out_spec id _ H3) as T3. pose proof (take_out_spec id _ H4) as T4.
  assert (∀ w (l : list Resting), (∃ r : Resting, r ∈ l ∧ r_order r = w) → w_id w = id → id ∈ r_id <$> l) as Hmem.
  { intros w l (r & Hr & <-) <-. exact (list_elem_of_fmap_2 r_id l r Hr). }
  destruct (Book.take_out id (bids b)) as [[w l]|].
  { destruct T1 as (Hw & -> & Hr). destruct (D1 id (Hmem _ _ Hr Hw)) as (N1 & N2 & N3).
    simpl. rewrite !(drop_id_absent id (asks b)), !(drop_id_absent id (market_buys b)),
      !(drop_id_absent id (market_sells b)) by done. split; [done|]. split; [done|].
    destruct Hr as (r & ? & ?). exists r. rewrite Hit. auto. }
  rewrite (drop_id_absent id (bids b)) by done.
  destruct (Book.take_out id (asks b)) as [[w l]|].
  { destruct T2 as (Hw & -> & Hr). destruct (D2 id (Hmem _ _ Hr Hw)) as (N1 & N2).
    simpl. rewrite !(drop_id_absent id (market_buys b)), !(drop_id_absent id (market_sells b)) by done.
    split; [done|]. split; [done|]. destruct Hr as (r & ? & ?). exists r. rewrite Hit. auto. }
  rewrite (drop_id_absent id (asks b)) by done.
  destruct (Book.take_out id (market_buys b)) as [[w l]|].
  { destruct T3 as (Hw & -> & Hr). pose proof (D3 id (Hmem _ _ Hr Hw)).
    simpl. rewrite !(drop_id_absent id (market_sells b)) by done.
    split; [done|]. split; [done|]. destruct Hr as (r & ? & ?). exists r. rewrite Hit. auto. }
  rewrite (drop_id_absent id (market_buys b)) by done.
  destruct (Book.take_out id (market_sells b)) as [[w l]|].
  { destruct T4 as (Hw & -> & Hr). simpl. split; [done|]. split; [done|].
    destruct Hr as (r & ? & ?). exists r. rewrite Hit. auto. }
  rewrite (drop_id_absent id (market_sells b)) by done. split; [by destruct b|].
  simpl. rewrite Hii. tauto.
Qed.

(** * Preservation *)

Lemma StronglySorted_drop (R : relation Resting) id l :
  StronglySorted R l → StronglySorted R (drop_id id l).
Proof. apply StronglySorted_retain. Qed.

Lemma Forall_drop (P : Resting → Prop) id l : Forall P l → Forall P (drop_id id l).
Proof. apply Forall_retain. Qed.

Lemma without_ok id b : book_ok b → book_ok (without id b).
Proof.
  intros [H1 H2 H3 H4 K1 K2 K3 K4 Ha Hw Hi Hai Hn].
  split; try (by apply StronglySorted_drop); try (by apply Forall_drop); rewrite ?iter_without.
  - by apply Forall_drop.
  - by apply Forall_drop.
  - by apply NoDup_fmap_retain.
  - by apply NoDup_fmap_retain.
  - done.
Qed.

Lemma in_without id b r : r ∈ Book.iter (without id b) ↔ r ∈ Book.iter b ∧ r_id r ≠ id.
Proof. rewrite iter_without. unfold drop_id. rewrite list_elem_of_filter. tauto. Qed.

(** Where a new order goes among those of its side. *)
Lemma sorted_insert (R : relation Resting) (p : Resting → bool) (x : Resting) l :
  StronglySorted R l →
  (∀ y z, y ∈ l → z ∈ l → R y z → p z = true → p y = true) →
  (∀ y, y ∈ l → p y = true → R y x) → (∀ y, y ∈ l → p y = false → R x y) →
  StronglySorted R (vec_insert (partition_point p l) x l).
Proof.
  intros Hs Hp Hlt Hgt.
  assert (partitioned p l) as (l1 & l2 & -> & F1 & F2).
  { clear Hlt Hgt. induction Hs as [|y l Hs IH HF]; [by exists [], []|].
    destruct IH as (l1 & l2 & -> & F1 & F2); [intros; eapply Hp; try done; by right|].
    destruct (p y) eqn:Hy.
    - exists (y :: l1), l2. split_and!; auto.
    - exists [], (y :: l1 ++ l2). split_and!; auto. constructor; [done|].
      apply Forall_forall. intros z Hz. rewrite Forall_forall in HF. destruct (p z) eqn:Ez; [|done].
      rewrite (Hp y z) in Hy; [done|by left|by right|by apply HF|done]. }
  rewrite partition_point_spec, vec_insert_app by done.
  rewrite Forall_forall in F1, F2.
  apply StronglySorted_app in Hs as (S1 & S2 & S12). apply StronglySorted_app.
  split_and!; [done| |].
  - constructor; [done|]. apply Forall_forall. intros y Hy. apply Hgt; [|by apply F2].
    apply elem_of_app. by right.
  - intros y z Hy [->|Hz]%elem_of_cons; [|by apply S12]. apply Hlt; [|by apply F1].
    apply elem_of_app. by left.
Qed.

Lemma StronglySorted_snoc (R : relation Resting) l x :
  StronglySorted R l → (∀ y, y ∈ l → R y x) → StronglySorted R (l ++ [x]).
Proof.
  intros. apply StronglySorted_app. split_and!; [done|repeat constructor|].
  intros y z Hy ->%list_elem_of_singleton. auto.
Qed.

Lemma book_ok_perm b b' x :
  book_ok b → Permutation (Book.iter b') (x :: Book.iter b) →
  next_arrival b' = next_arrival b + 1 → r_arrival x = next_arrival b →
  working_ok (r_order x) → r_id x ∉ (r_id <$> Book.iter b) →
  Forall (λ r, 0 ≤ r_arrival r < next_arrival b') (Book.iter b') ∧
  Forall (λ r, working_ok (r_order r)) (Book.iter b') ∧ NoDup (r_id <$> Book.iter b') ∧
  NoDup (r_arrival <$> Book.iter b') ∧ 0 ≤ next_arrival b'.
Proof.
  intros [_ _ _ _ _ _ _ _ Ha Hwk Hi Hai Hz] Hp Hn Hx Hw Hid. rewrite Hn. split_and!; [| | | |lia].
  - rewrite Hp. constructor; [lia|]. eapply Forall_impl; [exact Ha|]. simpl. intros; lia.
  - rewrite Hp. by constructor.
  - rewrite Hp. by apply NoDup_cons.
  - rewrite Hp. apply NoDup_cons. split; [|done].
    intros (y & Hy & Hin)%list_elem_of_fmap. rewrite Forall_forall in Ha. specialize (Ha y Hin).
    simpl in Ha. lia.
Qed.

Lemma insert_spec b w : book_ok b → working_ok w → w_id w ∉ (r_id <$> Book.iter b) →
  next_arrival b + 1 ≤ U64_MAX →
  returns (Book.insert b w) (λ b', book_ok b' ∧
    Permutation (Book.iter b') (mkResting w (next_arrival b) :: Book.iter b) ∧
    next_arrival b' = next_arrival b + 1).
Proof.
  intros Hb Hw Hid Hmax. pose proof (ok_next b Hb). unfold Book.insert.
  apply returns_bind, returns_chk; [mlia|]. apply returns_ret.
  set (x := mkResting w (next_arrival b)).
  assert (∀ r, r ∈ Book.iter b → r_arrival r < next_arrival b) as Harr.
  { pose proof (ok_arrivals b Hb) as Ha. rewrite Forall_forall in Ha. intros r Hr.
    specialize (Ha r Hr). simpl in Ha. lia. }
  assert (∀ b', Permutation (Book.iter b') (x :: Book.iter b) → next_arrival b' = next_arrival b + 1 →
    Forall (λ r, 0 ≤ r_arrival r < next_arrival b') (Book.iter b') ∧
    Forall (λ r, working_ok (r_order r)) (Book.iter b') ∧ NoDup (r_id <$> Book.iter b') ∧
    NoDup (r_arrival <$> Book.iter b') ∧ 0 ≤ next_arrival b') as Hrest by (intros; by apply (book_ok_perm b b' x)).
  assert (∀ l, l ⊆ Book.iter b → ∀ y, y ∈ l → arrival_before y x) as Hab.
  { intros l Hl y Hy. apply Harr, Hl, Hy. }
  assert (bids b ⊆ Book.iter b ∧ asks b ⊆ Book.iter b ∧ market_buys b ⊆ Book.iter b ∧
          market_sells b ⊆ Book.iter b) as (U1 & U2 & U3 & U4) by (unfold Book.iter; set_solver).
  destruct Hb as [H1 H2 H3 H4 K1 K2 K3 K4 _ _ _ _ _].
  destruct (w_side w) eqn:Hs, (w_price w) as [p|] eqn:Hp; cbv zeta.
  all: match goal with |- book_ok ?b' ∧ _ =>
         assert (Permutation (Book.iter b') (x :: Book.iter b)) as HP
           by (unfold Book.iter; simpl; rewrite ?vec_insert_perm; solve_Permutation) end.
  all: destruct (Hrest _ HP eq_refl) as (R1 & R2 & R3 & R4 & R5); split; [|done].
  all: split; simpl; try done.
  all: try (apply StronglySorted_snoc; [done|eauto]).
  all: try (apply Forall_app; split; [done|by constructor]).
  all: try (rewrite vec_insert_perm; constructor; [|done]; unfold r_side, r_price; simpl; rewrite Hs, Hp; eauto).
  - rewrite Forall_forall in K1. apply sorted_insert; [done| | |].
    + intros y z Hy Hz (a & c & Ea & Ec & Hac). rewrite Ea, Ec. simpl. rewrite !Z.leb_le. lia.
    + intros y Hy. destruct (K1 y Hy) as [_ [a Ea]]. rewrite Ea. simpl. rewrite Z.leb_le. intros.
      exists a, p. split_and!; [done|done|]. specialize (Hab _ U1 y Hy). unfold arrival_before, x in *; simpl in *. lia.
    + intros y Hy. destruct (K1 y Hy) as [_ [a Ea]]. rewrite Ea. simpl. rewrite Z.leb_gt. intros.
      exists p, a. split_and!; [done|done|lia].
  - rewrite Forall_forall in K2. apply sorted_insert; [done| | |].
    + intros y z Hy Hz (a & c & Ea & Ec & Hac). rewrite Ea, Ec. simpl. rewrite !Z.leb_le. lia.
    + intros y Hy. destruct (K2 y Hy) as [_ [a Ea]]. rewrite Ea. simpl. rewrite Z.leb_le. intros.
      exists a, p. split_and!; [done|done|]. specialize (Hab _ U2 y Hy). unfold arrival_before, x in *; simpl in *. lia.
    + intros y Hy. destruct (K2 y Hy) as [_ [a Ea]]. rewrite Ea. simpl. rewrite Z.leb_gt. intros.
      exists p, a. split_and!; [done|done|lia].
Qed.
