(* ===== verification/L0.v ===== *)
(** The tick-replay matcher ([oq-engine/src/l0.rs]), and the matching rule it
    implements, stated as pure functions of the book. *)

From S2P Require Import Prelude Slices Types Order Tick RestingBook.

Inductive FillReason := GapCrossed | Crossed | MarketOrder.

#[export] Instance FillReason_eq_dec : EqDecision FillReason.
Proof. solve_decision. Defined.

Record L0Fill := mkL0Fill { lf_fill : Fill; lf_reason : FillReason }.

#[export] Instance L0Fill_eq_dec : EqDecision L0Fill.
Proof. solve_decision. Defined.

Record L0Engine := mkL0 {
  instrument : InstrumentId;
  book : Book;
  ids : IdAllocator;
  prev_price : option PriceTicks;
  prev_stamp : option Stamp;
  fills : list L0Fill;
  candidates : list (Z * OrderId);
}.

Module L0.
Definition new (i : InstrumentId) : L0Engine := mkL0 i Book.new Ids.new None None [] [].

Definition set_book (e : L0Engine) (b : Book) : L0Engine :=
  mkL0 (instrument e) b (ids e) (prev_price e) (prev_stamp e) (fills e) (candidates e).
Definition last_price (e : L0Engine) : option PriceTicks := prev_price e.

Definition submit (e : L0Engine) (order : Working) : run L0Engine :=
  b ← Book.insert (book e) order; mret (set_book e b).

Definition cancel (e : L0Engine) (id : OrderId) : bool * L0Engine :=
  let '(w, b) := Book.remove (book e) id in
  (match w with Some _ => true | None => false end, set_book e b).

Definition cancel_all (e : L0Engine) : nat * L0Engine :=
  let ids := Book.resting_ids (book e) in
  (length ids,
   set_book e (fold_left (λ b id, (Book.remove b id).2) ids (book e))).

(** Fill what is left of a resting order; a fill of nothing only removes it,
    and a refused fill leaves it resting. *)
Definition execute_at (e : L0Engine) (resting : Resting) (price : PriceTicks)
    (liq : Liquidity) (reason : FillReason) (stamp : Stamp) : run L0Engine :=
  qty ← w_remaining (r_order resting);
  if qty <=? 0 then mret (set_book e (Book.replace (book e) (r_id resting) None))
  else
    outcome ← w_fill (r_order resting) qty;
    match outcome with
    | Err _ => mret e
    | Ok out =>
        let b := Book.replace (book e) (r_id resting) (still_working out) in
        '(trade, ids') ← Ids.trade (ids e);
        let fill := mkFill stamp (instrument e) (r_id resting) trade (w_side (r_order resting))
                      (w_offset (r_order resting)) price qty liq in
        mret (mkL0 (instrument e) b ids' (prev_price e) (prev_stamp e)
                (fills e ++ [mkL0Fill fill reason]) (candidates e))
    end.

Definition execute (e : L0Engine) (resting : Resting) (price : PriceTicks)
    (liq : Liquidity) (reason : FillReason) (t : Tick) : run L0Engine :=
  execute_at e resting price liq reason (t_stamp t).

(** [candidates.sort_unstable()] on [(arrival, id)] pairs. *)
Definition sort_pairs (l : list (Z * OrderId)) : list (Z * OrderId) :=
  sort_by_key fst (sort_by_key snd l).

(** The loop over the sorted candidates. *)
Fixpoint gap_loop (e : L0Engine) (t : Tick) (cs : list (Z * OrderId)) : run L0Engine :=
  match cs with
  | [] => mret e
  | (_, id) :: cs =>
      match find (λ r, r_id r =? id) (Book.iter (book e)) with
      | None => gap_loop e t cs
      | Some resting =>
          let price := default 0 (r_price resting) in
          let stamp := default (t_stamp t) (prev_stamp e) in
          e' ← execute_at e resting price Maker GapCrossed stamp;
          gap_loop e' t cs
      end
  end.

Definition swept (lo_excl hi_incl : Z) (r : Resting) : bool :=
  is_some_and (λ p, (lo_excl <? p) && (p <=? hi_incl)) (r_price r).
Definition dipped (hi_excl lo_incl : Z) (r : Resting) : bool :=
  is_some_and (λ p, (p <? hi_excl) && (lo_incl <=? p)) (r_price r).

Definition gap_fill (e : L0Engine) (t : Tick) : run L0Engine :=
  match prev_price e with
  | None => mret e
  | Some prev =>
      if Book.is_empty (book e) then mret e
      else
        let up := Tick.up_extent t in
        let dn := Tick.dn_extent t in
        let hit :=
          if prev <? up then List.filter (swept prev up) (asks (book e))
          else if dn <? prev then List.filter (dipped prev dn) (bids (book e))
          else [] in
        let cs := (λ r, (r_arrival r, r_id r)) <$> hit in
        match cs with
        | [] => mret (mkL0 (instrument e) (book e) (ids e) (prev_price e) (prev_stamp e) (fills e) [])
        | _ =>
            let cs := sort_pairs cs in
            gap_loop (mkL0 (instrument e) (book e) (ids e) (prev_price e) (prev_stamp e) (fills e) cs) t cs
        end
  end.

Fixpoint market_loop (e : L0Engine) (t : Tick) (reference : PriceTicks) (rs : list Resting)
    : run L0Engine :=
  match rs with
  | [] => mret e
  | r :: rs => e' ← execute e r reference Taker MarketOrder t; market_loop e' t reference rs
  end.

(** [while let Some(best) = self.book.bids().first()]. *)
Fixpoint buy_loop (fuel : nat) (e : L0Engine) (t : Tick) : run L0Engine :=
  match head (bids (book e)) with
  | None => mret e
  | Some best =>
      match r_price best with
      | None => mret e
      | Some price =>
          if price <? Tick.buy_trigger t then mret e
          else
            match fuel with
            | O => OutOfFuel
            | S fuel =>
                let reference := Tick.buy_fill_reference t in
                let fill_price := if reference >? 0 then Z.min price reference else price in
                e' ← execute e best fill_price Maker Crossed t;
                buy_loop fuel e' t
            end
      end
  end.

Fixpoint sell_loop (fuel : nat) (e : L0Engine) (t : Tick) : run L0Engine :=
  match head (asks (book e)) with
  | None => mret e
  | Some best =>
      match r_price best with
      | None => mret e
      | Some price =>
          if price >? Tick.sell_trigger t then mret e
          else
            match fuel with
            | O => OutOfFuel
            | S fuel =>
                let reference := Tick.sell_fill_reference t in
                let fill_price := if reference >? 0 then Z.max price reference else price in
                e' ← execute e best fill_price Maker Crossed t;
                sell_loop fuel e' t
            end
      end
  end.

Definition cross (e : L0Engine) (t : Tick) : run L0Engine :=
  e ← (if Book.has_market_orders (book e) then
         e1 ← market_loop e t (Tick.buy_fill_reference t) (market_buys (book e));
         market_loop e1 t (Tick.sell_fill_reference t) (market_sells (book e1))
       else mret e);
  e ← (if Tick.buy_trigger t >? 0 then buy_loop (length (bids (book e))) e t else mret e);
  if Tick.sell_trigger t >? 0 then sell_loop (length (asks (book e))) e t else mret e.

(** One observation: gaps, then crossings, and only then the new price. *)
Definition on_tick (e : L0Engine) (t : Tick) : run (list L0Fill * L0Engine) :=
  let e := mkL0 (instrument e) (book e) (ids e) (prev_price e) (prev_stamp e) [] (candidates e) in
  e ← gap_fill e t;
  e ← cross e t;
  let e := mkL0 (instrument e) (book e) (ids e) (Some (t_last t)) (Some (t_stamp t)) (fills e) (candidates e) in
  mret (fills e, e).

Definition forget_price_path (e : L0Engine) : L0Engine :=
  mkL0 (instrument e) (book e) (ids e) None None (fills e) (candidates e).

Definition id_watermark (e : L0Engine) : Z * Z := Ids.watermark (ids e).
Definition restore_ids (e : L0Engine) (w : Z * Z) : L0Engine :=
  mkL0 (instrument e) (book e) (Ids.restore (ids e) w) (prev_price e) (prev_stamp e) (fills e) (candidates e).
End L0.

(** Order construction shared by every tier; a non-positive size panics. *)
Definition limit_order (id : OrderId) (side : Side) (price : PriceTicks) (qty : QtyLots)
    (stamp : Stamp) (offset : Offset) : run Working :=
  o ← expect (with_offset id side (Limit price) qty GoodTilCancel stamp offset);
  mret (WLive (accept o)).

Definition market_order (id : OrderId) (side : Side) (qty : QtyLots) (stamp : Stamp)
    (offset : Offset) : run Working :=
  o ← expect (with_offset id side Market qty GoodTilCancel stamp offset);
  mret (WLive (accept o)).

Definition submit_limit_with (e : L0Engine) (id : OrderId) (side : Side) (price : PriceTicks)
    (qty : QtyLots) (stamp : Stamp) (offset : Offset) : run (OrderId * L0Engine) :=
  w ← limit_order id side price qty stamp offset;
  e ← L0.submit e w;
  mret (id, e).

Definition submit_market_with (e : L0Engine) (id : OrderId) (side : Side)
    (qty : QtyLots) (stamp : Stamp) (offset : Offset) : run (OrderId * L0Engine) :=
  w ← market_order id side qty stamp offset;
  e ← L0.submit e w;
  mret (id, e).

(** * The matching rule *)

(** One execution the rule calls for. *)
Record Exec := mkExec {
  x_resting : Resting;
  x_price : PriceTicks;
  x_liq : Liquidity;
  x_reason : FillReason;
  x_stamp : Stamp;
}.

Definition x_id (x : Exec) : OrderId := r_id (x_resting x).

(** The prefix of a list on which a test holds. *)
Fixpoint take_while {A} (p : A → bool) (l : list A) : list A :=
  match l with
  | [] => []
  | x :: l => if p x then x :: take_while p l else []
  end.

(** Orders whose level lies between the previous close and this window's
    extreme, in arrival order, each at its own price and the earlier stamp. *)
Definition gap_rule (b : Book) (prev : option (PriceTicks * Stamp)) (t : Tick) : list Exec :=
  match prev with
  | None => []
  | Some (p, s) =>
      let hit :=
        if p <? Tick.up_extent t then List.filter (L0.swept p (Tick.up_extent t)) (asks b)
        else if Tick.dn_extent t <? p then List.filter (L0.dipped p (Tick.dn_extent t)) (bids b)
        else [] in
      (λ r, mkExec r (default 0 (r_price r)) Maker GapCrossed s) <$> sort_by_key r_arrival hit
  end.

(** Market orders at the reference; then each side from its best price while
    the market reaches it, improved to the reference where that is better. *)
Definition cross_rule (b : Book) (t : Tick) : list Exec :=
  let taker ref r := mkExec r ref Taker MarketOrder (t_stamp t) in
  let maker price r := mkExec r (price (default 0 (r_price r))) Maker Crossed (t_stamp t) in
  let bref := Tick.buy_fill_reference t in
  let sref := Tick.sell_fill_reference t in
  (taker bref <$> market_buys b) ++ (taker sref <$> market_sells b) ++
  (if Tick.buy_trigger t >? 0 then
     maker (λ p, if bref >? 0 then Z.min p bref else p) <$>
       take_while (λ r, is_some_and (λ p, Tick.buy_trigger t <=? p) (r_price r)) (bids b)
   else []) ++
  (if Tick.sell_trigger t >? 0 then
     maker (λ p, if sref >? 0 then Z.max p sref else p) <$>
       take_while (λ r, is_some_and (λ p, p <=? Tick.sell_trigger t) (r_price r)) (asks b)
   else []).

(** The fill an execution produces, given its trade number. *)
Definition exec_fill (i : InstrumentId) (x : Exec) (trade : TradeId) : L0Fill :=
  let w := r_order (x_resting x) in
  mkL0Fill (mkFill (x_stamp x) i (w_id w) trade (w_side w) (w_offset w) (x_price x) (left w) (x_liq x))
    (x_reason x).

Fixpoint exec_fills (i : InstrumentId) (xs : list Exec) (trade : TradeId) : list L0Fill :=
  match xs with
  | [] => []
  | x :: xs => exec_fill i x trade :: exec_fills i xs (trade + 1)
  end.

Definition after (b : Book) (xs : list Exec) : Book :=
  fold_left (λ b x, without (x_id x) b) xs b.
