(* ===== verification/L0Correct.v ===== *)
(** The matcher implements the matching rule of [L0.v], and what the rule
    guarantees: limit protection, price-time priority, completeness. *)

From S2P Require Import Prelude Slices Types Order Tick RestingBook L0.

(** * One execution *)

Definition executed (e : L0Engine) (x : Exec) : L0Engine :=
  mkL0 (instrument e) (without (x_id x) (book e))
    (mkIds (next_order (ids e)) (next_trade (ids e) + 1)) (prev_price e) (prev_stamp e)
    (fills e ++ [exec_fill (instrument e) x (next_trade (ids e) + 1)]) (candidates e).

Definition exec_all (e : L0Engine) (xs : list Exec) : L0Engine := fold_left executed xs e.

Lemma execute_at_exec e x :
  book_ok (book e) → x_resting x ∈ Book.iter (book e) →
  0 ≤ next_trade (ids e) → next_trade (ids e) + 1 ≤ U64_MAX →
  L0.execute_at e (x_resting x) (x_price x) (x_liq x) (x_reason x) (x_stamp x) = Ret (executed e x).
Proof.
  intros Hb Hx H0 Hmax. pose proof (ok_working _ Hb) as Hw. rewrite Forall_forall in Hw.
  specialize (Hw _ Hx). pose proof (left_pos _ Hw) as [Hl _].
  destruct (w_fill_left _ Hw) as [o Ho].
  unfold L0.execute_at. rewrite w_remaining_ok by done. cbn [mbind run_bind].
  destruct (Z.leb_spec (left (r_order (x_resting x))) 0); [lia|].
  rewrite Ho. cbn [mbind run_bind still_working]. unfold Ids.trade.
  rewrite chk_ret by mlia. cbn [mbind run_bind].
  rewrite replace_none by apply (ok_ids _ Hb). done.
Qed.

Lemma exec_all_app e xs ys : exec_all e (xs ++ ys) = exec_all (exec_all e xs) ys.
Proof. apply fold_left_app. Qed.

Lemma exec_all_fields e xs :
  instrument (exec_all e xs) = instrument e ∧
  book (exec_all e xs) = after (book e) xs ∧
  next_order (ids (exec_all e xs)) = next_order (ids e) ∧
  next_trade (ids (exec_all e xs)) = next_trade (ids e) + Z.of_nat (length xs) ∧
  prev_price (exec_all e xs) = prev_price e ∧ prev_stamp (exec_all e xs) = prev_stamp e ∧
  fills (exec_all e xs) = fills e ++ exec_fills (instrument e) xs (next_trade (ids e) + 1).
Proof.
  revert e. induction xs as [|x xs IH]; intros e; simpl.
  { rewrite app_nil_r. split_and!; try done. lia. }
  destruct (IH (executed e x)) as (H1 & H2 & H3 & H4 & H5 & H6 & H7).
  unfold exec_all in *. simpl. rewrite H1, H2, H3, H4, H5, H6, H7. simpl.
  split_and!; try done; [lia|]. by rewrite <-(assoc_L (++)).
Qed.

(** * Executing a list of distinct resting orders *)

Lemma after_ok b xs : book_ok b → book_ok (after b xs).
Proof. revert b. induction xs; intros b Hb; simpl; [done|]. auto using without_ok. Qed.

Lemma in_after b xs r : r ∈ Book.iter (after b xs) ↔ r ∈ Book.iter b ∧ r_id r ∉ (x_id <$> xs).
Proof.
  revert b. induction xs as [|x xs IH]; intros b; simpl.
  - split; [intros; split; [done|apply not_elem_of_nil]|by intros [? _]].
  - rewrite IH, in_without, not_elem_of_cons. tauto.
Qed.

Lemma iter_after b xs : Book.iter (after b xs) = filter (λ r, r_id r ∉ (x_id <$> xs)) (Book.iter b).
Proof.
  revert b. induction xs as [|x xs IH]; intros b; simpl.
  - symmetry. apply filter_all, Forall_forall. intros. apply not_elem_of_nil.
  - rewrite IH, iter_without. unfold drop_id. rewrite list_filter_filter.
    apply list_filter_iff. intros r. rewrite not_elem_of_cons. tauto.
Qed.

Lemma find_id l r : r ∈ l → NoDup (r_id <$> l) → find (λ y, r_id y =? r_id r) l = Some r.
Proof.
  induction l as [|y l IH]; simpl; [by intros ?%not_elem_of_nil|].
  intros [->|Hr]%elem_of_cons [Hn Hd]%NoDup_cons; [by rewrite Z.eqb_refl|].
  destruct (Z.eqb_spec (r_id y) (r_id r)) as [E|_]; [|by apply IH].
  exfalso. apply Hn. rewrite E. by apply list_elem_of_fmap_2.
Qed.

(** An engine state in which the list [xs] can be executed in order. *)
Definition runnable (e : L0Engine) (xs : list Exec) : Prop :=
  book_ok (book e) ∧ 0 ≤ next_trade (ids e) ∧
  next_trade (ids e) + Z.of_nat (length xs) ≤ U64_MAX ∧
  NoDup (x_id <$> xs) ∧ Forall (λ x, x_resting x ∈ Book.iter (book e)) xs.

Lemma runnable_cons e x xs : runnable e (x :: xs) →
  L0.execute_at e (x_resting x) (x_price x) (x_liq x) (x_reason x) (x_stamp x) = Ret (executed e x) ∧
  runnable (executed e x) xs.
Proof.
  intros (Hb & H0 & Hmax & Hd & HF). rewrite fmap_cons in Hd. apply NoDup_cons in Hd as [Hx Hd].
  inversion HF as [|?? Hin HF']; subst. cbn [length] in Hmax. split.
  - apply execute_at_exec; [done|done|done|lia].
  - split_and!; simpl; [by apply without_ok|lia|lia|done|].
    rewrite Forall_forall in *. intros y Hy. apply in_without. split; [by apply HF'|].
    intros E. apply Hx. change (r_id (x_resting x)) with (x_id x) in E. rewrite <-E.
    by apply (list_elem_of_fmap_2 x_id).
Qed.

Lemma runnable_app e xs ys : runnable e (xs ++ ys) → runnable e xs ∧ runnable (exec_all e xs) ys.
Proof.
  revert e. induction xs as [|x xs IH]; intros e H; simpl in *.
  - split; [|done]. destruct H as (? & ? & ? & ? & ?). split_and!; try done; [|constructor].
    simpl. lia.
  - destruct (runnable_cons _ _ _ H) as [_ H']. destruct (IH _ H') as [_ H2]. split; [|done].
    destruct H as (? & ? & Hm & Hd & HF). cbn [length] in Hm. rewrite length_app in Hm.
    rewrite fmap_cons, fmap_app in Hd. apply NoDup_cons in Hd as [Hx Hd].
    apply NoDup_app in Hd as (Hd & _). inversion HF as [|? ? Hi HF']; subst.
    apply Forall_app in HF' as [HF' _]. split_and!; try done; [cbn [length]; lia| |by constructor].
    rewrite fmap_cons. apply NoDup_cons. split; [|done]. intros Hin. apply Hx, elem_of_app. by left.
Qed.

Lemma gap_loop_exec t s (rs : list Resting) e :
  prev_stamp e = Some s →
  let xs := (λ r, mkExec r (default 0 (r_price r)) Maker GapCrossed s) <$> rs in
  runnable e xs →
  L0.gap_loop e t ((λ r, (r_arrival r, r_id r)) <$> rs) = Ret (exec_all e xs).
Proof.
  revert e. induction rs as [|r rs IH]; intros e Hs xs Hr; simpl; [done|].
  unfold xs in Hr. rewrite fmap_cons in Hr. pose proof Hr as (Hb & _ & _ & _ & HF).
  apply Forall_inv in HF. simpl in HF.
  rewrite (find_id _ r HF) by apply (ok_ids _ Hb). rewrite Hs. simpl default.
  apply runnable_cons in Hr as [E Hr]. simpl in E. rewrite E. cbn [mbind run_bind].
  by apply IH.
Qed.

Lemma market_loop_exec t ref (rs : list Resting) e :
  let xs := (λ r, mkExec r ref Taker MarketOrder (t_stamp t)) <$> rs in
  runnable e xs → L0.market_loop e t ref rs = Ret (exec_all e xs).
Proof.
  revert e. induction rs as [|r rs IH]; intros e xs Hr; simpl; [done|].
  unfold xs in Hr. rewrite fmap_cons in Hr. apply runnable_cons in Hr as [E Hr]. simpl in E.
  unfold L0.execute. rewrite E. cbn [mbind run_bind]. by apply IH.
Qed.

Lemma bids_executed e x l : book_ok (book e) → bids (book e) = x_resting x :: l →
  bids (book (executed e x)) = l.
Proof.
  intros Hb Hl. simpl. rewrite Hl. unfold drop_id, x_id. rewrite filter_cons_False by naive_solver.
  pose proof (ok_ids _ Hb) as (Hd & _)%ids_split. rewrite Hl, fmap_cons in Hd.
  apply NoDup_cons in Hd as [Hn _]. by apply drop_id_absent.
Qed.

Lemma asks_executed e x l : book_ok (book e) → asks (book e) = x_resting x :: l →
  asks (book (executed e x)) = l.
Proof.
  intros Hb Hl. simpl. rewrite Hl. unfold drop_id, x_id. rewrite filter_cons_False by naive_solver.
  pose proof (ok_ids _ Hb) as (_ & Hd & _)%ids_split. rewrite Hl, fmap_cons in Hd.
  apply NoDup_cons in Hd as [Hn _]. by apply drop_id_absent.
Qed.

Definition buy_exec (t : Tick) (r : Resting) : Exec :=
  let ref := Tick.buy_fill_reference t in
  let p := default 0 (r_price r) in
  mkExec r (if ref >? 0 then Z.min p ref else p) Maker Crossed (t_stamp t).
Definition sell_exec (t : Tick) (r : Resting) : Exec :=
  let ref := Tick.sell_fill_reference t in
  let p := default 0 (r_price r) in
  mkExec r (if ref >? 0 then Z.max p ref else p) Maker Crossed (t_stamp t).

Definition reached_buy (t : Tick) (r : Resting) : bool :=
  is_some_and (λ p, Tick.buy_trigger t <=? p) (r_price r).
Definition reached_sell (t : Tick) (r : Resting) : bool :=
  is_some_and (λ p, p <=? Tick.sell_trigger t) (r_price r).

(** Enough fuel: the number of orders on the side. *)
Lemma buy_loop_exec t n e :
  (length (bids (book e)) ≤ n)%nat →
  let xs := buy_exec t <$> take_while (reached_buy t) (bids (book e)) in
  runnable e xs → L0.buy_loop n e t = Ret (exec_all e xs).
Proof.
  revert e. induction n as [|n IH]; intros e Hn; cbv zeta;
    destruct (bids (book e)) as [|r l] eqn:El; simpl in Hn |- *; rewrite ?El; simpl; intros Hr;
    try done; try lia.
  revert Hr. destruct (r_price r) as [p|] eqn:Hp; unfold reached_buy at 1 3; rewrite Hp; simpl; [|done].
  destruct (Z.ltb_spec p (Tick.buy_trigger t)) as [Hlt|Hle].
  { by rewrite (proj2 (Z.leb_gt _ _)) by done. }
  rewrite (proj2 (Z.leb_le _ _)) by done. rewrite !fmap_cons. intros Hr.
  pose proof Hr as (Hb & _). apply runnable_cons in Hr as [E Hr].
  pose proof (bids_executed e (buy_exec t r) l Hb El) as Hl.
  unfold buy_exec at 1 2 3 4 5 in E. rewrite Hp in E. unfold L0.execute.
  simpl x_resting in E. simpl x_price in E. simpl x_liq in E. simpl x_reason in E. simpl x_stamp in E.
  rewrite E. cbn [mbind run_bind]. rewrite <-Hl in Hr |- *. apply IH; [by rewrite Hl; lia|done].
Qed.

Lemma sell_loop_exec t n e :
  (length (asks (book e)) ≤ n)%nat →
  let xs := sell_exec t <$> take_while (reached_sell t) (asks (book e)) in
  runnable e xs → L0.sell_loop n e t = Ret (exec_all e xs).
Proof.
  revert e. induction n as [|n IH]; intros e Hn; cbv zeta;
    destruct (asks (book e)) as [|r l] eqn:El; simpl in Hn |- *; rewrite ?El; simpl; intros Hr;
    try done; try lia.
  revert Hr. destruct (r_price r) as [p|] eqn:Hp; unfold reached_sell at 1 3; rewrite Hp; simpl; [|done].
  rewrite Z.gtb_ltb. destruct (Z.ltb_spec (Tick.sell_trigger t) p) as [Hlt|Hle].
  { by rewrite (proj2 (Z.leb_gt _ _)) by done. }
  rewrite (proj2 (Z.leb_le _ _)) by done. rewrite !fmap_cons. intros Hr.
  pose proof Hr as (Hb & _). apply runnable_cons in Hr as [E Hr].
  pose proof (asks_executed e (sell_exec t r) l Hb El) as Hl.
  unfold sell_exec at 1 2 3 4 5 in E. rewrite Hp in E. unfold L0.execute.
  simpl x_resting in E. simpl x_price in E. simpl x_liq in E. simpl x_reason in E. simpl x_stamp in E.
  rewrite E. cbn [mbind run_bind]. rewrite <-Hl in Hr |- *. apply IH; [by rewrite Hl; lia|done].
Qed.

(** * The whole step *)

(** The executions [xs] take orders of the book, each at most once. *)
Definition plays (b : Book) (xs : list Exec) : Prop := (x_resting <$> xs) ⊆+ Book.iter b.

Lemma x_id_fmap (xs : list Exec) : x_id <$> xs = r_id <$> (x_resting <$> xs).
Proof. by rewrite <-list_fmap_compose. Qed.

Lemma plays_runnable e xs :
  book_ok (book e) → 0 ≤ next_trade (ids e) →
  next_trade (ids e) + Z.of_nat (length xs) ≤ U64_MAX →
  plays (book e) xs → runnable e xs.
Proof.
  intros Hb H0 Hm Hp. split_and!; [done|done|done| |].
  - rewrite x_id_fmap. eapply NoDup_of_submseteq; [apply (ok_ids _ Hb)|].
    by apply fmap_submseteq.
  - apply Forall_forall. intros x Hx. eapply elem_of_submseteq; [|exact Hp].
    by apply list_elem_of_fmap_2.
Qed.

Lemma plays_length b xs : plays b xs → (length xs ≤ Book.len b)%nat.
Proof.
  intros H%submseteq_length. rewrite length_fmap in H. unfold Book.iter in H.
  rewrite !length_app in H. unfold Book.len. lia.
Qed.

Lemma after_sides b xs :
  let keep := filter (λ r, r_id r ∉ (x_id <$> xs)) in
  bids (after b xs) = keep (bids b) ∧ asks (after b xs) = keep (asks b) ∧
  market_buys (after b xs) = keep (market_buys b) ∧
  market_sells (after b xs) = keep (market_sells b) ∧
  next_arrival (after b xs) = next_arrival b.
Proof.
  cbv zeta. revert b. induction xs as [|x xs IH]; intros b.
  { simpl. split_and!; try done; symmetry; apply filter_all, Forall_forall; intros;
      apply not_elem_of_nil. }
  destruct (IH (without (x_id x) b)) as (H1 & H2 & H3 & H4 & H5).
  change (after b (x :: xs)) with (after (without (x_id x) b) xs).
  rewrite H1, H2, H3, H4, H5. simpl. unfold drop_id.
  split_and!; try done; rewrite list_filter_filter; apply list_filter_iff; intros r;
    rewrite not_elem_of_cons; tauto.
Qed.

Lemma keep_disjoint (l : list Resting) (xs : list Exec) :
  (∀ id, id ∈ r_id <$> (x_resting <$> xs) → id ∉ r_id <$> l) →
  filter (λ r, r_id r ∉ (x_id <$> xs)) l = l.
Proof.
  intros H. apply filter_all, Forall_forall. intros r Hr Hin. rewrite x_id_fmap in Hin.
  apply (H _ Hin). by apply list_elem_of_fmap_2.
Qed.

Lemma take_while_sublist {A} (p : A → bool) l : take_while p l `sublist_of` l.
Proof.
  induction l as [|x l IH]; simpl; [done|]. destruct (p x); [by apply sublist_skip|].
  apply sublist_nil_l.
Qed.

Lemma filter_sublist_list {A} (p : A → bool) l : List.filter p l `sublist_of` l.
Proof.
  induction l as [|x l IH]; simpl; [done|]. destruct (p x); [by apply sublist_skip|].
  by apply sublist_cons.
Qed.

(** The orders each pass takes. *)
Definition gap_hit (b : Book) (p : PriceTicks) (t : Tick) : list Resting :=
  if p <? Tick.up_extent t then List.filter (L0.swept p (Tick.up_extent t)) (asks b)
  else if Tick.dn_extent t <? p then List.filter (L0.dipped p (Tick.dn_extent t)) (bids b)
  else [].

Lemma gap_hit_sub b p t : gap_hit b p t ⊆+ Book.iter b.
Proof.
  unfold gap_hit, Book.iter. destruct (p <? Tick.up_extent t).
  - etrans; [apply sublist_submseteq, filter_sublist_list|].
    etrans; [|apply submseteq_inserts_l; reflexivity]. apply submseteq_inserts_r. reflexivity.
  - destruct (Tick.dn_extent t <? p); [|apply submseteq_nil_l].
    etrans; [apply sublist_submseteq, filter_sublist_list|]. apply submseteq_inserts_r. reflexivity.
Qed.

Lemma gap_rule_plays b prev t : plays b (gap_rule b prev t).
Proof.
  unfold plays, gap_rule. destruct prev as [[p s]|]; [|apply submseteq_nil_l].
  rewrite <-list_fmap_compose. fold (gap_hit b p t).
  erewrite (list_fmap_ext _ id); [|done]. rewrite list_fmap_id, sort_by_key_perm. apply gap_hit_sub.
Qed.

(** [sort_unstable] on (arrival, id) pairs sorts the orders by arrival. *)
Lemma sort_pairs_arrival (l : list Resting) :
  NoDup (r_arrival <$> l) →
  L0.sort_pairs ((λ r, (r_arrival r, r_id r)) <$> l) =
    (λ r, (r_arrival r, r_id r)) <$> sort_by_key r_arrival l.
Proof.
  intros Hd. set (f := λ r, (r_arrival r, r_id r)).
  apply (sorted_perm_unique fst); [apply sort_by_key_sorted| | |].
  - apply (StronglySorted_fmap _ (key_le r_arrival)); [done|apply sort_by_key_sorted].
  - unfold L0.sort_pairs. rewrite !sort_by_key_perm, <-list_fmap_compose. done.
  - unfold L0.sort_pairs. by rewrite !sort_by_key_perm.
Qed.

Definition prev_of (e : L0Engine) : option (PriceTicks * Stamp) :=
  match prev_price e, prev_stamp e with Some p, Some s => Some (p, s) | _, _ => None end.

Record engine_ok (e : L0Engine) : Prop := {
  eng_book : book_ok (book e);
  eng_prev : is_Some (prev_price e) ↔ is_Some (prev_stamp e);
  eng_trade : 0 ≤ next_trade (ids e);
}.

(** Room for the trade numbers a full book can ask for. *)
Definition room (e : L0Engine) : Prop :=
  next_trade (ids e) + Z.of_nat (Book.len (book e)) ≤ U64_MAX.

Definition with_candidates (e : L0Engine) (c : list (Z * OrderId)) : L0Engine :=
  mkL0 (instrument e) (book e) (ids e) (prev_price e) (prev_stamp e) (fills e) c.

Lemma gap_fill_exec e t : engine_ok e → room e →
  ∃ c, L0.gap_fill e t = Ret (exec_all (with_candidates e c) (gap_rule (book e) (prev_of e) t)).
Proof.
  intros [Hb Hp Ht] Hroom. unfold L0.gap_fill, prev_of.
  destruct (prev_price e) as [p|] eqn:Ep; [|exists (candidates e); by destruct e].
  destruct (proj1 Hp (mk_is_Some _ _ eq_refl)) as [s Es]. rewrite Es.
  destruct (Book.is_empty (book e)) eqn:Hemp.
  { exists (candidates e). assert (plays (book e) (gap_rule (book e) (Some (p, s)) t)) as H by apply gap_rule_plays.
    apply plays_length in H. unfold Book.is_empty in Hemp. apply Nat.eqb_eq in Hemp.
    destruct (gap_rule _ _ _); [by destruct e|simpl in H; lia]. }
  fold (gap_hit (book e) p t).
  set (cs := (λ r, (r_arrival r, r_id r)) <$> gap_hit (book e) p t).
  assert (L0.gap_loop (with_candidates e (L0.sort_pairs cs)) t (L0.sort_pairs cs) =
    Ret (exec_all (with_candidates e (L0.sort_pairs cs)) (gap_rule (book e) (Some (p, s)) t))) as Hrun.
  { unfold cs at 2. rewrite sort_pairs_arrival.
    2: { eapply NoDup_of_submseteq; [apply (ok_arrival_ids _ Hb)|]. apply fmap_submseteq, gap_hit_sub. }
    apply (gap_loop_exec t s); [done|].
    apply plays_runnable; [done|done| |by apply (gap_rule_plays (book e) (Some (p, s)))].
    pose proof (plays_length _ _ (gap_rule_plays (book e) (Some (p, s)) t)) as Hl.
    unfold room in Hroom. unfold gap_rule in Hl. fold (gap_hit (book e) p t) in Hl. simpl. lia. }
  clearbody cs. destruct cs as [|c0 cs'].
  - exists []. unfold with_candidates in *. rewrite Ep, Es in *. exact Hrun.
  - exists (L0.sort_pairs (c0 :: cs')). unfold with_candidates in *. rewrite Ep, Es in *. exact Hrun.
Qed.

Definition taker_exec (t : Tick) (ref : PriceTicks) (r : Resting) : Exec :=
  mkExec r ref Taker MarketOrder (t_stamp t).

Lemma cross_rule_eq b t : cross_rule b t =
  (taker_exec t (Tick.buy_fill_reference t) <$> market_buys b) ++
  (taker_exec t (Tick.sell_fill_reference t) <$> market_sells b) ++
  (if Tick.buy_trigger t >? 0 then buy_exec t <$> take_while (reached_buy t) (bids b) else []) ++
  (if Tick.sell_trigger t >? 0 then sell_exec t <$> take_while (reached_sell t) (asks b) else []).
Proof. done. Qed.

Lemma fmap_exec_resting (f : Resting → Exec) (l : list Resting) : (∀ r, x_resting (f r) = r) →
  x_resting <$> (f <$> l) = l.
Proof. intros H. induction l; simpl; [done|]. rewrite H. by f_equal. Qed.

Lemma cross_rule_plays b t : plays b (cross_rule b t).
Proof.
  unfold plays. rewrite cross_rule_eq, !fmap_app, !fmap_exec_resting by done.
  assert (Permutation (Book.iter b) (market_buys b ++ market_sells b ++ bids b ++ asks b)) as ->
    by (unfold Book.iter; solve_Permutation).
  repeat apply submseteq_app; [done|done| |].
  - destruct (Tick.buy_trigger t >? 0); [|apply submseteq_nil_l].
    rewrite fmap_exec_resting by done. apply sublist_submseteq, take_while_sublist.
  - destruct (Tick.sell_trigger t >? 0); [|apply submseteq_nil_l].
    rewrite fmap_exec_resting by done. apply sublist_submseteq, take_while_sublist.
Qed.

(** Executing orders of one side leaves the other sides alone. *)
Lemma sides_disjoint b : book_ok b →
  let dis l k := ∀ id, id ∈ r_id <$> l → id ∉ r_id <$> k in
  dis (market_buys b) (market_sells b) ∧ dis (market_buys b) (bids b) ∧ dis (market_buys b) (asks b) ∧
  dis (market_sells b) (bids b) ∧ dis (market_sells b) (asks b) ∧ dis (bids b) (asks b).
Proof.
  intros Hb. pose proof (ok_ids _ Hb) as (_ & _ & _ & _ & H1 & H2 & H3)%ids_split.
  simpl. split_and!; naive_solver.
Qed.

Lemma fmap_sublist_elem {A B} (f : A → B) (l k : list A) x : l `sublist_of` k → x ∈ f <$> l → x ∈ f <$> k.
Proof. intros Hs (y & -> & Hy)%list_elem_of_fmap. apply list_elem_of_fmap_2. by eapply elem_of_sublist. Qed.

Lemma cross_exec e t :
  book_ok (book e) → 0 ≤ next_trade (ids e) → room e →
  L0.cross e t = Ret (exec_all e (cross_rule (book e) t)).
Proof.
  intros Hb H0 Hroom.
  assert (runnable e (cross_rule (book e) t)) as Hr.
  { apply plays_runnable; [done|done| |apply cross_rule_plays].
    pose proof (plays_length _ _ (cross_rule_plays (book e) t)). unfold room in Hroom. lia. }
  rewrite cross_rule_eq in Hr |- *.
  apply runnable_app in Hr as [R1 Hr]. apply runnable_app in Hr as [R2 Hr].
  apply runnable_app in Hr as [R3 R4]. rewrite !exec_all_app. revert R1 R2 R3 R4.
  set (X1 := taker_exec t _ <$> market_buys _). set (X2 := taker_exec t _ <$> market_sells _).
  set (X3 := if Tick.buy_trigger t >? 0 then _ else _).
  set (X4 := if Tick.sell_trigger t >? 0 then _ else _). intros R1 R2 R3 R4.
  destruct (sides_disjoint _ Hb) as (D1 & D2 & D3 & D4 & D5 & D6).
  assert (x_resting <$> X1 = market_buys (book e)) as F1 by by apply fmap_exec_resting.
  assert (x_resting <$> X2 = market_sells (book e)) as F2 by by apply fmap_exec_resting.
  assert ((x_resting <$> X3) `sublist_of` bids (book e)) as F3.
  { unfold X3. destruct (Tick.buy_trigger t >? 0); [|apply sublist_nil_l].
    rewrite fmap_exec_resting by done. apply take_while_sublist. }
  assert (book (exec_all e X1) = after (book e) X1) as B1 by apply exec_all_fields.
  assert (book (exec_all (exec_all e X1) X2) = after (after (book e) X1) X2) as B2
    by (rewrite <-B1; apply exec_all_fields).
  assert (book (exec_all (exec_all (exec_all e X1) X2) X3) = after (after (after (book e) X1) X2) X3) as B3
    by (rewrite <-B2; apply exec_all_fields).
  pose proof (after_sides (book e) X1) as (S1a & S1b & S1c & S1d & _).
  pose proof (after_sides (after (book e) X1) X2) as (S2a & S2b & _ & _ & _).
  pose proof (after_sides (after (after (book e) X1) X2) X3) as (_ & S3b & _ & _ & _).
  rewrite (keep_disjoint (market_sells (book e))) in S1d by (rewrite F1; done).
  rewrite (keep_disjoint (bids (book e))) in S1a by (rewrite F1; done).
  rewrite (keep_disjoint (asks (book e))) in S1b by (rewrite F1; done).
  rewrite S1a, (keep_disjoint (bids (book e))) in S2a by (rewrite F2; done).
  rewrite S1b, (keep_disjoint (asks (book e))) in S2b by (rewrite F2; done).
  rewrite S2b, (keep_disjoint (asks (book e))) in S3b
    by (intros id Hin; apply D6; by eapply fmap_sublist_elem).
  assert ((if Book.has_market_orders (book e) then
            e1 ← L0.market_loop e t (Tick.buy_fill_reference t) (market_buys (book e));
            L0.market_loop e1 t (Tick.sell_fill_reference t) (market_sells (book e1))
          else mret e) = Ret (exec_all (exec_all e X1) X2)) as HM.
  { destruct (Book.has_market_orders (book e)) eqn:Hh.
    - assert (L0.market_loop e t (Tick.buy_fill_reference t) (market_buys (book e)) = Ret (exec_all e X1))
        as -> by (apply market_loop_exec; exact R1).
      cbn [mbind run_bind]. rewrite B1, S1d. apply market_loop_exec. exact R2.
    - unfold Book.has_market_orders in Hh. unfold X1, X2.
      destruct (market_buys (book e)), (market_sells (book e)); done. }
  unfold L0.cross. rewrite HM. cbn [mbind run_bind]. rewrite B2, S2a.
  assert ((if Tick.buy_trigger t >? 0 then
            L0.buy_loop (length (bids (book e))) (exec_all (exec_all e X1) X2) t
          else mret (exec_all (exec_all e X1) X2)) = Ret (exec_all (exec_all (exec_all e X1) X2) X3)) as HB.
  { unfold X3 in R3 |- *. destruct (Tick.buy_trigger t >? 0); [|done].
    rewrite <-S2a, <-B2 in R3 |- *. apply buy_loop_exec; [lia|done]. }
  rewrite HB. cbn [mbind run_bind]. rewrite B3, S3b.
  unfold X4 in R4 |- *. destruct (Tick.sell_trigger t >? 0); [|done].
  rewrite <-S3b, <-B3 in R4 |- *. apply sell_loop_exec; [lia|done].
Qed.

(** The executions one tick causes. *)
Definition tick_execs (e : L0Engine) (t : Tick) : list Exec :=
  let gap := gap_rule (book e) (prev_of e) t in
  gap ++ cross_rule (after (book e) gap) t.

Lemma tick_execs_plays e t : book_ok (book e) → plays (book e) (tick_execs e t).
Proof.
  intros Hb. unfold plays, tick_execs. set (gap := gap_rule _ _ _). rewrite fmap_app.
  pose proof (gap_rule_plays (book e) (prev_of e) t) as Hg. fold gap in Hg.
  pose proof (cross_rule_plays (after (book e) gap) t) as Hc. unfold plays in Hg, Hc.
  apply NoDup_submseteq.
  - apply NoDup_app. split_and!.
    + eapply NoDup_of_submseteq; [|exact Hg]. eapply NoDup_fmap_1, ok_ids, Hb.
    + intros r Hr Hr'. apply (elem_of_submseteq _ _ _ Hr') in Hc. apply in_after in Hc as [_ Hn].
      apply Hn. rewrite x_id_fmap. by apply list_elem_of_fmap_2.
    + eapply NoDup_of_submseteq; [|exact Hc]. eapply NoDup_fmap_1, ok_ids. by apply after_ok.
  - intros r [Hr|Hr]%elem_of_app; [by eapply elem_of_submseteq|].
    apply (elem_of_submseteq _ _ _ Hr) in Hc. by apply in_after in Hc as [? _].
Qed.

Lemma after_app b xs ys : after b (xs ++ ys) = after (after b xs) ys.
Proof. apply fold_left_app. Qed.

Lemma exec_fills_app i xs ys n :
  exec_fills i (xs ++ ys) n = exec_fills i xs n ++ exec_fills i ys (n + Z.of_nat (length xs)).
Proof.
  revert n. induction xs as [|x xs IH]; intros n; simpl; [by rewrite Z.add_0_r|].
  rewrite IH. do 3 f_equal. lia.
Qed.

Lemma len_iter b : Book.len b = length (Book.iter b).
Proof. unfold Book.len, Book.iter. rewrite !length_app. lia. Qed.

Lemma after_len b xs : book_ok b → plays b xs → (Book.len (after b xs) + length xs = Book.len b)%nat.
Proof.
  intros Hb Hp. rewrite !len_iter, iter_after, x_id_fmap.
  apply submseteq_Permutation in Hp as [k Hp].
  pose proof (ok_ids _ Hb) as Hd. rewrite Hp, fmap_app in Hd. apply NoDup_app in Hd as (_ & Hd & _).
  rewrite Hp. rewrite filter_app, !length_app, length_fmap.
  rewrite filter_none, filter_all.
  - simpl. lia.
  - apply Forall_forall. intros r Hr Hin. apply (Hd _ Hin). by apply list_elem_of_fmap_2.
  - apply Forall_forall. intros r Hr Hn. apply Hn. by apply list_elem_of_fmap_2.
Qed.

Lemma on_tick_exec e t : engine_ok e → room e →
  returns (L0.on_tick e t) (λ '(fs, e'),
    fs = exec_fills (instrument e) (tick_execs e t) (next_trade (ids e) + 1) ∧
    instrument e' = instrument e ∧ book e' = after (book e) (tick_execs e t) ∧
    ids e' = mkIds (next_order (ids e)) (next_trade (ids e) + Z.of_nat (length (tick_execs e t))) ∧
    prev_price e' = Some (t_last t) ∧ prev_stamp e' = Some (t_stamp t) ∧ fills e' = fs).
Proof.
  intros He Hroom. pose proof (eng_book _ He) as Hb. pose proof (eng_trade _ He) as H0.
  unfold L0.on_tick. set (e0 := mkL0 _ _ _ _ _ [] _).
  assert (engine_ok e0) as He0 by by destruct He.
  destruct (gap_fill_exec e0 t He0 Hroom) as [c ->]. cbn [mbind run_bind].
  change (gap_rule (book e0) (prev_of e0) t) with (gap_rule (book e) (prev_of e) t).
  set (gap := gap_rule (book e) (prev_of e) t). set (e1 := exec_all (with_candidates e0 c) gap).
  pose proof (exec_all_fields (with_candidates e0 c) gap) as (G1 & G2 & G3 & G4 & G5 & G6 & G7).
  fold e1 in G1, G2, G3, G4, G5, G6, G7. cbn in G1, G2, G3, G4, G5, G6, G7.
  pose proof (plays_length _ _ (tick_execs_plays e t Hb)) as Hlen.
  unfold tick_execs in Hlen |- *. fold gap in Hlen |- *. rewrite length_app in Hlen |- *.
  pose proof (cross_rule_plays (after (book e) gap) t) as Hc. rewrite <-G2 in Hc, Hlen |- *.
  assert (book_ok (book e1)) as Hb1 by (rewrite G2; by apply after_ok).
  assert (runnable e1 (cross_rule (book e1) t)) as Hr
    by (apply plays_runnable; [done|lia|unfold room in Hroom; lia|done]).
  rewrite cross_exec; [|done|lia|].
  2: { unfold room. pose proof (gap_rule_plays (book e) (prev_of e) t) as Hg. fold gap in Hg.
       unfold room in Hroom. rewrite G4. pose proof (after_len (book e) gap Hb Hg) as Hal.
       rewrite G2. lia. }
  cbn [mbind run_bind].
  pose proof (exec_all_fields e1 (cross_rule (book e1) t)) as (C1 & C2 & C3 & C4 & C5 & C6 & C7).
  apply returns_ret. simpl. rewrite C7, C1, C2, G1, G7, after_app, <-G2.
  split_and!; try done.
  - rewrite exec_fills_app. simpl. do 2 f_equal. lia.
  - destruct (ids (exec_all e1 _)) as [no nt]. simpl in *. f_equal; [congruence|lia].
Qed.

Lemma in_exec_fills i xs n f : f ∈ exec_fills i xs n → ∃ x k, x ∈ xs ∧ f = exec_fill i x k.
Proof.
  revert n. induction xs as [|x xs IH]; intros n; simpl; [by intros ?%not_elem_of_nil|].
  intros [->|(y & k & Hy & ->)%IH]%elem_of_cons.
  - exists x, n. split; [by left|done].
  - exists y, k. split; [by right|done].
Qed.

Lemma exec_fills_trades i xs n : (λ f, f_trade (lf_fill f)) <$> exec_fills i xs n = seqZ n (Z.of_nat (length xs)).
Proof.
  revert n. induction xs as [|x xs IH]; intros n; [done|].
  cbn [exec_fills length]. rewrite fmap_cons, IH, (seqZ_cons n) by lia. cbn [lf_fill exec_fill f_trade].
  f_equal. f_equal; lia.
Qed.

Lemma exec_fills_orders i xs n : (λ f, f_order (lf_fill f)) <$> exec_fills i xs n = x_id <$> xs.
Proof. revert n. induction xs as [|x xs IH]; intros n; simpl; [done|]. by rewrite IH. Qed.

(** ** What the rule guarantees, order by order *)

(** No worse than the limit, on the side of the order. *)
Definition within_limit (r : Resting) (p : PriceTicks) : Prop :=
  match r_price r with
  | None => True
  | Some l => match r_side r with Buy => p ≤ l | Sell => l ≤ p end
  end.

Lemma in_filter_list {A} (p : A → bool) l x : x ∈ List.filter p l ↔ x ∈ l ∧ p x = true.
Proof. rewrite !list_elem_of_In. apply filter_In. Qed.

Lemma in_take_while {A} (p : A → bool) l x : x ∈ take_while p l → x ∈ l ∧ p x = true.
Proof.
  induction l as [|y l IH]; simpl; [by intros ?%not_elem_of_nil|].
  destruct (p y) eqn:Hy; [|by intros ?%not_elem_of_nil].
  intros [->|[? ?]%IH]%elem_of_cons; split; auto; [by left|by right].
Qed.

(** On a sorted side the prefix that is reached is all that is reached. *)
Lemma take_while_all {A} (R : relation A) (p : A → bool) l x :
  StronglySorted R l → (∀ y z, y ∈ l → z ∈ l → R y z → p z = true → p y = true) →
  x ∈ l → p x = true → x ∈ take_while p l.
Proof.
  induction 1 as [|y l Hs IH HF]; simpl; [by intros _ ?%not_elem_of_nil|].
  intros Hp. rewrite Forall_forall in HF. intros [->|Hx]%elem_of_cons Hpx.
  - rewrite Hpx. by left.
  - rewrite (Hp y x); [|by left|by right|by apply HF|done]. right. apply IH; [|done|done].
    intros a b Ha Hb'. apply Hp; by right.
Qed.

Lemma cross_in b t x : x ∈ cross_rule b t →
  (x_resting x ∈ market_buys b ∧ x = taker_exec t (Tick.buy_fill_reference t) (x_resting x)) ∨
  (x_resting x ∈ market_sells b ∧ x = taker_exec t (Tick.sell_fill_reference t) (x_resting x)) ∨
  (x_resting x ∈ bids b ∧ reached_buy t (x_resting x) = true ∧ 0 < Tick.buy_trigger t ∧
   x = buy_exec t (x_resting x)) ∨
  (x_resting x ∈ asks b ∧ reached_sell t (x_resting x) = true ∧ 0 < Tick.sell_trigger t ∧
   x = sell_exec t (x_resting x)).
Proof.
  rewrite cross_rule_eq, !elem_of_app. intros [Hx|[Hx|[Hx|Hx]]].
  - apply list_elem_of_fmap in Hx as (r & -> & Hr). by left.
  - apply list_elem_of_fmap in Hx as (r & -> & Hr). right. by left.
  - rewrite Z.gtb_ltb in Hx. destruct (Z.ltb_spec 0 (Tick.buy_trigger t)); [|by apply not_elem_of_nil in Hx].
    apply list_elem_of_fmap in Hx as (r & -> & [? ?]%in_take_while). naive_solver.
  - rewrite Z.gtb_ltb in Hx. destruct (Z.ltb_spec 0 (Tick.sell_trigger t)); [|by apply not_elem_of_nil in Hx].
    apply list_elem_of_fmap in Hx as (r & -> & [? ?]%in_take_while). naive_solver.
Qed.

Lemma gap_in b prev t x : x ∈ gap_rule b prev t →
  ∃ p s, prev = Some (p, s) ∧ x = mkExec (x_resting x) (default 0 (r_price (x_resting x))) Maker GapCrossed s ∧
    (x_resting x ∈ asks b ∧ L0.swept p (Tick.up_extent t) (x_resting x) = true ∨
     x_resting x ∈ bids b ∧ L0.dipped p (Tick.dn_extent t) (x_resting x) = true).
Proof.
  destruct prev as [[p s]|]; [|by intros ?%not_elem_of_nil]. intros (r & -> & Hr)%list_elem_of_fmap.
  rewrite sort_by_key_perm in Hr. exists p, s. split; [done|]. split; [done|]. simpl.
  destruct (p <? Tick.up_extent t); [left|destruct (Tick.dn_extent t <? p); [right|by apply not_elem_of_nil in Hr]];
    by apply in_filter_list in Hr.
Qed.

(** The four kinds of order of a book. *)
Lemma bid_kind b r : book_ok b → r ∈ bids b → r_side r = Buy ∧ is_Some (r_price r).
Proof. intros Hb. pose proof (ok_bid_kind _ Hb) as H. rewrite Forall_forall in H. apply H. Qed.
Lemma ask_kind b r : book_ok b → r ∈ asks b → r_side r = Sell ∧ is_Some (r_price r).
Proof. intros Hb. pose proof (ok_ask_kind _ Hb) as H. rewrite Forall_forall in H. apply H. Qed.
Lemma mbuy_kind b r : book_ok b → r ∈ market_buys b → r_side r = Buy ∧ r_price r = None.
Proof. intros Hb. pose proof (ok_mbuy_kind _ Hb) as H. rewrite Forall_forall in H. apply H. Qed.
Lemma msell_kind b r : book_ok b → r ∈ market_sells b → r_side r = Sell ∧ r_price r = None.
Proof. intros Hb. pose proof (ok_msell_kind _ Hb) as H. rewrite Forall_forall in H. apply H. Qed.

Lemma rule_within_limit b prev t x : book_ok b →
  x ∈ gap_rule b prev t ++ cross_rule (after b (gap_rule b prev t)) t →
  within_limit (x_resting x) (x_price x).
Proof.
  intros Hb. pose proof (after_ok b (gap_rule b prev t) Hb) as Hb'. unfold within_limit.
  intros [Hx|Hx]%elem_of_app.
  - apply gap_in in Hx as (p & s & -> & -> & Hr). simpl. destruct (r_price (x_resting x)); [|done].
    simpl. by destruct (r_side (x_resting x)).
  - apply cross_in in Hx as [[Hr ->]|[[Hr ->]|[(Hr & _ & _ & ->)|(Hr & _ & _ & ->)]]]; simpl.
    + by destruct (mbuy_kind _ _ Hb' Hr) as [_ ->].
    + by destruct (msell_kind _ _ Hb' Hr) as [_ ->].
    + destruct (bid_kind _ _ Hb' Hr) as [-> [l ->]]. simpl. destruct (_ >? _); lia.
    + destruct (ask_kind _ _ Hb' Hr) as [-> [l ->]]. simpl. destruct (_ >? _); lia.
Qed.

(** The sides are price-time ordered, so an order a better order precedes is
    reached only if the better one is. *)
Lemma reached_buy_down b t y z : book_ok b → y ∈ bids b → bid_before y z →
  reached_buy t z = true → reached_buy t y = true.
Proof.
  intros _ _ (p & q & Hp & Hq & Hpq). unfold reached_buy. rewrite Hp, Hq. simpl. rewrite !Z.leb_le. lia.
Qed.
Lemma reached_sell_down b t y z : book_ok b → y ∈ asks b → ask_before y z →
  reached_sell t z = true → reached_sell t y = true.
Proof.
  intros _ _ (p & q & Hp & Hq & Hpq). unfold reached_sell. rewrite Hp, Hq. simpl. rewrite !Z.leb_le. lia.
Qed.

Lemma cross_complete b t r : book_ok b → r ∈ Book.iter (after b (cross_rule b t)) →
  is_Some (r_price r) ∧
  (r_side r = Buy → 0 < Tick.buy_trigger t → reached_buy t r = false) ∧
  (r_side r = Sell → 0 < Tick.sell_trigger t → reached_sell t r = false).
Proof.
  intros Hb [Hr Hn]%in_after.
  assert (∀ f : Resting → Exec, (∀ y, x_resting (f y) = y) → f r ∉ cross_rule b t) as Hnot.
  { intros f Hf Hin. apply Hn. replace (r_id r) with (x_id (f r)) by (unfold x_id; by rewrite Hf).
    by apply list_elem_of_fmap_2. }
  unfold Book.iter in Hr. rewrite !elem_of_app in Hr. destruct Hr as [Hr|[Hr|[Hr|Hr]]].
  - destruct (bid_kind _ _ Hb Hr) as [Hs Hp]. split; [done|]. rewrite Hs. split; [|done]. intros _ Ht.
    destruct (reached_buy t r) eqn:E; [|done]. exfalso. apply (Hnot (buy_exec t)); [done|].
    rewrite cross_rule_eq, !elem_of_app. right. right. left.
    rewrite Z.gtb_ltb, (proj2 (Z.ltb_lt _ _)) by done. apply list_elem_of_fmap_2.
    apply (take_while_all bid_before); [apply Hb| |done|done].
    intros y z Hy _. by eapply reached_buy_down.
  - destruct (ask_kind _ _ Hb Hr) as [Hs Hp]. split; [done|]. rewrite Hs. split; [done|]. intros _ Ht.
    destruct (reached_sell t r) eqn:E; [|done]. exfalso. apply (Hnot (sell_exec t)); [done|].
    rewrite cross_rule_eq, !elem_of_app. right. right. right.
    rewrite Z.gtb_ltb, (proj2 (Z.ltb_lt _ _)) by done. apply list_elem_of_fmap_2.
    apply (take_while_all ask_before); [apply Hb| |done|done].
    intros y z Hy _. by eapply reached_sell_down.
  - exfalso. apply (Hnot (taker_exec t (Tick.buy_fill_reference t))); [done|].
    rewrite cross_rule_eq, !elem_of_app. left. by apply list_elem_of_fmap_2.
  - exfalso. apply (Hnot (taker_exec t (Tick.sell_fill_reference t))); [done|].
    rewrite cross_rule_eq, !elem_of_app. right. left. by apply list_elem_of_fmap_2.
Qed.

(** * Properties *)

(** C36. [on_tick] implements the matching rule: it returns (no panic, no
    endless loop) exactly the fills of the rule, the gap executions first and
    the crossing executions on the book they leave, numbered by the next trade
    identifiers; exactly the executed orders leave the book, and the engine's
    invariant (price-time order of every side included) still holds. *)
Theorem on_tick_implements_rule (e : L0Engine) (t : Tick) (He : engine_ok e) (Hroom : room e) :
  returns (L0.on_tick e t) (λ '(fs, e'),
    let gap := gap_rule (book e) (prev_of e) t in
    let xs := gap ++ cross_rule (after (book e) gap) t in
    fs = exec_fills (instrument e) xs (next_trade (ids e) + 1) ∧
    book e' = after (book e) xs ∧
    next_trade (ids e') = next_trade (ids e) + Z.of_nat (length xs) ∧
    prev_of e' = Some (t_last t, t_stamp t) ∧ engine_ok e').
Proof.
  eapply returns_mono; [by apply on_tick_exec|].
  intros [fs e'] (Hfs & Hi & Hb & Hids & Hp & Hs & _). cbv zeta. fold (tick_execs e t).
  destruct He as [He1 _ He3]. split_and!; [done|done|by rewrite Hids| |].
  - unfold prev_of. by rewrite Hp, Hs.
  - split; [rewrite Hb; by apply after_ok|rewrite Hp, Hs; by split; eauto|rewrite Hids; simpl; lia].
Qed.

(** No fill of a tick is worse than its order's limit, every fill is for
    the whole remainder of an order that was resting, no order is filled twice,
    and the trade numbers are consecutive. *)
Theorem on_tick_fills_sound (e : L0Engine) (t : Tick) (He : engine_ok e) (Hroom : room e) :
  returns (L0.on_tick e t) (λ '(fs, e'),
    Forall (λ f, ∃ r, r ∈ Book.iter (book e) ∧
      f_order (lf_fill f) = r_id r ∧ f_side (lf_fill f) = r_side r ∧
      f_offset (lf_fill f) = w_offset (r_order r) ∧
      f_qty (lf_fill f) = left (r_order r) ∧ 0 < f_qty (lf_fill f) ∧
      within_limit r (f_price (lf_fill f))) fs ∧
    NoDup ((λ f, f_order (lf_fill f)) <$> fs) ∧
    (λ f, f_trade (lf_fill f)) <$> fs = seqZ (next_trade (ids e) + 1) (Z.of_nat (length fs))).
Proof.
  eapply returns_mono; [by apply on_tick_exec|]. intros [fs e'] (Hfs & _).
  pose proof (eng_book _ He) as Hb. pose proof (tick_execs_plays e t Hb) as Hp. split_and!.
  - apply Forall_forall. intros f Hf. rewrite Hfs in Hf. apply in_exec_fills in Hf as (x & k & Hx & ->).
    assert (x_resting x ∈ Book.iter (book e)) as Hr
      by (eapply elem_of_submseteq; [|exact Hp]; by apply list_elem_of_fmap_2).
    exists (x_resting x). pose proof (ok_working _ Hb) as Hw. rewrite Forall_forall in Hw.
    specialize (Hw _ Hr). destruct (left_pos _ Hw). split_and!; try done.
    by eapply rule_within_limit.
  - rewrite Hfs, exec_fills_orders, x_id_fmap. eapply NoDup_of_submseteq; [apply (ok_ids _ Hb)|].
    by apply fmap_submseteq.
  - replace (length fs) with (length (tick_execs e t)); [by rewrite Hfs; apply exec_fills_trades|].
    rewrite <-(length_fmap x_id), <-(exec_fills_orders (instrument e) _ (next_trade (ids e) + 1)), <-Hfs.
    by rewrite length_fmap.
Qed.

(** A tick leaves nothing behind that it should have executed: afterwards
    no market order rests, no buy is at or above a positive buy trigger, no
    sell at or below a positive sell trigger; and what is left is exactly what
    was there and was not filled. *)
Theorem on_tick_complete (e : L0Engine) (t : Tick) (He : engine_ok e) (Hroom : room e) :
  returns (L0.on_tick e t) (λ '(fs, e'),
    (∀ r, r ∈ Book.iter (book e') ↔
       r ∈ Book.iter (book e) ∧ r_id r ∉ (λ f, f_order (lf_fill f)) <$> fs) ∧
    (∀ r, r ∈ Book.iter (book e') → ∃ p, r_price r = Some p ∧
       match r_side r with
       | Buy => 0 < Tick.buy_trigger t → p < Tick.buy_trigger t
       | Sell => 0 < Tick.sell_trigger t → Tick.sell_trigger t < p
       end)).
Proof.
  eapply returns_mono; [by apply on_tick_exec|]. intros [fs e'] (Hfs & _ & Hbk & _).
  pose proof (eng_book _ He) as Hb. split.
  - intros r. by rewrite Hbk, in_after, Hfs, exec_fills_orders.
  - intros r Hr. rewrite Hbk in Hr. unfold tick_execs in Hr. rewrite after_app in Hr.
    apply cross_complete in Hr as ([p Hp] & H1 & H2); [|by apply after_ok]. exists p. split; [done|].
    unfold reached_buy, reached_sell in *. rewrite Hp in *. simpl in *. destruct (r_side r); intros Ht.
    + specialize (H1 eq_refl Ht). by apply Z.leb_gt in H1.
    + specialize (H2 eq_refl Ht). by apply Z.leb_gt in H2.
Qed.

(** The engine's interface as steps. *)
Inductive l0_step : L0Engine → L0Engine → Prop :=
| step_submit e w e' : working_ok w → w_id w ∉ Book.resting_ids (book e) →
    L0.submit e w = Ret e' → l0_step e e'
| step_cancel e id : l0_step e (L0.cancel e id).2
| step_cancel_all e : l0_step e (L0.cancel_all e).2
| step_tick e t fs e' : L0.on_tick e t = Ret (fs, e') → room e → l0_step e e'
| step_forget e : l0_step e (L0.forget_price_path e).

Inductive l0_reachable (i : InstrumentId) : L0Engine → Prop :=
| reach_new : l0_reachable i (L0.new i)
| reach_step e e' : l0_reachable i e → l0_step e e' → l0_reachable i e'.

Lemma cancel_book e id : book_ok (book e) → (L0.cancel e id).2 = L0.set_book e (without id (book e)).
Proof.
  intros Hb. unfold L0.cancel. destruct (remove_spec (book e) id (ok_ids _ Hb)) as [E _].
  destruct (Book.remove (book e) id) as [w b]. simpl in *. by subst.
Qed.

Lemma cancel_all_ok ids b : book_ok b → book_ok (fold_left (λ b id, (Book.remove b id).2) ids b).
Proof.
  revert b. induction ids as [|id ids IH]; intros b Hb; simpl; [done|]. apply IH.
  destruct (remove_spec b id (ok_ids _ Hb)) as [-> _]. by apply without_ok.
Qed.

Lemma submit_book e w e' : engine_ok e → working_ok w → w_id w ∉ Book.resting_ids (book e) →
  L0.submit e w = Ret e' → engine_ok e'.
Proof.
  intros [Hb Hp Ht] Hw Hid. unfold L0.submit. intros E. apply bind_ret in E as (b & Hins & [= <-]).
  split; [|done|done]. simpl.
  assert (next_arrival (book e) + 1 ≤ U64_MAX) as Hmax.
  { unfold Book.insert in Hins. apply bind_ret in Hins as (n & Hn%chk_inv & _). mlia. }
  by destruct (returns_inv _ _ _ (insert_spec _ _ Hb Hw Hid Hmax) Hins).
Qed.

(** Whatever sequence of submissions (of orders with fresh identifiers),
    cancels and ticks the engine is driven by, its invariant holds: each side
    is strictly price-time ordered, holds only its own kind of order with
    something left to fill, and no identifier rests twice. *)
Theorem l0_reachable_ok (i : InstrumentId) (e : L0Engine) (H : l0_reachable i e) : engine_ok e.
Proof.
  induction H as [|e e' _ He Hstep].
  { split; [apply book_new_ok|split; intros [? ?]; done|done]. }
  destruct Hstep as [e w e' Hw Hid E|e id|e|e t fs e' E Hr|e].
  - by eapply submit_book.
  - destruct He. rewrite cancel_book by done. split; [by apply without_ok|done|done].
  - destruct He. split; [by apply cancel_all_ok|done|done].
  - pose proof (on_tick_implements_rule e t He Hr) as Hret.
    apply (returns_inv _ _ _ Hret) in E. by destruct E as (_ & _ & _ & _ & ?).
  - destruct He. split; [done|split; intros [? ?]; done|done].
Qed.

(** * A concrete engine *)

Module Demo.
Definition order (id : OrderId) (side : Side) (kind : OrderKind) (qty : QtyLots) : Working :=
  WLive (mkOrder id side kind qty 0 GoodTilCancel (mkStamp 0 0) Open).
Definition resting_book : Book :=
  mkBook [mkResting (order 1 Buy (Limit 100) 10) 0; mkResting (order 4 Buy (Limit 98) 2) 3]
    [mkResting (order 2 Sell (Limit 110) 5) 1] [mkResting (order 3 Buy Market 7) 2] [] 4.
Definition engine : L0Engine :=
  mkL0 1 resting_book (mkIds 0 0) (Some 105) (Some (mkStamp 0 0)) [] [].
(** A window that dips to 99 and closes at 101. *)
Definition tick : Tick := Tick.trades_only (mkStamp 1 1) 101 106 99.

Lemma book_ok_demo : book_ok resting_book.
Proof.
  split; try (apply (bool_decide_unpack _); vm_compute; exact I).
  { repeat constructor. exists 100, 98. split_and!; [done|done|lia]. }
  all: repeat constructor; eauto; simpl; mlia.
Qed.

Lemma engine_ok_demo : engine_ok engine.
Proof. split; [apply book_ok_demo|by split; eauto|done]. Qed.
End Demo.

Lemma on_tick_implements_rule_witness :
  returns (L0.on_tick Demo.engine Demo.tick) (λ '(fs, e'),
    (λ f, (f_order (lf_fill f), f_price (lf_fill f))) <$> fs = [(3, 101); (1, 100)] ∧ engine_ok e').
Proof.
  eapply returns_mono; [apply (on_tick_implements_rule Demo.engine Demo.tick);
    [apply Demo.engine_ok_demo|vm_compute; discriminate]|].
  intros [fs e'] (-> & _ & _ & _ & He). split; [|exact He]. vm_compute. reflexivity.
Defined.

Lemma on_tick_fills_sound_witness :
  returns (L0.on_tick Demo.engine Demo.tick) (λ '(fs, e'),
    NoDup ((λ f, f_order (lf_fill f)) <$> fs)).
Proof.
  eapply returns_mono; [apply (on_tick_fills_sound Demo.engine Demo.tick);
    [apply Demo.engine_ok_demo|vm_compute; discriminate]|].
  intros [fs e'] (_ & H & _). exact H.
Defined.

Lemma on_tick_complete_witness :
  returns (L0.on_tick Demo.engine Demo.tick) (λ '(fs, e'),
    ∀ r, r ∈ Book.iter (book e') → is_Some (r_price r)).
Proof.
  eapply returns_mono; [apply (on_tick_complete Demo.engine Demo.tick);
    [apply Demo.engine_ok_demo|vm_compute; discriminate]|].
  intros [fs e'] [_ H] r Hr. destruct (H r Hr) as (p & Hp & _). exists p. exact Hp.
Defined.

Lemma l0_reachable_ok_witness :
  ∃ e, L0.submit (L0.new 1) (Demo.order 1 Buy (Limit 100) 10) = Ret e ∧ engine_ok e.
Proof.
  eexists. split; [reflexivity|]. apply (l0_reachable_ok 1).
  eapply reach_step; [apply reach_new|]. eapply step_submit; [| |reflexivity].
  - split; simpl; mlia.
  - apply not_elem_of_nil.
Defined.
