(* ===== verification/Depth.v ===== *)
(** A venue's order book ([oq-book/src/book.rs]): one sorted vector of levels
    a side, updated by binary search, swept from the best price; and the
    sequence discipline that decides whether an update belongs to it.

    The abstract side is a finite map from price to quantity. *)

From S2P Require Import Prelude Slices.
From stdpp Require Import gmap fin_maps.
#[local] Open Scope Z_scope.

Record Level := mkLevel { l_price : Z; l_qty : Z }.

#[export] Instance Level_eq_dec : EqDecision Level.
Proof. solve_decision. Defined.

Record DepthUpdate := mkUpdate {
  event_ms : Z;
  first_id : Z;
  final_id : Z;
  prev_final_id : option Z;
  u_bids : list Level;
  u_asks : list Level;
}.

#[export] Instance DepthUpdate_eq_dec : EqDecision DepthUpdate.
Proof. solve_decision. Defined.

Record BookSide := mkSide { levels : list Level; descending : bool }.

#[export] Instance BookSide_eq_dec : EqDecision BookSide.
Proof. solve_decision. Defined.

Record Sweep := mkSweep { taken : Z; cost : Z; exhausted : bool }.

#[export] Instance Sweep_eq_dec : EqDecision Sweep.
Proof. solve_decision. Defined.

Module BookSide.
Definition bids : BookSide := mkSide [] true.
Definition asks : BookSide := mkSide [] false.

Definition with_levels (s : BookSide) (l : list Level) : BookSide := mkSide l (descending s).

(** What the binary search asks of each level. *)
Definition side_cmp (desc : bool) (price : Z) (l : Level) : comparison :=
  if desc then price ?= l_price l else l_price l ?= price.

Definition position (s : BookSide) (price : Z) : result nat nat :=
  binary_search_by (side_cmp (descending s) price) (levels s).

Definition apply (s : BookSide) (l : Level) : BookSide :=
  match position s (l_price l) with
  | Ok i => if l_qty l =? 0 then with_levels s (delete i (levels s))
            else with_levels s (<[i := l]> (levels s))
  | Err i => if l_qty l =? 0 then s
             else with_levels s (vec_insert i l (levels s))
  end.

Definition best (s : BookSide) : option Level := head (levels s).
Definition depth (s : BookSide) : nat := length (levels s).

(** The loop of [sweep]: what is still wanted, and the totals so far. *)
Fixpoint sweep_loop (ls : list Level) (want taken cost : Z) : run (Z * Z * Z) :=
  match ls with
  | [] => mret (want, taken, cost)
  | l :: ls =>
      if want =? 0 then mret (want, taken, cost)
      else
        let take := Z.min want (Z.max (l_qty l) 0) in
        if take =? 0 then sweep_loop ls want taken cost
        else
          cost ← chk128 (cost + l_price l * take);
          taken ← chk64 (taken + take);
          sweep_loop ls (want - take) taken cost
  end.

Definition sweep (s : BookSide) (qty : Z) : run Sweep :=
  '(want, t, c) ← sweep_loop (levels s) (Z.max qty 0) 0 0;
  mret (mkSweep t c (want >? 0)).

(** The loop of [take]: the levels with what was taken removed, and how many
    were emptied. *)
Fixpoint take_loop (ls : list Level) (want : Z) : list Level * nat :=
  match ls with
  | [] => ([], 0%nat)
  | l :: ls =>
      if want =? 0 then (l :: ls, 0%nat)
      else
        let take := Z.min want (Z.max (l_qty l) 0) in
        let q := l_qty l - take in
        let '(rest, drained) := take_loop ls (want - take) in
        (mkLevel (l_price l) q :: rest, if q =? 0 then S drained else drained)
  end.

Definition take (s : BookSide) (qty : Z) : run (Sweep * BookSide) :=
  swept ← sweep s qty;
  let '(ls, drained) := take_loop (levels s) (taken swept) in
  mret (swept, with_levels s (drop drained ls)).
End BookSide.

Inductive SequenceError :=
| NoSnapshot
| DoesNotStraddleSnapshot (snapshot first_id final_id : Z)
| Gap (expected found : Z).

Inductive Applied := Updated | AlreadyInSnapshot.

#[export] Instance SequenceError_eq_dec : EqDecision SequenceError.
Proof. solve_decision. Defined.
#[export] Instance Applied_eq_dec : EqDecision Applied.
Proof. solve_decision. Defined.

Record VenueBook := mkVenue {
  vb_bids : BookSide;
  vb_asks : BookSide;
  last_id : option Z;
  snapshot_id : option Z;
  applied : Z;
}.

#[export] Instance VenueBook_eq_dec : EqDecision VenueBook.
Proof. solve_decision. Defined.

Module VenueBook.
Definition new : VenueBook := mkVenue BookSide.bids BookSide.asks None None 0.

Definition apply_all (s : BookSide) (ls : list Level) : BookSide := fold_left BookSide.apply ls s.

Definition install_snapshot (b : VenueBook) (update_id : Z) (bids asks : list Level) : VenueBook :=
  mkVenue (apply_all BookSide.bids bids) (apply_all BookSide.asks asks) None (Some update_id) 0.

(** The sequence checks: [None] when the update is to be applied. *)
Definition sequence_check (b : VenueBook) (snapshot : Z) (u : DepthUpdate)
    : run (option (result Applied SequenceError)) :=
  match last_id b with
  | None =>
      if final_id u <=? snapshot then mret (Some (Ok AlreadyInSnapshot))
      else
        let predecessor_inside := match prev_final_id u with Some p => p <=? snapshot | None => false end in
        next ← chku64 (snapshot + 1);
        if (first_id u >? next) && negb predecessor_inside
        then mret (Some (Err (DoesNotStraddleSnapshot snapshot (first_id u) (final_id u))))
        else mret None
  | Some last =>
      let previous := default (satu64 (first_id u - 1)) (prev_final_id u) in
      if negb (previous =? last) then mret (Some (Err (Gap last previous))) else mret None
  end.

Definition apply (b : VenueBook) (u : DepthUpdate) : run (result Applied SequenceError * VenueBook) :=
  match snapshot_id b with
  | None => mret (Err NoSnapshot, b)
  | Some snapshot =>
      verdict ← sequence_check b snapshot u;
      match verdict with
      | Some r => mret (r, b)
      | None =>
          n ← chku64 (applied b + 1);
          mret (Ok Updated,
            mkVenue (apply_all (vb_bids b) (u_bids u)) (apply_all (vb_asks b) (u_asks u))
              (Some (final_id u)) (snapshot_id b) n)
      end
  end.

Definition is_ready (b : VenueBook) : bool :=
  match snapshot_id b with Some _ => true | None => false end
  && match levels (vb_bids b) with [] => false | _ => true end
  && match levels (vb_asks b) with [] => false | _ => true end.

Definition is_crossed (b : VenueBook) : bool :=
  match BookSide.best (vb_bids b), BookSide.best (vb_asks b) with
  | Some bid, Some ask => l_price bid >=? l_price ask
  | _, _ => false
  end.
End VenueBook.

(** * The invariant, and the map a side stands for *)

Definition level_lt (desc : bool) (a b : Level) : Prop :=
  if desc then l_price b < l_price a else l_price a < l_price b.

Record side_ok (s : BookSide) : Prop := {
  side_sorted : StronglySorted (level_lt (descending s)) (levels s);
  side_qty : Forall (λ l, 0 < l_qty l) (levels s);
}.

Definition side_map (ls : list Level) : gmap Z Z :=
  list_to_map ((λ l, (l_price l, l_qty l)) <$> ls).

(** What one level does to the map: a zero removes, anything else replaces. *)
Definition map_apply (m : gmap Z Z) (l : Level) : gmap Z Z :=
  if l_qty l =? 0 then delete (l_price l) m else <[l_price l := l_qty l]> m.

Lemma side_cmp_eq desc p l : BookSide.side_cmp desc p l = Eq ↔ l_price l = p.
Proof. unfold BookSide.side_cmp. destruct desc; rewrite Z.compare_eq_iff; lia. Qed.

(** A sorted side split at a price. *)
Lemma side_split s p : StronglySorted (level_lt (descending s)) (levels s) →
  ∃ l1 m l2, levels s = l1 ++ option_list m ++ l2 ∧
    ordered_by (BookSide.side_cmp (descending s) p) l1 m l2.
Proof.
  destruct s as [ls desc]; simpl. induction 1 as [|x ls Hs IH HF].
  { exists [], None, []. split; [done|]. split; [done|done|done]. }
  destruct (BookSide.side_cmp desc p x) eqn:E.
  - exists [], (Some x), ls. split; [done|]. split; [done|by intros ? [= <-]|].
    eapply Forall_impl; [exact HF|]. apply side_cmp_eq in E. subst p. intros y. unfold level_lt, BookSide.side_cmp.
    destruct desc; rewrite Z.compare_gt_iff; lia.
  - destruct IH as (l1 & m & l2 & -> & [H1 H2 H3]). exists (x :: l1), m, l2. split; [done|].
    split; [by constructor|done|done].
  - exists [], None, (x :: ls). split; [done|]. split; [done|done|]. constructor; [done|].
    eapply Forall_impl; [exact HF|]. revert E. intros E y. revert E. unfold level_lt, BookSide.side_cmp.
    destruct desc; rewrite !Z.compare_gt_iff; lia.
Qed.

Lemma position_split s p l1 m l2 : levels s = l1 ++ option_list m ++ l2 →
  ordered_by (BookSide.side_cmp (descending s) p) l1 m l2 →
  BookSide.position s p = match m with Some _ => Ok (length l1) | None => Err (length l1) end.
Proof. intros E H. unfold BookSide.position. rewrite E. by apply binary_search_by_spec. Qed.

(** The levels after an update, whichever branch the code takes. *)
Lemma apply_split s l l1 m l2 : levels s = l1 ++ option_list m ++ l2 →
  ordered_by (BookSide.side_cmp (descending s) (l_price l)) l1 m l2 →
  BookSide.apply s l = BookSide.with_levels s (l1 ++ (if l_qty l =? 0 then [] else [l]) ++ l2).
Proof.
  intros E H. unfold BookSide.apply. rewrite (position_split _ _ _ _ _ E H), E.
  destruct m as [x|]; simpl; destruct (l_qty l =? 0) eqn:Hq; unfold BookSide.with_levels; simpl.
  - by rewrite delete_middle.
  - by rewrite insert_app_r_alt, Nat.sub_diag by lia.
  - destruct s; simpl in *. by subst.
  - by rewrite vec_insert_app.
Qed.

Lemma level_lt_ne desc a b : level_lt desc a b → l_price a ≠ l_price b.
Proof. unfold level_lt. destruct desc; lia. Qed.

Lemma sorted_prices desc ls : StronglySorted (level_lt desc) ls → NoDup (l_price <$> ls).
Proof.
  induction 1 as [|x ls Hs IH HF]; [apply NoDup_nil_2|]. rewrite fmap_cons. apply NoDup_cons. split; [|done].
  intros (y & Hy & Hin)%list_elem_of_fmap. rewrite Forall_forall in HF.
  by apply (level_lt_ne desc x y); [apply HF|].
Qed.

Lemma side_map_lookup ls p q : NoDup (l_price <$> ls) →
  side_map ls !! p = Some q ↔ mkLevel p q ∈ ls.
Proof.
  intros Hd. unfold side_map. rewrite <-elem_of_list_to_map by (rewrite <-list_fmap_compose; exact Hd).
  rewrite list_elem_of_fmap. split.
  - intros ([p' q'] & [= -> ->] & H). done.
  - intros H. by exists (mkLevel p q).
Qed.

Lemma side_map_ext ls (m : gmap Z Z) : NoDup (l_price <$> ls) →
  (∀ p q, mkLevel p q ∈ ls ↔ m !! p = Some q) → side_map ls = m.
Proof.
  intros Hd H. apply map_eq. intros p. apply option_eq. intros q. by rewrite side_map_lookup.
Qed.

(** The price being updated is not among its neighbours. *)
Lemma ordered_by_not_in desc p l1 m l2 x :
  ordered_by (BookSide.side_cmp desc p) l1 m l2 → x ∈ l1 ∨ x ∈ l2 → l_price x ≠ p.
Proof.
  intros [H1 _ H3] Hx E. apply (side_cmp_eq desc) in E. rewrite Forall_forall in H1, H3.
  destruct Hx as [Hx|Hx]; [rewrite H1 in E|rewrite H3 in E]; done.
Qed.

Lemma ordered_by_sorted desc l l1 m l2 :
  StronglySorted (level_lt desc) (l1 ++ option_list m ++ l2) →
  ordered_by (BookSide.side_cmp desc (l_price l)) l1 m l2 →
  StronglySorted (level_lt desc) (l1 ++ [l] ++ l2) ∧ StronglySorted (level_lt desc) (l1 ++ l2).
Proof.
  intros (S1 & (_ & S2 & _)%StronglySorted_app & S12)%StronglySorted_app [H1 _ H3].
  rewrite Forall_forall in H1, H3.
  assert (∀ x, x ∈ l1 → level_lt desc x l) as L1.
  { intros x Hx. specialize (H1 x Hx). revert H1. unfold BookSide.side_cmp, level_lt.
    destruct desc; rewrite Z.compare_lt_iff; lia. }
  assert (∀ x, x ∈ l2 → level_lt desc l x) as L2.
  { intros x Hx. specialize (H3 x Hx). revert H3. unfold BookSide.side_cmp, level_lt.
    destruct desc; rewrite Z.compare_gt_iff; lia. }
  assert (∀ x y, x ∈ l1 → y ∈ l2 → level_lt desc x y) as L12
    by (intros x y Hx Hy; apply S12; [done|]; apply elem_of_app; by right).
  split; apply StronglySorted_app; split_and!; try done.
  - constructor; [done|]. by apply Forall_forall.
  - intros x y Hx [->|Hy]%elem_of_cons; auto.
Qed.

(** One level, against the map. *)
Lemma apply_refines s l : side_ok s → 0 ≤ l_qty l →
  side_ok (BookSide.apply s l) ∧ descending (BookSide.apply s l) = descending s ∧
  side_map (levels (BookSide.apply s l)) = map_apply (side_map (levels s)) l.
Proof.
  intros [Hs Hq] Hl. destruct (side_split s (l_price l) Hs) as (l1 & m & l2 & E & Hob).
  rewrite (apply_split s l l1 m l2 E Hob). unfold BookSide.with_levels. simpl.
  pose proof Hs as Hs0. rewrite E in Hs, Hq. destruct (ordered_by_sorted _ _ _ _ _ Hs Hob) as [S1 S2].
  apply Forall_app in Hq as [Q1 [_ Q2]%Forall_app].
  pose proof (fun x => ordered_by_not_in _ _ _ _ _ x Hob) as Hni.
  assert (∀ p q, p ≠ l_price l → side_map (levels s) !! p = Some q ↔ mkLevel p q ∈ l1 ++ l2) as Hold.
  { intros p q Hp. rewrite side_map_lookup, E by (by eapply sorted_prices). rewrite !elem_of_app.
    split; [|tauto]. intros [?|[Hm|?]]; try tauto. destruct m as [x|]; simpl in Hm; [|by apply not_elem_of_nil in Hm].
    apply list_elem_of_singleton in Hm as <-. destruct Hob as [_ H2 _]. specialize (H2 _ eq_refl).
    apply side_cmp_eq in H2. done. }
  unfold map_apply. destruct (Z.eqb_spec (l_qty l) 0) as [Hz|Hz]; simpl.
  - split; [split; [done|by apply Forall_app]|]. split; [done|].
    apply side_map_ext; [by eapply sorted_prices|]. intros p q. rewrite lookup_delete_Some.
    destruct (decide (p = l_price l)) as [->|Hp]; [|rewrite Hold by done; naive_solver].
    split; [|naive_solver]. intros [H|H]%elem_of_app; exfalso; [eapply Hni; [by left|]|eapply Hni; [by right|]]; done.
  - split.
    { split; [done|]. apply Forall_app. split; [done|]. constructor; [lia|done]. }
    split; [done|]. apply side_map_ext; [by eapply sorted_prices|]. intros p q. rewrite lookup_insert_Some.
    destruct (decide (p = l_price l)) as [->|Hp].
    + split; [|intros [[_ <-]|[? _]]; [|done]; apply elem_of_app; right; destruct l; by left].
      rewrite elem_of_app, elem_of_cons. intros [H|[H|H]].
      * exfalso. eapply Hni; [by left|]. done.
      * left. split; [done|]. by rewrite <-H.
      * exfalso. eapply Hni; [by right|]. done.
    + rewrite Hold by done. rewrite !elem_of_app, elem_of_cons. split.
      * intros [H|[H|H]]; [|subst l; done|]; right; split; try done; auto.
      * intros [[? _]|[_ [H|H]]]; [done|auto|auto].
Qed.

Lemma apply_all_refines ls s : side_ok s → Forall (λ l, 0 ≤ l_qty l) ls →
  side_ok (VenueBook.apply_all s ls) ∧ descending (VenueBook.apply_all s ls) = descending s ∧
  side_map (levels (VenueBook.apply_all s ls)) = fold_left map_apply ls (side_map (levels s)).
Proof.
  intros Hs HF. revert s Hs. induction HF as [|l ls Hl HF IH]; intros s Hs; simpl; [done|].
  destruct (apply_refines s l Hs Hl) as (H1 & H2 & H3).
  destruct (IH _ H1) as (H4 & H5 & H6). unfold VenueBook.apply_all in *. simpl.
  split_and!; [done|congruence|]. by rewrite H6, H3.
Qed.

Lemma bids_ok : side_ok BookSide.bids.
Proof. split; constructor. Qed.
Lemma asks_ok : side_ok BookSide.asks.
Proof. split; constructor. Qed.

(** * Sweeping *)

Definition total (ls : list Level) : Z := foldr (λ l n, l_qty l + n) 0 ls.

(** What a quantity costs taken level by level. *)
Fixpoint greedy (ls : list Level) (want : Z) : Z :=
  match ls with
  | [] => 0
  | l :: ls => let t := Z.min want (l_qty l) in l_price l * t + greedy ls (want - t)
  end.

(** What is left after taking. *)
Fixpoint rest (ls : list Level) (want : Z) : list Level :=
  match ls with
  | [] => []
  | l :: ls =>
      if l_qty l <=? want then rest ls (want - l_qty l)
      else mkLevel (l_price l) (l_qty l - want) :: ls
  end.

Definition level_i64 (l : Level) : Prop := i64 (l_price l) ∧ i64 (l_qty l).
Definition positive (l : Level) : Prop := 0 < l_qty l.

Lemma total_nonneg ls : Forall positive ls → 0 ≤ total ls.
Proof. unfold positive. induction 1; simpl; lia. Qed.

Lemma greedy_0 ls : Forall positive ls → greedy ls 0 = 0.
Proof.
  unfold positive. induction 1 as [|l ls Hl HF IH]; simpl; [done|].
  rewrite Z.min_l by lia. replace (0 - 0) with 0 by lia. lia.
Qed.

Lemma greedy_bound ls w : Forall positive ls → Forall level_i64 ls → 0 ≤ w →
  Z.abs (greedy ls w) ≤ 2 ^ 63 * Z.min w (total ls).
Proof.
  intros Hp. revert w. induction Hp as [|l ls Hl Hp IH]; intros w Hi Hw; simpl; [lia|].
  apply Forall_cons in Hi as [[Hpr _] Hi]. unfold positive in *. pose proof (total_nonneg ls Hp).
  specialize (IH (w - Z.min w (l_qty l)) Hi). assert (Z.abs (l_price l) ≤ 2 ^ 63) by mlia.
  assert (Z.abs (l_price l * Z.min w (l_qty l)) ≤ 2 ^ 63 * Z.min w (l_qty l)).
  { rewrite Z.abs_mul. apply Z.mul_le_mono_nonneg; lia. }
  lia.
Qed.

Lemma sweep_loop_eq ls w t c : Forall positive ls → Forall level_i64 ls → 0 ≤ w → 0 ≤ t →
  t + w ≤ I64_MAX → Z.abs c + 2 ^ 63 * w ≤ I128_MAX →
  BookSide.sweep_loop ls w t c =
    Ret (w - Z.min w (total ls), t + Z.min w (total ls), c + greedy ls w).
Proof.
  intros Hp. revert w t c. induction Hp as [|l ls Hl Hp IH]; intros w t c Hi Hw Ht Hm Hc; simpl.
  { unfold mret, run_ret. rewrite Z.min_r by lia. do 3 f_equal; lia. }
  pose proof (total_nonneg ls Hp). unfold positive in *. apply Forall_cons in Hi as [[Hpr Hq] Hi].
  destruct (Z.eqb_spec w 0) as [->|Hw0].
  { rewrite !Z.min_l by lia. replace (0 - 0) with 0 by lia. rewrite (greedy_0 ls) by done.
    unfold mret, run_ret. f_equal; f_equal; [f_equal|]; lia. }
  rewrite (Z.max_l (l_qty l) 0) by lia. set (k := Z.min w (l_qty l)).
  assert (0 < k ≤ w) as Hk by lia. destruct (Z.eqb_spec k 0); [lia|].
  assert (Z.abs (l_price l * k) ≤ 2 ^ 63 * k).
  { rewrite Z.abs_mul. apply Z.mul_le_mono_nonneg; mlia. }
  rewrite (chk_ret i128 (c + l_price l * k)) by (unfold i128; lia). cbn [mbind run_bind].
  rewrite (chk_ret i64 (t + k)) by (unfold i64; lia). cbn [mbind run_bind].
  rewrite IH; [|done|lia|lia|lia|lia]. unfold k. f_equal; f_equal; [f_equal|]; lia.
Qed.

Lemma take_loop_0 ls : BookSide.take_loop ls 0 = (ls, 0%nat).
Proof. by destruct ls. Qed.

Lemma take_loop_rest ls w : Forall positive ls → 0 ≤ w →
  let '(l', d) := BookSide.take_loop ls w in drop d l' = rest ls w.
Proof.
  intros Hp. revert w. induction Hp as [|l ls Hl Hp IH]; intros w Hw; [done|]. unfold positive in Hl.
  cbn [BookSide.take_loop rest]. destruct (Z.eqb_spec w 0) as [->|Hw0].
  { destruct (Z.leb_spec (l_qty l) 0); [lia|]. destruct l as [p q]. simpl. do 2 f_equal. lia. }
  rewrite (Z.max_l (l_qty l) 0) by lia.
  destruct (Z.leb_spec (l_qty l) w).
  - rewrite Z.min_r by lia. specialize (IH (w - l_qty l)).
    destruct (BookSide.take_loop ls (w - l_qty l)) as [l' d].
    rewrite Z.sub_diag, Z.eqb_refl. apply IH. lia.
  - rewrite Z.min_l, Z.sub_diag, take_loop_0 by lia.
    destruct (Z.eqb_spec (l_qty l - w) 0); [lia|done].
Qed.

Lemma rest_total ls w : Forall positive ls → 0 ≤ w → total (rest ls w) = total ls - Z.min w (total ls).
Proof.
  intros Hp. revert w. induction Hp as [|l ls Hl Hp IH]; intros w Hw; simpl; [lia|].
  unfold positive in Hl. pose proof (total_nonneg ls Hp).
  destruct (Z.leb_spec (l_qty l) w); [rewrite IH by lia; lia|simpl; lia].
Qed.

Lemma greedy_rest ls a b : Forall positive ls → 0 ≤ a → 0 ≤ b →
  greedy ls (a + b) = greedy ls a + greedy (rest ls a) b.
Proof.
  intros Hp. revert a b. induction Hp as [|l ls Hl Hp IH]; intros a b Ha Hb; simpl; [lia|].
  unfold positive in Hl. destruct (Z.leb_spec (l_qty l) a).
  - rewrite !Z.min_r by lia. replace (a + b - l_qty l) with (a - l_qty l + b) by lia.
    rewrite IH by lia. lia.
  - simpl. rewrite (Z.min_l a) by lia. rewrite Z.sub_diag, (greedy_0 ls) by done.
    replace (b - Z.min b (l_qty l - a)) with (a + b - Z.min (a + b) (l_qty l)) by lia.
    replace (Z.min (a + b) (l_qty l)) with (a + Z.min b (l_qty l - a)) by lia. lia.
Qed.

Lemma rest_ok s w : side_ok s → 0 ≤ w → side_ok (BookSide.with_levels s (rest (levels s) w)).
Proof.
  destruct s as [ls desc]. intros [Hs Hq]. simpl in *. revert w Hq.
  induction Hs as [|l ls Hs IH HF]; intros w Hq Hw; simpl; [split; constructor|].
  apply Forall_cons in Hq as [Hl Hq]. destruct (Z.leb_spec (l_qty l) w); [apply IH; [done|lia]|].
  split; simpl.
  - constructor; [done|]. eapply Forall_impl; [exact HF|]. intros y. unfold level_lt. by destruct desc.
  - constructor; [simpl; lia|done].
Qed.

(** A level's price never changes: what is left is still the venue's levels. *)
Lemma rest_i64 ls w : Forall positive ls → Forall level_i64 ls → 0 ≤ w → Forall level_i64 (rest ls w).
Proof.
  intros Hp. revert w. induction Hp as [|l ls Hl Hp IH]; intros w Hi Hw; simpl; [done|].
  apply Forall_cons in Hi as [[H1 H2] Hi]. unfold positive in *.
  destruct (Z.leb_spec (l_qty l) w); [apply IH; [done|lia]|]. constructor; [split; simpl; mlia|done].
Qed.

Definition side_i64 (s : BookSide) : Prop := Forall level_i64 (levels s).

Lemma sweep_eq s q : side_ok s → side_i64 s → i64 q →
  BookSide.sweep s q = Ret (mkSweep (Z.min (Z.max q 0) (total (levels s)))
    (greedy (levels s) (Z.max q 0)) (total (levels s) <? Z.max q 0)).
Proof.
  intros [_ Hp] Hi Hq. unfold BookSide.sweep. rewrite sweep_loop_eq; [|done|done|lia|lia|mlia|mlia].
  cbn [mbind run_bind]. unfold mret, run_ret. do 2 f_equal.
  rewrite Z.gtb_ltb. pose proof (total_nonneg _ Hp).
  destruct (Z.ltb_spec (total (levels s)) (Z.max q 0)); [apply Z.ltb_lt|apply Z.ltb_ge]; lia.
Qed.

Lemma greedy_min ls w : Forall positive ls → 0 ≤ w → greedy ls (Z.min w (total ls)) = greedy ls w.
Proof.
  intros Hp. revert w. induction Hp as [|l ls Hl Hp IH]; intros w Hw; simpl; [done|].
  unfold positive in Hl. pose proof (total_nonneg ls Hp).
  replace (Z.min (Z.min w (l_qty l + total ls)) (l_qty l)) with (Z.min w (l_qty l)) by lia.
  f_equal. rewrite <-(IH (w - Z.min w (l_qty l))) by lia. f_equal. lia.
Qed.

Lemma rest_min ls w : Forall positive ls → 0 ≤ w → rest ls (Z.min w (total ls)) = rest ls w.
Proof.
  intros Hp. revert w. induction Hp as [|l ls Hl Hp IH]; intros w Hw; simpl; [done|].
  unfold positive in Hl. pose proof (total_nonneg ls Hp).
  destruct (Z.leb_spec (l_qty l) w).
  - rewrite (proj2 (Z.leb_le _ _)) by lia. rewrite <-(IH (w - l_qty l)) by lia. f_equal. lia.
  - rewrite (proj2 (Z.leb_gt _ _)) by lia. do 2 f_equal. lia.
Qed.

Lemma take_eq s q : side_ok s → side_i64 s → i64 q →
  ∃ sw, BookSide.sweep s q = Ret sw ∧
    BookSide.take s q = Ret (sw, BookSide.with_levels s (rest (levels s) (Z.max q 0))).
Proof.
  intros Hs Hi Hq. eexists. split; [by apply sweep_eq|]. unfold BookSide.take. rewrite sweep_eq by done.
  cbn [mbind run_bind taken]. destruct Hs as [_ Hp]. pose proof (total_nonneg _ Hp).
  pose proof (take_loop_rest (levels s) (Z.min (Z.max q 0) (total (levels s))) Hp) as Ht.
  destruct (BookSide.take_loop _ _) as [l' d]. rewrite Ht, rest_min by (lia || done). done.
Qed.

(** Spreading a quantity over the levels in any other way. *)
Definition allocation (ls : list Level) (a : list Z) : Prop :=
  Forall2 (λ l x, 0 ≤ x ≤ l_qty l) ls a.

Fixpoint alloc_cost (ls : list Level) (a : list Z) : Z :=
  match ls, a with
  | l :: ls, x :: a => l_price l * x + alloc_cost ls a
  | _, _ => 0
  end.

(** [sgn] is 1 on the asks, where dearer comes later, and -1 on the bids. *)
Definition sgn_of (desc : bool) : Z := if desc then -1 else 1.

Lemma greedy_step desc ls w d p : Forall positive ls →
  Forall (λ l, sgn_of desc * p ≤ sgn_of desc * l_price l) ls →
  0 ≤ w → 0 ≤ d → w + d ≤ total ls →
  sgn_of desc * (greedy ls w + p * d) ≤ sgn_of desc * greedy ls (w + d).
Proof.
  intros Hp. revert w d. induction Hp as [|l ls Hl Hp IH]; intros w d HF Hw Hd Ht; simpl in *.
  { assert (d = 0) by lia. subst. lia. }
  apply Forall_cons in HF as [Hlp HF]. unfold positive in Hl.
  set (k := Z.min w (l_qty l)). set (k' := Z.min (w + d) (l_qty l)).
  pose proof (total_nonneg ls Hp).
  specialize (IH (w - k) (d - (k' - k)) HF ltac:(lia) ltac:(lia) ltac:(lia)).
  replace (w - k + (d - (k' - k))) with (w + d - k') in IH by lia.
  assert (sgn_of desc * p * (k' - k) ≤ sgn_of desc * l_price l * (k' - k))
    by (apply Z.mul_le_mono_nonneg_r; lia).
  lia.
Qed.

Lemma alloc_sum ls a : allocation ls a → 0 ≤ zsum a ≤ total ls.
Proof. induction 1; simpl; lia. Qed.

Lemma greedy_optimal desc ls a : Forall positive ls → StronglySorted (level_lt desc) ls →
  allocation ls a →
  sgn_of desc * greedy ls (zsum a) ≤ sgn_of desc * alloc_cost ls a.
Proof.
  intros Hp Hs. revert a. induction Hs as [|l ls Hs IH HF]; intros a Ha; simpl.
  { by inversion Ha. }
  inversion Ha as [|? x ? a' Hx Ha']; subst. simpl. apply Forall_cons in Hp as [Hl Hp]. unfold positive in Hl.
  specialize (IH Hp a' Ha'). pose proof (alloc_sum _ _ Ha').
  set (t := Z.min (x + zsum a') (l_qty l)).
  assert (sgn_of desc * (greedy ls (x + zsum a' - t) + l_price l * (t - x)) ≤
          sgn_of desc * greedy ls (x + zsum a' - t + (t - x))).
  { apply greedy_step; try done; try lia. eapply Forall_impl; [exact HF|].
    intros y. unfold level_lt, sgn_of. destruct desc; lia. }
  replace (x + zsum a' - t + (t - x)) with (zsum a') in * by lia. lia.
Qed.

Lemma greedy_alloc ls w : Forall positive ls → 0 ≤ w →
  ∃ a, allocation ls a ∧ zsum a = Z.min w (total ls) ∧ alloc_cost ls a = greedy ls w.
Proof.
  intros Hp. revert w. induction Hp as [|l ls Hl Hp IH]; intros w Hw; simpl.
  { exists []. split_and!; [constructor|simpl; lia|done]. }
  unfold positive in Hl. pose proof (total_nonneg ls Hp).
  destruct (IH (w - Z.min w (l_qty l)) ltac:(lia)) as (a & Ha & Hz & Hc).
  exists (Z.min w (l_qty l) :: a). simpl. rewrite Hz, Hc. split_and!; [|lia|done].
  constructor; [lia|done].
Qed.

(** * Following a feed *)

(** Updates applied one after another, and those that were accepted. *)
Fixpoint feed (b : VenueBook) (us : list DepthUpdate) : run (VenueBook * list DepthUpdate) :=
  match us with
  | [] => mret (b, [])
  | u :: us =>
      '(r, b') ← VenueBook.apply b u;
      '(b'', acc) ← feed b' us;
      mret (b'', match r with Ok Updated => u :: acc | _ => acc end)
  end.

(** What it means that a list of updates continues a snapshot without a
    missing one: the first starts no later than the snapshot's next
    identifier (or its predecessor is inside the snapshot) and ends after it;
    each later one names the one before as its predecessor. *)
Definition continues_from (last : Z) (u : DepthUpdate) : Prop :=
  default (satu64 (first_id u - 1)) (prev_final_id u) = last.

Fixpoint chain (last : Z) (us : list DepthUpdate) : Prop :=
  match us with
  | [] => True
  | u :: us => continues_from last u ∧ chain (final_id u) us
  end.

Definition joins (snapshot : Z) (u : DepthUpdate) : Prop :=
  snapshot < final_id u ∧
  (first_id u ≤ snapshot + 1 ∨ ∃ p, prev_final_id u = Some p ∧ p ≤ snapshot).

Definition chain_from (snapshot : Z) (last : option Z) (us : list DepthUpdate) : Prop :=
  match last, us with
  | Some l, us => chain l us
  | None, [] => True
  | None, u :: us => joins snapshot u ∧ chain (final_id u) us
  end.

Definition update_ok (u : DepthUpdate) : Prop :=
  Forall (λ l, 0 ≤ l_qty l) (u_bids u) ∧ Forall (λ l, 0 ≤ l_qty l) (u_asks u).

Definition venue_maps (b : VenueBook) : gmap Z Z * gmap Z Z :=
  (side_map (levels (vb_bids b)), side_map (levels (vb_asks b))).

Definition maps_apply (m : gmap Z Z * gmap Z Z) (u : DepthUpdate) : gmap Z Z * gmap Z Z :=
  (fold_left map_apply (u_bids u) m.1, fold_left map_apply (u_asks u) m.2).

Record venue_ok (b : VenueBook) : Prop := {
  venue_bids : side_ok (vb_bids b);
  venue_asks : side_ok (vb_asks b);
  venue_desc : descending (vb_bids b) = true ∧ descending (vb_asks b) = false;
  venue_applied : 0 ≤ applied b;
}.

(** One update: refused and nothing changes, or in sequence and applied. *)
Lemma venue_apply_spec b s u : venue_ok b → update_ok u → snapshot_id b = Some s →
  0 ≤ s < U64_MAX → applied b < U64_MAX →
  returns (VenueBook.apply b u) (λ '(r, b'), venue_ok b' ∧ snapshot_id b' = Some s ∧
    match r with
    | Ok Updated => last_id b' = Some (final_id u) ∧ applied b' = applied b + 1 ∧
        venue_maps b' = maps_apply (venue_maps b) u ∧
        chain_from s (last_id b) [u]
    | _ => b' = b
    end).
Proof.
  intros [Hb Ha Hd Hn] [Hub Hua] Hs Hs0 Hap. unfold VenueBook.apply. rewrite Hs.
  assert (∀ v, VenueBook.sequence_check b s u = Ret v →
    match v with None => chain_from s (last_id b) [u] | Some (Ok Updated) => False | _ => True end) as Hcheck.
  { intros v. unfold VenueBook.sequence_check. destruct (last_id b) as [last|].
    - destruct (Z.eqb_spec (default (satu64 (first_id u - 1)) (prev_final_id u)) last); simpl; intros [= <-]; done.
    - destruct (Z.leb_spec (final_id u) s); [by intros [= <-]|]. rewrite chk_ret by mlia. cbn [mbind run_bind].
      rewrite Z.gtb_ltb. destruct (Z.ltb_spec (s + 1) (first_id u)); simpl.
      + destruct (prev_final_id u) as [p|] eqn:Hp; simpl; [|by intros [= <-]].
        destruct (Z.leb_spec p s); simpl; intros [= <-]; [|done]. split; [|done]. split; [done|]. right. eauto.
      + intros [= <-]. split; [|done]. split; [done|]. left. lia. }
  assert (∃ v, VenueBook.sequence_check b s u = Ret v) as [v Hv].
  { unfold VenueBook.sequence_check. rewrite chk_ret by mlia. cbn [mbind run_bind]. repeat case_match; eauto. }
  rewrite Hv. specialize (Hcheck v Hv). cbn [mbind run_bind].
  destruct v as [r|].
  - apply returns_ret. split; [done|]. split; [done|]. destruct r as [[]|]; done.
  - rewrite chk_ret by mlia. cbn [mbind run_bind]. apply returns_ret. simpl.
    destruct (apply_all_refines (u_bids u) _ Hb Hub) as (B1 & B2 & B3).
    destruct (apply_all_refines (u_asks u) _ Ha Hua) as (A1 & A2 & A3).
    split; [split; simpl; [done|done| |lia]|].
    { destruct Hd. split; congruence. }
    split_and!; try done. unfold venue_maps, maps_apply. simpl. by rewrite B3, A3.
Qed.

Lemma feed_spec us b s : venue_ok b → Forall update_ok us → snapshot_id b = Some s →
  0 ≤ s < U64_MAX → applied b + Z.of_nat (length us) ≤ U64_MAX →
  returns (feed b us) (λ '(b', acc), venue_ok b' ∧
    venue_maps b' = fold_left maps_apply acc (venue_maps b) ∧
    chain_from s (last_id b) acc ∧ acc `sublist_of` us).
Proof.
  intros Hb HF. revert b Hb. induction HF as [|u us Hu HF IH]; intros b Hb Hs Hs0 Hn; cbn [feed].
  { apply returns_ret. split_and!; [done|done|by destruct (last_id b)|done]. }
  cbn [length] in Hn. apply returns_bind.
  eapply returns_mono; [apply (venue_apply_spec b s u); [done|done|done|done|lia]|].
  intros [r b1] (Hb1 & Hs1 & Hr). apply returns_bind.
  assert (applied b1 ≤ applied b + 1) by (destruct r as [[]|]; [lia|subst; lia|subst; lia]).
  eapply returns_mono; [apply (IH b1); [done|done|done|lia]|].
  intros [b2 acc] (Hb2 & Hm & Hc & Hsub). apply returns_ret. split; [done|].
  destruct r as [[]|].
  - destruct Hr as (Hl & _ & Hm1 & Hj). simpl. rewrite Hm, Hm1. split; [done|]. rewrite Hl in Hc. simpl in Hc.
    split; [|by apply sublist_skip]. destruct (last_id b); simpl in *; tauto.
  - subst b1. split_and!; [done|done|by apply sublist_cons].
  - subst b1. split_and!; [done|done|by apply sublist_cons].
Qed.

(** * Properties *)

(** C38. A sweep never overflows and takes the best prices there are: it takes
    the whole quantity or everything, says so, and no other way of taking that
    much from the levels is cheaper on the asks or dearer on the bids. *)
Theorem sweep_optimal (s : BookSide) (q : Z) (Hs : side_ok s) (Hi : side_i64 s) (Hq : i64 q) :
  returns (BookSide.sweep s q) (λ sw,
    taken sw = Z.min (Z.max q 0) (total (levels s)) ∧
    exhausted sw = (taken sw <? Z.max q 0) ∧
    (∃ a, allocation (levels s) a ∧ zsum a = taken sw ∧ alloc_cost (levels s) a = cost sw) ∧
    ∀ a, allocation (levels s) a → zsum a = taken sw →
      if descending s then alloc_cost (levels s) a ≤ cost sw else cost sw ≤ alloc_cost (levels s) a).
Proof.
  rewrite sweep_eq by done. destruct Hs as [Hs Hp]. pose proof (total_nonneg _ Hp).
  apply returns_Ret. simpl. split_and!; [done| | |].
  - destruct (Z.ltb_spec (total (levels s)) (Z.max q 0)); symmetry; [apply Z.ltb_lt|apply Z.ltb_ge]; lia.
  - by apply greedy_alloc; [|lia].
  - intros a Ha Hz. pose proof (greedy_optimal (descending s) _ a Hp Hs Ha) as Ho.
    rewrite Hz, greedy_min in Ho by (done || lia). unfold sgn_of in Ho. destruct (descending s); lia.
Qed.

(** Liquidity is not sold twice: two takes in a row get exactly what one
    sweep for the sum would have got, the second continuing where the first
    stopped, and the side they leave is sorted and without empty levels. *)
Theorem takes_compose (s : BookSide) (a b : Z) (Hs : side_ok s) (Hi : side_i64 s)
    (Ha : 0 ≤ a) (Hb : 0 ≤ b) (Hab : i64 (a + b)) :
  returns (BookSide.sweep s (a + b)) (λ sw,
    returns (BookSide.take s a) (λ '(sw1, s1),
      returns (BookSide.take s1 b) (λ '(sw2, s2),
        taken sw = taken sw1 + taken sw2 ∧ cost sw = cost sw1 + cost sw2 ∧
        exhausted sw = exhausted sw1 || exhausted sw2 ∧
        side_ok s2 ∧ total (levels s2) = total (levels s) - taken sw))).
Proof.
  assert (i64 a) as Ia by mlia. assert (i64 b) as Ib by mlia.
  rewrite sweep_eq by done. apply returns_Ret.
  destruct (take_eq s a Hs Hi Ia) as (sw1 & E1 & ->). apply returns_Ret.
  rewrite (sweep_eq s a) in E1 by done. injection E1 as <-.
  pose proof Hs as [_ Hp]. rewrite !(Z.max_l a 0), (Z.max_l (a + b)) by lia.
  set (s1 := BookSide.with_levels s (rest (levels s) a)).
  assert (side_ok s1) as Hs1 by by apply rest_ok. assert (side_i64 s1) as Hi1 by by apply rest_i64.
  destruct (take_eq s1 b Hs1 Hi1 Ib) as (sw2 & E2 & ->). apply returns_Ret.
  rewrite sweep_eq in E2 by done. injection E2 as <-. rewrite (Z.max_l b 0) by lia. simpl.
  pose proof (total_nonneg _ Hp). pose proof Hs1 as [_ Hp1]. unfold s1 in Hp1. simpl in Hp1.
  rewrite !rest_total by (done || lia). split_and!.
  - lia.
  - by apply greedy_rest.
  - destruct (Z.ltb_spec (total (levels s)) (a + b)), (Z.ltb_spec (total (levels s)) a),
      (Z.ltb_spec (total (levels s) - Z.min a (total (levels s))) b); simpl; try done; lia.
  - apply (rest_ok s1 b); [done|done].
  - lia.
Qed.


Definition demo_asks : BookSide := mkSide [mkLevel 100 5; mkLevel 101 3; mkLevel 104 10] false.

Lemma demo_asks_ok : side_ok demo_asks ∧ side_i64 demo_asks.
Proof.
  split.
  - split; [|repeat constructor]. repeat (constructor; [|repeat constructor]). constructor.
  - unfold side_i64, level_i64, demo_asks; simpl. repeat constructor; simpl; mlia.
Qed.

Lemma sweep_optimal_witness :
  side_ok demo_asks ∧ returns (BookSide.sweep demo_asks 7) (λ sw, taken sw = 7).
Proof.
  destruct demo_asks_ok as [H1 H2]. split; [exact H1|].
  eapply returns_mono; [apply (sweep_optimal demo_asks 7 H1 H2); mlia|]. intros sw (-> & _). reflexivity.
Defined.

Lemma takes_compose_witness :
  returns (BookSide.sweep demo_asks (6 + 4)) (λ sw, cost sw = 601 + 410 ∧
    returns (BookSide.take demo_asks 6) (λ '(sw1, s1),
      returns (BookSide.take s1 4) (λ '(sw2, s2), cost sw = cost sw1 + cost sw2))).
Proof.
  destruct demo_asks_ok as [H1 H2].
  pose proof (takes_compose demo_asks 6 4 H1 H2 ltac:(lia) ltac:(lia) ltac:(mlia)) as (sw & Esw & H).
  exists sw. split; [exact Esw|]. split; [vm_compute in Esw; injection Esw as <-; reflexivity|].
  eapply returns_mono; [exact H|]. intros [sw1 s1] H'. eapply returns_mono; [exact H'|].
  intros [sw2 s2] (_ & Hc & _). exact Hc.
Defined.

