(* ===== verification/DepthRead.v ===== *)
(** Reading depth messages ([oq-book/src/depth.rs]): decimals to fixed point,
    sequence numbers, and the two sides, found by scanning.

    A payload is its bytes and a text is its UTF-8 bytes; every character the
    scan looks for is ASCII, so scanning bytes is scanning characters. *)

From stdpp Require Import strings pretty.
From S2P Require Import Prelude Text Decimal Depth.
#[local] Open Scope Z_scope.

Inductive ParseError :=
| MissingField (name : text)
| BadNumber (bad : text)
| TooPrecise (bad : text) (scale : nat)
| NotDepth
| BadSequence (name : text).
#[export] Instance ParseError_eq_dec : EqDecision ParseError.
Proof. solve_decision. Defined.

(** One decimal place a turn: the digit at that place, or nothing past the end. *)
Fixpoint scale_loop (n : nat) (frac : text) (value : Z) : option Z :=
  match n with
  | O => Some value
  | S n =>
      value ← checked i64 (value * 10);
      value ← match frac with d :: _ => checked i64 (value + (d - 48)) | [] => Some value end;
      scale_loop n (tail frac) value
  end.

Definition parse_fixed s (scale : nat) : result Z ParseError :=
  let bad := Err (BadNumber s) in
  let '(negative, digits) := match s with c :: r => if c =? 45 then (true, r) else (false, s) | [] => (false, s) end in
  if bool_decide (digits = []) then bad
  else
    let '(int_part, frac_part) := default (digits, []) (split_once 46 digits) in
    if bool_decide (int_part = []) && bool_decide (frac_part = []) then bad
    else if negb (forallb is_digit int_part) || negb (forallb is_digit frac_part) then bad
    else if (scale <? length (trim_zeros frac_part))%nat then Err (TooPrecise s scale)
    else
      match (if bool_decide (int_part = []) then Some 0 else checked i64 (digits_value int_part)) ≫= scale_loop scale frac_part with
      | Some value => Ok (if negative : bool then - value else value)
      | None => bad
      end.

Record Scales := mkScales { s_price : nat; s_qty : nat }.
Definition Scales_default : Scales := mkScales 2 3.

(** [as i64] of a [u64]. *)
Definition as_i64 (z : Z) : Z := if z <=? I64_MAX then z else z - 2 ^ 64.

Fixpoint take_digits s : text := match s with c :: s => if is_digit c then c :: take_digits s else [] | [] => [] end.
(** The number after [key], past every match no digit follows. *)
Fixpoint int_field_loop (fuel : nat) s key (from : nat) : run (option Z) :=
  match fuel with
  | O => OutOfFuel
  | S fuel =>
      match find_text key (drop from s) with
      | None => mret None
      | Some pos =>
          let start := (from + pos + length key)%nat in
          let digits := take_digits (drop start s) in
          if bool_decide (digits = []) then int_field_loop fuel s key start
          else mret (checked u64 (digits_value digits))
      end
  end.
Definition int_field s key : run (option Z) := int_field_loop (S (length s)) s key 0.

(** The scan of [levels], from the bracket that opens the array. *)
Fixpoint levels_loop (scales : Scales) s (depth : Z) (pair : list text) (current : text) (in_string : bool) (out : list Level)
    : run (result (list Level) ParseError) :=
  match s with
  | [] => mret (Ok out)
  | ch :: s =>
      if ch =? 34 then
        if in_string then levels_loop scales s depth (pair ++ [current]) [] false out
        else levels_loop scales s depth pair current true out
      else if in_string then levels_loop scales s depth pair (current ++ [ch]) true out
      else if ch =? 91 then
        depth ← chk i32 (depth + 1);
        levels_loop scales s depth [] current false out
      else if ch =? 93 then
        depth ← chk i32 (depth - 1);
        if depth =? 1 then
          match pair with
          | [p; q] =>
              match parse_fixed p (s_price scales) with
              | Err e => mret (Err e)
              | Ok price =>
                  match parse_fixed q (s_qty scales) with
                  | Err e => mret (Err e)
                  | Ok qty => levels_loop scales s depth pair current false (out ++ [mkLevel price qty])
                  end
              end
          | _ => mret (Err (MissingField (text_of "price/qty pair")))
          end
        else if depth =? 0 then mret (Ok out)
        else levels_loop scales s depth pair current false out
      else levels_loop scales s depth pair current false out
  end.
Definition levels_of s key (scales : Scales) : run (result (list Level) ParseError) :=
  match find_text key s with
  | None => mret (Ok [])
  | Some pos =>
      let rest := drop (pos + length key) s in
      match find_text [91] rest with
      | None => mret (Err (MissingField (text_of "array")))
      | Some open => levels_loop scales (drop open rest) 0 [] [] false []
      end
  end.

(** [ok_or(...)?] and [?], with a panic passed on. *)
Definition need_field {A} (m : run (option Z)) (e : ParseError) (k : Z → run (result A ParseError)) : run (result A ParseError) :=
  r ← m; match r with Some z => k z | None => mret (Err e) end.
Definition and_then {A B} (m : run (result A ParseError)) (k : A → run (result B ParseError)) : run (result B ParseError) :=
  r ← m; match r with Ok a => k a | Err e => mret (Err e) end.

(** A key in its quotes, with the colon after it. *)
Definition key (x : string) : text := 34 :: text_of x ++ [34; 58].
Definition DEPTH_UPDATE : text := 34 :: text_of "depthUpdate" ++ [34].

Definition parse_depth (payload : list Z) (scales : Scales) : run (result DepthUpdate ParseError) :=
  if negb (utf8 payload) then mret (Err NotDepth)
  else match find_text DEPTH_UPDATE payload with
  | None => mret (Err NotDepth)
  | Some _ =>
      need_field (int_field payload (key "E")) (MissingField (text_of "E")) (λ e,
      need_field (int_field payload (key "U")) (MissingField (text_of "U")) (λ first,
      need_field (int_field payload (key "u")) (MissingField (text_of "u")) (λ final,
      prev ← int_field payload (key "pu");
      and_then (levels_of payload (key "b") scales) (λ bids,
      and_then (levels_of payload (key "a") scales) (λ asks,
      mret (Ok (mkUpdate (as_i64 e) first final prev bids asks)))))))
  end.

Record DepthSnapshot := mkDepthSnapshot { last_update_id : Z; ds_bids : list Level; ds_asks : list Level }.
#[export] Instance DepthSnapshot_eq_dec : EqDecision DepthSnapshot.
Proof. solve_decision. Defined.

Definition parse_snapshot (payload : list Z) (scales : Scales) : run (result DepthSnapshot ParseError) :=
  if negb (utf8 payload) then mret (Err NotDepth)
  else
    need_field (int_field payload (key "lastUpdateId")) NotDepth (λ id,
    and_then (levels_of payload (key "bids") scales) (λ bids,
    and_then (levels_of payload (key "asks") scales) (λ asks,
    mret (Ok (mkDepthSnapshot id bids asks))))).

(** * What [parse_fixed] returns *)

Lemma scale_loop_places n frac value : 0 ≤ value ≤ I64_MAX → forallb is_digit frac = true →
  scale_loop n frac value = checked i64 (value * 10 ^ Z.of_nat n + places n frac).
Proof.
  revert frac value. induction n as [|n IH]; intros frac value Hv Hf.
  { cbn [scale_loop]. unfold places. cbn [take]. change (digits_value []) with 0. change (10 ^ Z.of_nat 0) with 1.
    rewrite Z.mul_0_l, Z.add_0_r, Z.mul_1_r, checked_some by mlia. done. }
  assert (1 ≤ 10 ^ Z.of_nat n) as Hp by lia. assert (forallb is_digit (tail frac) = true) as Ht.
  { destruct frac; [done|]. by apply andb_true_iff in Hf as [_ ?]. }
  pose proof (places_nonneg n (tail frac) Ht) as Hn.
  rewrite places_S, Nat2Z.inj_succ, Z.pow_succ_r by lia. cbn [scale_loop].
  set (d := match frac with d :: _ => d - 48 | [] => 0 end).
  assert (0 ≤ d ≤ 9) as Hd.
  { subst d. destruct frac; [lia|]. apply andb_true_iff in Hf as [Hf _]. unfold is_digit in Hf. lia. }
  replace (value * (10 * 10 ^ Z.of_nat n) + (d * 10 ^ Z.of_nat n + places n (tail frac)))
    with ((value * 10 + d) * 10 ^ Z.of_nat n + places n (tail frac)) by lia.
  destruct (decide (value * 10 + d ≤ I64_MAX)) as [Hle|Hle].
  - rewrite (checked_some i64 (value * 10)) by mlia. cbn [mbind option_bind].
    assert ((match frac with d :: _ => checked i64 (value * 10 + (d - 48)) | [] => Some (value * 10) end) = Some (value * 10 + d)) as ->.
    { subst d. destruct frac; [f_equal; lia|]. apply checked_some. mlia. }
    cbn [mbind option_bind]. apply IH; [lia|done].
  - rewrite (checked_none i64 (_ + _)) by (unfold i64; nia).
    destruct (decide (value * 10 ≤ I64_MAX)); [|by rewrite checked_none by mlia].
    rewrite checked_some by mlia. cbn [mbind option_bind]. subst d. destruct frac; [lia|]. by rewrite checked_none by mlia.
Qed.

(** The three ways [parse_fixed] reads a sign, a whole and a fraction. *)
Definition fixed_of (neg : bool) (int frac : text) s (scale : nat) : result Z ParseError :=
  if (scale <? length (trim_zeros frac))%nat then Err (TooPrecise s scale)
  else
    match (if bool_decide (int = []) then Some 0 else checked i64 (digits_value int)) ≫= scale_loop scale frac with
    | Some value => Ok (signed neg value)
    | None => Err (BadNumber s)
    end.
Lemma parse_fixed_reading s n : let '(neg, int, frac) := reading s in
  parse_fixed s n =
    if bool_decide (int ++ frac = []) || negb (forallb is_digit int) || negb (forallb is_digit frac) then Err (BadNumber s)
    else fixed_of neg int frac s n.
Proof.
  unfold parse_fixed, reading. destruct (match s with c :: r => if c =? 45 then (true, r) else (false, s) | [] => (false, s) end) as [neg digits].
  case_bool_decide as Hd; [subst digits; by cbn|]. destruct (default (digits, []) (split_once 46 digits)) as [int frac].
  assert (bool_decide (int = []) && bool_decide (frac = []) = bool_decide (int ++ frac = [])) as ->.
  { destruct int, frac; done. }
  destruct (bool_decide (int ++ frac = [])); [done|]. destruct (forallb is_digit int); [|done]. destruct (forallb is_digit frac); [|done].
  by destruct neg.
Qed.
Lemma parse_fixed_cases s n :
  (∃ neg int frac, decimal s neg int frac ∧ parse_fixed s n = fixed_of neg int frac s n) ∨
  ((∀ neg int frac, ¬ decimal s neg int frac) ∧ parse_fixed s n = Err (BadNumber s)).
Proof.
  pose proof (parse_fixed_reading s n) as E. pose proof (reading_text s) as Ht. pose proof (decimal_reading s) as Hr.
  destruct (reading s) as [[neg int] frac]. rewrite E. case_bool_decide as Hn.
  { right. split; [|done]. intros a b c Hd. pose proof (Hr _ _ _ Hd) as [= -> -> ->]. by destruct Hd. }
  destruct (forallb is_digit int) eqn:E4; cbn [negb orb].
  2: { right. split; [|done]. intros a b c Hd. pose proof (Hr _ _ _ Hd) as [= -> -> ->]. destruct Hd. congruence. }
  destruct (forallb is_digit frac) eqn:E5; cbn [negb].
  2: { right. split; [|done]. intros a b c Hd. pose proof (Hr _ _ _ Hd) as [= -> -> ->]. destruct Hd. congruence. }
  left. exists neg, int, frac. done.
Qed.

Lemma parse_fixed_decimal s neg int frac n : decimal s neg int frac → parse_fixed s n = fixed_of neg int frac s n.
Proof.
  intros Hd. pose proof (parse_fixed_reading s n) as E. rewrite (decimal_reading _ _ _ _ Hd) in E. destruct Hd as [_ Hn Hi Hf].
  by rewrite E, bool_decide_false, Hi, Hf by done.
Qed.
Lemma fixed_of_value neg int frac s n : forallb is_digit int = true → forallb is_digit frac = true → (length (trim_zeros frac) ≤ n)%nat →
  ∃ w, 0 ≤ w ∧ worth int frac n w ∧ fixed_of neg int frac s n = if decide (w ≤ I64_MAX) then Ok (signed neg w) else Err (BadNumber s).
Proof.
  intros Hi Hf Hn. exists (digits_value int * 10 ^ Z.of_nat n + places n frac).
  pose proof (digits_value_bound int Hi) as Hb. pose proof (places_nonneg n frac Hf) as Hp.
  assert (1 ≤ 10 ^ Z.of_nat n) by lia. assert (0 ≤ digits_value int * 10 ^ Z.of_nat n) by nia.
  split; [lia|]. split; [by apply worth_places|].
  unfold fixed_of. destruct (Nat.ltb_spec n (length (trim_zeros frac))) as [|_]; [lia|].
  assert ((if bool_decide (int = []) then Some 0 else checked i64 (digits_value int)) = checked i64 (digits_value int)) as ->.
  { case_bool_decide as E; [by subst int|done]. }
  destruct (decide (digits_value int ≤ I64_MAX)) as [Hm|Hm].
  - rewrite (checked_some i64 (digits_value int)) by mlia. cbn [mbind option_bind]. rewrite scale_loop_places by (done || lia).
    unfold checked. do 2 case_decide; try done; unfold i64 in *; lia.
  - rewrite (checked_none i64 (digits_value int)) by mlia. cbn [mbind option_bind]. rewrite decide_False by nia. done.
Qed.
(** A number is read exactly or refused: what [parse_fixed] returns is worth
    what the text says, in units of the scale; a text is too precise only when
    no integer at that scale is worth it; a text refused as a bad number is not
    a plain decimal, or is worth more than an [i64] holds. *)
Theorem parse_fixed_is_exact s n :
  match parse_fixed s n with
  | Ok v => ∃ neg int frac w, decimal s neg int frac ∧ worth int frac n w ∧ 0 ≤ w ≤ I64_MAX ∧ v = signed neg w
  | Err (TooPrecise t m) => t = s ∧ m = n ∧ ∃ neg int frac, decimal s neg int frac ∧ ∀ w, ¬ worth int frac n w
  | Err (BadNumber t) => t = s ∧ ∀ neg int frac, decimal s neg int frac → ∃ w, worth int frac n w ∧ I64_MAX < w
  | Err _ => False
  end.
Proof.
  destruct (parse_fixed_cases s n) as [(neg & int & frac & Hd & ->)|[H ->]]; [|split; [done|]; intros a b c Hc; by destruct (H a b c)].
  pose proof Hd as [_ _ Hi Hf]. destruct (Nat.leb_spec (length (trim_zeros frac)) n) as [Hn|Hn].
  - destruct (fixed_of_value neg int frac s n Hi Hf Hn) as (w & H0 & Hw & ->). case_decide as Hm.
    + exists neg, int, frac, w. auto.
    + split; [done|]. intros a b c Hc. pose proof (decimal_reading _ _ _ _ Hd) as E. rewrite (decimal_reading _ _ _ _ Hc) in E. injection E as -> -> ->.
      exists w. split; [done|lia].
  - unfold fixed_of. rewrite (proj2 (Nat.ltb_lt _ _)) by done. split_and!; [done|done|]. exists neg, int, frac. split; [done|].
    intros w. by apply too_precise_inexact.
Qed.

(** * What follows a key *)

Definition after needle s : option text :=
  match find_text needle s with Some k => Some (drop (k + length needle) s) | None => None end.
(** A quoted text. *)
Definition q (w : text) : text := 34 :: w ++ [34].
Definition plain (w : text) : Prop := 34 ∉ w.
#[export] Instance plain_dec w : Decision (plain w).
Proof. unfold plain; apply _. Defined.
#[export] Instance ascii_dec s : Decision (ascii s).
Proof. unfold ascii; apply _. Defined.
Definition key_of (k : text) : text := q k ++ [58].

Lemma find_text_at needle pre s : starts_with s needle = true → find_text needle (pre ++ s) ≠ None.
Proof.
  intros H. induction pre as [|c pre IH]; cbn [app].
  - destruct s; cbn [find_text]; by rewrite H.
  - cbn [find_text]. destruct (starts_with (c :: pre ++ s) needle); [done|]. by destruct (find_text needle (pre ++ s)).
Qed.
Lemma starts_with_app needle s : starts_with (needle ++ s) needle = true.
Proof. unfold starts_with. apply bool_decide_eq_true. by rewrite take_app_length. Qed.
Lemma after_here needle s : after needle (needle ++ s) = Some s.
Proof.
  unfold after. assert (find_text needle (needle ++ s) = Some 0%nat) as ->.
  { pose proof (starts_with_app needle s) as H. destruct (needle ++ s); cbn [find_text]; by rewrite H. }
  by rewrite Nat.add_0_l, drop_app_length.
Qed.
Lemma after_cons needle c s : starts_with (c :: s) needle = false → after needle (c :: s) = after needle s.
Proof. intros H. unfold after. cbn [find_text]. rewrite H. by destruct (find_text needle s). Qed.
Lemma starts_with_cons c s a needle : starts_with (c :: s) (a :: needle) = (c =? a) && starts_with s needle.
Proof.
  unfold starts_with. cbn [length take]. destruct (Z.eqb_spec c a) as [->|Hn]; cbn [andb].
  - apply bool_decide_ext. split; congruence.
  - apply bool_decide_eq_false. congruence.
Qed.

Section keys.
Context (k : text) (k0 : Z) (kr : text) (Hk : k = k0 :: kr) (Hplain : plain k).

Lemma after_skip c s : c ≠ 34 → after (key_of k) (c :: s) = after (key_of k) s.
Proof. intros Hc. apply after_cons. unfold key_of, q. cbn [app]. rewrite starts_with_cons. by destruct (Z.eqb_spec c 34). Qed.
Lemma after_word w s : plain w → after (key_of k) (w ++ s) = after (key_of k) s.
Proof.
  unfold plain. induction w as [|c w IH]; [done|]. rewrite not_elem_of_cons. intros [Hc Hw]. cbn [app].
  rewrite after_skip by done. auto.
Qed.
Lemma key_prefix w c s n : plain w → plain n → starts_with (w ++ 34 :: c :: s) (n ++ [34; 58]) = true → w = n ∧ c = 58.
Proof.
  unfold plain. revert w. induction n as [|x n IH]; intros w Hw Hn H.
  - destruct w as [|y w]; cbn [app] in H; rewrite starts_with_cons in H; apply andb_true_iff in H as [H1 H2]; apply Z.eqb_eq in H1.
    + rewrite starts_with_cons in H2. apply andb_true_iff in H2 as [H2 _]. by apply Z.eqb_eq in H2.
    + subst y. rewrite elem_of_cons in Hw. destruct Hw. by left.
  - rewrite not_elem_of_cons in Hn. destruct Hn as [Hx Hn]. destruct w as [|y w]; cbn [app] in H; rewrite starts_with_cons in H; apply andb_true_iff in H as [H1 H2]; apply Z.eqb_eq in H1; [done|].
    rewrite not_elem_of_cons in Hw. destruct (IH w) as [-> ->]; [tauto|done..|by subst].
Qed.
(** A text in quotes that is not the key is passed over. *)
Lemma after_string w c s : plain w → w ≠ k ∨ c ≠ 58 → c ≠ k0 → c ≠ 34 → after (key_of k) (q w ++ c :: s) = after (key_of k) s.
Proof using Hk Hplain.
  intros Hw Hne Hc0 Hc. unfold q. rewrite <-app_comm_cons, <-app_assoc. cbn [app].
  rewrite after_cons.
  - rewrite after_word by done. rewrite after_cons; [by apply after_skip|].
    unfold key_of, q. rewrite Hk. cbn [app]. rewrite !starts_with_cons. by destruct (Z.eqb_spec c k0); [|rewrite andb_false_r].
  - destruct (starts_with (34 :: w ++ 34 :: c :: s) (key_of k)) eqn:E; [|done]. exfalso. unfold key_of, q in E.
    rewrite <-app_comm_cons, <-app_assoc, starts_with_cons in E. cbn [app] in E. apply andb_true_iff in E as [_ E].
    apply key_prefix in E as [-> ->]; [|done|done]. tauto.
Qed.
Lemma after_key_here s : after (key_of k) (q k ++ 58 :: s) = Some s.
Proof. change (58 :: s) with ([58] ++ s). rewrite app_assoc. apply after_here. Qed.
End keys.

Lemma int_field_after s k z rest : after k s = Some (z ++ rest) → z ≠ [] → forallb is_digit z = true → (∀ c r, rest = c :: r → is_digit c = false) →
  int_field s k = Ret (checked u64 (digits_value z)).
Proof.
  intros Ha Hz Hd Hr. unfold int_field. cbn [int_field_loop]. rewrite drop_0. unfold after in Ha.
  destruct (find_text k s) as [pos|]; [|done]. injection Ha as Ha. cbn [Nat.add]. rewrite Ha.
  assert (take_digits (z ++ rest) = z) as E.
  { clear Ha Hz. induction z as [|c z IH]; cbn [app].
    - destruct rest as [|c r]; [done|]. cbn [take_digits]. by rewrite (Hr c r).
    - cbn [forallb] in Hd. apply andb_true_iff in Hd as [Hc Hd]. cbn [take_digits]. by rewrite Hc, IH. }
  rewrite E, bool_decide_false by done. done.
Qed.
Lemma int_field_absent s k : after k s = None → int_field s k = Ret None.
Proof. intros H. unfold int_field. cbn [int_field_loop]. rewrite drop_0. unfold after in H. by destruct (find_text k s). Qed.

(** * What a venue writes *)

(** A number at a scale, with all its decimals. *)
Definition fixed_text (n : nat) (v : Z) : text :=
  let w := Z.abs v in
  (if v <? 0 then [45] else []) ++ shown (w / 10 ^ Z.of_nat n) ++
  (if (n =? 0)%nat then [] else 46 :: padded n (w mod 10 ^ Z.of_nat n)).
Definition level_text (sc : Scales) (l : Level) : text :=
  [91] ++ q (fixed_text (s_price sc) (l_price l)) ++ [44] ++ q (fixed_text (s_qty sc) (l_qty l)) ++ [93].
Fixpoint level_list (sc : Scales) (ls : list Level) : text :=
  match ls with [] => [] | [l] => level_text sc l | l :: ls => level_text sc l ++ [44] ++ level_list sc ls end.
Definition side_text (sc : Scales) (ls : list Level) : text := [91] ++ level_list sc ls ++ [93].
Definition member (k : string) (v : text) : text := key k ++ v ++ [44].
Definition depth_text (symbol : text) (sc : Scales) (u : DepthUpdate) : text :=
  [123] ++ member "e" (q (text_of "depthUpdate")) ++ member "E" (shown (event_ms u)) ++ member "s" (q symbol) ++
  member "U" (shown (first_id u)) ++ member "u" (shown (final_id u)) ++
  match prev_final_id u with Some p => member "pu" (shown p) | None => [] end ++
  member "b" (side_text sc (u_bids u)) ++ key "a" ++ side_text sc (u_asks u) ++ [125].
Definition snapshot_text (sc : Scales) (d : DepthSnapshot) : text :=
  [123] ++ member "lastUpdateId" (shown (last_update_id d)) ++ member "bids" (side_text sc (ds_bids d)) ++
  key "asks" ++ side_text sc (ds_asks d) ++ [125].

Definition level_fits (l : Level) : Prop := Z.abs (l_price l) ≤ I64_MAX ∧ Z.abs (l_qty l) ≤ I64_MAX.

Lemma digits_plain s : forallb is_digit s = true → plain s.
Proof. intros H. by apply digits_none. Qed.

(** What is written at a scale is read back at it. *)
Lemma parse_fixed_text n v : Z.abs v ≤ I64_MAX → parse_fixed (fixed_text n v) n = Ok v.
Proof.
  intros Hv. set (w := Z.abs v). set (p := 10 ^ Z.of_nat n). assert (0 < p) as Hp by (subst p; lia).
  pose proof (Z.div_mod w p ltac:(lia)) as Hdm. pose proof (Z.mod_pos_bound w p Hp) as Hm. pose proof (Z.div_pos w p ltac:(lia) Hp) as Hq.
  destruct (shown_number (w / p) Hq) as (Hn0 & Hd & Hv0).
  set (frac := if (n =? 0)%nat then [] else padded n (w mod p)).
  assert (length frac = n ∧ forallb is_digit frac = true ∧ digits_value frac = w mod p) as (Hl & Hf & Hfv).
  { subst frac. destruct (Nat.eqb_spec n 0) as [->|].
    - split_and!; [done..|]. change p with 1. by rewrite Z.mod_1_r.
    - apply padded_spec; [done|lia]. }
  assert (decimal (fixed_text n v) (v <? 0) (shown (w / p)) frac) as Hdec.
  { split; [|by intros [? _]%app_nil|done|done]. exists (if (n =? 0)%nat then [] else 46 :: padded n (w mod p)). split; [done|].
    subst frac. destruct (n =? 0)%nat; auto. }
  assert (worth (shown (w / p)) frac n w) as Hw.
  { unfold worth. rewrite digits_value_app, Hv0, Hfv, Hl. fold p. nia. }
  rewrite (parse_fixed_decimal _ _ _ _ n Hdec). destruct (fixed_of_value (v <? 0) (shown (w / p)) frac (fixed_text n v) n Hd Hf) as (w' & H0 & Hw' & ->).
  { destruct (trim_zeros_spec frac) as (k & Hk & _). apply (f_equal length) in Hk. rewrite length_app in Hk. lia. }
  rewrite (worth_unique _ _ _ _ _ Hw' Hw), decide_True by done. unfold signed. subst w. destruct (Z.ltb_spec v 0); f_equal; lia.
Qed.
Lemma fixed_text_ascii n v : ascii (fixed_text n v).
Proof.
  unfold fixed_text. repeat apply ascii_app; [destruct (v <? 0); repeat constructor; lia|apply shown_ascii|].
  destruct (n =? 0)%nat; [constructor|]. constructor; [lia|]. unfold padded. apply ascii_app; [|apply shown_ascii].
  apply Forall_replicate. lia.
Qed.
Lemma fixed_text_plain n v : plain (fixed_text n v).
Proof.
  assert (∀ z, 0 ≤ z → plain (shown z)) as Hs by (intros z Hz; by apply digits_plain, shown_number).
  unfold plain, fixed_text, padded. set (w := Z.abs v). rewrite !elem_of_app. intros [H|[H|H]].
  - destruct (v <? 0); set_solver.
  - revert H. apply Hs. apply Z.div_pos; lia.
  - destruct (n =? 0)%nat; [set_solver|]. rewrite elem_of_cons, elem_of_app, elem_of_replicate in H. destruct H as [H|[[H _]|H]]; [done..|].
    revert H. apply Hs. apply Z.mod_pos_bound. lia.
Qed.

(** Reading the levels of a side. *)
Lemma levels_word sc w s depth pair current out : plain w →
  levels_loop sc (w ++ s) depth pair current true out = levels_loop sc s depth pair (current ++ w) true out.
Proof.
  unfold plain. revert current. induction w as [|c w IH]; intros current; [by rewrite app_nil_r|]. rewrite not_elem_of_cons. intros [Hc Hw].
  cbn [app levels_loop]. destruct (Z.eqb_spec c 34); [done|]. by rewrite IH, <-app_assoc.
Qed.
Lemma levels_string sc w s depth pair out : plain w →
  levels_loop sc (q w ++ s) depth pair [] false out = levels_loop sc s depth (pair ++ [w]) [] false out.
Proof. intros Hw. unfold q. rewrite <-app_comm_cons, <-app_assoc. cbn [levels_loop Z.eqb]. by rewrite levels_word. Qed.
Lemma levels_level sc l s pair out : level_fits l →
  levels_loop sc (level_text sc l ++ s) 1 pair [] false out = levels_loop sc s 1 [fixed_text (s_price sc) (l_price l); fixed_text (s_qty sc) (l_qty l)] [] false (out ++ [l]).
Proof.
  intros [Hp Hq]. unfold level_text. rewrite <-!app_assoc. change (levels_loop sc ([91] ++ ?x) 1 pair [] false out) with (levels_loop sc x 2 [] [] false out).
  rewrite levels_string by apply fixed_text_plain. cbn [app levels_loop]. change (44 =? 34) with false. cbn iota. change (44 =? 91) with false. change (44 =? 93) with false. cbn iota.
  rewrite levels_string by apply fixed_text_plain. cbn [app levels_loop].
  change (93 =? 34) with false. change (93 =? 91) with false. change (93 =? 93) with true. cbn iota. change (chk i32 (2 - 1)) with (Ret 1). cbn [mbind run_bind].
  change (1 =? 1) with true. cbn iota. rewrite !parse_fixed_text by done. by destruct l.
Qed.
Lemma levels_side sc ls s pair out : Forall level_fits ls → levels_loop sc (level_list sc ls ++ 93 :: s) 1 pair [] false out = Ret (Ok (out ++ ls)).
Proof.
  intros H. revert pair out. induction H as [|l ls Hl _ IH]; intros pair out; [by rewrite app_nil_r|].
  destruct ls as [|l' ls].
  - cbn [level_list]. by rewrite levels_level.
  - change (level_list sc (l :: l' :: ls)) with (level_text sc l ++ 44 :: level_list sc (l' :: ls)). rewrite <-app_assoc, levels_level by done.
    rewrite <-app_comm_cons. cbn [levels_loop]. change (44 =? 34) with false. change (44 =? 91) with false. change (44 =? 93) with false. cbn iota.
    rewrite IH, <-app_assoc. done.
Qed.
Lemma levels_of_after s k sc ls rest : after k s = Some (side_text sc ls ++ rest) → Forall level_fits ls → levels_of s k sc = Ret (Ok ls).
Proof.
  unfold after, levels_of. destruct (find_text k s) as [pos|]; [|done]. intros [= E] H. cbn zeta. rewrite E. unfold side_text.
  rewrite <-!app_assoc. cbn [app find_text]. rewrite starts_with_cons, Z.eqb_refl. cbn [andb]. change (starts_with ?x []) with true. cbn iota.
  rewrite drop_0. cbn [levels_loop]. change (91 =? 34) with false. change (91 =? 91) with true. cbn iota. change (chk i32 (0 + 1)) with (Ret 1).
  cbn [mbind run_bind]. by rewrite levels_side.
Qed.

Section members.
Context (k0 : Z) (kr : text) (Hletter : 65 ≤ k0 ≤ 90 ∨ 97 ≤ k0 ≤ 122) (Hplain : plain (k0 :: kr)).
Notation K := (key_of (k0 :: kr)).

(** A value that holds nothing like the key. *)
Definition passed (v : text) : Prop := ∀ c s, c = 44 ∨ c = 125 → after K (v ++ c :: s) = after K s.
Lemma passed_word w : plain w → passed w.
Proof. intros Hw c s Hc. rewrite after_word by done. apply after_skip. lia. Qed.
Lemma passed_string w : plain w → passed (q w).
Proof using Hletter Hplain. intros Hw c s Hc. eapply after_string; [done|done|done|right; lia|lia|lia]. Qed.
Lemma passed_side sc ls : passed (side_text sc ls).
Proof using Hletter Hplain.
  intros c s Hc. unfold side_text. rewrite <-!app_assoc. cbn [app]. rewrite after_skip by done.
  assert (∀ l r, after K (level_text sc l ++ r) = after K r) as Hl.
  { intros l r. unfold level_text. rewrite <-!app_assoc. cbn [app]. rewrite after_skip by done.
    rewrite (after_string _ k0 kr) by (done || apply fixed_text_plain || (right; lia) || lia).
    by rewrite (after_string _ k0 kr) by (done || apply fixed_text_plain || (right; lia) || lia). }
  assert (after K (level_list sc ls ++ 93 :: c :: s) = after K (93 :: c :: s)) as ->.
  { induction ls as [|l ls IH]; [done|]. destruct ls as [|l' ls]; [apply Hl|].
    change (level_list sc (l :: l' :: ls)) with (level_text sc l ++ 44 :: level_list sc (l' :: ls)).
    rewrite <-app_assoc, Hl, <-app_comm_cons, after_skip by done. apply IH. }
  rewrite !after_skip by lia. done.
Qed.
Lemma after_field x v c s : plain (text_of x) → text_of x ≠ k0 :: kr → passed v → c = 44 ∨ c = 125 →
  after K (key x ++ v ++ c :: s) = after K s.
Proof using Hletter Hplain.
  intros Hx Hne Hv Hc. change (key x) with (34 :: text_of x ++ [34; 58]).
  replace ((34 :: text_of x ++ [34; 58]) ++ v ++ c :: s) with (q (text_of x) ++ 58 :: v ++ c :: s).
  2: { unfold q. rewrite <-!app_comm_cons, <-!app_assoc. done. }
  rewrite (after_string _ k0 kr) by (done || (left; done) || lia). by apply Hv.
Qed.
Lemma after_member x v s : plain (text_of x) → text_of x ≠ k0 :: kr → passed v → after K (member x v ++ s) = after K s.
Proof using Hletter Hplain. intros. unfold member. rewrite <-!app_assoc. cbn [app]. apply after_field; auto. Qed.
End members.

Lemma after_found x s : after (key x) (key x ++ s) = Some s.
Proof. apply after_here. Qed.
Lemma key_is x : key x = key_of (text_of x).
Proof. unfold key, key_of, q. by rewrite <-app_comm_cons, <-app_assoc. Qed.

Lemma int_field_member x z rest s : 0 ≤ z → after (key x) s = Some (shown z ++ 44 :: rest) → int_field s (key x) = Ret (checked u64 z).
Proof.
  intros Hz Ha. destruct (shown_number z Hz) as (Hn & Hd & Hv). rewrite (int_field_after s (key x) (shown z) (44 :: rest)); [by rewrite Hv|done..|].
  by intros c r [= <- _].
Qed.
Lemma checked_u64 z : u64 z → checked u64 z = Some z.
Proof. intros. unfold checked. by rewrite decide_True. Qed.

(** Pass over the members before the one looked for. *)
Ltac pass := first [lia | assumption | by apply (bool_decide_unpack _) | by left | by right].
Ltac value := first
  [ apply passed_word, digits_plain, shown_number; lia
  | apply passed_string; pass
  | apply passed_side; pass ].
Ltac seek k0 kr :=
  match goal with
  | |- after (key ?x) _ = ?r =>
      change (key x) with (key_of (k0 :: kr)); cbn [app]; rewrite after_skip by done;
      repeat (rewrite (after_member k0 kr) by first [pass | value]);
      try (change (key_of (k0 :: kr)) with (key x); unfold member; rewrite <-?app_assoc; apply after_found)
  end.

(** The payload is ASCII. *)
Lemma ascii_q w : ascii w → ascii (q w).
Proof. intros. constructor; [lia|]. apply ascii_app; [done|repeat constructor; lia]. Qed.
Lemma ascii_key x : ascii (text_of x) → ascii (key x).
Proof. intros. constructor; [lia|]. apply ascii_app; [done|repeat constructor; lia]. Qed.
Lemma ascii_member x v : ascii (text_of x) → ascii v → ascii (member x v).
Proof. intros. unfold member. apply ascii_app; [by apply ascii_key|]. apply ascii_app; [done|repeat constructor; lia]. Qed.
Lemma ascii_side sc ls : ascii (side_text sc ls).
Proof.
  assert (∀ l, ascii (level_text sc l)) as Hl.
  { intros l. unfold level_text. repeat apply ascii_app; try (apply ascii_q, fixed_text_ascii); repeat constructor; lia. }
  unfold side_text. apply ascii_app; [repeat constructor; lia|apply ascii_app; [|repeat constructor; lia]].
  induction ls as [|l ls IH]; [constructor|]. destruct ls as [|l' ls]; [apply Hl|].
  change (level_list sc (l :: l' :: ls)) with (level_text sc l ++ [44] ++ level_list sc (l' :: ls)).
  apply ascii_app; [apply Hl|apply ascii_app; [repeat constructor; lia|apply IH]].
Qed.
Ltac written := repeat first
  [ apply ascii_side | apply shown_ascii | apply ascii_q | assumption
  | apply ascii_member; [by apply (bool_decide_unpack _)|] | apply ascii_key; by apply (bool_decide_unpack _)
  | by apply (bool_decide_unpack _) | apply ascii_app ].

Lemma needs_field {A} (m : run (option Z)) z (e : ParseError) (k : Z → run (result A ParseError)) : m = Ret (Some z) → need_field m e k = k z.
Proof. by intros ->. Qed.
Lemma and_then_ok {A B} (m : run (result A ParseError)) a (k : A → run (result B ParseError)) : m = Ret (Ok a) → and_then m k = k a.
Proof. by intros ->. Qed.
Lemma int_field_found x s z rest : u64 z → after (key x) s = Some (shown z ++ [44] ++ rest) → int_field s (key x) = Ret (Some z).
Proof. intros Hz H. rewrite (int_field_member x z rest s); [by rewrite checked_u64|mlia|done]. Qed.


Definition demo_update : DepthUpdate :=
  mkUpdate 1700000000123 157 160 (Some 156) [mkLevel 6309010 1500; mkLevel 6309000 0] [mkLevel 6309020 (-25)].

(** And so does a snapshot. *)
Theorem snapshot_reads_back sc d :
  u64 (last_update_id d) → Forall level_fits (ds_bids d) → Forall level_fits (ds_asks d) →
  parse_snapshot (snapshot_text sc d) sc = Ret (Ok d).
Proof.
  intros Hi Hb Hk. destruct d as [id bids asks]. cbn [last_update_id ds_bids ds_asks] in *. assert (0 ≤ id) as H0 by mlia.
  assert (snapshot_text sc (mkDepthSnapshot id bids asks) = [123] ++ member "lastUpdateId" (shown id) ++ member "bids" (side_text sc bids) ++
    key "asks" ++ side_text sc asks ++ [125]) as -> by done.
  set (payload := [123] ++ _). assert (utf8 payload = true) as Hu by (apply ascii_utf8; subst payload; written).
  unfold parse_snapshot. rewrite Hu. cbn [negb].
  rewrite (needs_field _ id) by (eapply (int_field_found "lastUpdateId"); [done|]; subst payload; seek 108 [97; 115; 116; 85; 112; 100; 97; 116; 101; 73; 100]).
  assert (levels_of payload (key "bids") sc = Ret (Ok bids)) as Hlb by (eapply levels_of_after; [|done]; subst payload; seek 98 [105; 100; 115]).
  assert (levels_of payload (key "asks") sc = Ret (Ok asks)) as Hla by (eapply levels_of_after; [|done]; subst payload; seek 97 [115; 107; 115]).
  by rewrite (and_then_ok _ bids _ Hlb), (and_then_ok _ asks _ Hla).
Qed.

(** The shapes a venue sends that are refused, and some that are not. *)
Example fixed_vectors :
  (λ p, parse_fixed (text_of p.1) p.2) <$> [("63090.10", 2%nat); ("1.500", 2%nat); ("-0.5", 1%nat); (".5", 1%nat); ("5.", 0%nat)]%string =
  [Ok 6309010; Ok 150; Ok (-5); Ok 5; Ok 5].
Proof. by vm_compute. Qed.
Example fixed_refused :
  (λ p, parse_fixed (text_of p.1) p.2) <$> [("1.505", 2%nat); (".", 2%nat); ("--1", 2%nat); ("1e3", 2%nat); ("92233720368547758.08", 2%nat)]%string =
  [Err (TooPrecise (text_of "1.505") 2); Err (BadNumber (text_of ".")); Err (BadNumber (text_of "--1")); Err (BadNumber (text_of "1e3"));
   Err (BadNumber (text_of "92233720368547758.08"))].
Proof. by vm_compute. Qed.
(** A sequence number that is too large is reported as a field that is absent,
    and the most negative price is refused although an [i64] holds it. *)
Example large_id_is_missing :
  parse_snapshot (text_of "{" ++ key "lastUpdateId" ++ text_of "18446744073709551616}") Scales_default = Ret (Err NotDepth).
Proof. by vm_compute. Qed.
