(* ===== verification/L1.v ===== *)
(** The assumption tier ([oq-engine/src/l1.rs]): a queue ahead of each order,
    entry and response latency, and impact on takers, around an unchanged L0
    engine.  Impact is computed in IEEE-754 binary64, here with the
    executable floats of the Standard Library ([SpecFloat], 53 bits of
    precision, round to nearest even). *)

From Stdlib Require Import Floats.SpecFloat.
From S2P Require Import Prelude Slices Floats Types Order Tick RestingBook L0.

(** * The policy *)

Inductive QueueAhead := NoQueue | FixedQueue (q : QtyLots) | VolumeMultiple (m : Z).

Inductive Delay := FixedDelay (n : Nanos) | Measured (p50 p90 p99 p999 : Nanos).

#[export] Instance QueueAhead_eq_dec : EqDecision QueueAhead.
Proof. solve_decision. Defined.
#[export] Instance Delay_eq_dec : EqDecision Delay.
Proof. solve_decision. Defined.

(** Wrapping 64-bit arithmetic of the mixer. *)
Definition mix (z : Z) : Z :=
  let z := as_u64 (z + 0x9E3779B97F4A7C15) in
  let x := as_u64 (Z.lxor z (Z.shiftr z 30) * 0xBF58476D1CE4E5B9) in
  let x := as_u64 (Z.lxor x (Z.shiftr x 27) * 0x94D049BB133111EB) in
  Z.lxor x (Z.shiftr x 31).

Module Delay.
Definition at_ (d : Delay) (key : Z) : Nanos :=
  match d with
  | FixedDelay n => n
  | Measured p50 p90 p99 p999 =>
      let u := mix key mod 1000 in
      if u <? 500 then p50 else if u <? 900 then p90 else if u <? 990 then p99 else p999
  end.

Definition is_zero (d : Delay) : bool :=
  match d with
  | FixedDelay n => n =? 0
  | Measured p50 p90 p99 p999 => (p50 =? 0) && (p90 =? 0) && (p99 =? 0) && (p999 =? 0)
  end.

Definition worst (d : Delay) : Nanos :=
  match d with FixedDelay n => n | Measured _ _ _ p999 => p999 end.
End Delay.

Record Latency := mkLatency { entry_delay : Delay; response : Delay }.
Record Policy := mkPolicy { queue : QueueAhead; latency : Latency; coefficient : Z }.

#[export] Instance Latency_eq_dec : EqDecision Latency.
Proof. solve_decision. Defined.
#[export] Instance Policy_eq_dec : EqDecision Policy.
Proof. solve_decision. Defined.

Definition TRANSPARENT : Policy := mkPolicy NoQueue (mkLatency (FixedDelay 0) (FixedDelay 0)) 0.
Definition models_nothing (p : Policy) : bool := bool_decide (p = TRANSPARENT).

(** * The engine *)

Record Pending := mkPending {
  measured_ahead : option Z;
  sample_at_arrival : bool;
  p_since : option Nanos;
  live_at : Nanos;
  p_order : Working;
}.

Record Queued := mkQueued { q_remaining : Z; q_since : option Nanos; q_order : Working }.

Record Delayed := mkDelayed { known_at : Nanos; d_fill : L0Fill }.

Record L1Engine := mkL1 {
  inner : L0Engine;
  policy : Policy;
  pending : list Pending;
  queued : list Queued;
  delayed : list Delayed;
  released : list L0Fill;
  prev_volume : option QtyLots;
  last_traded : option Z;
  prev_at : option Nanos;
}.

(** A closure that may keep state between calls, as [FnMut] does. *)
Definition Measure (St : Type) := St → Side → QtyLots → run (option PriceTicks * St).

Module L1.
Definition new (i : InstrumentId) (p : Policy) : L1Engine :=
  mkL1 (L0.new i) p [] [] [] [] None None None.

Definition set_inner (e : L1Engine) (i : L0Engine) : L1Engine :=
  mkL1 i (policy e) (pending e) (queued e) (delayed e) (released e) (prev_volume e) (last_traded e) (prev_at e).
Definition set_pending (e : L1Engine) (p : list Pending) : L1Engine :=
  mkL1 (inner e) (policy e) p (queued e) (delayed e) (released e) (prev_volume e) (last_traded e) (prev_at e).
Definition set_queued (e : L1Engine) (q : list Queued) : L1Engine :=
  mkL1 (inner e) (policy e) (pending e) q (delayed e) (released e) (prev_volume e) (last_traded e) (prev_at e).

(** The policy's guess; the product is a bare multiplication. *)
Definition assumed_ahead (q : QueueAhead) (arrival_volume : option Z) : run Z :=
  match q with
  | NoQueue => mret 0
  | FixedQueue q => mret q
  | VolumeMultiple m => v ← chk64 (m * default 0 arrival_volume); mret (Z.quot v 100)
  end.

Definition admit_order (e : L1Engine) (order : Working) (arrival_volume : option Z)
    (measured : option Z) (since : option Nanos) : run L1Engine :=
  ahead ← match w_price order, measured with
          | None, _ => mret 0
          | Some _, Some m => mret (Z.max m 0)
          | Some _, None => assumed_ahead (queue (policy e)) arrival_volume
          end;
  if ahead >? 0 then
    let since := match measured with Some _ => since | None => None end in
    mret (set_queued e (queued e ++ [mkQueued ahead since order]))
  else i ← L0.submit (inner e) order; mret (set_inner e i).

Definition submit_queue (e : L1Engine) (order : Working) (now : Nanos) (ahead : option Z)
    (sample : bool) : run L1Engine :=
  let delay := Delay.at_ (entry_delay (latency (policy e))) (w_id order) in
  if (if sample then delay >? 0 else negb (Delay.is_zero (entry_delay (latency (policy e))))) then
    let live := sat64 (now + delay) in
    mret (set_pending e (pending e ++
      [mkPending ahead sample (if sample then Some live else None) live order]))
  else
    admit_order e order (last_traded e) ahead (if sample then Some now else None).

Definition submit_with_queue (e : L1Engine) (order : Working) (now : Nanos) (ahead : option Z) :=
  submit_queue e order now ahead false.
Definition submit_from_book (e : L1Engine) (order : Working) (now : Nanos) (ahead : option Z) :=
  submit_queue e order now ahead true.
Definition submit (e : L1Engine) (order : Working) (now : Nanos) : run L1Engine :=
  submit_with_queue e order now None.

Definition submit_while_depth_invalid (e : L1Engine) (order : Working) (now : Nanos) : L1Engine :=
  let live := sat64 (now + Delay.at_ (entry_delay (latency (policy e))) (w_id order)) in
  set_pending e (pending e ++ [mkPending None true (Some live) live order]).

Definition sample_arrivals (e : L1Engine) (now : Nanos)
    (q : Side → PriceTicks → option Z) : L1Engine :=
  set_pending e ((λ p,
    if sample_at_arrival p && (live_at p <=? now) then
      mkPending (price ← w_price (p_order p); q (w_side (p_order p)) price) false
        (p_since p) (live_at p) (p_order p)
    else p) <$> pending e).

Definition cancel (e : L1Engine) (id : OrderId) : bool * L1Engine :=
  let pending' := filter (λ p, w_id (p_order p) ≠ id) (pending e) in
  let queued' := filter (λ q, w_id (q_order q) ≠ id) (queued e) in
  let e' := set_queued (set_pending e pending') queued' in
  if (length pending' + length queued' <? length (pending e) + length (queued e))%nat
  then (true, e')
  else let '(b, i) := L0.cancel (inner e) id in (b, set_inner e' i).

Definition cancel_all (e : L1Engine) : nat * L1Engine :=
  let in_flight := (length (pending e) + length (queued e))%nat in
  let '(n, i) := L0.cancel_all (inner e) in
  ((in_flight + n)%nat, set_inner (set_queued (set_pending e []) []) i).

Definition shadowed (e : L1Engine) : nat := (length (pending e) + length (queued e))%nat.

Definition on_invalid_tick (e : L1Engine) (t : Tick) : list L0Fill * L1Engine :=
  let now := exch (t_stamp t) in
  let out := d_fill <$> filter (λ d, known_at d ≤ now) (delayed e) in
  (out, mkL1 (L0.forget_price_path (inner e)) (policy e) (pending e) (queued e)
          (filter (λ d, now < known_at d) (delayed e)) out (Some (t_volume t)) (last_traded e) (Some now)).

Definition invalidate_depth (e : L1Engine) : L1Engine :=
  mkL1 (L0.forget_price_path (inner e)) (policy e)
    ((λ p, mkPending None true (p_since p) (live_at p) (p_order p)) <$> pending e)
    (queued e) (delayed e) (released e) None (last_traded e) None.

(** The resting orders in arrival order, re-queued behind what is displayed. *)
Fixpoint requeue (q : Side → PriceTicks → Z) (i : L0Engine) (rs : list Resting) (qs : list Queued)
    : L0Engine * list Queued :=
  match rs with
  | [] => (i, qs)
  | r :: rs =>
      match w_price (r_order r) with
      | Some price =>
          let ahead := q (w_side (r_order r)) price in
          if ahead >? 0 then
            requeue q (L0.cancel i (r_id r)).2 rs (qs ++ [mkQueued ahead (Some I64_MIN) (r_order r)])
          else requeue q i rs qs
      | None => requeue q i rs qs
      end
  end.

Definition resume_depth (e : L1Engine) (q : Side → PriceTicks → Z) : L1Engine :=
  let i := L0.forget_price_path (inner e) in
  let '(i, qs) := requeue q i (sort_by_key r_arrival (Book.iter (book i))) (queued e) in
  mkL1 i (policy e) (pending e)
    ((λ x, match w_price (q_order x) with
           | Some price => mkQueued (Z.max (q_remaining x) (q (w_side (q_order x)) price)) (Some I64_MIN) (q_order x)
           | None => x
           end) <$> qs)
    (delayed e) (released e) None (last_traded e) None.

Definition traded_volume (e : L1Engine) (t : Tick) : Z :=
  match prev_volume e with
  | Some prev => Z.max (sat64 (t_volume t - prev)) 0
  | None => 0
  end.
End L1.

Definition touched (t : Tick) (price : PriceTicks) : bool :=
  (t_low t <=? price) && (price <=? t_high t).

Definition gapped_through (t : Tick) (s : Side) (price : PriceTicks) : bool :=
  if (t_high t =? 0) && (t_low t =? 0) then false
  else match s with Buy => t_high t <? price | Sell => price <? t_low t end.

Definition set_price (f : L0Fill) (p : PriceTicks) : L0Fill :=
  let x := lf_fill f in
  mkL0Fill (mkFill (f_stamp x) (f_instrument x) (f_order x) (f_trade x) (f_side x) (f_offset x) p
    (f_qty x) (f_liquidity x)) (lf_reason f).

(** A measured price only ever worsens the fill. *)
Definition with_measured_price (f : L0Fill) (measured : PriceTicks) : L0Fill :=
  set_price f match f_side (lf_fill f) with
              | Buy => Z.max (f_price (lf_fill f)) measured
              | Sell => Z.min (f_price (lf_fill f)) measured
              end.

Definition measured_taker_price {St} (m : Measure St) (st : St) (f : L0Fill)
    : run (option PriceTicks * St) :=
  match f_liquidity (lf_fill f) with
  | Taker => m st (f_side (lf_fill f)) (f_qty (lf_fill f))
  | Maker => mret (None, st)
  end.

(** [coefficient / 100 * range * sqrt(qty / traded)], in this order. *)
Definition penalty_of (coefficient range qty traded : Z) : Z :=
  F64.to_i64 (F64.mul (F64.mul (F64.div (F64.of_int coefficient) (F64.of_int 100)) (F64.of_int range))
    (F64.sqrt (F64.div (F64.of_int qty) (F64.of_int traded)))).

Definition with_impact (e : L1Engine) (f : L0Fill) (t : Tick) (traded : Z) : run L0Fill :=
  if (coefficient (policy e) =? 0) || negb (bool_decide (f_liquidity (lf_fill f) = Taker)) then mret f
  else if traded <=? 0 then mret f
  else
    width ← chk64 (t_high t - t_low t);
    let range := Z.max width 0 in
    if range =? 0 then mret f
    else
      let penalty := penalty_of (coefficient (policy e)) range (f_qty (lf_fill f)) traded in
      if penalty =? 0 then mret f
      else
        p ← match f_side (lf_fill f) with
            | Buy => chk64 (f_price (lf_fill f) + penalty)
            | Sell => chk64 (f_price (lf_fill f) - penalty)
            end;
        mret (set_price f p).

Module L1Tick.
(** Step 1: the orders whose entry latency has elapsed. *)
Fixpoint admit_all (e : L1Engine) (traded : Z) (ps : list Pending) : run L1Engine :=
  match ps with
  | [] => mret e
  | p :: ps =>
      e ← L1.admit_order e (p_order p) (Some traded) (measured_ahead p) (p_since p);
      admit_all e traded ps
  end.

(** Step 2: what one observation does to one queued order: kept with its new
    count, or promoted to the book. *)
Definition deplete (prev : option Nanos) (t : Tick) (traded : Z) (q : Queued)
    : run (option Queued) :=
  let held := match q_since q with
              | Some at_ => match prev with Some p => p <? at_ | None => true end
              | None => false
              end in
  if held then mret (Some q)
  else
    match w_price (q_order q) with
    | None => mret None
    | Some price =>
        if gapped_through t (w_side (q_order q)) price then mret None
        else
          left ← (if touched t price then chk64 (q_remaining q - traded) else mret (q_remaining q));
          if left <=? 0 then mret None
          else mret (Some (mkQueued left (q_since q) (q_order q)))
    end.

Fixpoint deplete_all (prev : option Nanos) (t : Tick) (traded : Z) (qs : list Queued)
    : run (list Queued * list Working) :=
  match qs with
  | [] => mret ([], [])
  | q :: qs =>
      r ← deplete prev t traded q;
      '(kept, promoted) ← deplete_all prev t traded qs;
      mret match r with
           | Some q' => (q' :: kept, promoted)
           | None => (kept, q_order q :: promoted)
           end
  end.

Fixpoint submit_all (i : L0Engine) (ws : list Working) : run L0Engine :=
  match ws with
  | [] => mret i
  | w :: ws => i ← L0.submit i w; submit_all i ws
  end.

(** Step 4: takers pay the measured price, or else the modelled impact. *)
Fixpoint adjust {St} (m : Measure St) (st : St) (e : L1Engine) (t : Tick) (traded : Z)
    (fs : list L0Fill) : run (list L0Fill * St) :=
  match fs with
  | [] => mret ([], st)
  | f :: fs =>
      '(p, st) ← measured_taker_price m st f;
      f' ← match p with
           | Some p => mret (with_measured_price f p)
           | None => with_impact e f t traded
           end;
      '(fs', st) ← adjust m st e t traded fs;
      mret (f' :: fs', st)
  end.

(** Step 5: fills wait out the response latency. *)
Fixpoint delay_all (e : L1Engine) (now : Nanos) (fs : list L0Fill) : run (list Delayed) :=
  match fs with
  | [] => mret []
  | f :: fs =>
      k ← chk64 (now + Delay.at_ (response (latency (policy e))) (f_order (lf_fill f)));
      ds ← delay_all e now fs;
      mret (mkDelayed k f :: ds)
  end.

Definition on_tick_with_impact {St} (e : L1Engine) (t : Tick) (m : Measure St) (st : St)
    : run (list L0Fill * L1Engine * St) :=
  let now := exch (t_stamp t) in
  let traded := L1.traded_volume e t in
  let arriving := filter (λ p, live_at p ≤ now) (pending e) in
  let e := L1.set_pending e (filter (λ p, now < live_at p) (pending e)) in
  e ← admit_all e traded arriving;
  '(kept, promoted) ← deplete_all (prev_at e) t traded (queued e);
  i ← submit_all (inner e) promoted;
  '(produced, i) ← L0.on_tick i t;
  let e := L1.set_inner (L1.set_queued e kept) i in
  '(adjusted, st) ← adjust m st e t traded produced;
  '(out, ds) ← (if negb (Delay.is_zero (response (latency (policy e)))) then
                  ds ← delay_all e now adjusted;
                  let all := delayed e ++ ds in
                  mret (d_fill <$> filter (λ d, known_at d ≤ now) all,
                        filter (λ d, now < known_at d) all)
                else mret (adjusted, delayed e));
  mret (out,
    mkL1 (inner e) (policy e) (pending e) (queued e) ds out (Some (t_volume t))
      (match prev_volume e with Some _ => Some traded | None => last_traded e end) (Some now),
    st).

Definition no_measure : Measure () := λ st _ _, mret (None, st).

Definition on_tick (e : L1Engine) (t : Tick) : run (list L0Fill * L1Engine) :=
  '(fs, e, _) ← on_tick_with_impact e t no_measure ();
  mret (fs, e).

Definition drain_unreported (e : L1Engine) : list L0Fill * L1Engine :=
  (d_fill <$> sort_by_key known_at (delayed e),
   mkL1 (inner e) (policy e) (pending e) (queued e) [] (released e) (prev_volume e) (last_traded e) (prev_at e)).
End L1Tick.

(** What the engine hands to its host unchanged from L0. *)
Definition l1_book (e : L1Engine) : Book := book (inner e).
Definition l1_instrument (e : L1Engine) : InstrumentId := instrument (inner e).
Definition l1_last_price (e : L1Engine) : option PriceTicks := L0.last_price (inner e).
Definition l1_id_watermark (e : L1Engine) : Z * Z := L0.id_watermark (inner e).
Definition l1_restore_ids (e : L1Engine) (w : Z * Z) : L1Engine :=
  L1.set_inner e (L0.restore_ids (inner e) w).
Definition unreported (e : L1Engine) : nat := length (delayed e).
