(* ===== verification/L1Correct.v ===== *)
(** The assumption tier adds only what its policy says: a transparent policy
    is L0 exactly, impact and measured prices never help the taker, and
    latency neither loses a fill, repeats one nor shows one early. *)

From S2P Require Import Prelude Slices Floats Types Order Tick RestingBook L0 L0Correct L1.
From Stdlib Require Import Floats.SpecFloat.

(** * Driving an engine *)

Inductive Op :=
| Submit (w : Working) (now : Nanos)
| Cancel (id : OrderId)
| CancelAll
| Tock (t : Tick).

(** What the host of an engine sees of each operation. *)
Inductive Seen := Accepted | Withdrawn (b : bool) | Emptied (n : nat) | Fills (fs : list L0Fill).

Definition l0_op (e : L0Engine) (o : Op) : run (Seen * L0Engine) :=
  match o with
  | Submit w _ => e ← L0.submit e w; mret (Accepted, e)
  | Cancel id => let '(b, e) := L0.cancel e id in mret (Withdrawn b, e)
  | CancelAll => let '(n, e) := L0.cancel_all e in mret (Emptied n, e)
  | Tock t => '(fs, e) ← L0.on_tick e t; mret (Fills fs, e)
  end.

Definition l1_op (e : L1Engine) (o : Op) : run (Seen * L1Engine) :=
  match o with
  | Submit w now => e ← L1.submit e w now; mret (Accepted, e)
  | Cancel id => let '(b, e) := L1.cancel e id in mret (Withdrawn b, e)
  | CancelAll => let '(n, e) := L1.cancel_all e in mret (Emptied n, e)
  | Tock t => '(fs, e) ← L1Tick.on_tick e t; mret (Fills fs, e)
  end.

Section drive.
Context {E : Type} (op : E → Op → run (Seen * E)).

Fixpoint drive (e : E) (os : list Op) : run (list Seen * E) :=
  match os with
  | [] => mret ([], e)
  | o :: os => '(s, e) ← op e o; '(ss, e) ← drive e os; mret (s :: ss, e)
  end.
End drive.

(** * The transparent policy *)

Definition transparent (e : L1Engine) : Prop :=
  policy e = TRANSPARENT ∧ pending e = [] ∧ queued e = [] ∧ delayed e = [].

Lemma run_bind_assoc {A B C} (m : run A) (f : A → run B) (g : B → run C) :
  (m ≫= f) ≫= g = m ≫= (λ a, f a ≫= g).
Proof. by destruct m. Qed.

Lemma run_bind_ext {A B} (m : run A) (f g : A → run B) : (∀ a, f a = g a) → m ≫= f = m ≫= g.
Proof. intros H. destruct m; simpl; auto. Qed.

Lemma adjust_transparent e t traded fs : policy e = TRANSPARENT →
  L1Tick.adjust L1Tick.no_measure () e t traded fs = Ret (fs, ()).
Proof.
  intros Hp. induction fs as [|f fs IH]; simpl; [done|].
  assert (measured_taker_price L1Tick.no_measure () f = Ret (None, ())) as ->
    by (unfold measured_taker_price; by destruct (f_liquidity (lf_fill f))).
  cbn [mbind run_bind]. unfold with_impact. rewrite Hp. simpl. by rewrite IH.
Qed.

Lemma transparent_tick e t : transparent e →
  L1Tick.on_tick e t = '(fs, i) ← L0.on_tick (inner e) t;
    mret (fs, mkL1 i (policy e) [] [] [] fs (Some (t_volume t))
      (match prev_volume e with Some _ => Some (L1.traded_volume e t) | None => last_traded e end)
      (Some (exch (t_stamp t)))).
Proof.
  intros (Hp & H1 & H2 & H3). unfold L1Tick.on_tick, L1Tick.on_tick_with_impact.
  rewrite H1. cbn [filter list_filter L1Tick.admit_all mbind run_bind mret run_ret].
  cbn [L1.set_pending queued prev_at inner]. rewrite H2.
  cbn [L1Tick.deplete_all L1Tick.submit_all mbind run_bind mret run_ret].
  destruct (L0.on_tick (inner e) t) as [[fs i]| |]; simpl; [|done|done].
  rewrite adjust_transparent by done. simpl. rewrite Hp, H3. done.
Qed.

Lemma transparent_op e o : transparent e →
  match l0_op (inner e) o with
  | Ret (s, i) => ∃ e', l1_op e o = Ret (s, e') ∧ inner e' = i ∧ transparent e'
  | Panic => l1_op e o = Panic
  | OutOfFuel => l1_op e o = OutOfFuel
  end.
Proof.
  intros He. pose proof He as (Hp & H1 & H2 & H3). destruct o as [w now|id| |t]; simpl.
  - unfold L1.submit, L1.submit_with_queue, L1.submit_queue. rewrite Hp. simpl.
    unfold L1.admit_order. rewrite Hp. simpl.
    assert ((match w_price w with Some _ => mret 0 | None => mret 0 end : run Z) = Ret 0) as Ha
      by by destruct (w_price w).
    destruct (w_price w); simpl; destruct (L0.submit (inner e) w) as [i| |]; simpl; try done;
      eexists; split_and!; done.
  - unfold L1.cancel. rewrite H1, H2. simpl. destruct (L0.cancel (inner e) id) as [b i].
    eexists. split_and!; done.
  - unfold L1.cancel_all. rewrite H1, H2. simpl. destruct (L0.cancel_all (inner e)) as [n i].
    eexists. split_and!; done.
  - rewrite transparent_tick by done. destruct (L0.on_tick (inner e) t) as [[fs i]| |]; simpl; [|done|done].
    eexists. split_and!; done.
Qed.

Definition seen {E} (op : E → Op → run (Seen * E)) (e : E) (os : list Op) : run (list Seen) :=
  '(ss, _) ← drive op e os; mret ss.

Lemma transparent_drive e os : transparent e → seen l1_op e os = seen l0_op (inner e) os.
Proof.
  revert e. induction os as [|o os IH]; intros e He; [done|].
  pose proof (transparent_op e o He) as H. unfold seen in *. simpl.
  destruct (l0_op (inner e) o) as [[s i]| |]; simpl; [|by rewrite H|by rewrite H].
  destruct H as (e' & -> & <- & He'). simpl. specialize (IH e' He').
  destruct (drive l1_op e' os) as [[ss e1]| |], (drive l0_op (inner e') os) as [[ss' e2]| |];
    cbn in IH |- *; unfold mret, run_ret in *; try discriminate IH; try done.
  by injection IH as ->.
Qed.

(** C37. A policy that models nothing is the frozen tier exactly: whatever
    sequence of submissions, cancels and ticks drives it, from the start, an
    L1 engine with the transparent policy shows its host what an L0 engine
    shows, a panic included. *)
Theorem transparent_is_l0 (i : InstrumentId) (os : list Op) :
  seen l1_op (L1.new i TRANSPARENT) os = seen l0_op (L0.new i) os.
Proof. by apply transparent_drive. Qed.

(** * Signs of floats *)

(** Not negative: NaN and the zeros are harmless, [to_i64] makes them zero. *)
Definition f_nonneg (x : spec_float) : Prop :=
  match x with S754_finite s _ _ | S754_infinity s => s = false | _ => True end.

Lemma round_nonneg mx ex lx : f_nonneg (binary_round_aux F64.prec F64.emax false mx ex lx).
Proof.
  unfold binary_round_aux. destruct (shr_fexp _ _ mx ex lx) as [mrs e'].
  destruct (shr_fexp _ _ _ e' loc_Exact) as [mrs' e'']. destruct (shr_m mrs'); simpl; try done.
  by destruct (e'' <=? _).
Qed.

Lemma mul_nonneg x y : f_nonneg x → f_nonneg y → f_nonneg (F64.mul x y).
Proof.
  unfold F64.mul, SFmul. destruct x, y; simpl; try done; try (by intros -> ->).
  intros -> ->. apply round_nonneg.
Qed.

Lemma of_int_nonneg z : 0 ≤ z → f_nonneg (F64.of_int z).
Proof.
  intros Hz. unfold F64.of_int, binary_normalize. destruct z as [|p|p]; [done| |lia].
  unfold binary_round. destruct (shl_align p 0 _) as [mz ez]. apply round_nonneg.
Qed.

(** Division of an integer by a positive one. *)
Definition f_pos (x : spec_float) : Prop := match x with S754_finite s _ _ | S754_infinity s => s = false | S754_zero s => s = false | S754_nan => True end.

Lemma round_pos mx ex lx : f_pos (binary_round_aux F64.prec F64.emax false mx ex lx).
Proof.
  unfold binary_round_aux. destruct (shr_fexp _ _ mx ex lx) as [mrs e'].
  destruct (shr_fexp _ _ _ e' loc_Exact) as [mrs' e'']. destruct (shr_m mrs'); simpl; try done.
  by destruct (e'' <=? _).
Qed.

Lemma of_int_pos z : 0 ≤ z → f_pos (F64.of_int z).
Proof.
  intros Hz. unfold F64.of_int, binary_normalize. destruct z as [|p|p]; [done| |lia].
  unfold binary_round. destruct (shl_align p 0 _) as [mz ez]. apply round_pos.
Qed.

Lemma div_pos x y : f_pos x → f_pos y → f_pos (F64.div x y).
Proof.
  unfold F64.div, SFdiv. destruct x, y; simpl; try done; try (by intros -> ->).
  intros -> ->. destruct (SFdiv_core_binary _ _ _ _ _ _) as [[mz ez] lz]. apply round_pos.
Qed.

Lemma pos_nonneg x : f_pos x → f_nonneg x.
Proof. by destruct x. Qed.

Lemma sqrt_nonneg x : f_pos x → f_nonneg (F64.sqrt x).
Proof.
  unfold F64.sqrt, SFsqrt. destruct x as [s|s| |s m e]; simpl; try done; intros ->; [done|].
  destruct (SFsqrt_core_binary _ _ _ _) as [[mz ez] lz]. apply round_nonneg.
Qed.

Lemma to_i64_nonneg x : f_nonneg x → 0 ≤ F64.to_i64 x.
Proof.
  unfold F64.to_i64. destruct x as [s|s| |s m e]; simpl; try done; intros ->; [done|].
  assert (0 ≤ (if 0 <=? e then Z.pos m * 2 ^ e else Z.pos m / 2 ^ (- e))).
  { destruct (Z.leb_spec 0 e); [apply Z.mul_nonneg_nonneg; [lia|by apply Z.pow_nonneg]|].
    apply Z.div_pos; [lia|]. apply Z.pow_pos_nonneg; lia. }
  mlia.
Qed.

Lemma penalty_nonneg c r q t : 0 ≤ c → 0 ≤ r → 0 ≤ q → 0 ≤ t → 0 ≤ penalty_of c r q t.
Proof.
  intros. apply to_i64_nonneg, mul_nonneg; [apply mul_nonneg|].
  - by apply pos_nonneg, div_pos; apply of_int_pos.
  - by apply of_int_nonneg.
  - by apply sqrt_nonneg, div_pos; apply of_int_pos.
Qed.

(** * What adjusting a fill may do *)

(** The same execution at a price no better for whoever took it. *)
Definition no_better (f f' : L0Fill) : Prop :=
  f' = set_price f (f_price (lf_fill f')) ∧
  match f_liquidity (lf_fill f) with
  | Maker => f_price (lf_fill f') = f_price (lf_fill f)
  | Taker => match f_side (lf_fill f) with
             | Buy => f_price (lf_fill f) ≤ f_price (lf_fill f')
             | Sell => f_price (lf_fill f') ≤ f_price (lf_fill f)
             end
  end.

Lemma set_price_same f : set_price f (f_price (lf_fill f)) = f.
Proof. by destruct f as [[] ?]. Qed.

Lemma no_better_refl f : no_better f f.
Proof. split; [by rewrite set_price_same|]. by destruct (f_liquidity (lf_fill f)), (f_side (lf_fill f)). Qed.

Lemma with_impact_no_better e f t traded f' :
  0 ≤ coefficient (policy e) → 0 ≤ f_qty (lf_fill f) →
  with_impact e f t traded = Ret f' → no_better f f'.
Proof.
  intros Hc Hq. unfold with_impact. destruct (coefficient (policy e) =? 0); simpl;
    [intros [= <-]; apply no_better_refl|].
  case_bool_decide as Hl; simpl; [|intros [= <-]; apply no_better_refl].
  destruct (Z.leb_spec traded 0); [intros [= <-]; apply no_better_refl|].
  intros H'. apply bind_ret in H' as (width & [-> _]%chk_inv & H').
  destruct (Z.max _ 0 =? 0); [injection H' as <-; apply no_better_refl|].
  set (pen := penalty_of _ _ _ _) in H'.
  assert (0 ≤ pen) as Hpen by (apply penalty_nonneg; lia).
  destruct (pen =? 0); [injection H' as <-; apply no_better_refl|].
  apply bind_ret in H' as (p & Hp & [= <-]). split; [done|]. rewrite Hl.
  destruct (f_side (lf_fill f)); apply chk_inv in Hp as [-> _]; simpl; lia.
Qed.

Lemma adjust_no_better {St} (m : Measure St) st e t traded fs fs' st' :
  0 ≤ coefficient (policy e) → Forall (λ f, 0 ≤ f_qty (lf_fill f)) fs →
  L1Tick.adjust m st e t traded fs = Ret (fs', st') → Forall2 no_better fs fs'.
Proof.
  intros Hc HF. revert st fs'. induction HF as [|f fs Hq HF IH]; intros st fs'; simpl.
  { intros [= <- <-]. constructor. }
  intros H. apply bind_ret in H as ([p st1] & Hp & H). apply bind_ret in H as (f' & Hf & H).
  apply bind_ret in H as ([fs1 st2] & Hfs & [= <- <-]). constructor; [|by eapply IH].
  destruct p as [p|]; [|by eapply with_impact_no_better]. injection Hf as <-.
  unfold measured_taker_price in Hp. split; [done|].
  destruct (f_liquidity (lf_fill f)) eqn:El; [done|]. unfold with_measured_price.
  destruct (f_side (lf_fill f)) eqn:Es; simpl; rewrite ?Es; simpl; lia.
Qed.

(** * Trade numbers *)

(** A predicate every execution preserves holds after a tick of L0. *)
Section l0_ind.
Context (P : L0Engine → Prop).
Hypothesis Hexec : ∀ e r p l rs s e', P e → L0.execute_at e r p l rs s = Ret e' → P e'.
Hypothesis Hcand : ∀ e c, P e → P (with_candidates e c).

Lemma gap_loop_ind t cs e e' : P e → L0.gap_loop e t cs = Ret e' → P e'.
Proof using Hexec.
  revert e. induction cs as [|[a id] cs IH]; intros e He; simpl; [by intros [= <-]|].
  destruct (find _ _) as [r|]; [|by apply IH].
  intros H. apply bind_ret in H as (e1 & H1 & H). eapply IH; [|exact H]. by eapply Hexec.
Qed.

Lemma gap_fill_ind t e e' : P e → L0.gap_fill e t = Ret e' → P e'.
Proof using Hexec Hcand.
  intros He. unfold L0.gap_fill. destruct (prev_price e) as [p|] eqn:Hp; [|by intros [= <-]].
  destruct (Book.is_empty (book e)); [by intros [= <-]|].
  set (hit := if p <? Tick.up_extent t then _ else _).
  destruct ((λ r, (r_arrival r, r_id r)) <$> hit) as [|c cs] eqn:Hc.
  - intros [= <-]. pose proof (Hcand e [] He) as H. unfold with_candidates in H. by rewrite Hp in H.
  - apply gap_loop_ind. pose proof (Hcand e (L0.sort_pairs (c :: cs)) He) as H.
    unfold with_candidates in H. by rewrite Hp in H.
Qed.

Lemma market_loop_ind t ref rs e e' : P e → L0.market_loop e t ref rs = Ret e' → P e'.
Proof using Hexec.
  revert e. induction rs as [|r rs IH]; intros e He; simpl; [by intros [= <-]|].
  intros H. apply bind_ret in H as (e1 & H1 & H). eapply IH; [|exact H]. by eapply Hexec.
Qed.

Lemma buy_loop_ind n t e e' : P e → L0.buy_loop n e t = Ret e' → P e'.
Proof using Hexec.
  revert e. induction n as [|n IH]; intros e He; simpl; destruct (head (bids (book e))) as [r|];
    try (by intros [= <-]); destruct (r_price r) as [p|]; try (by intros [= <-]);
    destruct (p <? Tick.buy_trigger t); try (by intros [= <-]); try done.
  intros H. apply bind_ret in H as (e1 & H1 & H). eapply IH; [|exact H]. by eapply Hexec.
Qed.

Lemma sell_loop_ind n t e e' : P e → L0.sell_loop n e t = Ret e' → P e'.
Proof using Hexec.
  revert e. induction n as [|n IH]; intros e He; simpl; destruct (head (asks (book e))) as [r|];
    try (by intros [= <-]); destruct (r_price r) as [p|]; try (by intros [= <-]);
    destruct (p >? Tick.sell_trigger t); try (by intros [= <-]); try done.
  intros H. apply bind_ret in H as (e1 & H1 & H). eapply IH; [|exact H]. by eapply Hexec.
Qed.

Lemma cross_ind t e e' : P e → L0.cross e t = Ret e' → P e'.
Proof using Hexec.
  intros He H. unfold L0.cross in H. apply bind_ret in H as (e1 & H1 & H).
  apply bind_ret in H as (e2 & H2 & H).
  assert (P e1) as He1.
  { destruct (Book.has_market_orders (book e)); [|by injection H1 as <-].
    apply bind_ret in H1 as (e0 & H0 & H1). eapply market_loop_ind; [|exact H1].
    by eapply market_loop_ind. }
  assert (P e2) as He2 by (destruct (Tick.buy_trigger t >? 0);
    [by eapply buy_loop_ind|by injection H2 as <-]).
  destruct (Tick.sell_trigger t >? 0); [by eapply sell_loop_ind|by injection H as <-].
Qed.
End l0_ind.

Definition trade_of (f : L0Fill) : TradeId := f_trade (lf_fill f).

Definition dense (n : Z) (e : L0Engine) : Prop :=
  trade_of <$> fills e = seqZ (n + 1) (Z.of_nat (length (fills e))) ∧
  next_trade (ids e) = n + Z.of_nat (length (fills e)).

Lemma dense_exec n e r p l rs s e' : dense n e → L0.execute_at e r p l rs s = Ret e' → dense n e'.
Proof.
  intros [Hf Hn] H. unfold L0.execute_at in H. apply bind_ret in H as (q & _ & H).
  destruct (q <=? 0); [by injection H as <-|]. apply bind_ret in H as (out & _ & H).
  destruct out as [out|]; [|by injection H as <-].
  apply bind_ret in H as ([trade ids'] & Ht & [= <-]). unfold Ids.trade in Ht.
  apply bind_ret in Ht as (k & [-> _]%chk_inv & [= <- <-]). unfold dense. simpl.
  rewrite fmap_app, length_app, Hf. simpl. split; [|lia].
  rewrite Nat2Z.inj_add, seqZ_app by lia. f_equal. unfold trade_of. simpl. rewrite Hn.
  rewrite seqZ_cons by lia. simpl. f_equal. lia.
Qed.

Lemma on_tick_dense e t fs e' : L0.on_tick e t = Ret (fs, e') →
  fs = fills e' ∧ dense (next_trade (ids e)) e'.
Proof.
  intros H. unfold L0.on_tick in H. apply bind_ret in H as (e1 & H1 & H).
  apply bind_ret in H as (e2 & H2 & [= <- <-]). split; [done|].
  set (P := dense (next_trade (ids e))). assert (P e2) as HP; [|by destruct HP].
  eapply (cross_ind P); [by apply dense_exec| |exact H2].
  eapply (gap_fill_ind P); [by apply dense_exec|done| |exact H1].
  split; simpl; [done|lia].
Qed.

(** * Adjusting and delaying, fill by fill *)

Lemma adjust_same {St} (m : Measure St) st e t traded fs fs' st' :
  L1Tick.adjust m st e t traded fs = Ret (fs', st') →
  Forall2 (λ f f', ∃ p, f' = set_price f p) fs fs'.
Proof.
  revert st fs'. induction fs as [|f fs IH]; intros st fs'; simpl; [intros [= <- <-]; constructor|].
  intros H. apply bind_ret in H as ([p st1] & _ & H). apply bind_ret in H as (f' & Hf & H).
  apply bind_ret in H as ([fs1 st2] & Hfs & [= <- <-]). constructor; [|by eapply IH].
  destruct p as [p|]; [injection Hf as <-; eexists; reflexivity|].
  unfold with_impact in Hf. destruct (_ || _); [injection Hf as <-; eexists; symmetry; apply set_price_same|].
  destruct (traded <=? 0); [injection Hf as <-; eexists; symmetry; apply set_price_same|].
  apply bind_ret in Hf as (w & _ & Hf).
  destruct (_ =? 0); [injection Hf as <-; eexists; symmetry; apply set_price_same|].
  destruct (_ =? 0); [injection Hf as <-; eexists; symmetry; apply set_price_same|].
  apply bind_ret in Hf as (p & _ & [= <-]). by eexists.
Qed.

Lemma Forall2_same_trades fs fs' :
  Forall2 (λ f f', ∃ p, f' = set_price f p) fs fs' → trade_of <$> fs' = trade_of <$> fs.
Proof. induction 1 as [|f f' fs fs' [p ->] H IH]; [done|]. by rewrite !fmap_cons, IH. Qed.

(** A fill held until its response latency has passed. *)
Definition hold (e : L1Engine) (now : Nanos) (f : L0Fill) : Delayed :=
  mkDelayed (now + Delay.at_ (response (latency (policy e))) (f_order (lf_fill f))) f.

Lemma delay_all_hold e now fs ds : L1Tick.delay_all e now fs = Ret ds → ds = hold e now <$> fs.
Proof.
  revert ds. induction fs as [|f fs IH]; intros ds; simpl; [by intros [= <-]|].
  intros H. apply bind_ret in H as (k & [-> _]%chk_inv & H). apply bind_ret in H as (ds' & Hd & [= <-]).
  by rewrite (IH _ Hd).
Qed.

Lemma filter_split_perm (now : Z) (ds : list Delayed) :
  Permutation (filter (λ d, known_at d ≤ now) ds ++ filter (λ d, now < known_at d) ds) ds.
Proof.
  induction ds as [|d ds IH]; [done|]. rewrite !filter_cons.
  destruct (decide (known_at d ≤ now)), (decide (now < known_at d)); try lia.
  - simpl. by rewrite IH.
  - rewrite <-Permutation_middle. by rewrite IH.
Qed.

(** The stages of a tick that returned. *)
Lemma tick_stages {St} e t (m : Measure St) st out e' st' :
  L1Tick.on_tick_with_impact e t m st = Ret (out, e', st') →
  let now := exch (t_stamp t) in
  let traded := L1.traded_volume e t in
  ∃ e1 kept promoted i produced i' adjusted,
    L1Tick.admit_all (L1.set_pending e (filter (λ p, now < live_at p) (pending e))) traded
      (filter (λ p, live_at p ≤ now) (pending e)) = Ret e1 ∧
    L1Tick.deplete_all (prev_at e1) t traded (queued e1) = Ret (kept, promoted) ∧
    L1Tick.submit_all (inner e1) promoted = Ret i ∧ L0.on_tick i t = Ret (produced, i') ∧
    L1Tick.adjust m st (L1.set_inner (L1.set_queued e1 kept) i') t traded produced = Ret (adjusted, st') ∧
    inner e' = i' ∧ policy e' = policy e1 ∧ pending e' = pending e1 ∧ queued e' = kept ∧
    if Delay.is_zero (response (latency (policy e1)))
    then out = adjusted ∧ delayed e' = delayed e1
    else let all := delayed e1 ++ (hold e1 now <$> adjusted) in
      out = d_fill <$> filter (λ d, known_at d ≤ now) all ∧
      delayed e' = filter (λ d, now < known_at d) all.
Proof.
  intros H. cbv zeta. unfold L1Tick.on_tick_with_impact in H.
  apply bind_ret in H as (e1 & H1 & H). apply bind_ret in H as ([kept promoted] & H2 & H).
  apply bind_ret in H as (i & H3 & H). apply bind_ret in H as ([produced i'] & H4 & H).
  apply bind_ret in H as ([adjusted st1] & H5 & H). apply bind_ret in H as ([out1 ds] & H6 & H).
  injection H as <- <- <-. exists e1, kept, promoted, i, produced, i', adjusted.
  split_and!; try done. simpl. cbn [L1.set_inner L1.set_queued policy latency] in H6.
  destruct (Delay.is_zero (response (latency (policy e1)))); simpl in H6.
  - by injection H6 as <- <-.
  - apply bind_ret in H6 as (ds' & Hd & [= <- <-]). apply delay_all_hold in Hd as ->. done.
Qed.

(** * What each stage leaves alone *)

Definition same_frame (e e' : L1Engine) : Prop :=
  policy e' = policy e ∧ delayed e' = delayed e ∧ ids (inner e') = ids (inner e).

Lemma submit_inv i w i' : L0.submit i w = Ret i' → ∃ b, Book.insert (book i) w = Ret b ∧ i' = L0.set_book i b.
Proof. unfold L0.submit. intros H. apply bind_ret in H as (b & Hb & [= <-]). eauto. Qed.

Lemma admit_cases e w av m s e' : L1.admit_order e w av m s = Ret e' →
  (∃ n sn, e' = L1.set_queued e (queued e ++ [mkQueued n sn w])) ∨
  (∃ i, L0.submit (inner e) w = Ret i ∧ e' = L1.set_inner e i).
Proof.
  unfold L1.admit_order. intros H. apply bind_ret in H as (a & _ & H).
  destruct (a >? 0); [injection H as <-; left; eauto|]. apply bind_ret in H as (i & Hi & [= <-]). right. eauto.
Qed.

Lemma admit_frame e w av m s e' : L1.admit_order e w av m s = Ret e' →
  same_frame e e' ∧ pending e' = pending e.
Proof.
  intros [(n & sn & ->)|(i & Hi & ->)]%admit_cases; [done|].
  apply submit_inv in Hi as (b & _ & ->). done.
Qed.

Lemma same_frame_trans e1 e2 e3 : same_frame e1 e2 → same_frame e2 e3 → same_frame e1 e3.
Proof. unfold same_frame. intros (?&?&?) (?&?&?). split_and!; congruence. Qed.

Lemma admit_all_frame e traded ps e' : L1Tick.admit_all e traded ps = Ret e' →
  same_frame e e' ∧ pending e' = pending e.
Proof.
  revert e. induction ps as [|p ps IH]; intros e; simpl; [by intros [= <-]|].
  intros H. apply bind_ret in H as (e1 & [F1 P1]%admit_frame & H).
  destruct (IH _ H) as [F2 P2]. split; [by eapply same_frame_trans|congruence].
Qed.

Lemma submit_all_ids i ws i' : L1Tick.submit_all i ws = Ret i' → ids i' = ids i.
Proof.
  revert i. induction ws as [|w ws IH]; intros i; simpl; [by intros [= <-]|].
  intros H. apply bind_ret in H as (i1 & (b & _ & ->)%submit_inv & H). by rewrite (IH _ H).
Qed.

(** * Every trade number is reported once *)

Definition held (e : L1Engine) : list TradeId := (λ d, trade_of (d_fill d)) <$> delayed e.
Definition reported (s : Seen) : list TradeId :=
  match s with Fills fs => trade_of <$> fs | _ => [] end.
Definition trades_made (e : L1Engine) : Z := next_trade (ids (inner e)).

Lemma held_fmap (ds : list Delayed) : trade_of <$> (d_fill <$> ds) = (λ d, trade_of (d_fill d)) <$> ds.
Proof. by rewrite <-list_fmap_compose. Qed.

Lemma tick_trades {St} e t (m : Measure St) st out e' st' :
  L1Tick.on_tick_with_impact e t m st = Ret (out, e', st') →
  trades_made e ≤ trades_made e' ∧
  Permutation ((trade_of <$> out) ++ held e')
    (held e ++ seqZ (trades_made e + 1) (trades_made e' - trades_made e)).
Proof.
  intros (e1 & kept & promoted & i & produced & i' & adjusted & H1 & _ & H3 & H4 & H5 & Hi & _ & _ & _ & Hout)%tick_stages.
  apply admit_all_frame in H1 as [(_ & Hd & Hid) _]. simpl in Hd, Hid.
  apply submit_all_ids in H3. apply on_tick_dense in H4 as [-> [Htr Hn]].
  apply adjust_same, Forall2_same_trades in H5. rewrite Htr in H5.
  unfold trades_made. rewrite Hi, Hn, H3, Hid. split; [lia|].
  rewrite H3, Hid in H5.
  replace (next_trade (ids (inner e)) + Z.of_nat (length (fills i')) - next_trade (ids (inner e)))
    with (Z.of_nat (length (fills i'))) by lia. rewrite <-H5.
  destruct (Delay.is_zero _).
  - destruct Hout as [-> Hd']. unfold held. rewrite Hd', Hd. apply Permutation_app_comm.
  - cbv zeta in Hout. destruct Hout as [-> Hd']. unfold held. rewrite Hd', held_fmap, <-fmap_app, filter_split_perm, Hd.
    rewrite fmap_app. apply Permutation_app_head. by rewrite <-list_fmap_compose.
Qed.

Lemma l1_op_trades e o s e' : l1_op e o = Ret (s, e') →
  trades_made e ≤ trades_made e' ∧
  Permutation (reported s ++ held e') (held e ++ seqZ (trades_made e + 1) (trades_made e' - trades_made e)).
Proof.
  assert (∀ e', policy e' = policy e → delayed e' = delayed e → ids (inner e') = ids (inner e) →
    trades_made e ≤ trades_made e' ∧
    Permutation (held e') (held e ++ seqZ (trades_made e + 1) (trades_made e' - trades_made e))) as Hsame.
  { intros e1 _ Hd Hi. unfold trades_made, held. rewrite Hd, Hi, Z.sub_diag. simpl. by rewrite app_nil_r. }
  destruct o as [w now|id| |t]; simpl; intros H.
  - apply bind_ret in H as (e1 & H1 & [= <- <-]). simpl.
    unfold L1.submit, L1.submit_with_queue, L1.submit_queue in H1.
    destruct (negb _); [injection H1 as <-; by apply Hsame|].
    apply admit_frame in H1 as [(? & ? & ?) _]. by apply Hsame.
  - unfold L1.cancel in H. destruct (_ <? _)%nat; [injection H as <- <-; by apply Hsame|].
    unfold L0.cancel in H. destruct (Book.remove _ _). injection H as <- <-. by apply Hsame.
  - unfold L1.cancel_all, L0.cancel_all in H. injection H as <- <-. by apply Hsame.
  - apply bind_ret in H as ([out e1] & H1 & [= <- <-]). unfold L1Tick.on_tick in H1.
    apply bind_ret in H1 as ([[out' e2] u] & H1 & [= <- <-]). simpl. by eapply tick_trades.
Qed.

(** Response latency neither loses a fill nor repeats one: over any run
    from the start, the trade numbers reported together with those
    still waiting out their response latency are exactly the numbers the
    matcher has given out, each once; draining hands over the rest. *)
Theorem l1_reports_every_trade_once (i : InstrumentId) (p : Policy) (os : list Op)
    (ss : list Seen) (e : L1Engine) (H : drive l1_op (L1.new i p) os = Ret (ss, e)) :
  Permutation (concat (reported <$> ss) ++ (trade_of <$> fst (L1Tick.drain_unreported e)))
    (seqZ 1 (trades_made e)).
Proof.
  assert (∀ e0 ss e, drive l1_op e0 os = Ret (ss, e) → trades_made e0 ≤ trades_made e ∧
    Permutation (concat (reported <$> ss) ++ held e)
      (held e0 ++ seqZ (trades_made e0 + 1) (trades_made e - trades_made e0))) as Hgen.
  { clear. induction os as [|o os IH]; intros e0 ss e; simpl.
    - intros [= <- <-]. rewrite Z.sub_diag. simpl. rewrite app_nil_r. split; [lia|done].
    - intros H. apply bind_ret in H as ([s e1] & H1 & H). apply bind_ret in H as ([ss' e2] & H2 & [= <- <-]).
      apply l1_op_trades in H1 as [L1 P1]. apply IH in H2 as [L2 P2]. split; [lia|].
      rewrite fmap_cons. simpl. rewrite <-(assoc_L (++)), P2, (assoc_L (++)), P1, <-(assoc_L (++)).
      apply Permutation_app_head.
      replace (trades_made e2 - trades_made e0) with
        ((trades_made e1 - trades_made e0) + (trades_made e2 - trades_made e1)) by lia.
      rewrite seqZ_app by lia. by replace (trades_made e0 + 1 + (trades_made e1 - trades_made e0))
        with (trades_made e1 + 1) by lia. }
  destruct (Hgen _ _ _ H) as [_ HP]. unfold trades_made at 2 3 in HP. simpl in HP.
  rewrite Z.sub_0_r in HP. rewrite <-HP. unfold held. simpl. by rewrite held_fmap, sort_by_key_perm.
Qed.

(** * One tick's fills *)

Lemma execute_qty e r p l rs s e' :
  Forall (λ f, 0 < f_qty (lf_fill f)) (fills e) → L0.execute_at e r p l rs s = Ret e' →
  Forall (λ f, 0 < f_qty (lf_fill f)) (fills e').
Proof.
  intros HF H. unfold L0.execute_at in H. apply bind_ret in H as (q & _ & H).
  destruct (Z.leb_spec q 0); [by injection H as <-|]. apply bind_ret in H as (out & _ & H).
  destruct out as [out|]; [|by injection H as <-].
  apply bind_ret in H as ([trade ids'] & _ & [= <-]). simpl. apply Forall_app. split; [done|].
  by constructor.
Qed.

Lemma on_tick_qty e t fs e' : L0.on_tick e t = Ret (fs, e') → Forall (λ f, 0 < f_qty (lf_fill f)) fs.
Proof.
  intros H. unfold L0.on_tick in H. apply bind_ret in H as (e1 & H1 & H).
  apply bind_ret in H as (e2 & H2 & [= <- <-]). set (P := λ e, Forall (λ f, 0 < f_qty (lf_fill f)) (fills e)).
  eapply (cross_ind P); [by apply execute_qty| |exact H2].
  eapply (gap_fill_ind P); [by apply execute_qty|done| |exact H1]. constructor.
Qed.

Lemma hold_ext e e' now f : policy e = policy e' → hold e now f = hold e' now f.
Proof. unfold hold. by intros ->. Qed.

(** What a tick reports: the L0 engine matches once, untouched, on the
    book that the admitted and promoted orders have reached; each of its fills
    keeps everything but its price, which a measured price or the impact model
    can only worsen, and only for a taker; nothing produced or held is lost;
    and with a response latency the host is shown exactly the fills whose
    latency has passed, never one earlier. *)
Theorem l1_tick_fills {St} (e : L1Engine) (t : Tick) (m : Measure St) (st st' : St)
    (out : list L0Fill) (e' : L1Engine) (Hc : 0 ≤ coefficient (policy e))
    (H : L1Tick.on_tick_with_impact e t m st = Ret (out, e', st')) :
  ∃ i produced adjusted, L0.on_tick i t = Ret (produced, inner e') ∧
    Forall2 no_better produced adjusted ∧
    Permutation (out ++ (d_fill <$> delayed e')) ((d_fill <$> delayed e) ++ adjusted) ∧
    (Delay.is_zero (response (latency (policy e))) = false →
       Forall (λ d, exch (t_stamp t) < known_at d) (delayed e') ∧
       ∀ f, f ∈ out → ∃ d, d_fill d = f ∧ known_at d ≤ exch (t_stamp t) ∧
         (d ∈ delayed e ∨ d = hold e (exch (t_stamp t)) f)).
Proof.
  apply tick_stages in H
    as (e1 & kept & promoted & i & produced & i' & adjusted & H1 & _ & H3 & H4 & H5 & -> & _ & _ & _ & Hout).
  apply admit_all_frame in H1 as [(Hp & Hd & _) _]. simpl in Hp, Hd.
  exists i, produced, adjusted. split; [done|]. split.
  { eapply adjust_no_better; [|eapply Forall_impl; [by eapply on_tick_qty|]|exact H5].
    - simpl. by rewrite Hp.
    - simpl. intros; lia. }
  rewrite Hp in Hout. destruct (Delay.is_zero _).
  { destruct Hout as [-> ->]. rewrite Hd. split; [apply Permutation_app_comm|done]. }
  cbv zeta in Hout. destruct Hout as [-> ->]. split.
  { rewrite <-fmap_app, filter_split_perm, fmap_app, Hd. apply Permutation_app_head.
    rewrite <-list_fmap_compose. by rewrite (list_fmap_ext _ id), list_fmap_id. }
  intros _. split; [apply Forall_forall; by intros d [? _]%list_elem_of_filter|].
  intros f (d & -> & [Hk Hin]%list_elem_of_filter)%list_elem_of_fmap. exists d. split_and!; [done|done|].
  apply elem_of_app in Hin as [Hin|(g & -> & _)%list_elem_of_fmap]; [left; by rewrite <-Hd|right].
  by apply hold_ext.
Qed.

(** * Orders are accounted for *)

Definition ids_of (e : L1Engine) : list OrderId :=
  ((λ p, w_id (p_order p)) <$> pending e) ++ ((λ q, w_id (q_order q)) <$> queued e) ++
  Book.resting_ids (book (inner e)).

Record l1_ok (e : L1Engine) : Prop := {
  l1_inner : engine_ok (inner e);
  l1_ids : NoDup (ids_of e);
  l1_pending : Forall (λ p, working_ok (p_order p)) (pending e);
  l1_queued : Forall (λ q, working_ok (q_order q)) (queued e);
}.

Lemma submit_ids i w i' : engine_ok i → working_ok w → w_id w ∉ Book.resting_ids (book i) →
  L0.submit i w = Ret i' →
  engine_ok i' ∧ Permutation (Book.resting_ids (book i')) (w_id w :: Book.resting_ids (book i)).
Proof.
  intros Hi Hw Hid H. split; [by eapply submit_book|].
  apply submit_inv in H as (b & Hb & ->). simpl.
  assert (next_arrival (book i) + 1 ≤ U64_MAX) as Hmax.
  { unfold Book.insert in Hb. apply bind_ret in Hb as (n & Hn%chk_inv & _). mlia. }
  destruct (returns_inv _ _ _ (insert_spec _ _ (eng_book _ Hi) Hw Hid Hmax) Hb) as (_ & HP & _).
  unfold Book.resting_ids. by rewrite HP.
Qed.

(** Admitting one more order, to the queue or to the book. *)
Lemma admit_ok e w av m s e' : l1_ok e → working_ok w → w_id w ∉ ids_of e →
  L1.admit_order e w av m s = Ret e' → l1_ok e' ∧ Permutation (ids_of e') (w_id w :: ids_of e).
Proof.
  intros [Hi Hd Hp Hq] Hw Hid Ha.
  assert (Permutation (ids_of e') (w_id w :: ids_of e) ∧ engine_ok (inner e') ∧
    pending e' = pending e ∧ Forall (λ q, working_ok (q_order q)) (queued e')) as (HP & Hi' & Hpe & Hqu).
  { apply admit_cases in Ha as [(n & sn & ->)|(i & Hs & ->)]; unfold ids_of; simpl.
    - split_and!; [|done|done|apply Forall_app_2; [done|by apply Forall_singleton]].
      rewrite fmap_app. simpl. solve_Permutation.
    - unfold ids_of in Hid. rewrite !not_elem_of_app in Hid. destruct Hid as (_ & _ & Hid).
      destruct (submit_ids _ _ _ Hi Hw Hid Hs) as [? HP]. split_and!; try done.
      rewrite HP. solve_Permutation. }
  split; [|done]. split; [done| |by rewrite Hpe|done]. rewrite HP. by apply NoDup_cons.
Qed.

Lemma admit_all_ok e traded ps e' : l1_ok e → Forall (λ p, working_ok (p_order p)) ps →
  NoDup (((λ p, w_id (p_order p)) <$> ps) ++ ids_of e) →
  L1Tick.admit_all e traded ps = Ret e' →
  l1_ok e' ∧ Permutation (ids_of e') (((λ p, w_id (p_order p)) <$> ps) ++ ids_of e).
Proof.
  revert e. induction ps as [|p ps IH]; intros e He HF Hd; simpl; [by intros [= <-]|].
  intros H. apply bind_ret in H as (e1 & H1 & H). apply Forall_cons in HF as [Hw HF].
  simpl in Hd. apply NoDup_cons in Hd as [Hn Hd].
  apply admit_ok in H1 as [He1 HP1]; [|done|done|rewrite elem_of_app in Hn; tauto].
  apply IH in H as [He' HP']; [|done|done|].
  - split; [done|]. rewrite HP', HP1. by rewrite <-Permutation_middle.
  - rewrite HP1, <-Permutation_middle. by apply NoDup_cons.
Qed.

Lemma deplete_id prev t traded q q' : L1Tick.deplete prev t traded q = Ret (Some q') → q_order q' = q_order q.
Proof.
  unfold L1Tick.deplete. destruct (match q_since q with Some _ => _ | None => _ end); [by intros [= <-]|].
  destruct (w_price _); [|done]. destruct (gapped_through _ _ _); [done|].
  intros H. apply bind_ret in H as (l & _ & H). destruct (l <=? 0); [done|]. by injection H as <-.
Qed.

Lemma deplete_all_orders prev t traded qs kept promoted :
  L1Tick.deplete_all prev t traded qs = Ret (kept, promoted) →
  Permutation ((q_order <$> kept) ++ promoted) (q_order <$> qs).
Proof.
  revert kept promoted. induction qs as [|q qs IH]; intros kept promoted; simpl; [by intros [= <- <-]|].
  intros H. apply bind_ret in H as (r & Hr & H). apply bind_ret in H as ([k p] & Hk & H).
  specialize (IH _ _ Hk). destruct r as [q'|]; injection H as <- <-; simpl.
  - apply deplete_id in Hr as ->. by rewrite IH.
  - by rewrite <-Permutation_middle, IH.
Qed.

Lemma submit_all_ok i ws i' : engine_ok i → Forall working_ok ws →
  NoDup ((w_id <$> ws) ++ Book.resting_ids (book i)) → L1Tick.submit_all i ws = Ret i' →
  engine_ok i' ∧ Permutation (Book.resting_ids (book i')) ((w_id <$> ws) ++ Book.resting_ids (book i)).
Proof.
  revert i. induction ws as [|w ws IH]; intros i Hi HF Hd; simpl; [by intros [= <-]|].
  intros H. apply bind_ret in H as (i1 & H1 & H). apply Forall_cons in HF as [Hw HF].
  simpl in Hd. apply NoDup_cons in Hd as [Hn Hd].
  apply submit_ids in H1 as [Hi1 HP1]; [|done|done|rewrite elem_of_app in Hn; tauto].
  apply IH in H as [Hi' HP']; [|done|done|].
  - split; [done|]. rewrite HP', HP1. by rewrite <-Permutation_middle.
  - rewrite HP1, <-Permutation_middle. by apply NoDup_cons.
Qed.

Lemma after_perm b xs : book_ok b → plays b xs →
  Permutation (Book.iter b) ((x_resting <$> xs) ++ Book.iter (after b xs)).
Proof.
  intros Hb [k Hp]%submseteq_Permutation. rewrite iter_after, x_id_fmap.
  pose proof (ok_ids _ Hb) as Hd. rewrite Hp, fmap_app in Hd.
  apply NoDup_app in Hd as (_ & Hd & _). rewrite Hp, filter_app.
  apply Permutation_app_head. rewrite filter_none, filter_all.
  - done.
  - apply Forall_forall. intros r Hr Hin. apply (Hd _ Hin). by apply list_elem_of_fmap_2.
  - apply Forall_forall. intros r Hr Hn. apply Hn. by apply list_elem_of_fmap_2.
Qed.

Definition order_of (f : L0Fill) : OrderId := f_order (lf_fill f).

Lemma l0_tick_ids i t fs i' : engine_ok i → room i → L0.on_tick i t = Ret (fs, i') →
  engine_ok i' ∧ fills i' = fs ∧
  Permutation (Book.resting_ids (book i)) (Book.resting_ids (book i') ++ (order_of <$> fs)).
Proof.
  intros Hi Hr H. pose proof (returns_inv _ _ _ (on_tick_exec i t Hi Hr) H) as (Hfs & _ & Hb & Hids & Hp & Hs & Hf).
  pose proof (eng_book _ Hi) as Hbk. split.
  - split; [rewrite Hb; by apply after_ok|rewrite Hp, Hs; by split; eauto|].
    rewrite Hids. simpl. pose proof (eng_trade _ Hi). lia.
  - split; [done|]. unfold Book.resting_ids. rewrite Hb.
    rewrite (after_perm _ _ Hbk (tick_execs_plays i t Hbk)) at 1. rewrite fmap_app, Permutation_app_comm.
    apply Permutation_app_head. rewrite Hfs. unfold order_of. by rewrite exec_fills_orders, x_id_fmap.
Qed.

(** The orders an engine knows, as many as there can be. *)
Definition l1_room (e : L1Engine) : Prop :=
  trades_made e + Z.of_nat (length (ids_of e)) ≤ U64_MAX.

Lemma filter_ids_perm (now : Z) (ps : list Pending) :
  Permutation (filter (λ p, live_at p ≤ now) ps ++ filter (λ p, now < live_at p) ps) ps.
Proof.
  induction ps as [|d ds IH]; [done|]. rewrite !filter_cons.
  destruct (decide (live_at d ≤ now)), (decide (now < live_at d)); try lia.
  - simpl. by rewrite IH.
  - rewrite <-Permutation_middle. by rewrite IH.
Qed.

Lemma queued_ids (qs : list Queued) :
  (λ q, w_id (q_order q)) <$> qs = w_id <$> (q_order <$> qs).
Proof. by rewrite <-list_fmap_compose. Qed.

Lemma l1_tick_ids {St} e t (m : Measure St) st out e' st' : l1_ok e → l1_room e →
  L1Tick.on_tick_with_impact e t m st = Ret (out, e', st') →
  l1_ok e' ∧ Permutation (ids_of e) (ids_of e' ++ (order_of <$> fills (inner e'))).
Proof.
  intros [Hi Hd Hp Hq] Hroom H. apply tick_stages in H
    as (e1 & kept & promoted & i & produced & i' & adjusted & H1 & H2 & H3 & H4 & H5 & E1 & _ & E3 & E4 & _).
  set (now := exch (t_stamp t)) in *. set (arriving := filter (λ p, live_at p ≤ now) (pending e)) in *.
  set (e0 := L1.set_pending e (filter (λ p, now < live_at p) (pending e))) in *.
  assert (Permutation (ids_of e) (((λ p, w_id (p_order p)) <$> arriving) ++ ids_of e0)) as P0.
  { unfold ids_of, e0, arriving. cbn [L1.set_pending pending queued inner].
    etransitivity; [apply Permutation_app_tail; symmetry; apply fmap_Permutation, (filter_ids_perm now)|].
    by rewrite fmap_app, <-(assoc_L (++)). }
  assert (l1_ok e0) as He0.
  { split; [done| |by apply Forall_retain|done]. rewrite P0 in Hd. by apply NoDup_app in Hd as (_ & _ & ?). }
  pose proof H1 as [(_ & _ & Hids1) Hpe1]%admit_all_frame. simpl in Hids1.
  apply admit_all_ok in H1 as [[Hi1 Hd1 Hp1 Hq1] P1]; [|done|by apply Forall_retain|by rewrite <-P0].
  apply deplete_all_orders in H2.
  assert (Permutation (ids_of e1) (((λ p, w_id (p_order p)) <$> pending e1) ++
    ((λ q, w_id (q_order q)) <$> kept) ++ ((w_id <$> promoted) ++ Book.resting_ids (book (inner e1))))) as P2.
  { unfold ids_of. apply Permutation_app_head. rewrite (assoc_L (++)). apply Permutation_app_tail.
    rewrite !queued_ids, <-fmap_app. by rewrite H2. }
  assert (Forall working_ok ((q_order <$> kept) ++ promoted)) as Hw
    by (rewrite H2; by apply Forall_fmap).
  apply Forall_app in Hw as [Hwk Hwp]. rewrite Forall_fmap in Hwk.
  pose proof Hd1 as Hd2. rewrite P2 in Hd2. apply NoDup_app in Hd2 as (_ & _ & (_ & _ & Hd2)%NoDup_app).
  pose proof H3 as Hids3%submit_all_ids.
  apply submit_all_ok in H3 as [Hi3 P3]; [|done|done|done].
  assert (room i) as Hr3.
  { unfold room. rewrite Hids3, Hids1. unfold l1_room, trades_made in Hroom. simpl.
    pose proof (Permutation_length P0) as L0. pose proof (Permutation_length P1) as L1.
    pose proof (Permutation_length P2) as L2. pose proof (Permutation_length P3) as L3.
    rewrite !length_app in *. rewrite len_iter. unfold Book.resting_ids in L3 at 1. rewrite length_fmap in L3.
    lia. }
  apply l0_tick_ids in H4 as (Hi' & Hf & P4); [|done|done].
  assert (Permutation (ids_of e) (ids_of e' ++ (order_of <$> produced))) as HP.
  { rewrite P0, <-P1, P2, <-P3, P4. unfold ids_of. rewrite E1, E3, E4. by rewrite <-!(assoc_L (++)). }
  rewrite <-Hf, <-E1 in HP. split; [|done]. split; [by rewrite E1| |by rewrite E3|by rewrite E4].
  rewrite HP in Hd. by apply NoDup_app in Hd as (? & _).
Qed.

(** The order that joins, and those that leave. *)
Definition joins_of (o : Op) : list OrderId :=
  match o with Submit w _ => [w_id w] | _ => [] end.
Definition leaves_of (e e' : L1Engine) (o : Op) (s : Seen) : list OrderId :=
  match o, s with
  | Cancel id, Withdrawn true => [id]
  | CancelAll, _ => ids_of e
  | Tock _, _ => order_of <$> fills (inner e')
  | _, _ => []
  end.
Definition op_ok (e : L1Engine) (o : Op) : Prop :=
  match o with
  | Submit w _ => working_ok w ∧ w_id w ∉ ids_of e
  | Tock _ => l1_room e
  | _ => True
  end.

Lemma filter_id_perm {A} (f : A → Z) (id : Z) (l : list A) : NoDup (f <$> l) →
  if decide (id ∈ f <$> l) then Permutation (f <$> l) (id :: (f <$> filter (λ x, f x ≠ id) l))
    ∧ (length (filter (λ x, f x ≠ id) l) < length l)%nat
  else filter (λ x, f x ≠ id) l = l.
Proof.
  induction l as [|x l IH]; intros Hd.
  { rewrite decide_False; [done|apply not_elem_of_nil]. }
  rewrite fmap_cons in Hd. apply NoDup_cons in Hd as [Hn Hd]. specialize (IH Hd).
  rewrite fmap_cons, filter_cons. destruct (decide (id ∈ f x :: (f <$> l))) as [Hin|Hin].
  - destruct (decide (f x ≠ id)) as [Hx|Hx].
    + apply elem_of_cons in Hin as [->|Hin]; [done|]. rewrite decide_True in IH by done.
      destruct IH as [IH1 IH2]. split; [|simpl; lia]. rewrite IH1 at 1. rewrite fmap_cons. apply perm_swap.
    + assert (f x = id) as <- by (destruct (decide (f x = id)); naive_solver).
      rewrite decide_False in IH by done. rewrite IH. split; [done|]. simpl. lia.
  - apply not_elem_of_cons in Hin as [Hx Hin]. rewrite decide_True by congruence.
    rewrite decide_False in IH by done. by rewrite IH.
Qed.

Lemma cancel_all_iter l b : book_ok b →
  Book.iter (fold_left (λ b id, (Book.remove b id).2) l b) = filter (λ r, r_id r ∉ l) (Book.iter b).
Proof.
  revert b. induction l as [|id l IH]; intros b Hb; simpl.
  - symmetry. apply filter_all, Forall_forall. intros. apply not_elem_of_nil.
  - destruct (remove_spec b id (ok_ids _ Hb)) as [-> _]. rewrite IH by by apply without_ok.
    rewrite iter_without. unfold drop_id. rewrite list_filter_filter. apply list_filter_iff.
    intros r. rewrite not_elem_of_cons. tauto.
Qed.

Lemma cancel_all_empties i : engine_ok i →
  let '(_, i') := L0.cancel_all i in engine_ok i' ∧ Book.resting_ids (book i') = [].
Proof.
  intros [Hb Hp Ht]. unfold L0.cancel_all. split; [split; [by apply cancel_all_ok|done|done]|].
  simpl. unfold Book.resting_ids at 1. rewrite cancel_all_iter by done.
  rewrite filter_none; [done|]. apply Forall_forall. intros r Hr Hn. apply Hn.
  by apply list_elem_of_fmap_2.
Qed.

Lemma l0_cancel_ids i id : engine_ok i →
  let '(b, i') := L0.cancel i id in engine_ok i' ∧
    Permutation (Book.resting_ids (book i)) (Book.resting_ids (book i') ++ (if b : bool then [id] else [])) .
Proof.
  intros Hi. pose proof (cancel_book i id (eng_book _ Hi)) as Hc.
  pose proof (remove_spec (book i) id (ok_ids _ (eng_book _ Hi))) as [_ Hs].
  unfold L0.cancel in *. destruct (Book.remove (book i) id) as [w b]. simpl in Hc, Hs. rewrite Hc. simpl.
  split; [destruct Hi; split; [by apply without_ok|done|done]|].
  unfold Book.resting_ids. rewrite iter_without. unfold drop_id.
  pose proof (filter_id_perm r_id id (Book.iter (book i)) (ok_ids _ (eng_book _ Hi))) as Hf.
  destruct w as [w|].
  - destruct Hs as [<- (r & Hr & <-)]. rewrite decide_True in Hf.
    + destruct Hf as [Hf _]. rewrite Hf at 1. apply Permutation_cons_append.
    + by apply (list_elem_of_fmap_2 r_id _ r).
  - rewrite decide_False in Hf by done. rewrite Hf. by rewrite app_nil_r.
Qed.

Lemma l1_submit_ids e w now e' : l1_ok e → working_ok w → w_id w ∉ ids_of e →
  L1.submit e w now = Ret e' → l1_ok e' ∧ Permutation (w_id w :: ids_of e) (ids_of e').
Proof.
  intros He Hw Hid H. unfold L1.submit, L1.submit_with_queue, L1.submit_queue in H. destruct (negb _).
  - injection H as <-. destruct He as [Hi Hd Hp Hq].
    assert (Permutation (w_id w :: ids_of e)
      (ids_of (L1.set_pending e (pending e ++ [mkPending None false None
         (sat64 (now + Delay.at_ (entry_delay (latency (policy e))) (w_id w))) w])))) as HP
      by (unfold ids_of; simpl; rewrite fmap_app; simpl; solve_Permutation).
    split; [|done]. split; [done| |apply Forall_app_2; [done|by apply Forall_singleton]|done].
    rewrite <-HP. by apply NoDup_cons.
  - apply admit_ok in H as [H HP]; [|done|done|done]. split; [done|]. by symmetry.
Qed.

(** Fewer orders, the same kinds: the invariant follows from the accounting. *)
Lemma l1_ok_sub e e' gone : l1_ok e → engine_ok (inner e') →
  Forall (λ p, working_ok (p_order p)) (pending e') → Forall (λ q, working_ok (q_order q)) (queued e') →
  Permutation (ids_of e) (ids_of e' ++ gone) → l1_ok e'.
Proof.
  intros [Hi Hd Hp Hq] ? ? ? HP. split; try done. rewrite HP in Hd. by apply NoDup_app in Hd as (? & _).
Qed.

Lemma l1_cancel_ids e id : l1_ok e →
  let '(b, e') := L1.cancel e id in
  l1_ok e' ∧ Permutation (ids_of e) (ids_of e' ++ (if b : bool then [id] else [])).
Proof.
  intros He. pose proof He as [Hi Hd Hp Hq]. unfold L1.cancel. unfold ids_of in Hd.
  apply NoDup_app in Hd as (Hd1 & Hx1 & (Hd2 & Hx2 & _)%NoDup_app).
  pose proof (filter_id_perm (λ p, w_id (p_order p)) id (pending e) Hd1) as F1.
  pose proof (filter_id_perm (λ q, w_id (q_order q)) id (queued e) Hd2) as F2. cbv beta in F1, F2.
  pose proof (Forall_retain _ (λ p, w_id (p_order p) ≠ id) _ Hp) as Hp'.
  pose proof (Forall_retain _ (λ q, w_id (q_order q) ≠ id) _ Hq) as Hq'.
  set (ps := filter (λ p, w_id (p_order p) ≠ id) (pending e)) in *.
  set (qs := filter (λ q, w_id (q_order q) ≠ id) (queued e)) in *.
  set (e1 := L1.set_queued (L1.set_pending e ps) qs).
  assert (Permutation (ids_of e) (ids_of e1 ++ [id]) → l1_ok e1 ∧ Permutation (ids_of e) (ids_of e1 ++ [id])) as Hfin
    by (intros HP; split; [by eapply l1_ok_sub|done]).
  destruct (decide (id ∈ (λ p, w_id (p_order p)) <$> pending e)) as [I1|I1].
  { destruct F1 as [F1 L1]. specialize (Hx1 id I1). rewrite elem_of_app in Hx1.
    rewrite decide_False in F2 by tauto. rewrite (proj2 (Nat.ltb_lt _ _)) by (rewrite F2; lia).
    apply Hfin. unfold ids_of, e1; simpl. rewrite F2, F1. solve_Permutation. }
  destruct (decide (id ∈ (λ q, w_id (q_order q)) <$> queued e)) as [I2|I2].
  { destruct F2 as [F2 L2]. rewrite (proj2 (Nat.ltb_lt _ _)) by (rewrite F1; lia).
    apply Hfin. unfold ids_of, e1; simpl. rewrite F1, F2. solve_Permutation. }
  rewrite (proj2 (Nat.ltb_ge _ _)) by (rewrite F1, F2; lia).
  pose proof (l0_cancel_ids (inner e) id Hi) as Hc.
  destruct (L0.cancel (inner e) id) as [b i]. destruct Hc as [Hi' HP].
  assert (Permutation (ids_of e) (ids_of (L1.set_inner e1 i) ++ (if b then [id] else []))) as HP'.
  { unfold ids_of, e1. simpl. rewrite F1, F2, HP. by rewrite <-!(assoc_L (++)). }
  split; [by eapply l1_ok_sub|done].
Qed.

Lemma l1_cancel_all_ids e : l1_ok e → let '(_, e') := L1.cancel_all e in l1_ok e' ∧ ids_of e' = [].
Proof.
  intros He. unfold L1.cancel_all. pose proof (cancel_all_empties (inner e) (l1_inner _ He)) as Hc.
  destruct (L0.cancel_all (inner e)) as [n i]. destruct Hc as [Hi' Hb].
  set (e' := L1.set_inner _ i).
  assert (ids_of e' = []) as E by (unfold ids_of, e'; simpl; by rewrite Hb).
  split; [|done]. eapply (l1_ok_sub e e' (ids_of e)); [done|done|done|done|by rewrite E].
Qed.

(** Every order is accounted for: whatever the host does, an order the
    engine was given is in flight, queued or on the book until it is filled or
    withdrawn, in exactly one of the three places; a submission adds one, a
    successful cancel removes exactly that one, a tick removes exactly the
    filled ones, and emptying the engine removes them all. *)
Theorem l1_orders_accounted (e : L1Engine) (o : Op) (s : Seen) (e' : L1Engine)
    (He : l1_ok e) (Hop : op_ok e o) (H : l1_op e o = Ret (s, e')) :
  l1_ok e' ∧ Permutation (joins_of o ++ ids_of e) (ids_of e' ++ leaves_of e e' o s).
Proof.
  destruct o as [w now|id| |t]; cbn [l1_op] in H.
  - destruct Hop as [Hw Hid]. apply bind_ret in H as (e1 & H1 & [= <- <-]). simpl. rewrite app_nil_r.
    by eapply l1_submit_ids.
  - pose proof (l1_cancel_ids e id He) as Hc. destruct (L1.cancel e id) as [b e1].
    injection H as <- <-. by destruct b.
  - pose proof (l1_cancel_all_ids e He) as Hc. destruct (L1.cancel_all e) as [n e1].
    injection H as <- <-. destruct Hc as [Hok E]. split; [done|]. by rewrite E.
  - apply bind_ret in H as ([out e1] & H1 & [= <- <-]). unfold L1Tick.on_tick in H1.
    apply bind_ret in H1 as ([[out' e2] u] & H1 & [= <- <-]). simpl. by eapply l1_tick_ids.
Qed.

(** * A concrete engine: one lot of latency on entry, two on response *)

Module DemoL1.
Definition pol : Policy := mkPolicy (FixedQueue 3) (mkLatency (FixedDelay 0) (FixedDelay 2)) 100.
Definition tick1 : Tick := Tick.with_volume (Tick.trades_only (mkStamp 1 1) 101 106 99) 10.
Definition tick2 : Tick := Tick.with_volume (Tick.trades_only (mkStamp 2 2) 100 104 98) 14.
Definition ops : list Op :=
  [Tock tick1; Submit (Demo.order 1 Buy (Limit 100) 10) 1; Submit (Demo.order 2 Buy Market 1) 1; Tock tick2].
Definition engine : L1Engine := match drive l1_op (L1.new 7 pol) ops with Ret (_, e) => e | _ => L1.new 7 pol end.
End DemoL1.

Lemma l1_reports_every_trade_once_witness :
  ∃ ss e, drive l1_op (L1.new 7 DemoL1.pol) DemoL1.ops = Ret (ss, e) ∧
    trades_made e = 2 ∧
    Permutation (concat (reported <$> ss) ++ (trade_of <$> fst (L1Tick.drain_unreported e))) [1; 2].
Proof.
  assert (∃ p, drive l1_op (L1.new 7 DemoL1.pol) DemoL1.ops = Ret p) as [[ss e] E] by (eexists; vm_compute; reflexivity).
  exists ss, e. split; [exact E|].
  pose proof (l1_reports_every_trade_once 7 DemoL1.pol DemoL1.ops ss e E) as HP.
  assert (trades_made e = 2) as T.
  { replace e with DemoL1.engine by (unfold DemoL1.engine; by rewrite E).
    vm_compute. reflexivity. }
  rewrite T in HP. split; [exact T|exact HP].
Defined.

Lemma l1_tick_fills_witness :
  ∃ out e', L1Tick.on_tick_with_impact DemoL1.engine (Tick.with_volume DemoL1.tick2 18)
      L1Tick.no_measure () = Ret (out, e', ()) ∧
    ∃ i produced adjusted, L0.on_tick i (Tick.with_volume DemoL1.tick2 18) = Ret (produced, inner e') ∧
      Forall2 no_better produced adjusted.
Proof.
  assert (∃ p, L1Tick.on_tick_with_impact DemoL1.engine (Tick.with_volume DemoL1.tick2 18)
      L1Tick.no_measure () = Ret p) as [[[out e'] []] E] by (eexists; vm_compute; reflexivity).
  exists out, e'. split; [exact E|].
  assert (0 ≤ coefficient (policy DemoL1.engine)) as Hc by (vm_compute; discriminate).
  destruct (l1_tick_fills DemoL1.engine _ _ _ _ out e' Hc E) as (i & p & a & H1 & H2 & _).
  exists i, p, a. split; assumption.
Defined.

Lemma l1_orders_accounted_witness :
  let e := L1.new 7 DemoL1.pol in
  let w := Demo.order 1 Buy (Limit 100) 10 in
  ∃ e', l1_op e (Submit w 5) = Ret (Accepted, e') ∧ l1_ok e' ∧ queued e' = [mkQueued 3 None w].
Proof.
  intros e w. eexists. split; [reflexivity|]. split; [|reflexivity].
  assert (l1_ok e) as He.
  { split; [|apply NoDup_nil_2|constructor|constructor].
    split; [apply book_new_ok|split; intros [? ?]; discriminate|simpl; lia]. }
  assert (op_ok e (Submit w 5)) as Hop.
  { split; [split; simpl; mlia|apply not_elem_of_nil]. }
  apply (l1_orders_accounted e (Submit w 5) Accepted _ He Hop). reflexivity.
Defined.
