(* ===== verification/L2.v ===== *)
(** The measured tier ([oq-engine/src/l2.rs]): a venue book beside an L1
    engine.  The displayed quantity at an order's price replaces the assumed
    queue, and takers pay the book they would have walked. *)

From S2P Require Import Prelude Slices Types Order Tick RestingBook L0 L0Correct L1 L1Correct Depth.

Record L2Engine := mkL2 {
  l2_inner : L1Engine;
  venue : VenueBook;
  has_snapshot : bool;
  invalid : bool;
  recovery_bar : bool;
  invalid_ticks : Z;
  refused : Z;
  swept : Z;
  unswept : Z;
}.

(** The depth that the fills of one tick share; a side is copied from the
    venue's book the first time it is needed. *)
Record WorkingDepth := mkWorkingDepth { wd_bids : option BookSide; wd_asks : option BookSide }.

Module WorkingDepth.
Definition empty : WorkingDepth := mkWorkingDepth None None.

(** The side a taker consumes, and the depth with that side replaced. *)
Definition side_for (w : WorkingDepth) (v : VenueBook) (s : Side) : BookSide :=
  match s with
  | Buy => default (vb_asks v) (wd_asks w)
  | Sell => default (vb_bids v) (wd_bids w)
  end.
Definition put_side (w : WorkingDepth) (s : Side) (l : BookSide) : WorkingDepth :=
  match s with
  | Buy => mkWorkingDepth (wd_bids w) (Some l)
  | Sell => mkWorkingDepth (Some l) (wd_asks w)
  end.

(** The volume-weighted price, rounded against the taker. *)
Definition vwap (s : Side) (sw : Sweep) : run Z :=
  match s with
  | Buy => a ← chk128 (cost sw + taken sw); b ← chk128 (a - 1); mret (Z.quot b (taken sw))
  | Sell => mret (Z.quot (cost sw) (taken sw))
  end.

Definition take (w : WorkingDepth) (v : VenueBook) (s : Side) (qty : QtyLots)
    : run (option PriceTicks * WorkingDepth) :=
  '(sw, l) ← BookSide.take (side_for w v s) qty;
  let w' := put_side w s l in
  if exhausted sw || (taken sw <=? 0) then mret (None, w')
  else p ← vwap s sw; mret (checked i64 p, w').
End WorkingDepth.

Definition displayed_from (v : VenueBook) (s : Side) (price : PriceTicks) : Z :=
  let ls := match s with Buy => levels (vb_bids v) | Sell => levels (vb_asks v) end in
  default 0 (l_qty <$> find (λ l, l_price l =? price) ls).

Definition queue_from (v : VenueBook) (known : bool) (s : Side) (price : PriceTicks) : option Z :=
  if known then Some (displayed_from v s price) else None.

Module L2.
Definition new (inner : L1Engine) : L2Engine :=
  mkL2 inner VenueBook.new false false false 0 0 0 0.

Definition set_inner (e : L2Engine) (i : L1Engine) : L2Engine :=
  mkL2 i (venue e) (has_snapshot e) (invalid e) (recovery_bar e) (invalid_ticks e) (refused e)
    (swept e) (unswept e).

Definition install_snapshot (e : L2Engine) (update_id : Z) (bids asks : list Level) : L2Engine :=
  let v := VenueBook.install_snapshot (venue e) update_id bids asks in
  let '(i, bar) :=
    if invalid e then (L1.resume_depth (l2_inner e) (displayed_from v), true)
    else (l2_inner e, recovery_bar e) in
  mkL2 i v true false bar (invalid_ticks e) (refused e) (swept e) (unswept e).

Definition on_gap (e : L2Engine) : L2Engine :=
  mkL2 (L1.invalidate_depth (l2_inner e)) VenueBook.new false true (recovery_bar e)
    (invalid_ticks e) (refused e) (swept e) (unswept e).

Definition install_snapshot_at (e : L2Engine) (at_ : Nanos) (update_id : Z) (bids asks : list Level) : L2Engine :=
  let e := if invalid e then e
           else set_inner e (L1.sample_arrivals (l2_inner e) (sat64 (at_ - 1))
                               (queue_from (venue e) (has_snapshot e))) in
  install_snapshot e update_id bids asks.

(** Queues are sampled as of just before the update; a refused update makes
    the book unknown until the next snapshot. *)
Definition on_depth (e : L2Engine) (u : DepthUpdate) : run (result () SequenceError * L2Engine) :=
  let before := sat64 (sat64 (event_ms u * 1000000) - 1) in
  let e := set_inner e (L1.sample_arrivals (l2_inner e) before (queue_from (venue e) (has_snapshot e))) in
  '(r, v) ← VenueBook.apply (venue e) u;
  match r with
  | Ok _ =>
      mret (Ok (), mkL2 (l2_inner e) v (has_snapshot e) (invalid e) (recovery_bar e)
                     (invalid_ticks e) (refused e) (swept e) (unswept e))
  | Err err =>
      n ← chku64 (refused e + 1);
      mret (Err err, on_gap (mkL2 (l2_inner e) v (has_snapshot e) (invalid e) (recovery_bar e)
                               (invalid_ticks e) n (swept e) (unswept e)))
  end.

Definition submit (e : L2Engine) (order : Working) (now : Nanos) : run L2Engine :=
  if invalid e then mret (set_inner e (L1.submit_while_depth_invalid (l2_inner e) order now))
  else
    let ahead := p ← w_price order; queue_from (venue e) (has_snapshot e) (w_side order) p in
    i ← L1.submit_from_book (l2_inner e) order now ahead;
    mret (set_inner e i).

(** The closure handed to L1: depth shared by the tick's fills, and counts. *)
Definition measure (v : VenueBook) : Measure (WorkingDepth * Z * Z) := λ '(w, sw, un) side qty,
  '(p, w) ← WorkingDepth.take w v side qty;
  match p with
  | Some price => n ← chku64 (sw + 1); mret (Some price, (w, n, un))
  | None => n ← chku64 (un + 1); mret (None, (w, sw, n))
  end.

Definition on_tick (e : L2Engine) (t : Tick) : run (list L0Fill * L2Engine) :=
  if invalid e || recovery_bar e then
    n ← chku64 (invalid_ticks e + 1);
    let '(out, i) := L1.on_invalid_tick (l2_inner e) t in
    mret (out, mkL2 i (venue e) (has_snapshot e) (invalid e) false n (refused e) (swept e) (unswept e))
  else
    let i := L1.sample_arrivals (l2_inner e) (exch (t_stamp t)) (queue_from (venue e) (has_snapshot e)) in
    '(out, i, (_, sw, un)) ←
      L1Tick.on_tick_with_impact i t (measure (venue e)) (WorkingDepth.empty, 0, 0);
    s ← chku64 (swept e + sw);
    u ← chku64 (unswept e + un);
    mret (out, mkL2 i (venue e) (has_snapshot e) (invalid e) (recovery_bar e) (invalid_ticks e)
                 (refused e) s u).

Definition drain_unreported (e : L2Engine) : list L0Fill * L2Engine :=
  let '(fs, i) := L1Tick.drain_unreported (l2_inner e) in (fs, set_inner e i).

Definition cancel (e : L2Engine) (id : OrderId) : bool * L2Engine :=
  let '(b, i) := L1.cancel (l2_inner e) id in (b, set_inner e i).
Definition cancel_all (e : L2Engine) : nat * L2Engine :=
  let '(n, i) := L1.cancel_all (l2_inner e) in (n, set_inner e i).
Definition displayed_at (e : L2Engine) : Side → PriceTicks → Z := displayed_from (venue e).
Definition ready (e : L2Engine) : bool := VenueBook.is_ready (venue e).
Definition restore_ids (e : L2Engine) (w : Z * Z) : L2Engine := set_inner e (l1_restore_ids (l2_inner e) w).
End L2.

(** * What a taker pays *)

Definition prices_nonneg (s : BookSide) : Prop := Forall (λ l, 0 ≤ l_price l) (levels s).

Lemma greedy_nonneg ls w : Forall positive ls → Forall (λ l, 0 ≤ l_price l) ls → 0 ≤ w → 0 ≤ greedy ls w.
Proof.
  intros Hp. revert w. induction Hp as [|l ls Hl Hp IH]; intros w Hn Hw; simpl; [done|].
  apply Forall_cons in Hn as [Hl0 Hn]. unfold positive in Hl. specialize (IH (w - Z.min w (l_qty l)) Hn ltac:(lia)).
  assert (0 ≤ l_price l * Z.min w (l_qty l)) by (apply Z.mul_nonneg_nonneg; lia). lia.
Qed.

Lemma greedy_le_max ls w : Forall positive ls → Forall level_i64 ls → 0 ≤ w → w ≤ total ls →
  greedy ls w ≤ I64_MAX * w.
Proof.
  intros Hp. revert w. induction Hp as [|l ls Hl Hp IH]; intros w Hi Hw Ht; simpl in *; [lia|].
  apply Forall_cons in Hi as [[Hpr _] Hi]. unfold positive in Hl. pose proof (total_nonneg ls Hp).
  specialize (IH (w - Z.min w (l_qty l)) Hi ltac:(lia) ltac:(lia)).
  assert (l_price l * Z.min w (l_qty l) ≤ I64_MAX * Z.min w (l_qty l))
    by (apply Z.mul_le_mono_nonneg_r; mlia).
  lia.
Qed.

(** The two roundings of an average price. *)
Lemma vwap_buy sw : 0 < taken sw → 0 ≤ cost sw → i128 (cost sw + taken sw) →
  returns (WorkingDepth.vwap Buy sw) (λ p, cost sw ≤ p * taken sw < cost sw + taken sw).
Proof.
  intros Ht Hc Hi. unfold WorkingDepth.vwap. apply returns_bind, returns_chk; [done|].
  apply returns_bind, returns_chk; [mlia|]. apply returns_ret.
  rewrite Z.quot_div_nonneg by lia.
  pose proof (Z.mul_div_le (cost sw + taken sw - 1) (taken sw) Ht).
  pose proof (Z.mul_succ_div_gt (cost sw + taken sw - 1) (taken sw) Ht). lia.
Qed.

Lemma vwap_sell sw : 0 < taken sw → 0 ≤ cost sw →
  returns (WorkingDepth.vwap Sell sw) (λ p, p * taken sw ≤ cost sw < p * taken sw + taken sw).
Proof.
  intros Ht Hc. unfold WorkingDepth.vwap. apply returns_ret. rewrite Z.quot_div_nonneg by lia.
  pose proof (Z.mul_div_le (cost sw) (taken sw) Ht). pose proof (Z.mul_succ_div_gt (cost sw) (taken sw) Ht). lia.
Qed.

(** A measured taker pays the displayed book: where the side holds enough,
    the price is the average of the levels swept, rounded to the tick against
    the taker (never in its favour, and by less than one tick); where it does
    not, there is no measured price; and what is taken is gone for the rest of
    the tick. *)
Theorem measured_price_is_the_sweep (w : WorkingDepth) (v : VenueBook) (s : Side) (q : QtyLots)
    (Hs : side_ok (WorkingDepth.side_for w v s)) (Hi : side_i64 (WorkingDepth.side_for w v s))
    (Hp : prices_nonneg (WorkingDepth.side_for w v s)) (Hq : 0 < q) (Hq64 : i64 q) :
  returns (WorkingDepth.take w v s q) (λ '(p, w'),
    let ls := levels (WorkingDepth.side_for w v s) in
    levels (WorkingDepth.side_for w' v s) = rest ls q ∧
    match p with
    | None => total ls < q
    | Some p => q ≤ total ls ∧
        match s with
        | Buy => greedy ls q ≤ p * q < greedy ls q + q
        | Sell => p * q ≤ greedy ls q < p * q + q
        end
    end).
Proof.
  unfold WorkingDepth.take. set (side := WorkingDepth.side_for w v s) in *.
  destruct (take_eq side q Hs Hi Hq64) as (sw & Esw & ->). cbn [mbind run_bind].
  rewrite sweep_eq in Esw by done. rewrite (Z.max_l q 0) in * by lia. injection Esw as <-.
  pose proof Hs as [_ Hpos]. pose proof (total_nonneg _ Hpos). simpl.
  assert (levels (WorkingDepth.side_for (WorkingDepth.put_side w s
    (BookSide.with_levels side (rest (levels side) q))) v s) = rest (levels side) q) as Hput
    by (by destruct s).
  destruct (Z.ltb_spec (total (levels side)) q); simpl; [by apply returns_ret|].
  rewrite Z.min_l by lia. destruct (Z.leb_spec q 0); [lia|].
  assert (0 ≤ q) as Hq0 by lia. pose proof (greedy_nonneg _ q Hpos Hp Hq0) as Hg0.
  pose proof (greedy_le_max _ q Hpos Hi Hq0 ltac:(lia)) as Hg1.
  assert (i128 (greedy (levels side) q + q)) as H128 by mlia.
  apply returns_bind. set (sw := mkSweep q _ _).
  assert (returns (WorkingDepth.vwap s sw) (λ p, i64 p ∧
    match s with
    | Buy => greedy (levels side) q ≤ p * q < greedy (levels side) q + q
    | Sell => p * q ≤ greedy (levels side) q < p * q + q
    end)) as Hv.
  { destruct s.
    - eapply returns_mono; [apply (vwap_buy sw); simpl; [lia|lia|done]|]. simpl. intros p Hpq.
      split; [|done]. assert (0 ≤ p) by nia. assert (p < I64_MAX + 1) by nia. mlia.
    - eapply returns_mono; [apply (vwap_sell sw); simpl; [lia|lia]|]. simpl. intros p Hpq.
      split; [|done]. assert (-1 < p) by nia. assert (p ≤ I64_MAX) by nia. mlia. }
  eapply returns_mono; [exact Hv|]. intros p [Hp64 Hpq]. apply returns_ret. simpl.
  unfold checked. rewrite decide_True by done. done.
Qed.

(** * Matching stops while the book is unknown *)

(** Ticks, one after another, and everything they report. *)
Fixpoint l2_ticks (e : L2Engine) (ts : list Tick) : run (list L0Fill * L2Engine) :=
  match ts with
  | [] => mret ([], e)
  | t :: ts => '(fs, e) ← L2.on_tick e t; '(gs, e) ← l2_ticks e ts; mret (fs ++ gs, e)
  end.

Definition waiting (e : L2Engine) : list L0Fill := d_fill <$> delayed (l2_inner e).

Lemma invalid_tick e t fs e' : invalid e || recovery_bar e = true → L2.on_tick e t = Ret (fs, e') →
  invalid e' = invalid e ∧ book (inner (l2_inner e')) = book (inner (l2_inner e)) ∧
  ids (inner (l2_inner e')) = ids (inner (l2_inner e)) ∧
  Permutation (fs ++ waiting e') (waiting e).
Proof.
  intros Hb H. unfold L2.on_tick in H. rewrite Hb in H. apply bind_ret in H as (n & _ & H).
  unfold L1.on_invalid_tick in H. injection H as <- <-. split_and!; try done.
  unfold waiting. simpl. by rewrite <-fmap_app, filter_split_perm.
Qed.

Lemma invalid_ticks_nothing ts e fs e' : invalid e = true → l2_ticks e ts = Ret (fs, e') →
  invalid e' = true ∧ book (inner (l2_inner e')) = book (inner (l2_inner e)) ∧
  ids (inner (l2_inner e')) = ids (inner (l2_inner e)) ∧
  Permutation (fs ++ waiting e') (waiting e).
Proof.
  revert e fs. induction ts as [|t ts IH]; intros e fs Hi; cbn [l2_ticks]; [by intros [= <- <-]|].
  intros H. apply bind_ret in H as ([f1 e1] & H1 & H). apply bind_ret in H as ([f2 e2] & H2 & [= <- <-]).
  apply invalid_tick in H1 as (I1 & B1 & D1 & P1); [|by rewrite Hi].
  apply IH in H2 as (I2 & B2 & D2 & P2); [|congruence]. split_and!; [done|congruence|congruence|].
  by rewrite <-(assoc_L (++)), P2.
Qed.

(** After a sequence error the engine does not match against a book it no
    longer knows: however many ticks follow the refused update, and on the
    first tick after the next snapshot too, no order trades, no trade number
    is given out, and only fills already made are reported. *)
Theorem refused_depth_stops_matching (e e1 e2 e3 : L2Engine) (u : DepthUpdate) (err : SequenceError)
    (ts : list Tick) (t : Tick) (fs gs : list L0Fill) (id : Z) (bids asks : list Level)
    (Hu : L2.on_depth e u = Ret (Err err, e1)) (Hts : l2_ticks e1 ts = Ret (fs, e2))
    (Ht : L2.on_tick (L2.install_snapshot e2 id bids asks) t = Ret (gs, e3)) :
  book (inner (l2_inner e2)) = book (inner (l2_inner e)) ∧
  ids (inner (l2_inner e3)) = ids (inner (l2_inner e)) ∧
  Permutation (fs ++ gs ++ waiting e3) (waiting e) ∧
  recovery_bar e3 = false ∧ invalid e3 = false.
Proof.
  assert (invalid e1 = true ∧ book (inner (l2_inner e1)) = book (inner (l2_inner e)) ∧
    ids (inner (l2_inner e1)) = ids (inner (l2_inner e)) ∧ waiting e1 = waiting e) as (I1 & B1 & D1 & W1).
  { unfold L2.on_depth in Hu. apply bind_ret in Hu as ([r v] & _ & Hu). destruct r; [done|].
    apply bind_ret in Hu as (n & _ & [= _ <-]). done. }
  apply invalid_ticks_nothing in Hts as (I2 & B2 & D2 & P2); [|done].
  set (e2s := L2.install_snapshot e2 id bids asks) in *.
  assert (recovery_bar e2s = true ∧ invalid e2s = false ∧ waiting e2s = waiting e2 ∧
    ids (inner (l2_inner e2s)) = ids (inner (l2_inner e2))) as (R & I & W & D).
  { unfold e2s, L2.install_snapshot. rewrite I2. unfold L1.resume_depth.
    set (i0 := L0.forget_price_path _). set (q := displayed_from _).
    assert (∀ rs i qs, ids (L1.requeue q i rs qs).1 = ids i) as Hr.
    { induction rs as [|r rs IH]; intros i qs; simpl; [done|]. destruct (w_price (r_order r)); [|apply IH].
      destruct (_ >? 0); [|apply IH]. rewrite IH. unfold L0.cancel. by destruct (Book.remove _ _). }
    specialize (Hr (sort_by_key r_arrival (Book.iter (book i0))) i0 (queued (l2_inner e2))).
    destruct (L1.requeue _ _ _ _) as [i qs]. simpl in *. done. }
  assert (recovery_bar e3 = false ∧ invalid e3 = invalid e2s) as [R3 I3].
  { unfold L2.on_tick in Ht. rewrite R, orb_true_r in Ht. apply bind_ret in Ht as (n & _ & Ht).
    unfold L1.on_invalid_tick in Ht. by injection Ht as <- <-. }
  apply invalid_tick in Ht as (_ & _ & D3 & P3); [|by rewrite R, orb_true_r].
  split_and!; [congruence|congruence| |done|congruence].
  rewrite W1 in P2. rewrite W in P3. by rewrite P3, P2.
Qed.

Lemma measured_price_is_the_sweep_witness :
  let v := mkVenue BookSide.bids demo_asks None None 0 in
  returns (WorkingDepth.take WorkingDepth.empty v Buy 7) (λ '(p, w'), p = Some 101).
Proof.
  intros v. destruct demo_asks_ok as [H1 H2].
  pose proof (measured_price_is_the_sweep WorkingDepth.empty v Buy 7 H1 H2
    ltac:(repeat constructor; simpl; lia) ltac:(lia) ltac:(mlia)) as ([p w'] & E & H).
  exists (p, w'). split; [exact E|]. destruct H as [_ H]. destruct p as [p|]; [|vm_compute in H; discriminate].
  destruct H as [_ H]. change (702 ≤ p * 7 < 709) in H. f_equal. lia.
Defined.

Lemma refused_depth_stops_matching_witness :
  let e := L2.new (L1.new 7 TRANSPARENT) in
  let u := mkUpdate 0 1 2 None [] [] in
  ∃ e1 fs e2 gs e3, L2.on_depth e u = Ret (Err NoSnapshot, e1) ∧
    l2_ticks e1 [Demo.tick] = Ret (fs, e2) ∧
    L2.on_tick (L2.install_snapshot e2 5 [] []) Demo.tick = Ret (gs, e3) ∧ fs ++ gs = [] ∧
    invalid e3 = false.
Proof.
  intros e u. do 5 eexists. split; [reflexivity|]. split; [reflexivity|]. split; [reflexivity|].
  split; [reflexivity|].
  apply (refused_depth_stops_matching e _ _ _ u NoSnapshot [Demo.tick] Demo.tick _ _ 5 [] [] eq_refl eq_refl eq_refl).
Defined.
