(* ===== verification/Matcher.v ===== *)
(** The tier a holding matches with ([oq-core/src/matcher.rs]), and the
    interface it gives the kernel.

    The kernel needs of a matcher only what [MatcherOps] lists; its theorems
    are proved against that interface and its laws ([MatcherLaws]), and this
    file discharges them for the three tiers. *)

From S2P Require Import Prelude Slices Types Order Tick RestingBook L0 L0Correct L1 L1Correct Depth L2.

Inductive Matcher :=
| ML0 (e : L0Engine)
| ML1 (e : L1Engine)
| ML2 (e : L2Engine).

Inductive DepthOutcome := DepthApplied | DepthRefused (e : SequenceError) | NotRead.

#[export] Instance DepthOutcome_eq_dec : EqDecision DepthOutcome.
Proof. solve_decision. Defined.

Module Matcher.
Definition l0 (i : InstrumentId) : Matcher := ML0 (L0.new i).

Definition submit (m : Matcher) (order : Working) (now : Nanos) : run Matcher :=
  match m with
  | ML0 e => e ← L0.submit e order; mret (ML0 e)
  | ML1 e => e ← L1.submit e order now; mret (ML1 e)
  | ML2 e => e ← L2.submit e order now; mret (ML2 e)
  end.

Definition cancel (m : Matcher) (id : OrderId) : bool * Matcher :=
  match m with
  | ML0 e => let '(b, e) := L0.cancel e id in (b, ML0 e)
  | ML1 e => let '(b, e) := L1.cancel e id in (b, ML1 e)
  | ML2 e => let '(b, e) := L2.cancel e id in (b, ML2 e)
  end.

Definition cancel_all (m : Matcher) : nat * Matcher :=
  match m with
  | ML0 e => let '(n, e) := L0.cancel_all e in (n, ML0 e)
  | ML1 e => let '(n, e) := L1.cancel_all e in (n, ML1 e)
  | ML2 e => let '(n, e) := L2.cancel_all e in (n, ML2 e)
  end.

Definition on_tick (m : Matcher) (t : Tick) : run (list L0Fill * Matcher) :=
  match m with
  | ML0 e => '(fs, e) ← L0.on_tick e t; mret (fs, ML0 e)
  | ML1 e => '(fs, e) ← L1Tick.on_tick e t; mret (fs, ML1 e)
  | ML2 e => '(fs, e) ← L2.on_tick e t; mret (fs, ML2 e)
  end.

Definition drain_unreported (m : Matcher) : list L0Fill * Matcher :=
  match m with
  | ML0 e => ([], ML0 e)
  | ML1 e => let '(fs, e) := L1Tick.drain_unreported e in (fs, ML1 e)
  | ML2 e => let '(fs, e) := L2.drain_unreported e in (fs, ML2 e)
  end.

(** The L0 engine at the bottom of every tier. *)
Definition base (m : Matcher) : L0Engine :=
  match m with ML0 e => e | ML1 e => inner e | ML2 e => inner (l2_inner e) end.

Definition book (m : Matcher) : Book := book (base m).
Definition instrument (m : Matcher) : InstrumentId := instrument (base m).
Definition last_price (m : Matcher) : option PriceTicks := L0.last_price (base m).
Definition id_watermark (m : Matcher) : Z * Z := L0.id_watermark (base m).

Definition shadowed (m : Matcher) : nat :=
  match m with ML0 _ => 0%nat | ML1 e => L1.shadowed e | ML2 e => L1.shadowed (l2_inner e) end.

Definition restore_ids (m : Matcher) (w : Z * Z) : Matcher :=
  match m with
  | ML0 e => ML0 (L0.restore_ids e w)
  | ML1 e => ML1 (l1_restore_ids e w)
  | ML2 e => ML2 (L2.restore_ids e w)
  end.

Definition on_depth (m : Matcher) (u : DepthUpdate) : run (DepthOutcome * Matcher) :=
  match m with
  | ML0 _ | ML1 _ => mret (NotRead, m)
  | ML2 e =>
      '(r, e) ← L2.on_depth e u;
      mret (match r with Ok _ => DepthApplied | Err x => DepthRefused x end, ML2 e)
  end.

Definition on_gap (m : Matcher) : bool * Matcher :=
  match m with ML2 e => (true, ML2 (L2.on_gap e)) | _ => (false, m) end.

Definition invalid_depth_ticks (m : Matcher) : Z :=
  match m with ML2 e => invalid_ticks e | _ => 0 end.

Definition install_snapshot (m : Matcher) (id : Z) (bids asks : list Level) : bool * Matcher :=
  match m with ML2 e => (true, ML2 (L2.install_snapshot e id bids asks)) | _ => (false, m) end.

Definition install_snapshot_at (m : Matcher) (at_ : Nanos) (id : Z) (bids asks : list Level)
    : bool * Matcher :=
  match m with ML2 e => (true, ML2 (L2.install_snapshot_at e at_ id bids asks)) | _ => (false, m) end.
End Matcher.
