(* ===== verification/Cost.v ===== *)
(** The cost basis of a position leg ([oq-core/src/cost.rs]) and what closing
    part of it realizes. *)

From S2P Require Import Prelude Types Margin.

Record EntryCost := mkEntryCost { ec_qty : QtyLots; ec_entry : PriceTicks; ec_value : Z }.

#[export] Instance EntryCost_eq_dec : EqDecision EntryCost.
Proof. solve_decision. Defined.

Module EntryCost.
Definition default : EntryCost := mkEntryCost 0 0 0.

(** The recorded basis, or the one the entry price implies when the leg was
    set by hand. *)
Definition value (e : EntryCost) (c : Contract) (qty : QtyLots) (entry : PriceTicks) : Z :=
  if QtyLots.is_zero qty then 0
  else if (qty =? ec_qty e) && (entry =? ec_entry e) then ec_value e
  else notional_wide c entry qty.

Definition set (qty : QtyLots) (entry : PriceTicks) (value : Z) : EntryCost := mkEntryCost qty entry value.
End EntryCost.

(** Close [closing] of [held]: the basis left and the profit realized.  [%]
    and [/] on [i128] truncate and panic on a zero divisor. *)
Definition close (cost : Z) (held : QtyLots) (closing exit : Z) : run (Z * Cash) :=
  let size := i64_saturating_abs held in
  if size =? 0 then Panic
  else
    remainder ← chk128 (Z.rem cost size * closing);
    let allocated := sat128 (sat128 (Z.quot cost size * closing) + Z.quot remainder size) in
    let sign := if 0 <? held then 1 else -1 in
    let pnl := sat128 (sat128 (exit - allocated) * sign) in
    pnl ← (if negb (Z.rem remainder size =? 0) &&
              ((0 <? pnl) && (0 <? sign) || (pnl <? 0) && (sign <? 0))
           then chk128 (pnl - sign) else mret pnl);
    let consumed := sat128 (exit - sat128 (pnl * sign)) in
    let left := if closing =? i64_saturating_abs held then 0 else sat128 (cost - consumed) in
    mret (left, sat64 pnl).

(** * Exactness *)

Definition sign_of (held : QtyLots) : Z := if 0 <? held then 1 else -1.

(** A position and a price whose arithmetic fits: cost and exit are cash
    amounts, the size a quantity. *)
Record close_fits (cost : Z) (held : QtyLots) (closing exit : Z) : Prop := {
  fit_held : i64 held ∧ held ≠ 0 ∧ held ≠ I64_MIN;
  fit_closing : 0 ≤ closing ≤ Z.abs held;
  fit_cost : 0 ≤ cost ≤ I64_MAX;
  fit_exit : 0 ≤ exit ≤ I64_MAX;
}.

(** The share of the basis that is closed, rounded down. *)
Lemma allocated_floor cost size closing : 0 ≤ cost → 0 < size → 0 ≤ closing →
  Z.quot cost size * closing + Z.quot (Z.rem cost size * closing) size = cost * closing / size.
Proof.
  intros Hc Hs Hq. rewrite Z.quot_div_nonneg, Z.rem_mod_nonneg by lia.
  pose proof (Z.mod_pos_bound cost size Hs). rewrite Z.quot_div_nonneg by nia.
  rewrite (Z.div_mod cost size) at 3 by lia.
  replace ((size * (cost / size) + cost mod size) * closing)
    with (cost mod size * closing + (cost / size * closing) * size) by lia.
  rewrite Z.div_add by lia. lia.
Qed.

Lemma frac_zero cost size closing : 0 ≤ cost → 0 < size → 0 ≤ closing →
  Z.rem (Z.rem cost size * closing) size = (cost * closing) mod size.
Proof.
  intros Hc Hs Hq. rewrite (Z.rem_mod_nonneg cost) by lia.
  pose proof (Z.mod_pos_bound cost size Hs). rewrite Z.rem_mod_nonneg by nia.
  by rewrite Z.mul_mod_idemp_l by lia.
Qed.

Lemma quot_pos a b q : 0 < b → 0 ≤ q → b * q ≤ a < b * q + b → Z.quot a b = q.
Proof. intros. symmetry. apply (Z.quot_unique a b q (a - b * q)); nia. Qed.

Lemma quot_neg a b q : 0 < b → q ≤ 0 → b * q - b < a ≤ b * q → Z.quot a b = q.
Proof.
  intros. replace a with (- (- a)) by lia. rewrite Z.quot_opp_l by lia.
  rewrite (quot_pos (- a) b (- q)); lia.
Qed.

(** The adjustment the code makes turns the rounded-down share into the exact
    profit truncated toward zero. *)
Lemma trunc_adjust s exit x size : s = 1 ∨ s = -1 → 0 < size →
  let f := x mod size in
  let p0 := (exit - x / size) * s in
  let adjusted := negb (f =? 0) && ((0 <? p0) && (0 <? s) || (p0 <? 0) && (s <? 0)) in
  Z.quot (s * (exit * size - x)) size = (if adjusted then p0 - s else p0).
Proof.
  intros Hs Hz. cbv zeta. pose proof (Z.div_mod x size ltac:(lia)) as Hdm.
  pose proof (Z.mod_pos_bound x size ltac:(lia)) as Hmb.
  set (f := x mod size) in *. set (k := x / size) in *.
  assert (s * (exit * size - x) = size * ((exit - k) * s) - s * f) as -> by (rewrite Hdm at 1; ring).
  set (p0 := (exit - k) * s). clearbody p0 f. clear Hdm.
  destruct (Z.eqb_spec f 0) as [->|Hf]; simpl.
  { rewrite Z.mul_0_r, Z.sub_0_r, Z.mul_comm. apply Z.quot_mul. lia. }
  destruct Hs as [-> | ->]; simpl.
  - rewrite andb_true_r, andb_false_r, orb_false_r.
    destruct (Z.ltb_spec 0 p0); [apply quot_pos|apply quot_neg]; lia.
  - rewrite andb_true_r, andb_false_r, orb_false_l.
    destruct (Z.ltb_spec p0 0); [apply quot_neg|apply quot_pos]; lia.
Qed.

(** What [close] computes when everything fits: the exact profit truncated
    toward zero, with the discarded fraction left in the basis. *)
Lemma close_spec cost held closing exit : close_fits cost held closing exit →
  ∃ pnl left, close cost held closing exit = Ret (left, pnl) ∧
    i64 pnl ∧ 0 ≤ left ≤ cost ∧
    sign_of held * pnl = exit - (cost - left) ∧
    (closing = Z.abs held → left = 0) ∧
    pnl = Z.quot (sign_of held * (exit * Z.abs held - cost * closing)) (Z.abs held).
Proof.
  intros [(Hh & Hh0 & Hhm) Hcl Hc He]. set (size := Z.abs held).
  assert (0 < size ≤ I64_MAX) as Hs by (unfold size; mlia). unfold close.
  rewrite (sat64_abs_abs held) by done. fold size in Hcl |- *.
  destruct (Z.eqb_spec size 0); [lia|].
  pose proof (Z.rem_bound_pos cost size ltac:(lia) ltac:(lia)) as Hr.
  rewrite chk_ret.
  2: { assert (0 ≤ Z.rem cost size * closing ≤ I64_MAX * I64_MAX) by nia. mlia. }
  cbn [mbind run_bind].
  assert (0 ≤ Z.quot cost size * closing ≤ I64_MAX * I64_MAX) as Hq1.
  { rewrite Z.quot_div_nonneg by lia. assert (0 ≤ cost / size ≤ cost).
    { split; [apply Z.div_pos; lia|]. apply Z.div_le_upper_bound; nia. } nia. }
  rewrite (sat128_id (Z.quot cost size * closing)) by mlia.
  rewrite allocated_floor, frac_zero by lia. set (x := cost * closing).
  assert (0 ≤ x / size ≤ cost) as Hx.
  { split; [apply Z.div_pos; unfold x; nia|]. apply Z.div_le_upper_bound; [lia|]. unfold x. nia. }
  rewrite (sat128_id (x / size)) by mlia. rewrite (sat128_id (exit - x / size)) by mlia.
  change (if 0 <? held then 1 else -1) with (sign_of held).
  assert (sign_of held = 1 ∨ sign_of held = -1) as Hsg by (unfold sign_of; destruct (0 <? held); auto).
  rewrite (sat128_id ((exit - x / size) * sign_of held)) by (destruct Hsg as [-> | ->]; mlia).
  pose proof (trunc_adjust (sign_of held) exit x size Hsg ltac:(lia)) as Htr. cbv zeta in Htr.
  set (p0 := (exit - x / size) * sign_of held) in *.
  set (adj := negb (x mod size =? 0) && _) in *.
  remember (Z.quot (sign_of held * (exit * size - x)) size) as pnl eqn:Epnl.
  assert (∃ d, (d = 0 ∨ d = 1 ∧ x mod size ≠ 0) ∧ sign_of held * pnl = exit - x / size - d) as (d & Hd & Hpd).
  { exists (if adj then 1 else 0). split.
    - unfold adj. destruct (Z.eqb_spec (x mod size) 0); simpl; [by left|].
      destruct (_ || _); [right; done|by left].
    - rewrite Htr. unfold p0. destruct adj, Hsg as [-> | ->]; lia. }
  assert ((if adj then chk128 (p0 - sign_of held) else mret p0) = Ret pnl) as ->.
  { rewrite Htr. destruct adj; [|done]. apply chk_ret. unfold p0. destruct Hsg as [-> | ->]; mlia. }
  cbn [mbind run_bind].
  assert (x mod size ≠ 0 → x / size < cost) as Hlt.
  { intros Hm. pose proof (Z.div_mod x size ltac:(lia)). assert (x ≤ cost * size) by (unfold x; nia).
    apply Z.div_lt_upper_bound; [lia|]. assert (x ≠ size * cost); [|lia]. intros E. apply Hm.
    rewrite E, Z.mul_comm. apply Z.mod_mul. lia. }
  assert (- I64_MAX ≤ sign_of held * pnl ≤ I64_MAX) as Hp
    by (destruct Hd as [->|[-> Hd]]; try specialize (Hlt Hd); lia).
  assert (- I64_MAX ≤ pnl ≤ I64_MAX) as Hp' by (destruct Hsg as [E|E]; rewrite E in Hp; lia).
  rewrite (sat128_id (pnl * sign_of held)) by (destruct Hsg as [-> | ->]; mlia).
  rewrite (sat128_id (exit - pnl * sign_of held)) by (destruct Hsg as [-> | ->]; mlia).
  rewrite sat64_id by mlia. rewrite (sat128_id (cost - _)) by (destruct Hsg as [-> | ->]; mlia).
  eexists pnl, _. split; [reflexivity|]. split; [mlia|].
  destruct (Z.eqb_spec closing size) as [->|Hne].
  - assert (x / size = cost ∧ x mod size = 0) as [E1 E2]
      by (unfold x; split; [apply Z.div_mul; lia|apply Z.mod_mul; lia]).
    split_and!; [lia|lia| |done|done]. destruct Hd as [->|[_ Hd]]; [lia|done].
  - split_and!; try lia; try done; destruct Hd as [->|[-> Hd]]; try specialize (Hlt Hd); lia.
Qed.

(** * Closing in pieces *)

(** A leg closed piece by piece, each piece with its own exit value. *)
Fixpoint closes (cost : Z) (held : QtyLots) (cs : list (Z * Z)) : run (Z * QtyLots * list Cash) :=
  match cs with
  | [] => mret (cost, held, [])
  | (closing, exit) :: cs =>
      '(basis, pnl) ← close cost held closing exit;
      '(l, h, pnls) ← closes basis (held - closing * sign_of held) cs;
      mret (l, h, pnl :: pnls)
  end.

Lemma zsum_nonneg (cs : list (Z * Z)) :
  Forall (λ c, 0 < c.1 ∧ 0 ≤ c.2 ≤ I64_MAX) cs → 0 ≤ zsum (fst <$> cs).
Proof.
  unfold zsum. induction 1 as [|[q x] cs [Hq _] H IH]; [done|].
  rewrite fmap_cons. simpl in *. lia.
Qed.

Lemma sign_of_step held closing : held ≠ 0 → 0 ≤ closing < Z.abs held →
  let h := held - closing * sign_of held in
  sign_of h = sign_of held ∧ Z.abs h = Z.abs held - closing ∧ h ≠ 0.
Proof.
  intros H0 Hc. unfold sign_of. cbv zeta. destruct (Z.ltb_spec 0 held).
  - rewrite (proj2 (Z.ltb_lt 0 (held - closing * 1))) by lia. split_and!; lia.
  - rewrite (proj2 (Z.ltb_ge 0 (held - closing * -1))) by lia. split_and!; lia.
Qed.

(** Closing a leg in pieces loses nothing to rounding: whatever the
    pieces, the profits they realize add up to the proceeds less exactly the
    part of the basis that is gone, and when the last lot is closed the whole
    basis is: the total profit is the total proceeds minus the cost.  Every
    piece's profit is the exact one truncated toward zero. *)
Theorem closes_telescope (cost : Z) (held : QtyLots) (cs : list (Z * Z))
    (Hh : i64 held) (Hh0 : held ≠ 0) (Hhm : held ≠ I64_MIN) (Hc : 0 ≤ cost ≤ I64_MAX)
    (Hcs : Forall (λ c, 0 < c.1 ∧ 0 ≤ c.2 ≤ I64_MAX) cs)
    (Hsum : zsum (fst <$> cs) ≤ Z.abs held) :
  returns (closes cost held cs) (λ '(basis, h, pnls),
    sign_of held * zsum pnls = zsum (snd <$> cs) - (cost - basis) ∧
    0 ≤ basis ≤ cost ∧ Z.abs h = Z.abs held - zsum (fst <$> cs) ∧
    (cs ≠ [] → h = 0 → basis = 0)).
Proof.
  revert cost held Hh Hh0 Hhm Hc Hsum. induction Hcs as [|[q x] cs [Hq Hx] Hcs IH];
    intros cost held Hh Hh0 Hhm Hc Hsum.
  { apply returns_ret. unfold zsum. split_and!; simpl; lia. }
  change (zsum (fst <$> (q, x) :: cs)) with (q + zsum (fst <$> cs)) in *.
  change (zsum (snd <$> (q, x) :: cs)) with (x + zsum (snd <$> cs)) in *. simpl in Hq, Hx.
  pose proof (zsum_nonneg cs Hcs) as Hs0. cbn [closes].
  destruct (close_spec cost held q x) as (pnl & basis & -> & Hp & Hl & Hs & Hfull & _); [split; [done|lia|lia|lia]|].
  cbn [mbind run_bind]. destruct (decide (q = Z.abs held)) as [Hlast|Hmore].
  - specialize (Hfull Hlast). destruct cs as [|[q' x'] cs].
    + apply returns_ret. unfold zsum. simpl. split_and!; try lia. unfold sign_of.
      destruct (Z.ltb_spec 0 held); lia.
    + apply Forall_cons in Hcs as [[Hq' _] Hcs]. pose proof (zsum_nonneg cs Hcs). simpl in Hq'.
      change (zsum (fst <$> (q', x') :: cs)) with (q' + zsum (fst <$> cs)) in *. lia.
  - destruct (sign_of_step held q) as (E1 & E2 & E3); [done|lia|].
    apply returns_bind. eapply returns_mono.
    + apply (IH basis (held - q * sign_of held)); [mlia|done|mlia|lia|lia].
    + intros [[l h] pnls] (H1 & H2 & H3 & H4). apply returns_ret. rewrite E1 in H1.
      change (zsum (pnl :: pnls)) with (pnl + zsum pnls). rewrite E2 in H3. split_and!; try lia. intros _ Hh'. destruct cs; [unfold zsum in H3; simpl in H3; lia|]. by apply H4.
Qed.

Lemma closes_telescope_witness :
  returns (closes 100 (-7) [(3, 40); (2, 35); (2, 33)]) (λ '(basis, h, pnls),
    pnls = [2; -6; -4] ∧ - zsum pnls = 108 - 100 ∧ basis = 0).
Proof.
  pose proof (closes_telescope 100 (-7) [(3, 40); (2, 35); (2, 33)] ltac:(mlia) ltac:(lia) ltac:(lia)
    ltac:(lia) ltac:(repeat constructor; simpl; lia) ltac:(simpl; lia)) as ([[l h] ps] & E & H1 & _ & H3 & H4).
  exists (l, h, ps). split; [exact E|]. simpl in H3.
  assert (h = 0) as Hh by lia. specialize (H4 ltac:(discriminate) Hh). subst l.
  split; [|split; [|reflexivity]].
  - vm_compute in E. injection E as _ <-. reflexivity.
  - change (sign_of (-7)) with (-1) in H1. simpl in H1. lia.
Defined.
