(* ===== verification/Bytes.v ===== *)
(** Byte strings: little-endian integers and slices, as the Rust standard
    library reads and writes them.  A byte is a [Z] in [\[0, 256)]. *)

From S2P Require Import Prelude.

Implicit Types (bs d tl : list Z).

Definition bytes bs : Prop := Forall u8 bs.
#[export] Instance bytes_dec bs : Decision (bytes bs).
Proof. unfold bytes; apply _. Defined.

(** [to_le_bytes] at a width of [n] bytes: two's complement for a negative
    number, since [/] and [mod] round down. *)
Fixpoint le (n : nat) (z : Z) : list Z :=
  match n with
  | O => []
  | S n => z mod 256 :: le n (z / 256)
  end.
#[global] Arguments le : simpl never.

(** [from_le_bytes] of an unsigned type, and the signed reading of 64 bits. *)
Definition unle bs : Z := foldr (λ b acc, b + 256 * acc) 0 bs.
Definition signed64 (v : Z) : Z := if v <? 2 ^ 63 then v else v - 2 ^ 64.
Definition unle_i64 bs : Z := signed64 (unle bs).

(** [b.get(i..i+n)], and [b\[i..i+n\]] which panics out of range. *)
Definition slice (i n : nat) bs : option (list Z) :=
  if (i + n <=? length bs)%nat then Some (take n (drop i bs)) else None.
Definition slice_ix (i n : nat) bs : run (list Z) := expect (slice i n bs).
Definition ix bs (i : nat) : run Z := expect (bs !! i).

(** * Lemmas *)

Lemma le_S n z : le (S n) z = z mod 256 :: le n (z / 256).
Proof. done. Qed.

Lemma length_le n z : length (le n z) = n.
Proof. revert z. induction n as [|n IH]; intros z; [done|]. by rewrite le_S, length_cons, IH. Qed.

Lemma le_bytes n z : bytes (le n z).
Proof.
  revert z. induction n as [|n IH]; intros z; [by apply Forall_nil_2|]. rewrite le_S. constructor; [|apply IH].
  pose proof (Z.mod_pos_bound z 256). mlia.
Qed.

Lemma unle_le n z : unle (le n z) = z mod 256 ^ Z.of_nat n.
Proof.
  revert z. induction n as [|n IH]; intros z; [by rewrite Z.mod_1_r|].
  rewrite le_S. change (unle (?a :: ?l)) with (a + 256 * unle l). rewrite IH, Nat2Z.inj_succ, Z.pow_succ_r by lia.
  rewrite Z.rem_mul_r by lia. lia.
Qed.

Lemma unle_bound bs : bytes bs → 0 ≤ unle bs < 256 ^ Z.of_nat (length bs).
Proof.
  induction 1 as [|b bs Hb HF IH]; [done|]. change (unle (b :: bs)) with (b + 256 * unle bs).
  rewrite length_cons, Nat2Z.inj_succ, Z.pow_succ_r by lia. mlia.
Qed.

Lemma le_unle bs : bytes bs → le (length bs) (unle bs) = bs.
Proof.
  induction 1 as [|b bs Hb HF IH]; [done|]. change (unle (b :: bs)) with (b + 256 * unle bs).
  rewrite length_cons, le_S. f_equal.
  - rewrite Z.mul_comm, Z.mod_add by lia. apply Z.mod_small. mlia.
  - rewrite Z.mul_comm, Z.div_add by lia. rewrite Z.div_small by mlia. exact IH.
Qed.

Lemma le_unle_at n bs : bytes bs → length bs = n → le n (unle bs) = bs.
Proof. intros Hb <-. by apply le_unle. Qed.

Lemma unle_inj a b : bytes a → bytes b → length a = length b → unle a = unle b → a = b.
Proof. intros Ha Hb Hl H. by rewrite <-(le_unle a), <-(le_unle b), Hl, H. Qed.

Lemma unle_u64 z : u64 z → unle (le 8 z) = z.
Proof. intros. rewrite unle_le. apply Z.mod_small. mlia. Qed.
Lemma unle_u32 z : u32 z → unle (le 4 z) = z.
Proof. intros. rewrite unle_le. apply Z.mod_small. mlia. Qed.
Lemma unle_u16 z : u16 z → unle (le 2 z) = z.
Proof. intros. rewrite unle_le. apply Z.mod_small. mlia. Qed.
Lemma unle_i64_le z : i64 z → unle_i64 (le 8 z) = z.
Proof.
  intros Hz. unfold unle_i64, signed64. rewrite unle_le. change (256 ^ Z.of_nat 8) with (2 ^ 64).
  destruct (Z_lt_le_dec z 0).
  - rewrite <-(Z.mod_add z 1) by lia. rewrite (Z.mod_small (z + 1 * 2 ^ 64)) by mlia.
    destruct (Z.ltb_spec (z + 1 * 2 ^ 64) (2 ^ 63)); mlia.
  - rewrite Z.mod_small by mlia. destruct (Z.ltb_spec z (2 ^ 63)); mlia.
Qed.

Lemma signed64_range v : 0 ≤ v < 2 ^ 64 → i64 (signed64 v).
Proof. intros. unfold signed64. destruct (Z.ltb_spec v (2 ^ 63)); mlia. Qed.

Lemma slice_length i n bs s : slice i n bs = Some s → length s = n ∧ (i + n ≤ length bs)%nat.
Proof.
  unfold slice. destruct (Nat.leb_spec (i + n) (length bs)); [|done]. intros [= <-].
  rewrite length_take, length_drop. lia.
Qed.
Lemma slice_bytes i n bs s : bytes bs → slice i n bs = Some s → bytes s.
Proof.
  unfold slice. destruct (_ <=? _)%nat; [|done]. intros Hb [= <-]. by apply Forall_take, Forall_drop.
Qed.
Lemma slice_some i n bs : (i + n ≤ length bs)%nat → ∃ s, slice i n bs = Some s.
Proof. intros. unfold slice. rewrite (proj2 (Nat.leb_le _ _)) by done. eauto. Qed.

(** Reading back what was laid out. *)
Lemma slice_hit a bs n : length a = n → slice 0 n (a ++ bs) = Some a.
Proof.
  intros <-. unfold slice. rewrite (proj2 (Nat.leb_le _ _)) by (rewrite length_app; lia).
  by rewrite drop_0, take_app_length.
Qed.
Lemma slice_skip a bs i n : (length a ≤ i)%nat → slice i n (a ++ bs) = slice (i - length a) n bs.
Proof.
  intros. unfold slice. rewrite length_app. rewrite drop_app_ge by done.
  destruct (Nat.leb_spec (i + n) (length a + length bs)), (Nat.leb_spec (i - length a + n) (length bs)); try done; lia.
Qed.
(** A field between what is before it and after it. *)
Lemma slice_cover a c b i n : length a = i → length c = n → slice i n (a ++ c ++ b) = Some c.
Proof.
  intros Ha Hc. rewrite slice_skip by lia. rewrite Ha, Nat.sub_diag. by apply slice_hit.
Qed.
Lemma slice_all i bs : (i ≤ length bs)%nat → slice i (length bs - i) bs = Some (drop i bs).
Proof.
  intros. unfold slice. rewrite (proj2 (Nat.leb_le _ _)) by lia. f_equal. apply take_ge. rewrite length_drop. lia.
Qed.

Lemma slice_all' i n bs : (i + n = length bs)%nat → slice i n bs = Some (drop i bs).
Proof. intros. replace n with (length bs - i)%nat by lia. apply slice_all. lia. Qed.
Lemma slice_hit_le n z bs : slice 0 n (le n z ++ bs) = Some (le n z).
Proof. apply slice_hit, length_le. Qed.
Lemma slice_end_le n z : slice 0 n (le n z) = Some (le n z).
Proof. rewrite <-(app_nil_r (le n z)) at 1. apply slice_hit_le. Qed.
Lemma slice_skip_le m z bs i n : (m ≤ i)%nat → slice i n (le m z ++ bs) = slice (i - m) n bs.
Proof. intros. rewrite slice_skip by (by rewrite length_le). by rewrite length_le. Qed.
Lemma slice_skip_cons b bs i n : slice (S i) n (b :: bs) = slice i n bs.
Proof. done. Qed.
Lemma lookup_skip_le m z bs i : (m ≤ i)%nat → (le m z ++ bs) !! i = bs !! (i - m)%nat.
Proof. intros. rewrite lookup_app_r by (by rewrite length_le). by rewrite length_le. Qed.

Lemma slice_drop j i n bs : (0 < n)%nat → slice i n (drop j bs) = slice (j + i) n bs.
Proof.
  intros Hn. unfold slice. rewrite length_drop, drop_drop.
  destruct (Nat.leb_spec (i + n) (length bs - j)), (Nat.leb_spec (j + i + n) (length bs)); try done; lia.
Qed.

Lemma slice_app_l i n bs tl : (i + n ≤ length bs)%nat → slice i n (bs ++ tl) = slice i n bs.
Proof.
  intros H. unfold slice. rewrite length_app, !(proj2 (Nat.leb_le _ _)) by lia. f_equal.
  rewrite drop_app_le by lia. by rewrite take_app_le by (rewrite length_drop; lia).
Qed.


(** A buffer starts with any field it is long enough for. *)
Lemma split_field n bs : bytes bs → (n ≤ length bs)%nat →
  ∃ v bs', bs = le n v ++ bs' ∧ 0 ≤ v < 256 ^ Z.of_nat n ∧ bytes bs'.
Proof.
  intros Hb Hn. exists (unle (take n bs)), (drop n bs).
  assert (length (take n bs) = n) as Hl by (rewrite length_take; lia).
  assert (bytes (take n bs)) as Ht by by apply Forall_take.
  split; [|split; [|by apply Forall_drop]].
  - rewrite <-Hl at 1. rewrite le_unle by done. by rewrite take_drop.
  - pose proof (unle_bound _ Ht) as H. by rewrite Hl in H.
Qed.

(** * Damage *)

(** [d] written over the bytes at [j]. *)
Definition patch (j : nat) (d bs : list Z) : list Z := take j bs ++ d ++ drop (j + length d) bs.

Lemma length_patch j d bs : (j + length d ≤ length bs)%nat → length (patch j d bs) = length bs.
Proof. intros. unfold patch. rewrite !length_app, length_take, length_drop. lia. Qed.
Lemma patch_bytes j d bs : bytes bs → bytes d → bytes (patch j d bs).
Proof. intros. apply Forall_app_2; [by apply Forall_take|]. apply Forall_app_2; [done|by apply Forall_drop]. Qed.
Lemma patch_app j d bs tl : (j + length d ≤ length bs)%nat → patch j d (bs ++ tl) = patch j d bs ++ tl.
Proof.
  intros. unfold patch. rewrite take_app_le, drop_app_le by lia. by rewrite <-!(assoc_L (++)).
Qed.
Lemma patch_skip a j d bs : (length a ≤ j)%nat → patch j d (a ++ bs) = a ++ patch (j - length a) d bs.
Proof.
  intros. unfold patch. rewrite take_app_ge, drop_app_ge by lia. rewrite <-(assoc_L (++)). do 4 f_equal. lia.
Qed.
Lemma patch_same j d bs : (j + length d ≤ length bs)%nat →
  bs = patch j (take (length d) (drop j bs)) bs.
Proof.
  intros. unfold patch. rewrite length_take, length_drop, Nat.min_l by lia. rewrite <-drop_drop.
  by rewrite !take_drop.
Qed.

(** A patch outside a range leaves it. *)
Lemma patch_slice_before j d bs i n : (i + n ≤ j)%nat → (j + length d ≤ length bs)%nat →
  slice i n (patch j d bs) = slice i n bs.
Proof.
  intros Hi Hj. unfold slice. rewrite length_patch by done. destruct (_ <=? _)%nat; [|done]. f_equal.
  unfold patch. rewrite drop_app_le by (rewrite length_take; lia).
  rewrite take_app_le by (rewrite length_drop, length_take; lia).
  rewrite <-(take_drop j bs) at 2. rewrite drop_app_le by (rewrite length_take; lia).
  by rewrite take_app_le by (rewrite length_drop, length_take; lia).
Qed.
Lemma patch_slice_after j d bs i n : (j + length d ≤ i)%nat → (i + n ≤ length bs)%nat →
  slice i n (patch j d bs) = slice i n bs.
Proof.
  intros Hi Hj. unfold slice. rewrite length_patch by lia. destruct (_ <=? _)%nat; [|done]. do 2 f_equal.
  unfold patch. rewrite (assoc_L (++)), drop_app_ge by (rewrite length_app, length_take; lia).
  rewrite drop_drop, length_app, length_take. f_equal. lia.
Qed.
Lemma drop_patch i j d bs : (i ≤ j)%nat → (j ≤ length bs)%nat →
  drop i (patch j d bs) = patch (j - i) d (drop i bs).
Proof.
  intros Hi Hj. unfold patch. rewrite drop_app_le by (rewrite length_take; lia).
  rewrite drop_drop, take_drop_commute. replace (i + (j - i))%nat with j by lia.
  by replace (i + (j - i + length d))%nat with (j + length d)%nat by lia.
Qed.

Lemma drop_patch_over i j d bs : (j ≤ i)%nat → (j ≤ length bs)%nat →
  drop i (patch j d bs) = patch 0 (drop (i - j) d) (drop i bs).
Proof.
  intros Hi Hj. unfold patch. rewrite take_0, app_nil_l, length_drop, Nat.add_0_l, drop_drop.
  rewrite drop_app_ge by (rewrite length_take; lia). rewrite length_take, Nat.min_l by lia.
  destruct (Nat.le_ge_cases (length d) (i - j)) as [Hd|Hd].
  - rewrite drop_app_ge, (drop_ge d) by lia. rewrite app_nil_l, drop_drop. f_equal. lia.
  - rewrite drop_app_le by lia. do 2 f_equal. lia.
Qed.

(** From here on bytes are laid out by [le_S] only. *)
#[global] Opaque le.

(** Read a field of a laid-out record: skip what is before it. *)
Ltac rd :=
  repeat first
    [ rewrite slice_hit_le
    | rewrite slice_end_le
    | rewrite slice_skip_le by (apply Nat.leb_le; reflexivity)
    | rewrite lookup_skip_le by (apply Nat.leb_le; reflexivity)
    | rewrite slice_drop by (apply Nat.ltb_lt; reflexivity)
    | rewrite slice_skip_cons
    | match goal with |- context [slice ?i _ _] =>
        let j := eval compute in i in progress change i with j end
    | match goal with |- context [_ !! ?i] =>
        let j := eval compute in i in progress change i with j end
    | progress cbn [lookup list_lookup] ].
