(* ===== verification/Crc.v ===== *)
(** The checksum of the journal ([oq-hash/src/crc32.rs]): table-driven CRC-32,
    and the damage it cannot miss. *)

From S2P Require Import Prelude Bytes.

Definition POLY : Z := 0xEDB88320.

Definition shift_bit (crc : Z) : Z :=
  if Z.land crc 1 =? 1 then Z.lxor (Z.shiftr crc 1) POLY else Z.shiftr crc 1.
Definition table_entry (i : nat) : Z := Nat.iter 8 shift_bit (Z.of_nat i).
Definition build_table : list Z := table_entry <$> seq 0 256.
Definition TABLE : list Z := Eval vm_compute in build_table.

(** One byte.  The index is below 256, so it is never out of range. *)
Definition step (crc byte : Z) : Z :=
  Z.lxor (nth (Z.to_nat (Z.land (Z.lxor crc byte) 0xFF)) TABLE 0) (Z.shiftr crc 8).
Definition update (crc : Z) (data : list Z) : Z := fold_left step data crc.
Definition crc32 (data : list Z) : Z := Z.lxor (update 0xFFFFFFFF data) 0xFFFFFFFF.

(** The reference definition: one bit at a time. *)
Definition step_bits (crc byte : Z) : Z := Nat.iter 8 shift_bit (Z.lxor crc byte).
Definition crc32_bits (data : list Z) : Z := Z.lxor (fold_left step_bits data 0xFFFFFFFF) 0xFFFFFFFF.

(** * The table *)

Lemma TABLE_eq : TABLE = build_table.
Proof. by vm_compute. Qed.

(** * Words of 32 bits *)

Lemma u32_iff z : u32 z ↔ 0 ≤ z < 2 ^ 32.
Proof. unfold u32. lia. Qed.

Lemma lxor_u32 a b : u32 a → u32 b → u32 (Z.lxor a b).
Proof.
  rewrite !u32_iff. intros Ha Hb. split; [apply Z.lxor_nonneg; lia|].
  destruct (Z.eq_dec (Z.lxor a b) 0) as [->|Hne]; [lia|].
  assert (0 < Z.lxor a b) by (pose proof (proj2 (Z.lxor_nonneg a b)); lia).
  apply Z.log2_lt_pow2; [done|]. eapply Z.le_lt_trans; [apply Z.log2_lxor; lia|].
  apply Z.max_lub_lt; [destruct (Z.eq_dec a 0) as [->|]|destruct (Z.eq_dec b 0) as [->|]]; simpl;
    try lia; apply Z.log2_lt_pow2; lia.
Qed.

Lemma shiftr_u32 a n : 0 ≤ n → u32 a → u32 (Z.shiftr a n).
Proof.
  rewrite !u32_iff. intros Hn Ha. rewrite Z.shiftr_div_pow2 by done. split; [apply Z.div_pos; lia|].
  eapply Z.le_lt_trans; [apply Z.div_le_upper_bound; [lia|]|apply Ha]. nia.
Qed.

Lemma lxor_cancel_l a b c : Z.lxor a b = Z.lxor a c → b = c.
Proof.
  intros H. rewrite <-(Z.lxor_0_l b), <-(Z.lxor_0_l c), <-(Z.lxor_nilpotent a), !Z.lxor_assoc. by rewrite H.
Qed.

(** * One bit *)

Lemma shift_bit_eq x : shift_bit x = Z.lxor (Z.shiftr x 1) (if Z.testbit x 0 then POLY else 0).
Proof.
  unfold shift_bit. change 1 with (Z.ones 1) at 1. rewrite Z.land_ones by lia.
  rewrite Z.bit0_odd. change (2 ^ 1) with 2. rewrite Zmod_odd.
  destruct (Z.odd x); [done|]. by rewrite Z.lxor_0_r.
Qed.

Lemma shift_bit_u32 x : u32 x → u32 (shift_bit x).
Proof.
  intros Hx. rewrite shift_bit_eq. apply lxor_u32; [by apply shiftr_u32|]. destruct (Z.testbit x 0); unfold POLY; mlia.
Qed.

(** It is linear. *)
Lemma shift_bit_lxor x y : shift_bit (Z.lxor x y) = Z.lxor (shift_bit x) (shift_bit y).
Proof.
  rewrite !shift_bit_eq, Z.shiftr_lxor, Z.lxor_spec.
  rewrite !Z.lxor_assoc. f_equal. rewrite <-!Z.lxor_assoc, (Z.lxor_comm _ (Z.shiftr y 1)), !Z.lxor_assoc. f_equal.
  destruct (Z.testbit x 0), (Z.testbit y 0); reflexivity.
Qed.
Lemma iter_lxor n x y : Nat.iter n shift_bit (Z.lxor x y) = Z.lxor (Nat.iter n shift_bit x) (Nat.iter n shift_bit y).
Proof. induction n as [|n IH]; [done|]. simpl. by rewrite IH, shift_bit_lxor. Qed.

Lemma shift_bit_double x : shift_bit (2 * x) = x.
Proof.
  rewrite shift_bit_eq, Z.testbit_even_0, Z.lxor_0_r, Z.shiftr_div_pow2 by lia.
  change (2 ^ 1) with 2. rewrite Z.mul_comm. by apply Z.div_mul.
Qed.
Lemma iter_shiftl n x : Nat.iter n shift_bit (2 ^ Z.of_nat n * x) = x.
Proof.
  revert x. induction n as [|n IH]; intros x; [by rewrite Z.mul_1_l|].
  rewrite Nat2Z.inj_succ, Z.pow_succ_r, Nat.iter_succ_r by lia.
  rewrite <-Z.mul_assoc, shift_bit_double. apply IH.
Qed.

(** And it loses nothing: the bit shifted out is the top bit of what is left. *)
Lemma top_bit x : u32 x → Z.testbit (shift_bit x) 31 = Z.testbit x 0.
Proof.
  intros [Hx Hx']%u32_iff. rewrite shift_bit_eq, Z.lxor_spec, Z.shiftr_spec by lia.
  assert (Z.testbit x (31 + 1) = false) as ->.
  { destruct (Z.eq_dec x 0) as [->|]; [apply Z.bits_0|]. apply Z.bits_above_log2; [done|].
    apply Z.log2_lt_pow2; lia. }
  by destruct (Z.testbit x 0).
Qed.
Lemma shift_bit_inj x y : u32 x → u32 y → shift_bit x = shift_bit y → x = y.
Proof.
  intros Hx Hy H. assert (Z.testbit x 0 = Z.testbit y 0) as Hb by (rewrite <-!top_bit by done; by rewrite H).
  rewrite !shift_bit_eq, Hb, !(Z.lxor_comm (Z.shiftr _ _)) in H. apply lxor_cancel_l in H.
  rewrite !Z.shiftr_div_pow2 in H by lia. change (2 ^ 1) with 2 in H.
  rewrite !Z.bit0_odd in Hb.
  pose proof (Z.div_mod x 2 ltac:(lia)). pose proof (Z.div_mod y 2 ltac:(lia)).
  assert (x mod 2 = y mod 2) by (by rewrite !Zmod_odd, Hb). lia.
Qed.
Lemma iter_u32 n x : u32 x → u32 (Nat.iter n shift_bit x).
Proof. intros. induction n as [|n IH]; [done|]. simpl. by apply shift_bit_u32. Qed.
Lemma iter_inj n x y : u32 x → u32 y → Nat.iter n shift_bit x = Nat.iter n shift_bit y → x = y.
Proof.
  intros Hx Hy. induction n as [|n IH]; [done|]. simpl. intros H%shift_bit_inj; [auto|by apply iter_u32..].
Qed.

(** * Bytes *)

Lemma table_nth i : 0 ≤ i < 256 → nth (Z.to_nat i) TABLE 0 = Nat.iter 8 shift_bit i.
Proof.
  intros Hi. rewrite TABLE_eq. unfold build_table. rewrite (nth_indep _ 0 (table_entry 0)).
  - change (table_entry <$> seq 0 256) with (map table_entry (seq 0 256)). rewrite map_nth, seq_nth by lia.
    unfold table_entry. by rewrite Nat.add_0_l, Z2Nat.id by lia.
  - rewrite length_fmap, length_seq. lia.
Qed.

Lemma u8_u32 b : u8 b → u32 b.
Proof. mlia. Qed.

(** The low byte and the rest. *)
Lemma byte_split x : 0 ≤ x → x = Z.lxor (x mod 256) (2 ^ Z.of_nat 8 * (x / 256)).
Proof.
  intros Hx. change 256 with (2 ^ 8). change (Z.of_nat 8) with 8. apply Z.bits_inj'. intros n Hn.
  rewrite Z.lxor_spec, Z.mul_comm, <-Z.shiftl_mul_pow2, <-Z.shiftr_div_pow2 by lia.
  destruct (Z_lt_le_dec n 8).
  - rewrite Z.mod_pow2_bits_low, Z.shiftl_spec_low by lia. by destruct (Z.testbit x n).
  - rewrite Z.mod_pow2_bits_high, Z.shiftl_spec_high, Z.shiftr_spec by lia. rewrite xorb_false_l. f_equal. lia.
Qed.

(** The table computes the eight bit steps. *)
Lemma step_is_bits c b : u32 c → u8 b → step c b = step_bits c b.
Proof.
  intros Hc Hb. unfold step, step_bits. change 0xFF with (Z.ones 8). rewrite Z.land_ones by lia. change (2 ^ 8) with 256.
  set (x := Z.lxor c b). assert (u32 x) as Hx by (apply lxor_u32; [done|by apply u8_u32]).
  rewrite table_nth by (apply Z.mod_pos_bound; lia).
  assert (Nat.iter 8 shift_bit x = Z.lxor (Nat.iter 8 shift_bit (x mod 256)) (x / 256)) as ->.
  { rewrite (byte_split x) at 1 by mlia. by rewrite iter_lxor, iter_shiftl. }
  f_equal. unfold x. change 256 with (2 ^ 8). rewrite <-Z.shiftr_div_pow2, Z.shiftr_lxor by lia.
  rewrite (Z.shiftr_div_pow2 b), (Z.div_small b) by mlia. by rewrite Z.lxor_0_r.
Qed.

Lemma step_u32 c b : u32 c → u8 b → u32 (step c b).
Proof. intros. rewrite step_is_bits by done. apply iter_u32, lxor_u32; [done|by apply u8_u32]. Qed.
Lemma update_u32 bs c : u32 c → bytes bs → u32 (update c bs).
Proof.
  intros Hc Hbs. revert c Hc. induction Hbs as [|b bs Hb HF IH]; intros c Hc; [done|].
  by apply IH, step_u32.
Qed.
Lemma update_is_bits bs c : u32 c → bytes bs → update c bs = fold_left step_bits bs c.
Proof.
  intros Hc Hbs. revert c Hc. induction Hbs as [|b bs Hb HF IH]; intros c Hc; [done|].
  change (update c (b :: bs)) with (update (step c b) bs). rewrite IH by by apply step_u32.
  by rewrite step_is_bits.
Qed.

(** The state before a run of bytes can be read off the state after. *)
Lemma update_inj bs c c' : u32 c → u32 c' → bytes bs → update c bs = update c' bs → c = c'.
Proof.
  intros Hc Hc' Hbs. revert c c' Hc Hc'. induction Hbs as [|b bs Hb HF IH]; intros c c' Hc Hc' H; [done|].
  change (update (step c b) bs = update (step c' b) bs) in H.
  apply IH in H; [|by apply step_u32..]. rewrite !step_is_bits in H by done.
  apply iter_inj in H; [|apply lxor_u32; [done|by apply u8_u32]..].
  rewrite !(Z.lxor_comm _ b) in H. by apply lxor_cancel_l in H.
Qed.

(** A run of bytes is one word, shifted in. *)
Lemma fold_is_word bs c : bytes bs →
  fold_left step_bits bs c = Nat.iter (8 * length bs) shift_bit (Z.lxor c (unle bs)).
Proof.
  intros Hbs. revert c. induction Hbs as [|b bs Hb HF IH]; intros c; [by rewrite Z.lxor_0_r|].
  change (fold_left step_bits (b :: bs) c) with (fold_left step_bits bs (step_bits c b)). rewrite IH.
  replace (8 * length (b :: bs))%nat with (8 * length bs + 8)%nat by (simpl; lia). rewrite Nat.iter_add. f_equal.
  change (unle (b :: bs)) with (b + 256 * unle bs). pose proof (unle_bound bs HF).
  set (u := unle bs) in *. clearbody u.
  assert ((b + 256 * u) mod 256 = b ∧ (b + 256 * u) / 256 = u) as [Em Ed].
  { replace (b + 256 * u) with (b + u * 256) by lia. rewrite Z.mod_add, Z.div_add by lia.
    rewrite Z.mod_small, Z.div_small by mlia. lia. }
  rewrite (byte_split (b + 256 * u)) by mlia. rewrite Em, Ed.
  rewrite <-Z.lxor_assoc, iter_lxor. f_equal. by rewrite iter_shiftl.
Qed.

Lemma update_burst bs bs' c : u32 c → bytes bs → bytes bs' → length bs = length bs' → (length bs ≤ 4)%nat →
  update c bs = update c bs' → bs = bs'.
Proof.
  intros Hc Hbs Hbs' Hl H4 H. rewrite !update_is_bits, !fold_is_word, <-Hl in H by done.
  assert (∀ l, bytes l → (length l ≤ 4)%nat → u32 (unle l)) as Hw.
  { intros l Hl' Hn. pose proof (unle_bound l Hl') as Hb. apply u32_iff.
    pose proof (Z.pow_le_mono_r 256 (Z.of_nat (length l)) 4 ltac:(lia) ltac:(lia)). lia. }
  apply iter_inj in H; [|apply lxor_u32; [done|apply Hw; [done|lia]]..].
  apply lxor_cancel_l in H. by apply unle_inj.
Qed.

Lemma update_app a b c : update c (a ++ b) = update (update c a) b.
Proof. apply fold_left_app. Qed.

(** A checksum appended to what it covers leaves a constant. *)
Definition residue : Z := Z.lxor (Nat.iter 32 shift_bit 0xFFFFFFFF) 0xFFFFFFFF.

Lemma crc_u32 bs : bytes bs → u32 (crc32 bs).
Proof. intros. apply lxor_u32; [by apply update_u32; [mlia|]|mlia]. Qed.

Lemma crc_residue bs : bytes bs → crc32 (bs ++ le 4 (crc32 bs)) = residue.
Proof.
  intros Hb. unfold crc32 at 1. rewrite update_app.
  pose proof (crc_u32 bs Hb) as Hu. unfold crc32 in *. set (c := update 0xFFFFFFFF bs) in *.
  assert (u32 c) as Hc by (apply update_u32; [mlia|done]). clearbody c.
  rewrite update_is_bits, fold_is_word by (try done; apply le_bytes).
  rewrite length_le, unle_u32 by done. unfold residue.
  by rewrite <-Z.lxor_assoc, Z.lxor_nilpotent, Z.lxor_0_l.
Qed.

(** The table-driven checksum is the bit-by-bit CRC-32 of IEEE 802.3. *)
Theorem crc32_is_bitwise (data : list Z) (Hd : bytes data) : crc32 data = crc32_bits data.
Proof. unfold crc32, crc32_bits. by rewrite update_is_bits. Qed.

Lemma crc32_is_bitwise_witness : crc32 [49; 50; 51; 52; 53; 54; 55; 56; 57] = 0xCBF43926 ∧
  crc32 [49; 50; 51; 52; 53; 54; 55; 56; 57] = crc32_bits [49; 50; 51; 52; 53; 54; 55; 56; 57].
Proof. split; [reflexivity|]. apply crc32_is_bitwise. unfold bytes. repeat constructor; mlia. Defined.

(** Damage of up to four consecutive bytes, whatever its position and
    whatever the bytes around it, always changes the checksum. *)
Theorem crc32_detects_bursts (before damaged damaged' after : list Z)
    (Hb : bytes (before ++ damaged ++ after)) (Hd : bytes damaged')
    (Hl : length damaged' = length damaged) (H4 : (length damaged ≤ 4)%nat) (Hne : damaged ≠ damaged') :
  crc32 (before ++ damaged ++ after) ≠ crc32 (before ++ damaged' ++ after).
Proof.
  unfold bytes in Hb. rewrite !Forall_app in Hb. destruct Hb as (H1 & H2 & H3).
  intros H. apply Hne. unfold crc32 in H. rewrite !(Z.lxor_comm (update _ _)) in H. apply lxor_cancel_l in H.
  unfold update in H. rewrite !fold_left_app in H. fold (update 0xFFFFFFFF before) in H.
  set (c := update 0xFFFFFFFF before) in H.
  assert (u32 c) as Hc by (apply update_u32; [mlia|done]).
  fold (update c damaged) (update c damaged') in H.
  apply update_inj in H; [|by apply update_u32..|done]. by apply (update_burst _ _ c).
Qed.

Lemma crc32_detects_bursts_witness :
  crc32 ([1; 2] ++ [3; 4; 5; 6] ++ [7]) ≠ crc32 ([1; 2] ++ [6; 5; 4; 3] ++ [7]).
Proof.
  apply crc32_detects_bursts; [..|done|simpl; lia|done]; unfold bytes; simpl; repeat constructor; mlia.
Defined.

(** The same, of bytes written over others. *)
Lemma burst_detected j d bs : bytes bs → bytes d → (length d ≤ 4)%nat → (j + length d ≤ length bs)%nat →
  crc32 (patch j d bs) = crc32 bs → patch j d bs = bs.
Proof.
  intros Hb Hd H4 Hj H. set (o := take (length d) (drop j bs)).
  assert (length o = length d) as Ho by (unfold o; rewrite length_take, length_drop; lia).
  assert (patch j o bs = bs) as Eb by (symmetry; by apply patch_same).
  unfold patch in *. rewrite Ho in Eb. clearbody o. destruct (decide (o = d)) as [<-|Hne]; [done|].
  exfalso. apply (crc32_detects_bursts (take j bs) o d (drop (j + length d) bs)); rewrite ?Eb; try done; lia.
Qed.
