(* ===== verification/Sha.v ===== *)
(** The hashes ([oq-hash/src]: [sha256.rs], [sha512.rs], [hmac.rs]): streaming
    SHA-256 and SHA-512, HMAC over both, and lower-case hex.  A hasher fed in
    pieces is one fed at once, and both are the hash of the padded message,
    block by block. *)

From stdpp Require Import strings.
From S2P Require Import Prelude Bytes Text.
#[local] Open Scope Z_scope.

Implicit Types (bs data m : list Z).

(** * Words of [w] bits *)

Definition wadd (w a b : Z) : Z := (a + b) mod 2 ^ w.
Definition rotate_right (w n x : Z) : Z := Z.lor (Z.shiftr x n) (Z.shiftl x (w - n) mod 2 ^ w).
Definition wnot (w x : Z) : Z := Z.lxor x (Z.ones w).
(** [to_be_bytes] and [from_be_bytes]. *)
Definition be (n : nat) (z : Z) : list Z := rev (le n z).
Definition unbe bs : Z := unle (rev bs).
(** An array index below the array's length. *)
Definition at_ (l : list Z) (i : nat) : Z := nth i l 0.
(** [buffer[i..i + data.len()].copy_from_slice(data)]. *)
Definition copy_at (i : nat) data (buffer : list Z) : list Z := take i buffer ++ data ++ drop (i + length data) buffer.
(** [as_chunks::<n>]: the whole blocks, and what is left. *)
Definition as_chunks (n : nat) data : list (list Z) * list Z :=
  ((λ i, take n (drop (i * n) data)) <$> seq 0 (length data / n), drop (length data / n * n) data).

Definition u128 (z : Z) : Prop := 0 ≤ z ≤ 340282366920938463463374607431768211455.
#[export] Instance u128_dec z : Decision (u128 z).
Proof. unfold u128; apply _. Defined.

(** * Lower-case hex *)

Definition DIGITS : list Z := [48; 49; 50; 51; 52; 53; 54; 55; 56; 57; 97; 98; 99; 100; 101; 102].
Definition to_hex bs : list Z :=
  mjoin ((λ b, [at_ DIGITS (Z.to_nat (Z.shiftr b 4)); at_ DIGITS (Z.to_nat (Z.land b 15))]) <$> bs).

(** A hasher, whatever its sizes. *)
Record Hasher := {
  state : list Z;
  buffer : list Z;
  buffered : nat;
  length_bits : Z;
}.
#[export] Instance Hasher_eq_dec : EqDecision Hasher.
Proof. solve_decision. Defined.

Definition set_state st (h : Hasher) : Hasher := {| state := st; buffer := buffer h; buffered := buffered h; length_bits := length_bits h |}.
Definition set_buffer b n (h : Hasher) : Hasher := {| state := state h; buffer := b; buffered := n; length_bits := length_bits h |}.
Definition set_length n (h : Hasher) : Hasher := {| state := state h; buffer := buffer h; buffered := buffered h; length_bits := n |}.

(** * SHA-256 *)

Module Sha256.

Definition K : list Z :=
  [0x428a_2f98; 0x7137_4491; 0xb5c0_fbcf; 0xe9b5_dba5; 0x3956_c25b; 0x59f1_11f1; 0x923f_82a4; 0xab1c_5ed5;
   0xd807_aa98; 0x1283_5b01; 0x2431_85be; 0x550c_7dc3; 0x72be_5d74; 0x80de_b1fe; 0x9bdc_06a7; 0xc19b_f174;
   0xe49b_69c1; 0xefbe_4786; 0x0fc1_9dc6; 0x240c_a1cc; 0x2de9_2c6f; 0x4a74_84aa; 0x5cb0_a9dc; 0x76f9_88da;
   0x983e_5152; 0xa831_c66d; 0xb003_27c8; 0xbf59_7fc7; 0xc6e0_0bf3; 0xd5a7_9147; 0x06ca_6351; 0x1429_2967;
   0x27b7_0a85; 0x2e1b_2138; 0x4d2c_6dfc; 0x5338_0d13; 0x650a_7354; 0x766a_0abb; 0x81c2_c92e; 0x9272_2c85;
   0xa2bf_e8a1; 0xa81a_664b; 0xc24b_8b70; 0xc76c_51a3; 0xd192_e819; 0xd699_0624; 0xf40e_3585; 0x106a_a070;
   0x19a4_c116; 0x1e37_6c08; 0x2748_774c; 0x34b0_bcb5; 0x391c_0cb3; 0x4ed8_aa4a; 0x5b9c_ca4f; 0x682e_6ff3;
   0x748f_82ee; 0x78a5_636f; 0x84c8_7814; 0x8cc7_0208; 0x90be_fffa; 0xa450_6ceb; 0xbef9_a3f7; 0xc671_78f2].

Definition IV : list Z :=
  [0x6a09_e667; 0xbb67_ae85; 0x3c6e_f372; 0xa54f_f53a; 0x510e_527f; 0x9b05_688c; 0x1f83_d9ab; 0x5be0_cd19].

Definition new : Hasher := {| state := IV; buffer := replicate 64 0; buffered := 0; length_bits := 0 |}.

(** One word of the message schedule, and the whole of it. *)
Definition schedule_word (w : list Z) (i : nat) : list Z :=
  let s0 := Z.lxor (Z.lxor (rotate_right 32 7 (at_ w (i - 15))) (rotate_right 32 18 (at_ w (i - 15)))) (Z.shiftr (at_ w (i - 15)) 3) in
  let s1 := Z.lxor (Z.lxor (rotate_right 32 17 (at_ w (i - 2))) (rotate_right 32 19 (at_ w (i - 2)))) (Z.shiftr (at_ w (i - 2)) 10) in
  <[i := wadd 32 (wadd 32 (wadd 32 (at_ w (i - 16)) s0) (at_ w (i - 7))) s1]> w.
Definition load_word (block w : list Z) (i : nat) : list Z := <[i := unbe (take 4 (drop (i * 4) block))]> w.
Definition schedule (block : list Z) : list Z :=
  fold_left schedule_word (seq 16 48) (fold_left (load_word block) (seq 0 16) (replicate 64 0)).

(** One round, on the eight working variables. *)
Definition round (w v : list Z) (i : nat) : list Z :=
  match v with
  | [a; b; c; d; e; f; g; h] =>
      let s1 := Z.lxor (Z.lxor (rotate_right 32 6 e) (rotate_right 32 11 e)) (rotate_right 32 25 e) in
      let ch := Z.lxor (Z.land e f) (Z.land (wnot 32 e) g) in
      let temp1 := wadd 32 (wadd 32 (wadd 32 (wadd 32 h s1) ch) (at_ K i)) (at_ w i) in
      let s0 := Z.lxor (Z.lxor (rotate_right 32 2 a) (rotate_right 32 13 a)) (rotate_right 32 22 a) in
      let maj := Z.lxor (Z.lxor (Z.land a b) (Z.land a c)) (Z.land b c) in
      let temp2 := wadd 32 s0 maj in
      [wadd 32 temp1 temp2; a; b; c; wadd 32 d temp1; e; f; g]
  | _ => v
  end.
Definition compress (st block : list Z) : list Z :=
  zip_with (wadd 32) st (fold_left (round (schedule block)) (seq 0 64) st).

(** The end of [update]: whole blocks straight from the input, the rest kept. *)
Definition update_tail data (h : Hasher) : Hasher :=
  let '(blocks, rest) := as_chunks 64 data in
  set_buffer (copy_at 0 rest (buffer h)) (length rest) (set_state (fold_left compress blocks (state h)) h).
Definition update data (h : Hasher) : run Hasher :=
  bits ← chku64 (Z.of_nat (length data) * 8);
  let h := set_length ((length_bits h + bits) mod 2 ^ 64) h in
  if (0 <? buffered h)%nat then
    let taken := Nat.min (64 - buffered h) (length data) in
    let h := set_buffer (copy_at (buffered h) (take taken data) (buffer h)) (buffered h + taken)%nat h in
    if (buffered h =? 64)%nat
    then mret (update_tail (drop taken data) (set_buffer (buffer h) 0 (set_state (compress (state h) (buffer h)) h)))
    else mret h
  else mret (update_tail data h).

(** [update_no_length]: one byte, and a slice of them. *)
Definition push_byte (byte : Z) (h : Hasher) : run Hasher :=
  if (buffered h <? 64)%nat then
    let h := set_buffer (<[buffered h := byte]> (buffer h)) (S (buffered h)) h in
    mret (if (buffered h =? 64)%nat then set_buffer (buffer h) 0 (set_state (compress (state h) (buffer h)) h) else h)
  else Panic.
Fixpoint update_no_length data (h : Hasher) : run Hasher :=
  match data with
  | [] => mret h
  | byte :: data => h ← push_byte byte h; update_no_length data h
  end.
(** [while self.buffered != 56]. *)
Fixpoint pad_loop (fuel : nat) (h : Hasher) : run Hasher :=
  if (buffered h =? 56)%nat then mret h
  else match fuel with
       | O => OutOfFuel
       | S fuel => h ← update_no_length [0] h; pad_loop fuel h
       end.
Definition finalize (h : Hasher) : run (list Z) :=
  let bits := length_bits h in
  h ← update_no_length [128] h;
  h ← pad_loop 64 h;
  h ← update_no_length (be 8 bits) h;
  mret (mjoin (be 4 <$> state h)).

Definition digest data : run (list Z) := h ← update data new; finalize h.
Definition sha256_hex data : run (list Z) := d ← digest data; mret (to_hex d).

End Sha256.

(** * SHA-512 *)

Module Sha512.

Definition H0 : list Z :=
  [0x6a09_e667_f3bc_c908; 0xbb67_ae85_84ca_a73b; 0x3c6e_f372_fe94_f82b; 0xa54f_f53a_5f1d_36f1;
   0x510e_527f_ade6_82d1; 0x9b05_688c_2b3e_6c1f; 0x1f83_d9ab_fb41_bd6b; 0x5be0_cd19_137e_2179].

Definition K : list Z :=
  [0x428a_2f98_d728_ae22; 0x7137_4491_23ef_65cd; 0xb5c0_fbcf_ec4d_3b2f; 0xe9b5_dba5_8189_dbbc;
   0x3956_c25b_f348_b538; 0x59f1_11f1_b605_d019; 0x923f_82a4_af19_4f9b; 0xab1c_5ed5_da6d_8118;
   0xd807_aa98_a303_0242; 0x1283_5b01_4570_6fbe; 0x2431_85be_4ee4_b28c; 0x550c_7dc3_d5ff_b4e2;
   0x72be_5d74_f27b_896f; 0x80de_b1fe_3b16_96b1; 0x9bdc_06a7_25c7_1235; 0xc19b_f174_cf69_2694;
   0xe49b_69c1_9ef1_4ad2; 0xefbe_4786_384f_25e3; 0x0fc1_9dc6_8b8c_d5b5; 0x240c_a1cc_77ac_9c65;
   0x2de9_2c6f_592b_0275; 0x4a74_84aa_6ea6_e483; 0x5cb0_a9dc_bd41_fbd4; 0x76f9_88da_8311_53b5;
   0x983e_5152_ee66_dfab; 0xa831_c66d_2db4_3210; 0xb003_27c8_98fb_213f; 0xbf59_7fc7_beef_0ee4;
   0xc6e0_0bf3_3da8_8fc2; 0xd5a7_9147_930a_a725; 0x06ca_6351_e003_826f; 0x1429_2967_0a0e_6e70;
   0x27b7_0a85_46d2_2ffc; 0x2e1b_2138_5c26_c926; 0x4d2c_6dfc_5ac4_2aed; 0x5338_0d13_9d95_b3df;
   0x650a_7354_8baf_63de; 0x766a_0abb_3c77_b2a8; 0x81c2_c92e_47ed_aee6; 0x9272_2c85_1482_353b;
   0xa2bf_e8a1_4cf1_0364; 0xa81a_664b_bc42_3001; 0xc24b_8b70_d0f8_9791; 0xc76c_51a3_0654_be30;
   0xd192_e819_d6ef_5218; 0xd699_0624_5565_a910; 0xf40e_3585_5771_202a; 0x106a_a070_32bb_d1b8;
   0x19a4_c116_b8d2_d0c8; 0x1e37_6c08_5141_ab53; 0x2748_774c_df8e_eb99; 0x34b0_bcb5_e19b_48a8;
   0x391c_0cb3_c5c9_5a63; 0x4ed8_aa4a_e341_8acb; 0x5b9c_ca4f_7763_e373; 0x682e_6ff3_d6b2_b8a3;
   0x748f_82ee_5def_b2fc; 0x78a5_636f_4317_2f60; 0x84c8_7814_a1f0_ab72; 0x8cc7_0208_1a64_39ec;
   0x90be_fffa_2363_1e28; 0xa450_6ceb_de82_bde9; 0xbef9_a3f7_b2c6_7915; 0xc671_78f2_e372_532b;
   0xca27_3ece_ea26_619c; 0xd186_b8c7_21c0_c207; 0xeada_7dd6_cde0_eb1e; 0xf57d_4f7f_ee6e_d178;
   0x06f0_67aa_7217_6fba; 0x0a63_7dc5_a2c8_98a6; 0x113f_9804_bef9_0dae; 0x1b71_0b35_131c_471b;
   0x28db_77f5_2304_7d84; 0x32ca_ab7b_40c7_2493; 0x3c9e_be0a_15c9_bebc; 0x431d_67c4_9c10_0d4c;
   0x4cc5_d4be_cb3e_42b6; 0x597f_299c_fc65_7e2a; 0x5fcb_6fab_3ad6_faec; 0x6c44_198c_4a47_5817].

Definition new : Hasher := {| state := H0; buffer := replicate 128 0; buffered := 0; length_bits := 0 |}.

Definition schedule_word (w : list Z) (i : nat) : list Z :=
  let s0 := Z.lxor (Z.lxor (rotate_right 64 1 (at_ w (i - 15))) (rotate_right 64 8 (at_ w (i - 15)))) (Z.shiftr (at_ w (i - 15)) 7) in
  let s1 := Z.lxor (Z.lxor (rotate_right 64 19 (at_ w (i - 2))) (rotate_right 64 61 (at_ w (i - 2)))) (Z.shiftr (at_ w (i - 2)) 6) in
  <[i := wadd 64 (wadd 64 (wadd 64 (at_ w (i - 16)) s0) (at_ w (i - 7))) s1]> w.
Definition load_word (block w : list Z) (i : nat) : list Z := <[i := unbe (take 8 (drop (i * 8) block))]> w.
Definition schedule (block : list Z) : list Z :=
  fold_left schedule_word (seq 16 64) (fold_left (load_word block) (seq 0 16) (replicate 80 0)).

Definition round (w v : list Z) (i : nat) : list Z :=
  match v with
  | [a; b; c; d; e; f; g; h] =>
      let s1 := Z.lxor (Z.lxor (rotate_right 64 14 e) (rotate_right 64 18 e)) (rotate_right 64 41 e) in
      let ch := Z.lxor (Z.land e f) (Z.land (wnot 64 e) g) in
      let t1 := wadd 64 (wadd 64 (wadd 64 (wadd 64 h s1) ch) (at_ K i)) (at_ w i) in
      let s0 := Z.lxor (Z.lxor (rotate_right 64 28 a) (rotate_right 64 34 a)) (rotate_right 64 39 a) in
      let maj := Z.lxor (Z.lxor (Z.land a b) (Z.land a c)) (Z.land b c) in
      let t2 := wadd 64 s0 maj in
      [wadd 64 t1 t2; a; b; c; wadd 64 d t1; e; f; g]
  | _ => v
  end.
Definition compress (st block : list Z) : list Z :=
  zip_with (wadd 64) st (fold_left (round (schedule block)) (seq 0 80) st).

(** [while data.len() >= 128], with the fuel of one turn per byte. *)
Fixpoint compress_loop (fuel : nat) data (h : Hasher) : run (Hasher * list Z) :=
  if (128 <=? length data)%nat then
    match fuel with
    | O => OutOfFuel
    | S fuel => compress_loop fuel (drop 128 data) (set_state (compress (state h) (take 128 data)) h)
    end
  else mret (h, data).
Definition update data (h : Hasher) : run Hasher :=
  bits ← chk u128 (Z.of_nat (length data) * 8);
  let h := set_length ((length_bits h + bits) mod 2 ^ 128) h in
  let '(h, data) :=
    if (0 <? buffered h)%nat then
      let taken := Nat.min (128 - buffered h) (length data) in
      let h := set_buffer (copy_at (buffered h) (take taken data) (buffer h)) (buffered h + taken)%nat h in
      (if (buffered h =? 128)%nat then set_buffer (buffer h) 0 (set_state (compress (state h) (buffer h)) h) else h,
       drop taken data)
    else (h, data) in
  '(h, data) ← compress_loop (length data) data h;
  mret (if bool_decide (data = []) then h else set_buffer (copy_at 0 data (buffer h)) (length data) h).

Definition update_no_length data (h : Hasher) : run Hasher :=
  h' ← update data h; mret (set_length (length_bits h) h').
Definition finalize (h : Hasher) : run (list Z) :=
  let bits := length_bits h in
  let pad := 128 :: replicate 255 0 in
  let rest := ((buffered h + 1) mod 128)%nat in
  let zeros := (if rest <=? 112 then 112 - rest else 240 - rest)%nat in
  let total := (1 + zeros)%nat in
  head ← slice_ix 0 total pad;
  h ← update_no_length (head ++ be 16 bits) h;
  mret (mjoin (be 8 <$> state h)).

Definition digest data : run (list Z) := h ← update data new; finalize h.
Definition sha512_hex data : run (list Z) := d ← digest data; mret (to_hex d).

End Sha512.

(** * HMAC *)

Definition xor_pad (pad : Z) (padded : list Z) : list Z := Z.lxor pad <$> padded.

Definition BLOCK : nat := 64.
Definition hmac_sha256 (key message : list Z) : run (list Z) :=
  let zeros := replicate BLOCK 0 in
  padded ← (if (BLOCK <? length key)%nat
            then digest ← Sha256.digest key; mret (copy_at 0 digest zeros)
            else mret (copy_at 0 key zeros));
  h ← Sha256.update (xor_pad 0x36 padded) Sha256.new;
  h ← Sha256.update message h;
  inner ← Sha256.finalize h;
  h ← Sha256.update (xor_pad 0x5c padded) Sha256.new;
  h ← Sha256.update inner h;
  Sha256.finalize h.

Definition BLOCK_512 : nat := 128.
Definition hmac_sha512 (key message : list Z) : run (list Z) :=
  let zeros := replicate BLOCK_512 0 in
  padded ← (if (BLOCK_512 <? length key)%nat
            then digest ← Sha512.digest key; mret (copy_at 0 digest zeros)
            else mret (copy_at 0 key zeros));
  h ← Sha512.update (xor_pad 0x36 padded) Sha512.new;
  h ← Sha512.update message h;
  inner ← Sha512.finalize h;
  h ← Sha512.update (xor_pad 0x5c padded) Sha512.new;
  h ← Sha512.update inner h;
  Sha512.finalize h.

Definition hmac_sha256_hex (key message : list Z) : run (list Z) := d ← hmac_sha256 key message; mret (to_hex d).

(** * The reference: the hash of a message, block by block *)

(** The message, a one bit, zeros, and the length in [L] bytes at the end of a
    block of [B] bytes. *)
Definition pad_zeros (B L len : nat) : nat := (2 * B - L - 1 - len mod B) mod B.
Definition pad (B L : nat) m : list Z :=
  m ++ 128 :: replicate (pad_zeros B L (length m)) 0 ++ be L (8 * Z.of_nat (length m)).
Definition sha256_spec m : list Z :=
  mjoin (be 4 <$> fold_left Sha256.compress (as_chunks 64 (pad 64 8 m)).1 Sha256.IV).
Definition sha512_spec m : list Z :=
  mjoin (be 8 <$> fold_left Sha512.compress (as_chunks 128 (pad 128 16 m)).1 Sha512.H0).

(** A hasher fed in pieces. *)
Definition sha256_pieces (pieces : list (list Z)) : run (list Z) :=
  h ← foldl (λ h data, h ≫= Sha256.update data) (mret Sha256.new) pieces; Sha256.finalize h.
Definition sha512_pieces (pieces : list (list Z)) : run (list Z) :=
  h ← foldl (λ h data, h ≫= Sha512.update data) (mret Sha512.new) pieces; Sha512.finalize h.

(** * One byte at a time *)


Section stream.
Context (B : nat) (compress : list Z → list Z → list Z).
Hypothesis HB : (0 < B)%nat.
Implicit Types p : list Z * list Z.

Definition push p (b : Z) : list Z * list Z :=
  let buf := p.2 ++ [b] in if (length buf =? B)%nat then (compress p.1 buf, []) else (p.1, buf).
Definition feed p data : list Z * list Z := fold_left push data p.

Lemma feed_app p a b : feed p (a ++ b) = feed (feed p a) b.
Proof. apply fold_left_app. Qed.

Lemma feed_short st buf data : (length buf + length data < B)%nat → feed (st, buf) data = (st, buf ++ data).
Proof.
  revert buf. induction data as [|b data IH]; intros buf Hl; [by rewrite app_nil_r|]. simpl in Hl.
  change (feed (st, buf) (b :: data)) with (feed (push (st, buf) b) data). unfold push. cbn [fst snd].
  rewrite length_app. simpl. rewrite (proj2 (Nat.eqb_neq _ _)) by lia. rewrite IH by (rewrite length_app; simpl; lia).
  by rewrite <-app_assoc.
Qed.
Lemma feed_fill st buf data :
  data ≠ [] → (length buf + length data = B)%nat → feed (st, buf) data = (compress st (buf ++ data), []).
Proof.
  intros Hne Hl. destruct (exists_last Hne) as (l & b & ->). rewrite feed_app. rewrite length_app in Hl. simpl in Hl.
  rewrite feed_short by lia. unfold feed, push; simpl. rewrite <-app_assoc, length_app, length_app. simpl.
  by rewrite (proj2 (Nat.eqb_eq _ _)) by lia.
Qed.

Lemma as_chunks_short data : (length data < B)%nat → as_chunks B data = ([], data).
Proof. intros. unfold as_chunks. by rewrite Nat.div_small. Qed.
Lemma as_chunks_block data : (B ≤ length data)%nat →
  as_chunks B data = (take B data :: (as_chunks B (drop B data)).1, (as_chunks B (drop B data)).2).
Proof.
  intros Hl. unfold as_chunks. cbn [fst snd]. rewrite length_drop.
  assert (length data / B = S ((length data - B) / B))%nat as ->.
  { replace (length data) with (length data - B + 1 * B)%nat at 1 by lia. rewrite Nat.div_add by lia. lia. }
  f_equal.
  - cbn [seq]. rewrite fmap_cons. f_equal. rewrite <-seq_shift. change (map S) with (fmap (M := list) S).
    rewrite <-list_fmap_compose. apply list_fmap_ext. intros i x Hx. simpl. by rewrite drop_drop.
  - by rewrite drop_drop.
Qed.
Lemma feed_chunks st data : feed (st, []) data = (fold_left compress (as_chunks B data).1 st, (as_chunks B data).2).
Proof.
  revert st. induction data as [data IH] using (induction_ltof1 _ length). unfold ltof in IH. intros st.
  destruct (Nat.lt_ge_cases (length data) B) as [Hl|Hl].
  - rewrite as_chunks_short by done. by rewrite feed_short.
  - rewrite as_chunks_block by done. rewrite <-(take_drop B data) at 1. rewrite feed_app, feed_fill.
    + rewrite app_nil_l. by rewrite IH by (rewrite length_drop; lia).
    + intros E. apply (f_equal length) in E. rewrite length_take in E. simpl in E. lia.
    + rewrite length_take. simpl. lia.
Qed.
Lemma feed_fold st data : fold_left compress (as_chunks B data).1 st = (feed (st, []) data).1.
Proof. by rewrite feed_chunks. Qed.

Lemma chunks_rest data : length (as_chunks B data).2 = (length data mod B)%nat.
Proof. unfold as_chunks. cbn [snd]. rewrite length_drop, Nat.Div0.mod_eq. lia. Qed.

(** * What a hasher holds *)

Definition view (h : Hasher) : list Z * list Z := (state h, take (buffered h) (buffer h)).
Definition fits (h : Hasher) : Prop := length (buffer h) = B ∧ (buffered h < B)%nat.

Lemma copy_at_0 data buf : (length data ≤ length buf)%nat →
  take (length data) (copy_at 0 data buf) = data ∧ length (copy_at 0 data buf) = length buf.
Proof.
  intros. unfold copy_at. rewrite take_0, app_nil_l, take_app_length, length_app, length_drop. split; [done|lia].
Qed.
Lemma copy_at_grow n data buf : (n + length data ≤ length buf)%nat →
  take (n + length data) (copy_at n data buf) = take n buf ++ data ∧ length (copy_at n data buf) = length buf.
Proof.
  intros. unfold copy_at. rewrite app_assoc. split.
  - rewrite take_app_length'; [done|]. rewrite length_app, length_take. lia.
  - rewrite !length_app, length_take, length_drop. lia.
Qed.

Lemma view_rest h st data : fits h → (length data < B)%nat →
  let h' := set_buffer (copy_at 0 data (buffer h)) (length data) (set_state st h) in fits h' ∧ view h' = (st, data).
Proof.
  intros [Hb _] Hl. destruct (copy_at_0 data (buffer h)) as [Ht Hc]; [lia|]. unfold fits, view; simpl. by rewrite Ht, Hc.
Qed.

(** Filling the buffer from the input: a block, or the input is used up. *)
Lemma view_fill h data : fits h → (0 < buffered h)%nat →
  let taken := Nat.min (B - buffered h) (length data) in
  let h' := set_buffer (copy_at (buffered h) (take taken data) (buffer h)) (buffered h + taken)%nat h in
  length (buffer h') = B ∧
  if (buffered h' =? B)%nat
  then feed (view h) data = feed (compress (state h) (buffer h'), []) (drop taken data)
  else fits h' ∧ drop taken data = [] ∧ view h' = feed (view h) data.
Proof.
  intros [Hb Hn] Hpos taken. assert (length (take taken data) = taken) as Hlt by (rewrite length_take; lia).
  destruct (copy_at_grow (buffered h) (take taken data) (buffer h)) as [Ht Hc]; [lia|]. rewrite Hlt in Ht. simpl. rewrite Hc.
  split; [done|]. assert (length (take (buffered h) (buffer h)) = buffered h) as Hbl by (rewrite length_take; lia).
  destruct (Nat.eqb_spec (buffered h + taken) B) as [E|E].
  - rewrite <-(take_drop taken data) at 1. rewrite feed_app. unfold view at 1. rewrite feed_fill by (try (intros E2; rewrite E2 in Hlt; simpl in Hlt); lia).
    rewrite <-Ht. rewrite take_ge by lia. done.
  - assert (taken = length data) as Hall by lia. rewrite (drop_ge data) by lia. split_and!; [split; simpl; lia|done|].
    unfold view; simpl. rewrite Ht. rewrite (take_ge data) in * by lia. by rewrite feed_short by lia.
Qed.
End stream.

(** * SHA-256 *)

Lemma drop_nil_length {A} n (l : list A) : drop n l = [] → (length l ≤ n)%nat.
Proof. intros E. apply (f_equal length) in E. rewrite length_drop in E. simpl in E. lia. Qed.

Module Sha256Correct.
Import Sha256.

Abbreviation absorb := (feed 64 compress).
Lemma B_pos : (0 < 64)%nat.
Proof. lia. Qed.
#[local] Hint Resolve B_pos : core.

Lemma update_tail_view data h : fits 64 h →
  fits 64 (update_tail data h) ∧ view (update_tail data h) = absorb (state h, []) data ∧
  length_bits (update_tail data h) = length_bits h.
Proof.
  intros Hf. rewrite feed_chunks by done. unfold update_tail.
  pose proof (chunks_rest 64 B_pos data) as Hr. destruct (as_chunks 64 data) as [blocks rest]. cbn [fst snd] in *.
  destruct (view_rest 64 B_pos h (fold_left compress blocks (state h)) rest Hf) as [H1 H2]; [|done].
  rewrite Hr. by apply Nat.mod_upper_bound.
Qed.

Lemma update_view data h : fits 64 h → 8 * Z.of_nat (length data) < 2 ^ 64 →
  ∃ h', update data h = Ret h' ∧ fits 64 h' ∧ view h' = absorb (view h) data ∧
        length_bits h' = (length_bits h + 8 * Z.of_nat (length data)) mod 2 ^ 64.
Proof.
  intros Hf Hlen. unfold update. rewrite chk_ret by mlia. cbn [mbind run_bind].
  rewrite (Z.mul_comm _ 8). destruct (Nat.ltb_spec 0 (buffered (set_length ((length_bits h + 8 * Z.of_nat (length data)) mod 2 ^ 64) h))) as [Hb|Hb].
  - destruct (view_fill 64 compress B_pos (set_length ((length_bits h + 8 * Z.of_nat (length data)) mod 2 ^ 64) h) data Hf Hb) as [Hl Hv].
    cbv zeta in *. destruct (_ =? 64)%nat; [|destruct Hv as (? & _ & ?); eauto].
    match goal with |- context [mret (update_tail ?d ?x)] => destruct (update_tail_view d x) as (H1 & H2 & H3) end; [by split|].
    eexists. split_and!; [done|done| |done]. rewrite H2. symmetry. exact Hv.
  - destruct (update_tail_view data (set_length ((length_bits h + 8 * Z.of_nat (length data)) mod 2 ^ 64) h) Hf) as (H1 & H2 & H3).
    eexists. split_and!; [done|done| |done]. rewrite H2. unfold view. simpl in *. replace (buffered h) with 0%nat by lia. done.
Qed.

Lemma push_byte_view b h : fits 64 h →
  ∃ h', push_byte b h = Ret h' ∧ fits 64 h' ∧ view h' = push 64 compress (view h) b ∧
        buffered h' = ((buffered h + 1) mod 64)%nat.
Proof.
  intros [Hb Hn]. unfold push_byte. rewrite (proj2 (Nat.ltb_lt _ _)) by done. eexists. split; [done|].
  assert (take (S (buffered h)) (<[buffered h:=b]> (buffer h)) = take (buffered h) (buffer h) ++ [b]) as Ht.
  { assert (buffered h < length (<[buffered h:=b]> (buffer h)))%nat as Hlt by (rewrite length_insert; lia).
    rewrite (take_S_r _ _ b) by (apply list_lookup_insert_eq; lia). by rewrite take_insert_ge by lia. }
  assert (length (take (buffered h) (buffer h) ++ [b]) = S (buffered h)) as Hl by (rewrite <-Ht, length_take, length_insert; lia).
  unfold push, view, fits. cbn [fst snd]. rewrite Hl. cbn [buffered set_buffer buffer state set_state].
  destruct (Nat.eqb_spec (S (buffered h)) 64) as [E|E]; cbn [buffered set_buffer buffer state set_state].
  - rewrite length_insert. split_and!; [done|lia| |by rewrite Nat.add_1_r, E]. rewrite <-Ht, (take_ge _ (S _)); [done|]. rewrite length_insert. lia.
  - rewrite length_insert, Ht. split_and!; [done|lia|done|]. rewrite Nat.mod_small by lia. lia.
Qed.
Lemma update_no_length_view data h : fits 64 h →
  ∃ h', update_no_length data h = Ret h' ∧ fits 64 h' ∧ view h' = absorb (view h) data.
Proof.
  revert h. induction data as [|b data IH]; intros h Hf; [eauto|]. simpl.
  destruct (push_byte_view b h Hf) as (h1 & -> & Hf1 & Hv1 & _). cbn [mbind run_bind].
  destruct (IH h1 Hf1) as (h2 & -> & Hf2 & Hv2). eexists. split_and!; [done|done|]. rewrite Hv2, Hv1. done.
Qed.

Lemma pad_step b : (b < 64)%nat → b ≠ 56%nat → S ((120 - (b + 1) mod 64) mod 64) = ((120 - b) mod 64)%nat.
Proof. intros Hb Hne. do 64 (destruct b as [|b]; [by vm_compute|]). lia. Qed.
(** The padding loop ends: at most one turn per byte of a block. *)
Lemma pad_loop_view k : ∀ h fuel, fits 64 h → (k ≤ fuel)%nat → ((120 - buffered h) mod 64 = k)%nat →
  ∃ h', pad_loop fuel h = Ret h' ∧ fits 64 h' ∧ view h' = absorb (view h) (replicate k 0).
Proof.
  induction k as [|k IH]; intros h fuel Hf Hk E; destruct (Nat.eqb_spec (buffered h) 56) as [E56|E56].
  - exists h. destruct fuel; simpl; rewrite E56; done.
  - exfalso. destruct Hf as [_ Hf]. pose proof (Nat.Div0.div_mod (120 - buffered h) 64). lia.
  - rewrite E56 in E. done.
  - destruct fuel as [|fuel]; [lia|]. cbn [pad_loop]. rewrite (proj2 (Nat.eqb_neq _ _)) by done. cbn [update_no_length].
    destruct (push_byte_view 0 h Hf) as (h1 & -> & Hf1 & Hv1 & Hb1). cbn [mbind run_bind mret run_ret].
    destruct (IH h1 fuel Hf1) as (h2 & -> & Hf2 & Hv2); [lia| |].
    + rewrite Hb1. pose proof (pad_step (buffered h) (proj2 Hf) E56). lia.
    + eexists. split_and!; [done|done|]. rewrite Hv2, Hv1. done.
Qed.

Lemma finalize_view h m :
  fits 64 h → view h = absorb (IV, []) m → length_bits h = (8 * Z.of_nat (length m)) mod 2 ^ 64 →
  8 * Z.of_nat (length m) < 2 ^ 64 → finalize h = Ret (sha256_spec m).
Proof.
  intros Hf Hv Hl Hm. unfold finalize. cbn [update_no_length].
  assert (buffered h = (length m mod 64)%nat) as Hb.
  { rewrite <-(chunks_rest 64 B_pos m). rewrite feed_chunks in Hv by done.
    assert (take (buffered h) (buffer h) = (as_chunks 64 m).2) as <- by exact (f_equal snd Hv). destruct Hf. rewrite length_take. lia. }
  destruct (push_byte_view 128 h Hf) as (h1 & -> & Hf1 & Hv1 & Hb1). cbn [mbind run_bind mret run_ret].
  destruct (pad_loop_view (pad_zeros 64 8 (length m)) h1 64 Hf1) as (h2 & -> & Hf2 & Hv2).
  { unfold pad_zeros. pose proof (Nat.mod_upper_bound (2 * 64 - 8 - 1 - length m mod 64) 64). lia. }
  { rewrite Hb1, Hb. unfold pad_zeros. pose proof (Nat.mod_upper_bound (length m) 64 ltac:(done)).
    destruct (decide (length m mod 64 = 63)%nat) as [->|]; [done|]. rewrite (Nat.mod_small (_ + 1)) by lia. f_equal. lia. }
  cbn [mbind run_bind]. destruct (update_no_length_view (be 8 (length_bits h)) h2 Hf2) as (h3 & -> & Hf3 & Hv3).
  cbn [mbind run_bind mret run_ret]. unfold sha256_spec. f_equal. f_equal. f_equal.
  change (state h3) with (view h3).1. rewrite Hv3, Hv2, Hv1, Hv. unfold pad. rewrite Hl, Z.mod_small by lia.
  rewrite feed_fold by done.   change (128 :: ?a ++ ?b) with ([128] ++ a ++ b). rewrite !feed_app. done.
Qed.

Lemma new_fits : fits 64 new.
Proof. split; vm_compute; [done|lia]. Qed.

(** The invariant of a hasher that was given [m]. *)
Definition holds m h : Prop :=
  fits 64 h ∧ view h = absorb (IV, []) m ∧ length_bits h = (8 * Z.of_nat (length m)) mod 2 ^ 64.
Lemma holds_new : holds [] new.
Proof. split; [apply new_fits|done]. Qed.
Lemma holds_update m data h : holds m h → 8 * Z.of_nat (length data) < 2 ^ 64 →
  ∃ h', update data h = Ret h' ∧ holds (m ++ data) h'.
Proof.
  intros (Hf & Hv & Hl) Hd. destruct (update_view data h Hf Hd) as (h' & -> & Hf' & Hv' & Hl').
  eexists. split; [done|]. split_and!; [done|by rewrite Hv', Hv, feed_app|].
  rewrite Hl', Hl, Z.add_mod_idemp_l by done. f_equal. rewrite length_app. lia.
Qed.
Lemma holds_finalize m h : holds m h → 8 * Z.of_nat (length m) < 2 ^ 64 → finalize h = Ret (sha256_spec m).
Proof. intros (Hf & Hv & Hl). by apply finalize_view. Qed.

Lemma digest_spec m : 8 * Z.of_nat (length m) < 2 ^ 64 → digest m = Ret (sha256_spec m).
Proof.
  intros Hm. unfold digest. destruct (holds_update [] m new holds_new Hm) as (h & -> & Hh). by apply holds_finalize.
Qed.
Lemma two_spec a b : 8 * Z.of_nat (length a + length b) < 2 ^ 64 →
  ∃ h1 h2, update a new = Ret h1 ∧ update b h1 = Ret h2 ∧ finalize h2 = Ret (sha256_spec (a ++ b)).
Proof.
  intros Hl. destruct (holds_update [] a new holds_new) as (h1 & E1 & H1); [lia|].
  destruct (holds_update a b h1 H1) as (h2 & E2 & H2); [lia|]. exists h1, h2. split_and!; [done|done|].
  apply holds_finalize; [done|]. rewrite length_app. lia.
Qed.
Lemma pieces_spec pieces : 8 * Z.of_nat (length (mjoin pieces)) < 2 ^ 64 → sha256_pieces pieces = Ret (sha256_spec (mjoin pieces)).
Proof.
  intros Hm. unfold sha256_pieces.
  assert (∀ m h, holds m h → 8 * Z.of_nat (length (m ++ mjoin pieces)) < 2 ^ 64 →
    ∃ h', foldl (λ h data, h ≫= update data) (Ret h) pieces = Ret h' ∧ holds (m ++ mjoin pieces) h') as Hgo.
  { clear Hm. induction pieces as [|data pieces IH]; intros m h Hh Hm; [rewrite app_nil_r; eauto|]. simpl in *.
    destruct (holds_update m data h Hh) as (h1 & -> & H1); [rewrite !length_app in Hm; lia|].
    rewrite app_assoc. apply IH; [done|]. by rewrite <-app_assoc. }
  destruct (Hgo [] new holds_new Hm) as (h & E & Hh). unfold mret, run_ret. rewrite E. by apply holds_finalize.
Qed.

End Sha256Correct.

(** * SHA-512 *)

Module Sha512Correct.
Import Sha512.

Abbreviation absorb := (feed 128 compress).
Lemma B_pos_512 : (0 < 128)%nat.
Proof. lia. Qed.
#[local] Hint Resolve B_pos_512 : core.

(** The loop over whole blocks ends, and leaves less than one. *)
Lemma compress_loop_chunks fuel : ∀ data h, (length data ≤ fuel)%nat →
  compress_loop fuel data h =
    Ret (set_state (fold_left compress (as_chunks 128 data).1 (state h)) h, (as_chunks 128 data).2).
Proof.
  induction fuel as [|fuel IH]; intros data h Hl; cbn [compress_loop]; destruct (Nat.leb_spec 128 (length data)) as [Hb|Hb].
  1: lia. 1, 3: rewrite as_chunks_short by done; by destruct h.
  rewrite IH by (rewrite length_drop; lia). by rewrite (as_chunks_block 128 B_pos_512 data).
Qed.

Lemma finish_view rest h : fits 128 h → buffered h = 0%nat ∨ rest = [] →
  ∃ h', ('(h, data) ← compress_loop (length rest) rest h;
         mret (if bool_decide (data = []) then h else set_buffer (copy_at 0 data (buffer h)) (length data) h)) = Ret h' ∧
    fits 128 h' ∧ view h' = absorb (view h) rest ∧ length_bits h' = length_bits h.
Proof.
  intros Hf [Hb| ->]; rewrite compress_loop_chunks by done; cbn [mbind run_bind mret run_ret]; (eexists; split; [done|]).
  - assert (view h = (state h, [])) as -> by (unfold view; by rewrite Hb). rewrite feed_chunks by done.
    pose proof (chunks_rest 128 B_pos_512 rest) as Hr. destruct (as_chunks 128 rest) as [blocks data]. cbn [fst snd] in *.
    case_bool_decide as E; [subst data; split_and!; [done| |done]; unfold view; simpl; by rewrite Hb|].
    destruct (view_rest 128 B_pos_512 h (fold_left compress blocks (state h)) data Hf) as [H1 H2]; [|done].
    rewrite Hr. by apply Nat.mod_upper_bound.
  - rewrite as_chunks_short by (simpl; lia). by destruct h.
Qed.

Lemma update_view_512 data h : fits 128 h → 8 * Z.of_nat (length data) < 2 ^ 128 →
  ∃ h', update data h = Ret h' ∧ fits 128 h' ∧ view h' = absorb (view h) data ∧
        length_bits h' = (length_bits h + 8 * Z.of_nat (length data)) mod 2 ^ 128.
Proof.
  intros Hf Hlen. unfold update. rewrite chk_ret by (unfold u128; lia). cbn [mbind run_bind]. rewrite (Z.mul_comm _ 8).
  set (h0 := set_length _ h). cbv zeta. destruct (Nat.ltb_spec 0 (buffered h0)) as [Hb|Hb].
  - destruct (view_fill 128 compress B_pos_512 h0 data Hf Hb) as [Hl Hv]. cbv zeta in *. destruct (_ =? 128)%nat.
    + match goal with |- context [compress_loop _ ?d ?x] => destruct (finish_view d x) as (h' & E & H1 & H2 & H3) end;
        [by split|by left|].
      exists h'. rewrite E. split_and!; [done|done| |done]. rewrite H2. symmetry. exact Hv.
    + destruct Hv as (H1 & H2 & H3). destruct (finish_view _ _ H1 (or_intror H2)) as (h' & E & H4 & H5 & H6).
      exists h'. rewrite E. split_and!; [done|done| |done]. rewrite H5, H2. exact H3.
  - destruct (finish_view data h0 Hf) as (h' & E & H1 & H2 & H3); [left; lia|].
    exists h'. rewrite E. by split_and!.
Qed.

(** The padding that [finalize] computes is the standard's. *)
Lemma zeros_eq b : (b < 128)%nat →
  (let rest := (b + 1) mod 128 in if rest <=? 112 then 112 - rest else 240 - rest)%nat = ((239 - b) mod 128)%nat.
Proof.
  intros Hb. cbv zeta. destruct (decide (b = 127)%nat) as [->|Hne]; [by vm_compute|]. rewrite (Nat.mod_small (b + 1)) by lia.
  destruct (Nat.leb_spec (b + 1) 112); [|rewrite Nat.mod_small by lia; lia].
  replace (239 - b)%nat with (111 - b + 1 * 128)%nat by lia. rewrite Nat.Div0.mod_add, Nat.mod_small by lia. lia.
Qed.
Lemma pad_slice n : (n < 128)%nat → slice_ix 0 (1 + n) (128 :: replicate 255 0) = Ret (128 :: replicate n 0).
Proof.
  intros Hn. unfold slice_ix, slice. rewrite (proj2 (Nat.leb_le _ _)) by (simpl; lia).
  rewrite drop_0. change (1 + n)%nat with (S n). cbn [take]. rewrite take_replicate. by rewrite Nat.min_l by lia.
Qed.

Definition holds m h : Prop :=
  fits 128 h ∧ view h = absorb (H0, []) m ∧ length_bits h = (8 * Z.of_nat (length m)) mod 2 ^ 128.
Lemma holds_new_512 : holds [] new.
Proof. split; [split; vm_compute; [done|lia]|done]. Qed.
Lemma holds_update_512 m data h : holds m h → 8 * Z.of_nat (length data) < 2 ^ 128 →
  ∃ h', update data h = Ret h' ∧ holds (m ++ data) h'.
Proof.
  intros (Hf & Hv & Hl) Hd. destruct (update_view_512 data h Hf Hd) as (h' & -> & Hf' & Hv' & Hl').
  eexists. split; [done|]. split_and!; [done|by rewrite Hv', Hv, feed_app|].
  rewrite Hl', Hl, Z.add_mod_idemp_l by done. f_equal. rewrite length_app. lia.
Qed.
Definition pad_tail m : list Z := (128 :: replicate (pad_zeros 128 16 (length m)) 0) ++ be 16 (8 * Z.of_nat (length m)).
Lemma pad_tail_length m : 8 * Z.of_nat (length (pad_tail m)) < 2 ^ 128.
Proof.
  unfold pad_tail, be. rewrite length_app, length_rev, length_le, length_cons, length_replicate. unfold pad_zeros.
  pose proof (Nat.mod_upper_bound (2 * 128 - 16 - 1 - length m mod 128) 128 ltac:(done)). lia.
Qed.
Lemma holds_buffered m h : holds m h → buffered h = (length m mod 128)%nat.
Proof.
  intros ([Hf1 Hf2] & Hv & Hl). rewrite <-(chunks_rest 128 B_pos_512 m). rewrite feed_chunks in Hv by done.
  assert (take (buffered h) (buffer h) = (as_chunks 128 m).2) as <- by exact (f_equal snd Hv). rewrite length_take. lia.
Qed.
Lemma pad_zeros_eq len : ((239 - len mod 128) mod 128 = pad_zeros 128 16 len)%nat.
Proof. done. Qed.
Lemma pad_zeros_lt len : (pad_zeros 128 16 len < 128)%nat.
Proof. rewrite <-pad_zeros_eq. by apply Nat.mod_upper_bound. Qed.
Lemma finalize_at h n : buffered h = n → (n < 128)%nat →
  finalize h = (head ← slice_ix 0 (1 + (239 - n) mod 128) (128 :: replicate 255 0);
                h' ← update_no_length (head ++ be 16 (length_bits h)) h; mret (mjoin (be 8 <$> state h'))).
Proof.
  intros <- Hf. rewrite <-(zeros_eq (buffered h) Hf). done.
Qed.
Lemma finalize_pads m h : holds m h → 8 * Z.of_nat (length m) < 2 ^ 128 →
  finalize h = (h ← update_no_length (pad_tail m) h; mret (mjoin (be 8 <$> state h))).
Proof.
  intros Hh Hm. pose proof (holds_buffered m h Hh) as Hb. destruct Hh as (Hf & _ & Hl).
  rewrite (finalize_at h _ Hb) by (by apply Nat.mod_upper_bound).
  rewrite pad_zeros_eq, pad_slice by apply pad_zeros_lt. rewrite Hl, Z.mod_small, bind_Ret by lia. done.
Qed.
Lemma holds_finalize_512 m h : holds m h → 8 * Z.of_nat (length m) < 2 ^ 128 → finalize h = Ret (sha512_spec m).
Proof.
  intros Hh Hm. rewrite (finalize_pads m h Hh Hm). destruct Hh as (Hf & Hv & Hl). unfold update_no_length.
  destruct (update_view_512 (pad_tail m) h Hf (pad_tail_length m)) as (h' & -> & Hf' & Hv' & _).
  cbn [mbind run_bind mret run_ret]. unfold sha512_spec. f_equal. f_equal. f_equal. change (state (set_length _ h')) with (view h').1.
  rewrite Hv', Hv. rewrite feed_fold by done. unfold pad. rewrite feed_app. done.
Qed.

Lemma digest_spec_512 m : 8 * Z.of_nat (length m) < 2 ^ 128 → digest m = Ret (sha512_spec m).
Proof.
  intros Hm. unfold digest. destruct (holds_update_512 [] m new holds_new_512 Hm) as (h & -> & Hh). by apply holds_finalize_512.
Qed.
Lemma two_spec_512 a b : 8 * Z.of_nat (length a + length b) < 2 ^ 128 →
  ∃ h1 h2, update a new = Ret h1 ∧ update b h1 = Ret h2 ∧ finalize h2 = Ret (sha512_spec (a ++ b)).
Proof.
  intros Hl. destruct (holds_update_512 [] a new holds_new_512) as (h1 & E1 & H1); [lia|].
  destruct (holds_update_512 a b h1 H1) as (h2 & E2 & H2); [lia|]. exists h1, h2. split_and!; [done|done|].
  apply holds_finalize_512; [done|]. rewrite length_app. lia.
Qed.
Lemma pieces_spec_512 pieces : 8 * Z.of_nat (length (mjoin pieces)) < 2 ^ 128 → sha512_pieces pieces = Ret (sha512_spec (mjoin pieces)).
Proof.
  intros Hm. unfold sha512_pieces.
  assert (∀ m h, holds m h → 8 * Z.of_nat (length (m ++ mjoin pieces)) < 2 ^ 128 →
    ∃ h', foldl (λ h data, h ≫= update data) (Ret h) pieces = Ret h' ∧ holds (m ++ mjoin pieces) h') as Hgo.
  { clear Hm. induction pieces as [|data pieces IH]; intros m h Hh Hm; [rewrite app_nil_r; eauto|]. simpl in *.
    destruct (holds_update_512 m data h Hh) as (h1 & -> & H1); [rewrite !length_app in Hm; lia|].
    rewrite app_assoc. apply IH; [done|]. by rewrite <-app_assoc. }
  destruct (Hgo [] new holds_new_512 Hm) as (h & E & Hh). unfold mret, run_ret. rewrite E. by apply holds_finalize_512.
Qed.

End Sha512Correct.

(** * The claims *)

(** A hasher gives the standard's digest however its input is cut up: fed
    any sequence of pieces, SHA-256 and SHA-512 return (no panic, and the
    padding loops end) the block-by-block hash of the padded concatenation, for
    every message whose length in bits fits the length field. *)
Theorem pieces_hash_as_one pieces :
  (8 * Z.of_nat (length (mjoin pieces)) < 2 ^ 64 → sha256_pieces pieces = Ret (sha256_spec (mjoin pieces))) ∧
  (8 * Z.of_nat (length (mjoin pieces)) < 2 ^ 128 → sha512_pieces pieces = Ret (sha512_spec (mjoin pieces))).
Proof. split; [apply Sha256Correct.pieces_spec|apply Sha512Correct.pieces_spec_512]. Qed.

(** The definition of [RFC 2104]: a key longer than a block is hashed, a shorter
    one is filled up with zeros. *)
Definition hmac_key (B : nat) (H : list Z → list Z) (key : list Z) : list Z :=
  let k := if (B <? length key)%nat then H key else key in k ++ replicate (B - length k) 0.
Definition hmac_spec (B : nat) (H : list Z → list Z) (key message : list Z) : list Z :=
  H (xor_pad 0x5c (hmac_key B H key) ++ H (xor_pad 0x36 (hmac_key B H key) ++ message)).

Lemma length_be n z : length (be n z) = n.
Proof. unfold be. by rewrite length_rev, length_le. Qed.
Lemma length_be_words n (ws : list Z) : length (mjoin (be n <$> ws)) = (n * length ws)%nat.
Proof.
  induction ws as [|w ws IH]; [simpl; lia|]. change (mjoin (be n <$> w :: ws)) with (be n w ++ mjoin (be n <$> ws)).
  rewrite length_app, length_be, IH. simpl. lia.
Qed.
Lemma fold_compress_length (comp : list Z → list Z → list Z) blocks st n :
  (∀ st b, length st = n → length (comp st b) = n) → length st = n → length (fold_left comp blocks st) = n.
Proof. intros Hc. revert st. induction blocks; simpl; auto. Qed.
Lemma rounds_length (round : list Z → nat → list Z) (ix : list nat) v n :
  (∀ v i, length v = n → length (round v i) = n) → length v = n → length (fold_left round ix v) = n.
Proof. intros Hr. revert v. induction ix; simpl; auto. Qed.
Lemma sha256_length m : length (sha256_spec m) = 32%nat.
Proof.
  unfold sha256_spec. rewrite length_be_words. rewrite (fold_compress_length _ _ _ 8); [done| |done]. intros st b Hst.
  unfold Sha256.compress. rewrite length_zip_with, (rounds_length _ _ _ 8); [lia| |done].
  intros v i Hv. by do 9 (destruct v as [|? v]; try done).
Qed.
Lemma sha512_length m : length (sha512_spec m) = 64%nat.
Proof.
  unfold sha512_spec. rewrite length_be_words. rewrite (fold_compress_length _ _ _ 8); [done| |done]. intros st b Hst.
  unfold Sha512.compress. rewrite length_zip_with, (rounds_length _ _ _ 8); [lia| |done].
  intros v i Hv. by do 9 (destruct v as [|? v]; try done).
Qed.

Lemma xor_pad_length p k : length (xor_pad p k) = length k.
Proof. apply length_fmap. Qed.
Lemma copy_key n k : (length k ≤ n)%nat → copy_at 0 k (replicate n 0) = k ++ replicate (n - length k) 0.
Proof. intros. unfold copy_at. rewrite take_0, drop_replicate. done. Qed.

Lemma padded_key n H key : (length (H key) ≤ n)%nat →
  (if (n <? length key)%nat then mret (copy_at 0 (H key) (replicate n 0)) else mret (copy_at 0 key (replicate n 0))) =
  Ret (hmac_key n H key).
Proof. intros. unfold hmac_key. destruct (Nat.ltb_spec n (length key)); by rewrite copy_key. Qed.
Lemma hmac_key_length n H key : (length (H key) ≤ n)%nat → length (hmac_key n H key) = n.
Proof.
  intros. unfold hmac_key. cbv zeta. rewrite length_app, length_replicate. destruct (Nat.ltb_spec n (length key)); lia.
Qed.

(** [hmac_sha256] and [hmac_sha512] are RFC 2104 over their hash, for keys of
    any length (a key longer than the block is replaced by its digest, at each
    hash's own block size) and every message that fits the length field. *)
Theorem hmac_is_rfc_2104 (key message : list Z) :
  Z.of_nat (length key) < 2 ^ 60 → Z.of_nat (length message) < 2 ^ 60 →
  hmac_sha256 key message = Ret (hmac_spec 64 sha256_spec key message) ∧
  hmac_sha512 key message = Ret (hmac_spec 128 sha512_spec key message).
Proof.
  intros Hk Hm. split.
  - unfold hmac_sha256, BLOCK, hmac_spec. cbv zeta. rewrite Sha256Correct.digest_spec, bind_Ret by lia.
    rewrite (padded_key 64 sha256_spec key), bind_Ret by (rewrite sha256_length; lia).
    set (k := hmac_key 64 sha256_spec key). assert (length k = 64)%nat as Hkl by (apply hmac_key_length; rewrite sha256_length; lia).
    destruct (Sha256Correct.two_spec (xor_pad 0x36 k) message) as (h1 & h2 & -> & E2 & E3); [rewrite xor_pad_length; lia|].
    rewrite bind_Ret, E2, bind_Ret, E3, bind_Ret.
    destruct (Sha256Correct.two_spec (xor_pad 0x5c k) (sha256_spec (xor_pad 0x36 k ++ message))) as (h3 & h4 & -> & E4 & E5);
      [rewrite xor_pad_length, sha256_length; lia|]. by rewrite bind_Ret, E4, bind_Ret.
  - unfold hmac_sha512, BLOCK_512, hmac_spec. cbv zeta. rewrite Sha512Correct.digest_spec_512, bind_Ret by lia.
    rewrite (padded_key 128 sha512_spec key), bind_Ret by (rewrite sha512_length; lia).
    set (k := hmac_key 128 sha512_spec key). assert (length k = 128)%nat as Hkl by (apply hmac_key_length; rewrite sha512_length; lia).
    destruct (Sha512Correct.two_spec_512 (xor_pad 0x36 k) message) as (h1 & h2 & -> & E2 & E3); [rewrite xor_pad_length; lia|].
    rewrite bind_Ret, E2, bind_Ret, E3, bind_Ret.
    destruct (Sha512Correct.two_spec_512 (xor_pad 0x5c k) (sha512_spec (xor_pad 0x36 k ++ message))) as (h3 & h4 & -> & E4 & E5);
      [rewrite xor_pad_length, sha512_length; lia|]. by rewrite bind_Ret, E4, bind_Ret.
Qed.

Lemma pieces_hash_as_one_witness :
  (sha256_pieces [[97]; []; [98; 99]] = Ret (sha256_spec [97; 98; 99]) ∧
   to_hex (sha256_spec [97; 98; 99]) = text_of "ba7816bf8f01cfea414140de5dae2223b00361a396177a9cb410ff61f20015ad") ∧
  sha512_pieces [replicate 100 97; replicate 100 98] = Ret (sha512_spec (replicate 100 97 ++ replicate 100 98)).
Proof.
  split; [split; [|by vm_compute]|].
  - apply (proj1 (pieces_hash_as_one [[97]; []; [98; 99]])). simpl. lia.
  - apply (proj2 (pieces_hash_as_one [replicate 100 97; replicate 100 98])). simpl. lia.
Defined.

Lemma hmac_is_rfc_2104_witness :
  hmac_sha256 (replicate 131 170) [1; 2; 3] = Ret (hmac_spec 64 sha256_spec (replicate 131 170) [1; 2; 3]) ∧
  hmac_sha512 (replicate 131 170) [1; 2; 3] = Ret (hmac_spec 128 sha512_spec (replicate 131 170) [1; 2; 3]).
Proof. apply (hmac_is_rfc_2104 (replicate 131 170) [1; 2; 3]); simpl; lia. Defined.

(** * The published vectors, as the code's tests have them *)

Definition hashes_to (r : run (list Z)) (x : string) : bool := bool_decide (r = Ret (text_of x)).

Example sha256_vectors : forallb (λ p, hashes_to (Sha256.sha256_hex (text_of p.1)) p.2)
  [("", "e3b0c44298fc1c149afbf4c8996fb92427ae41e4649b934ca495991b7852b855");
   ("abc", "ba7816bf8f01cfea414140de5dae2223b00361a396177a9cb410ff61f20015ad");
   ("abcdbcdecdefdefgefghfghighijhijkijkljklmklmnlmnomnopnopq",
    "248d6a61d20638b8e5c026930c3e6039a33ce45964ff2167f6ecedd419db06c1")]%string = true.
Proof. by vm_compute. Qed.
Example sha512_vectors : forallb (λ p, hashes_to (Sha512.sha512_hex (text_of p.1)) p.2)
  [("", "cf83e1357eefb8bdf1542850d66d8007d620e4050b5715dc83f4a921d36ce9ce47d0d13c5d85f2b0ff8318d2877eec2f63b931bd47417a81a538327af927da3e");
   ("abc", "ddaf35a193617abacc417349ae20413112e6fa4e89a97ea20a9eeee64b55d39a2192992a274fc1a836ba3c23a3feebbd454d4423643ce80e2a9ac94fa54ca49f");
   ("abcdefghbcdefghicdefghijdefghijkefghijklfghijklmghijklmnhijklmnoijklmnopjklmnopqklmnopqrlmnopqrsmnopqrstnopqrstu",
    "8e959b75dae313da8cf4f72814fc143f8f7779c6eb9f7fa17299aeadb6889018501d289e4900f7e4331b99dec4b5433ac7d329eeb6dd26545e96e55b874be909")]%string = true.
Proof. by vm_compute. Qed.
Example hmac_vectors :
  hashes_to (hmac_sha256_hex (text_of "Jefe") (text_of "what do ya want for nothing?"))
    "5bdcc146bf60754e6a042426089575c75a003f089d2739839dec58b964ec3843" &&
  hashes_to (hmac_sha256_hex (replicate 131 170) (text_of "Test Using Larger Than Block-Size Key - Hash Key First"))
    "60e431591ee0b67f0d8a26aacbf5b77f8e0bc6213728c5140546040f0ee37f54" &&
  hashes_to (to_hex <$> hmac_sha512 (replicate 131 170) (text_of "Test Using Larger Than Block-Size Key - Hash Key First"))
    "80b24263c7c1a3ebb71493c1dd7be8b49b46d1f41b4aeec1121b013783f8f3526b56d037e05f2598bd0fd2215d6a1e5295e64f73f63f0aec8b915a985d786598" = true.
Proof. by vm_compute. Qed.

(** Hex loses nothing. *)
Lemma to_hex_inj a b : bytes a → bytes b → to_hex a = to_hex b → a = b.
Proof.
  unfold to_hex. intros Ha. revert b. induction Ha as [|x a Hx Ha IH]; intros b Hb E; [by destruct b|].
  destruct Hb as [|y b Hy Hb]; [done|]. rewrite !fmap_cons in E. cbn [mjoin list_join] in E. simpl in E. injection E as E1 E2 E.
  assert (∀ i j, (i < 16)%nat → (j < 16)%nat → at_ DIGITS i = at_ DIGITS j → i = j) as Hinj.
  { intros i j Hi Hj. do 16 (destruct i as [|i]; [do 16 (destruct j as [|j]; [done|]); lia|]). lia. }
  assert (∀ z, u8 z → 0 ≤ Z.shiftr z 4 < 16 ∧ 0 ≤ Z.land z 15 < 16 ∧ z = 16 * Z.shiftr z 4 + Z.land z 15) as Hz.
  { intros z Hz. change 15 with (Z.ones 4). rewrite Z.land_ones, Z.shiftr_div_pow2 by lia. change (2 ^ 4) with 16. unfold u8 in Hz.
    pose proof (Z.div_mod z 16 ltac:(done)). pose proof (Z.mod_pos_bound z 16 ltac:(done)). lia. }
  destruct (Hz x Hx) as (? & ? & Ex), (Hz y Hy) as (? & ? & Ey).
  apply Hinj in E1; [|lia|lia]. apply Hinj in E2; [|lia|lia]. f_equal; [lia|]. by apply IH.
Qed.
