(* ===== verification/Base64.v ===== *)
(** Base64 ([oq-gateway/src/b64.rs]): the secret of one venue is handed out
    encoded, and requests are signed with the decoded bytes. *)

From stdpp Require Import strings.
From S2P Require Import Prelude Bytes Text Sha.
#[local] Open Scope Z_scope.

Implicit Types (bs : list Z) (s : text).

Definition ALPHABET : list Z :=
  Eval vm_compute in text_of "ABCDEFGHIJKLMNOPQRSTUVWXYZabcdefghijklmnopqrstuvwxyz0123456789+/".
Definition letter (n : Z) : Z := at_ ALPHABET (Z.to_nat (Z.land n 63)).

(** One chunk of at most three bytes. *)
Definition encode_chunk (chunk : list Z) : text :=
  let n := Z.lor (Z.lor (Z.shiftl (at_ chunk 0) 16) (Z.shiftl (at_ chunk 1) 8)) (at_ chunk 2) in
  [letter (Z.shiftr n 18); letter (Z.shiftr n 12);
   if (1 <? length chunk)%nat then letter (Z.shiftr n 6) else 61;
   if (2 <? length chunk)%nat then letter n else 61].
(** [bytes.chunks(3)]: the last chunk may be short. *)
Definition chunks (n : nat) bs : list (list Z) :=
  let '(blocks, rest) := as_chunks n bs in if bool_decide (rest = []) then blocks else blocks ++ [rest].
Definition encode bs : text := mjoin (encode_chunk <$> chunks 3 bs).

(** The value of a letter. *)
Definition sextet (c : Z) : option Z :=
  if within_ 65 90 c then Some (c - 65)
  else if within_ 97 122 c then Some (c - 97 + 26)
  else if within_ 48 57 c then Some (c - 48 + 52)
  else if c =? 43 then Some 62
  else if c =? 47 then Some 63
  else None.

(** What the loop of [decode] carries. *)
Record Decoding := { accumulator : Z; bits : Z; out : list Z; padding : nat }.

Definition decode_byte (d : Decoding) (c : Z) : option Decoding :=
  if (c =? 10) || (c =? 13) then Some d
  else if c =? 61 then
    Some {| accumulator := accumulator d; bits := bits d; out := out d; padding := S (padding d) |}
  else if (0 <? padding d)%nat then None
  else match sextet c with
       | None => None
       | Some v =>
           let a := Z.lor (as_u32 (Z.shiftl (accumulator d) 6)) v in
           let b := bits d + 6 in
           Some (if 8 <=? b
                 then {| accumulator := a; bits := b - 8; out := out d ++ [Z.land (Z.shiftr a (b - 8)) 255]; padding := padding d |}
                 else {| accumulator := a; bits := b; out := out d; padding := padding d |})
       end.
Fixpoint decode_loop s (d : Decoding) : option Decoding :=
  match s with
  | [] => Some d
  | c :: s => match decode_byte d c with Some d => decode_loop s d | None => None end
  end.
Definition decode s : option (list Z) :=
  match decode_loop s {| accumulator := 0; bits := 0; out := []; padding := 0 |} with
  | None => None
  | Some d =>
      if (2 <? padding d)%nat then None
      else if negb (Z.land (accumulator d) (Z.shiftl 1 (bits d) - 1) =? 0) then None
      else Some (out d)
  end.

(** * Lemmas *)

(** What the loop depends on of the accumulator: its low [bits] bits. *)
Definition low (d : Decoding) : Z := accumulator d mod 2 ^ bits d.

Lemma sextet_letter v : 0 ≤ v < 64 → sextet (at_ ALPHABET (Z.to_nat v)) = Some v ∧
  at_ ALPHABET (Z.to_nat v) ≠ 10 ∧ at_ ALPHABET (Z.to_nat v) ≠ 13 ∧ at_ ALPHABET (Z.to_nat v) ≠ 61.
Proof.
  intros Hv. assert (forallb (λ i, bool_decide (sextet (at_ ALPHABET i) = Some (Z.of_nat i)) &&
    negb (at_ ALPHABET i =? 10) && negb (at_ ALPHABET i =? 13) && negb (at_ ALPHABET i =? 61)) (seq 0 64) = true) as H by (by vm_compute).
  rewrite forallb_forall in H. specialize (H (Z.to_nat v) ltac:(apply in_seq; lia)). rewrite !andb_true_iff, !negb_true_iff in H.
  destruct H as [[[H1 H2] H3] H4]. apply bool_decide_eq_true in H1. rewrite Z2Nat.id in H1 by lia. split_and!; [done|lia..].
Qed.

Lemma lor_disjoint y n v : 0 ≤ n → 0 ≤ v < 2 ^ n → Z.lor (y * 2 ^ n) v = y * 2 ^ n + v.
Proof.
  intros Hn Hv. rewrite <-Z.add_lor_land. assert (Z.land (y * 2 ^ n) v = 0) as ->; [|lia].
  apply Z.bits_inj'. intros m Hm. rewrite Z.land_spec, Z.bits_0, <-Z.shiftl_mul_pow2 by done.
  destruct (Z.lt_ge_cases m n); [by rewrite Z.shiftl_spec_low|].
  rewrite <-(Z.mod_small v (2 ^ n)), Z.mod_pow2_bits_high by lia. apply andb_false_r.
Qed.
Lemma land_ones_mod a n : 0 ≤ n → Z.land a (2 ^ n - 1) = a mod 2 ^ n.
Proof. intros. rewrite Z.sub_1_r, <-Z.ones_equiv. by apply Z.land_ones. Qed.

(** The accumulator loses its high bits, never the ones that are still needed. *)
Lemma accumulate_low a v b : 0 ≤ v < 64 → 0 ≤ b ≤ 6 →
  Z.lor (as_u32 (Z.shiftl a 6)) v mod 2 ^ (b + 6) = (a mod 2 ^ b) * 64 + v.
Proof.
  intros Hv Hb. unfold as_u32. rewrite Z.shiftl_mul_pow2 by lia.
  assert ((a * 2 ^ 6) mod 2 ^ 32 = (a mod 2 ^ 26) * 2 ^ 6) as ->.
  { change (2 ^ 32) with (2 ^ 26 * 2 ^ 6). by rewrite Z.mul_mod_distr_r by done. }
  rewrite lor_disjoint by (change (2 ^ 6) with 64; lia).
  assert (0 < 2 ^ b) by (apply Z.pow_pos_nonneg; lia).
  assert ((a mod 2 ^ 26) mod 2 ^ b = a mod 2 ^ b) as Hmod.
  { replace (2 ^ 26) with (2 ^ b * 2 ^ (26 - b)) by (rewrite <-Z.pow_add_r by lia; f_equal; lia).
    rewrite Z.rem_mul_r by (try apply Z.pow_nonzero; lia). rewrite Z.mul_comm, Z.mod_add, Z.mod_mod by lia. done. }
  rewrite Z.pow_add_r by lia. change (2 ^ 6) with 64. pose proof (Z.div_mod (a mod 2 ^ 26) (2 ^ b) ltac:(lia)) as E.
  rewrite Hmod in E. pose proof (Z.mod_pos_bound a (2 ^ b) ltac:(lia)). symmetry.
  apply (Z.mod_unique_pos _ _ ((a mod 2 ^ 26) / 2 ^ b)); nia.
Qed.

(** One letter: six more bits, and a byte once there are eight. *)
Lemma decode_letter d v : 0 ≤ v < 64 → padding d = 0%nat → 0 ≤ bits d ≤ 6 →
  let t := low d * 64 + v in
  ∃ d', decode_byte d (at_ ALPHABET (Z.to_nat v)) = Some d' ∧ padding d' = 0%nat ∧
    bits d' = (if 8 <=? bits d + 6 then bits d - 2 else bits d + 6) ∧
    low d' = t mod 2 ^ bits d' ∧
    out d' = out d ++ (if 8 <=? bits d + 6 then [t / 2 ^ (bits d - 2)] else []).
Proof.
  intros Hv Hp Hb t. destruct (sextet_letter v Hv) as (H1 & H2 & H3 & H4). unfold decode_byte.
  rewrite (proj2 (Z.eqb_neq _ _) H2), (proj2 (Z.eqb_neq _ _) H3), (proj2 (Z.eqb_neq _ _) H4), Hp, H1. cbn [orb Nat.ltb Nat.leb].
  set (a := Z.lor _ v). pose proof (accumulate_low (accumulator d) v (bits d) Hv Hb) as Ha. fold a in Ha. fold (low d) in Ha. fold t in Ha.
  assert (0 < 2 ^ bits d) by (apply Z.pow_pos_nonneg; lia). assert (0 ≤ low d < 2 ^ bits d) by (apply Z.mod_pos_bound; lia).
  eexists. split; [done|]. destruct (Z.leb_spec 8 (bits d + 6)) as [H8|H8]; unfold low; cbn [padding bits accumulator out].
  - replace (bits d + 6 - 8) with (bits d - 2) by lia. split_and!; [done|done| |].
    + rewrite <-Ha. replace (bits d + 6) with (bits d - 2 + 8) by lia. rewrite Z.pow_add_r by lia.
      rewrite Z.rem_mul_r by (try apply Z.pow_nonzero; lia). rewrite Z.mul_comm, Z.mod_add, Z.mod_mod by (apply Z.pow_nonzero; lia). done.
    + f_equal. f_equal. rewrite <-Ha. change 255 with (2 ^ 8 - 1). rewrite land_ones_mod, Z.shiftr_div_pow2 by lia.
      replace (bits d + 6) with (bits d - 2 + 8) by lia. rewrite Z.pow_add_r by lia.
      rewrite Z.rem_mul_r by (try apply Z.pow_nonzero; lia).
      rewrite (Z.mul_comm (2 ^ (bits d - 2))), Z.div_add by (apply Z.pow_nonzero; lia).
      rewrite (Z.div_small (a mod _)); [lia|]. apply Z.mod_pos_bound, Z.pow_pos_nonneg; lia.
  - split_and!; [done|done| |by rewrite app_nil_r]. rewrite <-Ha, Z.mod_mod; [done|]. apply Z.pow_nonzero; lia.
Qed.

Lemma decode_loop_app a b d : decode_loop (a ++ b) d = decode_loop a d ≫= decode_loop b.
Proof. revert d. induction a as [|c a IH]; intros d; [done|]. simpl. destruct (decode_byte d c); [apply IH|done]. Qed.

(** The sextets of a chunk. *)
Lemma chunk_word b0 b1 b2 : u8 b0 → u8 b1 → u8 b2 →
  Z.lor (Z.lor (Z.shiftl b0 16) (Z.shiftl b1 8)) b2 = b0 * 65536 + b1 * 256 + b2.
Proof.
  intros H0 H1 H2. rewrite !Z.shiftl_mul_pow2 by lia.
  replace (b0 * 2 ^ 16) with ((b0 * 2 ^ 8) * 2 ^ 8) by lia. rewrite <-Z.shiftl_mul_pow2, <-(Z.shiftl_mul_pow2 b1) by lia.
  rewrite <-Z.shiftl_lor, Z.shiftl_mul_pow2 by lia. rewrite !lor_disjoint by (change (2 ^ 8) with 256; mlia).
  change (2 ^ 8) with 256. lia.
Qed.
Lemma letter_eq n : letter n = at_ ALPHABET (Z.to_nat (n mod 64)).
Proof. unfold letter. change 63 with (2 ^ 6 - 1). by rewrite land_ones_mod. Qed.
Lemma sextets b0 b1 b2 : u8 b0 → u8 b1 → u8 b2 → let n := b0 * 65536 + b1 * 256 + b2 in
  Z.shiftr n 18 mod 64 = b0 / 4 ∧ Z.shiftr n 12 mod 64 = (b0 mod 4) * 16 + b1 / 16 ∧
  Z.shiftr n 6 mod 64 = (b1 mod 16) * 4 + b2 / 64 ∧ n mod 64 = b2 mod 64.
Proof.
  intros H0 H1 H2 n. rewrite !Z.shiftr_div_pow2 by lia. change (2 ^ 18) with 262144. change (2 ^ 12) with 4096. change (2 ^ 6) with 64.
  unfold n, u8 in *. Z.div_mod_to_equations. lia.
Qed.

Definition empty (d : Decoding) : Prop := padding d = 0%nat ∧ bits d = 0.

(** Two letters on an empty accumulator: a byte, and four bits over. *)
Lemma decode_two d u v : 0 ≤ u < 64 → 0 ≤ v < 64 → empty d →
  ∃ d', decode_loop [at_ ALPHABET (Z.to_nat u); at_ ALPHABET (Z.to_nat v)] d = Some d' ∧ padding d' = 0%nat ∧ bits d' = 4 ∧
    low d' = v mod 16 ∧ out d' = out d ++ [u * 4 + v / 16].
Proof.
  intros Hu Hv [Hp Hb]. destruct (decode_letter d u Hu Hp) as (d1 & E1 & Hp1 & Hb1 & Hl1 & Ho1); [lia|].
  rewrite Hb in *. simpl in Hb1. destruct (decode_letter d1 v Hv Hp1) as (d2 & E2 & Hp2 & Hb2 & Hl2 & Ho2); [lia|].
  assert (low d = 0) as Hl by (unfold low; rewrite Hb; apply Z.mod_1_r).
  rewrite Hb1 in *. simpl in Hb2, Ho1, Ho2. rewrite Hb2, Hl1, Hl in Hl2. rewrite Hl1, Hl, Ho1 in Ho2. rewrite app_nil_r in Ho2.
  rewrite (Z.mod_small (0 * 64 + u)) in * by (change (2 ^ 6) with 64; lia).
  exists d2. simpl. rewrite E1, E2. split_and!; [done|done|done| |].
  - rewrite Hl2. change (2 ^ 4) with 16. Z.div_mod_to_equations. lia.
  - rewrite Ho2. do 2 f_equal. change (2 ^ 4) with 16. Z.div_mod_to_equations. lia.
Qed.
(** A third and a fourth. *)
Lemma decode_third d v : 0 ≤ v < 64 → padding d = 0%nat → bits d = 4 →
  ∃ d', decode_byte d (at_ ALPHABET (Z.to_nat v)) = Some d' ∧ padding d' = 0%nat ∧ bits d' = 2 ∧
    low d' = v mod 4 ∧ out d' = out d ++ [low d * 16 + v / 4].
Proof.
  intros Hv Hp Hb. destruct (decode_letter d v Hv Hp) as (d1 & E1 & Hp1 & Hb1 & Hl1 & Ho1); [lia|].
  rewrite Hb in *. simpl in Hb1, Ho1. rewrite Hb1 in Hl1. exists d1. split_and!; [done|done|done| |].
  - rewrite Hl1. change (2 ^ 2) with 4. Z.div_mod_to_equations. lia.
  - rewrite Ho1. do 2 f_equal. change (2 ^ 2) with 4. Z.div_mod_to_equations. lia.
Qed.
Lemma decode_fourth d v : 0 ≤ v < 64 → padding d = 0%nat → bits d = 2 →
  ∃ d', decode_byte d (at_ ALPHABET (Z.to_nat v)) = Some d' ∧ empty d' ∧ out d' = out d ++ [low d * 64 + v].
Proof.
  intros Hv Hp Hb. destruct (decode_letter d v Hv Hp) as (d1 & E1 & Hp1 & Hb1 & Hl1 & Ho1); [lia|].
  rewrite Hb in *. simpl in Hb1, Ho1. exists d1. split_and!; [done|done|]. rewrite Ho1, Z.div_1_r. done.
Qed.

Lemma decode_full_chunk d b0 b1 b2 : u8 b0 → u8 b1 → u8 b2 → empty d →
  ∃ d', decode_loop (encode_chunk [b0; b1; b2]) d = Some d' ∧ empty d' ∧ out d' = out d ++ [b0; b1; b2].
Proof.
  intros H0 H1 H2 Hd. unfold encode_chunk, at_. cbn [nth length Nat.ltb Nat.leb]. fold at_.
  rewrite chunk_word, !letter_eq by done. destruct (sextets b0 b1 b2 H0 H1 H2) as (-> & -> & -> & ->).
  unfold u8 in *. change [?a; ?b; ?c; ?e] with ([a; b] ++ [c; e]). rewrite decode_loop_app.
  destruct (decode_two d (b0 / 4) ((b0 mod 4) * 16 + b1 / 16)) as (d1 & E1 & Hp1 & Hb1 & Hl1 & Ho1); [Z.div_mod_to_equations; lia..|done|].
  rewrite E1. cbn [mbind option_bind decode_loop].
  destruct (decode_third d1 ((b1 mod 16) * 4 + b2 / 64)) as (d2 & E2 & Hp2 & Hb2 & Hl2 & Ho2); [Z.div_mod_to_equations; lia|done..|].
  rewrite E2. destruct (decode_fourth d2 (b2 mod 64)) as (d3 & E3 & He & Ho3); [Z.div_mod_to_equations; lia|done..|].
  rewrite E3. exists d3. split_and!; [done|done|]. rewrite Ho3, Ho2, Ho1, Hl2, Hl1, <-!app_assoc. f_equal. simpl.
  f_equal; [Z.div_mod_to_equations; lia|]. f_equal; [Z.div_mod_to_equations; lia|]. f_equal. Z.div_mod_to_equations. lia.
Qed.

(** The end of [decode]: what is left over must be zero. *)
Lemma finish d : 0 ≤ bits d → negb (Z.land (accumulator d) (Z.shiftl 1 (bits d) - 1) =? 0) = negb (low d =? 0).
Proof. intros. rewrite Z.shiftl_1_l, land_ones_mod by done. done. Qed.

Definition pads (k : nat) (d : Decoding) : Decoding :=
  {| accumulator := accumulator d; bits := bits d; out := out d; padding := (k + padding d)%nat |}.

(** The last chunk, when it is short: its spare bits are zero. *)
Lemma decode_short_chunk d chunk : bytes chunk → (1 ≤ length chunk ≤ 2)%nat → empty d →
  ∃ d', decode_loop (encode_chunk chunk) d = Some d' ∧ (padding d' ≤ 2)%nat ∧ 0 ≤ bits d' ∧ low d' = 0 ∧ out d' = out d ++ chunk.
Proof.
  intros Hc Hl Hd. destruct chunk as [|b0 chunk]; [simpl in Hl; lia|]. apply Forall_cons in Hc as [H0 Hc].
  destruct chunk as [|b1 chunk].
  - unfold encode_chunk, at_. cbn [nth length Nat.ltb Nat.leb]. fold at_. rewrite chunk_word, !letter_eq by done.
    destruct (sextets b0 0 0) as (-> & -> & _ & _); try done. unfold u8 in *. change [?a; ?b; ?c; ?e] with ([a; b] ++ [c; e]).
    rewrite decode_loop_app. destruct (decode_two d (b0 / 4) ((b0 mod 4) * 16 + 0 / 16)) as (d1 & E1 & Hp1 & Hb1 & Hl1 & Ho1);
      [Z.div_mod_to_equations; lia..|done|].
    rewrite E1. exists (pads 2 d1). split; [done|]. cbn [padding bits out pads]. rewrite Hp1, Hb1. unfold low in *. cbn [accumulator bits pads].
    split_and!; [done|done| |].
    + rewrite Hl1. Z.div_mod_to_equations. lia.
    + rewrite Ho1. do 2 f_equal. Z.div_mod_to_equations. lia.
  - destruct chunk; [|simpl in Hl; lia]. apply Forall_cons in Hc as [H1 _].
    unfold encode_chunk, at_. cbn [nth length Nat.ltb Nat.leb]. fold at_. rewrite chunk_word, !letter_eq by done.
    destruct (sextets b0 b1 0) as (-> & -> & -> & _); try done. unfold u8 in *. change [?a; ?b; ?c; ?e] with ([a; b] ++ [c; e]).
    rewrite decode_loop_app. destruct (decode_two d (b0 / 4) ((b0 mod 4) * 16 + b1 / 16)) as (d1 & E1 & Hp1 & Hb1 & Hl1 & Ho1);
      [Z.div_mod_to_equations; lia..|done|].
    rewrite E1. cbn [mbind option_bind decode_loop].
    destruct (decode_third d1 ((b1 mod 16) * 4 + 0 / 64)) as (d2 & E2 & Hp2 & Hb2 & Hl2 & Ho2); [Z.div_mod_to_equations; lia|done..|].
    rewrite E2. exists (pads 1 d2). split; [done|]. cbn [padding bits out pads]. rewrite Hp2, Hb2. unfold low in *. cbn [accumulator bits pads].
    split_and!; [lia|done| |].
    + rewrite Hl2. Z.div_mod_to_equations. lia.
    + rewrite Ho2, Ho1, Hl1, <-app_assoc. f_equal. simpl. f_equal; [Z.div_mod_to_equations; lia|].
      f_equal. Z.div_mod_to_equations. lia.
Qed.

Lemma encode_more b0 b1 b2 bs : encode (b0 :: b1 :: b2 :: bs) = encode_chunk [b0; b1; b2] ++ encode bs.
Proof.
  unfold encode, chunks. rewrite (as_chunks_block 3) by (simpl; lia). cbn [take drop]. rewrite drop_0.
  destruct (as_chunks 3 bs) as [blocks rest]. cbn [fst snd]. by case_bool_decide.
Qed.

Lemma decode_loop_encode bs : ∀ d, bytes bs → empty d →
  ∃ d', decode_loop (encode bs) d = Some d' ∧ (padding d' ≤ 2)%nat ∧ 0 ≤ bits d' ∧ low d' = 0 ∧ out d' = out d ++ bs.
Proof.
  induction bs as [bs IH] using (induction_ltof1 _ length). unfold ltof in IH. intros d Hbs Hd.
  destruct (decide (length bs < 3)%nat) as [Hs|Hs].
  - destruct (decide (bs = [])) as [->|Hne].
    { exists d. destruct Hd as [Hp Hb]. split_and!; [done|lia|lia| |by rewrite app_nil_r]. unfold low. rewrite Hb. apply Z.mod_1_r. }
    assert (encode bs = encode_chunk bs ++ []) as ->.
    { unfold encode, chunks. rewrite as_chunks_short by done. by rewrite bool_decide_false. }
    rewrite app_nil_r. apply decode_short_chunk; [done| |done]. destruct bs; [done|simpl in *; lia].
  - destruct bs as [|b0 [|b1 [|b2 bs]]]; try (simpl in Hs; lia). rewrite encode_more, decode_loop_app.
    unfold bytes in Hbs. rewrite !Forall_cons in Hbs. destruct Hbs as (H0 & H1 & H2 & Hbs).
    destruct (decode_full_chunk d b0 b1 b2 H0 H1 H2 Hd) as (d1 & -> & Hd1 & Ho1). cbn [mbind option_bind].
    destruct (IH bs ltac:(simpl; lia) d1 Hbs Hd1) as (d2 & -> & Hp & Hb & Hl & Ho2).
    exists d2. split_and!; [done..|]. by rewrite Ho2, Ho1, <-app_assoc.
Qed.

(** What is encoded decodes to the same bytes: for every byte string, the
    encoding is accepted, padding included, and gives it back. *)
Theorem decode_undoes_encode bs : bytes bs → decode (encode bs) = Some bs.
Proof.
  intros Hbs. unfold decode.
  destruct (decode_loop_encode bs {| accumulator := 0; bits := 0; out := []; padding := 0 |} Hbs ltac:(done)) as (d & -> & Hp & Hb & Hl & Ho).
  rewrite finish, Hl, (proj2 (Nat.ltb_ge _ _)) by done. by rewrite Ho.
Qed.

Lemma decode_undoes_encode_witness : bytes [0; 255; 7; 131] ∧ decode (encode [0; 255; 7; 131]) = Some [0; 255; 7; 131].
Proof. assert (bytes [0; 255; 7; 131]) as H by (by apply (bool_decide_unpack _)). split; [exact H|exact (decode_undoes_encode _ H)]. Defined.

(** A letter outside the alphabet, or data after the padding: no bytes at all,
    never the bytes so far. *)
Lemma decode_refuses_letter a c b d : decode_loop a {| accumulator := 0; bits := 0; out := []; padding := 0 |} = Some d →
  c ≠ 10 → c ≠ 13 → c ≠ 61 → sextet c = None ∨ (0 < padding d)%nat → decode (a ++ c :: b) = None.
Proof.
  intros Ha H1 H2 H3 Hc. unfold decode. rewrite decode_loop_app, Ha. cbn [mbind option_bind decode_loop]. unfold decode_byte.
  rewrite (proj2 (Z.eqb_neq _ _) H1), (proj2 (Z.eqb_neq _ _) H2), (proj2 (Z.eqb_neq _ _) H3). cbn [orb].
  destruct Hc as [->|Hc]; [by destruct (0 <? padding d)%nat|]. by rewrite (proj2 (Nat.ltb_lt _ _) Hc).
Qed.

(** The comment says that a stray sextet means the text was truncated.  Only a
    sextet that is not zero is noticed: these are cut in the middle of a byte. *)
Example truncated_text_is_decoded :
  decode (text_of "A") = Some [] ∧ decode (text_of "Zm9vA") = Some (text_of "foo") ∧ decode (text_of "Zm9v==") = Some (text_of "foo").
Proof. by vm_compute. Qed.

Example b64_vectors : forallb (λ p, bool_decide (encode (text_of p.1) = text_of p.2 ∧ decode (text_of p.2) = Some (text_of p.1)))
  [("", ""); ("f", "Zg=="); ("fo", "Zm8="); ("foo", "Zm9v"); ("foob", "Zm9vYg=="); ("fooba", "Zm9vYmE="); ("foobar", "Zm9vYmFy")]%string = true.
Proof. by vm_compute. Qed.
Example b64_refused : (decode ∘ text_of) <$> ["not base64!"; "Zg==="; "Zm9v=Yg"]%string = [None; None; None].
Proof. by vm_compute. Qed.
