(* ===== verification/Json.v ===== *)
(** Reading the JSON a venue sends back ([oq-gateway/src/json.rs]): scans for a
    key, an object or an array in the text, not a parser.  A [str] is its UTF-8
    bytes; every character the scans test is ASCII, and no byte of another
    character is, so they step byte by byte. *)

From stdpp Require Import strings.
From S2P Require Import Prelude Text Floats.
#[local] Open Scope Z_scope.

Implicit Types (s t body key needle : text).

(** [VenueError], and how it prints. *)
Inductive VenueError :=
| Transport (why : text)
| Venue (status : Z) (body : text)
| Malformed (what : string) (body : text).
#[export] Instance VenueError_eq_dec : EqDecision VenueError.
Proof. solve_decision. Defined.
Definition venue_error_text (e : VenueError) : text :=
  match e with
  | Transport e => text_of "transport: " ++ e
  | Venue status body => text_of "venue returned " ++ shown status ++ text_of ": " ++ body
  | Malformed what body => text_of "could not read " ++ text_of what ++ text_of " from response: " ++ body
  end.

(** * Scans *)

(** [objects]: the top-level objects of an array, as they are written. *)
Fixpoint objects_loop body s (i depth : nat) (start : option nat) (in_string escaped : bool) : list text :=
  match s with
  | [] => []
  | c :: s =>
      if escaped then objects_loop body s (S i) depth start in_string false
      else if (c =? 92) && in_string then objects_loop body s (S i) depth start in_string true
      else if c =? 34 then objects_loop body s (S i) depth start (negb in_string) false
      else if (c =? 123) && negb in_string then
        objects_loop body s (S i) (S depth) (if (depth =? 0)%nat then Some i else start) in_string false
      else if (c =? 125) && negb in_string then
        let depth := (depth - 1)%nat in
        match (if (depth =? 0)%nat then start else None) with
        | Some from => take (S i - from) (drop from body) :: objects_loop body s (S i) depth None in_string false
        | None => objects_loop body s (S i) depth start in_string false
        end
      else objects_loop body s (S i) depth start in_string false
  end.
Definition objects body : list text := objects_loop body body 0 0 None false false.

(** Where the object that starts here ends: the loop of [object_field] and of
    [object_containing].  [depth -= 1] panics at zero. *)
Fixpoint object_end s (i depth : nat) (in_string escaped : bool) : run (option nat) :=
  match s with
  | [] => mret None
  | c :: s =>
      if escaped then object_end s (S i) depth in_string false
      else if (c =? 92) && in_string then object_end s (S i) depth in_string true
      else if c =? 34 then object_end s (S i) depth (negb in_string) false
      else if (c =? 123) && negb in_string then object_end s (S i) (S depth) in_string false
      else if (c =? 125) && negb in_string then
        match depth with
        | O => Panic
        | S O => mret (Some i)
        | S depth => object_end s (S i) depth in_string false
        end
      else object_end s (S i) depth in_string false
  end.

(** The last unmatched [{] before the needle, read backwards. *)
Fixpoint open_before (rev_s : text) (depth : nat) : option nat :=
  match rev_s with
  | [] => None
  | c :: r =>
      if c =? 125 then open_before r (S depth)
      else if c =? 123 then match depth with O => Some (length r) | S depth => open_before r depth end
      else open_before r depth
  end.
(** [body\[..=i\]], and [rest\[1..i\]]. *)
Definition upto s (stop : option nat) : option text := i ← stop; Some (take (S i) s).
Definition between s (stop : option nat) : option text := i ← stop; Some (take (i - 1) (drop 1 s)).
Definition object_containing body needle : run (option text) :=
  match find_text needle body ≫= (λ i, open_before (rev (take i body)) 0) with
  | None => mret None
  | Some start =>
      stop ← object_end (drop start body) 0 0 false false;
      mret (upto (drop start body) stop)
  end.

(** [unescape_until_quote]. *)
Definition unescaped (c : Z) : text :=
  if c =? 110 then [10] else if c =? 114 then [13] else if c =? 116 then [9] else if c =? 98 then [8]
  else if c =? 102 then [12] else if (c =? 34) || (c =? 92) || (c =? 47) then [c] else [92; c].
Fixpoint unescape_until_quote (inner : text) : option text :=
  match inner with
  | [] => None
  | c :: rest =>
      if c =? 34 then Some []
      else if c =? 92 then
        match rest with
        | [] => None
        | other :: rest => app (unescaped other) <$> unescape_until_quote rest
        end
      else cons c <$> unescape_until_quote rest
  end.

(** [rest.find([',', '}', ']'])]. *)
Fixpoint until_delimiter s : text :=
  match s with
  | c :: s => if (c =? 44) || (c =? 125) || (c =? 93) then [] else c :: until_delimiter s
  | [] => []
  end.
Definition quoted key : text := [34] ++ key ++ [34].
(** What follows ["key":], past every match that is not a key. *)
Fixpoint after_key (fuel : nat) body needle (from : nat) : run (option text) :=
  match fuel with
  | O => OutOfFuel
  | S fuel =>
      match find_text needle (drop from body) with
      | None => mret None
      | Some k =>
          let at_ := (k + from + length needle)%nat in
          match trim_start (drop at_ body) with
          | 58 :: rest => mret (Some (trim_start rest))
          | _ => after_key fuel body needle at_
          end
      end
  end.
Definition value_at key body : run (option text) := after_key (S (length body)) body (quoted key) 0.
Definition raw_value (rest : text) : option text :=
  match rest with
  | 34 :: inner => unescape_until_quote inner
  | _ => Some (trim (until_delimiter rest))
  end.
Definition raw_field body key : run (option text) := rest ← value_at key body; mret (rest ≫= raw_value).
Definition object_field body key : run (option text) :=
  rest ← value_at key body;
  match rest with
  | Some ((123 :: _) as rest) => stop ← object_end rest 0 0 false false; mret (upto rest stop)
  | _ => mret None
  end.

Fixpoint array_end s (i depth : nat) (in_string escaped : bool) : run (option nat) :=
  match s with
  | [] => mret None
  | c :: s =>
      if escaped then array_end s (S i) depth in_string false
      else if (c =? 92) && in_string then array_end s (S i) depth in_string true
      else if c =? 34 then array_end s (S i) depth (negb in_string) false
      else if (c =? 91) && negb in_string then array_end s (S i) (S depth) in_string false
      else if (c =? 93) && negb in_string then
        match depth with
        | O => Panic
        | S O => mret (Some i)
        | S depth => array_end s (S i) depth in_string false
        end
      else if (depth =? 0)%nat then mret None
      else array_end s (S i) depth in_string false
  end.
Definition array_field body key : run (option text) :=
  match find_text (quoted key) body with
  | None => mret None
  | Some k =>
      match trim_start (drop (k + length (quoted key)) body) with
      | 58 :: rest =>
          let rest := trim_start rest in
          stop ← array_end rest 0 0 false false;
          mret (between rest stop)
      | _ => mret None
      end
  end.

(** * Typed fields *)

(** [str::parse::<i64>]. *)
Definition parse_i64 s : option Z :=
  let '(neg, ds) := match s with c :: r => if c =? 45 then (true, r) else if c =? 43 then (false, r) else (false, s) | [] => (false, s) end in
  if bool_decide (ds = []) || negb (forallb is_digit ds) then None
  else checked i64 (if neg : bool then - digits_value ds else digits_value ds).

Definition field_str body key : run (option text) := raw_field body key.
Definition field_f64 body key : run (option SpecFloat.spec_float) := r ← raw_field body key; mret (r ≫= F64.parse).
Definition field_i64 body key : run (option Z) := r ← raw_field body key; mret (r ≫= parse_i64).
Definition field_bool body key : run (option bool) :=
  r ← raw_field body key;
  mret (s ← r; if bool_decide (s = text_of "true") then Some true
               else if bool_decide (s = text_of "false") then Some false else None).

(** Enough of the response: 512 characters. *)
Definition malformed (what : string) body : VenueError :=
  let shown := mjoin (take 512 (chars body)) in
  Malformed what (if (512 <? length (chars body))%nat then shown ++ [226; 128; 166] else shown).
Definition need {A} (field : text → text → run (option A)) body (key : string) : run (result A VenueError) :=
  r ← field body (text_of key); mret (match r with Some a => Ok a | None => Err (malformed key body) end).
Definition need_f64 := need field_f64.
Definition need_i64 := need field_i64.
Definition need_str := need field_str.
Definition need_bool := need field_bool.

(** * The responses of the code's tests *)

(** JSON with [']  for a quote. *)
Definition js (x : string) : text := (λ c, if c =? 39 then 34 else c) <$> text_of x.

Example scans_of_the_tests :
  raw_field (js "{'result':'error','error':'invalidArgument','serverTime':'x'}") (text_of "error") = Ret (Some (text_of "invalidArgument")) ∧
  raw_field (js "{'result':'error','error':'invalidArgument'}") (text_of "reason") = Ret None ∧
  object_field (js "{'status':'order','order':{'oid':1}}") (text_of "order") = Ret (Some (js "{'oid':1}")) ∧
  object_field (js "{'a':'order'}") (text_of "order") = Ret None ∧
  array_field (js "{'code':'0','data':[{'msg':'limit [1,2] exceeded'}],'x':1}") (text_of "data") = Ret (Some (js "{'msg':'limit [1,2] exceeded'}")) ∧
  raw_field (js "{'code':'0','data':[{'a':'1','b':'2'}]}") (text_of "data") = Ret (Some (js "[{'a':'1'")) ∧
  array_field (js "{'code':'0','data':[]}") (text_of "code") = Ret None ∧
  objects (js "[{'clientOrderId':'a{b}c','orderId':7},{'clientOrderId':'d','orderId':8}]") =
    [js "{'clientOrderId':'a{b}c','orderId':7}"; js "{'clientOrderId':'d','orderId':8}"] ∧
  objects (js "[{'clientOrderId':'a\'}b','orderId':9}]") = [js "{'clientOrderId':'a\'}b','orderId':9}"] ∧
  field_str (js "{'clientOrderId':'a\'b','orderId':9}") (text_of "clientOrderId") = Ret (Some (js "a'b")) ∧
  field_i64 (js "{'clientOrderId':'a\'b','orderId':9}") (text_of "orderId") = Ret (Some 9) ∧
  field_bool (js "{'maker':true,'buyer':false}") (text_of "buyer") = Ret (Some false) ∧
  need_i64 (js "{'a':'1.0'}") "total" = Ret (Err (Malformed "total" (js "{'a':'1.0'}"))) ∧
  field_str (js "{'symbol':'BTCUSD") (text_of "symbol") = Ret None ∧
  object_containing (js "{'symbols':[{'symbol':'A','tick':1},{'symbol':'B','tick':2}]}") (js "'symbol':'B'") = Ret (Some (js "{'symbol':'B','tick':2}")).
Proof. vm_compute. by split_and!. Qed.

(** A response cut so that the value of an array starts with its closing bracket
    stops the process: [depth -= 1] at zero. *)
Example array_field_panics : array_field (js "{'data':]}") (text_of "data") = Panic.
Proof. by vm_compute. Qed.

(** * The scans end *)

Lemma starts_with_iff s w : starts_with s w = true ↔ ∃ r, s = w ++ r.
Proof.
  unfold starts_with. rewrite bool_decide_eq_true. split.
  - intros E. exists (drop (length w) s). rewrite <-(take_drop (length w) s) at 1. by rewrite E.
  - intros [r ->]. apply take_app_length.
Qed.
Lemma find_text_bound needle s k : find_text needle s = Some k → (k + length needle ≤ length s)%nat ∧ starts_with (drop k s) needle = true.
Proof.
  revert k. induction s as [|c s IH]; intros k; cbn [find_text]; destruct (starts_with _ needle) eqn:E; try done.
  1, 2: intros [= <-]; rewrite drop_0; split; [|done]; apply starts_with_iff in E as [r E]; rewrite E, length_app; lia.
  intros (k' & Hk & ->)%fmap_Some. apply IH in Hk as [H1 H2]. simpl. split; [lia|done].
Qed.

(** [after_key] on what is left of the body. *)
Fixpoint key_in (fuel : nat) needle s : run (option text) :=
  match fuel with
  | O => OutOfFuel
  | S fuel =>
      match find_text needle s with
      | None => mret None
      | Some k =>
          match trim_start (drop (k + length needle) s) with
          | 58 :: rest => mret (Some (trim_start rest))
          | _ => key_in fuel needle (drop (k + length needle) s)
          end
      end
  end.
Lemma after_key_suffix fuel body needle from : after_key fuel body needle from = key_in fuel needle (drop from body).
Proof.
  revert from. induction fuel as [|fuel IH]; intros from; [done|]. cbn [after_key key_in].
  destruct (find_text _ _) as [k|]; [|done]. rewrite drop_drop.
  replace (from + (k + length needle))%nat with (k + from + length needle)%nat by lia. rewrite IH. done.
Qed.
Lemma key_in_returns fuel : ∀ needle s, (0 < length needle)%nat → (length s < fuel)%nat → ∃ r, key_in fuel needle s = Ret r.
Proof.
  induction fuel as [|fuel IH]; intros needle s Hn Hl; [lia|]. cbn [key_in].
  destruct (find_text needle s) as [k|] eqn:E; [|by eexists]. apply find_text_bound in E as [Hk _].
  assert (∃ r, key_in fuel needle (drop (k + length needle) s) = Ret r) as [r Hr] by (apply IH; [done|]; rewrite length_drop; lia).
  rewrite Hr. destruct (trim_start _) as [|c rest]; [by eexists|]. destruct c as [|p|]; try by eexists.
  do 6 (destruct p as [p|p|]; try by eexists).
Qed.
Lemma value_at_returns key body : ∃ r, value_at key body = Ret r.
Proof. unfold value_at. rewrite after_key_suffix, drop_0. apply key_in_returns; simpl; lia. Qed.
(** An object that starts with its brace is never left below it. *)
Lemma object_end_returns s : ∀ i depth in_string escaped, (0 < depth)%nat → ∃ r, object_end s i depth in_string escaped = Ret r.
Proof.
  induction s as [|c s IH]; intros i depth in_string escaped Hd; cbn [object_end]; [by eexists|].
  destruct escaped; [by apply IH|]. destruct (_ && _); [by apply IH|]. destruct (c =? 34); [by apply IH|].
  destruct (_ && _); [by apply IH; lia|]. destruct (_ && _); [|by apply IH].
  destruct depth as [|[|depth]]; [lia|by eexists|]. apply IH. lia.
Qed.
Lemma open_before_brace r depth k : open_before r depth = Some k → ∃ a b, r = a ++ 123 :: b ∧ length b = k.
Proof.
  revert depth. induction r as [|c r IH]; intros depth; [done|]. cbn [open_before].
  assert (∀ depth, open_before r depth = Some k → ∃ a b, c :: r = a ++ 123 :: b ∧ length b = k) as Hgo.
  { intros d H. destruct (IH d H) as (a & b & -> & <-). by exists (c :: a), b. }
  destruct (c =? 125); [apply Hgo|]. destruct (Z.eqb_spec c 123) as [->|]; [|apply Hgo].
  destruct depth; [|apply Hgo]. intros [= <-]. by exists [], r.
Qed.

(** * What a venue writes *)

(** A string, as a JSON writer has it. *)
Definition escape_char (c : Z) : text :=
  if (c =? 34) || (c =? 92) then [92; c] else if c =? 10 then [92; 110] else if c =? 13 then [92; 114]
  else if c =? 9 then [92; 116] else if c =? 8 then [92; 98] else if c =? 12 then [92; 102] else [c].
Fixpoint escape s : text := match s with [] => [] | c :: s => escape_char c ++ escape s end.
Definition str s : text := 34 :: escape s ++ [34].
(** A name: no quote, no escape, nothing that would be escaped. *)
Definition name_char (c : Z) : bool := is_digit c || ((65 <=? c) && (c <=? 90)) || ((97 <=? c) && (c <=? 122)) || (c =? 95).
Definition name key : bool := negb (bool_decide (key = [])) && forallb name_char key.

(** An object of string fields. *)
Definition field_text (f : text * text) : text := str f.1 ++ 58 :: str f.2.
Fixpoint fields_text (fs : list (text * text)) : text :=
  match fs with
  | [] => [125]
  | f :: fs => field_text f ++ match fs with [] => [125] | _ => 44 :: fields_text fs end
  end.
Definition object_text (fs : list (text * text)) : text := 123 :: fields_text fs.

(** The escapes: a plain character, or a pair. *)
Lemma escape_char_cases c : (escape_char c = [c] ∧ c ≠ 34 ∧ c ≠ 92) ∨ (∃ x, escape_char c = [92; x] ∧ unescaped x = [c]).
Proof.
  unfold escape_char. destruct (Z.eqb_spec c 34) as [->|]; [right; by exists 34|]. destruct (Z.eqb_spec c 92) as [->|]; [right; by exists 92|].
  cbn [orb]. destruct (Z.eqb_spec c 10) as [->|]; [right; by exists 110|]. destruct (Z.eqb_spec c 13) as [->|]; [right; by exists 114|].
  destruct (Z.eqb_spec c 9) as [->|]; [right; by exists 116|]. destruct (Z.eqb_spec c 8) as [->|]; [right; by exists 98|].
  destruct (Z.eqb_spec c 12) as [->|]; [right; by exists 102|]. by left.
Qed.
Lemma unescape_escape s t : unescape_until_quote (escape s ++ 34 :: t) = Some s.
Proof.
  induction s as [|c s IH]; [done|]. cbn [escape]. rewrite <-app_assoc.
  destruct (escape_char_cases c) as [(-> & H1 & H2)|(x & -> & Hx)]; cbn [app unescape_until_quote].
  - rewrite (proj2 (Z.eqb_neq _ _) H1), (proj2 (Z.eqb_neq _ _) H2), IH. done.
  - cbn [Z.eqb Pos.eqb]. by rewrite IH, Hx.
Qed.
Lemma name_char_plain c : name_char c = true → escape_char c = [c] ∧ c ≠ 34 ∧ c ≠ 92 ∧ c ≠ 44 ∧ c ≠ 58 ∧ c ≠ 125 ∧ c ≠ 123 ∧ c ≠ 91 ∧ c ≠ 93.
Proof.
  unfold name_char, is_digit, escape_char. intros H.
  assert (c ≠ 34 ∧ c ≠ 92 ∧ c ≠ 10 ∧ c ≠ 13 ∧ c ≠ 9 ∧ c ≠ 8 ∧ c ≠ 12) as (H1 & H2 & H3 & H4 & H5 & H6 & H7) by lia.
  rewrite (proj2 (Z.eqb_neq _ _) H1), (proj2 (Z.eqb_neq _ _) H2), (proj2 (Z.eqb_neq _ _) H3), (proj2 (Z.eqb_neq _ _) H4),
    (proj2 (Z.eqb_neq _ _) H5), (proj2 (Z.eqb_neq _ _) H6), (proj2 (Z.eqb_neq _ _) H7). split; [done|lia].
Qed.
Lemma escape_name key : forallb name_char key = true → escape key = key.
Proof.
  induction key as [|c key IH]; [done|]. cbn [forallb escape]. intros [Hc Hk]%andb_true_iff.
  destruct (name_char_plain c Hc) as [-> _]. by rewrite IH.
Qed.

(** * Reading a field back *)

Section reading.
Context (key : text).
Hypothesis Hname : name key = true.

Lemma name_cons : ∃ a k, key = a :: k ∧ name_char a = true ∧ forallb name_char k = true.
Proof.
  unfold name in Hname. apply andb_true_iff in Hname as [Hne Hk]. destruct key as [|a k]; [done|].
  cbn [forallb] in Hk. apply andb_true_iff in Hk as [? ?]. by exists a, k.
Qed.
Lemma name_chars : forallb name_char key = true.
Proof. unfold name in Hname. by apply andb_true_iff in Hname as [_ Hname]. Qed.

(** A whole escaped string is the only one that ends like the name. *)
Lemma escaped_prefix k v t : forallb name_char k = true →
  starts_with (escape v ++ 34 :: t) (k ++ [34]) = true → escape v = k.
Proof.
  rewrite starts_with_iff. intros Hk [r Hr]. revert v Hr. induction k as [|a k IH]; intros v Hr.
  - destruct v as [|c v]; [done|]. cbn [escape] in Hr. exfalso.
    destruct (escape_char_cases c) as [(E & H1 & H2)|(x & E & Hx)]; rewrite E in Hr; simpl in Hr; congruence.
  - cbn [forallb] in Hk. apply andb_true_iff in Hk as [Ha Hk]. destruct (name_char_plain a Ha) as (_ & Ha1 & Ha2 & _).
    destruct v as [|c v]; cbn [escape] in *; [simpl in Hr; congruence|].
    destruct (escape_char_cases c) as [(E & H1 & H2)|(x & E & Hx)]; rewrite E in *; simpl in Hr; [|congruence].
    injection Hr as <- Hr. simpl. f_equal. by apply IH.
Qed.
Lemma starts_quoted s : starts_with (34 :: s) (quoted key) = true ↔ starts_with s (key ++ [34]) = true.
Proof.
  rewrite !starts_with_iff. unfold quoted. split; intros [r Hr]; exists r; [injection Hr as Hr; by rewrite Hr|by rewrite Hr].
Qed.
Lemma starts_not_quote c s : c ≠ 34 → starts_with (c :: s) (quoted key) = false.
Proof. intros Hc. destruct (starts_with _ _) eqn:E; [|done]. apply starts_with_iff in E as [r E]. by injection E as ->. Qed.
Lemma starts_quote_punctuation c s : c = 44 ∨ c = 125 ∨ c = 58 → starts_with (34 :: c :: s) (quoted key) = false.
Proof.
  intros Hc. destruct (starts_with _ _) eqn:E; [|done]. apply starts_quoted, starts_with_iff in E as [r E].
  destruct name_cons as (a & k & -> & Ha & _). injection E as -> _. destruct (name_char_plain a Ha) as (_ & H). lia.
Qed.

(** With one turn for each byte, the scan of [s] ends in [r]. *)
Definition reads s (r : option text) : Prop := ∀ fuel, (length s < fuel)%nat → key_in fuel (quoted key) s = Ret r.

Lemma reads_skip c s r : starts_with (c :: s) (quoted key) = false → reads s r → reads (c :: s) r.
Proof.
  intros Hs Hr [|fuel] Hl; [lia|]. simpl in Hl. rewrite <-(Hr (S fuel)) by lia. cbn [key_in find_text]. rewrite Hs.
  destruct (find_text (quoted key) s) as [k|]; done.
Qed.
Lemma find_here s : starts_with s (quoted key) = true → find_text (quoted key) s = Some 0%nat.
Proof. intros E. destruct s; cbn [find_text]; by rewrite E. Qed.
Lemma reads_skip_match s c t r : drop (length (quoted key)) s = c :: t → starts_with s (quoted key) = true →
  c = 44 ∨ c = 125 → reads (c :: t) r → reads s r.
Proof.
  intros Hd Hs Hc Hr [|fuel] Hl; [lia|]. cbn [key_in]. rewrite (find_here s Hs), Nat.add_0_l, Hd.
  assert (trim_start (c :: t) = c :: t) as -> by (destruct Hc; subst c; done).
  assert (length (c :: t) < fuel)%nat as Hlt.
  { apply (f_equal length) in Hd. rewrite length_drop in Hd. simpl in Hd |- *. lia. }
  destruct Hc; subst c; by apply Hr.
Qed.

(** At a quote inside a value, and at the one that opens it. *)
Lemma reads_quote v c t r : c = 44 ∨ c = 125 →
  reads (c :: t) r → reads (escape v ++ 34 :: c :: t) r → reads (34 :: escape v ++ 34 :: c :: t) r.
Proof.
  intros Hc Ht Hv. destruct (starts_with (34 :: escape v ++ 34 :: c :: t) (quoted key)) eqn:E; [|by apply reads_skip].
  apply (reads_skip_match _ c t); [|done..]. apply starts_quoted, escaped_prefix in E; [|apply name_chars].
  rewrite E. unfold quoted. cbn [app length drop]. rewrite length_app, <-drop_drop, drop_app_length. done.
Qed.
Lemma reads_value v c t r : c = 44 ∨ c = 125 → reads (c :: t) r → reads (escape v ++ 34 :: c :: t) r.
Proof.
  intros Hc Ht. induction v as [|x v IH].
  - apply reads_skip; [|done]. apply starts_quote_punctuation. lia.
  - cbn [escape]. rewrite <-app_assoc. destruct (escape_char_cases x) as [(-> & H1 & H2)|(y & -> & Hy)]; cbn [app].
    + apply reads_skip; [by apply starts_not_quote|done].
    + apply reads_skip; [by apply starts_not_quote|]. destruct (decide (y = 34)) as [->|]; [by apply reads_quote|].
      apply reads_skip; [by apply starts_not_quote|done].
Qed.
Lemma reads_plain k s r : forallb name_char k = true → reads s r → reads (k ++ s) r.
Proof.
  intros Hk Hr. induction k as [|a k IH]; [done|]. cbn [forallb] in Hk. apply andb_true_iff in Hk as [Ha Hk].
  apply reads_skip; [|by apply IH]. apply starts_not_quote. by destruct (name_char_plain a Ha) as (_ & ? & _).
Qed.

Lemma reads_field f c t r : name f.1 = true → f.1 ≠ key → c = 44 ∨ c = 125 → reads (c :: t) r → reads (field_text f ++ c :: t) r.
Proof.
  intros Hf Hne Hc Ht. destruct f as [k v]. cbn [fst] in *. assert (forallb name_char k = true) as Hk by (unfold name in Hf; by apply andb_true_iff in Hf as [_ Hf]).
  unfold field_text, str. cbn [fst snd]. rewrite (escape_name k Hk). simpl. rewrite <-!app_assoc. simpl. rewrite <-!app_assoc. simpl.
  apply reads_skip.
  - destruct (starts_with _ _) eqn:E; [|done]. apply starts_quoted in E. rewrite <-(escape_name k Hk) in E at 1.
    apply escaped_prefix in E; [|apply name_chars]. by rewrite escape_name in E.
  - apply reads_plain; [done|]. apply reads_skip; [apply starts_quote_punctuation; lia|].
    apply reads_skip; [by apply starts_not_quote|]. apply reads_quote; [done..|]. by apply reads_value.
Qed.
Lemma reads_own v s : reads (field_text (key, v) ++ s) (Some (str v ++ s)).
Proof.
  intros [|fuel] Hl; [lia|]. unfold field_text. cbn [fst snd]. unfold str at 1. rewrite (escape_name key name_chars).
  assert (((34 :: key ++ [34]) ++ 58 :: str v) ++ s = quoted key ++ 58 :: str v ++ s) as E by (unfold quoted; cbn [app]; rewrite <-!app_assoc; done).
  rewrite E. cbn [key_in]. rewrite (find_here (quoted key ++ _)) by (apply starts_with_iff; eauto).
  rewrite Nat.add_0_l, drop_app_length. done.
Qed.

Lemma reads_fields fs : Forall (λ f, name f.1 = true) fs →
  ∃ s, reads (fields_text fs) ((λ f, str f.2 ++ s) <$> find (λ f, bool_decide (f.1 = key)) fs).
Proof.
  induction 1 as [|f fs Hf Hfs [s IH]].
  - exists []. intros [|fuel] Hl; [lia|]. cbn [key_in fields_text find_text]. rewrite starts_not_quote by done. done.
  - cbn [fields_text find]. set (rest := match fs with [] => [125] | _ => _ end). case_bool_decide as E.
    + exists rest. destruct f as [k v]. cbn [fst snd] in *. subst k. apply reads_own.
    + exists s. assert (∃ c t, rest = c :: t ∧ (c = 44 ∨ c = 125)) as (c & t & Hr & Hc) by (unfold rest; destruct fs; eauto 6).
      rewrite Hr. apply reads_field; [done..|]. rewrite <-Hr. unfold rest. destruct fs; [done|]. by apply reads_skip; [apply starts_not_quote|].
Qed.
End reading.

(** A field written is the field read: in an object of named string fields
    ([{"a":"..","b":".."}], the values any bytes at all, escaped as JSON does,
    quotes, backslashes, braces and the field names themselves included),
    [field_str] gives the value of the first field of that name exactly, and
    nothing when no field has it. *)
Theorem field_str_reads_back (fs : list (text * text)) key :
  Forall (λ f, name f.1 = true) fs → name key = true →
  field_str (object_text fs) key = Ret (snd <$> find (λ f, bool_decide (f.1 = key)) fs).
Proof.
  intros Hfs Hk. unfold field_str, raw_field, value_at. rewrite after_key_suffix, drop_0.
  destruct (reads_fields key Hk fs Hfs) as [s Hs].
  assert (reads key (object_text fs) ((λ f, str f.2 ++ s) <$> find (λ f, bool_decide (f.1 = key)) fs)) as Hr
    by (apply reads_skip; [by apply starts_not_quote|done]).
  rewrite Hr by lia. cbn [mbind run_bind mret run_ret]. f_equal. destruct (find _ fs) as [[k v]|]; [|done].
  cbn [fmap option_fmap option_map mbind option_bind snd]. unfold str. simpl. rewrite <-app_assoc. apply unescape_escape.
Qed.
Lemma field_str_reads_back_witness :
  Forall (λ f, name f.1 = true) [(text_of "status", text_of "order"); (text_of "order", js "a'}b\")] ∧
  field_str (object_text [(text_of "status", text_of "order"); (text_of "order", js "a'}b\")]) (text_of "order") = Ret (Some (js "a'}b\")).
Proof.
  assert (Forall (λ f, name f.1 = true) [(text_of "status", text_of "order"); (text_of "order", js "a'}b\")]) as H
    by (by apply (bool_decide_unpack _)).
  split; [exact H|]. exact (field_str_reads_back _ (text_of "order") H eq_refl).
Defined.

(** * Splitting an array *)

(** What a venue writes: strings, words (numbers, [true], [null]), arrays and
    objects, to any depth. *)
Inductive json :=
| JStr (s : text)
| JWord (w : text)
| JArr (l : list json)
| JObj (fs : list (text * json)).

Fixpoint commas (l : list text) : text :=
  match l with [] => [] | [x] => x | x :: l => x ++ 44 :: commas l end.
Fixpoint write (j : json) : text :=
  match j with
  | JStr s => str s
  | JWord w => w
  | JArr l => 91 :: commas (map write l) ++ [93]
  | JObj fs => 123 :: commas (map (λ f, str f.1 ++ 58 :: write f.2) fs) ++ [125]
  end.
Definition word_char (c : Z) : bool := negb ((c =? 34) || (c =? 123) || (c =? 125)).
Fixpoint words_plain (j : json) : bool :=
  match j with
  | JStr _ => true
  | JWord w => forallb word_char w
  | JArr l => forallb words_plain l
  | JObj fs => forallb (λ f, words_plain f.2) fs
  end.

Section json_ind.
Context (P : json → Prop).
Hypothesis Hstr : ∀ s, P (JStr s).
Hypothesis Hword : ∀ w, P (JWord w).
Hypothesis Harr : ∀ l, Forall P l → P (JArr l).
Hypothesis Hobj : ∀ fs, Forall (λ f, P f.2) fs → P (JObj fs).
Fixpoint json_induction (j : json) : P j :=
  match j with
  | JStr s => Hstr s
  | JWord w => Hword w
  | JArr l => Harr l ((fix go l : Forall P l :=
      match l with [] => Forall_nil_2 P | j :: l => Forall_cons_2 P j l (json_induction j) (go l) end) l)
  | JObj fs => Hobj fs ((fix go fs : Forall (λ f, P f.2) fs :=
      match fs with [] => Forall_nil_2 _ | f :: fs => Forall_cons_2 _ f fs (json_induction f.2) (go fs) end) fs)
  end.
End json_ind.

(** A text the split runs over inside an object without noticing. *)
Definition passes (x : text) : Prop := ∀ body t i depth start, (0 < depth)%nat →
  objects_loop body (x ++ t) i depth start false false = objects_loop body t (i + length x) depth start false false.

Lemma passes_nil : passes [].
Proof. intros body t i depth start _. by rewrite Nat.add_0_r. Qed.
Lemma passes_app x y : passes x → passes y → passes (x ++ y).
Proof. intros Hx Hy body t i depth start Hd. rewrite <-app_assoc, Hx, Hy by done. f_equal. rewrite length_app. lia. Qed.
Lemma word_step body c s i depth start :
  word_char c = true → objects_loop body (c :: s) i depth start false false = objects_loop body s (S i) depth start false false.
Proof.
  unfold word_char. intros Hc. cbn [objects_loop]. rewrite andb_false_r.
  destruct (c =? 34), (c =? 123), (c =? 125); done.
Qed.
Lemma passes_word w : forallb word_char w = true → passes w.
Proof.
  induction w as [|c w IH]; [intros; apply passes_nil|]. cbn [forallb]. intros [Hc Hw]%andb_true_iff.
  intros body t i depth start Hd. cbn [app]. rewrite word_step, IH by done. f_equal. simpl. lia.
Qed.
Lemma passes_cons c x : word_char c = true → passes x → passes (c :: x).
Proof. intros Hc Hx. apply (passes_app [c]); [apply passes_word; simpl; by rewrite Hc|done]. Qed.

(** Inside a string nothing counts. *)
Lemma string_body v : ∀ body t i depth start,
  objects_loop body (escape v ++ 34 :: t) i depth start true false = objects_loop body t (i + length (escape v) + 1) depth start false false.
Proof.
  induction v as [|c v IH]; intros body t i depth start; cbn [escape].
  { cbn [app objects_loop Z.eqb Pos.eqb andb negb length]. f_equal. lia. }
  rewrite <-app_assoc. destruct (escape_char_cases c) as [(-> & H1 & H2)|(x & -> & _)]; cbn [app objects_loop].
  - rewrite (proj2 (Z.eqb_neq _ _) H1), (proj2 (Z.eqb_neq _ _) H2), !andb_false_r. cbn [andb]. rewrite IH. f_equal. simpl. lia.
  - cbn [Z.eqb Pos.eqb andb negb]. rewrite IH. f_equal. simpl. lia.
Qed.
Lemma passes_str v : passes (str v).
Proof.
  intros body t i depth start Hd. unfold str. cbn [app objects_loop]. rewrite andb_false_r. cbn [Z.eqb Pos.eqb negb].
  rewrite <-app_assoc. cbn [app]. rewrite string_body. f_equal. simpl. rewrite length_app. simpl. lia.
Qed.
Lemma passes_object x : passes x → passes (123 :: x ++ [125]).
Proof.
  intros Hx body t i depth start Hd. cbn [app objects_loop Z.eqb Pos.eqb andb negb]. rewrite <-app_assoc, Hx by lia.
  cbn [app objects_loop Z.eqb Pos.eqb andb negb]. destruct depth as [|depth]; [lia|]. cbn [Nat.sub Nat.eqb].
  f_equal. rewrite length_cons, length_app. simpl. lia.
Qed.
Lemma passes_commas l : Forall passes l → passes (commas l).
Proof.
  induction 1 as [|x l Hx Hl IH]; [apply passes_nil|]. destruct l as [|y l]; [done|].
  change (commas (x :: y :: l)) with (x ++ 44 :: commas (y :: l)). apply passes_app, passes_cons; done.
Qed.
Lemma passes_fields fs : Forall (λ f, words_plain f.2 = true → passes (write f.2)) fs → forallb (λ f, words_plain f.2) fs = true →
  passes (commas (map (λ f, str f.1 ++ 58 :: write f.2) fs)).
Proof.
  intros IH Hp. rewrite forallb_forall in Hp. rewrite Forall_forall in IH. apply passes_commas, Forall_forall.
  intros x (f & <- & Hf)%list_elem_of_In%in_map_iff.
  apply passes_app; [apply passes_str|]. apply passes_cons; [done|]. apply IH; [by apply list_elem_of_In|by apply Hp].
Qed.
Lemma passes_write j : words_plain j = true → passes (write j).
Proof.
  induction j as [s|w|l IH|fs IH] using json_induction; cbn [words_plain write]; intros Hp.
  - apply passes_str.
  - by apply passes_word.
  - apply passes_cons; [done|]. apply passes_app; [|by apply passes_word]. apply passes_commas, Forall_forall.
    rewrite forallb_forall in Hp. rewrite Forall_forall in IH.
    intros x (j & <- & Hj)%list_elem_of_In%in_map_iff. apply IH; [by apply list_elem_of_In|by apply Hp].
  - apply passes_object. by apply passes_fields.
Qed.

(** One top-level object: it is found, as it is written. *)
Lemma object_found body pre fs t : forallb (λ f, words_plain f.2) fs = true → body = pre ++ write (JObj fs) ++ t →
  objects_loop body (write (JObj fs) ++ t) (length pre) 0 None false false =
  write (JObj fs) :: objects_loop body t (length pre + length (write (JObj fs))) 0 None false false.
Proof.
  intros Hp Hb. cbn [write]. set (x := commas _). assert (passes x) as Hx.
  { apply passes_fields; [|done]. apply Forall_forall. intros f _. apply passes_write. }
  cbn [app objects_loop Z.eqb Pos.eqb andb negb Nat.eqb]. rewrite <-app_assoc, Hx by lia.
  cbn [app objects_loop Z.eqb Pos.eqb andb negb Nat.sub Nat.eqb]. f_equal.
  - rewrite Hb. cbn [write]. fold x. rewrite drop_app_length. rewrite take_app_length'; [done|].
    rewrite length_cons, length_app. simpl. lia.
  - f_equal. rewrite length_cons, length_app. simpl. lia.
Qed.

(** An array is split into the objects it holds, each one whole: for objects
    nested to any depth, whose strings may hold braces, quotes, backslashes and
    commas, [objects] gives back the text of each, in order, and no other. *)
Theorem objects_splits_the_array (os : list (list (text * json))) :
  Forall (λ fs, forallb (λ f, words_plain f.2) fs = true) os →
  objects (write (JArr (JObj <$> os))) = (λ fs, write (JObj fs)) <$> os.
Proof.
  intros Hos. unfold objects. cbn [write]. rewrite word_step by done.
  assert (∀ body pre, body = pre ++ commas (map write (JObj <$> os)) ++ [93] →
    objects_loop body (commas (map write (JObj <$> os)) ++ [93]) (length pre) 0 None false false = (λ fs, write (JObj fs)) <$> os) as Hgo.
  { induction Hos as [|fs os Hfs Hos IH]; intros body pre Hb; [done|]. destruct os as [|fs' os].
    - cbn [fmap list_fmap map commas] in *. rewrite (object_found body pre fs [93] Hfs Hb). done.
    - change (commas (map write (JObj <$> fs :: fs' :: os))) with (write (JObj fs) ++ 44 :: commas (map write (JObj <$> fs' :: os))) in *.
      rewrite <-app_assoc in *. rewrite (object_found body pre fs _ Hfs Hb).
      change (?g <$> fs :: fs' :: os) with (g fs :: (g <$> fs' :: os)). f_equal. cbn [app]. rewrite word_step by done.
      replace (S (length pre + length (write (JObj fs)))) with (length ((pre ++ write (JObj fs)) ++ [44])) by (rewrite !length_app; simpl; lia).
      apply IH. rewrite Hb, <-!app_assoc. done. }
  by apply (Hgo _ [91]).
Qed.
Lemma objects_splits_the_array_witness :
  Forall (λ fs, forallb (λ f, words_plain f.2) fs = true)
    [[(text_of "id", JStr (js "a{b}'c")); (text_of "x", JObj [(text_of "y", JWord (text_of "-7.5"))])]; []] ∧
  objects (write (JArr (JObj <$> [[(text_of "id", JStr (js "a{b}'c")); (text_of "x", JObj [(text_of "y", JWord (text_of "-7.5"))])]; []]))) =
    [js "{'id':'a{b}\'c','x':{'y':-7.5}}"; js "{}"].
Proof.
  assert (Forall (λ fs, forallb (λ f, words_plain f.2) fs = true)
    [[(text_of "id", JStr (js "a{b}'c")); (text_of "x", JObj [(text_of "y", JWord (text_of "-7.5"))])]; []]) as H by (repeat constructor).
  split; [exact H|]. exact (objects_splits_the_array _ H).
Defined.
