(* ===== verification/Control.v ===== *)
(** The local control port ([oq-live/src/control.rs]): an operator's line of
    text, the answer written as one line of JSON, and the socket that lets no
    one else in.

    What the operating system answers - which connections were accepted, who is
    at the other end, what each read gives - is an input of a poll.  Setting up
    the listener and finding a user's uid are input and output and are not
    modelled; what a poll prints on the process's own terminal is not either. *)

From stdpp Require Import gmap strings.
From S2P Require Import Prelude Slices Text Decimal Json.
#[local] Open Scope Z_scope.

Implicit Types (s line reason origin : text).

(** * Commands *)

Inductive Command := Status | Orders | Metrics | Attribution | Halt (reason : text) | Shutdown (reason : text) | Resume (reason : text).
#[export] Instance Command_eq_dec : EqDecision Command.
Proof. solve_decision. Defined.
Module Command.
Definition mutates (c : Command) : bool := match c with Halt _ | Shutdown _ | Resume _ => true | _ => false end.
Definition name (c : Command) : text :=
  match c with
  | Status => text_of "status" | Orders => text_of "orders" | Metrics => text_of "metrics" | Attribution => text_of "attribution"
  | Halt _ => text_of "halt" | Shutdown _ => text_of "shutdown" | Resume _ => text_of "resume"
  end.
Definition reason (c : Command) : text := match c with Halt r | Shutdown r | Resume r => r | _ => [] end.
End Command.

Record Request := mkRequest { rq_id : Z; rq_command : Command; rq_origin : text }.
Definition MAX_REQUEST : nat := 4096.

(** [trim_end_matches(['\r', '\n'])]. *)
Fixpoint drop_newlines s : text := match s with c :: r => if (c =? 13) || (c =? 10) then drop_newlines r else s | [] => [] end.
Definition trim_newlines s : text := rev (drop_newlines (rev s)).
(** [splitn(3, '\t')], each field trimmed, an absent one empty. *)
Definition fields_of line : text * text * text :=
  match split_once 9 line with
  | None => (trim line, [], [])
  | Some (a, rest) =>
      match split_once 9 rest with
      | None => (trim a, trim rest, [])
      | Some (b, c) => (trim a, trim b, trim c)
      end
  end.

Section control.
(** How a text prints with [{:?}]. *)
Context (debug : text → text).

Definition parse line : result (Command * text) text :=
  let '(name, origin, reason) := fields_of (trim_newlines line) in
  let needs_reason (make : text → Command) :=
    if bool_decide (reason = []) then Err (name ++ text_of " needs a reason") else Ok (make reason, origin) in
  if bool_decide (name = text_of "status") then Ok (Status, origin)
  else if bool_decide (name = text_of "orders") then Ok (Orders, origin)
  else if bool_decide (name = text_of "metrics") then Ok (Metrics, origin)
  else if bool_decide (name = text_of "attribution") then Ok (Attribution, origin)
  else if bool_decide (name = text_of "halt") then needs_reason Halt
  else if bool_decide (name = text_of "shutdown") then needs_reason Shutdown
  else if bool_decide (name = text_of "resume") then needs_reason Resume
  else Err (text_of "unknown command " ++ debug name).

(** * The JSON writer *)

(** Two hexadecimal digits, as [{:04x}] prints a number below 256. *)
Definition hex_digit (n : Z) : Z := if n <? 10 then 48 + n else 87 + n.
Definition escaped (c : Z) : text :=
  if c =? 34 then [92; 34] else if c =? 92 then [92; 92] else if c =? 10 then [92; 110] else if c =? 13 then [92; 114]
  else if c =? 9 then [92; 116] else if c <? 32 then [92; 117; 48; 48; hex_digit (c / 16); hex_digit (c mod 16)] else [c].
Fixpoint escape_body s : text := match s with [] => [] | c :: s => escaped c ++ escape_body s end.
Definition escape s : text := 34 :: escape_body s ++ [34].

(** The text so far, and for each open container, innermost first, whether it
    has a member. *)
Record JsonOut := mkJson { out : text; comma : list bool }.
Definition new : JsonOut := mkJson [] [].
Implicit Types (j : JsonOut).
Definition push j (x : text) : JsonOut := mkJson (out j ++ x) (comma j).
Definition set_last j (b : bool) : JsonOut := match comma j with _ :: r => mkJson (out j) (b :: r) | [] => j end.
Definition separate j : JsonOut :=
  match comma j with has :: r => mkJson (out j ++ (if has : bool then [44] else [])) (true :: r) | [] => j end.
Definition key (k : text) j : JsonOut := set_last (push (push (separate j) (escape k)) [58]) false.
Definition after_value j : JsonOut := set_last j true.
Definition opened (c : Z) j : JsonOut := let j := separate j in mkJson (out j ++ [c]) (false :: comma j).
Definition closed (c : Z) j : JsonOut := after_value (mkJson (out j ++ [c]) (tail (comma j))).
Definition begin_object := opened 123.
Definition end_object := closed 125.
Definition begin_array := opened 91.
Definition end_array := closed 93.
Definition field (k : text) j : JsonOut := key k j.
Definition str (k v : text) j : JsonOut := after_value (push (key k j) (escape v)).
Definition null (k : text) j : JsonOut := after_value (push (key k j) (text_of "null")).
Definition opt_str (k : text) (v : option text) j : JsonOut := match v with Some v => str k v j | None => null k j end.
Definition int (k : text) (v : Z) j : JsonOut := after_value (push (key k j) (shown v)).
Definition uint (k : text) (v : Z) j : JsonOut := after_value (push (key k j) (shown v)).
Definition bool_ (k : text) (v : bool) j : JsonOut := after_value (push (key k j) (text_of (if v then "true" else "false"))).
Definition item_str (v : text) j : JsonOut := push (separate j) (escape v).
Definition finish j : text := out j.

Definition refusal (why : text) : text :=
  finish (end_object (str (text_of "error") why (bool_ (text_of "ok") false (begin_object new)))).

(** * A script of requests, for a simulation *)

Record Scripted := mkScripted { sc_pending : list (Z * text); sc_next : Z; sc_answers : list (text * text); sc_asked : gmap Z text }.
Definition Scripted_new (script : list (Z * text)) : Scripted := mkScripted script 0 [] ∅.
(** [poll] at [now]; the ids are [u64]s. *)
Fixpoint scripted_loop (pending : list (Z * text)) (now : Z) (c : Scripted) (got : list Request) : run (list Request * Scripted) :=
  match pending with
  | (at_, line) :: rest =>
      if at_ <=? now then
        n ← chku64 (sc_next c + 1);
        match parse line with
        | Ok (command, origin) =>
            scripted_loop rest now (mkScripted rest n (sc_answers c) (<[n := line]> (sc_asked c)))
              (got ++ [mkRequest n command (origin ++ text_of " (scripted)")])
        | Err why => scripted_loop rest now (mkScripted rest n (sc_answers c ++ [(line, refusal why)]) (sc_asked c)) got
        end
      else mret (got, c)
  | [] => mret (got, c)
  end.
Definition scripted_poll (now : Z) (c : Scripted) : run (list Request * Scripted) := scripted_loop (sc_pending c) now c [].
Definition scripted_answer (n : Z) (reply : text) (c : Scripted) : Scripted :=
  mkScripted (sc_pending c) (sc_next c) (sc_answers c ++ [(default [] (sc_asked c !! n), reply)]) (delete n (sc_asked c)).

(** * The socket *)

Definition PER_POLL : nat := 8.
Definition IDLE : Z := 10 * 1000000000.

Record Pending := mkPending { p_stream : nat; p_buf : list Z; p_since : Z; p_uid : Z }.
Record Socket := mkSocket { allowed : list Z; reading : list Pending; waiting : gmap Z nat; next_id : Z }.
Definition bind (allowed : list Z) : Socket := mkSocket allowed [] ∅ 0.

(** What an [accept] gives: a stream, its peer's uid when it could be read, and
    whether it could be made non-blocking. *)
Inductive Accept := AConn (stream : nat) (uid : option Z) (nonblocking : bool) | AWouldBlock | AFailed.
Inductive ReadResult := RBytes (bs : list Z) | RClosed | RWouldBlock | RFailed.

(** The accept loop: what is written to the peers refused, and who is read from. *)
Fixpoint accept_loop (turns : nat) (accepts : list Accept) (now : Z) (k : Socket) : list (nat * text) * list Pending :=
  match turns, accepts with
  | S turns, AConn stream uid nonblocking :: accepts =>
      let '(w, ps) := accept_loop turns accepts now k in
      match uid with
      | None => (w, ps)
      | Some uid =>
          if negb (bool_decide (uid ∈ allowed k)) then ((stream, refusal (text_of "this uid may not use the port") ++ [10]) :: w, ps)
          else if nonblocking then (w, mkPending stream [] now uid :: ps) else (w, ps)
      end
  | _, _ => ([], [])
  end.
(** The read loop of one connection: the buffer, and whether the peer closed. *)
Fixpoint read_loop (reads : list ReadResult) (buf : list Z) : list Z * bool :=
  match reads with
  | RBytes bs :: reads =>
      let buf := buf ++ bs in
      if (MAX_REQUEST <? length buf)%nat || bool_decide (10 ∈ buf) then (buf, false) else read_loop reads buf
  | RClosed :: _ | RFailed :: _ => (buf, true)
  | RWouldBlock :: _ | [] => (buf, false)
  end.
(** [String::from_utf8_lossy]: each maximal part of an ill-formed sequence is a
    replacement character. *)
Definition REPLACEMENT : text := [239; 191; 189].
Fixpoint lossy (bs : list Z) : text :=
  match bs with
  | [] => []
  | a :: r0 =>
      if within_ 0 127 a then a :: lossy r0
      else if within_ 194 223 a then
        match r0 with
        | b :: r1 => if tail_byte b then a :: b :: lossy r1 else REPLACEMENT ++ lossy r0
        | [] => REPLACEMENT
        end
      else if within_ 224 239 a then
        match r0 with
        | b :: r1 =>
            if within_ (if a =? 224 then 160 else 128) (if a =? 237 then 159 else 191) b then
              match r1 with
              | c :: r2 => if tail_byte c then a :: b :: c :: lossy r2 else REPLACEMENT ++ lossy r1
              | [] => REPLACEMENT
              end
            else REPLACEMENT ++ lossy r0
        | [] => REPLACEMENT
        end
      else if within_ 240 244 a then
        match r0 with
        | b :: r1 =>
            if within_ (if a =? 240 then 144 else 128) (if a =? 244 then 143 else 191) b then
              match r1 with
              | c :: r2 =>
                  if tail_byte c then
                    match r2 with
                    | d :: r3 => if tail_byte d then a :: b :: c :: d :: lossy r3 else REPLACEMENT ++ lossy r2
                    | [] => REPLACEMENT
                    end
                  else REPLACEMENT ++ lossy r1
              | [] => REPLACEMENT
              end
            else REPLACEMENT ++ lossy r0
        | [] => REPLACEMENT
        end
      else REPLACEMENT ++ lossy r0
  end.
(** The part before the first newline. *)
Definition first_line s : text := match split_once 10 s with Some (a, _) => a | None => s end.

(** [trim_end]. *)
Definition trim_end s : text := trim_end_loop (length s) s.

(** What one poll does with one connection. *)
Inductive Handled := Kept (p : Pending) | Dropped | Told (what : text) | Asked (command : Command) (origin : text).
Definition handle (now : Z) (p : Pending) (reads : list ReadResult) : Handled :=
  let '(buf, gone) := read_loop reads (p_buf p) in
  if (MAX_REQUEST <? length buf)%nat then Told (refusal (text_of "request too long") ++ [10])
  else if negb (bool_decide (10 ∈ buf) || (gone && negb (bool_decide (buf = [])))) then
    if negb gone && (now - p_since p <? IDLE) then Kept (mkPending (p_stream p) buf (p_since p) (p_uid p)) else Dropped
  else
    match parse (first_line (lossy buf)) with
    | Ok (command, origin) => Asked command (trim_end (text_of "uid " ++ shown (p_uid p) ++ [32] ++ origin))
    | Err why => Told (refusal why ++ [10])
    end.
Fixpoint read_all (now : Z) (reads : nat → list ReadResult) (ps : list Pending) (k : Socket)
    : run (list Request * list Pending * list (nat * text) * Socket) :=
  match ps with
  | [] => mret ([], [], [], k)
  | p :: ps =>
      match handle now p (reads (p_stream p)) with
      | Kept p => '(rqs, keep, w, k) ← read_all now reads ps k; mret (rqs, p :: keep, w, k)
      | Dropped => read_all now reads ps k
      | Told what => '(rqs, keep, w, k) ← read_all now reads ps k; mret (rqs, keep, (p_stream p, what) :: w, k)
      | Asked command origin =>
          n ← chku64 (next_id k + 1);
          '(rqs, keep, w, k) ← read_all now reads ps (mkSocket (allowed k) (reading k) (<[n := p_stream p]> (waiting k)) n);
          mret (mkRequest n command origin :: rqs, keep, w, k)
      end
  end.
Definition poll (now : Z) (accepts : list Accept) (reads : nat → list ReadResult) (k : Socket)
    : run (list Request * list (nat * text) * Socket) :=
  let '(refused, arrived) := accept_loop PER_POLL accepts now k in
  '(rqs, keep, w, k) ← read_all now reads (reading k ++ arrived) k;
  mret (rqs, refused ++ w, mkSocket (allowed k) keep (waiting k) (next_id k)).
Definition answer (n : Z) (reply : text) (k : Socket) : list (nat * text) * Socket :=
  match waiting k !! n with
  | Some stream => ([(stream, reply ++ [10])], mkSocket (allowed k) (reading k) (delete n (waiting k)) (next_id k))
  | None => ([], k)
  end.
End control.

(** * The port over a run *)

Section port.
Context (debug : text → text).

Inductive PortOp := OpPoll (now : Z) (accepts : list Accept) (reads : nat → list ReadResult) | OpAnswer (n : Z) (reply : text).
(** What happened: a request given to the loop, with the stream it waits on, or
    a reply written. *)
Inductive PortEvent := Delivered (rq : Request) (stream : option nat) | Answered (n : Z) (stream : nat) (what : text).
Definition step (op : PortOp) (k : Socket) : run (list PortEvent * Socket) :=
  match op with
  | OpPoll now accepts reads =>
      r ← poll debug now accepts reads k;
      mret (map (λ rq, Delivered rq (waiting r.2 !! rq_id rq)) r.1.1, r.2)
  | OpAnswer n reply => let '(w, k') := answer n reply k in mret (map (λ p : nat * text, Answered n p.1 p.2) w, k')
  end.
Fixpoint steps (ops : list PortOp) (k : Socket) : run (list PortEvent * Socket) :=
  match ops with
  | [] => mret ([], k)
  | op :: ops => '(e, k) ← step op k; '(es, k) ← steps ops k; mret (e ++ es, k)
  end.

(** The connections a run sees: stream and uid. *)
Definition connection (a : Accept) : list (nat * Z) := match a with AConn st (Some uid) true => [(st, uid)] | _ => [] end.
Definition connections (op : PortOp) : list (nat * Z) := match op with OpPoll _ accepts _ => flat_map connection accepts | _ => [] end.
Definition says_uid (origin : text) (uid : Z) : Prop := ∃ rest, origin = trim_end (text_of "uid " ++ shown uid ++ [32] ++ rest).

(** What a port promises: a request comes from a connection whose uid is
    allowed and says so, under a number no request before it had, and each
    connection makes one; a reply goes to the connection that made the request,
    once. *)
Fixpoint orderly (al : list Z) (cs : list (nat * Z)) (last : Z) (used : list nat) (open : list (Z * nat)) (es : list PortEvent) : Prop :=
  match es with
  | [] => True
  | Delivered rq st :: es =>
      ∃ (s : nat) (uid : Z), st = Some s ∧ (s, uid) ∈ cs ∧ uid ∈ al ∧ says_uid (rq_origin rq) uid ∧ last < rq_id rq ∧ s ∉ used ∧
        orderly al cs (rq_id rq) (s :: used) ((rq_id rq, s) :: open) es
  | Answered n s what :: es => (n, s) ∈ open ∧ orderly al cs last used (List.filter (λ x, negb (x.1 =? n)) open) es
  end.

Record port_ok (al : list Z) (cs : list (nat * Z)) (seen used : list nat) (open : list (Z * nat)) (k : Socket) : Prop := {
  po_allowed : allowed k = al;
  po_reading : Forall (λ p, p_uid p ∈ al ∧ (p_stream p, p_uid p) ∈ cs) (reading k);
  po_streams : NoDup ((p_stream <$> reading k) ++ used);
  po_seen : (p_stream <$> reading k) ++ used ⊆ seen;
  po_waiting : ∀ n st, waiting k !! n = Some st ↔ (n, st) ∈ open;
  po_ids : Forall (λ x, x.1 ≤ next_id k) open;
}.

Lemma accept_loop_connections turns : ∀ accepts now k w ps, accept_loop turns accepts now k = (w, ps) →
  Forall (λ p, p_uid p ∈ allowed k) ps ∧ ((λ p, (p_stream p, p_uid p)) <$> ps) `sublist_of` flat_map connection accepts.
Proof.
  induction turns as [|turns IH]; intros accepts now k w ps H; cbn [accept_loop] in H.
  { injection H as <- <-. split; [constructor|apply sublist_nil_l]. }
  destruct accepts as [|[st uid nb| |] accepts]; try (injection H as <- <-; split; [constructor|apply sublist_nil_l]).
  destruct (accept_loop turns accepts now k) as [w' ps'] eqn:E. apply IH in E as [Ha Hs]. cbn [flat_map connection].
  destruct uid as [uid|]; [|injection H as <- <-; done]. case_bool_decide as Hu; cbn [negb] in H.
  - destruct nb; injection H as <- <-; [|done]. split; [by constructor|]. cbn [fmap list_fmap p_stream p_uid app]. by apply sublist_skip.
  - injection H as <- <-. split; [done|]. destruct nb; [|done]. by apply sublist_cons.
Qed.

(** What one pass over the connections does. *)
Record read_done (ps : list Pending) (k : Socket) (rqs : list Request) (keep : list Pending) (k' : Socket) (new : list (Z * nat)) : Prop := {
  rd_ids : new.*1 = rq_id <$> rqs;
  rd_fresh : Forall (λ x, next_id k < x.1 ≤ next_id k') new;
  rd_sorted : StronglySorted Z.lt new.*1;
  rd_next : next_id k ≤ next_id k';
  rd_waiting : ∀ n st, waiting k' !! n = Some st ↔ (n, st) ∈ new ∨ (waiting k !! n = Some st ∧ n ∉ new.*1);
  rd_streams : ∃ gone, Permutation (p_stream <$> ps) ((p_stream <$> keep) ++ new.*2 ++ gone);
  rd_keep : Forall (λ p, ∃ p0, p0 ∈ ps ∧ p_stream p = p_stream p0 ∧ p_uid p = p_uid p0) keep;
  rd_who : Forall2 (λ rq x, ∃ p, p ∈ ps ∧ p_stream p = x.2 ∧ says_uid (rq_origin rq) (p_uid p)) rqs new;
  rd_same : allowed k' = allowed k;
}.
Lemma handle_kept now p reads p' : handle debug now p reads = Kept p' → p_stream p' = p_stream p ∧ p_uid p' = p_uid p.
Proof.
  unfold handle. destruct (read_loop reads (p_buf p)) as [buf gone]. repeat case_match; try done. by intros [= <-].
Qed.
Lemma handle_asked now p reads c o : handle debug now p reads = Asked c o → says_uid o (p_uid p).
Proof.
  unfold handle. destruct (read_loop reads (p_buf p)) as [buf gone]. repeat case_match; try done. intros [= <- <-]. by eexists.
Qed.
Lemma read_all_done now reads ps : ∀ k rqs keep w k', read_all debug now reads ps k = Ret (rqs, keep, w, k') → ∃ new, read_done ps k rqs keep k' new.
Proof.
  induction ps as [|p ps IH]; intros k rqs keep w k' H; cbn [read_all] in H.
  { injection H as <- <- <- <-. exists []. split; first [done|apply Forall_nil_2|apply SSorted_nil|apply Forall2_nil_2|lia|idtac]; [|by exists []].
    intros n st. cbn [fmap list_fmap]. rewrite elem_of_nil. split; [intros H; right; split; [done|apply not_elem_of_nil]|by intros [[]|[? _]]]. }
  assert (∀ keep0 (rqs : list Request) (new : list (Z * nat)), Forall (λ q, ∃ p0, p0 ∈ ps ∧ p_stream q = p_stream p0 ∧ p_uid q = p_uid p0) keep0 →
    Forall (λ q, ∃ p0, p0 ∈ p :: ps ∧ p_stream q = p_stream p0 ∧ p_uid q = p_uid p0) keep0 ∧
    (Forall2 (λ rq x, ∃ q, q ∈ ps ∧ p_stream q = x.2 ∧ says_uid (rq_origin rq) (p_uid q)) rqs new →
     Forall2 (λ rq x, ∃ q, q ∈ p :: ps ∧ p_stream q = x.2 ∧ says_uid (rq_origin rq) (p_uid q)) rqs new)) as Hw.
  { intros keep0 rqs0 new Hk. split.
    - eapply Forall_impl; [exact Hk|]. intros q (p0 & ? & ? & ?). exists p0. split; [by right|done].
    - intros Hf. eapply Forall2_impl; [exact Hf|]. intros rq x (q & ? & ? & ?). exists q. split; [by right|done]. }
  destruct (handle debug now p (reads (p_stream p))) as [p'| |what|command origin] eqn:Eh.
  - apply bind_ret in H as ([[[rqs' keep'] w'] k1] & H & [= <- <- <- <-]). apply IH in H as [new [? ? ? ? ? [gone Hg] Hk Hwho ?]]. exists new.
    destruct (Hw keep' rqs' new Hk) as [Hk' Hwho']. apply handle_kept in Eh as [Es Eu]. split; try done.
    + exists gone. cbn [fmap list_fmap]. rewrite Es, Hg. done.
    + constructor; [|done]. exists p. split; [by left|done].
    + by apply Hwho'.
  - apply IH in H as [new [? ? ? ? ? [gone Hg] Hk Hwho ?]]. exists new. destruct (Hw keep rqs new Hk) as [Hk' Hwho']. split; try done; [|by apply Hwho'].
    exists (p_stream p :: gone). cbn [fmap list_fmap]. rewrite Hg, !app_assoc. apply Permutation_middle.
  - apply bind_ret in H as ([[[rqs' keep'] w'] k1] & H & [= <- <- <- <-]). apply IH in H as [new [? ? ? ? ? [gone Hg] Hk Hwho ?]]. exists new.
    destruct (Hw keep' rqs' new Hk) as [Hk' Hwho']. split; try done; [|by apply Hwho'].
    exists (p_stream p :: gone). cbn [fmap list_fmap]. rewrite Hg, !app_assoc. apply Permutation_middle.
  - apply bind_ret in H as (n & [-> Hn]%chk_inv & H). apply bind_ret in H as ([[[rqs' keep'] w'] k1] & H & [= <- <- <- <-]).
    apply IH in H as [new [Hids Hfr Hnd Hnx Hwt [gone Hg] Hk Hwho Hal]]. cbn [next_id waiting allowed] in *.
    exists ((next_id k + 1, p_stream p) :: new).
    assert (next_id k + 1 ∉ new.*1) as Hnew.
    { intros (x & Hx & Hin)%list_elem_of_fmap. rewrite Forall_forall in Hfr. specialize (Hfr _ Hin). lia. }
    split.
    + cbn [fmap list_fmap rq_id fst]. by rewrite Hids.
    + constructor; [cbn [fst]; lia|]. eapply Forall_impl; [exact Hfr|]. cbn. intros; lia.
    + cbn [fmap list_fmap fst]. constructor; [done|]. apply Forall_fmap. eapply Forall_impl; [exact Hfr|]. cbn. intros; lia.
    + lia.
    + intros m st. rewrite Hwt. cbn [fmap list_fmap fst]. rewrite !elem_of_cons.
      destruct (decide (m = next_id k + 1)) as [->|Hm].
      * rewrite lookup_insert_eq. split.
        -- intros [Hin|[[= <-] _]]; [|by left; left]. exfalso. apply Hnew. apply list_elem_of_fmap. by exists (next_id k + 1, st).
        -- intros [[[= <-]|Hin]|[_ Hno]]; [by right|by left|]. exfalso. apply Hno. by left.
      * rewrite lookup_insert_ne by done. split.
        -- intros [Hin|[Hin Hno]]; [by left; right|right]. split; [done|]. intros [?|?]; done.
        -- intros [[[= ? _]|Hin]|[Hin Hno]]; [done|by left|right]. split; [done|]. intros ?. apply Hno. by right.
    + exists gone. cbn [fmap list_fmap snd]. rewrite Hg. by rewrite Permutation_middle.
    + eapply Forall_impl; [exact Hk|]. intros q (p0 & ? & ? & ?). exists p0. split; [by right|done].
    + constructor.
      * exists p. split; [by left|]. split; [done|]. cbn [rq_origin]. by eapply handle_asked.
      * eapply Forall2_impl; [exact Hwho|]. intros rq x (q & ? & ? & ?). exists q. split; [by right|done].
    + done.
Qed.

Lemma orderly_delivered al cs es (W : gmap Z nat) (N : Z) (rqs : list Request) (new : list (Z * nat)) :
  Forall2 (λ rq x, ∃ uid, (x.2, uid) ∈ cs ∧ uid ∈ al ∧ says_uid (rq_origin rq) uid) rqs new → ∀ last used open,
  new.*1 = rq_id <$> rqs → (∀ x, x ∈ new → W !! x.1 = Some x.2) →
  StronglySorted Z.lt new.*1 → Forall (λ x, last < x.1 ≤ N) new → last ≤ N → NoDup (new.*2 ++ used) →
  (∀ last' used' open', last' ≤ N → Permutation used' (new.*2 ++ used) → Permutation open' (new ++ open) → orderly al cs last' used' open' es) →
  orderly al cs last used open (map (λ rq, Delivered rq (W !! rq_id rq)) rqs ++ es).
Proof.
  induction 1 as [|rq [i st] rqs new (uid & Hin & Hal & Hsays) Hr IH]; intros last used open Hids HW Hso Hlt HN Hnd Hes.
  { by apply Hes. }
  cbn [map app orderly fmap list_fmap fst snd] in *. injection Hids as Hi Hids. subst i. apply StronglySorted_inv in Hso as [Hso Hall].
  apply Forall_cons in Hlt as [[Hl HN'] Hlt]. apply NoDup_cons in Hnd as [Hst Hnd]. cbn [fst] in *.
  exists st, uid. split; [apply (HW (rq_id rq, st)); by left|]. split; [done|]. split; [done|]. split; [done|]. split; [done|].
  split; [intros Hu; apply Hst, elem_of_app; by right|].
  apply IH; try done.
  - intros x Hx. apply HW. by right.
  - apply Forall_forall. intros x Hx. rewrite Forall_forall in Hall. rewrite Forall_forall in Hlt. split; [|by apply Hlt].
    apply Hall. apply list_elem_of_fmap. by exists x.
  - rewrite <- Permutation_middle. by apply NoDup_cons.
  - intros last' used' open' Hl' Hu' Ho'. apply Hes; [done| |]; etrans; try done; symmetry; apply Permutation_middle.
Qed.

Lemma poll_port_ok al cs seen used open k now accepts reads rqs w k' :
  port_ok al cs seen used open k → poll debug now accepts reads k = Ret (rqs, w, k') →
  flat_map connection accepts ⊆ cs → NoDup (seen ++ (flat_map connection accepts).*1) →
  ∃ new, new.*1 = rq_id <$> rqs ∧ StronglySorted Z.lt new.*1 ∧ Forall (λ x, next_id k < x.1 ≤ next_id k') new ∧ next_id k ≤ next_id k' ∧
    NoDup (new.*2 ++ used) ∧ Forall2 (λ rq x, ∃ uid, (x.2, uid) ∈ cs ∧ uid ∈ al ∧ says_uid (rq_origin rq) uid) rqs new ∧
    ∀ used' open', Permutation used' (new.*2 ++ used) → Permutation open' (new ++ open) →
      port_ok al cs (seen ++ (flat_map connection accepts).*1) used' open' k'.
Proof.
  intros [Hal Hre Hst Hse Hwa Hid] H Hcs Hnd. unfold poll in H. destruct (accept_loop PER_POLL accepts now k) as [refused arrived] eqn:Ea.
  apply accept_loop_connections in Ea as [Hau Hsub]. apply bind_ret in H as ([[[rqs' keep] w'] k1] & H & [= <- <- <-]).
  apply read_all_done in H as (new & [Rids Rfr Rso Rnx Rwt [gone Rg] Rk Rwho Ral]). exists new. cbn [next_id].
  assert (∀ p, p ∈ reading k ++ arrived → p_uid p ∈ al ∧ (p_stream p, p_uid p) ∈ cs) as Hall.
  { intros p [Hp|Hp]%elem_of_app; [rewrite Forall_forall in Hre; by apply Hre|]. rewrite Forall_forall in Hau. split; [rewrite <- Hal; by apply Hau|].
    apply Hcs. eapply elem_of_sublist; [|exact Hsub]. apply list_elem_of_fmap. by exists p. }
  assert (p_stream <$> arrived `sublist_of` (flat_map connection accepts).*1) as Hsub1.
  { apply (fmap_sublist fst) in Hsub. by rewrite <- list_fmap_compose in Hsub. }
  assert (NoDup ((p_stream <$> keep) ++ new.*2 ++ used)) as Hnd'.
  { assert (NoDup ((p_stream <$> (reading k ++ arrived)) ++ used)) as HN.
    { rewrite fmap_app, <- app_assoc, (Permutation_app_comm (p_stream <$> arrived)), app_assoc. apply NoDup_app. split; [done|].
      apply NoDup_app in Hnd as (_ & Hd & Hn2). split; [|by eapply sublist_NoDup].
      intros x Hx Hx2. apply (Hd x); [by apply Hse|]. by eapply elem_of_sublist. }
    rewrite Rg in HN. eapply sublist_NoDup; [exact HN|]. rewrite <- !app_assoc. apply sublist_app; [done|]. apply sublist_app; [done|]. by apply sublist_inserts_l. }
  split; [done|]. split; [done|]. split; [done|]. split; [done|]. split.
  { apply NoDup_app in Hnd' as (_ & _ & ?). done. }
  split.
  { eapply Forall2_impl; [exact Rwho|]. intros rq x (p & Hp & <- & Hs). destruct (Hall p Hp) as [? ?]. by exists (p_uid p). }
  intros used' open' Hu Ho. split; cbn [allowed reading waiting next_id].
  - by rewrite Ral.
  - eapply Forall_impl; [exact Rk|]. intros p (p0 & Hp0 & -> & ->). by apply Hall.
  - by rewrite Hu.
  - intros x. rewrite Hu. intros Hx.
    assert (x ∈ (p_stream <$> (reading k ++ arrived)) ++ used) as Hx'.
    { rewrite Rg. apply elem_of_app in Hx as [Hx|Hx]; [|apply elem_of_app in Hx as [Hx|Hx]]; rewrite !elem_of_app; auto. }
    rewrite fmap_app, !elem_of_app in Hx'. rewrite elem_of_app. destruct Hx' as [[Hx'|Hx']|Hx'].
    + left. apply Hse, elem_of_app. by left.
    + right. by eapply elem_of_sublist.
    + left. apply Hse, elem_of_app. by right.
  - intros n st. rewrite Rwt, Ho, elem_of_app, Hwa. split; [intros [?|[? _]]; auto|]. intros [?|Hin]; [by left|]. right. split; [done|].
    intros (x & Hx & Hxin)%list_elem_of_fmap. rewrite Forall_forall in Hid. rewrite Forall_forall in Rfr. specialize (Hid _ Hin). specialize (Rfr _ Hxin). cbn in Hid. lia.
  - rewrite Ho. apply Forall_app. split; [eapply Forall_impl; [exact Rfr|]; intros; cbn in *; lia|]. eapply Forall_impl; [exact Hid|]. intros; cbn in *; lia.
Qed.

Lemma steps_orderly al cs : ∀ ops k es k' seen used open last, port_ok al cs seen used open k → last ≤ next_id k → steps ops k = Ret (es, k') →
  flat_map connections ops ⊆ cs → NoDup (seen ++ (flat_map connections ops).*1) → orderly al cs last used open es.
Proof.
  induction ops as [|op ops IH]; intros k es k' seen used open last Hok Hl H Hcs Hnd; cbn [steps] in H; [by injection H as <- _|].
  apply bind_ret in H as ([e k1] & Hs & H). apply bind_ret in H as ([es1 k2] & H & [= <- <-]). cbn [flat_map] in *.
  rewrite fmap_app, app_assoc in Hnd. destruct op as [now accepts reads|n reply]; cbn [step connections] in *.
  - apply bind_ret in Hs as ([[rqs w] k3] & Hp & [= <- <-]). cbn [fst snd].
    pose proof Hnd as (Hnd1 & _ & _)%NoDup_app.
    eapply poll_port_ok in Hp as (new & Hids & Hso & Hfr & Hnx & Hnd2 & Hwho & Hnew); [|done|by intros x Hx; apply Hcs, elem_of_app; left|done].
    apply orderly_delivered with (N := next_id k3) (new := new); try done.
    + intros [i st] Hx. apply (po_waiting _ _ _ _ _ _ (Hnew _ _ (reflexivity _) (reflexivity _))). apply elem_of_app. by left.
    + eapply Forall_impl; [exact Hfr|]. cbn. intros; lia.
    + lia.
    + intros last' used' open' Hl' Hu Ho. eapply IH; [| |exact H| |exact Hnd]; [by apply Hnew|done|]. intros x Hx. apply Hcs, elem_of_app. by right.
  - unfold answer in Hs. destruct Hok as [Hal Hre Hst Hse Hwa Hid]. destruct (waiting k !! n) as [st|] eqn:E; injection Hs as <- <-; cbn [map app orderly fst snd].
    + split; [by apply Hwa|]. eapply IH; [| |exact H| |exact Hnd]; [|done|by intros x Hx; apply Hcs, elem_of_app; right]. split; cbn [allowed reading waiting next_id]; try done.
      * by rewrite app_nil_r.
      * intros m s. rewrite list_elem_of_In, filter_In, <- list_elem_of_In. destruct (decide (m = n)) as [->|Hm].
        -- rewrite lookup_delete_eq. split; [done|]. cbn. intros [_ ?]. by rewrite Z.eqb_refl in *.
        -- rewrite lookup_delete_ne by done. rewrite Hwa. cbn. apply Z.eqb_neq in Hm. rewrite Hm. naive_solver.
      * apply Forall_forall. intros x (Hx & _)%list_elem_of_In%filter_In. rewrite Forall_forall in Hid. by apply Hid, list_elem_of_In.
    + eapply IH; [| |exact H| |exact Hnd]; [|done|by intros x Hx; apply Hcs, elem_of_app; right]. by split; rewrite ?app_nil_r.
Qed.

(** C16. Over any sequence of polls and answers, from a port just bound: every
    request the loop is given came from a connection whose peer is one of the
    uids allowed, names that uid at the head of its origin, and has a number
    above every earlier one's; a connection makes one request; and a reply is
    written to the connection that made the request it answers, at most once. *)
Theorem the_port_is_orderly al ops es k' : NoDup (flat_map connections ops).*1 → steps ops (bind al) = Ret (es, k') →
  orderly al (flat_map connections ops) 0 [] [] es.
Proof.
  intros Hnd H. apply (steps_orderly al (flat_map connections ops) ops (bind al) es k' []); try done.
  split; cbn; try done; [constructor|]. intros n st. rewrite lookup_empty, elem_of_nil. done.
Qed.
End port.

(** What happened to two peers: one allowed, who asks and is answered; one not. *)
Definition demo_port : list PortOp :=
  [OpPoll 0 [AConn 1 (Some 501) true; AConn 2 (Some 502) true] (λ _, [RBytes (text_of "sta")]);
   OpPoll 5 [] (λ _, [RBytes (text_of "tus" ++ [9] ++ text_of "alice" ++ [10])]);
   OpAnswer 1 (text_of "{}"); OpAnswer 1 (text_of "{}")].
Lemma the_port_is_orderly_witness :
  fst <$> steps (λ s, s) demo_port (bind [501]) =
    Ret [Delivered (mkRequest 1 Status (text_of "uid 501 alice")) (Some 1%nat); Answered 1 1 (text_of "{}" ++ [10])] ∧
  orderly [501] [(1%nat, 501); (2%nat, 502)] 0 [] []
    [Delivered (mkRequest 1 Status (text_of "uid 501 alice")) (Some 1%nat); Answered 1 1 (text_of "{}" ++ [10])].
Proof.
  destruct (steps (λ s, s) demo_port (bind [501])) as [[es k']| |] eqn:E; [|discriminate E|discriminate E].
  pose proof (the_port_is_orderly (λ s, s) [501] demo_port es k' ltac:(by apply (bool_decide_unpack _)) E) as H.
  assert (es = [Delivered (mkRequest 1 Status (text_of "uid 501 alice")) (Some 1%nat); Answered 1 1 (text_of "{}" ++ [10])]) as Hes.
  { vm_compute in E. injection E as <- _. reflexivity. }
  subst es. split; [reflexivity|exact H].
Defined.

(** * The command line *)

(** A request as an operator's tool writes it. *)
Definition request_text (c : Command) origin : text := Command.name c ++ [9] ++ origin ++ [9] ++ Command.reason c ++ [10].
Definition one_line s : Prop := 10 ∉ s ∧ 13 ∉ s.

Lemma drop_newlines_id s : one_line s → drop_newlines s = s.
Proof.
  intros [H1 H2]. destruct s as [|c s]; [done|]. cbn [drop_newlines]. apply not_elem_of_cons in H1 as [H1 _]. apply not_elem_of_cons in H2 as [H2 _].
  destruct (Z.eqb_spec c 13); [congruence|]. destruct (Z.eqb_spec c 10); [congruence|]. done.
Qed.
Lemma trim_newlines_line s : one_line s → trim_newlines (s ++ [10]) = s.
Proof.
  intros [H1 H2]. unfold trim_newlines. rewrite rev_app_distr. cbn [rev app drop_newlines Z.eqb Pos.eqb orb].
  rewrite drop_newlines_id; [apply rev_involutive|]. split; by rewrite list_elem_of_In, <- in_rev, <- list_elem_of_In.
Qed.

(** A request written as [name TAB origin TAB reason] reads back as that
    command from that origin, the reason kept whole with any tabs it has; and a
    command that changes anything is refused without a reason. *)
Theorem parse_reads_the_request debug c origin : trim origin = origin → trim (Command.reason c) = Command.reason c →
  9 ∉ origin → one_line origin → one_line (Command.reason c) →
  parse debug (request_text c origin) =
    if Command.mutates c && bool_decide (Command.reason c = []) then Err (Command.name c ++ text_of " needs a reason") else Ok (c, origin).
Proof.
  intros Ht Hr H9 Ho Hre. unfold parse, request_text, one_line in *.
  assert (9 ∉ Command.name c) as Hn by (destruct c; by apply (bool_decide_unpack _)).
  assert (fields_of (trim_newlines (Command.name c ++ [9] ++ origin ++ [9] ++ Command.reason c ++ [10])) = (Command.name c, origin, Command.reason c)) as ->.
  { assert (one_line (Command.name c)) as [? ?] by (destruct c; split; by apply (bool_decide_unpack _)).
    replace (Command.name c ++ [9] ++ origin ++ [9] ++ Command.reason c ++ [10])
      with ((Command.name c ++ 9 :: origin ++ 9 :: Command.reason c) ++ [10]) by (by rewrite <- !app_assoc; cbn [app]; rewrite <- app_assoc).
    rewrite trim_newlines_line by (split; rewrite !elem_of_app, !elem_of_cons, elem_of_app, elem_of_cons; naive_solver lia).
    unfold fields_of. rewrite split_once_app by done. rewrite split_once_app by done. rewrite Ht, Hr. f_equal. f_equal. by destruct c. }
  destruct c as [| | | |r|r|r]; cbn [Command.name Command.mutates Command.reason andb]; repeat (rewrite bool_decide_false by done); try (rewrite (bool_decide_true (_ = text_of _)) by done); try done; by case_bool_decide.
Qed.
Lemma parse_reads_the_request_witness :
  parse (λ s, s) (request_text (Halt (text_of "limit" ++ [9] ++ text_of "breach")) (text_of "alice")) =
    Ok (Halt (text_of "limit" ++ [9] ++ text_of "breach"), text_of "alice") ∧
  parse (λ s, s) (request_text (Shutdown []) (text_of "alice")) = Err (text_of "shutdown needs a reason").
Proof.
  split.
  - refine (parse_reads_the_request (λ s, s) (Halt (text_of "limit" ++ [9] ++ text_of "breach")) (text_of "alice") eq_refl eq_refl _ _ _);
      [|split|split]; by apply (bool_decide_unpack _).
  - refine (parse_reads_the_request (λ s, s) (Shutdown []) (text_of "alice") eq_refl eq_refl _ _ _); [|split|split]; by apply (bool_decide_unpack _).
Defined.

(** * The writer, against what JSON is *)

(** A value as JSON has it; an array has no bare words, the writer has no call
    for one. *)
Fixpoint render (v : json) : text :=
  match v with
  | JStr s => escape s
  | JWord w => w
  | JArr l => 91 :: commas (map render l) ++ [93]
  | JObj fs => 123 :: commas (map (λ f, escape f.1 ++ 58 :: render f.2) fs) ++ [125]
  end.
Fixpoint writable (v : json) : bool :=
  match v with
  | JStr _ | JWord _ => true
  | JArr l => forallb (λ v, match v with JWord _ => false | _ => writable v end) l
  | JObj fs => forallb (λ f, writable f.2) fs
  end.
(** The calls that write it: a member under a key, or an item of an array. *)
Definition at_key (k : option text) j : JsonOut := match k with Some k => field k j | None => j end.
Fixpoint emit (v : json) (k : option text) j : JsonOut :=
  match v with
  | JStr s => match k with Some k => str k s j | None => item_str s j end
  | JWord w => match k with Some k => after_value (push (key k j) w) | None => j end
  | JArr l => end_array (fold_left (λ j v, emit v None j) l (begin_array (at_key k j)))
  | JObj fs => end_object (fold_left (λ j f, emit f.2 (Some f.1) j) fs (begin_object (at_key k j)))
  end.
Definition sep (b : bool) : text := if b then [44] else [].
Definition labelled (k : option text) : text := match k with Some k => escape k ++ [58] | None => [] end.
Definition at_place (v : json) (k : option text) : Prop := k = None → match v with JWord _ => False | _ => True end.

Ltac writes := cbn; unfold item_str, escape, push, sep; cbn; f_equal; repeat (progress rewrite <- ?app_assoc, ?app_nil_r; cbn [app]); reflexivity.

Lemma opened_at ch k o b c : opened ch (at_key k (mkJson o (b :: c))) = mkJson (o ++ sep b ++ labelled k ++ [ch]) (false :: true :: c).
Proof. destruct k as [k|]; unfold opened, separate; writes. Qed.
Lemma emit_all {A} (f : A → JsonOut → JsonOut) (r : A → text) l :
  Forall (λ a, ∀ o b c, f a (mkJson o (b :: c)) = mkJson (o ++ sep b ++ r a) (true :: c)) l →
  ∀ o b c, ∃ b', fold_left (λ j a, f a j) l (mkJson o (b :: c)) = mkJson (o ++ (if bool_decide (l = []) then [] else sep b) ++ commas (map r l)) (b' :: c).
Proof.
  induction 1 as [|a l Ha Hl IH]; intros o b c; cbn [fold_left].
  { exists b. by rewrite app_nil_r. }
  rewrite Ha. destruct (IH (o ++ sep b ++ r a) true c) as [b' ->]. exists b'. f_equal. rewrite (bool_decide_false (a :: l = [])) by done.
  destruct l as [|x l]; [cbn [map commas bool_decide decide list_eq_nil_dec]; by rewrite app_nil_r|]. rewrite (bool_decide_false (x :: l = [])) by done.
  change (commas (map r (a :: x :: l))) with (r a ++ 44 :: commas (map r (x :: l))). cbn [sep]. by rewrite <- !app_assoc.
Qed.
Lemma emit_writes v : writable v = true → ∀ k, at_place v k → ∀ o b c,
  emit v k (mkJson o (b :: c)) = mkJson (o ++ sep b ++ labelled k ++ render v) (true :: c).
Proof.
  induction v as [s|w|l IH|fs IH] using json_induction; intros Hw k Hk o b c.
  - destruct k as [k|]; writes.
  - destruct k as [k|]; [|by destruct (Hk eq_refl)]. writes.
  - cbn [emit writable] in *. unfold begin_array, begin_object. rewrite opened_at.
    destruct (emit_all (λ v, emit v None) render l) with (o := o ++ sep b ++ labelled k ++ [91]) (b := false) (c := true :: c) as [b' E].
    { rewrite forallb_forall in Hw. apply Forall_forall. intros v Hv o' b1 c'. rewrite Forall_forall in IH. specialize (IH v Hv). apply list_elem_of_In, Hw in Hv. rewrite IH; [done|by destruct v|by intros _; destruct v]. }
    cbn beta in E. rewrite E. cbn. f_equal. destruct (bool_decide _); by rewrite <- !app_assoc.
  - cbn [emit writable] in *. unfold begin_array, begin_object. rewrite opened_at.
    destruct (emit_all (λ f, emit f.2 (Some f.1)) (λ f, escape f.1 ++ 58 :: render f.2) fs) with (o := o ++ sep b ++ labelled k ++ [123]) (b := false) (c := true :: c) as [b' E].
    { rewrite forallb_forall in Hw. apply Forall_forall. intros v Hv o' b1 c'. rewrite Forall_forall in IH. specialize (IH v Hv). apply list_elem_of_In, Hw in Hv. rewrite IH; [|done|done]. f_equal. cbn [labelled]. by rewrite <- !app_assoc. }
    cbn beta in E. rewrite E. cbn. f_equal. destruct (bool_decide _); by rewrite <- !app_assoc.
Qed.

(** At the top, where no container is open yet. *)
Lemma emit_top fs : writable (JObj fs) = true → emit (JObj fs) None new = mkJson (render (JObj fs)) [].
Proof.
  intros Hw. cbn [emit]. pose proof (emit_writes (JObj fs) Hw None (λ _, I) [] false []) as H. cbn [emit at_key] in H.
  change (begin_object (mkJson [] [false])) with (mkJson [123] [false; true]) in H. change (begin_object (at_key None new)) with (mkJson [123] [false]).
  cbn [writable] in Hw. rewrite forallb_forall in Hw.
  destruct (emit_all (λ f, emit f.2 (Some f.1)) (λ f, escape f.1 ++ 58 :: render f.2) fs) with (o := [123]) (b := false) (c := @nil bool) as [b' E].
  { apply Forall_forall. intros f Hf o b c. rewrite emit_writes; [|by apply Hw, list_elem_of_In|done]. f_equal. cbn [labelled]. by rewrite <- !app_assoc. }
  cbn beta in E. rewrite E. cbn. by destruct (bool_decide _).
Qed.
(** Whatever object the writer's calls build, members and items to any
    depth, the text it finishes with is that object's JSON: a comma between
    members and nowhere else, every brace and bracket closed. *)
Theorem the_writer_writes_json fs : writable (JObj fs) = true → finish (emit (JObj fs) None new) = render (JObj fs).
Proof. intros Hw. by rewrite emit_top. Qed.
Lemma the_writer_writes_json_witness :
  finish (emit (JObj [(text_of "ok", JWord (text_of "true")); (text_of "legs", JArr [JObj [(text_of "net", JWord (shown (-5)))]; JStr [34]]); (text_of "why", JStr [])]) None new) =
  text_of "{" ++ escape (text_of "ok") ++ text_of ":true," ++ escape (text_of "legs") ++ text_of ":[{" ++ escape (text_of "net") ++ text_of ":-5}," ++ [34; 92; 34; 34] ++
    text_of "]," ++ escape (text_of "why") ++ text_of ":" ++ [34; 34] ++ text_of "}".
Proof.
  exact (the_writer_writes_json [(text_of "ok", JWord (text_of "true")); (text_of "legs", JArr [JObj [(text_of "net", JWord (shown (-5)))]; JStr [34]]); (text_of "why", JStr [])] eq_refl).
Defined.
(** The calls a value of each type has. *)
Lemma words_are_calls k v (b : bool) n j : int k n j = emit (JWord (shown n)) (Some k) j ∧ uint k n j = emit (JWord (shown n)) (Some k) j ∧
  bool_ k b j = emit (JWord (text_of (if b then "true" else "false"))) (Some k) j ∧ null k j = emit (JWord (text_of "null")) (Some k) j ∧
  str k v j = emit (JStr v) (Some k) j.
Proof. done. Qed.
Lemma refusal_is_json why : refusal why = render (JObj [(text_of "ok", JWord (text_of "false")); (text_of "error", JStr why)]).
Proof. unfold refusal. cbn. rewrite <- !app_assoc. reflexivity. Qed.

(** [PER_POLL] bounds the connections accepted in a poll, and not the requests
    one poll gives the loop: nine waiting connections are nine requests. *)
Definition nine : list PortOp :=
  let quiet (_ : nat) : list ReadResult := [] in
  [OpPoll 0 (map (λ n, AConn n (Some 501) true) (seq 0 8)) quiet; OpPoll 1 [AConn 8 (Some 501) true] quiet;
   OpPoll 2 [] (λ _, [RBytes (text_of "status" ++ [10])])].
Example a_poll_gives_more_than_PER_POLL : (length ∘ fst) <$> steps (λ s, s) nine (bind [501]) = Ret 9%nat.
Proof. reflexivity. Qed.
