(* ===== verification/Account.v ===== *)
(** An account as the venue reports it: the types of [oq-gateway/src/binance.rs],
    the sealed snapshot of [snapshot.rs], the position read of
    [position_read.rs]. *)

From stdpp Require Import strings sorting.
From Stdlib Require Import Floats.SpecFloat.
From S2P Require Import Prelude Text Floats.
#[local] Open Scope Z_scope.

Implicit Types (s symbol side : text).

Record AccountSnapshot := mkAccount {
  wallet_balance : spec_float; ac_unrealized : spec_float; margin_balance : spec_float; read_at_ms : Z;
}.
(** One leg, with the figures also as the venue wrote them. *)
Record PositionSnapshot := mkPosition {
  p_symbol : text; position_side : text; amount : spec_float; amount_text : text; entry_text : text;
  entry_price : spec_float; unrealized : spec_float;
}.
Record OpenOrder := mkOrder {
  o_symbol : text; order_id : text; client_order_id : text; o_side : text; o_position_side : text;
  o_price : spec_float; orig_qty : spec_float; executed_qty : spec_float; o_status : text;
}.

(** * The snapshot *)

Inductive Part := PAccount | PPositions | POpenOrders.
Definition part_name (p : Part) : text :=
  match p with PAccount => text_of "account" | PPositions => text_of "positions" | POpenOrders => text_of "open orders" end.

Record SnapshotBuilder := mkBuilder {
  b_account : option AccountSnapshot; b_positions : option (list PositionSnapshot); b_open_orders : option (list OpenOrder);
  b_symbol : text;
}.
Record Snapshot := mkSnapshot {
  s_symbol : text; s_account : AccountSnapshot; s_positions : list PositionSnapshot; s_open_orders : list OpenOrder;
}.

Module SnapshotBuilder.
Implicit Types b : SnapshotBuilder.
Definition new symbol : SnapshotBuilder := mkBuilder None None None symbol.
Definition account b a : SnapshotBuilder := mkBuilder (Some a) (b_positions b) (b_open_orders b) (b_symbol b).
Definition positions b p : SnapshotBuilder := mkBuilder (b_account b) (Some p) (b_open_orders b) (b_symbol b).
Definition open_orders b o : SnapshotBuilder := mkBuilder (b_account b) (b_positions b) (Some o) (b_symbol b).
Definition missing b : list Part :=
  (if b_account b then [] else [PAccount]) ++ (if b_positions b then [] else [PPositions]) ++
  (if b_open_orders b then [] else [POpenOrders]).
(** The [expect]s after the check. *)
Definition seal b : run (result Snapshot (list Part)) :=
  if negb (bool_decide (length (missing b) = 0%nat)) then mret (Err (missing b))
  else
    a ← expect (b_account b);
    p ← expect (b_positions b);
    o ← expect (b_open_orders b);
    mret (Ok (mkSnapshot (b_symbol b) a p o)).
End SnapshotBuilder.

Definition net_position (v : Snapshot) : spec_float := F64.sum (amount <$> s_positions v).
Definition leg (v : Snapshot) side : option PositionSnapshot := find (λ p, bool_decide (position_side p = side)) (s_positions v).
Definition snapshot_read_at (v : Snapshot) : Z := read_at_ms (s_account v).

(** * A position read that covers every leg *)

Record PositionObservation := mkObservation {
  ob_symbol : text; ob_hedged : bool; ob_positions : list PositionSnapshot; requested_ms : Z; received_ms : Z;
}.
Inductive PositionReadError := Scope_ | Mode | Coverage | InvalidValue | Clock | Stale | LocalChanged.
#[export] Instance PositionReadError_eq_dec : EqDecision PositionReadError.
Proof. solve_decision. Defined.
Definition position_read_error (e : PositionReadError) : text :=
  match e with
  | Scope_ => text_of "position read has foreign symbol scope"
  | Mode => text_of "position read mode differs from the local account mode"
  | Coverage => text_of "position read lacks exactly one explicit row for every expected leg"
  | InvalidValue => text_of "position read contains invalid size, entry or leg sign"
  | Clock => text_of "position read receipt window is invalid or in the future"
  | Stale => text_of "position read is stale at the comparison boundary"
  | LocalChanged => text_of "local executions changed during the position read; a new cut is required"
  end.

Definition LONG : text := text_of "LONG".
Definition SHORT : text := text_of "SHORT".
Definition BOTH : text := text_of "BOTH".

Definition parses_to s (x : spec_float) : bool := match F64.parse s with Some y => F64.eqb y x | None => false end.
Definition invalid_value (p : PositionSnapshot) : bool :=
  negb (F64.is_finite (amount p)) || negb (F64.is_finite (entry_price p)) || F64.ltb (entry_price p) F64.zero ||
  (bool_decide (position_side p = LONG) && F64.ltb (amount p) F64.zero) ||
  (bool_decide (position_side p = SHORT) && F64.ltb F64.zero (amount p)) ||
  negb (parses_to (amount_text p) (amount p)) || negb (parses_to (entry_text p) (entry_price p)).

(** [PositionObservation::check].  [evaluated_ms - requested_ms] is checked. *)
Definition check (ob : PositionObservation) symbol (hedged : bool) (evaluated_ms max_age_ms : Z) (before after : nat)
    : run (result () PositionReadError) :=
  if negb (bool_decide (ob_symbol ob = symbol)) || existsb (λ p, negb (bool_decide (p_symbol p = symbol))) (ob_positions ob)
  then mret (Err Scope_)
  else if negb (bool_decide (merge_sort text_le (position_side <$> ob_positions ob) = (if ob_hedged ob then [LONG; SHORT] else [BOTH])))
  then mret (Err Coverage)
  else if negb (Bool.eqb (ob_hedged ob) hedged) then mret (Err Mode)
  else if existsb invalid_value (ob_positions ob) then mret (Err InvalidValue)
  else if (requested_ms ob <? 0) || (received_ms ob <? requested_ms ob) || (evaluated_ms <? received_ms ob) || (max_age_ms <? 0)
  then mret (Err Clock)
  else
    age ← chk64 (evaluated_ms - requested_ms ob);
    mret (if max_age_ms <? age then Err Stale
          else if negb (Nat.eqb before after) then Err LocalChanged
          else Ok ()).

(** * Lemmas *)

(** A snapshot exists only when every read was supplied. *)
Lemma seal_returns b : returns (SnapshotBuilder.seal b) (λ r,
  match r with
  | Ok v => SnapshotBuilder.missing b = [] ∧ b_account b = Some (s_account v) ∧ b_positions b = Some (s_positions v) ∧
            b_open_orders b = Some (s_open_orders v) ∧ s_symbol v = b_symbol b
  | Err ps => ps = SnapshotBuilder.missing b ∧ ps ≠ []
  end).
Proof.
  unfold SnapshotBuilder.seal. case_bool_decide as E; cbn [negb].
  - destruct b as [[a|] [p|] [o|] y]; cbn in E; try lia. apply returns_Ret. by split_and!.
  - apply returns_Ret. split; [done|]. intros Hn. rewrite Hn in E. done.
Qed.
Lemma missing_nil b : SnapshotBuilder.missing b = [] ↔ is_Some (b_account b) ∧ is_Some (b_positions b) ∧ is_Some (b_open_orders b).
Proof.
  unfold SnapshotBuilder.missing, is_Some. destruct (b_account b), (b_positions b), (b_open_orders b); cbn; split; try done; naive_solver.
Qed.


(** The sides of a full read, in any order. *)
Lemma sides_sorted l w : merge_sort text_le l = w → Permutation l w.
Proof. intros <-. symmetry. apply merge_sort_Permutation. Qed.

(** What a row must be. *)
Definition valid_value (p : PositionSnapshot) : Prop :=
  F64.is_finite (amount p) = true ∧ F64.is_finite (entry_price p) = true ∧ F64.ltb (entry_price p) F64.zero = false ∧
  (position_side p = LONG → F64.ltb (amount p) F64.zero = false) ∧ (position_side p = SHORT → F64.ltb F64.zero (amount p) = false) ∧
  parses_to (amount_text p) (amount p) = true ∧ parses_to (entry_text p) (entry_price p) = true.
Lemma invalid_value_iff p : invalid_value p = false ↔ valid_value p.
Proof.
  unfold invalid_value, valid_value. rewrite !orb_false_iff, !negb_false_iff, !andb_false_iff, !bool_decide_eq_false.
  destruct (F64.ltb (amount p) F64.zero), (F64.ltb F64.zero (amount p)); naive_solver.
Qed.

(** A position read that passes the check is evidence about every leg: it
    names this contract only, has exactly one row per leg of the account's mode
    (so a flat leg is stated, not inferred), every figure is finite, of the
    leg's sign and equal to the digits the venue wrote, the read is no older
    than allowed, and no execution was booked meanwhile; and every read of which
    all that holds passes.  The check never panics on clock readings that are
    not negative. *)
Theorem checked_read_covers_every_leg ob symbol hedged evaluated_ms max_age_ms before after :
  i64 evaluated_ms → i64 (requested_ms ob) →
  ∃ r, check ob symbol hedged evaluated_ms max_age_ms before after = Ret r ∧
  (r = Ok () ↔
    ob_symbol ob = symbol ∧ Forall (λ p, p_symbol p = symbol) (ob_positions ob) ∧ ob_hedged ob = hedged ∧
    merge_sort text_le (position_side <$> ob_positions ob) = (if hedged then [LONG; SHORT] else [BOTH]) ∧
    Permutation (position_side <$> ob_positions ob) (if hedged then [LONG; SHORT] else [BOTH]) ∧
    Forall valid_value (ob_positions ob) ∧
    0 ≤ requested_ms ob ≤ received_ms ob ∧ received_ms ob ≤ evaluated_ms ≤ requested_ms ob + max_age_ms ∧ before = after).
Proof.
  intros He Hr. unfold check. destruct (negb _ || _) eqn:E1.
  { eexists. split; [done|]. split; [done|]. intros (H1 & H2 & _). exfalso. apply orb_true_iff in E1 as [E|E].
    - by rewrite bool_decide_true in E.
    - apply existsb_exists in E as (p & Hp%list_elem_of_In & E). rewrite Forall_forall in H2. by rewrite bool_decide_true in E by auto. }
  apply orb_false_iff in E1 as [E1 E1']. apply negb_false_iff, bool_decide_eq_true in E1.
  assert (Forall (λ p, p_symbol p = symbol) (ob_positions ob)) as H1.
  { apply Forall_forall. intros p Hp. apply not_true_iff_false in E1'. destruct (decide (p_symbol p = symbol)) as [|Hne]; [done|].
    destruct E1'. apply existsb_exists. exists p. split; [by apply list_elem_of_In|]. by rewrite bool_decide_false. }
  case_bool_decide as E2; cbn [negb]; [|eexists; split; [done|]; split; [done|]; intros (_ & _ & Hm & H2 & _); by rewrite Hm in E2].
  destruct (Bool.eqb (ob_hedged ob) hedged) eqn:E3; cbn [negb].
  2: { eexists. split; [done|]. split; [done|]. intros (_ & _ & Hm & _). by rewrite Hm, Bool.eqb_reflx in E3. }
  apply Bool.eqb_prop in E3. rewrite E3 in E2. destruct (existsb invalid_value _) eqn:E4.
  { eexists. split; [done|]. split; [done|]. intros (_ & _ & _ & _ & _ & Hv & _). apply existsb_exists in E4 as (p & Hp%list_elem_of_In & E).
    rewrite Forall_forall in Hv. apply Hv, invalid_value_iff in Hp. congruence. }
  assert (Forall valid_value (ob_positions ob)) as H4.
  { apply Forall_forall. intros p Hp. apply invalid_value_iff. apply not_true_iff_false. intros E. apply not_true_iff_false in E4.
    destruct E4. apply existsb_exists. exists p. split; [by apply list_elem_of_In|done]. }
  destruct (_ || (max_age_ms <? 0)) eqn:E5; [rewrite !orb_true_iff, !Z.ltb_lt in E5; eexists; split; [done|]; split; [done|]; intros H; exfalso; lia|].
  rewrite !orb_false_iff, !Z.ltb_ge in E5. rewrite chk_ret by mlia. cbn [mbind run_bind mret run_ret]. eexists. split; [done|].
  destruct (Z.ltb_spec max_age_ms (evaluated_ms - requested_ms ob)) as [E6|E6]; [split; [done|]; intros H; exfalso; lia|].
  destruct (Nat.eqb_spec before after) as [E7|E7]; cbn [negb]; [|split; [done|]; intros (_ & _ & _ & _ & _ & _ & _ & _ & H); done].
  split; [|done]. intros _. split_and!; try done; try lia. by apply sides_sorted.
Qed.
Lemma checked_read_covers_every_leg_witness :
  let row side x := mkPosition (text_of "SYNTH") side (F64.of_int x) (shown x) (text_of "100") (F64.of_int 100) F64.zero in
  let ob := mkObservation (text_of "SYNTH") true [row SHORT (-2); row LONG 1] 10 20 in
  (i64 25 ∧ i64 10) ∧ check ob (text_of "SYNTH") true 25 20 3 3 = Ret (Ok ()) ∧
  ∃ r, check ob (text_of "SYNTH") true 31 20 3 3 = Ret r ∧ r ≠ Ok ().
Proof.
  split; [split; mlia|]. split; [by vm_compute|].
  match goal with |- ∃ r, check ?ob _ _ _ _ _ _ = _ ∧ _ =>
    destruct (checked_read_covers_every_leg ob (text_of "SYNTH") true 31 20 3 3) as (r & E & H); [mlia|simpl; mlia|] end.
  exists r. split; [exact E|]. intros Hr. apply H in Hr. destruct Hr as (_ & _ & _ & _ & _ & _ & _ & Ha & _). simpl in Ha. lia.
Defined.
