(* ===== verification/Reconcile.v ===== *)
(** Comparing what is believed with what the venue reports
    ([oq-gateway/src/reconcile.rs]): every difference is classified, none is
    repaired. *)

From stdpp Require Import strings.
From Stdlib Require Import Floats.SpecFloat.
From S2P Require Import Prelude Text Floats Account.
#[local] Open Scope Z_scope.

Record ExpectedLeg := mkLeg { want_side : text; want_amount : spec_float; want_entry : spec_float }.
Record Expectation := mkExpectation { legs : list ExpectedLeg; working_orders : list text }.

Inductive Divergence :=
| PositionSize (side : text) (expected venue : spec_float)
| PositionEntry (side : text) (expected venue : spec_float)
| PositionAbsentAtVenue (side : text) (expected : spec_float)
| PositionUnknownLocally (side : text) (venue : spec_float)
| OrderStale (client_order_id : text)
| OrderUnknownLocally (client_order_id venue_order_id : text)
| OffGrid (what : string) (value : spec_float)
| NotANumber (what : string) (value : spec_float).

Definition divergence_is_fatal (d : Divergence) : bool :=
  match d with
  | PositionSize _ _ _ | PositionEntry _ _ _ | PositionAbsentAtVenue _ _ | PositionUnknownLocally _ _ | OffGrid _ _ | NotANumber _ _ => true
  | OrderStale _ | OrderUnknownLocally _ _ => false
  end.

Record Reconciliation := mkReconciliation { divergences : list Divergence; rc_read_at_ms : Z }.
Definition agrees (r : Reconciliation) : bool := bool_decide (length (divergences r) = 0%nat).
Definition is_fatal (r : Reconciliation) : bool := existsb divergence_is_fatal (divergences r).
Definition fatal (r : Reconciliation) : list Divergence := List.filter divergence_is_fatal (divergences r).

Record Tolerance := mkTolerance { tol_quantity : spec_float; tol_price : spec_float; lot : spec_float }.
Definition Tolerance_default : Tolerance :=
  mkTolerance (F64.of_decimal false 1 (-9)) (F64.of_decimal false 1 (-6)) F64.zero.

(** [(a - b).abs() > t], and [a.abs() <= t]. *)
Definition differ (a b t : spec_float) : bool := F64.ltb t (F64.abs (F64.sub a b)).
Definition flat (a t : spec_float) : bool := F64.leb (F64.abs a) t.

Definition not_numbers (p : PositionSnapshot) : list Divergence :=
  (if negb (F64.is_finite (amount p)) then [NotANumber "position size" (amount p)] else []) ++
  (if negb (F64.is_finite (entry_price p)) then [NotANumber "position entry price" (entry_price p)] else []).
Definition off_grid (tol : Tolerance) (p : PositionSnapshot) : list Divergence :=
  let steps := F64.div (amount p) (lot tol) in
  if differ steps (F64.round steps) (F64.of_decimal false 1 (-6)) then [OffGrid "position size" (amount p)] else [].
Definition check_leg (venue : Snapshot) (tol : Tolerance) (want : ExpectedLeg) : list Divergence :=
  if flat (want_amount want) (tol_quantity tol) && negb (bool_decide (is_Some (leg venue (want_side want)))) then []
  else
    match leg venue (want_side want) with
    | Some got =>
        (if differ (want_amount want) (amount got) (tol_quantity tol)
         then [PositionSize (want_side want) (want_amount want) (amount got)] else []) ++
        (if differ (want_entry want) (entry_price got) (tol_price tol)
         then [PositionEntry (want_side want) (want_entry want) (entry_price got)] else [])
    | None => [PositionAbsentAtVenue (want_side want) (want_amount want)]
    end.
Definition check_held (expected : Expectation) (tol : Tolerance) (got : PositionSnapshot) : list Divergence :=
  if flat (amount got) (tol_quantity tol) then []
  else if existsb (λ w, bool_decide (want_side w = position_side got)) (legs expected) then []
  else [PositionUnknownLocally (position_side got) (amount got)].

Definition reconcile (expected : Expectation) (venue : Snapshot) (tol : Tolerance) : Reconciliation :=
  let reported := client_order_id <$> s_open_orders venue in
  mkReconciliation
    (flat_map not_numbers (s_positions venue) ++
     (if F64.ltb F64.zero (lot tol) then flat_map (off_grid tol) (s_positions venue) else []) ++
     flat_map (check_leg venue tol) (legs expected) ++
     flat_map (check_held expected tol) (s_positions venue) ++
     flat_map (λ ours, if bool_decide (ours ∈ reported) then [] else [OrderStale ours]) (working_orders expected) ++
     flat_map (λ theirs, if bool_decide (client_order_id theirs ∈ working_orders expected) then []
                         else [OrderUnknownLocally (client_order_id theirs) (order_id theirs)]) (s_open_orders venue))
    (snapshot_read_at venue).

(** * Lemmas *)

Lemma flat_map_nil {A} (f : A → list Divergence) (l : list A) : flat_map f l = [] ↔ Forall (λ x, f x = []) l.
Proof.
  induction l as [|x l IH]; [split; [constructor|done]|]. cbn [flat_map]. rewrite app_nil, IH, Forall_cons. done.
Qed.
Lemma existsb_flat_map {A} (f : A → list Divergence) (l : list A) :
  existsb divergence_is_fatal (flat_map f l) = existsb (λ x, existsb divergence_is_fatal (f x)) l.
Proof. induction l as [|x l IH]; [done|]. cbn [flat_map existsb]. by rewrite existsb_app, IH. Qed.
Lemma existsb_none {A} (f : A → bool) l : (∀ x, f x = false) → existsb f l = false.
Proof. intros Hf. induction l as [|x l IH]; [done|]. cbn [existsb]. by rewrite Hf, IH. Qed.
Lemma if_nil {A} (b : bool) (x : A) : (if b then [x] else []) = [] ↔ b = false.
Proof. by destruct b. Qed.
Lemma if_not_nil {A} (b : bool) (x : A) : (if b then [] else [x]) = [] ↔ b = true.
Proof. by destruct b. Qed.

(** * What agreement means *)

(** Both accounts tell the same story, to the tolerance. *)
Record same_account (expected : Expectation) (venue : Snapshot) (tol : Tolerance) : Prop := {
  same_finite : Forall (λ p, F64.is_finite (amount p) = true ∧ F64.is_finite (entry_price p) = true) (s_positions venue);
  same_grid : F64.ltb F64.zero (lot tol) = true → Forall (λ p, off_grid tol p = []) (s_positions venue);
  same_legs : Forall (λ w, match leg venue (want_side w) with
                           | Some got => differ (want_amount w) (amount got) (tol_quantity tol) = false ∧
                                         differ (want_entry w) (entry_price got) (tol_price tol) = false
                           | None => flat (want_amount w) (tol_quantity tol) = true
                           end) (legs expected);
  same_held : Forall (λ p, flat (amount p) (tol_quantity tol) = true ∨ position_side p ∈ want_side <$> legs expected) (s_positions venue);
  same_orders : ∀ id, id ∈ working_orders expected ↔ id ∈ client_order_id <$> s_open_orders venue;
}.

Lemma not_numbers_nil p : not_numbers p = [] ↔ F64.is_finite (amount p) = true ∧ F64.is_finite (entry_price p) = true.
Proof. unfold not_numbers. by rewrite app_nil, !if_nil, !negb_false_iff. Qed.
Lemma check_leg_nil venue tol w : check_leg venue tol w = [] ↔
  match leg venue (want_side w) with
  | Some got => differ (want_amount w) (amount got) (tol_quantity tol) = false ∧ differ (want_entry w) (entry_price got) (tol_price tol) = false
  | None => flat (want_amount w) (tol_quantity tol) = true
  end.
Proof.
  unfold check_leg. destruct (leg venue (want_side w)) as [got|].
  - rewrite bool_decide_true, andb_false_r by done. by rewrite app_nil, !if_nil.
  - rewrite bool_decide_false by (by intros [? ?]). rewrite andb_true_r. by destruct (flat _ _).
Qed.
Lemma check_held_nil expected tol p :
  check_held expected tol p = [] ↔ flat (amount p) (tol_quantity tol) = true ∨ position_side p ∈ want_side <$> legs expected.
Proof.
  unfold check_held. destruct (flat _ _); [naive_solver|]. rewrite if_not_nil, existsb_exists. split.
  - intros (w & Hw%list_elem_of_In & E%bool_decide_eq_true). right. apply list_elem_of_fmap. eauto.
  - intros [|(w & E & Hw)%list_elem_of_fmap]; [done|]. exists w. split; [by apply list_elem_of_In|]. by apply bool_decide_eq_true.
Qed.

(** Agreement is not vacuous: [reconcile] reports no difference exactly when
    every figure of the venue is a number on the grid, every leg believed in is
    the venue's to the tolerance (or flat and not mentioned), the venue holds no
    leg that is not believed in, and the resting orders are the same set. *)
Theorem agreement_means_the_same_account expected venue tol :
  agrees (reconcile expected venue tol) = true ↔ same_account expected venue tol.
Proof.
  unfold agrees, reconcile. cbn [divergences]. rewrite bool_decide_eq_true, length_zero_iff_nil, !app_nil, !flat_map_nil.
  assert ((if F64.ltb F64.zero (lot tol) then flat_map (off_grid tol) (s_positions venue) else []) = [] ↔
    (F64.ltb F64.zero (lot tol) = true → Forall (λ p, off_grid tol p = []) (s_positions venue))) as ->.
  { rewrite <-flat_map_nil. destruct (F64.ltb _ _); naive_solver. }
  rewrite (Forall_iff _ _ _ not_numbers_nil), (Forall_iff _ _ _ (check_leg_nil venue tol)), (Forall_iff _ _ _ (check_held_nil expected tol)).
  rewrite (Forall_iff _ _ _ (λ id, if_not_nil (bool_decide (id ∈ client_order_id <$> s_open_orders venue)) (OrderStale id))).
  rewrite (Forall_iff _ _ _ (λ o, if_not_nil (bool_decide (client_order_id o ∈ working_orders expected)) (OrderUnknownLocally (client_order_id o) (order_id o)))).
  rewrite (Forall_iff _ _ _ (λ id, bool_decide_eq_true (id ∈ client_order_id <$> s_open_orders venue))).
  rewrite (Forall_iff _ _ _ (λ o, bool_decide_eq_true (client_order_id o ∈ working_orders expected))). split.
  - intros (H1 & H2 & H3 & H4 & H5 & H6). split; try done. intros id. rewrite !Forall_forall in *. split; [apply H5|].
    intros (o & -> & Ho)%list_elem_of_fmap. by apply H6.
  - intros [H1 H2 H3 H4 H5]. split_and!; try done.
    + apply Forall_forall. intros id Hid. by apply H5.
    + apply Forall_forall. intros o Ho. apply H5. by apply list_elem_of_fmap_2.
Qed.

(** ** What stops the process *)

Definition all_fatal (l : list Divergence) : Prop := Forall (λ d, divergence_is_fatal d = true) l.
Lemma all_fatal_exists l : all_fatal l → existsb divergence_is_fatal l = negb (bool_decide (length l = 0%nat)).
Proof. intros [|d l' H _]; [done|]. cbn [existsb]. by rewrite H. Qed.
Lemma all_fatal_flat_map {A} (f : A → list Divergence) (l : list A) : (∀ x, all_fatal (f x)) → all_fatal (flat_map f l).
Proof. intros Hf. induction l as [|x l IH]; [constructor|]. apply Forall_app_2; [apply Hf|done]. Qed.
Lemma if_fatal (b : bool) d : divergence_is_fatal d = true → all_fatal (if b then [d] else []).
Proof. destruct b; repeat constructor; done. Qed.
Lemma if_not_fatal (b : bool) d : divergence_is_fatal d = true → all_fatal (if b then [] else [d]).
Proof. destruct b; repeat constructor; done. Qed.
Lemma positions_fatal expected venue tol :
  all_fatal (flat_map not_numbers (s_positions venue) ++
     (if F64.ltb F64.zero (lot tol) then flat_map (off_grid tol) (s_positions venue) else []) ++
     flat_map (check_leg venue tol) (legs expected) ++ flat_map (check_held expected tol) (s_positions venue)).
Proof.
  repeat apply Forall_app_2.
  - apply all_fatal_flat_map. intros p. apply Forall_app_2; by apply if_fatal.
  - destruct (F64.ltb _ _); [|constructor]. apply all_fatal_flat_map. intros p. by apply if_fatal.
  - apply all_fatal_flat_map. intros w. unfold check_leg. destruct (_ && _); [constructor|].
    destruct (leg _ _); [apply Forall_app_2; by apply if_fatal|repeat constructor].
  - apply all_fatal_flat_map. intros p. unfold check_held. destruct (flat _ _); [constructor|]. by apply if_not_fatal.
Qed.

Definition without_orders_e (e : Expectation) : Expectation := mkExpectation (legs e) [].
Definition without_orders_s (v : Snapshot) : Snapshot := mkSnapshot (s_symbol v) (s_account v) (s_positions v) [].
(** Only what is wrong about positions stops the process: the comparison is
    fatal exactly when the same comparison without any order is not an
    agreement. *)
Theorem fatal_is_about_positions expected venue tol :
  is_fatal (reconcile expected venue tol) = negb (agrees (reconcile (without_orders_e expected) (without_orders_s venue) tol)).
Proof.
  unfold is_fatal, agrees, reconcile. cbn [divergences without_orders_e without_orders_s legs working_orders s_positions s_open_orders].
  pose proof (positions_fatal expected venue tol) as Hf. cbn [flat_map]. rewrite !app_assoc in *. rewrite !existsb_app, !app_nil_r.
  rewrite !existsb_flat_map in *.
  rewrite (existsb_none (λ x, existsb divergence_is_fatal (if bool_decide (x ∈ _) then _ else _))) by (intros x; by case_bool_decide).
  rewrite (existsb_none (λ x, existsb divergence_is_fatal (if bool_decide (client_order_id x ∈ _) then _ else _))) by (intros x; by case_bool_decide).
  rewrite !orb_false_r. etrans; [|exact (all_fatal_exists _ Hf)]. by rewrite !existsb_app, !existsb_flat_map.
Qed.

(** Two accounts that differ by a hundredth of a lot of one leg. *)
Definition demo_row (side : text) (x : text) : PositionSnapshot :=
  mkPosition (text_of "BTCUSDT") side (default S754_nan (F64.parse x)) x (text_of "100") (F64.of_int 100) F64.zero.
Definition demo_snapshot (rows : list PositionSnapshot) : Snapshot :=
  mkSnapshot (text_of "BTCUSDT") (mkAccount F64.zero F64.zero F64.zero 7) rows [].
Example reconcile_examples :
  let e := mkExpectation [mkLeg LONG (default S754_nan (F64.parse (text_of "0.5"))) (F64.of_int 100)] [] in
  agrees (reconcile e (demo_snapshot [demo_row LONG (text_of "0.5")]) Tolerance_default) = true ∧
  divergences (reconcile e (demo_snapshot [demo_row LONG (text_of "0.51")]) Tolerance_default) =
    [PositionSize LONG (default S754_nan (F64.parse (text_of "0.5"))) (default S754_nan (F64.parse (text_of "0.51")))] ∧
  divergences (reconcile e (demo_snapshot []) Tolerance_default) = [PositionAbsentAtVenue LONG (default S754_nan (F64.parse (text_of "0.5")))] ∧
  divergences (reconcile (mkExpectation [] [text_of "a"]) (demo_snapshot [demo_row LONG (text_of "nan")]) Tolerance_default) =
    [NotANumber "position size" S754_nan; PositionUnknownLocally LONG S754_nan; OrderStale (text_of "a")].
Proof. vm_compute. by split_and!. Qed.
