(* ===== verification/Watch.v ===== *)
(** Observing an account over time ([oq-gateway/src/watch.rs]): each read
    against the one before it. *)

From stdpp Require Import strings.
From Stdlib Require Import Floats.SpecFloat.
From S2P Require Import Prelude Text Floats Account Reconcile.
#[local] Open Scope Z_scope.

Inductive Change :=
| PositionOpened (side : text) (amount entry : spec_float)
| PositionClosed (side : text) (was : spec_float)
| PositionResized (side : text) (from to entry_from entry_to : spec_float)
| OrderAppeared (client_order_id side position_side : text) (price qty : spec_float)
| OrderGone (client_order_id : text) (filled of_ : spec_float)
| OrderPartiallyFilled (client_order_id : text) (from to of_ : spec_float)
| BalanceMoved (from to : spec_float).
Definition touches_position (c : Change) : bool :=
  match c with PositionOpened _ _ _ | PositionClosed _ _ | PositionResized _ _ _ _ _ => true | _ => false end.

Record Tally := mkTally {
  reads : Z; incomplete_reads : Z; position_changes : Z; orders_appeared : Z; orders_gone : Z; partial_fills : Z; quiet_reads : Z;
}.
Definition Tally_default : Tally := mkTally 0 0 0 0 0 0 0.
Definition tally_render (t : Tally) : text :=
  shown (reads t) ++ text_of " reads (" ++ shown (quiet_reads t) ++ text_of " quiet, " ++ shown (incomplete_reads t) ++
  text_of " incomplete) | positions " ++ shown (position_changes t) ++ text_of " | orders +" ++ shown (orders_appeared t) ++
  text_of " -" ++ shown (orders_gone t) ++ text_of " ~" ++ shown (partial_fills t).
Record Watcher := mkWatcher { previous : option Snapshot; tally : Tally }.

Definition eps (e : Z) : spec_float := F64.of_decimal false 1 e.
Definition position_moved (now : list PositionSnapshot) (b : PositionSnapshot) : list Change :=
  match find (λ n, bool_decide (position_side n = position_side b)) now with
  | None => [PositionClosed (position_side b) (amount b)]
  | Some n =>
      if differ (amount b) (amount n) (eps (-12)) || differ (entry_price b) (entry_price n) (eps (-9))
      then [PositionResized (position_side b) (amount b) (amount n) (entry_price b) (entry_price n)] else []
  end.
Definition diff_positions (before now : list PositionSnapshot) : list Change :=
  flat_map (position_moved now) before ++
  flat_map (λ n, if existsb (λ b, bool_decide (position_side b = position_side n)) before then []
                 else [PositionOpened (position_side n) (amount n) (entry_price n)]) now.
Definition order_moved (now : list OpenOrder) (b : OpenOrder) : list Change :=
  match find (λ n, bool_decide (client_order_id n = client_order_id b)) now with
  | None => [OrderGone (client_order_id b) (executed_qty b) (orig_qty b)]
  | Some n =>
      if differ (executed_qty b) (executed_qty n) (eps (-12))
      then [OrderPartiallyFilled (client_order_id b) (executed_qty b) (executed_qty n) (orig_qty b)] else []
  end.
Definition diff_orders (before now : list OpenOrder) : list Change :=
  flat_map (order_moved now) before ++
  flat_map (λ n, if existsb (λ b, bool_decide (client_order_id b = client_order_id n)) before then []
                 else [OrderAppeared (client_order_id n) (o_side n) (o_position_side n) (o_price n) (orig_qty n)]) now.

Module Watcher.
Implicit Types (w : Watcher) (t : Tally).

Definition new : Watcher := mkWatcher None Tally_default.
(** The counters are [u64]s. *)
Definition incomplete w : run Watcher :=
  let t := tally w in
  n ← chku64 (incomplete_reads t + 1);
  mret (mkWatcher (previous w) (mkTally (reads t) n (position_changes t) (orders_appeared t) (orders_gone t) (partial_fills t) (quiet_reads t))).
Definition count_read t : run Tally :=
  n ← chku64 (reads t + 1);
  mret (mkTally n (incomplete_reads t) (position_changes t) (orders_appeared t) (orders_gone t) (partial_fills t) (quiet_reads t)).
Definition count_change t (c : Change) : run Tally :=
  match c with
  | PositionOpened _ _ _ | PositionClosed _ _ | PositionResized _ _ _ _ _ =>
      n ← chku64 (position_changes t + 1);
      mret (mkTally (reads t) (incomplete_reads t) n (orders_appeared t) (orders_gone t) (partial_fills t) (quiet_reads t))
  | OrderAppeared _ _ _ _ _ =>
      n ← chku64 (orders_appeared t + 1);
      mret (mkTally (reads t) (incomplete_reads t) (position_changes t) n (orders_gone t) (partial_fills t) (quiet_reads t))
  | OrderGone _ _ _ =>
      n ← chku64 (orders_gone t + 1);
      mret (mkTally (reads t) (incomplete_reads t) (position_changes t) (orders_appeared t) n (partial_fills t) (quiet_reads t))
  | OrderPartiallyFilled _ _ _ _ =>
      n ← chku64 (partial_fills t + 1);
      mret (mkTally (reads t) (incomplete_reads t) (position_changes t) (orders_appeared t) (orders_gone t) n (quiet_reads t))
  | BalanceMoved _ _ => mret t
  end.
Fixpoint count_changes t (cs : list Change) : run Tally :=
  match cs with [] => mret t | c :: cs => t ← count_change t c; count_changes t cs end.
Definition count_quiet t (cs : list Change) : run Tally :=
  if bool_decide (length cs = 0%nat) then
    n ← chku64 (quiet_reads t + 1);
    mret (mkTally (reads t) (incomplete_reads t) (position_changes t) (orders_appeared t) (orders_gone t) (partial_fills t) n)
  else mret t.
Definition observe w (now : Snapshot) : run (list Change * Watcher) :=
  t ← count_read (tally w);
  match previous w with
  | None => mret ([], mkWatcher (Some now) t)
  | Some before =>
      let from := wallet_balance (s_account before) in
      let to := wallet_balance (s_account now) in
      let changes :=
        diff_positions (s_positions before) (s_positions now) ++ diff_orders (s_open_orders before) (s_open_orders now) ++
        (if differ from to (eps (-8)) then [BalanceMoved from to] else []) in
      t ← count_changes t changes;
      t ← count_quiet t changes;
      mret (changes, mkWatcher (Some now) t)
  end.
End Watcher.

(** * A watch *)

(** What happens to it: a read, or a read that failed. *)
Definition watch_step (w : Watcher) (o : option Snapshot) : run (option (list Change) * Watcher) :=
  match o with
  | Some now => '(cs, w) ← Watcher.observe w now; mret (Some cs, w)
  | None => w ← Watcher.incomplete w; mret (None, w)
  end.
Fixpoint watch (w : Watcher) (os : list (option Snapshot)) : run (list (option (list Change)) * Watcher) :=
  match os with
  | [] => mret ([], w)
  | o :: os => '(r, w) ← watch_step w o; '(rs, w) ← watch w os; mret (r :: rs, w)
  end.

Definition count {A} (f : A → bool) (l : list A) : Z := Z.of_nat (length (List.filter f l)).
Definition is_appeared (c : Change) : bool := match c with OrderAppeared _ _ _ _ _ => true | _ => false end.
Definition is_gone (c : Change) : bool := match c with OrderGone _ _ _ => true | _ => false end.
Definition is_partial (c : Change) : bool := match c with OrderPartiallyFilled _ _ _ _ => true | _ => false end.

Lemma count_app {A} (f : A → bool) l l' : count f (l ++ l') = count f l + count f l'.
Proof. unfold count. rewrite List.filter_app, length_app. lia. Qed.
Lemma count_cons {A} (f : A → bool) x l : count f (x :: l) = (if f x then 1 else 0) + count f l.
Proof. unfold count. cbn [List.filter]. destruct (f x); cbn [length]; lia. Qed.

(** The log a watch must produce: what moved between each read and the one
    before it; nothing at the first. *)
Definition moved_between (before now : Snapshot) : list Change :=
  diff_positions (s_positions before) (s_positions now) ++ diff_orders (s_open_orders before) (s_open_orders now) ++
  (if differ (wallet_balance (s_account before)) (wallet_balance (s_account now)) (eps (-8))
   then [BalanceMoved (wallet_balance (s_account before)) (wallet_balance (s_account now))] else []).
Fixpoint change_log (before : option Snapshot) (os : list (option Snapshot)) : list (option (list Change)) :=
  match os with
  | [] => []
  | None :: os => None :: change_log before os
  | Some now :: os => Some (match before with Some b => moved_between b now | None => [] end) :: change_log (Some now) os
  end.
Definition emitted (rs : list (option (list Change))) : list Change := mjoin (default [] <$> rs).
Definition is_read (r : option (list Change)) : bool := match r with Some _ => true | None => false end.
Definition is_quiet (r : option (list Change)) : bool := match r with Some [] => true | _ => false end.

(** The tally a log calls for, on top of [t]; [base] is one until a first read
    has been seen, which is no quiet read. *)
Definition tally_of (t : Tally) (base : bool) (rs : list (option (list Change))) : Tally :=
  mkTally (reads t + count is_read rs) (incomplete_reads t + count (negb ∘ is_read) rs)
    (position_changes t + count touches_position (emitted rs)) (orders_appeared t + count is_appeared (emitted rs))
    (orders_gone t + count is_gone (emitted rs)) (partial_fills t + count is_partial (emitted rs))
    (quiet_reads t + count is_quiet rs - (if base then Z.min 1 (count is_read rs) else 0)).

(** No counter is within [n] of its width. *)
Definition room (t : Tally) (n : Z) : Prop :=
  0 ≤ n ∧ Forall (λ c, 0 ≤ c ∧ c + n ≤ U64_MAX)
    [reads t; incomplete_reads t; position_changes t; orders_appeared t; orders_gone t; partial_fills t; quiet_reads t].

Lemma count_bounds {A} (f : A → bool) l : 0 ≤ count f l ≤ Z.of_nat (length l).
Proof.
  induction l as [|x l IH]; [done|]. rewrite count_cons. destruct (f x); cbn [length]; lia.
Qed.
Lemma room_iff t n : room t n ↔ 0 ≤ n ∧ (0 ≤ reads t ∧ reads t + n ≤ U64_MAX) ∧ (0 ≤ incomplete_reads t ∧ incomplete_reads t + n ≤ U64_MAX) ∧
  (0 ≤ position_changes t ∧ position_changes t + n ≤ U64_MAX) ∧ (0 ≤ orders_appeared t ∧ orders_appeared t + n ≤ U64_MAX) ∧
  (0 ≤ orders_gone t ∧ orders_gone t + n ≤ U64_MAX) ∧ (0 ≤ partial_fills t ∧ partial_fills t + n ≤ U64_MAX) ∧
  (0 ≤ quiet_reads t ∧ quiet_reads t + n ≤ U64_MAX).
Proof. unfold room. rewrite !Forall_cons, Forall_nil. tauto. Qed.

Definition counted (t : Tally) (cs : list Change) : Tally :=
  mkTally (reads t) (incomplete_reads t) (position_changes t + count touches_position cs) (orders_appeared t + count is_appeared cs)
    (orders_gone t + count is_gone cs) (partial_fills t + count is_partial cs) (quiet_reads t).
Lemma count_changes_counted cs : ∀ t, room t (Z.of_nat (length cs)) → Watcher.count_changes t cs = Ret (counted t cs).
Proof.
  induction cs as [|c cs IH]; intros t Hr; cbn [Watcher.count_changes].
  - destruct t. unfold counted, count; cbn. do 2 f_equal; lia.
  - rewrite room_iff in Hr. cbn [length] in Hr.
    assert (Watcher.count_change t c = Ret (counted t [c])) as ->.
    { unfold counted, count. destruct t. destruct c; cbn in Hr |- *; try (rewrite chk_ret by mlia; cbn); do 2 f_equal; lia. }
    cbn [mbind run_bind]. rewrite IH.
    + f_equal. unfold counted. cbn. rewrite !count_cons. unfold count at 1 3 5 7. destruct c; cbn; f_equal; lia.
    + rewrite room_iff. unfold counted. cbn [reads incomplete_reads position_changes orders_appeared orders_gone partial_fills quiet_reads].
      rewrite !count_cons. unfold count. cbn. destruct c; cbn; lia.
Qed.

Lemma emitted_cons r rs : emitted (r :: rs) = default [] r ++ emitted rs.
Proof. done. Qed.
Lemma room_mono t n m : room t n → 0 ≤ m ≤ n → room t m.
Proof. rewrite !room_iff. lia. Qed.

Fixpoint last_read (before : option Snapshot) (os : list (option Snapshot)) : option Snapshot :=
  match os with [] => before | o :: os => last_read (match o with Some _ => o | None => before end) os end.
Definition is_none {A} (o : option A) : bool := match o with None => true | Some _ => false end.

Lemma tally_eq t t' : reads t = reads t' → incomplete_reads t = incomplete_reads t' → position_changes t = position_changes t' →
  orders_appeared t = orders_appeared t' → orders_gone t = orders_gone t' → partial_fills t = partial_fills t' →
  quiet_reads t = quiet_reads t' → t = t'.
Proof. destruct t, t'; cbn; congruence. Qed.
Ltac tallies :=
  apply tally_eq; unfold tally_of, counted, count;
  cbn [reads incomplete_reads position_changes orders_appeared orders_gone partial_fills quiet_reads tally
       is_none List.filter length is_read is_quiet compose negb touches_position is_appeared is_gone is_partial].

(** One read. *)
Lemma observe_eq before t now : let cs := match before with Some b => moved_between b now | None => [] end in
  room t (1 + Z.of_nat (length cs)) →
  Watcher.observe (mkWatcher before t) now = Ret (cs, mkWatcher (Some now) (tally_of t (is_none before) [Some cs])).
Proof.
  intros cs Hr. unfold Watcher.observe, Watcher.count_read. cbn [tally previous].
  rewrite chk_ret by (rewrite room_iff in Hr; mlia). cbn [mbind run_bind mret run_ret].
  assert (emitted [Some cs] = cs) as He by (unfold emitted; cbn; apply app_nil_r).
  destruct before as [b|]; cbn [is_none].
  - fold (moved_between b now). change (moved_between b now) with cs. set (t1 := mkTally _ _ _ _ _ _ _).
    rewrite (count_changes_counted cs t1) by (rewrite room_iff in *; unfold t1; cbn in *; lia).
    subst t1. cbn [mbind run_bind]. unfold Watcher.count_quiet. case_bool_decide as E.
    + apply nil_length_inv in E. cbn [counted quiet_reads]. rewrite chk_ret by (rewrite room_iff in Hr; mlia).
      cbn [mbind run_bind mret run_ret]. do 3 f_equal. unfold tally_of. rewrite He, E. tallies; lia.
    + cbn [mbind run_bind mret run_ret]. do 3 f_equal. unfold tally_of. rewrite He. destruct cs as [|c cs']; [done|]. tallies; lia.
  - subst cs. do 3 f_equal. unfold tally_of. rewrite He. tallies; lia.
Qed.
Lemma incomplete_eq before t : room t 1 →
  Watcher.incomplete (mkWatcher before t) = Ret (mkWatcher before (tally_of t (is_none before) [None])).
Proof.
  intros Hr. unfold Watcher.incomplete. cbn [tally previous]. rewrite chk_ret by (rewrite room_iff in Hr; mlia).
  cbn [mbind run_bind mret run_ret]. do 2 f_equal. unfold tally_of. change (emitted [None]) with (@nil Change). destruct before; tallies; lia.
Qed.

Lemma tally_of_app t base r rs : tally_of (tally_of t base [r]) (base && negb (is_read r)) rs = tally_of t base (r :: rs).
Proof.
  unfold tally_of. cbn [reads incomplete_reads position_changes orders_appeared orders_gone partial_fills quiet_reads].
  assert (emitted [r] = default [] r) as -> by (unfold emitted; cbn; apply app_nil_r). rewrite emitted_cons, !count_app, !count_cons.
  pose proof (count_bounds is_read rs). tallies; destruct r as [cs|], base; cbn; try lia; destruct cs; cbn; lia.
Qed.
Lemma count_nil {A} (f : A → bool) : count f [] = 0.
Proof. done. Qed.
Lemma room_after t base r n : room t (1 + Z.of_nat (length (default [] r)) + n) → 0 ≤ n → (base = true → default [] r = []) →
  room (tally_of t base [r]) n.
Proof.
  intros Hr Hn Hb. rewrite room_iff in *. unfold tally_of. cbn [reads incomplete_reads position_changes orders_appeared orders_gone partial_fills quiet_reads].
  assert (emitted [r] = default [] r) as -> by (unfold emitted; cbn; apply app_nil_r).
  pose proof (count_bounds touches_position (default [] r)). pose proof (count_bounds is_appeared (default [] r)).
  pose proof (count_bounds is_gone (default [] r)). pose proof (count_bounds is_partial (default [] r)).
  rewrite !count_cons, !count_nil.
  destruct r as [[|c cs]|], base; cbn [from_option id length is_read is_quiet negb compose] in *; try lia. by specialize (Hb eq_refl).
Qed.

(** The tally is the log, counted: over any sequence of reads and failed
    reads (short of 2^64 of either and of changes) the watch returns for each
    read exactly what moved since the read before it, nothing for the first, and
    its counters are the number of reads, of failed reads, of quiet reads after
    the first and of changes of each kind in that log. *)
Theorem tally_counts_the_log os :
  Z.of_nat (length os) + Z.of_nat (length (emitted (change_log None os))) ≤ U64_MAX →
  watch Watcher.new os = Ret (change_log None os, mkWatcher (last_read None os) (tally_of Tally_default true (change_log None os))).
Proof.
  intros Hl. unfold Watcher.new.
  assert (∀ before t, room t (Z.of_nat (length os) + Z.of_nat (length (emitted (change_log before os)))) →
    watch (mkWatcher before t) os =
    Ret (change_log before os, mkWatcher (last_read before os) (tally_of t (is_none before) (change_log before os)))) as Hgo.
  2: { apply (Hgo None). rewrite room_iff. cbn. lia. }
  clear Hl. induction os as [|o os IH]; intros before t Hr; cbn [watch change_log last_read].
  { do 3 f_equal. unfold tally_of. change (emitted []) with (@nil Change). destruct before; tallies; lia. }
  destruct o as [now|]; cbn [watch_step change_log] in *; rewrite emitted_cons, length_app in Hr; cbn [length from_option id] in Hr.
  - rewrite observe_eq by (eapply room_mono; [exact Hr|lia]). cbn [mbind run_bind mret run_ret].
    rewrite IH by (apply room_after; [eapply room_mono; [exact Hr|cbn [from_option id]; lia]|lia|intros Hb; destruct before; cbn in Hb; done]).
    cbn [mbind run_bind mret run_ret]. do 3 f_equal. rewrite <-(tally_of_app t _ _ (change_log (Some now) os)). cbn [is_read negb is_none]. by rewrite andb_false_r.
  - rewrite incomplete_eq by (eapply room_mono; [exact Hr|lia]). cbn [mbind run_bind mret run_ret].
    rewrite IH by (apply room_after; [eapply room_mono; [exact Hr|cbn [from_option id length]; lia]|lia|done]).
    cbn [mbind run_bind mret run_ret]. do 3 f_equal. rewrite <-(tally_of_app t _ _ (change_log before os)). cbn [is_read negb]. by rewrite andb_true_r.
Qed.

Definition demo_reads : list (option Snapshot) :=
  [Some (demo_snapshot [demo_row LONG (text_of "0.4")]); None; Some (demo_snapshot [demo_row LONG (text_of "0.4")]);
   Some (demo_snapshot [demo_row LONG (text_of "1.2"); demo_row SHORT (text_of "-1")]); Some (demo_snapshot [demo_row SHORT (text_of "-1")])].
Lemma tally_counts_the_log_witness :
  Z.of_nat (length demo_reads) + Z.of_nat (length (emitted (change_log None demo_reads))) ≤ U64_MAX ∧
  (tally ∘ snd) <$> watch Watcher.new demo_reads = Ret (mkTally 4 1 3 0 0 0 1).
Proof.
  assert (Z.of_nat (length demo_reads) + Z.of_nat (length (emitted (change_log None demo_reads))) ≤ U64_MAX) as H by (by vm_compute).
  split; [exact H|]. rewrite (tally_counts_the_log demo_reads H). by vm_compute.
Defined.

#[local] Opaque eps differ.
(** Nothing is reported exactly when nothing moved. *)
Lemma quiet_means_unmoved before now : moved_between before now = [] ↔
  Forall (λ b, ∃ n, find (λ n, bool_decide (position_side n = position_side b)) (s_positions now) = Some n ∧
      differ (amount b) (amount n) (eps (-12)) = false ∧ differ (entry_price b) (entry_price n) (eps (-9)) = false) (s_positions before) ∧
  Forall (λ n, position_side n ∈ position_side <$> s_positions before) (s_positions now) ∧
  Forall (λ b, ∃ n, find (λ n, bool_decide (client_order_id n = client_order_id b)) (s_open_orders now) = Some n ∧
      differ (executed_qty b) (executed_qty n) (eps (-12)) = false) (s_open_orders before) ∧
  Forall (λ n, client_order_id n ∈ client_order_id <$> s_open_orders before) (s_open_orders now) ∧
  differ (wallet_balance (s_account before)) (wallet_balance (s_account now)) (eps (-8)) = false.
Proof.
  unfold moved_between, diff_positions, diff_orders.
  assert (∀ {A} (f : A → list Change) (l : list A), flat_map f l = [] ↔ Forall (λ x, f x = []) l) as Hfm.
  { intros A f l. induction l as [|x l IH]; [split; [constructor|done]|]. cbn [flat_map]. by rewrite app_nil, IH, Forall_cons. }
  rewrite !app_nil, !Hfm, if_nil.
  assert (∀ {A} (f : A → text) (l : list A) (x : A) (c : Change), (if existsb (λ b, bool_decide (f b = f x)) l then [] else [c]) = [] ↔ f x ∈ f <$> l) as Hin.
  { intros A f l x c. rewrite if_not_nil, existsb_exists. split.
    - intros (b & Hb%list_elem_of_In & E%bool_decide_eq_true). apply list_elem_of_fmap. eauto.
    - intros (b & E & Hb)%list_elem_of_fmap. exists b. split; [by apply list_elem_of_In|]. by apply bool_decide_eq_true. }
  rewrite (Forall_iff _ _ _ (λ n, Hin _ position_side (s_positions before) n _)).
  rewrite (Forall_iff _ _ _ (λ n, Hin _ client_order_id (s_open_orders before) n _)).
  assert (∀ b, position_moved (s_positions now) b = [] ↔
    ∃ n, find (λ n, bool_decide (position_side n = position_side b)) (s_positions now) = Some n ∧
      differ (amount b) (amount n) (eps (-12)) = false ∧ differ (entry_price b) (entry_price n) (eps (-9)) = false) as Hp.
  { intros b. unfold position_moved. destruct (find _ _) as [n|]; [rewrite if_nil, orb_false_iff|].
    - split; [intros H; exists n; exact (conj eq_refl H)|intros (m & E & H); injection E as <-; exact H].
    - split; [intros H; discriminate H|intros (? & H & _); discriminate H]. }
  assert (∀ b, order_moved (s_open_orders now) b = [] ↔
    ∃ n, find (λ n, bool_decide (client_order_id n = client_order_id b)) (s_open_orders now) = Some n ∧
      differ (executed_qty b) (executed_qty n) (eps (-12)) = false) as Ho.
  { intros b. unfold order_moved. destruct (find _ _) as [n|]; [rewrite if_nil|].
    - split; [intros H; exists n; exact (conj eq_refl H)|intros (m & E & H); injection E as <-; exact H].
    - split; [intros H; discriminate H|intros (? & H & _); discriminate H]. }
  rewrite (Forall_iff _ _ _ Hp), (Forall_iff _ _ _ Ho).
  tauto.
Qed.
