(* ===== verification/Supervisor.v ===== *)
(** When to renew, check, reconnect or stop ([oq-live/src/supervisor.rs]), with
    the comparison of two views of an account it rests on ([StreamHealth] of
    [oq-gateway/src/stream.rs]). *)

From stdpp Require Import strings.
From Stdlib Require Import Floats.SpecFloat.
From S2P Require Import Prelude Text Floats Account Reconcile.
#[local] Open Scope Z_scope.

(** * Two views of an account *)

Inductive Health := Agreed | Disagreed (consecutive : Z) | Zombie (consecutive : Z).
Record StreamHealth := mkHealth { threshold : Z; tolerance : spec_float; consecutive : Z }.

(** [u32::saturating_add(1)]. *)
Definition bump (n : Z) : Z := Z.min U32_MAX (n + 1).

Definition amount_in (set_ : list PositionSnapshot) (symbol side : text) : spec_float :=
  match find (λ p, bool_decide (p_symbol p = symbol) && bool_decide (position_side p = side)) set_ with
  | Some p => amount p
  | None => F64.zero
  end.
Definition views_agree (a b : list PositionSnapshot) (tol : spec_float) : bool :=
  forallb (λ p, F64.leb (F64.abs (F64.sub (amount_in a (p_symbol p) (position_side p)) (amount_in b (p_symbol p) (position_side p)))) tol)
    (a ++ b).

Module StreamHealth.
Definition new (threshold : Z) (tol : spec_float) : StreamHealth := mkHealth threshold tol 0.
Definition futures : StreamHealth := new 3 (F64.of_decimal false 1 (-4)).
Definition observe (h : StreamHealth) (streamed venue : list PositionSnapshot) : Health * StreamHealth :=
  if views_agree streamed venue (tolerance h) then (Agreed, mkHealth (threshold h) (tolerance h) 0)
  else
    let n := bump (consecutive h) in
    (if threshold h <=? n then Zombie n else Disagreed n, mkHealth (threshold h) (tolerance h) n).
Definition reset (h : StreamHealth) : StreamHealth := mkHealth (threshold h) (tolerance h) 0.
End StreamHealth.

(** * The supervisor *)

Inductive Action := RenewKey | CheckPositions | Reconcile | Reconnect | Halt (why : text).
#[export] Instance Action_eq_dec : EqDecision Action.
Proof. solve_decision. Defined.

(** Durations in nanoseconds. *)
Record Timings := mkTimings { renew_every : Z; check_every : Z }.
Definition Timings_default : Timings := mkTimings (20 * 60 * 1000000000) (60 * 1000000000).

Record Supervisor := mkSupervisor {
  timings : Timings; health : StreamHealth; last_renew : option Z; last_check : option Z;
  unresolved : Z; unresolved_limit : Z; unreadable : Z; unreadable_limit : Z; condemned : Z; condemned_limit : Z;
}.

(** What a user stream says, as far as this is concerned
    ([UserEvent] of [oq-gateway/src/exec.rs]). *)
Inductive UserEvent := Expired | OrderEvent | Other.

Definition STILL_DISAGREES : text := text_of
  "positions still disagree with the venue after replacing the stream three times; the difference is not the link, and FR-RISK-4 makes unknown state fatal".
Definition TOO_MANY_UNKNOWN : text := text_of
  "too many placements with an unknown outcome; the process no longer knows what it has working".

(** [elapsed]: never counts as due; a period beyond [i64] is never due. *)
Definition elapsed (last : option Z) (now period : Z) : bool :=
  if decide (i64 period) then match last with None => true | Some t => period <=? sat64 (now - t) end else false.

Module Supervisor.
Implicit Types s : Supervisor.

Definition new (t : Timings) : Supervisor := mkSupervisor t StreamHealth.futures None None 0 3 0 5 0 3.
Definition set_times s (renew check : option Z) : Supervisor :=
  mkSupervisor (timings s) (health s) renew check (unresolved s) (unresolved_limit s) (unreadable s) (unreadable_limit s)
    (condemned s) (condemned_limit s).
Definition set_counts s (u r : Z) : Supervisor :=
  mkSupervisor (timings s) (health s) (last_renew s) (last_check s) u (unresolved_limit s) r (unreadable_limit s)
    (condemned s) (condemned_limit s).
Definition set_health s (h : StreamHealth) (c : Z) : Supervisor :=
  mkSupervisor (timings s) h (last_renew s) (last_check s) (unresolved s) (unresolved_limit s) (unreadable s)
    (unreadable_limit s) c (condemned_limit s).

Definition due s (now : Z) : list Action * Supervisor :=
  let '(out, s) :=
    if elapsed (last_renew s) now (renew_every (timings s)) then ([RenewKey], set_times s (Some now) (last_check s)) else ([], s) in
  if elapsed (last_check s) now (check_every (timings s))
  then (out ++ [CheckPositions], set_times s (last_renew s) (Some now)) else (out, s).
Definition on_event s (e : UserEvent) : list Action * Supervisor :=
  (match e with Expired => [Reconnect; Reconcile] | OrderEvent | Other => [] end, s).
Definition on_disconnect s : list Action * Supervisor := ([Reconnect; Reconcile], s).
Definition on_read_failed s : list Action * Supervisor :=
  let n := bump (unreadable s) in
  if unreadable_limit s <=? n then ([Reconnect; Reconcile], set_counts s (unresolved s) 0)
  else ([], set_counts s (unresolved s) n).
Definition on_read_succeeded s : Supervisor := set_counts s (unresolved s) 0.
Definition position_verdict s (streamed venue : list PositionSnapshot) : (Health * list Action) * Supervisor :=
  let '(verdict, h) := StreamHealth.observe (health s) streamed venue in
  match verdict with
  | Agreed => ((verdict, []), set_health s h 0)
  | Disagreed _ => ((verdict, []), set_health s h (condemned s))
  | Zombie _ =>
      let n := bump (condemned s) in
      ((verdict, if condemned_limit s <=? n then [Halt STILL_DISAGREES] else [Reconnect; Reconcile]),
       set_health s (StreamHealth.reset h) n)
  end.
Definition on_positions s (streamed venue : list PositionSnapshot) : list Action * Supervisor :=
  let '((_, actions), s) := position_verdict s streamed venue in (actions, s).
Definition request_position_check s : Supervisor := set_times s (last_renew s) None.
Definition on_unresolved s : list Action * Supervisor :=
  let n := bump (unresolved s) in
  (if unresolved_limit s <=? n then [Halt TOO_MANY_UNKNOWN] else [Reconcile], set_counts s n (unreadable s)).
Definition on_resolved s : Supervisor := set_counts s 0 (unreadable s).
End Supervisor.

(** * What happens to it *)

Inductive Happening :=
| Tick (now : Z)
| Said (e : UserEvent)
| Disconnected
| ReadFailed
| ReadSucceeded
| Compared (streamed venue : list PositionSnapshot)
| CheckRequested
| Unresolved
| Resolved.

Definition happen (s : Supervisor) (h : Happening) : list Action * Supervisor :=
  match h with
  | Tick now => Supervisor.due s now
  | Said e => Supervisor.on_event s e
  | Disconnected => Supervisor.on_disconnect s
  | ReadFailed => Supervisor.on_read_failed s
  | ReadSucceeded => ([], Supervisor.on_read_succeeded s)
  | Compared a b => Supervisor.on_positions s a b
  | CheckRequested => ([], Supervisor.request_position_check s)
  | Unresolved => Supervisor.on_unresolved s
  | Resolved => ([], Supervisor.on_resolved s)
  end.
Fixpoint supervise (s : Supervisor) (hs : list Happening) : list (list Action) * Supervisor :=
  match hs with
  | [] => ([], s)
  | h :: hs => let '(a, s) := happen s h in let '(l, s) := supervise s hs in (a :: l, s)
  end.

(** ** The specification: three counts of what has happened *)

(** Comparisons that disagreed since the last that agreed; reads that failed
    since the last that did not; placements unresolved since the last that was. *)
Record Counts := mkCounts { differences : Z; failures : Z; unknowns : Z }.
Definition tol4 : spec_float := F64.of_decimal false 1 (-4).
Definition count_happening (c : Counts) (h : Happening) : Counts :=
  match h with
  | Compared a b => mkCounts (if views_agree a b tol4 then 0 else differences c + 1) (failures c) (unknowns c)
  | ReadFailed => mkCounts (differences c) (failures c + 1) (unknowns c)
  | ReadSucceeded => mkCounts (differences c) 0 (unknowns c)
  | Unresolved => mkCounts (differences c) (failures c) (unknowns c + 1)
  | Resolved => mkCounts (differences c) (failures c) 0
  | _ => c
  end.
(** What the counts call for, after the happening [h]. *)
Definition called_for (c : Counts) (h : Happening) : list Action :=
  match h with
  | Said Expired | Disconnected => [Reconnect; Reconcile]
  | ReadFailed => if failures c mod 5 =? 0 then [Reconnect; Reconcile] else []
  | Compared a b =>
      if views_agree a b tol4 || negb (differences c mod 3 =? 0) then []
      else if 9 <=? differences c then [Halt STILL_DISAGREES] else [Reconnect; Reconcile]
  | Unresolved => if 3 <=? unknowns c then [Halt TOO_MANY_UNKNOWN] else [Reconcile]
  | _ => []
  end.
Definition is_tick (h : Happening) : bool := match h with Tick _ => true | _ => false end.

(** The state of a supervisor, from the counts. *)
Record tracks (c : Counts) (s : Supervisor) : Prop := {
  tr_limits : unresolved_limit s = 3 ∧ unreadable_limit s = 5 ∧ condemned_limit s = 3;
  tr_health : threshold (health s) = 3 ∧ tolerance (health s) = tol4;
  tr_nonneg : 0 ≤ differences c ∧ 0 ≤ failures c ∧ 0 ≤ unknowns c;
  tr_consecutive : consecutive (health s) = differences c mod 3;
  tr_condemned : condemned s = Z.min U32_MAX (differences c / 3);
  tr_unreadable : unreadable s = failures c mod 5;
  tr_unresolved : unresolved s = Z.min U32_MAX (unknowns c);
}.

(** * The counts are what the supervisor keeps *)

(** A supervisor after a happening: its fields are read off, then compared. *)
Ltac fields := cbn [fst snd timings health last_renew last_check unresolved unresolved_limit unreadable unreadable_limit condemned
  condemned_limit threshold tolerance consecutive differences failures unknowns Supervisor.set_times Supervisor.set_counts
  Supervisor.set_health StreamHealth.reset].
Ltac tracked := split; fields; [split_and!; assumption | split_and!; assumption || reflexivity | split_and!; lia | try assumption; try reflexivity; try lia ..].

Lemma div3 d : 0 ≤ d → (d mod 3 = 2 → (d + 1) mod 3 = 0 ∧ (d + 1) / 3 = d / 3 + 1) ∧
  (d mod 3 ≠ 2 → (d + 1) mod 3 = d mod 3 + 1 ∧ (d + 1) / 3 = d / 3).
Proof. intros Hd. split; intros H; split; Z.div_mod_to_equations; lia. Qed.

Lemma tracks_new t : tracks (mkCounts 0 0 0) (Supervisor.new t).
Proof. by split. Qed.

Lemma compared_tracks c s a b : tracks c s → let c' := count_happening c (Compared a b) in
  (happen s (Compared a b)).1 = called_for c' (Compared a b) ∧ tracks c' (happen s (Compared a b)).2.
Proof.
  intros [(HU & HR & HC) (HT & Htol) (Hd & Hf & Hu) Hcons Hcond Hread Hunres].
  cbn [happen called_for count_happening]. unfold Supervisor.on_positions, Supervisor.position_verdict, StreamHealth.observe.
  rewrite Htol. destruct (views_agree a b tol4).
  { split; [reflexivity|]. fields. tracked. }
  cbn [differences orb]. rewrite Hcons, HT, HC.
  assert (bump (differences c mod 3) = differences c mod 3 + 1) as -> by (unfold bump; pose proof (Z.mod_pos_bound (differences c) 3); lia).
  destruct (div3 (differences c) Hd) as [H2 H1]. destruct (decide (differences c mod 3 = 2)) as [E|E].
  - destruct (H2 E) as [E1 E2]. rewrite E, E1. change (3 <=? 2 + 1) with true. change (0 =? 0) with true. cbn [negb].
    assert ((3 <=? bump (condemned s)) = (9 <=? differences c + 1)) as ->.
    { unfold bump. rewrite Hcond. destruct (Z.leb_spec 9 (differences c + 1)); [apply Z.leb_le|apply Z.leb_gt]; Z.div_mod_to_equations; lia. }
    split; [reflexivity|]. fields. tracked. unfold bump. rewrite Hcond, E2. lia.
  - destruct (H1 E) as [E1 E2]. pose proof (Z.mod_pos_bound (differences c) 3 ltac:(lia)).
    rewrite (proj2 (Z.leb_gt _ _)) by lia. cbn [fst snd]. rewrite E1, (proj2 (Z.eqb_neq _ _)) by lia.
    split; [reflexivity|]. fields. tracked.
Qed.

Lemma happen_tracks c s h : tracks c s → let c' := count_happening c h in
  (is_tick h = false → (happen s h).1 = called_for c' h) ∧ tracks c' (happen s h).2.
Proof.
  intros Ht. pose proof Ht as [(HU & HR & HC) (HT & Htol) (Hd & Hf & Hu) Hcons Hcond Hread Hunres]. destruct h; cbn [is_tick].
  - split; [discriminate|]. cbn [happen count_happening]. unfold Supervisor.due.
    destruct (elapsed (last_renew s) _ _); fields; destruct (elapsed _ _ _); fields; tracked.
  - cbn [happen count_happening]. split; [by destruct e|]. exact Ht.
  - split; [reflexivity|exact Ht].
  - cbn [happen count_happening called_for failures]. unfold Supervisor.on_read_failed. rewrite HR, Hread.
    pose proof (Z.mod_pos_bound (failures c) 5 ltac:(lia)). assert (bump (failures c mod 5) = failures c mod 5 + 1) as -> by (unfold bump; lia).
    destruct (Z.leb_spec 5 (failures c mod 5 + 1)) as [E|E].
    + assert ((failures c + 1) mod 5 = 0) as E0 by (Z.div_mod_to_equations; lia). rewrite E0. split; [reflexivity|]. fields. tracked.
    + assert ((failures c + 1) mod 5 = failures c mod 5 + 1) as E0 by (Z.div_mod_to_equations; lia).
      rewrite E0, (proj2 (Z.eqb_neq _ _)) by lia. split; [reflexivity|]. fields. tracked.
  - split; [reflexivity|]. cbn [happen count_happening]. unfold Supervisor.on_read_succeeded. fields. tracked.
  - destruct (compared_tracks c s streamed venue Ht) as [H1 H2]. split; [intros _; exact H1|exact H2].
  - split; [reflexivity|]. cbn [happen count_happening]. unfold Supervisor.request_position_check. fields. tracked.
  - cbn [happen count_happening called_for unknowns]. unfold Supervisor.on_unresolved. rewrite HU, Hunres.
    assert ((3 <=? bump (Z.min U32_MAX (unknowns c))) = (3 <=? unknowns c + 1)) as -> by (unfold bump; lia).
    split; [reflexivity|]. fields. tracked. unfold bump. lia.
  - split; [reflexivity|]. cbn [happen count_happening]. unfold Supervisor.on_resolved. fields. tracked.
Qed.

(** What each happening must give rise to; the clock's own work is apart. *)
Fixpoint expected (c : Counts) (hs : list Happening) : list (option (list Action)) :=
  match hs with
  | [] => []
  | h :: hs => let c := count_happening c h in (if is_tick h then None else Some (called_for c h)) :: expected c hs
  end.
Definition answers (out : list Action) (e : option (list Action)) : Prop := match e with Some a => out = a | None => True end.


(** ** Upkeep *)

(** After a turn of the clock, no renewal and no check is overdue. *)
Definition up_to_date (last : option Z) (now period : Z) : Prop := ∃ t, last = Some t ∧ (now = t ∨ sat64 (now - t) < period).
Lemma due_keeps_up s now : i64 (renew_every (timings s)) → i64 (check_every (timings s)) →
  let '(actions, s') := Supervisor.due s now in
  up_to_date (last_renew s') now (renew_every (timings s)) ∧ up_to_date (last_check s') now (check_every (timings s)) ∧
  (RenewKey ∈ actions ↔ elapsed (last_renew s) now (renew_every (timings s)) = true) ∧
  (CheckPositions ∈ actions ↔ elapsed (last_check s) now (check_every (timings s)) = true).
Proof.
  intros H1 H2. unfold Supervisor.due.
  assert (∀ last p, i64 p → elapsed last now p = false → up_to_date last now p) as Hup.
  { intros last p Hp. unfold elapsed, up_to_date. rewrite decide_True by done. destruct last as [t|]; [|done]. intros E.
    exists t. split; [done|]. right. lia. }
  destruct (elapsed (last_renew s) now _) eqn:E1; cbn [Supervisor.set_times timings last_check last_renew];
    destruct (elapsed (last_check s) now _) eqn:E2; cbn [Supervisor.set_times timings last_check last_renew app].
  all: split_and!; try (by apply Hup); try (exists now; split; [done|by left]).
  all: rewrite ?elem_of_cons, ?elem_of_nil; naive_solver.
Qed.

(** The text of the halt says that the stream was replaced three times; two
    replacements precede it. *)
Example two_replacements_precede_the_halt :
  let a := [mkPosition (text_of "S") BOTH (F64.of_int 1) [] [] F64.zero F64.zero] in
  (supervise (Supervisor.new Timings_default) (replicate 9 (Compared a []))).1 =
    [[]; []; [Reconnect; Reconcile]; []; []; [Reconnect; Reconcile]; []; []; [Halt STILL_DISAGREES]].
Proof. by vm_compute. Qed.

(** Any halt for a difference comes after nine comparisons in a row that
    disagreed: agreement starts the count again. *)
Lemma halt_needs_nine c a b : 0 ≤ differences c → Halt STILL_DISAGREES ∈ called_for (count_happening c (Compared a b)) (Compared a b) →
  views_agree a b tol4 = false ∧ 8 ≤ differences c.
Proof.
  cbn [called_for count_happening differences]. destruct (views_agree a b tol4); cbn [orb]; [by intros _ ?%elem_of_nil|].
  intros Hd H. split; [done|]. destruct (negb _); [by apply elem_of_nil in H|]. destruct (Z.leb_spec 9 (differences c + 1)); [lia|].
  rewrite !elem_of_cons, elem_of_nil in H. naive_solver.
Qed.
