(* ===== verification/Stream.v ===== *)
(** Listening to the venue ([oq-gateway/src/stream.rs], with [Opening] and
    [Handshake] of [exec.rs]): one event per call, silence that lasts is a
    disconnection, and no frame overtakes the login before it.

    The socket is a parameter: what each read of it gives is an input. *)

From stdpp Require Import strings.
From S2P Require Import Prelude Text Json.
#[local] Open Scope Z_scope.

(** * The reader *)

(** Durations and instants in nanoseconds. *)
Definition VENUE_PING_PERIOD : Z := 3 * 60 * 1000000000.
Definition DEFAULT_STALE_AFTER : Z := 10 * 60 * 1000000000.
Definition KEY_LIFETIME : Z := 60 * 60 * 1000000000.
Definition KEY_RENEWAL : Z := 20 * 60 * 1000000000.
Definition OPENING_READ_BUDGET : nat := 20.

(** What one read of the socket gives: a timed-out, would-block or interrupted
    read is [RNothing]. *)
Inductive SocketRead :=
| RText (s : text)
| RPingPong
| RClose (reason : option text)
| ROtherFrame
| RNothing
| RError (why : text).

Section reader.
Context {E : Type} (read_events : text → list E).

Inductive StreamOutcome := Event (e : E) | Ignored | Idle | Disconnected (why : text).
Record UserStreamReader := mkReader { last_message : Z; stale_after : Z; pending : list E }.
Implicit Types (r : UserStreamReader).

Definition touch r (now : Z) (p : list E) : UserStreamReader := mkReader now (stale_after r) p.
(** [elapsed] saturates at zero. *)
Definition silence_verdict (last now stale : Z) : option Z :=
  let silent := Z.max 0 (now - last) in if stale <? silent then Some silent else None.

(** [next]: the clock is read for the verdict, and again when something came.
    The socket is read only when nothing is pending and the silence is not too
    long. *)
Definition next r (now : Z) (socket : list SocketRead) (later : Z) : StreamOutcome * UserStreamReader * list SocketRead :=
  match pending r with
  | e :: p => (Event e, mkReader (last_message r) (stale_after r) p, socket)
  | [] =>
      match silence_verdict (last_message r) now (stale_after r) with
      | Some silent =>
          (Disconnected (text_of "silent for " ++ shown (silent / 1000000000) ++ text_of "s; presumed dead"), touch r later [], socket)
      | None =>
          let read := match socket with x :: _ => x | [] => RNothing end in
          let socket := tail socket in
          match read with
          | RText s =>
              match read_events s with
              | first :: events => (Event first, touch r later events, socket)
              | [] => (Ignored, touch r later [], socket)
              end
          | RPingPong | ROtherFrame => (Ignored, touch r later [], socket)
          | RClose reason => (Disconnected (default (text_of "closed by venue") reason), r, socket)
          | RNothing => (Idle, r, socket)
          | RError why => (Disconnected why, r, socket)
          end
      end
  end.

(** Call after call. *)
Fixpoint nexts r (socket : list SocketRead) (clock : list (Z * Z)) : list StreamOutcome * UserStreamReader * list SocketRead :=
  match clock with
  | [] => ([], r, socket)
  | (now, later) :: clock =>
      let '(o, r, socket) := next r now socket later in
      let '(os, r, socket) := nexts r socket clock in (o :: os, r, socket)
  end.

Definition event_of (o : StreamOutcome) : list E := match o with Event e => [e] | _ => [] end.
Definition events_of (x : SocketRead) : list E := match x with RText s => read_events s | _ => [] end.

(** Nothing the venue said is lost, repeated or overtaken: the events delivered
    and those still pending are those that were pending and those of the frames
    read since, in order. *)
Theorem events_are_delivered_in_order clock : ∀ r socket os r' socket', nexts r socket clock = (os, r', socket') →
  ∃ frames, socket = frames ++ socket' ∧
    flat_map event_of os ++ pending r' = pending r ++ flat_map events_of frames.
Proof.
  induction clock as [|[now later] clock IH]; intros r socket os r' socket' H; cbn [nexts] in H.
  { injection H as <- <- <-. exists []. by rewrite app_nil_r. }
  destruct (next r now socket later) as [[o r1] socket1] eqn:E1. destruct (nexts r1 socket1 clock) as [[os1 r2] socket2] eqn:E2.
  injection H as <- <- <-. destruct (IH _ _ _ _ _ E2) as (frames & -> & Hev).
  assert (∃ f, socket = f ++ frames ++ socket2 ∧ event_of o ++ pending r1 = pending r ++ flat_map events_of f) as (f & -> & Hf).
  { unfold next in E1. destruct (pending r) as [|e p] eqn:Ep.
    2: { injection E1 as <- <- <-. exists []. by rewrite app_nil_r. }
    destruct (silence_verdict _ _ _); [injection E1 as <- <- <-; by exists []|].
    destruct socket as [|x socket]; [injection E1 as <- <- Es; exists []; cbn in Es; by rewrite <-Es, Ep|].
    cbn [tail] in E1. exists [x]. cbn [flat_map]. rewrite app_nil_r.
    destruct x as [s| |reason| | |why]; cbn [events_of].
    1: destruct (read_events s) as [|e es]; injection E1 as <- <- <-; done.
    all: injection E1 as <- <- <-; cbn [event_of app]; done. }
  exists (f ++ frames). rewrite <-app_assoc. split; [done|]. cbn [flat_map].
  by rewrite <-app_assoc, Hev, app_assoc, Hf, flat_map_app, <-app_assoc.
Qed.

(** A link that only ever times out is condemned once its window has passed, and
    again a full window later; before that it is idle. *)
Lemma dead_link_is_condemned r now later : pending r = [] →
  next r now [] later =
    if stale_after r <? Z.max 0 (now - last_message r)
    then (Disconnected (text_of "silent for " ++ shown (Z.max 0 (now - last_message r) / 1000000000) ++ text_of "s; presumed dead"),
          mkReader later (stale_after r) [], [])
    else (Idle, r, []).
Proof. intros Hp. unfold next, silence_verdict. rewrite Hp. by destruct (_ <? _). Qed.
End reader.

(** The constants leave room for a lost ping and a failed renewal. *)
Lemma windows_have_margin : DEFAULT_STALE_AFTER >= 3 * VENUE_PING_PERIOD ∧ KEY_RENEWAL * 2 < KEY_LIFETIME.
Proof. by vm_compute. Qed.

(** * Opening a stream *)

Inductive Handshake := Confirmed | Refused | Unrelated.
#[export] Instance Handshake_eq_dec : EqDecision Handshake.
Proof. solve_decision. Defined.
Record Opening := mkOpening { frame : text; answer : option (text → Handshake) }.
Module Opening.
Definition sent (frame : text) : Opening := mkOpening frame None.
Definition awaited (frame : text) (answer : text → Handshake) : Opening := mkOpening frame (Some answer).
End Opening.

(** What went over the wire, in order. *)
Inductive WireEvent := WSent (frame : text) | WRead (r : result (option text) VenueError).
Definition NEVER_ANSWERED : text := text_of
  "the venue never answered the frame that opens this stream; a socket that is open but not logged in delivers silence, which reads as a quiet account".
Definition REFUSED : text := text_of "the venue refused the frame that opens this stream: ".

Section opening.
(** The socket: whether the [n]th send works, and what the [n]th read gives. *)
Context (sends : nat → result () VenueError) (reads : nat → result (option text) VenueError).
Implicit Types (log : list WireEvent).

Definition is_read (x : WireEvent) : bool := match x with WRead _ => true | WSent _ => false end.
Definition count_reads log : nat := length (List.filter is_read log).
Definition count_sends log : nat := length (List.filter (negb ∘ is_read) log).

(** The wait for one answer; [unread] is the budget less the reads so far. *)
Fixpoint await (unread : nat) (answer : text → Handshake) log : result () VenueError * list WireEvent :=
  match unread with
  | O => (Err (Transport NEVER_ANSWERED), log)
  | S unread =>
      let r := reads (count_reads log) in
      let log := log ++ [WRead r] in
      match r with
      | Err e => (Err e, log)
      | Ok None => await unread answer log
      | Ok (Some s) =>
          match answer s with
          | Confirmed => (Ok (), log)
          | Refused => (Err (Transport (REFUSED ++ s)), log)
          | Unrelated => await unread answer log
          end
      end
  end.
Fixpoint perform_opening (opening : list Opening) (budget : nat) log : result () VenueError * list WireEvent :=
  match opening with
  | [] => (Ok (), log)
  | step :: opening =>
      match sends (count_sends log) with
      | Err e => (Err e, log)
      | Ok _ =>
          let log := log ++ [WSent (frame step)] in
          match answer step with
          | None => perform_opening opening budget log
          | Some answer =>
              match await budget answer log with
              | (Ok _, log) => perform_opening opening budget log
              | (Err e, log) => (Err e, log)
              end
          end
      end
  end.

(** ** What was said before what *)

(** A read that leaves the wait going. *)
Definition goes_on (answer : text → Handshake) (x : WireEvent) : Prop :=
  match x with WRead (Ok None) => True | WRead (Ok (Some s)) => answer s = Unrelated | _ => False end.
(** The whole of one step that worked. *)
Definition step_done (step : Opening) (l : list WireEvent) : Prop :=
  match answer step with
  | None => l = [WSent (frame step)]
  | Some a => ∃ waits s, l = WSent (frame step) :: waits ++ [WRead (Ok (Some s))] ∧ Forall (goes_on a) waits ∧ a s = Confirmed
  end.

Lemma await_spec answer unread : ∀ log, ∃ waits last, (await unread answer log).2 = log ++ waits ++ last ∧ Forall (goes_on answer) waits ∧
  (length waits + length last ≤ unread)%nat ∧
  match (await unread answer log).1 with
  | Ok _ => ∃ s, last = [WRead (Ok (Some s))] ∧ answer s = Confirmed
  | Err _ => count_sends last = 0%nat
  end.
Proof.
  induction unread as [|unread IH]; intros log; cbn [await].
  { exists [], []. rewrite !app_nil_r. by split_and!; [|constructor|cbn|]. }
  set (r := reads (count_reads log)).
  assert (∀ x, goes_on answer (WRead x) → ∃ waits last, (await unread answer (log ++ [WRead x])).2 = log ++ waits ++ last ∧
    Forall (goes_on answer) waits ∧ (length waits + length last ≤ S unread)%nat ∧
    match (await unread answer (log ++ [WRead x])).1 with
    | Ok _ => ∃ s, last = [WRead (Ok (Some s))] ∧ answer s = Confirmed
    | Err _ => count_sends last = 0%nat
    end) as Hgo.
  { intros x Hx. destruct (IH (log ++ [WRead x])) as (waits & last & E & Hw & Hl & Hm). exists (WRead x :: waits), last.
    rewrite E. split_and!; [by rewrite <-app_assoc|by constructor|cbn; lia|done]. }
  destruct r as [[s|]|e].
  - destruct (answer s) eqn:Ea.
    + exists [], [WRead (Ok (Some s))]. split_and!; [done|constructor|cbn; lia|by exists s].
    + exists [], [WRead (Ok (Some s))]. split_and!; [done|constructor|cbn; lia|done].
    + by apply Hgo.
  - by apply Hgo.
  - exists [], [WRead (Err e)]. split_and!; [done|constructor|cbn; lia|done].
Qed.

(** A frame is sent only when every frame before it that awaits an answer was
    confirmed, with nothing refused in between: the log is the steps that were
    done, whole and in order, and then, when the opening fails, at most the one
    that failed, whose frame is the last that was sent. *)
Theorem no_frame_overtakes_its_login budget opening : ∀ log, ∃ parts rest,
  (perform_opening opening budget log).2 = log ++ mjoin parts ++ rest ∧
  Forall2 step_done (take (length parts) opening) parts ∧
  match (perform_opening opening budget log).1 with
  | Ok _ => rest = [] ∧ length parts = length opening
  | Err _ => (length parts < length opening)%nat ∧ (count_sends rest ≤ 1)%nat ∧ (length rest ≤ 1 + budget)%nat
  end.
Proof.
  induction opening as [|step opening IH]; intros log; cbn [perform_opening].
  { exists [], []. split_and!; [by rewrite !app_nil_r|constructor|done]. }
  destruct (sends (count_sends log)) as [u|e].
  2: { exists [], []. split_and!; [by rewrite !app_nil_r|constructor|]. cbn. lia. }
  assert (∀ l, step_done step l → ∃ parts rest,
    (perform_opening opening budget (log ++ l)).2 = log ++ mjoin parts ++ rest ∧
    Forall2 step_done (take (length parts) (step :: opening)) parts ∧
    match (perform_opening opening budget (log ++ l)).1 with
    | Ok _ => rest = [] ∧ length parts = length (step :: opening)
    | Err _ => (length parts < length (step :: opening))%nat ∧ (count_sends rest ≤ 1)%nat ∧ (length rest ≤ 1 + budget)%nat
    end) as Hgo.
  { intros l Hl. destruct (IH (log ++ l)) as (parts & rest & E & Hp & Hm). exists (l :: parts), rest. split_and!.
    - rewrite E. cbn [mjoin list_join]. by rewrite <-!app_assoc.
    - cbn [length take]. by constructor.
    - destruct (perform_opening opening budget (log ++ l)).1; cbn [length]; [naive_solver lia|lia]. }
  destruct (answer step) as [a|] eqn:Ea.
  - destruct (await_spec a budget (log ++ [WSent (frame step)])) as (waits & last & E & Hw & Hl & Hm).
    destruct (await budget a (log ++ [WSent (frame step)])) as [[u'|e] log'] eqn:Eaw; cbn [fst snd] in *; subst log'.
    + destruct Hm as (s & -> & Hs). rewrite <-app_assoc. apply Hgo. unfold step_done. rewrite Ea. exists waits, s. done.
    + exists [], (WSent (frame step) :: waits ++ last). cbn [mjoin list_join app]. split_and!.
      * by rewrite <-app_assoc.
      * constructor.
      * cbn [length]. lia.
      * unfold count_sends in *. cbn [List.filter compose is_read negb length]. rewrite List.filter_app, length_app.
        assert (List.filter (negb ∘ is_read) waits = []) as ->; [|cbn [length]; lia].
        clear -Hw. induction Hw as [|x waits Hx _ IHw]; [done|]. cbn [List.filter]. unfold compose. by destruct x.
      * cbn [length]. rewrite length_app. lia.
  - apply Hgo. unfold step_done. by rewrite Ea.
Qed.
End opening.

(** A login answered after an unrelated message and a silence, then a
    subscription; and a login that is refused. *)
Definition login_answer (s : text) : Handshake :=
  if bool_decide (s = text_of "ok") then Confirmed else if bool_decide (s = text_of "no") then Refused else Unrelated.
Example openings :
  let steps := [Opening.awaited (text_of "login") login_answer; Opening.sent (text_of "subscribe")] in
  let run reads := perform_opening (λ _, Ok ()) (λ n, nth n reads (Ok None)) steps 3 [] in
  (run [Ok (Some (text_of "hello")); Ok None; Ok (Some (text_of "ok"))]).1 = Ok () ∧
  (run [Ok (Some (text_of "no"))]) =
    (Err (Transport (REFUSED ++ text_of "no")), [WSent (text_of "login"); WRead (Ok (Some (text_of "no")))]) ∧
  (run []).1 = Err (Transport NEVER_ANSWERED) ∧ count_sends (run []).2 = 1%nat.
Proof. by vm_compute. Qed.
