(* ===== verification/Frame.v ===== *)
(** The on-disk record ([oq-journal/src/frame.rs]): magic, version, kind,
    sequence number, length, payload, checksum. *)

From S2P Require Import Prelude Bytes Crc.

Definition HEADER_LEN : nat := 20.
Definition TRAILER_LEN : nat := 4.
Definition FRAMING_LEN : nat := (HEADER_LEN + TRAILER_LEN)%nat.
(** [OQRJ], little-endian. *)
Definition MAGIC : Z := unle [79; 81; 82; 74].
Definition VERSION : Z := 1.
(** 16 MiB. *)
Definition MAX_PAYLOAD : Z := 16 * 1024 * 1024.

Record Frame := mkFrame { fr_seq : Z; fr_kind : Z; fr_payload : list Z }.

Inductive FrameError :=
| Incomplete (needed available : nat)
| BadMagic (found : Z)
| UnknownVersion (found : Z)
| LengthOutOfRange (found : Z)
| ChecksumMismatch (expected computed : Z).

#[export] Instance Frame_eq_dec : EqDecision Frame.
Proof. solve_decision. Defined.
#[export] Instance FrameError_eq_dec : EqDecision FrameError.
Proof. solve_decision. Defined.

Module Frame.
Definition encoded_len (f : Frame) : nat := (FRAMING_LEN + length (fr_payload f))%nat.

(** Everything the checksum covers: [\[4, 20 + len)]. *)
Definition body (f : Frame) : list Z :=
  le 2 VERSION ++ le 2 (fr_kind f) ++ le 8 (fr_seq f) ++ le 4 (Z.of_nat (length (fr_payload f))) ++ fr_payload f.

(** The assertion on the payload's size is a panic. *)
Definition encode (f : Frame) : run (list Z) :=
  if Z.of_nat (length (fr_payload f)) <=? MAX_PAYLOAD then
    mret (le 4 MAGIC ++ body f ++ le 4 (crc32 (body f)))
  else Panic.

Definition decode (bs : list Z) : run (result (Frame * nat) FrameError) :=
  if (length bs <? HEADER_LEN)%nat then mret (Err (Incomplete HEADER_LEN (length bs)))
  else
    magic ← unle <$> slice_ix 0 4 bs;
    if negb (magic =? MAGIC) then mret (Err (BadMagic magic))
    else
      version ← unle <$> slice_ix 4 2 bs;
      if negb (version =? VERSION) then mret (Err (UnknownVersion version))
      else
        kind ← unle <$> slice_ix 6 2 bs;
        seq ← unle <$> slice_ix 8 8 bs;
        len ← unle <$> slice_ix 16 4 bs;
        if MAX_PAYLOAD <? len then mret (Err (LengthOutOfRange len))
        else
          let total := (FRAMING_LEN + Z.to_nat len)%nat in
          if (length bs <? total)%nat then mret (Err (Incomplete total (length bs)))
          else
            let payload_end := (HEADER_LEN + Z.to_nat len)%nat in
            expected ← unle <$> slice_ix payload_end 4 bs;
            computed ← crc32 <$> slice_ix 4 (payload_end - 4) bs;
            if negb (computed =? expected) then mret (Err (ChecksumMismatch expected computed))
            else
              payload ← slice_ix HEADER_LEN (payload_end - HEADER_LEN) bs;
              mret (Ok (mkFrame seq kind payload, total)).
End Frame.

(** * Well-formed records *)

Record frame_ok (f : Frame) : Prop := {
  fr_kind_ok : u16 (fr_kind f);
  fr_seq_ok : u64 (fr_seq f);
  fr_bytes_ok : bytes (fr_payload f);
  fr_len_ok : Z.of_nat (length (fr_payload f)) ≤ MAX_PAYLOAD;
}.

(** What a well-formed record looks like on disk. *)
Definition image (f : Frame) : list Z := le 4 MAGIC ++ Frame.body f ++ le 4 (crc32 (Frame.body f)).

Lemma encode_image f : frame_ok f → Frame.encode f = Ret (image f).
Proof. intros Hf. unfold Frame.encode. by rewrite (proj2 (Z.leb_le _ _)) by apply Hf. Qed.

Lemma length_image f : length (image f) = Frame.encoded_len f.
Proof.
  unfold image, Frame.body, Frame.encoded_len, FRAMING_LEN, HEADER_LEN, TRAILER_LEN.
  rewrite !length_app, !length_le. lia.
Qed.

Lemma body_bytes f : frame_ok f → bytes (Frame.body f).
Proof. intros Hf. unfold Frame.body, bytes. rewrite !Forall_app. split_and!; try apply le_bytes. apply Hf. Qed.

Lemma image_bytes f : frame_ok f → bytes (image f).
Proof.
  intros Hf. unfold image, bytes. rewrite !Forall_app. split_and!; try apply le_bytes. by apply body_bytes.
Qed.

(** * What decoding does, field by field *)

Definition header (m v k s n : Z) : list Z := le 4 m ++ le 2 v ++ le 2 k ++ le 8 s ++ le 4 n.

Definition parse (m v k s n : Z) (rest : list Z) : result (Frame * nat) FrameError :=
  if negb (m =? MAGIC) then Err (BadMagic m)
  else if negb (v =? VERSION) then Err (UnknownVersion v)
  else if MAX_PAYLOAD <? n then Err (LengthOutOfRange n)
  else
    let len := Z.to_nat n in
    if (length rest <? len + 4)%nat then Err (Incomplete (FRAMING_LEN + len) (HEADER_LEN + length rest))
    else
      let payload := take len rest in
      let expected := unle (take 4 (drop len rest)) in
      let computed := crc32 (le 2 v ++ le 2 k ++ le 8 s ++ le 4 n ++ payload) in
      if negb (computed =? expected) then Err (ChecksumMismatch expected computed)
      else Ok (mkFrame s k payload, (FRAMING_LEN + len)%nat).

Lemma length_header m v k s n : length (header m v k s n) = HEADER_LEN.
Proof. unfold header. by rewrite !length_app, !length_le. Qed.

Lemma decode_fields m v k s n rest : u32 m → u16 v → u16 k → u64 s → u32 n →
  Frame.decode (header m v k s n ++ rest) = Ret (parse m v k s n rest).
Proof.
  intros Hm Hv Hk Hs Hn. unfold Frame.decode. rewrite length_app, length_header.
  rewrite (proj2 (Nat.ltb_ge _ _)) by lia. unfold slice_ix.
  assert (slice 0 4 (header m v k s n ++ rest) = Some (le 4 m) ∧
    slice 4 2 (header m v k s n ++ rest) = Some (le 2 v) ∧ slice 6 2 (header m v k s n ++ rest) = Some (le 2 k) ∧
    slice 8 8 (header m v k s n ++ rest) = Some (le 8 s) ∧ slice 16 4 (header m v k s n ++ rest) = Some (le 4 n))
    as (-> & -> & -> & -> & ->).
  { unfold header. rewrite <-!(assoc_L (++)). by split_and!; rd. }
  cbn [expect mbind run_bind fmap run_fmap]. rewrite unle_u32, !unle_u16, unle_u64, unle_u32 by done.
  unfold parse. destruct (negb (m =? MAGIC)); [done|]. destruct (negb (v =? VERSION)); [done|].
  destruct (MAX_PAYLOAD <? n) eqn:El; [done|]. unfold FRAMING_LEN, HEADER_LEN, TRAILER_LEN in *.
  set (len := Z.to_nat n). destruct (Nat.ltb_spec (20 + length rest) (20 + 4 + len)) as [Hlt|Hge].
  { by rewrite (proj2 (Nat.ltb_lt _ _)) by lia. }
  rewrite (proj2 (Nat.ltb_ge _ _)) by lia.
  set (p := take len rest). set (c := take 4 (drop len rest)).
  assert (length p = len) as Hp by (unfold p; rewrite length_take; lia).
  assert (length c = 4%nat) as Hc by (unfold c; rewrite length_take, length_drop; lia).
  assert (rest = p ++ c ++ drop 4 (drop len rest)) as Er by (unfold p, c; by rewrite !take_drop).
  set (tl := drop 4 (drop len rest)) in Er. clearbody p c tl. subst rest.
  pose proof (length_header m v k s n) as HL. unfold HEADER_LEN in HL.
  assert (slice (20 + len) 4 (header m v k s n ++ p ++ c ++ tl) = Some c) as ->.
  { rewrite (assoc_L (++)). apply slice_cover; [rewrite length_app; lia|done]. }
  assert (slice 4 (20 + len - 4) (header m v k s n ++ p ++ c ++ tl) =
    Some (le 2 v ++ le 2 k ++ le 8 s ++ le 4 n ++ p)) as ->.
  { unfold header. replace ((le 4 m ++ le 2 v ++ le 2 k ++ le 8 s ++ le 4 n) ++ p ++ c ++ tl)
      with (le 4 m ++ (le 2 v ++ le 2 k ++ le 8 s ++ le 4 n ++ p) ++ c ++ tl) by (by rewrite <-!(assoc_L (++))).
    apply slice_cover; [apply length_le|]. rewrite !length_app, !length_le. lia. }
  assert (slice 20 (20 + len - 20) (header m v k s n ++ p ++ c ++ tl) = Some p) as ->
    by (apply slice_cover; [done|lia]).
  cbn [expect mbind run_bind fmap run_fmap]. by destruct (negb _).
Qed.

(** Every buffer of at least a header is of that form. *)
Lemma header_split bs : bytes bs → (HEADER_LEN ≤ length bs)%nat →
  ∃ m v k s n rest, bs = header m v k s n ++ rest ∧ u32 m ∧ u16 v ∧ u16 k ∧ u64 s ∧ u32 n ∧ bytes rest.
Proof.
  unfold HEADER_LEN. intros Hb Hl.
  destruct (split_field 4 bs) as (m & b1 & -> & Hm & H1); [done|lia|]. rewrite length_app, length_le in Hl.
  destruct (split_field 2 b1) as (v & b2 & -> & Hv & H2); [done|lia|]. rewrite length_app, length_le in Hl.
  destruct (split_field 2 b2) as (k & b3 & -> & Hk & H3); [done|lia|]. rewrite length_app, length_le in Hl.
  destruct (split_field 8 b3) as (s & b4 & -> & Hs & H4); [done|lia|]. rewrite length_app, length_le in Hl.
  destruct (split_field 4 b4) as (n & rest & -> & Hn & H5); [done|lia|].
  exists m, v, k, s, n, rest. split; [unfold header; by rewrite <-!(assoc_L (++))|].
  simpl in *. split_and!; try done; mlia.
Qed.

(** Decoding never panics. *)
Lemma decode_returns bs : bytes bs → ∃ r, Frame.decode bs = Ret r.
Proof.
  intros Hb. destruct (Nat.ltb_spec (length bs) HEADER_LEN) as [Hl|Hl].
  - unfold Frame.decode. rewrite (proj2 (Nat.ltb_lt _ _)) by done. eauto.
  - destruct (header_split bs Hb Hl) as (m & v & k & s & n & rest & -> & Hm & Hv & Hk & Hs & Hn & _).
    rewrite decode_fields by done. eauto.
Qed.

Lemma decode_short bs : (length bs < HEADER_LEN)%nat →
  Frame.decode bs = Ret (Err (Incomplete HEADER_LEN (length bs))).
Proof. intros. unfold Frame.decode. by rewrite (proj2 (Nat.ltb_lt _ _)). Qed.

Lemma image_split f tl : image f ++ tl =
  header MAGIC VERSION (fr_kind f) (fr_seq f) (Z.of_nat (length (fr_payload f))) ++
    fr_payload f ++ le 4 (crc32 (Frame.body f)) ++ tl.
Proof. unfold image, Frame.body, header. by rewrite <-!(assoc_L (++)). Qed.

Lemma magic_u32 : u32 MAGIC.
Proof. by vm_compute. Qed.
Lemma version_u16 : u16 VERSION.
Proof. by vm_compute. Qed.

Lemma payload_len_u32 f : frame_ok f → u32 (Z.of_nat (length (fr_payload f))).
Proof. intros [_ _ _ H]. unfold MAX_PAYLOAD in H. mlia. Qed.

Lemma decode_image f tl : frame_ok f → Frame.decode (image f ++ tl) = Ret (Ok (f, length (image f))).
Proof.
  intros Hf. pose proof Hf as [Hk Hs Hb Hl]. rewrite image_split.
  rewrite decode_fields by (try done; try apply magic_u32; try apply version_u16; by apply payload_len_u32).
  unfold parse. rewrite !Z.eqb_refl, (proj2 (Z.ltb_ge _ _)) by done. cbn [negb]. rewrite Nat2Z.id.
  rewrite !length_app, length_le. rewrite (proj2 (Nat.ltb_ge _ _)) by lia.
  rewrite take_app_length, drop_app_length. rewrite (take_app_length' _ _ 4) by (by rewrite length_le).
  fold (Frame.body f). change (le 2 VERSION ++ _) with (Frame.body f).
  rewrite unle_u32, Z.eqb_refl by by apply crc_u32, body_bytes. cbn [negb].
  rewrite length_image. by destruct f.
Qed.

(** What decodes is an image: decoding is the inverse on whole records. *)
Lemma decode_inv bs f n : bytes bs → Frame.decode bs = Ret (Ok (f, n)) →
  frame_ok f ∧ n = length (image f) ∧ ∃ tl, bs = image f ++ tl.
Proof.
  intros Hb H. destruct (Nat.ltb_spec (length bs) HEADER_LEN) as [Hl|Hl].
  { by rewrite decode_short in H. }
  destruct (header_split bs Hb Hl) as (m & v & k & s & len & rest & -> & Hm & Hv & Hk & Hs & Hn & Hr).
  rewrite decode_fields in H by done. unfold parse in H.
  destruct (Z.eqb_spec m MAGIC) as [->|]; [|done]. destruct (Z.eqb_spec v VERSION) as [->|]; [|done]. cbn [negb] in H.
  destruct (Z.ltb_spec MAX_PAYLOAD len) as [|HM]; [done|].
  destruct (Nat.ltb_spec (length rest) (Z.to_nat len + 4)) as [|Hrl]; [done|].
  destruct (Z.eqb_spec (crc32 (le 2 VERSION ++ le 2 k ++ le 8 s ++ le 4 len ++ take (Z.to_nat len) rest))
    (unle (take 4 (drop (Z.to_nat len) rest)))) as [Ec|]; [|done]. cbn [negb] in H.
  injection H as <- <-. set (p := take (Z.to_nat len) rest) in *.
  assert (length p = Z.to_nat len) as Hp by (unfold p; rewrite length_take; lia).
  assert (Z.of_nat (length p) = len) as Hpl by (unfold u32 in Hn; lia).
  set (f := mkFrame s k p). assert (frame_ok f) as Hf.
  { split; simpl; try done; [by apply Forall_take|lia]. }
  split; [done|]. split; [rewrite length_image; unfold Frame.encoded_len; simpl; lia|].
  exists (drop 4 (drop (Z.to_nat len) rest)). rewrite image_split. unfold f at 1 2 3 4. cbn [fr_payload fr_kind fr_seq]. rewrite Hpl. apply (f_equal (app _)).
  assert (Frame.body f = le 2 VERSION ++ le 2 k ++ le 8 s ++ le 4 len ++ p) as Eb
    by (unfold Frame.body, f; cbn [fr_payload fr_kind fr_seq]; by rewrite Hpl).
  rewrite Eb, Ec.
  assert (length (take 4 (drop (Z.to_nat len) rest)) = 4%nat) as H4 by (rewrite length_take, length_drop; lia).
  set (c := take 4 (drop (Z.to_nat len) rest)) in *.
  assert (le 4 (unle c) = c) as ->.
  { apply le_unle_at; [by apply Forall_take, Forall_drop|done]. }
  unfold p, c. by rewrite !take_drop.
Qed.

(** A record cut short, anywhere, is incomplete and nothing else. *)
Lemma decode_prefix f j : frame_ok f → (j < length (image f))%nat →
  ∃ needed, Frame.decode (take j (image f)) = Ret (Err (Incomplete needed j)).
Proof.
  intros Hf Hj. pose proof Hf as [Hk Hs Hb Hl]. destruct (Nat.ltb_spec j HEADER_LEN) as [Hs20|Hs20].
  - exists HEADER_LEN. rewrite decode_short by (rewrite length_take; lia). rewrite length_take. repeat f_equal. lia.
  - rewrite <-(app_nil_r (image f)), image_split, app_nil_r.
    rewrite take_app_ge by (rewrite length_header; lia).
    rewrite decode_fields by (try done; try apply magic_u32; try apply version_u16; by apply payload_len_u32).
    unfold parse. rewrite !Z.eqb_refl, (proj2 (Z.ltb_ge _ _)) by done. cbn [negb]. rewrite Nat2Z.id, length_header.
    rewrite length_image in Hj. unfold Frame.encoded_len, FRAMING_LEN, HEADER_LEN, TRAILER_LEN in *.
    rewrite (proj2 (Nat.ltb_lt _ _)) by (rewrite length_take, length_app, length_le; lia).
    eexists. rewrite length_take, length_app, length_le. do 3 f_equal. lia.
Qed.

(** * Damage *)

Implicit Types (d bs tl : list Z) (f : Frame).

(** The checksum of a record and its checksum is always the same. *)
Lemma image_residue f : frame_ok f → crc32 (drop 4 (image f)) = residue.
Proof.
  intros Hf. unfold image. rewrite drop_app_length' by by rewrite length_le. by apply crc_residue, body_bytes.
Qed.

(** Two whole records of one length that differ in a burst are the same. *)
Lemma burst_same f g j d : frame_ok f → frame_ok g → bytes d → (length d ≤ 4)%nat →
  (j + length d ≤ length (image f))%nat → patch j d (image f) = image g → image g = image f.
Proof.
  intros Hf Hg Hd H4 Hj E. pose proof (image_residue g Hg) as Rg. rewrite <-(image_residue f Hf), <-E in Rg.
  assert (bytes (drop 4 (image f))) as Hb by (by apply Forall_drop, image_bytes).
  assert (drop 4 (image g) = drop 4 (image f)) as Ed.
  { rewrite <-E. destruct (Nat.le_ge_cases 4 j).
    - rewrite drop_patch in Rg |- * by lia. apply burst_detected; try done. rewrite length_drop. lia.
    - rewrite drop_patch_over in Rg |- * by lia.
      apply burst_detected; try done; [by apply Forall_drop|rewrite length_drop; lia|rewrite !length_drop].
      pose proof (length_image f). unfold Frame.encoded_len, FRAMING_LEN, HEADER_LEN, TRAILER_LEN in *. lia. }
  rewrite <-(take_drop 4 (image g)), <-(take_drop 4 (image f)), Ed. by f_equal.
Qed.

(** Where the length of the payload is stored. *)
Definition LEN_AT : nat := 16.

Lemma patch_is_refused f (j : nat) d tl
    (Hf : frame_ok f) (Hd : bytes d) (Htl : bytes tl) (H4 : (length d ≤ 4)%nat)
    (Hj : (j + length d ≤ length (image f))%nat)
    (Hlen : (j + length d ≤ LEN_AT)%nat ∨ (LEN_AT + 4 ≤ j)%nat)
    (Hne : patch j d (image f) ≠ image f) :
  ∃ e, Frame.decode (patch j d (image f) ++ tl) = Ret (Err e) ∧
    match e with
    | Incomplete _ _ | LengthOutOfRange _ => False
    | BadMagic _ => (j < 4)%nat
    | UnknownVersion _ => (j < 6)%nat
    | ChecksumMismatch _ _ => True
    end.
Proof.
  pose proof (image_bytes f Hf) as Hib. pose proof Hf as [_ _ _ HM]. pose proof (length_image f) as Hil.
  unfold Frame.encoded_len, FRAMING_LEN, HEADER_LEN, TRAILER_LEN, LEN_AT in *.
  set (p := patch j d (image f)) in *.
  assert (length p = length (image f)) as Hpl by by apply length_patch.
  assert (bytes p) as Hpb by by apply patch_bytes.
  destruct (header_split (p ++ tl)) as (m & v & k & s & n & rest & E & Hm & Hv & Hk & Hs & Hn & Hr);
    [by apply Forall_app_2|unfold HEADER_LEN; rewrite length_app; lia|].
  assert (∀ i x, (i + x ≤ j)%nat ∨ (j + length d ≤ i)%nat → (i + x ≤ length (image f))%nat →
    slice i x (p ++ tl) = slice i x (image f ++ tl)) as Hsame.
  { intros i x Hi Hx. rewrite !slice_app_l by lia. destruct Hi; [by apply patch_slice_before|by apply patch_slice_after]. }
  assert (slice 16 4 (p ++ tl) = Some (le 4 n)) as Hn1
    by (rewrite E; unfold header; rewrite <-!(assoc_L (++)); by rd).
  assert (slice 16 4 (image f ++ tl) = Some (le 4 (Z.of_nat (length (fr_payload f))))) as Hn2
    by (rewrite image_split; unfold header; rewrite <-!(assoc_L (++)); by rd).
  rewrite Hsame, Hn2 in Hn1 by lia. apply (inj Some) in Hn1. apply (f_equal unle) in Hn1.
  rewrite !unle_u32 in Hn1 by (try done; by apply payload_len_u32). subst n.
  rewrite E, decode_fields by done. unfold parse.
  destruct (Z.eqb_spec m MAGIC) as [->|Hmm]; cbn [negb].
  2: { eexists. split; [done|]. destruct (Nat.lt_ge_cases j 4) as [|Hge]; [done|]. destruct Hmm.
    assert (slice 0 4 (p ++ tl) = Some (le 4 m)) as H1 by (rewrite E; unfold header; rewrite <-!(assoc_L (++)); by rd).
    rewrite Hsame in H1 by lia. rewrite image_split in H1. unfold header in H1. rewrite <-!(assoc_L (++)), slice_hit_le in H1.
    apply (inj Some) in H1. apply (f_equal unle) in H1. by rewrite !unle_u32 in H1. }
  destruct (Z.eqb_spec v VERSION) as [->|Hvv]; cbn [negb].
  2: { eexists. split; [done|]. destruct (Nat.lt_ge_cases j 6) as [|Hge]; [done|]. destruct Hvv.
    assert (slice 4 2 (p ++ tl) = Some (le 2 v)) as H1 by (rewrite E; unfold header; rewrite <-!(assoc_L (++)); by rd).
    rewrite Hsame in H1 by lia. rewrite image_split in H1. unfold header in H1. rewrite <-!(assoc_L (++)) in H1. 
    revert H1. rd. intros H1%(inj Some). apply (f_equal unle) in H1. by rewrite !unle_u16 in H1. }
  assert (∀ g, parse MAGIC VERSION k s (Z.of_nat (length (fr_payload f))) rest ≠ Ok g) as Hno.
  { intros [g x] Hg. pose proof (decode_fields MAGIC VERSION k s _ rest Hm Hv Hk Hs Hn) as Hd'.
    rewrite Hg, <-E in Hd'. apply decode_inv in Hd' as (Hgok & _ & tl' & Eg); [|by apply Forall_app_2].
    assert (slice 16 4 (p ++ tl) = Some (le 4 (Z.of_nat (length (fr_payload g))))) as Hn3
      by (rewrite Eg, image_split; unfold header; rewrite <-!(assoc_L (++)); by rd).
    rewrite Hsame, Hn2 in Hn3 by lia. apply (inj Some), (f_equal unle) in Hn3.
    rewrite !unle_u32 in Hn3 by by apply payload_len_u32.
    assert (length p = length (image g)) as Hlg by (rewrite Hpl, !length_image; unfold Frame.encoded_len; lia).
    apply app_inj_1 in Eg as [Eg _]; [|done]. apply Hne. rewrite Eg. by apply (burst_same f g j d). }
  unfold parse in Hno. rewrite !Z.eqb_refl in Hno. cbn [negb] in Hno.
  rewrite (proj2 (Z.ltb_ge _ _)) in Hno |- * by done. rewrite Nat2Z.id in Hno |- *.
  assert (length rest = (length (fr_payload f) + 4 + length tl)%nat) as Hlr.
  { apply (f_equal length) in E. rewrite !length_app, length_header in E. unfold HEADER_LEN in E. lia. }
  rewrite (proj2 (Nat.ltb_ge _ _)) in Hno |- * by lia.
  destruct (negb _); [by eexists|]. by destruct (Hno _ eq_refl).
Qed.

(** Damage is reported as damage.  Overwrite up to four consecutive bytes
    of a whole record, anywhere but in its length field: the reader does not
    accept the result as a record, and it does not take it for the torn tail
    of a writer that died; it names the field that is wrong or the checksum
    that does not match. *)
Theorem damage_is_reported f (j : nat) d tl
    (Hf : frame_ok f) (Hd : bytes d) (Htl : bytes tl) (H4 : (length d ≤ 4)%nat)
    (Hj : (j + length d ≤ length (image f))%nat)
    (Hlen : (j + length d ≤ LEN_AT)%nat ∨ (LEN_AT + 4 ≤ j)%nat)
    (Hne : patch j d (image f) ≠ image f) :
  ∃ e, Frame.decode (patch j d (image f) ++ tl) = Ret (Err e) ∧
    match e with
    | Incomplete _ _ | LengthOutOfRange _ => False
    | BadMagic _ => (j < 4)%nat
    | UnknownVersion _ => (j < 6)%nat
    | ChecksumMismatch _ _ => True
    end.
Proof. by apply patch_is_refused. Qed.

Definition demo_frame : Frame := mkFrame 7 1 [10; 20; 30].

Lemma demo_frame_ok : frame_ok demo_frame.
Proof. split; try (by vm_compute). unfold bytes; simpl. repeat constructor; mlia. Qed.

Lemma damage_is_reported_witness :
  ∃ e, Frame.decode (patch 20 [11; 21] (image demo_frame) ++ []) = Ret (Err e).
Proof.
  destruct (damage_is_reported demo_frame 20 [11; 21] [] demo_frame_ok) as (e & H & _).
  - unfold bytes. repeat constructor; mlia.
  - apply Forall_nil_2.
  - simpl. lia.
  - rewrite length_image. unfold Frame.encoded_len, FRAMING_LEN, HEADER_LEN, TRAILER_LEN. simpl. lia.
  - right. unfold LEN_AT. lia.
  - vm_compute. discriminate.
  - exists e. exact H.
Defined.
