(* ===== verification/Journal.v ===== *)
(** The journal ([oq-journal/src/reader.rs] and [writer.rs]): replay, the torn
    tail of a writer that died, and appending where it left off.

    A file is a list of bytes.  What the operating system does with a write is
    an argument of the operation ([Io]): it succeeds, or it fails after some of
    the bytes. *)

From S2P Require Import Prelude Bytes Crc Frame.

Implicit Types (f : Frame) (fs : list Frame) (bs : list Z).

Inductive JournalError :=
| JIo
| Corrupt (at_offset : nat) (cause : FrameError)
| SequenceGap (expected found : Z)
| AlreadyOpen
| Broken
| SequenceExhausted.

#[export] Instance JournalError_eq_dec : EqDecision JournalError.
Proof. solve_decision. Defined.

(** * Reading *)

Inductive ReplayStop := Clean | TornTail (offset bytes : nat).

#[export] Instance ReplayStop_eq_dec : EqDecision ReplayStop.
Proof. solve_decision. Defined.

Record Replay := mkReplay { frames : list Frame; stop : ReplayStop; next_seq : Z }.

Definition since (r : Replay) (from : Z) : list Frame := filter (λ f, from ≤ fr_seq f) (frames r).

(** [bytes.windows(n).position(|w| w == anchor)]. *)
Fixpoint window_position (anchor bs : list Z) : option nat :=
  if (length bs <? length anchor)%nat then None
  else if bool_decide (take (length anchor) bs = anchor) then Some 0%nat
  else match bs with [] => None | _ :: bs => S <$> window_position anchor bs end.

(** The resynchronization scan.  Every turn moves [search] forward, so the
    length of the file is fuel enough. *)
Fixpoint frame_follows_loop (fuel : nat) (bs : list Z) (search : nat) : run bool :=
  match fuel with
  | O => OutOfFuel
  | S fuel =>
      if (search + 4 <=? length bs)%nat then
        match window_position (le 4 MAGIC) (drop search bs) with
        | None => mret false
        | Some hit =>
            let at_ := (search + hit)%nat in
            r ← Frame.decode (drop at_ bs);
            match r with
            | Ok _ => mret true
            | Err _ => frame_follows_loop fuel bs (S at_)
            end
        end
      else mret false
  end.
Definition frame_follows bs (from : nat) : run bool := frame_follows_loop (S (length bs)) bs from.

Definition is_incomplete (e : FrameError) : bool := match e with Incomplete _ _ => true | _ => false end.

(** Every whole record takes at least one byte: the same fuel is enough. *)
Fixpoint replay_loop (fuel : nat) (bs : list Z) (offset : nat) (acc : list Frame) (expected : option Z)
    : run (result Replay JournalError) :=
  match fuel with
  | O => OutOfFuel
  | S fuel =>
      if (offset =? length bs)%nat then mret (Ok (mkReplay acc Clean (default 0 expected)))
      else
        r ← Frame.decode (drop offset bs);
        match r with
        | Ok (f, used) =>
            match expected with
            | Some e =>
                if fr_seq f =? e then
                  match checked u64 (fr_seq f + 1) with
                  | Some n => replay_loop fuel bs (offset + used) (acc ++ [f]) (Some n)
                  | None => mret (Err SequenceExhausted)
                  end
                else mret (Err (SequenceGap e (fr_seq f)))
            | None =>
                match checked u64 (fr_seq f + 1) with
                | Some n => replay_loop fuel bs (offset + used) (acc ++ [f]) (Some n)
                | None => mret (Err SequenceExhausted)
                end
            end
        | Err cause =>
            if is_incomplete cause then
              follows ← frame_follows bs (S offset);
              if follows : bool then mret (Err (Corrupt offset cause))
              else mret (Ok (mkReplay acc (TornTail offset (length bs - offset)) (default 0 expected)))
            else mret (Err (Corrupt offset cause))
        end
  end.
Definition replay bs : run (result Replay JournalError) := replay_loop (S (length bs)) bs 0 [] None.

(** The next sequence number and the length of the whole records. *)
Definition scan_tail bs : run (result (Z * nat) JournalError) :=
  r ← replay bs;
  mret match r with
       | Ok x => Ok (next_seq x, match stop x with Clean => length bs | TornTail o _ => o end)
       | Err e => Err e
       end.

(** * Writing *)

Inductive SyncPolicy := EveryRecord | EveryRecordNoFsync | Never.
#[export] Instance SyncPolicy_eq_dec : EqDecision SyncPolicy.
Proof. solve_decision. Defined.

(** A write succeeds, or fails after [n] of its bytes. *)
Inductive Io := IoOk | IoFail (n : nat).

(** [w_stream] is everything handed to the file, of which the first
    [w_flushed] bytes have reached the operating system and the first
    [w_synced] the device. *)
Record Writer := mkWriter {
  w_stream : list Z;
  w_flushed : nat;
  w_synced : nat;
  w_policy : SyncPolicy;
  w_next_seq : Z;
  w_bytes_written : Z;
  w_broken : bool;
  w_fail_in : option Z;
}.

Module Writer.
(** [open]: the lock, the scan, and the torn tail truncated away. *)
Definition open (locked : bool) (file : list Z) (p : SyncPolicy) : run (result Writer JournalError) :=
  if locked then mret (Err AlreadyOpen)
  else
    r ← scan_tail file;
    mret match r with
         | Err e => Err e
         | Ok (n, clean) =>
             let file := take clean file in
             Ok (mkWriter file (length file) (length file) p n (Z.of_nat clean) false None)
         end.

Definition set_broken (w : Writer) (stream : list Z) : Writer :=
  mkWriter stream (w_flushed w) (w_synced w) (w_policy w) (w_next_seq w) (w_bytes_written w) true (w_fail_in w).
Definition set_fail_in (w : Writer) (x : option Z) : Writer :=
  mkWriter (w_stream w) (w_flushed w) (w_synced w) (w_policy w) (w_next_seq w) (w_bytes_written w) (w_broken w) x.
Definition fail_after (w : Writer) (appends : Z) : Writer := set_fail_in w (Some appends).

Definition append (w : Writer) (io : Io) (kind : Z) (payload : list Z) : run (result Z JournalError * Writer) :=
  if w_broken w then mret (Err Broken, w)
  else
    let seq := w_next_seq w in
    match checked u64 (seq + 1) with
    | None => mret (Err SequenceExhausted, w)
    | Some next =>
        if bool_decide (w_fail_in w = Some 0) then mret (Err JIo, set_broken w (w_stream w))
        else
          let w := set_fail_in w ((λ left, left - 1) <$> w_fail_in w) in
          scratch ← Frame.encode (mkFrame seq kind payload);
          match io with
          | IoFail n => mret (Err JIo, set_broken w (w_stream w ++ take n scratch))
          | IoOk =>
              let stream := w_stream w ++ scratch in
              let flushed := match w_policy w with Never => w_flushed w | _ => length stream end in
              let synced := match w_policy w with EveryRecord => length stream | _ => w_synced w end in
              written ← chku64 (w_bytes_written w + Z.of_nat (length scratch));
              mret (Ok seq, mkWriter stream flushed synced (w_policy w) next written (w_broken w) (w_fail_in w))
          end
    end.

Definition append_at (w : Writer) (io : Io) (expected : Z) (kind : Z) (payload : list Z)
    : run (result Z JournalError * Writer) :=
  if negb (expected =? w_next_seq w) then mret (Err (SequenceGap (w_next_seq w) expected), w)
  else append w io kind payload.

Definition flush (w : Writer) (io : Io) : result () JournalError * Writer :=
  if w_broken w then (Err Broken, w)
  else match io with
       | IoFail _ => (Err JIo, set_broken w (w_stream w))
       | IoOk => (Ok (), mkWriter (w_stream w) (length (w_stream w)) (w_synced w) (w_policy w) (w_next_seq w)
                   (w_bytes_written w) (w_broken w) (w_fail_in w))
       end.

Definition sync (w : Writer) (io : Io) : result () JournalError * Writer :=
  if w_broken w then (Err Broken, w)
  else match io with
       | IoFail _ => (Err JIo, set_broken w (w_stream w))
       | IoOk => (Ok (), mkWriter (w_stream w) (length (w_stream w)) (length (w_stream w)) (w_policy w)
                   (w_next_seq w) (w_bytes_written w) (w_broken w) (w_fail_in w))
       end.
End Writer.

(** * The resynchronization scan *)

Definition decodes bs : Prop := ∃ f n, Frame.decode bs = Ret (Ok (f, n)).

Lemma decodes_anchor bs : bytes bs → decodes bs → take 4 bs = le 4 MAGIC ∧ (4 ≤ length bs)%nat.
Proof.
  intros Hb (f & n & H). apply decode_inv in H as (Hf & _ & tl & ->); [|done].
  split; [|rewrite length_app, length_image; unfold Frame.encoded_len, FRAMING_LEN; simpl; lia].
  unfold image. rewrite <-!(assoc_L (++)). by rewrite take_app_length' by by rewrite length_le.
Qed.

Lemma window_position_spec (a : list Z) bs : a ≠ [] →
  match window_position a bs with
  | Some i => take (length a) (drop i bs) = a ∧ ∀ j, (j < i)%nat → take (length a) (drop j bs) ≠ a
  | None => ∀ j, take (length a) (drop j bs) ≠ a
  end.
Proof.
  intros Ha. induction bs as [|b bs IH]; simpl.
  - destruct (Nat.ltb_spec 0 (length a)); [|destruct a; simpl in *; [done|lia]].
    intros j. rewrite drop_nil, take_nil. congruence.
  - destruct (Nat.ltb_spec (S (length bs)) (length a)) as [Hl|Hl].
    { intros j E. apply (f_equal length) in E. rewrite length_take, length_drop in E. simpl in E. lia. }
    case_bool_decide as E; [split; [done|]; intros j Hj; lia|].
    destruct (window_position a bs) as [i|]; simpl.
    + destruct IH as [H1 H2]. split; [done|]. intros [|j] Hj; [done|]. simpl. apply H2. lia.
    + intros [|j]; [done|apply IH].
Qed.

Lemma frame_follows_spec fuel bs i : bytes bs → (length bs < fuel + i)%nat → (0 < fuel)%nat →
  ∃ b, frame_follows_loop fuel bs i = Ret b ∧
    (b = true ↔ ∃ j, (i ≤ j)%nat ∧ decodes (drop j bs)).
Proof.
  intros Hb. revert i. induction fuel as [|fuel IH]; intros i Hl H0; [lia|]. cbn [frame_follows_loop].
  destruct (Nat.leb_spec (i + 4) (length bs)) as [Hi|Hi].
  2: { exists false. split; [done|]. split; [done|]. intros (j & Hj & Hd).
    apply decodes_anchor in Hd as [_ Hd]; [|by apply Forall_drop]. rewrite length_drop in Hd. lia. }
  pose proof (window_position_spec (le 4 MAGIC) (drop i bs) ltac:(done)) as Hw. rewrite length_le in Hw.
  destruct (window_position _ _) as [hit|].
  2: { exists false. split; [done|]. split; [done|]. intros (j & Hj & Hd).
    apply decodes_anchor in Hd as [Hd _]; [|by apply Forall_drop]. destruct (Hw (j - i)%nat).
    rewrite drop_drop. by replace (i + (j - i))%nat with j by lia. }
  destruct Hw as [Hw1 Hw2].
  assert (bytes (drop (i + hit) bs)) as Hbd by by apply Forall_drop.
  destruct (decode_returns _ Hbd) as [r Er]. rewrite Er. cbn [mbind run_bind]. destruct r as [[f n]|e].
  { exists true. split; [done|]. split; [|done]. intros _. exists (i + hit)%nat. split; [lia|]. by exists f, n. }
  assert (i + hit < length bs)%nat as Hlt.
  { apply (f_equal length) in Hw1. rewrite length_take, !length_drop, length_le in Hw1. lia. }
  destruct (IH (S (i + hit))) as (b & Eb & Hbb); [lia|lia|]. exists b. split; [done|]. rewrite Hbb.
  split; intros (j & Hj & Hd); [exists j; split; [lia|done]|].
  exists j. split; [|done]. destruct (Nat.lt_ge_cases (i + hit) j) as [|Hge]; [lia|]. exfalso.
  destruct (decide (j = i + hit)%nat) as [->|Hne].
  - destruct Hd as (f & n & Hd). by rewrite Er in Hd.
  - apply decodes_anchor in Hd as [Hd _]; [|by apply Forall_drop]. apply (Hw2 (j - i)%nat); [lia|].
    rewrite drop_drop. by replace (i + (j - i))%nat with j by lia.
Qed.

(** * Replaying whole records *)

(** Sequence numbers that follow each other, from what was expected to what is
    expected next. *)
Fixpoint numbered (e : option Z) fs (e' : option Z) : Prop :=
  match fs with
  | [] => e' = e
  | f :: fs => (e = None ∨ e = Some (fr_seq f)) ∧ fr_seq f < U64_MAX ∧ numbered (Some (fr_seq f + 1)) fs e'
  end.

Definition images fs : list Z := concat (image <$> fs).

Lemma images_app fs gs : images (fs ++ gs) = images fs ++ images gs.
Proof. unfold images. by rewrite fmap_app, concat_app. Qed.
Lemma images_cons f fs : images (f :: fs) = image f ++ images fs.
Proof. done. Qed.
Lemma images_bytes fs : Forall frame_ok fs → bytes (images fs).
Proof.
  induction 1 as [|f fs Hf HF IH]; [by apply Forall_nil_2|]. rewrite images_cons.
  apply Forall_app_2; [by apply image_bytes|done].
Qed.
Lemma image_pos f : (0 < length (image f))%nat.
Proof. rewrite length_image. unfold Frame.encoded_len, FRAMING_LEN, HEADER_LEN. lia. Qed.
Lemma images_length fs : (length fs ≤ length (images fs))%nat.
Proof.
  induction fs as [|f fs IH]; [done|]. rewrite images_cons, length_app. pose proof (image_pos f). simpl. lia.
Qed.

Lemma numbered_app e fs gs e' : numbered e (fs ++ gs) e' ↔ ∃ m, numbered e fs m ∧ numbered m gs e'.
Proof.
  revert e. induction fs as [|f fs IH]; intros e; simpl; [naive_solver|]. rewrite IH. naive_solver.
Qed.

Lemma replay_step fuel bs offset acc e f tl : frame_ok f → drop offset bs = image f ++ tl →
  (e = None ∨ e = Some (fr_seq f)) → fr_seq f < U64_MAX →
  replay_loop (S fuel) bs offset acc e =
    replay_loop fuel bs (offset + length (image f)) (acc ++ [f]) (Some (fr_seq f + 1)).
Proof.
  intros Hf Hd He Hs. cbn [replay_loop].
  destruct (Nat.eqb_spec offset (length bs)) as [E|_].
  { apply (f_equal length) in Hd. rewrite length_drop, length_app in Hd. pose proof (image_pos f). lia. }
  rewrite Hd, decode_image by done. cbn [mbind run_bind].
  assert (checked u64 (fr_seq f + 1) = Some (fr_seq f + 1)) as ->.
  { unfold checked. rewrite decide_True; [done|]. destruct Hf as [_ Hu _ _]. unfold u64 in *. lia. }
  destruct He as [-> | ->]; [done|]. by rewrite Z.eqb_refl.
Qed.

Lemma replay_images fs fuel bs offset acc e e' tl : Forall frame_ok fs → numbered e fs e' →
  drop offset bs = images fs ++ tl →
  replay_loop (length fs + fuel) bs offset acc e =
    replay_loop fuel bs (offset + length (images fs)) (acc ++ fs) e'.
Proof.
  intros HF. revert offset acc e. induction HF as [|f fs Hf HF IH]; intros offset acc e Hn Hd.
  { simpl in *. subst. by rewrite app_nil_r, Nat.add_0_r. }
  destruct Hn as (He & Hs & Hn). rewrite images_cons in *.
  rewrite <-(assoc_L (++)) in Hd. change (length (f :: fs) + fuel)%nat with (S (length fs + fuel)).
  rewrite (replay_step _ _ _ _ _ f (images fs ++ tl)) by done. rewrite IH; [|done|].
  - rewrite <-(assoc_L (++)), length_app, Nat.add_assoc. done.
  - rewrite <-drop_drop, Hd. by rewrite drop_app_length.
Qed.

(** The three ways a file ends. *)
Lemma replay_whole fs tl e' : Forall frame_ok fs → numbered None fs e' → bytes tl →
  let bs := images fs ++ tl in
  let o := length (images fs) in
  replay bs = if (length tl =? 0)%nat then Ret (Ok (mkReplay fs Clean (default 0 e')))
              else replay_loop (S (length bs) - length fs) bs o fs e'.
Proof.
  intros HF Hn Ht bs o. unfold replay. pose proof (images_length fs) as Hl.
  assert (length bs = (o + length tl)%nat) as Hbs by (unfold bs, o; by rewrite length_app).
  replace (S (length bs)) with (length fs + (S (length bs) - length fs))%nat at 1 by lia.
  rewrite (replay_images fs _ bs 0 [] None e' tl) by done. rewrite app_nil_l, Nat.add_0_l.
  destruct (Nat.eqb_spec (length tl) 0) as [E|E]; [|done].
  replace (S (length bs) - length fs)%nat with (S (length bs - length fs)) by lia.
  cbn [replay_loop]. by rewrite (proj2 (Nat.eqb_eq _ _)) by lia.
Qed.

Lemma replay_stops fs tl e' cause : Forall frame_ok fs → numbered None fs e' → bytes tl → tl ≠ [] →
  Frame.decode tl = Ret (Err cause) →
  let o := length (images fs) in
  ∃ follows, (follows = true ↔ ∃ j, (0 < j)%nat ∧ decodes (drop j tl)) ∧
  replay (images fs ++ tl) = Ret
    (if is_incomplete cause && negb follows
     then Ok (mkReplay fs (TornTail o (length tl)) (default 0 e'))
     else Err (Corrupt o cause)).
Proof.
  intros HF Hn Ht Hne Hd o. rewrite (replay_whole fs tl e') by done. set (bs := images fs ++ tl).
  assert (bytes bs) as Hb by (apply Forall_app_2; [by apply images_bytes|done]).
  pose proof (images_length fs) as Hl. fold o in Hl |- *.
  assert (length bs = (o + length tl)%nat) as Hbs by (unfold bs, o; by rewrite length_app).
  destruct (Nat.eqb_spec (length tl) 0) as [E|E]; [by apply length_zero_iff_nil in E|].
  replace (S (length bs) - length fs)%nat with (S (length bs - length fs)) by lia. cbn [replay_loop].
  rewrite (proj2 (Nat.eqb_neq _ _)) by lia.
  assert (drop o bs = tl) as Edr by (unfold bs, o; apply drop_app_length). rewrite Edr, Hd. cbn [mbind run_bind].
  destruct (frame_follows_spec (S (length bs)) bs (S o) Hb) as (b & Eb & Hbb); [lia|lia|].
  assert (b = true ↔ ∃ j, (0 < j)%nat ∧ decodes (drop j tl)) as Hb'.
  { rewrite Hbb. split.
    - intros (j & Hj & Hdj). exists (j - o)%nat. split; [lia|]. rewrite <-Edr, drop_drop.
      by replace (o + (j - o))%nat with j by lia.
    - intros (j & Hj & Hdj). exists (o + j)%nat. split; [lia|]. by rewrite <-drop_drop, Edr. }
  exists b. split; [done|]. destruct (is_incomplete cause) eqn:Ei; [|done].
  unfold frame_follows. rewrite Eb. cbn [mbind run_bind]. destruct b; [done|].
  cbn [andb negb]. do 4 f_equal. lia.
Qed.

(** * Tears and damage *)

(** No whole record hides inside the bytes of a record. *)
Definition plain f : Prop := ∀ j, (0 < j)%nat → ¬ decodes (drop j (image f)).

Lemma decodes_app bs tl : bytes bs → decodes bs → decodes (bs ++ tl).
Proof.
  intros Hb (f & n & H). apply decode_inv in H as (Hf & _ & t & ->); [|done]. exists f, (length (image f)).
  rewrite <-(assoc_L (++)). by apply decode_image.
Qed.

Lemma plain_torn f k j : frame_ok f → plain f → (0 < j)%nat → ¬ decodes (drop j (take k (image f))).
Proof.
  intros Hf Hp Hj Hd. apply (Hp j Hj).
  destruct (Nat.le_ge_cases j (length (take k (image f)))) as [Hl|Hl].
  - rewrite <-(take_drop k (image f)), drop_app_le by done. apply decodes_app; [|done].
    by apply Forall_drop, Forall_take, image_bytes.
  - rewrite drop_ge in Hd by done. destruct Hd as (g & n & Hd). by rewrite decode_short in Hd.
Qed.

Lemma replay_torn fs e' g k : Forall frame_ok fs → numbered None fs e' → frame_ok g → plain g →
  (k < length (image g))%nat →
  replay (images fs ++ take k (image g)) = Ret (Ok (mkReplay fs
    (if (k =? 0)%nat then Clean else TornTail (length (images fs)) k) (default 0 e'))).
Proof.
  intros HF Hn Hg Hp Hk. assert (bytes (take k (image g))) as Hb by by apply Forall_take, image_bytes.
  assert (length (take k (image g)) = k) as Hl by (rewrite length_take; lia).
  destruct (Nat.eqb_spec k 0) as [->|Hk0].
  { rewrite (replay_whole fs _ e') by done. done. }
  destruct (decode_prefix g k Hg Hk) as [need Hd].
  destruct (replay_stops fs (take k (image g)) e' (Incomplete need k) HF Hn Hb) as (b & Hbb & E);
    [by intros E; rewrite E in Hl|done|].
  rewrite E, Hl. destruct b; [|done]. destruct (proj1 Hbb eq_refl) as (j & Hj & Hdj). by apply plain_torn in Hdj.
Qed.


