(* ===== verification/Recovery.v ===== *)
(** What survives a crash: the life of a journal through any number of
    writers, failed writes and crashes. *)

From S2P Require Import Prelude Bytes Crc Frame Journal.

Implicit Types (f g : Frame) (fs gs : list Frame) (w : Writer).

(** * Operations and their acknowledgements *)

Inductive WOp :=
| WAppend (io : Io) (kind : Z) (payload : list Z)
| WAppendAt (io : Io) (expected kind : Z) (payload : list Z)
| WFlush (io : Io)
| WSync (io : Io)
| WFailAfter (appends : Z).

(** The writer after an operation, and the record it acknowledged. *)
Definition acknowledged (kind : Z) (payload : list Z) (r : result Z JournalError) : list Frame :=
  match r with Ok seq => [mkFrame seq kind payload] | Err _ => [] end.
Definition run_op w (o : WOp) : run (list Frame * Writer) :=
  match o with
  | WAppend io kind payload =>
      '(r, w') ← Writer.append w io kind payload; mret (acknowledged kind payload r, w')
  | WAppendAt io expected kind payload =>
      '(r, w') ← Writer.append_at w io expected kind payload; mret (acknowledged kind payload r, w')
  | WFlush io => mret ([], (Writer.flush w io).2)
  | WSync io => mret ([], (Writer.sync w io).2)
  | WFailAfter n => mret ([], Writer.fail_after w n)
  end.

(** A payload the journal takes: bytes, and no record hidden inside. *)
Definition payload_ok w (kind : Z) (payload : list Z) : Prop :=
  u16 kind ∧ bytes payload ∧ plain (mkFrame (w_next_seq w) kind payload).
Definition fails (io : Io) : Prop := match io with IoFail _ => True | IoOk => False end.

Section recovery.
(** What the client was writing when a write failed. *)
Context (attempted : Z → list Z → Prop).

Definition op_ok w (o : WOp) : Prop :=
  match o with
  | WAppend io kind payload | WAppendAt io _ kind payload =>
      payload_ok w kind payload ∧ (fails io → attempted kind payload)
  | _ => True
  end.

(** The lives of a journal: a first writer on an empty file, operations with
    whatever the disk answers, and crashes that keep any prefix of what was
    written that includes what was synced.  [fs] is what the current writer
    found and has acknowledged. *)
Inductive lives : Writer → list Frame → Prop :=
| lives_new p w : Writer.open false [] p = Ret (Ok w) → lives w []
| lives_op w fs o ack w' : lives w fs → op_ok w o → run_op w o = Ret (ack, w') → lives w' (fs ++ ack)
| lives_crash w fs n p w' r : lives w fs → (w_synced w ≤ n)%nat →
    Writer.open false (take n (w_stream w)) p = Ret (Ok w') →
    replay (take n (w_stream w)) = Ret (Ok r) → lives w' (frames r).

(** * The invariant *)

(** What a failed write may have left: part of the next record, or all of it. *)
Definition partial (seq : Z) (extra : list Z) : Prop :=
  extra = [] ∨ ∃ g k, frame_ok g ∧ plain g ∧ attempted (fr_kind g) (fr_payload g) ∧
    fr_seq g = seq ∧ seq < U64_MAX ∧ extra = take k (image g).

Record writer_inv w fs : Prop := {
  wi_ok : Forall frame_ok fs;
  wi_plain : Forall plain fs;
  wi_seq : numbered (Some 0) fs (Some (w_next_seq w));
  wi_u64 : u64 (w_next_seq w);
  wi_stream : ∃ extra, w_stream w = images fs ++ extra ∧ partial (w_next_seq w) extra ∧
    (w_broken w = false → extra = []);
  wi_flushed : (w_synced w ≤ w_flushed w ≤ length (images fs))%nat;
  wi_policy : match w_policy w with
              | EveryRecord => w_synced w = length (images fs)
              | EveryRecordNoFsync => w_flushed w = length (images fs)
              | Never => True
              end;
}.

Lemma numbered_snoc e fs s g : numbered e fs (Some s) → fr_seq g = s → s < U64_MAX →
  numbered e (fs ++ [g]) (Some (s + 1)).
Proof.
  intros H <- Hs. apply numbered_app. exists (Some (fr_seq g)). split; [done|]. simpl. split; [by right|done].
Qed.
Lemma numbered_count s fs e : numbered (Some s) fs e → e = Some (s + Z.of_nat (length fs)) ∧
  ∀ i g, fs !! i = Some g → fr_seq g = s + Z.of_nat i.
Proof.
  revert s. induction fs as [|f fs IH]; intros s H; simpl in *.
  - split; [rewrite H; f_equal; lia|]. intros i g Hg. done.
  - destruct H as ([?|[= ->]] & _ & H); [done|]. apply IH in H as [-> H]. split; [f_equal; lia|].
    intros [|i] g Hg; simpl in Hg; [injection Hg as <-; lia|]. rewrite (H _ _ Hg). lia.
Qed.
Lemma numbered_u64 e fs s : numbered (Some e) fs (Some s) → u64 e → u64 s.
Proof.
  revert e. induction fs as [|f fs IH]; intros e; simpl; [by intros [= <-]|].
  intros (Hor & Hlt & H) He. destruct Hor as [?|[= ->]]; [done|]. eapply IH; [exact H|]. unfold u64 in *. lia.
Qed.
(** A journal that starts at zero replays from nothing expected. *)
Lemma numbered_none fs s : numbered (Some 0) fs (Some s) → ∃ e, numbered None fs e ∧ default 0 e = s.
Proof.
  destruct fs as [|f fs]; simpl.
  - intros [= ->]. by exists None.
  - intros (_ & Hs & H). exists (Some s). split_and!; [by left|done|done|done].
Qed.

Lemma new_inv p w : Writer.open false [] p = Ret (Ok w) → writer_inv w [].
Proof.
  intros [= <-]. split; simpl; try by constructor.
  - exists []. split; [done|]. by split; [left|].
  - by destruct p.
Qed.

Lemma append_inv w fs io kind payload r w' : writer_inv w fs →
  payload_ok w kind payload → (fails io → attempted kind payload) →
  Writer.append w io kind payload = Ret (r, w') → writer_inv w' (fs ++ acknowledged kind payload r).
Proof.
  intros [Ho Hp Hs Hu (extra & Est & Hpart & Hbr) Hfl Hpol] (Hk & Hb & Hpl) Hat H. unfold Writer.append in H.
  destruct (w_broken w) eqn:Ebr.
  { injection H as <- <-. rewrite app_nil_r. split; try done. exists extra. by rewrite Ebr. }
  rewrite (Hbr eq_refl), app_nil_r in Est. unfold checked in H. case_decide as Hn.
  2: { injection H as <- <-. rewrite app_nil_r. split; try done. exists []. rewrite app_nil_r. split; [done|]. by split; [left|]. }
  case_bool_decide as Hfail.
  { injection H as <- <-. rewrite app_nil_r. split; try done. exists []. rewrite app_nil_r. split; [done|]. by split; [left|]. }
  set (g := mkFrame (w_next_seq w) kind payload) in *. apply bind_ret in H as (scratch & Hsc & H).
  unfold Frame.encode in Hsc. destruct (Z.leb_spec (Z.of_nat (length (fr_payload g))) MAX_PAYLOAD) as [Hm|]; [|done].
  injection Hsc as <-. fold (image g) in H.
  assert (frame_ok g) as Hg by by split. assert (w_next_seq w < U64_MAX) as Hlt by (unfold u64 in Hn; lia).
  destruct io as [|n].
  - apply bind_ret in H as (written & _ & [= <- <-]). simpl.
    assert (images (fs ++ [g]) = images fs ++ image g) as Ei.
    { rewrite images_app. f_equal. unfold images; simpl. apply app_nil_r. }
    assert (length (images (fs ++ [g])) = (length (images fs) + length (image g))%nat) as El by by rewrite Ei, length_app.
    split; simpl; rewrite ?Est, <-?Ei, ?El.
    + apply Forall_app_2; [done|by apply Forall_singleton].
    + apply Forall_app_2; [done|by apply Forall_singleton].
    + by apply numbered_snoc.
    + done.
    + exists []. rewrite app_nil_r. split; [done|]. by split; [left|].
    + fold g. rewrite ?El. destruct (w_policy w); lia.
    + fold g. rewrite El. by destruct (w_policy w).
  - injection H as <- <-. rewrite app_nil_r. split; try done. exists (take n (image g)). simpl. rewrite Est.
    split; [done|]. split; [|done]. right. exists g, n. split_and!; try done; by apply Hat.
Qed.

Lemma run_op_inv w fs o ack w' : writer_inv w fs → op_ok w o → run_op w o = Ret (ack, w') →
  writer_inv w' (fs ++ ack).
Proof.
  intros Hw Ho H. destruct o as [io kind pl|io ex kind pl|io|io|n]; simpl in H.
  - destruct Ho as (?&?). apply bind_ret in H as ([r w1] & H & [= <- <-]). by eapply append_inv.
  - destruct Ho as (?&?). apply bind_ret in H as ([r w1] & H & [= <- <-]). unfold Writer.append_at in H.
    destruct (negb _); [injection H as <- <-; by rewrite app_nil_r|]. by eapply append_inv.
  - injection H as <- <-. rewrite app_nil_r. unfold Writer.flush. destruct (w_broken w) eqn:Eb; [done|].
    destruct Hw as [? ? ? ? (extra & Est & Hpart & Hbr) Hfl Hpol]. rewrite (Hbr Eb), app_nil_r in Est.
    destruct io; split; simpl; try done; try (exists []; rewrite app_nil_r; split; [done|]; by split; [left|]).
    + rewrite Est. lia.
    + rewrite Est. by destruct (w_policy w).
  - injection H as <- <-. rewrite app_nil_r. unfold Writer.sync. destruct (w_broken w) eqn:Eb; [done|].
    destruct Hw as [? ? ? ? (extra & Est & Hpart & Hbr) Hfl Hpol]. rewrite (Hbr Eb), app_nil_r in Est.
    destruct io; split; simpl; try done; try (exists []; rewrite app_nil_r; split; [done|]; by split; [left|]).
    + rewrite Est. lia.
    + rewrite Est. by destruct (w_policy w).
  - injection H as <- <-. rewrite app_nil_r. by destruct Hw.
Qed.

(** * A crash *)

(** Where a cut falls: between two records, or inside one. *)
Definition torn (fs : list Frame) (tl : list Z) : Prop :=
  tl = [] ∨ ∃ g k, g ∈ fs ∧ (0 < k < length (image g))%nat ∧ tl = take k (image g).

Lemma take_images fs n : (n < length (images fs))%nat →
  ∃ m tl, (m < length fs)%nat ∧ take n (images fs) = images (take m fs) ++ tl ∧ torn fs tl.
Proof.
  revert n. induction fs as [|f fs IH]; intros n Hn; [unfold images in Hn; simpl in Hn; lia|].
  rewrite images_cons in *. rewrite length_app in Hn. destruct (Nat.lt_ge_cases n (length (image f))) as [Hl|Hl].
  - exists 0%nat, (take n (image f)). split; [simpl; lia|]. split; [by rewrite take_app_le by lia|].
    destruct (decide (n = 0)%nat) as [->|]; [by left|]. right. exists f, n. split; [by left|]. split; [lia|done].
  - destruct (IH (n - length (image f))%nat) as (m & tl & Hm & Et & Ht); [lia|].
    exists (S m), tl. split; [simpl; lia|]. cbn [take]. rewrite images_cons, take_app_ge by done.
    rewrite Et, <-(assoc_L (++)). split; [done|]. destruct Ht as [->|(g & k & Hg & ?)]; [by left|].
    right. exists g, k. split; [by right|done].
Qed.

Lemma numbered_take m fs e s : numbered (Some e) fs (Some s) → ∃ s', numbered (Some e) (take m fs) (Some s').
Proof.
  intros H. rewrite <-(take_drop m fs) in H. apply numbered_app in H as (x & H & _).
  destruct (numbered_count _ _ _ H) as [-> _]. eauto.
Qed.

(** What a crash leaves of a writer's file. *)
Lemma cut w fs n : writer_inv w fs →
  ∃ gs tl s, take n (w_stream w) = images gs ++ tl ∧ Forall frame_ok gs ∧ Forall plain gs ∧
    numbered (Some 0) gs (Some s) ∧
    (tl = [] ∨ ∃ g k, frame_ok g ∧ plain g ∧ (0 < k < length (image g))%nat ∧ tl = take k (image g)) ∧
    (gs `prefix_of` fs ∨ ∃ g, gs = fs ++ [g] ∧ attempted (fr_kind g) (fr_payload g)) ∧ ((length (images fs) ≤ n)%nat → fs `prefix_of` gs).
Proof.
  intros [Ho Hp Hs _ (extra & Est & Hpart & _) _ _]. rewrite Est.
  destruct (Nat.lt_ge_cases n (length (images fs))) as [Hn|Hn].
  - destruct (take_images fs n Hn) as (m & tl & Hm & Et & Ht). rewrite take_app_le, Et by lia.
    destruct (numbered_take m _ _ _ Hs) as [s Hs']. exists (take m fs), tl, s.
    split; [done|]. split; [by apply Forall_take|]. split; [by apply Forall_take|]. split; [done|].
    split; [|split; [left; apply prefix_take|lia]].
    destruct Ht as [->|(g & k & Hg & ?)]; [by left|]. right. exists g, k.
    rewrite Forall_forall in Ho, Hp. auto.
  - rewrite take_app_ge by done. destruct Hpart as [->|(g & k & Hg & Hgp & Hat & Es & Hlt & ->)].
    + rewrite take_nil. exists fs, [], (w_next_seq w). split_and!; try done; by left.
    + rewrite take_take. set (j := ((n - length (images fs)) `min` k)%nat).
      destruct (Nat.lt_ge_cases j (length (image g))) as [Hj|Hj].
      * exists fs, (take j (image g)), (w_next_seq w). split_and!; try done; [|by left].
        destruct (decide (j = 0)%nat) as [->|]; [by left|]. right. exists g, j. split_and!; try done. lia.
      * exists (fs ++ [g]), [], (w_next_seq w + 1).
        assert (images (fs ++ [g]) = images fs ++ image g) as Ei.
        { rewrite images_app. f_equal. unfold images; simpl. apply app_nil_r. }
        rewrite take_ge, Ei, app_nil_r by done. split; [done|].
        split; [apply Forall_app_2; [done|by apply Forall_singleton]|].
        split; [apply Forall_app_2; [done|by apply Forall_singleton]|].
        split; [by apply numbered_snoc|]. split; [by left|]. split; [right; by exists g|].
        intros _. by apply prefix_app_r.
Qed.

Lemma crash_inv w fs n p : writer_inv w fs →
  ∃ w' r, Writer.open false (take n (w_stream w)) p = Ret (Ok w') ∧
    replay (take n (w_stream w)) = Ret (Ok r) ∧
    writer_inv w' (frames r) ∧ w_stream w' = images (frames r) ∧ w_broken w' = false ∧
    (frames r `prefix_of` fs ∨ ∃ g, frames r = fs ++ [g] ∧ attempted (fr_kind g) (fr_payload g)) ∧
    ((length (images fs) ≤ n)%nat → fs `prefix_of` frames r).
Proof.
  intros Hw. destruct (cut w fs n Hw) as (gs & tl & s & Et & Ho & Hp & Hs & Htl & Hpre & Hall). rewrite Et.
  destruct (numbered_none gs s Hs) as (e & Hne & Hde).
  assert (∃ st, replay (images gs ++ tl) = Ret (Ok (mkReplay gs st s)) ∧
    match st with Clean => length (images gs ++ tl) | TornTail o _ => o end = length (images gs)) as (st & Er & Ec).
  { destruct Htl as [->|(g & k & Hg & Hgp & Hk & ->)].
    - exists Clean. rewrite (replay_whole gs [] e) by (done || by apply Forall_nil_2). simpl. by rewrite Hde, app_nil_r.
    - exists (TornTail (length (images gs)) k). rewrite (replay_torn gs e g k) by (done || lia).
      rewrite (proj2 (Nat.eqb_neq _ _)) by lia. by rewrite Hde. }
  eexists _, _. split; [|split; [exact Er|]].
  { unfold Writer.open, scan_tail. rewrite Er. cbn [mbind run_bind frames stop next_seq]. rewrite Ec. done. }
  cbn [frames]. rewrite take_app_length. split; [|done].
  split; simpl; try done.
  - by eapply numbered_u64.
  - exists []. rewrite app_nil_r. split; [done|]. by split; [left|].
  - by destruct p.
Qed.

Lemma lives_inv w fs : lives w fs → writer_inv w fs.
Proof.
  induction 1 as [p w H|w fs o ack w' _ IH Ho H|w fs n p w' r _ IH Hn Hop Hr].
  - by eapply new_inv.
  - by eapply run_op_inv.
  - destruct (crash_inv w fs n p IH) as (w2 & r2 & E1 & E2 & Hi & _).
    rewrite Hop in E1. rewrite Hr in E2. injection E1 as <-. injection E2 as <-. done.
Qed.

End recovery.

(** A record this short cannot hold another. *)
Lemma small_plain seq b : u8 b → u64 seq → plain (mkFrame seq 1 [b]).
Proof.
  intros Hb Hs j Hj Hd.
  assert (frame_ok (mkFrame seq 1 [b])) as Hf by (split; [done|done|by apply Forall_singleton|done]).
  assert (bytes (drop j (image (mkFrame seq 1 [b])))) as Hby by by apply Forall_drop, image_bytes.
  destruct (decide (j < 6)%nat) as [H6|H6].
  - apply decodes_anchor in Hd as [Hd _]; [|done]. unfold image, Frame.body in Hd; cbn [fr_kind fr_seq fr_payload] in Hd.
    replace (le 4 MAGIC) with [79; 81; 82; 74] in Hd by by vm_compute.
    replace (le 2 VERSION) with [1; 0] in Hd by by vm_compute.
    do 6 (destruct j as [|j]; [try lia; discriminate|]). lia.
  - destruct Hd as (f & m & E). rewrite decode_short in E; [done|]. rewrite length_drop, length_image.
    unfold Frame.encoded_len, FRAMING_LEN, HEADER_LEN, TRAILER_LEN. simpl. lia.
Qed.

Definition demo_attempt (kind : Z) (payload : list Z) : Prop := kind = 1 ∧ ∃ b, payload = [b].
Lemma demo_op_ok w io b : u8 b → u64 (w_next_seq w) → op_ok demo_attempt w (WAppend io 1 [b]).
Proof.
  intros Hb Hs. split; [|intros _; split; [done|by exists b]].
  split; [done|]. split; [by apply Forall_singleton|by apply small_plain].
Qed.

