(* ===== verification/Snapshot.v ===== *)
(** Snapshots ([oq-journal/src/snapshot.rs]): state as of a sequence number, on
    disk, newest wins.

    A directory is a map from file names to contents; a name is its bytes, and
    a file that cannot be read has no contents. *)

From stdpp Require Import gmap sorting.
From S2P Require Import Prelude Bytes Crc Frame Journal.
#[local] Open Scope Z_scope.

Record Snapshot := mkSnapshot { upto_seq : Z; sn_payload : list Z }.
#[export] Instance Snapshot_eq_dec : EqDecision Snapshot.
Proof. solve_decision. Defined.

Module Snapshot.
Definition HEADER_LEN : nat := 20.
(** [OQSN], little-endian. *)
Definition MAGIC : Z := unle [79; 81; 83; 78].
Definition VERSION : Z := 1.

Definition checked_header (s : Snapshot) : list Z := le 2 VERSION ++ le 2 0 ++ le 8 (upto_seq s).
Definition encode (s : Snapshot) : list Z :=
  let checksum := crc32 (checked_header s ++ sn_payload s) in
  le 4 MAGIC ++ checked_header s ++ le 4 checksum ++ sn_payload s.

Definition decode (bs : list Z) : run (result Snapshot JournalError) :=
  let corrupt cause := Err (Corrupt 0 cause) in
  if (length bs <? HEADER_LEN)%nat then mret (corrupt (Incomplete HEADER_LEN (length bs)))
  else
    magic ← unle <$> slice_ix 0 4 bs;
    if negb (magic =? MAGIC) then mret (corrupt (BadMagic magic))
    else
      version ← unle <$> slice_ix 4 2 bs;
      if negb (version =? VERSION) then mret (corrupt (UnknownVersion version))
      else
        upto ← unle <$> slice_ix 8 8 bs;
        expected ← unle <$> slice_ix 16 4 bs;
        head ← slice_ix 4 12 bs;
        let computed := crc32 (head ++ drop HEADER_LEN bs) in
        if negb (computed =? expected) then mret (corrupt (ChecksumMismatch expected computed))
        else mret (Ok (mkSnapshot upto (drop HEADER_LEN bs))).
End Snapshot.

(** * The store *)

Abbreviation name := (list Z).
Abbreviation dir := (gmap name (option (list Z))).

(** [{:020}]: twenty decimal digits, which is what the largest [u64] has. *)
Fixpoint decimal (n : nat) (z : Z) : list Z :=
  match n with
  | O => []
  | S n => decimal n (z / 10) ++ [48 + z mod 10]
  end.
Definition stem (upto : Z) : name :=
  [115; 110; 97; 112; 115; 104; 111; 116; 45] ++ decimal 20 upto.   (* snapshot- *)
Definition oqsn : list Z := [111; 113; 115; 110].
Definition file_for (upto : Z) : name := stem upto ++ [46] ++ oqsn.
(** [with_extension("oqsn.tmp")]. *)
Definition tmp_for (upto : Z) : name := stem upto ++ [46] ++ oqsn ++ [46; 116; 109; 112].

(** [Path::extension]: what follows the last dot, unless nothing precedes it. *)
Fixpoint after_last_dot (n : name) : option (list Z) :=
  match n with
  | [] => None
  | c :: n => match after_last_dot n with
              | Some e => Some e
              | None => if c =? 46 then Some n else None
              end
  end.
Definition extension (n : name) : option (list Z) :=
  e ← after_last_dot n; if (length n =? S (length e))%nat then None else Some e.

(** Names compare byte by byte. *)
Fixpoint lex (a b : name) : bool :=
  match a, b with
  | [], _ => true
  | _ :: _, [] => false
  | x :: a, y :: b => (x <? y) || ((x =? y) && lex a b)
  end.
Definition lex_le (a b : name) : Prop := lex a b = true.
#[export] Instance lex_le_dec a b : Decision (lex_le a b).
Proof. unfold lex_le. apply _. Defined.

(** Where a save may stop. *)
Inductive SaveIo := SaveOk | SaveNoDir | SaveWrite (n : nat) | SaveRename.

Module SnapshotStore.
Definition save (d : option dir) (io : SaveIo) (s : Snapshot) : result () JournalError * option dir :=
  match io with
  | SaveNoDir => (Err JIo, d)
  | SaveWrite n => (Err JIo, Some (<[tmp_for (upto_seq s) := Some (take n (Snapshot.encode s))]> (default ∅ d)))
  | SaveRename => (Err JIo, Some (<[tmp_for (upto_seq s) := Some (Snapshot.encode s)]> (default ∅ d)))
  | SaveOk =>
      (Ok (), Some (<[file_for (upto_seq s) := Some (Snapshot.encode s)]> (delete (tmp_for (upto_seq s)) (default ∅ d))))
  end.

Definition candidates (m : dir) : list name :=
  merge_sort lex_le (filter (λ n, extension n = Some oqsn) (map_to_list m).*1).

Fixpoint newest (m : dir) (ns : list name) (bound : Z) : run (option Snapshot) :=
  match ns with
  | [] => mret None
  | n :: ns =>
      match m !! n ≫= id with
      | None => newest m ns bound
      | Some bs =>
          r ← Snapshot.decode bs;
          match r with
          | Ok s => if upto_seq s <=? bound then mret (Some s) else newest m ns bound
          | Err _ => newest m ns bound
          end
      end
  end.

(** [listed] is false when the directory is there and cannot be listed. *)
Definition latest_at_or_before (d : option dir) (listed : bool) (bound : Z) : run (result (option Snapshot) JournalError) :=
  match d with
  | None => mret (Ok None)
  | Some m => if listed then Ok <$> newest m (reverse (candidates m)) bound else mret (Err JIo)
  end.
Definition latest (d : option dir) (listed : bool) : run (result (option Snapshot) JournalError) :=
  latest_at_or_before d listed U64_MAX.
End SnapshotStore.

(** * Names *)

Lemma length_decimal n z : length (decimal n z) = n.
Proof. revert z. induction n as [|n IH]; intros z; simpl; [done|]. rewrite length_app, IH. simpl. lia. Qed.

Lemma lex_refl a : lex a a = true.
Proof. induction a as [|x a IH]; simpl; [done|]. by rewrite Z.eqb_refl, IH, orb_true_r. Qed.

#[export] Instance lex_le_po : PartialOrder lex_le.
Proof.
  unfold lex_le. split; [split|].
  - intros a. apply lex_refl.
  - intros a. induction a as [|x a IH]; intros [|y b] [|z c]; simpl; try done.
    rewrite !orb_true_iff, !andb_true_iff, !Z.ltb_lt, !Z.eqb_eq. intros [?|[-> H1]] [?|[-> H2]]; [left; lia|by left|by left|].
    right. split; [done|by eapply IH].
  - intros a. induction a as [|x a IH]; intros [|y b]; simpl; try done.
    rewrite !orb_true_iff, !andb_true_iff, !Z.ltb_lt, !Z.eqb_eq. intros [?|[-> H1]] [?|[? H2]]; try lia. f_equal. by apply IH.
Qed.
#[export] Instance lex_le_total : Total lex_le.
Proof.
  unfold lex_le. intros a. induction a as [|x a IH]; intros [|y b]; simpl; try auto.
  rewrite !orb_true_iff, !andb_true_iff, !Z.ltb_lt, !Z.eqb_eq. destruct (Z.lt_trichotomy x y) as [?|[->|?]]; [auto| |auto].
  destruct (IH b); auto.
Qed.

Lemma lex_app p a b : lex (p ++ a) (p ++ b) = lex a b.
Proof. induction p as [|x p IH]; simpl; [done|]. by rewrite Z.ltb_irrefl, Z.eqb_refl, IH. Qed.
(** A comparison of equal lengths is decided before what follows. *)
Lemma lex_tail a b s t : length a = length b → a ≠ b → lex (a ++ s) (b ++ t) = lex a b.
Proof.
  revert b. induction a as [|x a IH]; intros [|y b] Hl Hne; simpl in *; try done.
  destruct (Z.eqb_spec x y) as [->|Hxy]; [|by rewrite !andb_false_l].
  rewrite !andb_true_l, IH; [done|lia|congruence].
Qed.

Lemma decimal_lt n u v : 0 ≤ u < v → v < 10 ^ Z.of_nat n → lex (decimal n u) (decimal n v) = true ∧ decimal n u ≠ decimal n v.
Proof.
  revert u v. induction n as [|n IH]; intros u v Hu Hv; [simpl in Hv; lia|].
  rewrite Nat2Z.inj_succ, Z.pow_succ_r in Hv by lia. cbn [decimal].
  pose proof (Z.div_mod u 10 ltac:(lia)). pose proof (Z.div_mod v 10 ltac:(lia)).
  pose proof (Z.mod_pos_bound u 10 ltac:(lia)). pose proof (Z.mod_pos_bound v 10 ltac:(lia)).
  destruct (Z.lt_trichotomy (u / 10) (v / 10)) as [Hlt|[Heq|Hgt]]; [| |lia].
  - destruct (IH (u / 10) (v / 10)) as [Hl Hne]; [split; [apply Z.div_pos; lia|done]|apply Z.div_lt_upper_bound; lia|].
    split; [|intros [E _]%app_inj_2; done]. rewrite lex_tail; [done|by rewrite !length_decimal|done].
  - rewrite Heq. split; [|intros [= E]%app_inv_head; lia]. rewrite lex_app. simpl.
    by rewrite (proj2 (Z.ltb_lt _ _)) by lia.
Qed.

Lemma file_for_lt u v : u64 u → u64 v → u < v → lex_le (file_for u) (file_for v) ∧ file_for u ≠ file_for v.
Proof.
  intros Hu Hv Huv. destruct (decimal_lt 20 u v) as [Hl Hne]; [unfold u64 in *; lia|unfold u64 in *; lia|].
  assert (length (decimal 20 u) = length (decimal 20 v)) as El by by rewrite !length_decimal.
  unfold lex_le, file_for, stem. rewrite <-!(assoc_L (++)). split.
  - by rewrite lex_app, lex_tail.
  - intros [_ E]%app_inj_1; [|done]. by apply app_inj_1 in E as [? _].
Qed.
Lemma file_for_inj u v : u64 u → u64 v → file_for u = file_for v → u = v.
Proof.
  intros Hu Hv E. destruct (Z.lt_trichotomy u v) as [H|[H|H]]; [|done|];
    [destruct (file_for_lt u v Hu Hv H)|destruct (file_for_lt v u Hv Hu H)]; congruence.
Qed.
Lemma file_for_order u v : u64 u → u64 v → lex_le (file_for u) (file_for v) → u ≤ v.
Proof.
  intros Hu Hv H. destruct (Z.le_gt_cases u v); [done|]. destruct (file_for_lt v u) as [Hl Hne]; [done..|].
  exfalso. apply Hne. by apply (anti_symm lex_le).
Qed.

Lemma after_last_dot_tail p e : after_last_dot e = None → after_last_dot (p ++ [46] ++ e) = Some e.
Proof. intros He. induction p as [|c p IH]; simpl; [by rewrite He|]. simpl in IH. by rewrite IH. Qed.

Lemma file_extension u : extension (file_for u) = Some oqsn.
Proof.
  unfold extension, file_for. rewrite after_last_dot_tail by done. cbn [mbind option_bind].
  rewrite length_app. cbn [length]. unfold stem. rewrite length_app, length_decimal. done.
Qed.
Lemma tmp_extension u : extension (tmp_for u) = Some [116; 109; 112].
Proof.
  unfold extension, tmp_for. change (oqsn ++ [46; 116; 109; 112]) with (oqsn ++ [46] ++ [116; 109; 112]).
  rewrite !(assoc_L (++)), <-(assoc_L (++) _ [46]). rewrite after_last_dot_tail by done. cbn [mbind option_bind].
  rewrite !length_app. cbn [length]. unfold stem. rewrite length_app, length_decimal. done.
Qed.

(** * One file *)

Record snapshot_ok (s : Snapshot) : Prop := { sn_upto_ok : u64 (upto_seq s); sn_bytes_ok : bytes (sn_payload s) }.

Lemma checked_bytes s : snapshot_ok s → bytes (Snapshot.checked_header s ++ sn_payload s).
Proof. intros [_ Hb]. unfold Snapshot.checked_header. by repeat apply Forall_app_2; try apply le_bytes. Qed.

Lemma length_encode s : length (Snapshot.encode s) = (Snapshot.HEADER_LEN + length (sn_payload s))%nat.
Proof. unfold Snapshot.encode, Snapshot.checked_header. rewrite !length_app, !length_le. done. Qed.

(** Decoding, field by field: the reserved bytes are covered and not read. *)
Lemma snapshot_fields m v (z u c : Z) (payload : list Z) : u32 m → u16 v → u64 u → u32 c →
  Snapshot.decode (le 4 m ++ (le 2 v ++ le 2 z ++ le 8 u) ++ le 4 c ++ payload) =
    Ret (if negb (m =? Snapshot.MAGIC) then Err (Corrupt 0 (BadMagic m))
         else if negb (v =? Snapshot.VERSION) then Err (Corrupt 0 (UnknownVersion v))
         else let computed := crc32 ((le 2 v ++ le 2 z ++ le 8 u) ++ payload) in
              if negb (computed =? c) then Err (Corrupt 0 (ChecksumMismatch c computed))
              else Ok (mkSnapshot u payload)).
Proof.
  intros Hm Hv Hu Hc. unfold Snapshot.decode. rewrite <-!(assoc_L (++)). set (bs := le 4 m ++ _).
  assert (length bs = (20 + length payload)%nat) as Hl by (unfold bs; rewrite !length_app, !length_le; done).
  rewrite Hl, (proj2 (Nat.ltb_ge _ _)) by (unfold Snapshot.HEADER_LEN; lia). unfold slice_ix.
  assert (slice 0 4 bs = Some (le 4 m) ∧ slice 4 2 bs = Some (le 2 v) ∧ slice 8 8 bs = Some (le 8 u) ∧
    slice 16 4 bs = Some (le 4 c)) as (-> & -> & -> & ->) by (unfold bs; by split_and!; rd).
  assert (slice 4 12 bs = Some (le 2 v ++ le 2 z ++ le 8 u)) as ->.
  { unfold bs. rewrite (assoc_L (++) (le 2 z)), (assoc_L (++) (le 2 v)). apply slice_cover; [apply length_le|].
    by rewrite !length_app, !length_le. }
  assert (drop Snapshot.HEADER_LEN bs = payload) as ->.
  { unfold bs, Snapshot.HEADER_LEN. rewrite !(assoc_L (++)). apply drop_app_length'.
    by rewrite !length_app, !length_le. }
  cbn [expect mbind run_bind fmap run_fmap]. rewrite !unle_u32, unle_u16, unle_u64 by done.
  destruct (negb (m =? _)); [done|]. destruct (negb (v =? _)); [done|]. cbv zeta. by destruct (negb _).
Qed.

Lemma decode_encode s : snapshot_ok s → Snapshot.decode (Snapshot.encode s) = Ret (Ok s).
Proof.
  intros Hs. unfold Snapshot.encode. cbv zeta.
  assert (u32 (crc32 (Snapshot.checked_header s ++ sn_payload s))) as Hc by by apply crc_u32, checked_bytes.
  set (c := crc32 _) in *. unfold Snapshot.checked_header at 1. rewrite snapshot_fields by (done || apply Hs || by vm_compute).
  rewrite !Z.eqb_refl. cbn [negb]. cbv zeta. fold (Snapshot.checked_header s). fold c. rewrite Z.eqb_refl. by destruct s.
Qed.

(** * The life of a store *)

(** A store: what was saved, where saves stopped, and what was damaged. *)
Inductive stored : option dir → gmap Z Snapshot → Prop :=
| stored_new : stored None ∅
| stored_save d m s d' : stored d m → snapshot_ok s →
    SnapshotStore.save d SaveOk s = (Ok (), d') → stored d' (<[upto_seq s := s]> m)
| stored_stop d m io s d' x : stored d m → snapshot_ok s →
    SnapshotStore.save d io s = (Err x, d') → stored d' m
| stored_damage d m u bs e : stored (Some d) m → u64 u → Snapshot.decode bs = Ret (Err e) →
    stored (Some (<[file_for u := Some bs]> d)) (delete u m)
| stored_unreadable d m u : stored (Some d) m → u64 u → stored (Some (<[file_for u := None]> d)) (delete u m).

(** What one file holds. *)
Definition holds_file (u : Z) (c : option (list Z)) (x : option Snapshot) : Prop :=
  match x with
  | Some s => c = Some (Snapshot.encode s) ∧ upto_seq s = u ∧ snapshot_ok s
  | None => match c with Some bs => ∃ e, Snapshot.decode bs = Ret (Err e) | None => True end
  end.

Record dir_ok (d : dir) (m : gmap Z Snapshot) : Prop := {
  do_files : ∀ n c, d !! n = Some c → extension n = Some oqsn →
    ∃ u, u64 u ∧ n = file_for u ∧ holds_file u c (m !! u);
  do_saved : ∀ u s, m !! u = Some s → u64 u ∧ is_Some (d !! file_for u);
}.

Lemma dir_put d m m' u c x : dir_ok d m → u64 u → holds_file u c x →
  m' !! u = x → (∀ v, u ≠ v → m' !! v = m !! v) → dir_ok (<[file_for u := c]> d) m'.
Proof.
  intros [Hf Hs] Hu Hx Hmu Hmv. split.
  - intros n c' Hn He. apply lookup_insert_Some in Hn as [[<- <-]|[Hne Hn]].
    + exists u. by rewrite Hmu.
    + destruct (Hf n c' Hn He) as (v & Hv & -> & Hh). exists v. rewrite Hmv by (intros ->; done). done.
  - intros v s Hm. destruct (decide (u = v)) as [<-|Hne].
    + split; [done|]. rewrite lookup_insert_eq. by eexists.
    + rewrite Hmv in Hm by done. destruct (Hs v s Hm) as [Hv Hd]. split; [done|].
      rewrite lookup_insert_ne; [done|]. intros E. by apply Hne, file_for_inj.
Qed.

Lemma dir_tmp d m u c : dir_ok d m → dir_ok (<[tmp_for u := c]> d) m.
Proof.
  intros [Hf Hs]. split.
  - intros n c' Hn He. apply lookup_insert_Some in Hn as [[<- _]|[_ Hn]]; [by rewrite tmp_extension in He|by apply Hf].
  - intros v s Hm. destruct (Hs v s Hm) as [Hv Hd]. split; [done|]. rewrite lookup_insert_ne; [done|].
    intros E. pose proof (file_extension v) as H. by rewrite <-E, tmp_extension in H.
Qed.
Lemma dir_untmp d m u : dir_ok d m → dir_ok (delete (tmp_for u) d) m.
Proof.
  intros [Hf Hs]. split.
  - intros n c' Hn He. apply lookup_delete_Some in Hn as [_ Hn]. by apply Hf.
  - intros v s Hm. destruct (Hs v s Hm) as [Hv Hd]. split; [done|]. rewrite lookup_delete_ne; [done|].
    intros E. pose proof (file_extension v) as H. by rewrite <-E, tmp_extension in H.
Qed.

Lemma stored_ok d m : stored d m → dir_ok (default ∅ d) m.
Proof.
  induction 1 as [|d m s d' _ IH Hs H|d m io s d' x _ IH Hs H|d m u bs e _ IH Hu He|d m u _ IH Hu].
  - split; [by intros ? ?|by intros ? ?].
  - injection H as <-. cbn [default]. eapply (dir_put _ m _ (upto_seq s) _ (Some s)).
    + by apply dir_untmp.
    + apply Hs.
    + split; [reflexivity|]. by split.
    + apply lookup_insert_eq.
    + intros v Hv. by apply lookup_insert_ne.
  - destruct io as [| |n|]; [discriminate H| | |]; injection H as _ <-; cbn [default]; [exact IH| |]; by apply dir_tmp.
  - apply (dir_put d m _ u _ None IH Hu); [by exists e|apply lookup_delete_eq|]. intros v Hv. by apply lookup_delete_ne.
  - apply (dir_put d m _ u _ None IH Hu); [done|apply lookup_delete_eq|]. intros v Hv. by apply lookup_delete_ne.
Qed.

(** The newest saved snapshot at or before [bound]. *)
Definition best (m : gmap Z Snapshot) (bound : Z) (r : option Snapshot) : Prop :=
  match r with
  | Some s => m !! upto_seq s = Some s ∧ upto_seq s ≤ bound ∧ ∀ u s', m !! u = Some s' → u ≤ bound → u ≤ upto_seq s
  | None => ∀ u s', m !! u = Some s' → bound < u
  end.

Lemma newest_best d m ns bound : dir_ok d m →
  Forall (λ n, is_Some (d !! n) ∧ extension n = Some oqsn) ns → StronglySorted (flip lex_le) ns →
  ∃ r, SnapshotStore.newest d ns bound = Ret r ∧
    match r with
    | Some s => m !! upto_seq s = Some s ∧ upto_seq s ≤ bound ∧
        ∀ u s', m !! u = Some s' → file_for u ∈ ns → u ≤ bound → u ≤ upto_seq s
    | None => ∀ u s', m !! u = Some s' → file_for u ∈ ns → bound < u
    end.
Proof.
  intros Hd. induction 1 as [|n ns [[c Hn] He] _ IH]; intros Hs; simpl.
  { exists None. split; [done|]. intros u s' _ Hin. by apply elem_of_nil in Hin. }
  apply StronglySorted_inv in Hs as [Hs HF]. destruct (IH Hs) as (r & Er & Hr).
  destruct (do_files _ _ Hd n c Hn He) as (u & Hu & -> & Hh). rewrite Hn. cbn [mbind option_bind id].
  assert (∀ v s', m !! v = Some s' → file_for v ∈ file_for u :: ns → v = u ∨ file_for v ∈ ns) as Hsplit.
  { intros v s' Hv [E|Hin]%elem_of_cons; [left|by right]. apply file_for_inj; [by eapply do_saved|done|done]. }
  assert (m !! u = None ∨ (∃ s, m !! u = Some s ∧ bound < u) →
    match r with
    | Some s => m !! upto_seq s = Some s ∧ upto_seq s ≤ bound ∧
        ∀ v s', m !! v = Some s' → file_for v ∈ file_for u :: ns → v ≤ bound → v ≤ upto_seq s
    | None => ∀ v s', m !! v = Some s' → file_for v ∈ file_for u :: ns → bound < v
    end) as Hskip.
  { intros Hno. destruct r as [s|].
    - destruct Hr as (? & ? & Hmax). split_and!; try done. intros v s' Hv Hin Hb.
      destruct (Hsplit v s' Hv Hin) as [->|Hin']; [|by eapply Hmax]. destruct Hno as [?|(? & _ & ?)]; [congruence|lia].
    - intros v s' Hv Hin. destruct (Hsplit v s' Hv Hin) as [->|Hin']; [|by eapply Hr].
      destruct Hno as [?|(? & _ & ?)]; [congruence|lia]. }
  destruct (m !! u) as [s|] eqn:Em; simpl in Hh.
  - destruct Hh as (-> & Eu & Hok). rewrite (decode_encode s Hok). cbn [mbind run_bind]. rewrite Eu.
    destruct (Z.leb_spec u bound) as [Hb|Hb]; [|exists r; split; [done|]; apply Hskip; eauto].
    exists (Some s). split; [done|]. rewrite Eu. split_and!; try done. intros v s' Hv Hin _.
    destruct (Hsplit v s' Hv Hin) as [->|Hin']; [done|]. rewrite Forall_forall in HF. specialize (HF _ Hin').
    apply (file_for_order v u); [by eapply do_saved|done|exact HF].
  - exists r. destruct c as [bs|]; [|split; [done|apply Hskip; by left]].
    destruct Hh as [e ->]. split; [done|apply Hskip; by left].
Qed.

(** The newest snapshot wins, and nothing that went wrong can win instead.
    Whatever snapshots were saved, replaced, half written by a process that
    died, damaged so that they do not verify, or made unreadable: asking for a
    snapshot at or before a sequence number returns, byte for byte, the one
    with the greatest sequence number among the undamaged ones, and nothing
    exactly when there is none. *)
Theorem newest_snapshot_wins d m (bound : Z) (Hd : stored d m) :
  ∃ r, SnapshotStore.latest_at_or_before d true bound = Ret (Ok r) ∧ best m bound r.
Proof.
  pose proof (stored_ok d m Hd) as Hok. unfold SnapshotStore.latest_at_or_before. destruct d as [d|].
  - simpl in Hok. set (ns := reverse (SnapshotStore.candidates d)).
    assert (∀ n, n ∈ ns ↔ is_Some (d !! n) ∧ extension n = Some oqsn) as Hns.
    { intros n. unfold ns, SnapshotStore.candidates. rewrite elem_of_reverse, merge_sort_Permutation, list_elem_of_filter.
      rewrite list_elem_of_fmap. split.
      - intros [He ([n' c] & -> & Hin)]. split; [|done]. exists c. by apply elem_of_map_to_list.
      - intros [[c Hc] He]. split; [done|]. exists (n, c). split; [done|]. by apply elem_of_map_to_list. }
    destruct (newest_best d m ns bound Hok) as (r & -> & Hr).
    + apply Forall_forall. intros n. apply Hns.
    + unfold ns, SnapshotStore.candidates. apply Sorted_StronglySorted.
      { intros a b c Hab Hbc. unfold flip in *. by transitivity b. }
      apply Sorted_reverse, Sorted_merge_sort, _.
    + exists r. split; [done|]. destruct r as [s|]; simpl.
      * destruct Hr as (? & ? & Hmax). split_and!; try done. intros u s' Hu. apply (Hmax u s' Hu).
        apply Hns. split; [by eapply do_saved|apply file_extension].
      * intros u s' Hu. apply (Hr u s' Hu), Hns. split; [by eapply do_saved|apply file_extension].
  - exists None. split; [done|]. intros u s Hu. simpl in Hok. destruct (do_saved _ _ Hok u s Hu) as [_ H]. by apply is_Some_None in H.
Qed.

Module DemoStore.
Definition ten : Snapshot := mkSnapshot 10 [1; 2; 3].
Definition twenty : Snapshot := mkSnapshot 20 [4].
Definition thirty : Snapshot := mkSnapshot 30 [5].
Definition damaged : list Z := take 20 (Snapshot.encode twenty) ++ [5].
Definition d1 : dir := default ∅ (SnapshotStore.save None SaveOk ten).2.
Definition d2 : dir := default ∅ (SnapshotStore.save (Some d1) SaveOk twenty).2.
Definition d3 : dir := <[file_for 20 := Some damaged]> d2.
Definition d4 : dir := default ∅ (SnapshotStore.save (Some d3) (SaveWrite 7) thirty).2.
End DemoStore.

Lemma demo_snapshot_ok u ps : bool_decide (u64 u) = true → bool_decide (bytes ps) = true → snapshot_ok (mkSnapshot u ps).
Proof. intros Hu%bool_decide_eq_true Hb%bool_decide_eq_true. by split. Qed.

Lemma ten_ok : snapshot_ok DemoStore.ten.
Proof. by apply demo_snapshot_ok. Qed.
Lemma twenty_ok : snapshot_ok DemoStore.twenty.
Proof. by apply demo_snapshot_ok. Qed.
Lemma thirty_ok : snapshot_ok DemoStore.thirty.
Proof. by apply demo_snapshot_ok. Qed.

(** The newest of two is damaged, and a third save dies half way. *)
Lemma newest_snapshot_wins_witness :
  ∃ m, stored (Some DemoStore.d4) m ∧ m !! 20 = None ∧ m !! 10 = Some DemoStore.ten ∧
    ∃ r, SnapshotStore.latest_at_or_before (Some DemoStore.d4) true 25 = Ret (Ok r) ∧ best m 25 r.
Proof.
  pose proof (stored_save None _ DemoStore.ten (Some DemoStore.d1) stored_new ten_ok eq_refl) as S1.
  pose proof (stored_save _ _ DemoStore.twenty (Some DemoStore.d2) S1 twenty_ok eq_refl) as S2.
  assert (∃ e, Snapshot.decode DemoStore.damaged = Ret (Err e)) as [e He] by (eexists; vm_compute; reflexivity).
  pose proof (stored_damage _ _ 20 _ e S2 (sn_upto_ok _ twenty_ok) He) as S3.
  pose proof (stored_stop _ _ (SaveWrite 7) DemoStore.thirty (Some DemoStore.d4) _ S3 thirty_ok eq_refl) as S4.
  eexists. split; [exact S4|]. split; [reflexivity|]. split; [reflexivity|].
  exact (newest_snapshot_wins _ _ 25 S4).
Defined.
