(* ===== verification/Event.v ===== *)
(** The events a kernel consumes ([oq-core/src/event.rs]). *)

From S2P Require Import Prelude Types Order Tick Depth.

Inductive Event :=
| ETick (instrument : option InstrumentId) (tick : Tick)
| ESubmit (instrument : option InstrumentId) (id : OrderId) (side : Side)
    (price : option PriceTicks) (qty : QtyLots) (offset : Offset) (stamp : Stamp)
| ECancel (id : OrderId) (stamp : Stamp)
| EFunding (instrument : option InstrumentId) (at_ : Nanos) (rate : Ratio) (mark : PriceTicks)
| EFundingCharged (instrument : option InstrumentId) (at_ : Nanos) (amount : Cash)
| EFeeRecovered (at_ : Nanos) (amount : Cash) (remaining_missing : Z)
| ETime (at_ : Nanos)
| EMarginDeposit (amount : Cash) (at_ : Nanos)
| EVenueFill (fill : Fill) (fee : Fee)
| EDepth (u : DepthUpdate).

#[export] Instance Event_eq_dec : EqDecision Event.
Proof. solve_decision. Defined.

(** When an event happened, on the venue's clock. *)
Definition event_at (e : Event) : Nanos :=
  match e with
  | ETick _ t => exch (t_stamp t)
  | ESubmit _ _ _ _ _ _ s | ECancel _ s => exch s
  | EFunding _ a _ _ | EFundingCharged _ a _ | EFeeRecovered a _ _ | ETime a | EMarginDeposit _ a => a
  | EVenueFill f _ => exch (f_stamp f)
  | EDepth u => sat64 (event_ms u * 1000000)
  end.
