(* ===== verification/Codec.v ===== *)
(** Events as journal payloads ([Event::kind], [encode] and [decode] of
    [oq-core/src/event.rs]). *)

From S2P Require Import Prelude Bytes Types Order Tick Depth Event.

Implicit Types (e : Event) (bs : list Z).

(** * Kinds *)

Definition TICK : Z := 1.
Definition SUBMIT_LEGACY : Z := 2.
Definition CANCEL : Z := 3.
Definition FUNDING : Z := 4.
Definition TIME : Z := 5.
Definition MARGIN_DEPOSIT : Z := 6.
Definition SUBMIT : Z := 7.
Definition VENUE_FILL : Z := 8.
Definition DEPTH : Z := 9.
Definition TICK_ON : Z := 10.
Definition SUBMIT_ON : Z := 11.
Definition FUNDING_ON : Z := 12.
Definition FUNDING_CHARGED : Z := 13.
Definition FEE_RECOVERED : Z := 14.

Definition kind e : Z :=
  match e with
  | ETick None _ => TICK
  | ETick (Some _) _ => TICK_ON
  | ESubmit None _ _ _ _ _ _ => SUBMIT
  | ESubmit (Some _) _ _ _ _ _ _ => SUBMIT_ON
  | ECancel _ _ => CANCEL
  | EFunding None _ _ _ => FUNDING
  | EFunding (Some _) _ _ _ => FUNDING_ON
  | EFundingCharged _ _ _ => FUNDING_CHARGED
  | EFeeRecovered _ _ _ => FEE_RECOVERED
  | ETime _ => TIME
  | EMarginDeposit _ _ => MARGIN_DEPOSIT
  | EVenueFill _ _ => VENUE_FILL
  | EDepth _ => DEPTH
  end.

(** * Encoding *)

Definition u8_of_bool (b : bool) : Z := if b then 1 else 0.
Definition side_byte (s : Side) : Z := match s with Buy => 0 | Sell => 1 end.
Definition offset_byte (o : Offset) : Z := match o with Open => 0 | Close => 1 end.
Definition liquidity_byte (l : Liquidity) : Z := match l with Maker => 0 | Taker => 1 end.
Definition put_instrument (i : option InstrumentId) : list Z :=
  match i with Some id => le 4 id | None => [] end.
Definition put_fee (fee : Fee) : list Z :=
  match fee with Unsaid => [0] | Reported c => 1 :: le 8 c | Unreadable => [2] end.
Definition put_stamp (s : Stamp) : list Z := le 8 (exch s) ++ le 8 (local s).
Definition put_level (l : Level) : list Z := le 8 (l_price l) ++ le 8 (l_qty l).
Definition put_levels (ls : list Level) : list Z := concat (put_level <$> ls).

Definition encode_depth (u : DepthUpdate) : list Z :=
  le 8 (event_ms u) ++ le 8 (first_id u) ++ le 8 (final_id u) ++ le 8 (default 0 (prev_final_id u)) ++
  [u8_of_bool (bool_decide (is_Some (prev_final_id u)))] ++
  le 4 (Z.of_nat (length (u_bids u))) ++ le 4 (Z.of_nat (length (u_asks u))) ++
  put_levels (u_bids u ++ u_asks u).

Definition encode e : list Z :=
  match e with
  | EDepth u => encode_depth u
  | ETick i t =>
      put_stamp (t_stamp t) ++ le 8 (t_last t) ++ le 8 (t_high t) ++ le 8 (t_low t) ++ le 8 (t_bid t) ++
      le 8 (t_ask t) ++ le 8 (t_volume t) ++ put_instrument i
  | ESubmit i id side price qty offset stamp =>
      le 8 id ++ [side_byte side] ++ [u8_of_bool (bool_decide (is_Some price))] ++
      le 8 (default 0 price) ++ le 8 qty ++ put_stamp stamp ++ [offset_byte offset] ++ put_instrument i
  | ECancel id stamp => le 8 id ++ put_stamp stamp
  | EFunding i at_ rate mark => le 8 at_ ++ le 8 rate ++ le 8 mark ++ put_instrument i
  | EFundingCharged i at_ amount => le 8 at_ ++ le 8 amount ++ put_instrument i
  | ETime at_ => le 8 at_
  | EFeeRecovered at_ amount missing => le 8 at_ ++ le 8 amount ++ le 8 missing
  | EVenueFill f fee =>
      put_stamp (f_stamp f) ++ le 4 (f_instrument f) ++ le 8 (f_order f) ++ le 8 (f_trade f) ++
      le 8 (f_price f) ++ le 8 (f_qty f) ++ [side_byte (f_side f)] ++ [offset_byte (f_offset f)] ++
      [liquidity_byte (f_liquidity f)] ++ put_fee fee
  | EMarginDeposit amount at_ => le 8 amount ++ le 8 at_
  end.

(** * Decoding *)

(** A computation that may panic and may refuse: [?] on an [Option]. *)
Definition try_ {A B} (o : option A) (k : A → run (option B)) : run (option B) :=
  match o with Some a => k a | None => mret None end.
Notation "x ←? o ; k" := (try_ o (λ x, k)) (at level 20, o at level 100, k at level 200, right associativity).

Definition at_i64 bs (i : nat) : option Z := unle_i64 <$> slice i 8 bs.
Definition at_u64 bs (i : nat) : option Z := unle <$> slice i 8 bs.
Definition at_u32 bs (i : nat) : option Z := unle <$> slice i 4 bs.
(** [i64_at]: the [i]th word of eight bytes. *)
Definition i64_at bs (i : nat) : option Z := at_i64 bs (i * 8).
(** [b\[i..i+8\]] and [b\[i..i+4\]], which panic. *)
Definition ix_u64 bs (i : nat) : run Z := unle <$> slice_ix i 8 bs.
Definition ix_u32 bs (i : nat) : run Z := unle <$> slice_ix i 4 bs.

Definition side_of (b : Z) : option Side := if b =? 0 then Some Buy else if b =? 1 then Some Sell else None.
Definition offset_of (b : Z) : option Offset := if b =? 0 then Some Open else if b =? 1 then Some Close else None.
Definition liquidity_of (b : Z) : option Liquidity :=
  if b =? 0 then Some Maker else if b =? 1 then Some Taker else None.

Definition decode_tick (named : bool) bs : run (option Event) :=
  if negb (length bs =? (if named then 68 else 64))%nat then mret None
  else
    i ←? (if named then Some <$> at_u32 bs 64 else Some None);
    a ←? i64_at bs 0; b ←? i64_at bs 1;
    last ←? i64_at bs 2; high ←? i64_at bs 3; low ←? i64_at bs 4; bid ←? i64_at bs 5; ask ←? i64_at bs 6;
    volume ←? i64_at bs 7;
    mret (Some (ETick i (mkTick (mkStamp a b) last high low bid ask volume))).

Definition decode_submit (k : Z) bs : run (option Event) :=
  let expected := if k =? SUBMIT_LEGACY then 42%nat else if k =? SUBMIT then 43%nat else 47%nat in
  if negb (length bs =? expected)%nat then mret None
  else
    i ←? (if k =? SUBMIT_ON then Some <$> at_u32 bs 43 else Some None);
    ob ← (if negb (k =? SUBMIT_LEGACY) then ix bs 42 else mret 0);
    offset ←? offset_of ob;
    id ← ix_u64 bs 0;
    sb ← ix bs 8;
    side ←? side_of sb;
    pb ← ix bs 9;
    let rest := drop 10 bs in
    price_raw ←? i64_at rest 0;
    qty ←? i64_at rest 1;
    a ←? i64_at rest 2; b ←? i64_at rest 3;
    mret (Some (ESubmit i id side (if pb =? 1 then Some price_raw else None) qty offset (mkStamp a b))).

Definition decode_cancel bs : run (option Event) :=
  if negb (length bs =? 24)%nat then mret None
  else
    id ← ix_u64 bs 0;
    let rest := drop 8 bs in
    a ←? i64_at rest 0; b ←? i64_at rest 1;
    mret (Some (ECancel id (mkStamp a b))).

Definition decode_funding (named : bool) bs : run (option Event) :=
  if negb (length bs =? (if named then 28 else 24))%nat then mret None
  else
    i ← (if named then Some <$> ix_u32 bs 24 else mret None);
    a ←? i64_at bs 0; r ←? i64_at bs 1; m ←? i64_at bs 2;
    mret (Some (EFunding i a r m)).

Definition decode_funding_charged bs : run (option Event) :=
  if (length bs =? 16)%nat then
    a ←? i64_at bs 0; c ←? i64_at bs 1; mret (Some (EFundingCharged None a c))
  else if (length bs =? 20)%nat then
    i ← ix_u32 bs 16;
    a ←? i64_at bs 0; c ←? i64_at bs 1; mret (Some (EFundingCharged (Some i) a c))
  else mret None.

Definition decode_time bs : run (option Event) :=
  if negb (length bs =? 8)%nat then mret None
  else a ←? i64_at bs 0; mret (Some (ETime a)).

Definition decode_fee_recovered bs : run (option Event) :=
  if negb (length bs =? 24)%nat then mret None
  else
    a ←? i64_at bs 0; c ←? i64_at bs 1; m ← ix_u64 bs 16;
    mret (Some (EFeeRecovered a c m)).

Definition decode_margin_deposit bs : run (option Event) :=
  if negb (length bs =? 16)%nat then mret None
  else c ←? i64_at bs 0; a ←? i64_at bs 1; mret (Some (EMarginDeposit c a)).

Definition DEPTH_HEADER : nat := 41.

Fixpoint read_levels bs (o : nat) (n : nat) : option (list Level) :=
  match n with
  | O => Some []
  | S n =>
      p ← at_i64 bs o; q ← at_i64 bs (o + 8);
      ls ← read_levels bs (o + 16) n;
      Some (mkLevel p q :: ls)
  end.

(** [usize] is 64 bits wide: two [u32] counts cannot overflow it. *)
Definition decode_depth bs : run (option Event) :=
  if (length bs <? DEPTH_HEADER)%nat then mret None
  else
    prev ←? at_u64 bs 24;
    pb ← ix bs 32;
    prev_final ←? (if pb =? 0 then Some None else if pb =? 1 then Some (Some prev) else None);
    n_bids ←? Z.to_nat <$> at_u32 bs 33;
    n_asks ←? Z.to_nat <$> at_u32 bs 37;
    let levels := (n_bids + n_asks)%nat in
    if negb (length bs =? DEPTH_HEADER + levels * 16)%nat then mret None
    else
      read ←? read_levels bs DEPTH_HEADER levels;
      ms ←? at_i64 bs 0; first ←? at_u64 bs 8; final ←? at_u64 bs 16;
      mret (Some (EDepth (mkUpdate ms first final prev_final (take n_bids read) (drop n_bids read)))).

Definition fee_of bs : run (option Fee) :=
  if (length bs =? 55)%nat then mret (Some Unsaid)
  else if (length bs =? 56)%nat then
    b ← ix bs 55;
    mret (if b =? 0 then Some Unsaid else if b =? 2 then Some Unreadable else None)
  else if (length bs =? 64)%nat then
    b ← ix bs 55;
    if b =? 1 then c ←? i64_at bs 7; mret (Some (Reported c)) else mret None
  else mret None.

Definition decode_venue_fill bs : run (option Event) :=
  r ← fee_of bs;
  fee ←? r;
  a ←? i64_at bs 0; b ←? i64_at bs 1;
  i ←? at_u32 bs 16; order ←? at_u64 bs 20; trade ←? at_u64 bs 28;
  price ←? at_i64 bs 36; qty ←? at_i64 bs 44;
  side ←? bs !! 52%nat ≫= side_of;
  offset ←? bs !! 53%nat ≫= offset_of;
  liquidity ←? bs !! 54%nat ≫= liquidity_of;
  mret (Some (EVenueFill (mkFill (mkStamp a b) i order trade side offset price qty liquidity) fee)).

Definition decode (k : Z) bs : run (option Event) :=
  if (k =? TICK) || (k =? TICK_ON) then decode_tick (k =? TICK_ON) bs
  else if (k =? SUBMIT) || (k =? SUBMIT_LEGACY) || (k =? SUBMIT_ON) then decode_submit k bs
  else if k =? CANCEL then decode_cancel bs
  else if (k =? FUNDING) || (k =? FUNDING_ON) then decode_funding (k =? FUNDING_ON) bs
  else if k =? FUNDING_CHARGED then decode_funding_charged bs
  else if k =? TIME then decode_time bs
  else if k =? FEE_RECOVERED then decode_fee_recovered bs
  else if k =? MARGIN_DEPOSIT then decode_margin_deposit bs
  else if k =? DEPTH then decode_depth bs
  else if k =? VENUE_FILL then decode_venue_fill bs
  else mret None.

(** * Well-formed events: every field within its type *)

Definition instrument_ok (i : option InstrumentId) : Prop := match i with Some id => u32 id | None => True end.
Definition stamp_ok (s : Stamp) : Prop := i64 (exch s) ∧ i64 (local s).
Definition level_ok (l : Level) : Prop := i64 (l_price l) ∧ i64 (l_qty l).
Definition tick_ok (t : Tick) : Prop :=
  stamp_ok (t_stamp t) ∧ i64 (t_last t) ∧ i64 (t_high t) ∧ i64 (t_low t) ∧ i64 (t_bid t) ∧ i64 (t_ask t) ∧
  i64 (t_volume t).
Definition fill_wf (f : Fill) : Prop :=
  stamp_ok (f_stamp f) ∧ u32 (f_instrument f) ∧ u64 (f_order f) ∧ u64 (f_trade f) ∧ i64 (f_price f) ∧ i64 (f_qty f).
Definition depth_ok (u : DepthUpdate) : Prop :=
  i64 (event_ms u) ∧ u64 (first_id u) ∧ u64 (final_id u) ∧
  match prev_final_id u with Some p => u64 p | None => True end ∧
  Forall level_ok (u_bids u) ∧ Forall level_ok (u_asks u) ∧
  u32 (Z.of_nat (length (u_bids u))) ∧ u32 (Z.of_nat (length (u_asks u))).

Definition event_wf e : Prop :=
  match e with
  | ETick i t => instrument_ok i ∧ tick_ok t
  | ESubmit i id _ price qty _ stamp =>
      instrument_ok i ∧ u64 id ∧ match price with Some p => i64 p | None => True end ∧ i64 qty ∧ stamp_ok stamp
  | ECancel id stamp => u64 id ∧ stamp_ok stamp
  | EFunding i a r m => instrument_ok i ∧ i64 a ∧ i64 r ∧ i64 m
  | EFundingCharged i a c => instrument_ok i ∧ i64 a ∧ i64 c
  | ETime a => i64 a
  | EFeeRecovered a c m => i64 a ∧ i64 c ∧ u64 m
  | EVenueFill f fee => fill_wf f ∧ match fee with Reported c => i64 c | _ => True end
  | EMarginDeposit c a => i64 c ∧ i64 a
  | EDepth u => depth_ok u
  end.

(** * The round trip *)

Lemma try_some {A B} (a : A) (k : A → run (option B)) : try_ (Some a) k = k a.
Proof. done. Qed.

(** Lay the record out flat, and read its fields back. *)
Ltac lay := unfold put_stamp; rewrite <-?(assoc_L (++)).
Ltac len := rewrite ?length_app, ?length_le; cbn [length Nat.add Nat.eqb negb Nat.ltb Nat.leb].
Ltac fields :=
  unfold i64_at, at_i64, at_u64, at_u32, ix_u64, ix_u32, slice_ix, ix; cbn [Nat.mul Nat.add app];
  rd; cbn [fmap option_fmap option_map expect mbind run_bind run_fmap try_ option_bind];
  rewrite ?unle_i64_le, ?unle_u64, ?unle_u32 by done.

Lemma roundtrip_tick i t : instrument_ok i → tick_ok t →
  decode (kind (ETick i t)) (encode (ETick i t)) = Ret (Some (ETick i t)).
Proof.
  intros Hi ((?&?)&?&?&?&?&?&?). destruct i as [id|]; simpl in Hi.
  - change (decode_tick true (encode (ETick (Some id) t)) = Ret (Some (ETick (Some id) t))).
    unfold decode_tick, encode, put_instrument. lay. len. fields. destruct t as [[??]]. done.
  - change (decode_tick false (encode (ETick None t)) = Ret (Some (ETick None t))).
    unfold decode_tick, encode, put_instrument. lay. len. fields. destruct t as [[??]]. done.
Qed.

Lemma side_of_byte s : side_of (side_byte s) = Some s.
Proof. by destruct s. Qed.
Lemma offset_of_byte o : offset_of (offset_byte o) = Some o.
Proof. by destruct o. Qed.
Lemma liquidity_of_byte l : liquidity_of (liquidity_byte l) = Some l.
Proof. by destruct l. Qed.

Lemma roundtrip_submit i id sd p q o st : event_wf (ESubmit i id sd p q o st) →
  let e := ESubmit i id sd p q o st in decode (kind e) (encode e) = Ret (Some e).
Proof.
  intros (Hi & ? & Hp & ? & ? & ?) e. assert (i64 (default 0 p)) as Hp0 by (by destruct p).
  destruct i as [n|]; simpl in Hi; [change (decode_submit SUBMIT_ON (encode e) = Ret (Some e))
    |change (decode_submit SUBMIT (encode e) = Ret (Some e))]; unfold decode_submit, encode, e, put_instrument;
  cbn [Z.eqb Pos.eqb SUBMIT_ON SUBMIT SUBMIT_LEGACY]; lay; len; fields;
  rewrite offset_of_byte, side_of_byte; cbn [try_]; destruct p, st; done.
Qed.

Lemma roundtrip_funding i a r m : event_wf (EFunding i a r m) →
  let e := EFunding i a r m in decode (kind e) (encode e) = Ret (Some e).
Proof.
  intros (Hi & ? & ? & ?) e. destruct i as [n|]; simpl in Hi;
    [change (decode_funding true (encode e) = Ret (Some e))|change (decode_funding false (encode e) = Ret (Some e))];
  unfold decode_funding, encode, e, put_instrument; lay; len; by fields.
Qed.

Lemma roundtrip_funding_charged i a c : event_wf (EFundingCharged i a c) →
  let e := EFundingCharged i a c in decode (kind e) (encode e) = Ret (Some e).
Proof.
  intros (Hi & ? & ?) e. change (decode_funding_charged (encode e) = Ret (Some e)).
  destruct i as [n|]; simpl in Hi; unfold decode_funding_charged, encode, e, put_instrument; lay; len; by fields.
Qed.

Lemma roundtrip_venue_fill f fee : event_wf (EVenueFill f fee) →
  let e := EVenueFill f fee in decode (kind e) (encode e) = Ret (Some e).
Proof.
  intros [((?&?)&?&?&?&?&?) Hfee] e. change (decode_venue_fill (encode e) = Ret (Some e)).
  unfold decode_venue_fill, fee_of, encode, e, put_fee.
  destruct f as [[??]], fee; simpl in *; lay; len; fields;
    rewrite side_of_byte, offset_of_byte, liquidity_of_byte; done.
Qed.

Lemma read_levels_put pre ls tl : Forall level_ok ls →
  read_levels (pre ++ put_levels ls ++ tl) (length pre) (length ls) = Some ls.
Proof.
  intros HF. revert pre. induction HF as [|l ls [Hp Hq] HF IH]; intros pre; [done|].
  cbn [read_levels length]. change (put_levels (l :: ls)) with (put_level l ++ put_levels ls).
  unfold put_level, at_i64. set (tl' := put_levels ls ++ tl) in *.
  replace (pre ++ ((le 8 (l_price l) ++ le 8 (l_qty l)) ++ put_levels ls) ++ tl)
    with ((pre ++ le 8 (l_price l)) ++ le 8 (l_qty l) ++ tl') by (unfold tl'; by rewrite <-!(assoc_L (++))).
  rewrite (slice_cover (pre ++ _)) by (rewrite ?length_app, ?length_le; lia).
  rewrite <-(assoc_L (++) pre), (slice_cover pre) by (rewrite ?length_le; lia).
  cbn [fmap option_fmap option_map mbind option_bind]. rewrite !unle_i64_le by done.
  replace (pre ++ le 8 (l_price l) ++ le 8 (l_qty l) ++ tl')
    with ((pre ++ le 8 (l_price l) ++ le 8 (l_qty l)) ++ tl') by (by rewrite <-!(assoc_L (++))).
  replace (length pre + 16)%nat with (length (pre ++ le 8 (l_price l) ++ le 8 (l_qty l)))
    by (rewrite !length_app, !length_le; lia).
  rewrite IH. by destruct l.
Qed.
Lemma length_put_levels ls : length (put_levels ls) = (length ls * 16)%nat.
Proof.
  induction ls as [|l ls IH]; [done|]. change (put_levels (l :: ls)) with (put_level l ++ put_levels ls).
  rewrite length_app, IH. unfold put_level. rewrite length_app, !length_le. simpl. lia.
Qed.

Lemma roundtrip_depth u : depth_ok u → decode DEPTH (encode_depth u) = Ret (Some (EDepth u)).
Proof.
  intros (? & ? & ? & Hp & Hb & Ha & ? & ?). change (decode_depth (encode_depth u) = Ret (Some (EDepth u))).
  assert (u64 (default 0 (prev_final_id u))) as Hp0 by (by destruct (prev_final_id u)).
  set (nb := length (u_bids u)) in *. set (na := length (u_asks u)) in *.
  set (ls := u_bids u ++ u_asks u).
  assert (length ls = (nb + na)%nat) as Hls by apply length_app.
  set (bs := encode_depth u). assert (length bs = (41 + (nb + na) * 16)%nat) as Hl.
  { unfold bs, encode_depth. rewrite !length_app, !length_le, length_put_levels. fold ls. rewrite Hls. simpl. lia. }
  unfold decode_depth, DEPTH_HEADER. rewrite Hl. rewrite (proj2 (Nat.ltb_ge _ _)) by lia.
  set (head := le 8 (event_ms u) ++ le 8 (first_id u) ++ le 8 (final_id u) ++ le 8 (default 0 (prev_final_id u)) ++
    [u8_of_bool (bool_decide (is_Some (prev_final_id u)))] ++ le 4 (Z.of_nat nb) ++ le 4 (Z.of_nat na)).
  assert (bs = head ++ put_levels ls ++ []) as Ebs
    by (unfold bs, encode_depth, head; rewrite app_nil_r; by rewrite <-!(assoc_L (++))).
  assert (length head = 41%nat) as Hh by (unfold head; by rewrite !length_app, !length_le).
  assert (read_levels bs 41 (nb + na) = Some ls) as Er.
  { rewrite Ebs, <-Hh, <-Hls. apply read_levels_put. by apply Forall_app. }
  assert (at_u64 bs 24 = Some (default 0 (prev_final_id u)) ∧
    bs !! 32%nat = Some (u8_of_bool (bool_decide (is_Some (prev_final_id u)))) ∧
    at_u32 bs 33 = Some (Z.of_nat nb) ∧ at_u32 bs 37 = Some (Z.of_nat na) ∧ at_i64 bs 0 = Some (event_ms u) ∧
    at_u64 bs 8 = Some (first_id u) ∧ at_u64 bs 16 = Some (final_id u)) as (E1 & E2 & E3 & E4 & E5 & E6 & E7)
    by (unfold bs, encode_depth; split_and!; by fields).
  rewrite E1. cbn [try_]. unfold ix. rewrite E2. cbn [expect mbind run_bind].
  assert ((if u8_of_bool (bool_decide (is_Some (prev_final_id u))) =? 0 then Some None
    else if u8_of_bool (bool_decide (is_Some (prev_final_id u))) =? 1 then Some (Some (default 0 (prev_final_id u))) else None)
    = Some (prev_final_id u)) as -> by (by destruct (prev_final_id u)).
  rewrite E3, E4. cbn [try_ fmap option_fmap option_map]. rewrite !Nat2Z.id, Nat.eqb_refl. cbn [negb].
  rewrite Er, E5, E6, E7. cbn [try_]. unfold ls, nb. rewrite take_app_length, drop_app_length. by destruct u.
Qed.

Lemma event_decodes e : event_wf e → decode (kind e) (encode e) = Ret (Some e).
Proof.
  intros He.
  destruct e; simpl in He.
  - destruct He. by apply roundtrip_tick.
  - by apply roundtrip_submit.
  - destruct He as (? & ? & ?). change (decode_cancel (encode (ECancel id stamp)) = Ret (Some (ECancel id stamp))).
    unfold decode_cancel, encode. lay. len. fields. by destruct stamp.
  - by apply roundtrip_funding.
  - by apply roundtrip_funding_charged.
  - destruct He as (? & ? & ?).
    change (decode_fee_recovered (encode (EFeeRecovered at_ amount remaining_missing)) =
      Ret (Some (EFeeRecovered at_ amount remaining_missing))).
    unfold decode_fee_recovered, encode. lay. len. by fields.
  - change (decode_time (encode (ETime at_)) = Ret (Some (ETime at_))).
    unfold decode_time, encode. lay. len. by fields.
  - destruct He as (? & ?).
    change (decode_margin_deposit (encode (EMarginDeposit amount at_)) = Ret (Some (EMarginDeposit amount at_))).
    unfold decode_margin_deposit, encode. lay. len. by fields.
  - by apply roundtrip_venue_fill.
  - by apply roundtrip_depth.
Qed.

(** C33. Every event survives the journal: what is encoded under an event's
    kind decodes to that event, whatever its fields, an unpriced order, an
    unnamed instrument and an empty or two-sided depth update included; so two
    events that leave the same record are the same event. *)
Theorem event_roundtrip e (He : event_wf e) :
  decode (kind e) (encode e) = Ret (Some e) ∧
  ∀ e', event_wf e' → kind e' = kind e → encode e' = encode e → e' = e.
Proof.
  split; [by apply event_decodes|]. intros e' He' Ek Ee.
  pose proof (event_decodes e' He') as H. rewrite Ek, Ee, (event_decodes e He) in H. by injection H.
Qed.

Lemma event_roundtrip_witness :
  let e := EDepth (mkUpdate (-5) 7 9 (Some 6) [mkLevel 100 3] [mkLevel 101 4; mkLevel 102 0]) in
  decode (kind e) (encode e) = Ret (Some e).
Proof.
  apply (event_roundtrip (EDepth (mkUpdate (-5) 7 9 (Some 6) [mkLevel 100 3] [mkLevel 101 4; mkLevel 102 0]))).
  simpl. unfold depth_ok; simpl. split_and!; try mlia; repeat constructor; simpl; mlia.
Defined.

(** * Every record decodes or is refused *)

Definition decoded (o : option Event) : Prop := match o with Some e => event_wf e | None => True end.

Lemma returns_try {A B} (o : option A) (k : A → run (option B)) (P : option B → Prop) :
  P None → (∀ a, o = Some a → returns (k a) P) → returns (try_ o k) P.
Proof. intros HN Hk. destruct o as [a|]; [by apply Hk|by apply returns_ret]. Qed.

Lemma returns_ix {B} bs i (k : Z → run B) (P : B → Prop) : (i < length bs)%nat →
  (∀ b, returns (k b) P) → returns (ix bs i ≫= k) P.
Proof. intros Hi Hk. unfold ix. destruct (lookup_lt_is_Some_2 bs i Hi) as [b ->]. by apply Hk. Qed.

Lemma slice_word n bs i v : bytes bs → (λ s, unle s) <$> slice i n bs = Some v → 0 ≤ v < 256 ^ Z.of_nat n.
Proof.
  intros Hb H. apply fmap_Some in H as (s & Hs & ->). destruct (slice_length _ _ _ _ Hs) as [<- _].
  apply unle_bound. by eapply slice_bytes.
Qed.
Lemma at_u64_u64 bs i v : bytes bs → at_u64 bs i = Some v → u64 v.
Proof. intros Hb H. apply slice_word in H; [|done]. simpl in H. mlia. Qed.
Lemma at_u32_u32 bs i v : bytes bs → at_u32 bs i = Some v → u32 v.
Proof. intros Hb H. apply slice_word in H; [|done]. simpl in H. mlia. Qed.
Lemma at_i64_i64 bs i v : bytes bs → at_i64 bs i = Some v → i64 v.
Proof.
  intros Hb H. unfold at_i64 in H. apply fmap_Some in H as (s & Hs & ->). destruct (slice_length _ _ _ _ Hs) as [Hl _].
  apply signed64_range. pose proof (unle_bound s (slice_bytes _ _ _ _ Hb Hs)) as Hu. rewrite Hl in Hu. simpl in Hu. lia.
Qed.
Lemma i64_at_i64 bs i v : bytes bs → i64_at bs i = Some v → i64 v.
Proof. apply at_i64_i64. Qed.

Lemma returns_ix_u64 {B} bs i (k : Z → run B) (P : B → Prop) : bytes bs → (i + 8 ≤ length bs)%nat →
  (∀ v, u64 v → returns (k v) P) → returns (ix_u64 bs i ≫= k) P.
Proof.
  intros Hb Hl Hk. unfold ix_u64, slice_ix. destruct (slice_some i 8 bs Hl) as [s Hs]. rewrite Hs.
  cbn [expect fmap run_fmap mbind run_bind]. apply Hk. apply (at_u64_u64 bs i); [done|]. unfold at_u64. by rewrite Hs.
Qed.
Lemma returns_ix_u32 {B} bs i (k : Z → run B) (P : B → Prop) : bytes bs → (i + 4 ≤ length bs)%nat →
  (∀ v, u32 v → returns (k v) P) → returns (ix_u32 bs i ≫= k) P.
Proof.
  intros Hb Hl Hk. unfold ix_u32, slice_ix. destruct (slice_some i 4 bs Hl) as [s Hs]. rewrite Hs.
  cbn [expect fmap run_fmap mbind run_bind]. apply Hk. apply (at_u32_u32 bs i); [done|]. unfold at_u32. by rewrite Hs.
Qed.

#[local] Hint Resolve i64_at_i64 at_i64_i64 at_u64_u64 at_u32_u32 : codec.

(** One field after another; the lengths were checked first. *)
Ltac field :=
  first [ apply returns_ret; exact I
        | apply returns_try; [exact I|intros ? ?]
        | apply returns_ix; [lia|intros ?]
        | apply returns_ix_u64; [done|lia|intros ? ?]
        | apply returns_ix_u32; [done|lia|intros ? ?] ].
Ltac total := repeat field.

Lemma tick_total named bs : bytes bs → returns (decode_tick named bs) decoded.
Proof.
  intros Hb. unfold decode_tick. destruct (negb _); [total|]. total. apply returns_ret. simpl.
  unfold tick_ok, stamp_ok; simpl. split; [|split_and!; eauto with codec].
  destruct named; [|injection H as <-; exact I]. apply fmap_Some in H as (? & H & ->). simpl. eauto with codec.
Qed.

Lemma submit_total k bs : bytes bs → (k = SUBMIT ∨ k = SUBMIT_LEGACY ∨ k = SUBMIT_ON) → returns (decode_submit k bs) decoded.
Proof.
  intros Hb Hk. unfold decode_submit. destruct (Nat.eqb_spec (length bs) (if k =? SUBMIT_LEGACY then 42 else if k =? SUBMIT then 43 else 47)) as [Hl|];
    [|total]. cbn [negb]. assert (bytes (drop 10 bs)) as Hd by by apply Forall_drop.
  field. assert (instrument_ok a) as Hi.
  { destruct (k =? SUBMIT_ON); [|injection H as <-; exact I]. apply fmap_Some in H as (? & H & ->). simpl. eauto with codec. }
  assert (42 ≤ length bs)%nat as Hlen by (destruct Hk as [-> |[-> | ->]]; rewrite Hl; simpl; lia).
  apply returns_bind. assert (∃ ob, (if negb (k =? SUBMIT_LEGACY) then ix bs 42 else mret 0) = Ret ob) as [ob ->].
  { destruct Hk as [-> |[-> | ->]]; simpl in *; try (by eexists); unfold ix;
      (destruct (lookup_lt_is_Some_2 bs 42) as [b ->]; [lia|by eexists]). }
  apply returns_Ret. total. apply returns_ret. simpl. unfold stamp_ok; simpl. split_and!; eauto with codec.
  destruct (_ =? 1); simpl; [eauto with codec|exact I].
Qed.

Lemma levels_ok n bs o ls : bytes bs → read_levels bs o n = Some ls → Forall level_ok ls ∧ length ls = n.
Proof.
  intros Hb. revert o ls. induction n as [|n IH]; intros o ls H; simpl in H; [by injection H as <-|].
  destruct (at_i64 bs o) as [p|] eqn:Ep; [|done]. destruct (at_i64 bs (o + 8)) as [q|] eqn:Eq; [|done].
  cbn [mbind option_bind] in H. destruct (read_levels bs (o + 16) n) as [l|] eqn:El; [|done]. injection H as <-.
  destruct (IH _ _ El) as [HF Hn]. split; [|simpl; by rewrite Hn]. constructor; [|done]. split; simpl; eauto with codec.
Qed.

Lemma depth_total bs : bytes bs → returns (decode_depth bs) decoded.
Proof.
  intros Hb. unfold decode_depth, DEPTH_HEADER. destruct (Nat.ltb_spec (length bs) 41); [total|].
  field. field. field. field. field.
  destruct (negb _); [total|]. total. apply returns_ret. unfold decoded, event_wf, depth_ok; simpl.
  destruct (levels_ok _ _ _ _ Hb H4) as [HF Hn].
  assert (∀ i x, Z.to_nat <$> at_u32 bs i = Some x → u32 (Z.of_nat x)) as Hcount.
  { intros i x Hx. apply fmap_Some in Hx as (v & Hv & ->). apply at_u32_u32 in Hv; [|done]. mlia. }
  split_and!; eauto with codec.
  - destruct (b =? 0); [by injection H1 as <-|]. destruct (b =? 1); [|done]. injection H1 as <-. eauto with codec.
  - by apply Forall_take.
  - by apply Forall_drop.
  - rewrite length_take, Hn. rewrite Nat.min_l by lia. by eapply Hcount.
  - rewrite length_drop, Hn. replace (a1 + a2 - a1)%nat with a2 by lia. by eapply Hcount.
Qed.

Lemma cancel_total bs : bytes bs → returns (decode_cancel bs) decoded.
Proof.
  intros Hb. unfold decode_cancel. destruct (Nat.eqb_spec (length bs) 24); cbn [negb]; [|total].
  assert (bytes (drop 8 bs)) by by apply Forall_drop. total. apply returns_ret. simpl. split; [done|].
  split; simpl; eauto with codec.
Qed.

Lemma funding_total named bs : bytes bs → returns (decode_funding named bs) decoded.
Proof.
  intros Hb. unfold decode_funding.
  destruct (Nat.eqb_spec (length bs) (if named then 28 else 24)) as [Hl|]; cbn [negb]; [|total].
  destruct named.
  - apply returns_bind. destruct (slice_some 24 4 bs) as [s Hs]; [lia|]. unfold ix_u32, slice_ix. rewrite Hs.
    apply returns_Ret. total. apply returns_ret. simpl. split_and!; eauto with codec.
    apply (at_u32_u32 bs 24); [done|]. unfold at_u32. by rewrite Hs.
  - apply returns_bind, returns_ret. total. apply returns_ret. simpl. split_and!; eauto with codec.
Qed.

Lemma funding_charged_total bs : bytes bs → returns (decode_funding_charged bs) decoded.
Proof.
  intros Hb. unfold decode_funding_charged.
  destruct (Nat.eqb_spec (length bs) 16); [total; apply returns_ret; simpl; split_and!; eauto with codec|].
  destruct (Nat.eqb_spec (length bs) 20); [|total].
  total. apply returns_ret. simpl. split_and!; eauto with codec.
Qed.

Lemma venue_fill_total bs : bytes bs → returns (decode_venue_fill bs) decoded.
Proof.
  intros Hb. unfold decode_venue_fill. apply returns_bind.
  assert (returns (fee_of bs) (λ r, match r with Some (Reported c) => i64 c | _ => True end)) as (r & -> & Hr).
  { unfold fee_of. destruct (Nat.eqb_spec (length bs) 55); [by apply returns_ret|].
    destruct (Nat.eqb_spec (length bs) 56); [field; apply returns_ret; by repeat case_match|].
    destruct (Nat.eqb_spec (length bs) 64); [|by apply returns_ret]. field. destruct (_ =? 1); [|by apply returns_ret].
    field. apply returns_ret. eauto with codec. }
  apply returns_Ret. field. subst r. total. apply returns_ret. simpl. unfold fill_wf, stamp_ok; simpl.
  split; [split_and!; eauto with codec|]. by destruct a.
Qed.

(** Every record decodes or is refused.  Whatever bytes a record carries
    and whatever its kind says, decoding them neither panics nor reads past
    them: it answers with nothing, or with an event every field of which is in
    the range of its type, which can therefore be journaled again. *)
Theorem decode_is_total (k : Z) bs (Hb : bytes bs) :
  returns (decode k bs) (λ o, match o with
    | Some e => event_wf e ∧ decode (kind e) (encode e) = Ret (Some e)
    | None => True
    end).
Proof.
  apply (returns_mono _ decoded); [|intros [e|] He; [split; [done|by apply event_decodes]|done]].
  unfold decode. destruct ((k =? TICK) || (k =? TICK_ON)); [by apply tick_total|].
  destruct ((k =? SUBMIT) || (k =? SUBMIT_LEGACY) || (k =? SUBMIT_ON)) eqn:E2.
  { apply submit_total; [done|]. rewrite !orb_true_iff, !Z.eqb_eq in E2. tauto. }
  destruct (k =? CANCEL); [by apply cancel_total|]. destruct ((k =? FUNDING) || (k =? FUNDING_ON)); [by apply funding_total|].
  destruct (k =? FUNDING_CHARGED); [by apply funding_charged_total|].
  destruct (k =? TIME).
  { unfold decode_time. destruct (negb _); total. apply returns_ret. simpl. eauto with codec. }
  destruct (k =? FEE_RECOVERED).
  { unfold decode_fee_recovered. destruct (Nat.eqb_spec (length bs) 24); cbn [negb]; [|total].
    total. apply returns_ret. simpl. split_and!; eauto with codec. }
  destruct (k =? MARGIN_DEPOSIT).
  { unfold decode_margin_deposit. destruct (negb _); total. apply returns_ret. simpl. split; eauto with codec. }
  destruct (k =? DEPTH); [by apply depth_total|]. destruct (k =? VENUE_FILL); [by apply venue_fill_total|total].
Qed.

(** An unpriced order whose flag byte says neither yes nor no. *)
Definition odd_submit : list Z := le 8 1 ++ [0; 7] ++ le 8 100 ++ le 8 10 ++ le 8 1 ++ le 8 1 ++ [0].
Lemma odd_submit_bytes : bytes odd_submit.
Proof. apply (bool_decide_eq_true_1 _). by vm_compute. Qed.
Lemma decode_is_total_witness :
  returns (decode SUBMIT odd_submit) (λ o, match o with
    | Some e => event_wf e ∧ decode (kind e) (encode e) = Ret (Some e)
    | None => True
    end).
Proof. exact (decode_is_total SUBMIT odd_submit odd_submit_bytes). Defined.

(** * Where decoding is lenient *)

(** A price flag other than 0 and 1 reads as a market order, where every other
    such byte is refused. *)
Lemma odd_price_flag_is_a_market_order :
  decode SUBMIT odd_submit = Ret (Some (ESubmit None 1 Buy None 10 Open (mkStamp 1 1))) ∧
  decode SUBMIT (<[8%nat := 7]> odd_submit) = Ret None ∧ decode SUBMIT (<[42%nat := 7]> odd_submit) = Ret None.
Proof. split_and!; by vm_compute. Qed.

(** A fill record that lost its commission decodes as one that never had it. *)
Definition charged_fill : Event :=
  EVenueFill (mkFill (mkStamp 1 1) 7 2 3 Buy Open 100 5 Taker) (Reported 12345).
Lemma truncated_fill_loses_its_fee :
  length (encode charged_fill) = 64%nat ∧
  decode VENUE_FILL (take 55 (encode charged_fill)) =
    Ret (Some (EVenueFill (mkFill (mkStamp 1 1) 7 2 3 Buy Open 100 5 Taker) Unsaid)).
Proof. split; by vm_compute. Qed.
