(* ===== verification/Kernel.v ===== *)
(** The account kernel ([oq-core/src/kernel.rs]): holdings, their position
    legs and cost bases, balances and counters, and what each event does to
    them.  The matcher of a holding is used through [MatcherOps] only. *)

From S2P Require Import Prelude Slices SortedVec Types Order Currency Margin Liquidation Funding.
From S2P Require Import Tick RestingBook L0 Depth Matcher Cost Event.

(** What the kernel asks of a matcher. *)
Class MatcherOps (M : Type) := {
  m_l0 : InstrumentId → M;
  m_instrument : M → InstrumentId;
  m_book : M → Book;
  m_shadowed : M → nat;
  m_id_watermark : M → Z * Z;
  m_submit : M → Working → Nanos → run M;
  m_cancel : M → OrderId → bool * M;
  m_cancel_all : M → nat * M;
  m_on_tick : M → Tick → run (list L0Fill * M);
  m_drain_unreported : M → list L0Fill * M;
  m_on_depth : M → DepthUpdate → run (DepthOutcome * M);
  m_on_gap : M → bool * M;
  m_install_snapshot : M → Z → list Level → list Level → bool * M;
  m_install_snapshot_at : M → Nanos → Z → list Level → list Level → bool * M;
}.

#[export] Instance Matcher_ops : MatcherOps Matcher := {
  m_l0 := Matcher.l0;
  m_instrument := Matcher.instrument;
  m_book := Matcher.book;
  m_shadowed := Matcher.shadowed;
  m_id_watermark := Matcher.id_watermark;
  m_submit := Matcher.submit;
  m_cancel := Matcher.cancel;
  m_cancel_all := Matcher.cancel_all;
  m_on_tick := Matcher.on_tick;
  m_drain_unreported := Matcher.drain_unreported;
  m_on_depth := Matcher.on_depth;
  m_on_gap := Matcher.on_gap;
  m_install_snapshot := Matcher.install_snapshot;
  m_install_snapshot_at := Matcher.install_snapshot_at;
}.

Inductive RejectReason :=
| NonPositiveQty
| DuplicateId
| NoMargin
| NotVenueMatched
| UnroutableObservation.

Inductive Output :=
| OFilled (f : Fill)
| OCancelled (id : OrderId)
| ORejected (id : OrderId) (reason : RejectReason)
| OFunded (amount : Cash) (at_ : Nanos)
| OLiquidated (at_ : Nanos) (price : PriceTicks) (qty : QtyLots) (equity forfeited : Cash)
    (instrument : InstrumentId) (long short : QtyLots).

Inductive Matching := Simulated | Venue.
Inductive PositionMode := OneWay | Hedge.

#[export] Instance RejectReason_eq_dec : EqDecision RejectReason.
Proof. solve_decision. Defined.
#[export] Instance Output_eq_dec : EqDecision Output.
Proof. solve_decision. Defined.
#[export] Instance Matching_eq_dec : EqDecision Matching.
Proof. solve_decision. Defined.
#[export] Instance PositionMode_eq_dec : EqDecision PositionMode.
Proof. solve_decision. Defined.

Record Fees := mkFees { maker : Ratio; taker : Ratio }.

Module Fees.
Definition flat (r : Ratio) : Fees := mkFees r r.
Definition none : Fees := mkFees Ratio.ZERO Ratio.ZERO.
Definition charge (s : Fees) (c : Contract) (f : Fill) : Cash :=
  let notional := c_notional c (f_price f) (f_qty f) in
  Cash.scaled notional match f_liquidity f with Maker => maker s | Taker => taker s end.
End Fees.

Record Holding (M : Type) := mkHolding {
  h_instrument : InstrumentId;
  h_engine : M;
  h_contract : Contract;
  h_table : TierTable;
  h_qty : QtyLots;
  h_entry : PriceTicks;
  h_short_qty : QtyLots;
  h_short_entry : PriceTicks;
  h_mark : PriceTicks;
  h_long_cost : EntryCost;
  h_short_cost : EntryCost;
}.
Arguments mkHolding {M}.
Arguments h_instrument {M}.
Arguments h_engine {M}.
Arguments h_contract {M}.
Arguments h_table {M}.
Arguments h_qty {M}.
Arguments h_entry {M}.
Arguments h_short_qty {M}.
Arguments h_short_entry {M}.
Arguments h_mark {M}.
Arguments h_long_cost {M}.
Arguments h_short_cost {M}.

Module Holding.
Section holding.
Context {M : Type}.
Implicit Types (h : Holding M).

Definition set_engine h (m : M) : Holding M :=
  mkHolding (h_instrument h) m (h_contract h) (h_table h) (h_qty h) (h_entry h) (h_short_qty h)
    (h_short_entry h) (h_mark h) (h_long_cost h) (h_short_cost h).
Definition set_mark h (p : PriceTicks) : Holding M :=
  mkHolding (h_instrument h) (h_engine h) (h_contract h) (h_table h) (h_qty h) (h_entry h)
    (h_short_qty h) (h_short_entry h) p (h_long_cost h) (h_short_cost h).
Definition set_long h (q : QtyLots) (e : PriceTicks) (c : EntryCost) : Holding M :=
  mkHolding (h_instrument h) (h_engine h) (h_contract h) (h_table h) q e (h_short_qty h)
    (h_short_entry h) (h_mark h) c (h_short_cost h).
Definition set_short h (q : QtyLots) (e : PriceTicks) (c : EntryCost) : Holding M :=
  mkHolding (h_instrument h) (h_engine h) (h_contract h) (h_table h) (h_qty h) (h_entry h) q e
    (h_mark h) (h_long_cost h) c.

Definition fresh (i : InstrumentId) (m : M) (c : Contract) (t : TierTable) : Holding M :=
  mkHolding i m c t 0 0 0 0 0 EntryCost.default EntryCost.default.

Definition maintenance_at h (mark : PriceTicks) : run Cash :=
  long ← (if QtyLots.is_zero (h_qty h) then mret Cash.ZERO
          else TierTable.maintenance (h_table h) (h_contract h) mark (h_qty h));
  short ← (if QtyLots.is_zero (h_short_qty h) then mret Cash.ZERO
           else TierTable.maintenance (h_table h) (h_contract h) mark (h_short_qty h));
  mret (Cash.add long short).
Definition maintenance h : run Cash := maintenance_at h (h_mark h).

Definition entry_cost h : Z := EntryCost.value (h_long_cost h) (h_contract h) (h_qty h) (h_entry h).
Definition short_entry_cost h : Z :=
  EntryCost.value (h_short_cost h) (h_contract h) (h_short_qty h) (h_short_entry h).

Definition unrealized_at h (mark : PriceTicks) : Cash :=
  Cash.add (unrealized_from_cost (h_contract h) (entry_cost h) mark (h_qty h))
           (unrealized_from_cost (h_contract h) (short_entry_cost h) mark (h_short_qty h)).
Definition unrealized h : Cash := unrealized_at h (h_mark h).

(** Add to a leg: the basis grows by the notional, the entry is its average. *)
Definition open_leg h (short : bool) (qty : QtyLots) (price : PriceTicks) (sign : Z) : run (Holding M) :=
  if QtyLots.is_zero qty then mret h
  else
    let '(held, cost) := if short then (h_short_qty h, short_entry_cost h) else (h_qty h, entry_cost h) in
    let size := sat64 (i64_saturating_abs held + qty) in
    let value := sat128 (cost + notional_wide (h_contract h) price qty) in
    let denominator := size * c_tick_cash (h_contract h) in
    let entry := if denominator >? 0 then sat64 (Z.quot value denominator) else price in
    total ← chk64 (sign * size);
    mret (if short then set_short h total entry (EntryCost.set total entry value)
          else set_long h total entry (EntryCost.set total entry value)).

Definition close_leg h (short : bool) (qty : QtyLots) (price : PriceTicks) : run (Cash * Holding M) :=
  let '(held, entry, cost) :=
    if short then (h_short_qty h, h_short_entry h, short_entry_cost h)
    else (h_qty h, h_entry h, entry_cost h) in
  if QtyLots.is_zero held then mret (Cash.ZERO, h)
  else
    let closing := Z.min qty (i64_saturating_abs held) in
    let exit := notional_wide (h_contract h) price closing in
    '(value, pnl) ← close cost held closing exit;
    step ← chk64 (closing * (if held >? 0 then 1 else -1));
    left ← chk64 (held - step);
    let entry := if QtyLots.is_zero left then 0 else entry in
    mret (pnl, if short then set_short h left entry (EntryCost.set left entry value)
               else set_long h left entry (EntryCost.set left entry value)).

Definition flat h : bool := QtyLots.is_zero (h_qty h) && QtyLots.is_zero (h_short_qty h).
End holding.
End Holding.

Record State (M : Type) := mkState {
  holdings : list (Holding M);
  mode : PositionMode;
  balances : Balances;
  settlement : Currency;
  realized : Cash;
  funding : Cash;
  fees : Cash;
  fee_schedule : Fees;
  fees_covered : bool;
  fees_missing : bool;
  now : Nanos;
  enforce_liquidation : bool;
  matching : Matching;
  forfeited : Cash;
}.
Arguments mkState {M}.
Arguments holdings {M}.
Arguments mode {M}.
Arguments balances {M}.
Arguments settlement {M}.
Arguments realized {M}.
Arguments funding {M}.
Arguments fees {M}.
Arguments fee_schedule {M}.
Arguments fees_covered {M}.
Arguments fees_missing {M}.
Arguments now {M}.
Arguments enforce_liquidation {M}.
Arguments matching {M}.
Arguments forfeited {M}.

Module State.
Section state.
Context {M : Type} `{!MatcherOps M}.
Implicit Types (s : State M) (f : Fill).

Definition with_holdings s hs : State M :=
  mkState hs (mode s) (balances s) (settlement s) (realized s) (funding s) (fees s) (fee_schedule s)
    (fees_covered s) (fees_missing s) (now s) (enforce_liquidation s) (matching s) (forfeited s).
Definition with_now s (t : Nanos) : State M :=
  mkState (holdings s) (mode s) (balances s) (settlement s) (realized s) (funding s) (fees s)
    (fee_schedule s) (fees_covered s) (fees_missing s) t (enforce_liquidation s) (matching s) (forfeited s).
Definition with_mode s (m : PositionMode) : State M :=
  mkState (holdings s) m (balances s) (settlement s) (realized s) (funding s) (fees s) (fee_schedule s)
    (fees_covered s) (fees_missing s) (now s) (enforce_liquidation s) (matching s) (forfeited s).
Definition without_liquidation s : State M :=
  mkState (holdings s) (mode s) (balances s) (settlement s) (realized s) (funding s) (fees s)
    (fee_schedule s) (fees_covered s) (fees_missing s) (now s) false (matching s) (forfeited s).
Definition with_matching s (m : Matching) : State M :=
  mkState (holdings s) (mode s) (balances s) (settlement s) (realized s) (funding s) (fees s)
    (fee_schedule s) (fees_covered s) (fees_missing s) (now s) (enforce_liquidation s) m (forfeited s).
Definition with_fees s (x : Fees) : State M :=
  mkState (holdings s) (mode s) (balances s) (settlement s) (realized s) (funding s) (fees s) x
    true (fees_missing s) (now s) (enforce_liquidation s) (matching s) (forfeited s).
Definition with_fee_flags s (covered missing : bool) : State M :=
  mkState (holdings s) (mode s) (balances s) (settlement s) (realized s) (funding s) (fees s)
    (fee_schedule s) covered missing (now s) (enforce_liquidation s) (matching s) (forfeited s).
(** [credit_in] and [credit]. *)
Definition credit_in s (c : Currency) (amount : Cash) : State M :=
  mkState (holdings s) (mode s) (Balances.add (balances s) c amount) (settlement s) (realized s)
    (funding s) (fees s) (fee_schedule s) (fees_covered s) (fees_missing s) (now s)
    (enforce_liquidation s) (matching s) (forfeited s).
Definition credit s (amount : Cash) : State M := credit_in s (settlement s) amount.
Definition add_realized s (amount : Cash) : State M :=
  mkState (holdings s) (mode s) (balances s) (settlement s) (Cash.add (realized s) amount) (funding s)
    (fees s) (fee_schedule s) (fees_covered s) (fees_missing s) (now s) (enforce_liquidation s)
    (matching s) (forfeited s).
Definition add_funding s (amount : Cash) : State M :=
  mkState (holdings s) (mode s) (balances s) (settlement s) (realized s) (Cash.add (funding s) amount)
    (fees s) (fee_schedule s) (fees_covered s) (fees_missing s) (now s) (enforce_liquidation s)
    (matching s) (forfeited s).
Definition add_fees s (amount : Cash) : State M :=
  mkState (holdings s) (mode s) (balances s) (settlement s) (realized s) (funding s)
    (Cash.add (fees s) amount) (fee_schedule s) (fees_covered s) (fees_missing s) (now s)
    (enforce_liquidation s) (matching s) (forfeited s).
Definition add_forfeited s (amount : Cash) : State M :=
  mkState (holdings s) (mode s) (balances s) (settlement s) (realized s) (funding s) (fees s)
    (fee_schedule s) (fees_covered s) (fees_missing s) (now s) (enforce_liquidation s) (matching s)
    (Cash.add (forfeited s) amount).

Definition new (i : InstrumentId) (c : Contract) (t : TierTable) (starting : Cash) : State M :=
  mkState [Holding.fresh i (m_l0 i) c t] OneWay (Balances.of_ Currency.usdt starting) Currency.usdt
    0 0 0 Fees.none false false 0 true Simulated 0.

Definition fees_known s : bool := fees_covered s && negb (fees_missing s).
Definition balance s : Cash := Balances.get (balances s) (settlement s).

(** [self.holdings\[index\]], which panics out of range. *)
Definition at_ s (h : nat) : run (Holding M) := expect (holdings s !! h).
Definition put s (h : nat) (x : Holding M) : State M := with_holdings s (<[h := x]> (holdings s)).

Definition holding_index s (i : InstrumentId) : option nat :=
  position (λ h, h_instrument h =? i) (holdings s).
Definition holding_of s (i : InstrumentId) : option (Holding M) :=
  find (λ h, h_instrument h =? i) (holdings s).
Definition holding s : run (Holding M) := at_ s 0.

Definition open_holding s (i : InstrumentId) (c : Contract) (t : TierTable) : State M :=
  match position (λ h, h_instrument h =? i) (holdings s) with
  | Some _ => s
  | None => with_holdings s (holdings s ++ [Holding.fresh i (m_l0 i) c t])
  end.

Definition is_flat s : bool := forallb Holding.flat (holdings s).

(** [with_initial_legs]: seed a position before the first event. *)
Definition with_initial_legs s (long short : option (QtyLots * PriceTicks))
    : run (result (State M) ()) :=
  match holdings s with
  | [h] =>
      if negb (is_flat s) || (match Book.iter (m_book (h_engine h)) with [] => false | _ => true end)
         || negb (m_shadowed (h_engine h) =? 0)%nat
      then mret (Err ())
      else if bool_decide (mode s = OneWay ∧ is_Some long ∧ is_Some short) then mret (Err ())
      else if existsb (λ l, (l.1 <=? 0) || (l.2 <=? 0)) (option_list long ++ option_list short)
      then mret (Err ())
      else
        h ← match long with
            | Some (q, e) => Holding.open_leg h false q e 1
            | None => mret h
            end;
        h ← match short with
            | Some (q, e) => Holding.open_leg h (bool_decide (mode s = Hedge)) q e (-1)
            | None => mret h
            end;
        mret (Ok (put s 0 h))
  | _ => mret (Err ())
  end.

(** [matching_with]: another tier, for the same instrument only. *)
Definition matching_with s (m : M) : run (State M) :=
  h ← holding s;
  if m_instrument m =? m_instrument (h_engine h) then mret (put s 0 (Holding.set_engine h m)) else Panic.

Definition position s : run MarginedPosition :=
  h ← holding s;
  mret (Position.with_entry_cost (Position.new (h_contract h) (h_entry h) (h_qty h) (balance s))
          (Holding.entry_cost h)).
Definition short_position s : run MarginedPosition :=
  h ← holding s;
  mret (Position.with_entry_cost (Position.new (h_contract h) (h_short_entry h) (h_short_qty h) (balance s))
          (Holding.short_entry_cost h)).

Definition unrealized s : Cash := fold_left Cash.add (Holding.unrealized <$> holdings s) Cash.ZERO.
Definition equity s : Cash := Cash.add (balance s) (unrealized s).

Fixpoint maintenance_loop (hs : list (Holding M)) (acc : Cash) : run Cash :=
  match hs with
  | [] => mret acc
  | h :: hs => m ← Holding.maintenance h; maintenance_loop hs (Cash.add acc m)
  end.
Definition maintenance s : run Cash := maintenance_loop (holdings s) Cash.ZERO.
Definition maintenance_at s (i : InstrumentId) (mark : PriceTicks) : run Cash :=
  match holding_of s i with Some h => Holding.maintenance_at h mark | None => mret Cash.ZERO end.

Definition equity_across s (into : Currency) (r : Rates) : option Cash :=
  held ← total_in (balances s) into r;
  u ← Rates.convert r (unrealized s) (settlement s) into;
  Some (Cash.add held u).

Definition unpriced s (into : Currency) (r : Rates) : list Currency := unconvertible (balances s) into r.

(** A hedged fill opens the leg of its side or closes the opposite one. *)
Definition apply_fill_hedged s f : run (State M) :=
  h ← expect (holding_index s (f_instrument f));
  let opens := match f_offset f with Open => true | Close => false end in
  let long_leg := match f_side f, opens with
                  | Buy, true | Sell, false => true
                  | Sell, true | Buy, false => false
                  end in
  x ← at_ s h;
  if opens then
    x ← Holding.open_leg x (negb long_leg) (f_qty f) (f_price f) (if long_leg then 1 else -1);
    mret (put s h x)
  else
    '(pnl, x) ← Holding.close_leg x (negb long_leg) (f_qty f) (f_price f);
    mret (credit (add_realized (put s h x) pnl) pnl).

(** A one-way fill reduces, reverses or extends the net position. *)
Definition apply_fill s f : run (State M) :=
  h ← expect (holding_index s (f_instrument f));
  if bool_decide (mode s = Hedge) then apply_fill_hedged s f
  else
    signed ← position_delta f;
    x ← at_ s h;
    let old := h_qty x in
    let reduces := negb (old =? 0) && negb (Bool.eqb (old >? 0) (signed >? 0)) in
    if reduces then
      let closed := Z.min (i64_saturating_abs signed) (i64_saturating_abs old) in
      '(pnl, x) ← Holding.close_leg x false closed (f_price f);
      let s := credit (add_realized (put s h x) pnl) pnl in
      remainder ← chk64 (i64_saturating_abs signed - closed);
      if remainder >? 0 then
        x ← Holding.open_leg x false remainder (f_price f) (signum signed);
        mret (put s h x)
      else mret s
    else
      x ← Holding.open_leg x false (i64_saturating_abs signed) (f_price f) (signum signed);
      mret (put s h x).

(** Both legs of one holding close at a price; its orders are cancelled. *)
Definition liquidate_holding s (h : nat) (price : PriceTicks) : run (Output * State M) :=
  x ← at_ s h;
  let pnl := Holding.unrealized_at x price in
  let s := credit (add_realized s pnl) pnl in
  let equity := balance s in
  qty ← chk64 (h_qty x + h_short_qty x);
  let '(_, m) := m_cancel_all (h_engine x) in
  let closed := mkHolding (h_instrument x) m (h_contract x) (h_table x) 0 0 0 0 (h_mark x)
                  EntryCost.default EntryCost.default in
  mret (OLiquidated (now s) price qty equity Cash.ZERO (h_instrument x) (h_qty x) (h_short_qty x),
        put s h closed).

Fixpoint liquidate_each s (hs : list nat) : run (list Output * State M) :=
  match hs with
  | [] => mret ([], s)
  | h :: hs =>
      x ← at_ s h;
      let at_price := if h_mark x =? 0 then h_entry x else h_mark x in
      '(o, s) ← liquidate_holding s h at_price;
      '(os, s) ← liquidate_each s hs;
      mret (o :: os, s)
  end.

Definition close_all s (price : PriceTicks) : run (list Output * State M) :=
  if (length (holdings s) =? 1)%nat then
    '(o, s) ← liquidate_holding s 0 price; mret ([o], s)
  else
    let open := List.filter (λ h, match holdings s !! h with
                                  | Some x => negb (Holding.flat x)
                                  | None => false
                                  end) (seq 0 (length (holdings s))) in
    liquidate_each s open.

Definition restate (equity : Cash) (o : Output) : Output :=
  match o with
  | OLiquidated a p q _ f i l sh => OLiquidated a p q equity f i l sh
  | o => o
  end.
(** [out.last_mut()]: the last closing reports what was forfeited. *)
Fixpoint report_forfeit (forfeit : Cash) (os : list Output) : list Output :=
  match os with
  | [] => []
  | [OLiquidated a p q e _ i l sh] => [OLiquidated a p q e forfeit i l sh]
  | o :: os => o :: report_forfeit forfeit os
  end.

(** Close everything, then take what is left: the account ends at zero. *)
Definition liquidate s (price : PriceTicks) : run (list Output * State M) :=
  '(out, s) ← close_all s price;
  let forfeit := balance s in
  let s := add_forfeited (credit s (Cash.neg forfeit)) forfeit in
  mret (report_forfeit forfeit (restate (balance s) <$> out), s).
End state.
End State.

(** The kernel: the state, what the last event reported, and the orders the
    host believes are working. *)
Record Kernel (M : Type) := mkKernel {
  k_state : State M;
  outputs : list Output;
  working : list OrderId;
}.
Arguments mkKernel {M}.
Arguments k_state {M}.
Arguments outputs {M}.
Arguments working {M}.

Module Kernel.
Section kernel.
Context {M : Type} `{!MatcherOps M}.
Implicit Types (k : Kernel M) (s : State M).

Definition new s : Kernel M := mkKernel s [] [].
Definition set_state k s : Kernel M := mkKernel s (outputs k) (working k).
Definition push k (o : Output) : Kernel M := mkKernel (k_state k) (outputs k ++ [o]) (working k).
Definition forget k (id : OrderId) : Kernel M :=
  mkKernel (k_state k) (outputs k) (filter (λ w, w ≠ id) (working k)).

Definition route s (i : option InstrumentId) : option nat :=
  match i with
  | Some id => State.holding_index s id
  | None => if (length (holdings s) =? 1)%nat then Some 0%nat else None
  end.

Definition check_liquidation k (mark : PriceTicks) : run (Kernel M) :=
  let s := k_state k in
  if negb (enforce_liquidation s) || State.is_flat s then mret k
  else
    liquidatable ←
      (if bool_decide (mode s = Hedge) || (1 <? length (holdings s))%nat then
         m ← State.maintenance s;
         mret (State.equity s <=? m)
       else
         p ← State.position s;
         h ← State.holding s;
         Position.is_liquidatable p (h_table h) mark) : run bool;
    if liquidatable : bool then
      '(out, s) ← State.liquidate s mark;
      mret (mkKernel s (outputs k ++ out) [])
    else mret k.

(** Each fill pays its fee, moves the position, and stops working. *)
Fixpoint book_fills k (h : nat) (fs : list Fill) : run (Kernel M) :=
  match fs with
  | [] => mret k
  | f :: fs =>
      x ← State.at_ (k_state k) h;
      let fee := Fees.charge (fee_schedule (k_state k)) (h_contract x) f in
      let s := State.credit (State.add_fees (k_state k) fee) (Cash.neg fee) in
      s ← State.apply_fill s f;
      book_fills (push (forget (set_state k s) (f_order f)) (OFilled f)) h fs
  end.

Definition on_tick k (h : nat) (t : Tick) : run (Kernel M) :=
  let s := State.with_now (k_state k) (exch (t_stamp t)) in
  x ← State.at_ s h;
  let x := Holding.set_mark x (t_last t) in
  let s := State.put s h x in
  if bool_decide (matching s = Venue) then check_liquidation (set_state k s) (t_last t)
  else
    '(fs, m) ← m_on_tick (h_engine x) t;
    let s := State.put s h (Holding.set_engine x m) in
    k ← book_fills (set_state k s) h (lf_fill <$> fs);
    check_liquidation k (t_last t).

(** The first holding whose matcher cancels the order: [any] stops there. *)
Fixpoint cancel_from s (id : OrderId) (hs : list nat) : run (bool * State M) :=
  match hs with
  | [] => mret (false, s)
  | h :: hs =>
      x ← State.at_ s h;
      let '(b, m) := m_cancel (h_engine x) id in
      let s := State.put s h (Holding.set_engine x m) in
      if b : bool then mret (true, s) else cancel_from s id hs
  end.

Definition on_venue_fill k (f : Fill) (reported : Fee) : run (Kernel M) :=
  let s := k_state k in
  if negb (bool_decide (matching s = Venue)) then mret (push k (ORejected (f_order f) NotVenueMatched))
  else
    let s := State.with_now s (exch (f_stamp f)) in
    s ← match State.holding_index s (f_instrument f) with
        | Some h =>
            x ← State.at_ s h;
            mret (State.put s h (Holding.set_engine x (m_cancel (h_engine x) (f_order f)).2))
        | None => mret s
        end;
    let k := forget (set_state k s) (f_order f) in
    first ← State.holding s;
    let contract := match State.holding_of s (f_instrument f) with
                    | Some h => h_contract h
                    | None => h_contract first
                    end in
    let '(fee, s) :=
      match reported with
      | Reported cash => (cash, State.with_fee_flags s true (fees_missing s))
      | Unreadable => (Cash.ZERO, State.with_fee_flags s (fees_covered s) true)
      | Unsaid => (Fees.charge (fee_schedule s) contract f, s)
      end in
    let s := State.credit (State.add_fees s fee) (Cash.neg fee) in
    s ← State.apply_fill s f;
    check_liquidation (push (set_state k s) (OFilled f)) (f_price f).

Definition on_submit k (i : option InstrumentId) (id : OrderId) (side : Side)
    (price : option PriceTicks) (qty : QtyLots) (offset : Offset) (stamp : Stamp) : run (Kernel M) :=
  let s := k_state k in
  if qty <=? 0 then mret (push k (ORejected id NonPositiveQty))
  else if bool_decide (id ∈ working k) then mret (push k (ORejected id DuplicateId))
  else
    match route s i with
    | None => mret (push k (ORejected id UnroutableObservation))
    | Some h =>
        if State.balance s <=? 0 then mret (push k (ORejected id NoMargin))
        else
          order ← match price with
                  | Some p => limit_order id side p qty stamp offset
                  | None => market_order id side qty stamp offset
                  end;
          x ← State.at_ s h;
          m ← m_submit (h_engine x) order (local stamp);
          mret (mkKernel (State.put s h (Holding.set_engine x m)) (outputs k) (working k ++ [id]))
    end.

(** What each leg owes or is owed, added up. *)
Definition funding_of (x : Holding M) (at_ : Nanos) (rate : Ratio) (mark : PriceTicks) : Cash :=
  fold_left (λ acc q, if QtyLots.is_zero q then acc
                      else Cash.add acc (fs_amount (settle (mkRate at_ rate mark) (h_contract x) q)))
    [h_qty x; h_short_qty x] Cash.ZERO.

Definition on_funding k (i : option InstrumentId) (at_ : Nanos) (rate : Ratio) (mark : PriceTicks)
    : run (Kernel M) :=
  let s := State.with_now (k_state k) at_ in
  let k := set_state k s in
  match route s i with
  | None => mret (push k (ORejected 0 UnroutableObservation))
  | Some h =>
      x ← State.at_ s h;
      if Holding.flat x then mret k
      else
        let amount := funding_of x at_ rate mark in
        let s := State.add_funding (State.credit s amount) amount in
        check_liquidation (push (set_state k s) (OFunded amount at_)) mark
  end.

Definition on_funding_charged k (i : option InstrumentId) (at_ : Nanos) (amount : Cash) : Kernel M :=
  let s := State.with_now (k_state k) at_ in
  let k := set_state k s in
  match route s i with
  | None => push k (ORejected 0 UnroutableObservation)
  | Some _ =>
      let s := State.add_funding (State.credit s amount) amount in
      push (set_state k s) (OFunded amount at_)
  end.

(** One event; the outputs are those of this event. *)
Definition apply k (e : Event) : run (Kernel M) :=
  let k := mkKernel (k_state k) [] (working k) in
  let s := k_state k in
  match e with
  | EDepth u =>
      if (length (holdings s) =? 1)%nat then
        x ← State.at_ s 0;
        '(_, m) ← m_on_depth (h_engine x) u;
        mret (set_state k (State.put s 0 (Holding.set_engine x m)))
      else mret k
  | ETick i t =>
      match route s i with
      | Some h => on_tick k h t
      | None => mret (push k (ORejected 0 UnroutableObservation))
      end
  | ESubmit i id side price qty offset stamp => on_submit k i id side price qty offset stamp
  | ECancel id _ =>
      '(b, s) ← cancel_from s id (seq 0 (length (holdings s)));
      mret (if b : bool then push (forget (set_state k s) id) (OCancelled id) else set_state k s)
  | EFunding i a rate mark => on_funding k i a rate mark
  | EFundingCharged i a amount => mret (on_funding_charged k i a amount)
  | ETime a => mret (set_state k (State.with_now s a))
  | EFeeRecovered a amount remaining =>
      let s := State.with_now s a in
      let s := State.credit (State.add_fees s amount) (Cash.neg amount) in
      mret (set_state k (State.with_fee_flags s true (negb (remaining =? 0))))
  | EMarginDeposit amount a => mret (set_state k (State.credit (State.with_now s a) amount))
  | EVenueFill f fee => on_venue_fill k f fee
  end.

(** Fills the response latency still holds, booked at the end of a run. *)
Fixpoint settle_from k (hs : list nat) : run (Kernel M) :=
  match hs with
  | [] => mret k
  | h :: hs =>
      x ← State.at_ (k_state k) h;
      let '(fs, m) := m_drain_unreported (h_engine x) in
      let k := set_state k (State.put (k_state k) h (Holding.set_engine x m)) in
      k ← book_fills k h (lf_fill <$> fs);
      settle_from k hs
  end.
Definition settle_unreported k : run (Kernel M) :=
  let k := mkKernel (k_state k) [] (working k) in
  settle_from k (seq 0 (length (holdings (k_state k)))).

(** Operations on the only holding that are not events. *)
Definition apply_depth k (u : DepthUpdate) : run (DepthOutcome * Kernel M) :=
  x ← State.holding (k_state k);
  '(o, m) ← m_on_depth (h_engine x) u;
  mret (o, set_state k (State.put (k_state k) 0 (Holding.set_engine x m))).
Definition apply_depth_gap k : run (bool * Kernel M) :=
  x ← State.holding (k_state k);
  let '(b, m) := m_on_gap (h_engine x) in
  mret (b, set_state k (State.put (k_state k) 0 (Holding.set_engine x m))).
Definition install_snapshot k (id : Z) (bids asks : list Level) : run (bool * Kernel M) :=
  x ← State.holding (k_state k);
  let '(b, m) := m_install_snapshot (h_engine x) id bids asks in
  mret (b, set_state k (State.put (k_state k) 0 (Holding.set_engine x m))).
Definition install_snapshot_at k (at_ : Nanos) (id : Z) (bids asks : list Level) : run (bool * Kernel M) :=
  x ← State.holding (k_state k);
  let '(b, m) := m_install_snapshot_at (h_engine x) at_ id bids asks in
  mret (b, set_state k (State.put (k_state k) 0 (Holding.set_engine x m))).
Definition depth_event (u : DepthUpdate) : Event := EDepth u.
Definition submit_raw k (order : Working) : run (Kernel M) :=
  let k := mkKernel (k_state k) (outputs k) (working k ++ [w_id order]) in
  x ← State.holding (k_state k);
  m ← m_submit (h_engine x) order (local (w_placed order));
  mret (set_state k (State.put (k_state k) 0 (Holding.set_engine x m))).

Fixpoint run_events k (es : list Event) : run (Kernel M * list (list Output)) :=
  match es with
  | [] => mret (k, [])
  | e :: es => k ← apply k e; '(k', os) ← run_events k es; mret (k', outputs k :: os)
  end.
End kernel.
End Kernel.

Record Summary := mkSummary {
  sm_qty : QtyLots; sm_entry : PriceTicks; sm_short_qty : QtyLots; sm_short_entry : PriceTicks;
  sm_balance : Cash; sm_fees_known : bool; sm_realized : Cash; sm_funding : Cash; sm_fees : Cash;
  sm_forfeited : Cash; sm_equity : Cash; sm_mark : PriceTicks; sm_now : Nanos;
}.

Record Fingerprint := mkFingerprint {
  fp_summary : Summary;
  fp_book : list (OrderId * Z);
  fp_working : list OrderId;
  fp_enforce : bool;
  fp_watermark : Z * Z;
  fp_entry_costs : list (InstrumentId * Z * Z);
}.

Definition summary {M} `{!MatcherOps M} (k : Kernel M) : run Summary :=
  let s := k_state k in
  h ← State.holding s;
  mret (mkSummary (h_qty h) (h_entry h) (h_short_qty h) (h_short_entry h) (State.balance s)
    (State.fees_known s) (realized s) (funding s) (fees s) (forfeited s) (State.equity s) (h_mark h) (now s)).

Fixpoint book_lines (rs : list Resting) : run (list (OrderId * Z)) :=
  match rs with
  | [] => mret []
  | r :: rs => q ← w_remaining (r_order r); ls ← book_lines rs; mret ((r_id r, q) :: ls)
  end.

Definition fingerprint {M} `{!MatcherOps M} (k : Kernel M) : run Fingerprint :=
  sm ← summary k;
  h ← State.holding (k_state k);
  ls ← book_lines (Book.iter (m_book (h_engine h)));
  mret (mkFingerprint sm ls (working k) (enforce_liquidation (k_state k)) (m_id_watermark (h_engine h))
    ((λ h, (h_instrument h, Holding.entry_cost h, Holding.short_entry_cost h)) <$> holdings (k_state k))).
