(* ===== verification/Sequencer.v ===== *)
(** The sequencer ([oq-core/src/sequencer.rs] and [sink.rs]): every event is in
    the journal before the kernel sees it, and replaying the journal rebuilds
    the run.

    A sink is an interface ([EventSink]) with the laws its clients rely on
    ([SinkLaws]); the journal's writer and the memory sink are its instances. *)

From S2P Require Import Prelude Bytes Crc Frame Journal Recovery.
From S2P Require Import Types Order Tick Depth Margin Event Codec Matcher Kernel.

Implicit Types (e : Event) (es : list Event) (io : Io).

(** * Sinks *)

Class EventSink (S : Type) := {
  sink_append : S → Io → Z → list Z → run (result Z JournalError * S);
  sink_flush : S → Io → result () JournalError * S;
  sink_sync : S → Io → result () JournalError * S;
}.

#[export] Instance writer_sink : EventSink Writer := {|
  sink_append := Writer.append; sink_flush := Writer.flush; sink_sync := Writer.sync
|}.

(** A sink that keeps its records in memory. *)
Record MemorySink := mkMemorySink { records : list (Z * list Z) }.

Module MemorySink.
Definition new : MemorySink := mkMemorySink [].
Definition len (s : MemorySink) : nat := length (records s).
Definition is_empty (s : MemorySink) : bool := (len s =? 0)%nat.
Definition append (s : MemorySink) (io : Io) (kind : Z) (payload : list Z) : run (result Z JournalError * MemorySink) :=
  let seq := Z.of_nat (length (records s)) in
  mret (Ok seq, mkMemorySink (records s ++ [(kind, payload)])).
Definition flush (s : MemorySink) (io : Io) : result () JournalError * MemorySink := (Ok (), s).
Definition sync (s : MemorySink) (io : Io) : result () JournalError * MemorySink := (Ok (), s).
End MemorySink.

#[export] Instance memory_sink : EventSink MemorySink := {|
  sink_append := MemorySink.append; sink_flush := MemorySink.flush; sink_sync := MemorySink.sync
|}.

(** What a sink promises: [holds s rs] when its records are [rs]; an
    acknowledged append adds its record, at the sequence number answered, and
    nothing else changes them. *)
Class SinkLaws (S : Type) `{!EventSink S} := {
  holds : S → list (Z * list Z) → Prop;
  sink_ok : S → Io → Z → list Z → Prop;
  append_holds s rs io kind payload r s' :
    holds s rs → sink_ok s io kind payload → sink_append s io kind payload = Ret (r, s') →
    match r with
    | Ok seq => seq = Z.of_nat (length rs) ∧ holds s' (rs ++ [(kind, payload)])
    | Err _ => holds s' rs
    end;
  flush_holds s rs io : holds s rs → holds (sink_flush s io).2 rs;
  sync_holds s rs io : holds s rs → holds (sink_sync s io).2 rs;
}.

(** * The sequencer *)

Record Sequencer (M S : Type) := mkSequencer { sq_kernel : Kernel M; sq_sink : S; sq_applied : Z }.
Arguments mkSequencer {M S}.
Arguments sq_kernel {M S}.
Arguments sq_sink {M S}.
Arguments sq_applied {M S}.

(** A call on a sequencer, with what the disk answers. *)
Inductive Call := CSubmit io e | CFlush io | CSync io.

Module Sequencer.
Section sequencer.
Context {M : Type} `{!MatcherOps M} {S : Type} `{!EventSink S}.
Implicit Types q : Sequencer M S.

Definition with_sink (s : State M) (k : S) : Sequencer M S := mkSequencer (Kernel.new s) k 0.

(** Append, then apply: a failed append returns before the kernel is touched. *)
Definition submit q io e : run (result (list Output) JournalError * Sequencer M S) :=
  '(r, s) ← sink_append (sq_sink q) io (kind e) (encode e);
  match r with
  | Err x => mret (Err x, mkSequencer (sq_kernel q) s (sq_applied q))
  | Ok _ =>
      n ← chku64 (sq_applied q + 1);
      k ← Kernel.apply (sq_kernel q) e;
      mret (Ok (outputs k), mkSequencer k s n)
  end.

Definition flush q io : result () JournalError * Sequencer M S :=
  let '(r, s) := sink_flush (sq_sink q) io in (r, mkSequencer (sq_kernel q) s (sq_applied q)).
Definition sync q io : result () JournalError * Sequencer M S :=
  let '(r, s) := sink_sync (sq_sink q) io in (r, mkSequencer (sq_kernel q) s (sq_applied q)).

(** A run: the accepted events, in order, with the outputs of each. *)
Definition call q (c : Call) : run (list (Event * list Output) * Sequencer M S) :=
  match c with
  | CSubmit io e =>
      '(r, q) ← submit q io e;
      mret (match r with Ok os => [(e, os)] | Err _ => [] end, q)
  | CFlush io => mret ([], (flush q io).2)
  | CSync io => mret ([], (sync q io).2)
  end.
Fixpoint calls q (cs : list Call) : run (list (Event * list Output) * Sequencer M S) :=
  match cs with
  | [] => mret ([], q)
  | c :: cs => '(a, q) ← call q c; '(b, q) ← calls q cs; mret (a ++ b, q)
  end.
End sequencer.

(** [Sequencer::<Writer>::open]. *)
Definition open {M} `{!MatcherOps M} (s : State M) (locked : bool) (file : list Z) (p : SyncPolicy)
    : run (result (Sequencer M Writer) JournalError) :=
  r ← Writer.open locked file p;
  mret match r with Ok w => Ok (with_sink s w) | Err x => Err x end.
End Sequencer.

(** * Replay *)

Record ReplayResult (M : Type) := mkReplayResult {
  rr_kernel : Kernel M; rr_outputs : list Output; rr_events : nat; rr_undecodable : nat; rr_stop : ReplayStop;
}.
Arguments mkReplayResult {M}.
Arguments rr_kernel {M}.
Arguments rr_outputs {M}.
Arguments rr_events {M}.
Arguments rr_undecodable {M}.
Arguments rr_stop {M}.

Section replay.
Context {M : Type} `{!MatcherOps M}.

Fixpoint apply_frames (k : Kernel M) (fs : list Frame) (outs : list Output) (undecodable : nat)
    : run (Kernel M * list Output * nat) :=
  match fs with
  | [] => mret (k, outs, undecodable)
  | f :: fs =>
      o ← decode (fr_kind f) (fr_payload f);
      match o with
      | Some e => k ← Kernel.apply k e; apply_frames k fs (outs ++ outputs k) undecodable
      | None => apply_frames k fs outs (undecodable + 1)
      end
  end.

Definition replay_tolerating_unknown (s : State M) (file : list Z) : run (result (ReplayResult M) JournalError) :=
  r ← replay file;
  match r with
  | Err x => mret (Err x)
  | Ok replayed =>
      '(k, outs, undecodable) ← apply_frames (Kernel.new s) (frames replayed) [] 0;
      mret (Ok (mkReplayResult k outs (length (frames replayed)) undecodable (stop replayed)))
  end.

Definition is_complete (r : ReplayResult M) : bool := (rr_undecodable r =? 0)%nat.

Definition replay_run (s : State M) (file : list Z) : run (result (ReplayResult M) JournalError) :=
  r ← replay_tolerating_unknown s file;
  mret match r with
       | Err x => Err x
       | Ok res => if (0 <? rr_undecodable res)%nat then Err (Corrupt 0 (UnknownVersion 65535)) else Ok res
       end.
End replay.

(** * The sinks keep their promise *)

#[export] Instance memory_laws : SinkLaws MemorySink.
Proof.
  refine {| holds := λ s rs, records s = rs; sink_ok := λ _ _ _ _, True |}.
  - intros s rs io k p r s' <- _ [= <- <-]. done.
  - done.
  - done.
Defined.

Definition record_of (f : Frame) : Z * list Z := (fr_kind f, fr_payload f).

Lemma append_answer w io k p seq w' : Writer.append w io k p = Ret (Ok seq, w') → seq = w_next_seq w.
Proof.
  unfold Writer.append. destruct (w_broken w); [done|]. destruct (checked u64 _); [|done].
  case_bool_decide; [done|]. intros (? & _ & E)%bind_ret. destruct io; [|done].
  apply bind_ret in E as (? & _ & [= <- _]). done.
Qed.

Lemma writer_append_holds attempted w fs io k p r w' :
  lives attempted w fs → op_ok attempted w (WAppend io k p) → Writer.append w io k p = Ret (r, w') →
  match r with
  | Ok seq => seq = Z.of_nat (length fs) ∧ lives attempted w' (fs ++ [mkFrame seq k p])
  | Err _ => lives attempted w' fs
  end.
Proof.
  intros Hl Ho E.
  assert (run_op w (WAppend io k p) = Ret (acknowledged k p r, w')) as Er by (simpl; by rewrite E).
  pose proof (lives_op _ _ _ _ _ _ Hl Ho Er) as Hl'. destruct r as [seq|x]; simpl in Hl'; [|by rewrite app_nil_r in Hl'].
  split; [|done]. rewrite (append_answer _ _ _ _ _ _ E).
  destruct (numbered_count _ _ _ (wi_seq _ _ _ (lives_inv _ _ _ Hl))) as [[= En] _]. lia.
Qed.

Lemma lives_keep attempted w fs o w' : lives attempted w fs → op_ok attempted w o →
  run_op w o = Ret ([], w') → lives attempted w' fs.
Proof. intros Hl Ho E. rewrite <-(app_nil_r fs). by eapply lives_op. Qed.

(** A writer on a journal no one else has written. *)
Definition writer_laws (attempted : Z → list Z → Prop) : SinkLaws Writer.
Proof.
  refine {| holds := λ w rs, ∃ fs, lives attempted w fs ∧ rs = record_of <$> fs;
            sink_ok := λ w io k p, op_ok attempted w (WAppend io k p) |}.
  - intros w rs io k p r w' (fs & Hl & ->) Ho E. pose proof (writer_append_holds _ _ _ _ _ _ _ _ Hl Ho E) as H.
    destruct r as [seq|x]; [|eauto]. destruct H as [-> H]. rewrite length_fmap. split; [done|].
    eexists. split; [exact H|]. by rewrite fmap_app.
  - intros w rs io (fs & Hl & ->). exists fs. split; [|done].
    by apply (lives_keep attempted w fs (WFlush io)).
  - intros w rs io (fs & Hl & ->). exists fs. split; [|done].
    by apply (lives_keep attempted w fs (WSync io)).
Defined.

(** * The sequencer over any lawful sink *)

Definition event_record e : Z * list Z := (kind e, encode e).

Lemma run_events_app {M} `{!MatcherOps M} (k : Kernel M) es fs :
  Kernel.run_events k (es ++ fs) =
    ('(k1, os) ← Kernel.run_events k es; '(k2, os') ← Kernel.run_events k1 fs; mret (k2, os ++ os')).
Proof.
  revert k. induction es as [|e es IH]; intros k; simpl.
  - by destruct (Kernel.run_events k fs) as [[]| |].
  - destruct (Kernel.apply k e) as [k1| |]; [|done..]. cbn [mbind run_bind]. rewrite IH.
    destruct (Kernel.run_events k1 es) as [[k2 os]| |]; [|done..]. cbn [mbind run_bind].
    destruct (Kernel.run_events k2 fs) as [[? ?]| |] eqn:E; cbn [mret run_ret mbind run_bind]; by rewrite E.
Qed.

Section lawful.
Context {M : Type} `{!MatcherOps M} {S : Type} `{!EventSink S} (laws : SinkLaws S).
Implicit Types (q : Sequencer M S) (k : Kernel M).

(** The sequencer's kernel is the run of the accepted events, and its sink
    holds their records after those it started with. *)
Record sequenced k0 rs0 (acc : list (Event * list Output)) q : Prop := {
  sq_run : Kernel.run_events k0 acc.*1 = Ret (sq_kernel q, acc.*2);
  sq_records : holds (sq_sink q) (rs0 ++ (event_record <$> acc.*1));
  sq_count : sq_applied q = Z.of_nat (length acc);
}.

(** Every event handed over is one the sink promises to keep. *)
Definition keeps_events (bound : nat) (cs : list Call) : Prop :=
  ∀ io e, CSubmit io e ∈ cs → ∀ s rs, holds s rs → (length rs < bound)%nat → sink_ok s io (kind e) (encode e).

Lemma submit_sequenced k0 rs0 acc q io e r q' :
  sequenced k0 rs0 acc q → sink_ok (sq_sink q) io (kind e) (encode e) →
  Sequencer.submit q io e = Ret (r, q') →
  sequenced k0 rs0 (acc ++ match r with Ok os => [(e, os)] | Err _ => [] end) q'.
Proof.
  intros [Hr Hh Hc] Hok H. unfold Sequencer.submit in H. apply bind_ret in H as ([x s] & Ea & H).
  pose proof (append_holds _ _ _ _ _ _ _ Hh Hok Ea) as Ha. destruct x as [seq|x].
  - destruct Ha as [_ Ha]. apply bind_ret in H as (n & En & H). apply bind_ret in H as (k & Ek & [= <- <-]).
    apply chk_inv in En as [-> _]. split; simpl.
    + rewrite !fmap_app, run_events_app, Hr. cbn [mbind run_bind fmap list_fmap fst snd Kernel.run_events].
      rewrite Ek. done.
    + rewrite !fmap_app, (assoc_L (++)). exact Ha.
    + rewrite length_app. simpl. lia.
  - injection H as <- <-. rewrite app_nil_r. by split.
Qed.

Lemma calls_sequenced k0 rs0 bound cs q acc a q' :
  sequenced k0 rs0 acc q → keeps_events bound cs →
  (length rs0 + length acc + length cs ≤ bound)%nat →
  Sequencer.calls q cs = Ret (a, q') → sequenced k0 rs0 (acc ++ a) q'.
Proof.
  revert q acc a. induction cs as [|c cs IH]; intros q acc a Hq Hk Hb H; simpl in H.
  { injection H as <- <-. by rewrite app_nil_r. }
  apply bind_ret in H as ([a1 q1] & H1 & H). apply bind_ret in H as ([a2 q2] & H2 & [= <- <-]).
  assert (sequenced k0 rs0 (acc ++ a1) q1 ∧ (length a1 ≤ 1)%nat) as [Hq1 Hl].
  { destruct c as [io e|io|io]; simpl in H1.
    - apply bind_ret in H1 as ([r q3] & H1 & [= <- <-]). split; [|by destruct r; simpl; lia].
      eapply submit_sequenced; [done| |exact H1]. apply (Hk io e) with (2 := sq_records _ _ _ _ Hq); [by left|].
      rewrite length_app, !length_fmap. simpl in Hb. lia.
    - injection H1 as <- <-. rewrite app_nil_r. split; [|simpl; lia]. destruct Hq as [Hr Hh Hc].
      unfold Sequencer.flush. pose proof (flush_holds _ _ io Hh). by destruct (sink_flush _ _).
    - injection H1 as <- <-. rewrite app_nil_r. split; [|simpl; lia]. destruct Hq as [Hr Hh Hc].
      unfold Sequencer.sync. pose proof (sync_holds _ _ io Hh). by destruct (sink_sync _ _). }
  rewrite (assoc_L (++)). eapply IH; [exact Hq1| | |exact H2].
  - intros io e He. apply Hk. by right.
  - rewrite length_app. simpl in Hb. lia.
Qed.

Lemma with_sink_sequenced (s : State M) (k : S) rs0 : holds k rs0 →
  sequenced (Kernel.new s) rs0 [] (Sequencer.with_sink s k).
Proof. intros H. split; [done| |done]. simpl. by rewrite app_nil_r. Qed.
End lawful.

(** * Replay of a journal of events *)

Lemma apply_frames_events {M} `{!MatcherOps M} (k : Kernel M) fs es outs n :
  Forall event_wf es → record_of <$> fs = event_record <$> es →
  apply_frames k fs outs n = ('(k', os) ← Kernel.run_events k es; mret (k', outs ++ concat os, n)).
Proof.
  intros HF. revert k fs outs. induction HF as [|e es He _ IH]; intros k fs outs E.
  - destruct fs; [|done]. simpl. by rewrite app_nil_r.
  - destruct fs as [|f fs]; [done|]. injection E as Ek Ep E. cbn [apply_frames]. rewrite Ek, Ep, event_decodes by done.
    cbn [mbind run_bind Kernel.run_events]. destruct (Kernel.apply k e) as [k1| |]; [|done..].
    cbn [mbind run_bind]. rewrite IH by done. destruct (Kernel.run_events k1 es) as [[k2 os]| |]; [|done..].
    cbn [mbind run_bind]. by rewrite <-(assoc_L (++)).
Qed.

(** * What a journal of events takes *)

Lemma kind_u16 e : u16 (kind e).
Proof. destruct e as [[] | [] | | [] | | | | | |]; by vm_compute. Qed.

Lemma put_instrument_bytes i : bytes (put_instrument i).
Proof. destruct i; [apply le_bytes|by apply Forall_nil_2]. Qed.
Lemma one_byte b : u8 b → bytes [b].
Proof. intros. by apply Forall_singleton. Qed.
Lemma put_fee_bytes fee : bytes (put_fee fee).
Proof.
  destruct fee; try by apply one_byte. apply Forall_cons. split; [done|apply le_bytes].
Qed.
Lemma put_levels_bytes ls : bytes (put_levels ls).
Proof.
  induction ls as [|l ls IH]; [by apply Forall_nil_2|]. change (put_levels (l :: ls)) with (put_level l ++ put_levels ls).
  apply Forall_app_2; [|done]. apply Forall_app_2; apply le_bytes.
Qed.

Lemma encode_bytes e : bytes (encode e).
Proof.
  destruct e as [i t|i id sd pr qty o st|id st|i a r m|i a c|a c m|a|c a|f fee|u]; cbn [encode];
    unfold encode_depth, put_stamp; repeat apply Forall_app_2;
    try apply le_bytes; try apply put_instrument_bytes; try apply put_fee_bytes; try apply put_levels_bytes;
    apply one_byte.
  - destruct sd; cbn; mlia.
  - destruct pr; cbn; mlia.
  - destruct o; cbn; mlia.
  - destruct (f_side f); cbn; mlia.
  - destruct (f_offset f); cbn; mlia.
  - destruct (f_liquidity f); cbn; mlia.
  - case_bool_decide; cbn; mlia.
Qed.

(** An event the journal keeps at any of its first [n] positions. *)
Definition journalable (n : nat) e : Prop :=
  event_wf e ∧ ∀ seq, 0 ≤ seq < Z.of_nat n → plain (mkFrame seq (kind e) (encode e)).

(** The events whose write the disk failed. *)
Definition attempted (cs : list Call) (kind_ : Z) (payload : list Z) : Prop :=
  ∃ i e, CSubmit (IoFail i) e ∈ cs ∧ kind_ = kind e ∧ payload = encode e.

Lemma journalable_keeps cs : (∀ io e, CSubmit io e ∈ cs → journalable (length cs) e) →
  keeps_events (writer_laws (attempted cs)) (length cs) cs.
Proof.
  intros H io e He w rs (fs & Hl & ->) Hlen. rewrite length_fmap in Hlen. destruct (H io e He) as [Hw Hp].
  simpl. split.
  - split; [apply kind_u16|]. split; [apply encode_bytes|]. apply Hp.
    destruct (numbered_count _ _ _ (wi_seq _ _ _ (lives_inv _ _ _ Hl))) as [[= En] _]. lia.
  - destruct io as [|i]; [done|]. intros _. by exists i, e.
Qed.

Lemma append_policy w io k p r w' : Writer.append w io k p = Ret (r, w') → w_policy w' = w_policy w.
Proof.
  unfold Writer.append. destruct (w_broken w); [by intros [= _ <-]|].
  destruct (checked u64 _); [|by intros [= _ <-]]. case_bool_decide; [by intros [= _ <-]|].
  intros (? & _ & E)%bind_ret. destruct io; [|by injection E as _ <-].
  apply bind_ret in E as (? & _ & [= _ <-]). done.
Qed.

Lemma calls_policy {M} `{!MatcherOps M} (q : Sequencer M Writer) cs a q' :
  Sequencer.calls q cs = Ret (a, q') → w_policy (sq_sink q') = w_policy (sq_sink q).
Proof.
  revert q a. induction cs as [|c cs IH]; intros q a H; simpl in H; [by injection H as _ <-|].
  apply bind_ret in H as ([a1 q1] & H1 & H). apply bind_ret in H as ([a2 q2] & H2 & [= _ <-]).
  rewrite (IH _ _ H2). destruct c as [io e|io|io]; simpl in H1.
  - apply bind_ret in H1 as ([r q3] & H1 & [= _ <-]). unfold Sequencer.submit in H1.
    apply bind_ret in H1 as ([x w] & Ea & H1). apply append_policy in Ea. rewrite <-Ea. destruct x.
    + apply bind_ret in H1 as (? & _ & H1). by apply bind_ret in H1 as (? & _ & [= _ <-]).
    + by injection H1 as _ <-.
  - injection H1 as _ <-. unfold Sequencer.flush. simpl. unfold Writer.flush.
    destruct (w_broken _); [done|by destruct io].
  - injection H1 as _ <-. unfold Sequencer.sync. simpl. unfold Writer.sync.
    destruct (w_broken _); [done|by destruct io].
Qed.

Lemma records_prefix fs gs es : record_of <$> fs = event_record <$> es → gs `prefix_of` fs →
  ∃ js, js `prefix_of` es ∧ record_of <$> gs = event_record <$> js ∧ (length gs = length fs → js = es).
Proof.
  intros E [tl ->]. exists (take (length gs) es).
  assert (length gs + length tl = length es)%nat as Hl.
  { apply (f_equal length) in E. by rewrite !length_fmap, length_app in E. }
  split; [apply prefix_take|]. split.
  - apply (f_equal (take (length gs))) in E. rewrite fmap_app, take_app_length' in E by by rewrite length_fmap.
    by rewrite fmap_take.
  - rewrite length_app. intros H. apply take_ge. lia.
Qed.

Lemma calls_submitted {M} `{!MatcherOps M} {S} `{!EventSink S} (q : Sequencer M S) cs a q' e :
  Sequencer.calls q cs = Ret (a, q') → e ∈ a.*1 → ∃ io, CSubmit io e ∈ cs.
Proof.
  revert q a. induction cs as [|c cs IH]; intros q a H He; simpl in H; [injection H as <- <-; by apply elem_of_nil in He|].
  apply bind_ret in H as ([a1 q1] & H1 & H). apply bind_ret in H as ([a2 q2] & H2 & [= <- <-]).
  rewrite fmap_app in He. apply elem_of_app in He as [He|He].
  - destruct c as [io x|io|io]; simpl in H1; [|injection H1 as <- <-; by apply elem_of_nil in He..].
    apply bind_ret in H1 as ([r q3] & H1 & [= <- <-]). destruct r; [|by apply elem_of_nil in He].
    apply list_elem_of_singleton in He as ->. exists io. by left.
  - destruct (IH _ _ H2 He) as [io Hio]. exists io. by right.
Qed.


(** A record that hides no other, by looking. *)
Definition plainb (f : Frame) : bool :=
  forallb (λ j, match Frame.decode (drop j (image f)) with Ret (Ok _) => false | _ => true end)
    (seq 1 (length (image f))).
Lemma plainb_plain f : plainb f = true → plain f.
Proof.
  intros H j Hj (g & m & E). unfold plainb in H. rewrite forallb_forall in H.
  destruct (Nat.le_gt_cases j (length (image f))) as [Hl|Hl].
  - specialize (H j). rewrite E in H. discriminate H. apply in_seq. lia.
  - rewrite drop_ge, decode_short in E by (simpl; unfold FRAMING_LEN, HEADER_LEN, TRAILER_LEN; lia). done.
Qed.
Lemma journalable_check n e : event_wf e →
  forallb (λ s, plainb (mkFrame (Z.of_nat s) (kind e) (encode e))) (seq 0 n) = true → journalable n e.
Proof.
  intros He H. split; [done|]. intros s Hs. apply plainb_plain. rewrite forallb_forall in H.
  rewrite <-(Z2Nat.id s) by lia. apply H, in_seq. lia.
Qed.

Module DemoRun.
Definition state : State Matcher :=
  State.new 7 (mkContract 100) (mkTable [mkTier 1000000000000 10000000 0]) 1000000.
Definition tick (n last : Z) : Event := ETick (Some 7) (Tick.trades_only (mkStamp n n) last last last).
Definition order : Event := ESubmit None 1 Buy None 10 Open (mkStamp 1 1).
Definition deposit : Event := EMarginDeposit 5000 2.
Definition run_calls : list Call :=
  [CSubmit IoOk (tick 1 100); CSubmit IoOk order; CSubmit IoOk (tick 2 110); CSubmit (IoFail 3) deposit;
   CSubmit IoOk (tick 3 120)].
End DemoRun.

Lemma demo_journalable io e : CSubmit io e ∈ DemoRun.run_calls → journalable (length DemoRun.run_calls) e.
Proof.
  intros H. apply journalable_check.
  - revert H. unfold DemoRun.run_calls.
    repeat (intros [H|H]%elem_of_cons; [injection H as -> ->; simpl; unfold tick_ok, stamp_ok; simpl; split_and!; mlia|revert H]).
    by intros ?%elem_of_nil.
  - revert H. unfold DemoRun.run_calls.
    repeat (intros [H|H]%elem_of_cons; [injection H as -> ->; vm_compute; reflexivity|revert H]).
    by intros ?%elem_of_nil.
Qed.

