(* ===== verification/Risk.v ===== *)
(** The risk gate ([oq-risk/src/lib.rs]): the last check before an order
    leaves, the sending rate it enforces, and how far the orders it permits can
    move the position. *)

From stdpp Require Import strings.
From S2P Require Import Prelude Types Instrument.
#[local] Open Scope Z_scope.

(** * Data *)

Record ProposedOrder := mkProposed {
  po_side : Side; po_limit_price : option PriceTicks; po_qty : QtyLots; po_reduce_only : bool;
}.

Record AccountState := mkAccountState { as_position : QtyLots; as_mark : PriceTicks; as_working : Z }.

Record Limits := mkLimits {
  max_order_qty : QtyLots; max_position_qty : QtyLots; max_order_notional : Cash; price_band : Ratio;
  max_working : Z; max_rate : Z; rate_window : Nanos;
}.
Definition closed : Limits := mkLimits 0 0 0 0 0 0 1000000000.

Inductive Breach :=
| Halted
| OrderTooLarge (qty limit : QtyLots)
| PositionWouldExceed (resulting limit : QtyLots)
| NotionalTooLarge (notional limit : Cash)
| PriceOutsideBand (price mark : PriceTicks) (limit : Ratio)
| TooManyWorking (working limit : Z)
| TooFast (sent limit : Z)
| Malformed (why : string)
| Unpriceable.

Record Permit := mkPermit { pm_order : ProposedOrder; pm_at : Nanos }.

(** [Decision]. *)
Inductive Verdict := Permitted (p : Permit) | Refuse (b : Breach).
Definition is_permitted (d : Verdict) : bool := match d with Permitted _ => true | Refuse _ => false end.

#[export] Instance ProposedOrder_eq_dec : EqDecision ProposedOrder.
Proof. solve_decision. Defined.
#[export] Instance Breach_eq_dec : EqDecision Breach.
Proof. solve_decision. Defined.
#[export] Instance Permit_eq_dec : EqDecision Permit.
Proof. solve_decision. Defined.
#[export] Instance Verdict_eq_dec : EqDecision Verdict.
Proof. solve_decision. Defined.

(** The gate; [tripped] is its kill switch. *)
Record RiskGate := mkGate { rg_limits : Limits; tripped : bool; recent : list Nanos }.

(** * Operations *)

Definition not_positive : string := "quantity must be positive; direction is the side".
Definition not_priced : string := "a limit price of zero is an order to trade at nothing".

Module RiskGate.
Definition new (l : Limits) : RiskGate := mkGate l false [].
Definition trip (g : RiskGate) : RiskGate := mkGate (rg_limits g) true (recent g).
Definition clear (g : RiskGate) : RiskGate := mkGate (rg_limits g) false (recent g).

(** Where the position ends up if the order fills entirely. *)
Definition resulting (o : ProposedOrder) (a : AccountState) : QtyLots :=
  let signed := match po_side o with Buy => po_qty o | Sell => - po_qty o end in
  if po_reduce_only o then as_position a else sat64 (as_position a + signed).

(** The distance of a limit price from the mark, against the band. *)
Definition outside_band (l : Limits) (o : ProposedOrder) (a : AccountState) : option PriceTicks :=
  match po_limit_price o with
  | Some price =>
      if (0 <? as_mark a) &&
         (Z.quot (as_mark a * price_band l) RATIO_SCALE <? Z.abs (price - as_mark a))
      then Some price else None
  | None => None
  end.

(** [i64::abs] panics at [i64::MIN]; the other differences and products here
    are of positive prices, or in [i128], and cannot overflow. *)
Definition check (g : RiskGate) (o : ProposedOrder) (a : AccountState) (i : Instrument) (now : Nanos)
    : run (Verdict * RiskGate) :=
  let l := rg_limits g in
  let refuse b := mret (Refuse b, g) in
  if tripped g then refuse Halted
  else if po_qty o <=? 0 then refuse (Malformed not_positive)
  else if match po_limit_price o with Some p => p <=? 0 | None => false end then refuse (Malformed not_priced)
  else if negb (po_reduce_only o) && (max_order_qty l <? po_qty o)
    then refuse (OrderTooLarge (po_qty o) (max_order_qty l))
  else if po_reduce_only o && (max_position_qty l <? po_qty o)
    then refuse (OrderTooLarge (po_qty o) (max_position_qty l))
  else
    exceeds ← (if po_reduce_only o then mret false
               else size ← chk64 (Z.abs (resulting o a)); mret (max_position_qty l <? size));
    if exceeds : bool then refuse (PositionWouldExceed (resulting o a) (max_position_qty l))
    else
      match notional i (default (as_mark a) (po_limit_price o)) (po_qty o) with
      | None => refuse Unpriceable
      | Some n =>
          if negb (po_reduce_only o) && (max_order_notional l <? n)
            then refuse (NotionalTooLarge n (max_order_notional l))
          else
            match outside_band l o a with
            | Some price => refuse (PriceOutsideBand price (as_mark a) (price_band l))
            | None =>
                if max_working l <=? as_working a then refuse (TooManyWorking (as_working a) (max_working l))
                else
                  let kept := filter (λ t, sat64 (now - t) < rate_window l) (recent g) in
                  let g := mkGate l (tripped g) kept in
                  let sent := Z.min (Z.of_nat (length kept)) U32_MAX in
                  if max_rate l <=? sent then mret (Refuse (TooFast sent (max_rate l)), g)
                  else mret (Permitted (mkPermit o now), mkGate l (tripped g) (kept ++ [now]))
            end
      end.
End RiskGate.

(** * What a permit means *)

Definition band_ok (l : Limits) (o : ProposedOrder) (a : AccountState) : Prop :=
  match po_limit_price o with
  | Some p => 0 < p ∧ (0 < as_mark a → Z.abs (p - as_mark a) ≤ Z.quot (as_mark a * price_band l) RATIO_SCALE)
  | None => True
  end.

(** Every limit, as the operator reads them. *)
Record within (g : RiskGate) (o : ProposedOrder) (a : AccountState) (i : Instrument) (now : Nanos) : Prop := {
  wi_running : tripped g = false;
  wi_qty : 0 < po_qty o;
  wi_size : po_qty o ≤ if po_reduce_only o then max_position_qty (rg_limits g) else max_order_qty (rg_limits g);
  wi_position : po_reduce_only o = false → Z.abs (RiskGate.resulting o a) ≤ max_position_qty (rg_limits g);
  wi_notional : ∃ n, notional i (default (as_mark a) (po_limit_price o)) (po_qty o) = Some n ∧
    (po_reduce_only o = false → n ≤ max_order_notional (rg_limits g));
  wi_band : band_ok (rg_limits g) o a;
  wi_working : as_working a < max_working (rg_limits g);
  wi_rate : Z.min (Z.of_nat (length (filter (λ t, sat64 (now - t) < rate_window (rg_limits g)) (recent g)))) U32_MAX
            < max_rate (rg_limits g);
}.

Lemma outside_band_spec l o a : match po_limit_price o with Some p => 0 < p | None => True end →
  band_ok l o a ↔ RiskGate.outside_band l o a = None.
Proof.
  unfold band_ok, RiskGate.outside_band. destruct (po_limit_price o) as [p|]; [|done]. intros Hp.
  destruct (Z.ltb_spec 0 (as_mark a)), (Z.ltb_spec (Z.quot (as_mark a * price_band l) RATIO_SCALE) (Z.abs (p - as_mark a)));
    simpl; split; try done; [intros [_ Hb]; specialize (Hb H); lia|intros _; split; [done|lia]..].
Qed.

(** What a check does: a permit for this order and this time, remembered, when
    every limit holds; otherwise a refusal. *)
Definition decided (g : RiskGate) (o : ProposedOrder) (a : AccountState) (i : Instrument) (now : Nanos)
    (r : Verdict * RiskGate) : Prop :=
  let kept := filter (λ t, sat64 (now - t) < rate_window (rg_limits g)) (recent g) in
  (within g o a i now ∧ r = (Permitted (mkPermit o now), mkGate (rg_limits g) false (kept ++ [now]))) ∨
  (¬ within g o a i now ∧ is_permitted r.1 = false ∧
   rg_limits r.2 = rg_limits g ∧ tripped r.2 = tripped g ∧ (recent r.2 = recent g ∨ recent r.2 = kept)).

Lemma refuse_decided g o a i now b : ¬ within g o a i now → decided g o a i now (Refuse b, g).
Proof. intros. right. split_and!; try done. by left. Qed.

Lemma check_decides g o a i now : yields (RiskGate.check g o a i now) (decided g o a i now).
Proof.
  unfold RiskGate.check.
  destruct (tripped g) eqn:Et; [apply yields_ret, refuse_decided; intros [H]; congruence|].
  destruct (Z.leb_spec (po_qty o) 0) as [Hq|Hq]; [apply yields_ret, refuse_decided; intros []; lia|].
  destruct (match po_limit_price o with Some p => p <=? 0 | None => false end) eqn:Ep.
  { apply yields_ret, refuse_decided. intros [_ _ _ _ _ Hb _ _]. unfold band_ok in Hb.
    destruct (po_limit_price o); [|done]. apply Z.leb_le in Ep. lia. }
  assert (match po_limit_price o with Some p => 0 < p | None => True end) as Hp.
  { destruct (po_limit_price o); [|done]. apply Z.leb_gt in Ep. done. }
  destruct (negb (po_reduce_only o) && _) eqn:E1.
  { apply yields_ret, refuse_decided. intros [_ _ Hs _ _ _ _ _]. destruct (po_reduce_only o); [done|].
    apply Z.ltb_lt in E1. lia. }
  destruct (po_reduce_only o && _) eqn:E2.
  { apply yields_ret, refuse_decided. intros [_ _ Hs _ _ _ _ _]. destruct (po_reduce_only o); [|done].
    apply Z.ltb_lt in E2. lia. }
  apply yields_bind. intros x Hx.
  assert (x = true ↔ po_reduce_only o = false ∧ max_position_qty (rg_limits g) < Z.abs (RiskGate.resulting o a)) as Hx'.
  { destruct (po_reduce_only o); [injection Hx as <-; naive_solver|].
    apply bind_ret in Hx as (n & En & [= <-]). apply chk_inv in En as [-> _]. rewrite Z.ltb_lt. naive_solver. }
  clear Hx. rename Hx' into Hx. destruct x.
  { apply yields_ret, refuse_decided. intros [_ _ _ Hs _ _ _ _]. destruct (proj1 Hx eq_refl) as [Hr Hm].
    specialize (Hs Hr). lia. }
  destruct (notional i _ _) as [n|] eqn:En.
  2: { apply yields_ret, refuse_decided. intros [_ _ _ _ (n & Hn & _) _ _ _]. congruence. }
  destruct (negb (po_reduce_only o) && (max_order_notional _ <? n)) eqn:E3.
  { apply yields_ret, refuse_decided. intros [_ _ _ _ (m & Hm & Hl) _ _ _]. destruct (po_reduce_only o); [done|].
    apply Z.ltb_lt in E3. specialize (Hl eq_refl). rewrite En in Hm. injection Hm as ->. lia. }
  destruct (RiskGate.outside_band _ _ _) eqn:E4.
  { apply yields_ret, refuse_decided. intros [_ _ _ _ _ Hb _ _]. apply outside_band_spec in Hb; [|done]. congruence. }
  destruct (Z.leb_spec (max_working (rg_limits g)) (as_working a)) as [Hw|Hw].
  { apply yields_ret, refuse_decided. intros []. lia. }
  set (kept := filter _ (recent g)).
  destruct (Z.leb_spec (max_rate (rg_limits g)) (Z.min (Z.of_nat (length kept)) U32_MAX)) as [Hr|Hr].
  - apply yields_ret. right. split; [intros [_ _ _ _ _ _ _ Hrate]; fold kept in Hrate; lia|]. simpl. rewrite Et.
    split_and!; try done. by right.
  - apply yields_ret. left. split; [|done]. split; try done.
    + destruct (po_reduce_only o); simpl in *; [apply Z.ltb_ge in E2|apply Z.ltb_ge in E1]; done.
    + intros Hro. destruct (Z.le_gt_cases (Z.abs (RiskGate.resulting o a)) (max_position_qty (rg_limits g))); [done|].
      by assert (false = true) by (by apply Hx).
    + exists n. split; [done|]. intros Hro. rewrite Hro in E3. by apply Z.ltb_ge in E3.
    + by apply outside_band_spec.
Qed.

Lemma check_returns g o a i now : (po_reduce_only o = false → i64 (Z.abs (RiskGate.resulting o a))) →
  ∃ r, RiskGate.check g o a i now = Ret r.
Proof.
  intros Habs. unfold RiskGate.check. repeat case_match; eauto; subst.
  all: try (rewrite chk_ret by auto; cbn [mbind run_bind mret run_ret]; repeat case_match; eauto).
  all: cbn [mbind run_bind mret run_ret]; repeat case_match; eauto.
Qed.

(** The gate permits exactly the orders inside every limit: it never
    panics on a position that is a quantity, a permit carries the order that
    was checked and the time it was checked at, every other order is refused,
    and neither answer touches the limits or the kill switch. *)
Theorem permit_means_every_limit g o a i now
    (Habs : po_reduce_only o = false → i64 (Z.abs (RiskGate.resulting o a))) :
  ∃ v g', RiskGate.check g o a i now = Ret (v, g') ∧
    (is_permitted v = true ↔ within g o a i now) ∧
    (∀ p, v = Permitted p → p = mkPermit o now) ∧
    rg_limits g' = rg_limits g ∧ tripped g' = tripped g.
Proof.
  destruct (yields_returns _ _ (check_returns g o a i now Habs) (check_decides g o a i now)) as ([v g'] & E & H). exists v, g'. split; [done|].
  destruct H as [[Hw [= -> ->]]|(Hw & Hv & Hl & Ht & _)]; simpl in *.
  - split; [done|]. split; [by intros p [= <-]|]. split; [done|]. by rewrite (wi_running _ _ _ _ _ Hw).
  - split; [rewrite Hv; split; [done|by intros ?]|]. split; [by intros p ->|done].
Qed.

(** * The sending rate *)

Inductive Ask :=
| AskCheck (o : ProposedOrder) (a : AccountState) (i : Instrument) (now : Nanos)
| AskTrip
| AskClear.

Definition ask (g : RiskGate) (q : Ask) : run (list Permit * RiskGate) :=
  match q with
  | AskCheck o a i now =>
      '(v, g) ← RiskGate.check g o a i now;
      mret (match v with Permitted p => [p] | Refuse _ => [] end, g)
  | AskTrip => mret ([], RiskGate.trip g)
  | AskClear => mret ([], RiskGate.clear g)
  end.
Fixpoint asks (g : RiskGate) (qs : list Ask) : run (list Permit * RiskGate) :=
  match qs with
  | [] => mret ([], g)
  | q :: qs => '(ps, g) ← ask g q; '(ps', g) ← asks g qs; mret (ps ++ ps', g)
  end.

(** A clock that never goes back, and positions that are quantities. *)
Fixpoint clocked (t : Nanos) (qs : list Ask) : Prop :=
  match qs with
  | [] => True
  | AskCheck o a i now :: qs => t ≤ now ∧ clocked now qs
  | _ :: qs => clocked t qs
  end.

Definition young (w now t : Z) : Prop := now - t < w.
#[export] Instance young_dec w now t : Decision (young w now t).
Proof. unfold young. apply _. Defined.
Definition in_window (w t : Z) (p : Permit) : Prop := t - w < pm_at p ≤ t.
#[export] Instance in_window_dec w t p : Decision (in_window w t p).
Proof. unfold in_window. apply _. Defined.

Record paced (l : Limits) (g : RiskGate) (ps : list Permit) (t : Nanos) : Prop := {
  pc_limits : rg_limits g = l;
  pc_past : Forall (λ p, pm_at p ≤ t) ps;
  pc_recent : ∀ now, t ≤ now → filter (young (rate_window l) now) (pm_at <$> ps) = filter (young (rate_window l) now) (recent g);
  pc_rate : ∀ s, Z.of_nat (length (filter (in_window (rate_window l) s) ps)) ≤ max_rate l;
}.

Definition limits_ok (l : Limits) : Prop :=
  0 ≤ max_order_qty l ∧ 0 ≤ max_position_qty l < I64_MAX ∧ 0 ≤ max_working l ∧ u32 (max_rate l) ∧
  0 ≤ rate_window l ≤ I64_MAX.

Lemma retain_young l now (ts : list Z) : limits_ok l →
  filter (λ t, sat64 (now - t) < rate_window l) ts = filter (young (rate_window l) now) ts.
Proof. intros (_ & _ & _ & _ & ?). apply list_filter_iff. intros t. unfold young. mlia. Qed.

Lemma keep_young w now now' (ts : list Z) : now ≤ now' → filter (young w now') (filter (young w now) ts) = filter (young w now') ts.
Proof. intros. apply list_filter_filter_l. unfold young. lia. Qed.

Lemma window_young w s now ps : now ≤ s → now > s - w → Forall (λ p, pm_at p ≤ now) ps →
  (length (filter (in_window w s) ps) ≤ length (filter (young w now) (pm_at <$> ps)))%nat.
Proof.
  intros Hs Hn. induction 1 as [|p ps Hp _ IH]; [done|]. cbn [fmap list_fmap]. rewrite !filter_cons.
  repeat case_decide; simpl; try lia. exfalso. unfold in_window, young in *. lia.
Qed.
Lemma window_empty w s now ps : Forall (λ p, pm_at p ≤ now) ps → now ≤ s - w → filter (in_window w s) ps = [].
Proof.
  induction 1 as [|p ps Hp _ IH]; [done|]. intros. rewrite filter_cons. case_decide as Hi; [unfold in_window in Hi; lia|auto].
Qed.

Lemma permit_paced l g ps t now p g' : limits_ok l → paced l g ps t → t ≤ now → pm_at p = now →
  let kept := filter (λ t, sat64 (now - t) < rate_window l) (recent g) in
  Z.min (Z.of_nat (length kept)) U32_MAX < max_rate l → rg_limits g' = l → recent g' = kept ++ [now] →
  paced l g' (ps ++ [p]) now.
Proof.
  intros Hl [Hlim Hpast Hrec Hrate] Ht Hp kept Hk Hl' Hr.
  assert (Forall (λ q, pm_at q ≤ now) ps) as Hpast' by (eapply Forall_impl; [exact Hpast|]; simpl; lia).
  assert (kept = filter (young (rate_window l) now) (pm_at <$> ps)) as Ek.
  { unfold kept. rewrite retain_young, Hrec by done. done. }
  split; [done|apply Forall_app_2; [done|apply Forall_singleton; lia]| |].
  - intros n Hn. rewrite Hr, fmap_app, !filter_app. f_equal; [|by simpl; rewrite Hp].
    rewrite Ek, keep_young by done. done.
  - intros s. rewrite filter_app, length_app. specialize (Hrate s). cbn [filter list_filter].
    case_decide as Hw; [|simpl; lia]. unfold in_window in Hw. rewrite Hp in Hw.
    pose proof (window_young (rate_window l) s now ps ltac:(lia) ltac:(lia) Hpast') as Hle.
    rewrite <-Ek in Hle. destruct Hl as (_ & _ & _ & Hu & _). simpl. mlia.
Qed.

Lemma quiet_paced l g ps t now g' : limits_ok l → paced l g ps t → t ≤ now → rg_limits g' = l →
  (recent g' = recent g ∨ recent g' = filter (λ t, sat64 (now - t) < rate_window l) (recent g)) → paced l g' ps now.
Proof.
  intros Hl [Hlim Hpast Hrec Hrate] Ht Hl' Hr. split; [done|eapply Forall_impl; [exact Hpast|]; simpl; lia| |done].
  intros n Hn. rewrite Hrec by lia. destruct Hr as [->| ->]; [done|]. by rewrite retain_young, keep_young by done.
Qed.


Lemma check_paced l g ps t o a i now v g' : limits_ok l → paced l g ps t → t ≤ now →
  RiskGate.check g o a i now = Ret (v, g') →
  paced l g' (ps ++ match v with Permitted p => [p] | Refuse _ => [] end) now.
Proof.
  intros Hl Hg Ht E. pose proof (pc_limits _ _ _ _ Hg) as Hlim.
  destruct (check_decides g o a i now _ E) as [[Hw [= -> ->]]|(_ & Hv & Hl' & _ & Hr)]; simpl in *.
  - rewrite Hlim. eapply permit_paced; [done..| |done|done]. simpl. pose proof (wi_rate _ _ _ _ _ Hw) as Hwr.
    by rewrite Hlim in Hwr.
  - destruct v; [done|]. rewrite app_nil_r. eapply quiet_paced; [done..|by rewrite Hl'|by rewrite <-Hlim].
Qed.

Lemma asks_paced l g ps t qs ps' g' : limits_ok l → paced l g ps t → clocked t qs →
  asks g qs = Ret (ps', g') → ∃ t', paced l g' (ps ++ ps') t'.
Proof.
  intros Hl. revert g ps t ps'. induction qs as [|q qs IH]; intros g ps t ps' Hg Hc E; simpl in E.
  { injection E as <- <-. exists t. by rewrite app_nil_r. }
  apply bind_ret in E as ([p1 g1] & E1 & E). apply bind_ret in E as ([p2 g2] & E2 & [= <- <-]).
  rewrite (assoc_L (++)). destruct q as [o a i now| |]; simpl in E1, Hc.
  - apply bind_ret in E1 as ([v g3] & E1 & [= <- <-]). destruct Hc as [Ht Hc].
    eapply IH; [|exact Hc|exact E2]. by eapply check_paced.
  - injection E1 as <- <-. rewrite app_nil_r. eapply IH; [|exact Hc|exact E2]. by destruct Hg.
  - injection E1 as <- <-. rewrite app_nil_r. eapply IH; [|exact Hc|exact E2]. by destruct Hg.
Qed.

(** C35. The sending rate holds over every window, not only the ones the gate
    looks at: whatever is asked of a new gate, halts and resumptions included,
    as long as its clock never goes back, no window of the configured length,
    wherever it starts, contains more permits than the limit. *)
Theorem rate_holds_in_every_window l t qs ps g' (s : Nanos)
    (Hl : limits_ok l) (Hc : clocked t qs) (E : asks (RiskGate.new l) qs = Ret (ps, g')) :
  Z.of_nat (length (filter (in_window (rate_window l) s) ps)) ≤ max_rate l.
Proof.
  destruct (asks_paced l (RiskGate.new l) [] t qs ps g' Hl) as [t' H]; [|done..|exact (pc_rate _ _ _ _ H s)].
  split; [done|constructor|done|]. intros s'. simpl. destruct Hl as (_ & _ & _ & Hu & _). mlia.
Qed.

(** * How far permitted orders can move the position *)

Record Exposure := mkExposure { ex_gate : RiskGate; ex_position : QtyLots; ex_working : list ProposedOrder }.

Definition signed_qty (s : Side) (n : Z) : Z := match s with Buy => n | Sell => - n end.
Definition with_qty (o : ProposedOrder) (n : QtyLots) : ProposedOrder :=
  mkProposed (po_side o) (po_limit_price o) n (po_reduce_only o).
Definition after_fill (o : ProposedOrder) (n : QtyLots) : list ProposedOrder :=
  if po_qty o - n =? 0 then [] else [with_qty o (po_qty o - n)].

(** A reduce-only order trades only against a position, and never past it. *)
Definition reduces (p : QtyLots) (s : Side) (n : Z) : Prop :=
  match s with Buy => p + n ≤ 0 | Sell => 0 ≤ p - n end.

(** An account behind a gate: orders are submitted with the true position and
    the true number of working orders, permitted ones work until they fill, in
    any pieces and in any order, or are cancelled. *)
Inductive exposure_step : Exposure → Exposure → Prop :=
| xs_check g p ws o mark i now v g' :
    RiskGate.check g o (mkAccountState p mark (Z.of_nat (length ws))) i now = Ret (v, g') →
    exposure_step (mkExposure g p ws) (mkExposure g' p (ws ++ match v with Permitted x => [pm_order x] | Refuse _ => [] end))
| xs_fill g p a o b n : 0 < n ≤ po_qty o → (po_reduce_only o = true → reduces p (po_side o) n) →
    exposure_step (mkExposure g p (a ++ o :: b))
      (mkExposure g (p + signed_qty (po_side o) n) (a ++ after_fill o n ++ b))
| xs_cancel g p a o b : exposure_step (mkExposure g p (a ++ o :: b)) (mkExposure g p (a ++ b))
| xs_trip g p ws : exposure_step (mkExposure g p ws) (mkExposure (RiskGate.trip g) p ws)
| xs_clear g p ws : exposure_step (mkExposure g p ws) (mkExposure (RiskGate.clear g) p ws).

(** What the working orders of one side can still open. *)
Definition opening (s : Side) (o : ProposedOrder) : Z :=
  if po_reduce_only o then 0 else if decide (po_side o = s) then po_qty o else 0.
Definition open_qty (s : Side) (ws : list ProposedOrder) : Z := zsum (opening s <$> ws).

Definition position_bound (l : Limits) : Z := max_position_qty l + Z.max 0 (max_working l - 1) * max_order_qty l.

Definition order_ok (l : Limits) (o : ProposedOrder) : Prop :=
  0 < po_qty o ∧ (po_reduce_only o = false → po_qty o ≤ max_order_qty l).

Record exposed (l : Limits) (x : Exposure) : Prop := {
  ed_limits : rg_limits (ex_gate x) = l;
  ed_count : Z.of_nat (length (ex_working x)) ≤ max_working l;
  ed_orders : Forall (order_ok l) (ex_working x);
  ed_long : ex_position x + open_qty Buy (ex_working x) ≤ position_bound l;
  ed_short : - position_bound l ≤ ex_position x - open_qty Sell (ex_working x);
}.

Lemma open_qty_app s a b : open_qty s (a ++ b) = open_qty s a + open_qty s b.
Proof. unfold open_qty. by rewrite fmap_app, zsum_app. Qed.

Lemma open_qty_cons s o ws : open_qty s (o :: ws) = opening s o + open_qty s ws.
Proof. done. Qed.

Lemma opening_bound l s o : order_ok l o → 0 ≤ max_order_qty l → 0 ≤ opening s o ≤ max_order_qty l.
Proof. intros [Hq Ho] Hm. unfold opening. destruct (po_reduce_only o); [lia|]. specialize (Ho eq_refl). case_decide; lia. Qed.

Lemma open_qty_bound l s ws : Forall (order_ok l) ws → 0 ≤ max_order_qty l →
  0 ≤ open_qty s ws ≤ Z.of_nat (length ws) * max_order_qty l.
Proof.
  intros HF Hm. induction HF as [|o ws Ho _ IH]; [done|]. rewrite open_qty_cons. cbn [length].
  pose proof (opening_bound l s o Ho Hm). nia.
Qed.

(** A fill or a cancel in place. *)
Lemma after_fill_ok l o n : order_ok l o → 0 < n ≤ po_qty o → Forall (order_ok l) (after_fill o n) ∧
  (length (after_fill o n) ≤ 1)%nat ∧
  ∀ s, open_qty s (after_fill o n) = opening s o - (if po_reduce_only o then 0 else if decide (po_side o = s) then n else 0).
Proof.
  intros [Hq Ho] Hn. unfold after_fill. destruct (Z.eqb_spec (po_qty o - n) 0) as [E|E].
  - split; [constructor|]. split; [simpl; lia|]. intros s. unfold open_qty, opening. simpl.
    destruct (po_reduce_only o); [done|]. case_decide; lia.
  - split; [apply Forall_singleton; split; simpl; [lia|intros H; specialize (Ho H); lia]|]. split; [simpl; lia|].
    intros s. rewrite open_qty_cons. unfold open_qty, opening. simpl. destruct (po_reduce_only o); [done|].
    case_decide; lia.
Qed.

Lemma room l a o b : Forall (order_ok l) (a ++ o :: b) → 0 ≤ max_order_qty l → 0 ≤ max_position_qty l →
  Z.of_nat (length (a ++ o :: b)) ≤ max_working l → po_reduce_only o = true →
  ∀ s, 0 ≤ open_qty s (a ++ o :: b) ≤ position_bound l.
Proof.
  intros HF Hm Hp Hc Hr s. apply Forall_app in HF as [Ha [Ho Hb]%Forall_cons].
  pose proof (open_qty_bound l s a Ha Hm). pose proof (open_qty_bound l s b Hb Hm).
  rewrite open_qty_app, open_qty_cons. unfold opening. rewrite Hr. rewrite length_app in Hc. simpl in Hc.
  unfold position_bound. assert (0 ≤ max_working l - 1) by lia. rewrite Z.max_r by done. nia.
Qed.

Lemma step_exposed l x y : limits_ok l → exposed l x → exposure_step x y → exposed l y.
Proof.
  intros (Hm & Hp & Hw & _) [Hl Hc HF Hlo Hsh] Hs.
  destruct Hs as [g p ws o mark i now v g' E|g p a o b n Hn Hr|g p a o b|g p ws|g p ws]; simpl in *; try by split.
  - destruct (check_decides _ _ _ _ _ _ E) as [[W [= -> ->]]|(_ & Hv & Hl' & _ & _)]; simpl in *.
    2: { destruct v; [done|]. rewrite app_nil_r. split; simpl; by rewrite ?Hl'. }
    pose proof (wi_working _ _ _ _ _ W) as Hwk. pose proof (wi_size _ _ _ _ _ W) as Hsz.
    pose proof (wi_qty _ _ _ _ _ W) as Hq. pose proof (wi_position _ _ _ _ _ W) as Hpos. simpl in *. rewrite Hl in *.
    assert (order_ok l o) as Ho by (split; [done|intros Hro; by rewrite Hro in Hsz]).
    pose proof (open_qty_bound l Buy ws HF Hm). pose proof (open_qty_bound l Sell ws HF Hm).
    assert (position_bound l = max_position_qty l + (max_working l - 1) * max_order_qty l) as HB
      by (unfold position_bound; rewrite Z.max_r by lia; done).
    assert (Z.of_nat (length ws) * max_order_qty l ≤ (max_working l - 1) * max_order_qty l) by nia.
    split; simpl; [done|rewrite length_app; simpl; lia|by apply Forall_app_2; [|apply Forall_singleton]| |];
      rewrite open_qty_app, open_qty_cons; unfold opening, RiskGate.resulting in *;
      (destruct (po_reduce_only o); [change (open_qty _ []) with 0; lia|]); specialize (Hpos eq_refl);
      change (open_qty _ []) with 0; destruct (po_side o); repeat case_decide; try done;
      cbn [as_position] in Hpos; mlia.
  - assert (HF' := HF). apply Forall_app in HF' as [Ha [Ho Hb]%Forall_cons].
    destruct (after_fill_ok l o n Ho Hn) as (Hok & Hlen & Hopen).
    rewrite !open_qty_app, !open_qty_cons in *.
    split; simpl; [done|rewrite !length_app in *; simpl in *; lia|by repeat apply Forall_app_2| |];
      rewrite !open_qty_app, Hopen; (destruct (po_reduce_only o) eqn:Ero;
        [pose proof (room l a o b HF Hm ltac:(lia) Hc Ero Buy); pose proof (room l a o b HF Hm ltac:(lia) Hc Ero Sell);
         rewrite !open_qty_app, !open_qty_cons in *; unfold reduces in Hr; specialize (Hr eq_refl)|]);
      destruct (po_side o); repeat case_decide; simpl in *; try done; lia.
  - assert (HF' := HF). apply Forall_app in HF' as [Ha [Ho Hb]%Forall_cons].
    rewrite !open_qty_app, !open_qty_cons in *. pose proof (opening_bound l Buy o Ho Hm).
    pose proof (opening_bound l Sell o Ho Hm). rewrite !length_app in *. simpl in *.
    split; simpl; [done|rewrite length_app; lia|by apply Forall_app_2|rewrite open_qty_app; lia..].
Qed.

(** C28. However the permitted orders fill: on an account that starts within
    its position limit and reports its position and its working orders truly,
    the position never leaves the limit by more than the other orders that may
    be working, each at the largest size, and neither would it if every
    working order filled at once. *)
Theorem exposure_bounded l (p : QtyLots) x
    (Hl : limits_ok l) (Hp : Z.abs p ≤ max_position_qty l)
    (Hx : rtc exposure_step (mkExposure (RiskGate.new l) p []) x) :
  ex_position x + open_qty Buy (ex_working x) ≤ position_bound l ∧
  - position_bound l ≤ ex_position x - open_qty Sell (ex_working x) ∧
  Z.abs (ex_position x) ≤ position_bound l.
Proof.
  assert (exposed l x) as [_ _ HF Hlo Hsh].
  { refine (rtc_ind_r (exposed l) _ _ _ x Hx); [|by intros; eapply step_exposed].
    destruct Hl as (? & ? & ? & _). split; simpl; try done; unfold position_bound, open_qty; simpl; nia. }
  destruct Hl as (Hm & _). pose proof (open_qty_bound l Buy _ HF Hm). pose proof (open_qty_bound l Sell _ HF Hm). lia.
Qed.

(** The gate counts the position, not the orders already working towards it:
    two orders, each within a position limit of 10, make a position of 20. *)
Definition two_orders : Limits := mkLimits 10 10 1000000000000000 1000000000 2 10 1000000000.
Definition ten : ProposedOrder := mkProposed Buy (Some 100) 10 false.
Lemma position_limit_is_passed :
  ∃ x, rtc exposure_step (mkExposure (RiskGate.new two_orders) 0 []) x ∧
    ex_position x = 20 ∧ max_position_qty two_orders = 10 ∧ position_bound two_orders = 20.
Proof.
  assert (∀ g p ws now v g', RiskGate.check g ten (mkAccountState p 100 (Z.of_nat (length ws))) (linear 0 0) now = Ret (v, g') →
    exposure_step (mkExposure g p ws) (mkExposure g' p (ws ++ match v with Permitted x => [pm_order x] | Refuse _ => [] end)))
    as Hstep by (intros; by eapply xs_check).
  eexists. split; [|split; [|done]].
  - eapply rtc_l; [eapply (Hstep _ _ _ 0); vm_compute; reflexivity|].
    eapply rtc_l; [eapply (Hstep _ _ _ 1); vm_compute; reflexivity|].
    eapply rtc_l; [apply (xs_fill _ _ [] ten _ 10); [done|done]|].
    eapply rtc_l; [apply (xs_fill _ _ [] ten _ 10); [done|done]|]. apply rtc_refl.
  - done.
Qed.

Lemma permit_means_every_limit_witness :
  ∃ v g', RiskGate.check (RiskGate.new two_orders) ten (mkAccountState 0 100 0) (linear 0 0) 5 = Ret (v, g') ∧
    is_permitted v = true.
Proof.
  destruct (permit_means_every_limit (RiskGate.new two_orders) ten (mkAccountState 0 100 0) (linear 0 0) 5)
    as (v & g' & E & H & _); [intros _; vm_compute; split; discriminate|].
  exists v, g'. split; [exact E|]. apply H. vm_compute in E. injection E as <- <-. apply H. reflexivity.
Defined.

Lemma two_orders_ok : limits_ok two_orders.
Proof. unfold limits_ok, two_orders; simpl. mlia. Qed.

Definition demo_asks : list Ask :=
  [AskCheck ten (mkAccountState 0 100 0) (linear 0 0) 5; AskTrip;
   AskCheck ten (mkAccountState 0 100 0) (linear 0 0) 6; AskClear;
   AskCheck ten (mkAccountState 0 100 0) (linear 0 0) 7].
Lemma rate_holds_in_every_window_witness :
  ∃ ps g', asks (RiskGate.new two_orders) demo_asks = Ret (ps, g') ∧ length ps = 2%nat ∧
    Z.of_nat (length (filter (in_window (rate_window two_orders) 7) ps)) ≤ max_rate two_orders.
Proof.
  assert (∃ ps g', asks (RiskGate.new two_orders) demo_asks = Ret (ps, g') ∧ length ps = 2%nat) as (ps & g' & E & Hn)
    by (eexists _, _; split; [vm_compute; reflexivity|reflexivity]).
  exists ps, g'. split; [exact E|]. split; [exact Hn|].
  refine (rate_holds_in_every_window two_orders 0 demo_asks ps g' 7 two_orders_ok _ E). simpl. lia.
Defined.

Lemma exposure_bounded_witness :
  ∃ x, rtc exposure_step (mkExposure (RiskGate.new two_orders) 0 []) x ∧ ex_position x = 20 ∧
    Z.abs (ex_position x) ≤ position_bound two_orders.
Proof.
  destruct position_limit_is_passed as (x & Hx & Ep & _). exists x. split; [exact Hx|]. split; [exact Ep|].
  apply (exposure_bounded two_orders 0 x two_orders_ok); [simpl; lia|exact Hx].
Defined.
