(* ===== verification/Dedup.v ===== *)
(** Remembering which trades were booked ([oq-live/src/dedup.rs]): a bounded
    window that answers as one that never forgets. *)

From stdpp Require Import gmap.
From S2P Require Import Prelude.
#[local] Open Scope Z_scope.

Definition WINDOW : Z := 50000000.
Definition MIN_PRUNE_AT : Z := 4096.

Inductive Seen := SNew | SDuplicate | SStale.
#[export] Instance Seen_eq_dec : EqDecision Seen.
Proof. solve_decision. Defined.

Record TradeWindow (D : Type) `{Countable D} := mkWindow {
  seen : gset (Z * D);
  highest : Z;
  width : Z;
  prune_at : Z;
}.
Arguments mkWindow {D _ _}.
Arguments seen {D _ _}.
Arguments highest {D _ _}.
Arguments width {D _ _}.
Arguments prune_at {D _ _}.

Module TradeWindow.
Section window.
Context {D : Type} `{HD : Countable D}.
Implicit Types (w : TradeWindow D) (d : D).

Definition with_width (n : Z) : TradeWindow D := mkWindow ∅ 0 n MIN_PRUNE_AT.
Definition default : TradeWindow D := with_width WINDOW.

(** [saturating_sub] on [u64]. *)
Definition floor w : Z := satu64 (highest w - width w).

Definition contains w (trade : Z) d : bool := (trade <? floor w) || bool_decide ((trade, d) ∈ seen w).

Definition insert w (trade : Z) d : Seen * TradeWindow D :=
  if trade <? floor w then (SStale, w)
  else if bool_decide ((trade, d) ∈ seen w) then (SDuplicate, w)
  else
    let w := mkWindow ({[(trade, d)]} ∪ seen w) (Z.max (highest w) trade) (width w) (prune_at w) in
    if prune_at w <? Z.of_nat (size (seen w)) then
      let kept := filter (λ e, floor w ≤ e.1) (seen w) in
      (SNew, mkWindow kept (highest w) (width w) (Z.max (Z.of_nat (size kept) * 2) MIN_PRUNE_AT))
    else (SNew, w).

Fixpoint inserts w (es : list (Z * D)) : list Seen * TradeWindow D :=
  match es with
  | [] => ([], w)
  | e :: es => let '(a, w) := insert w e.1 e.2 in let '(l, w) := inserts w es in (a :: l, w)
  end.
End window.
End TradeWindow.

(** * The specification: nothing is ever forgotten *)

Section spec.
Context {D : Type} `{HD : Countable D}.
Implicit Types (w : TradeWindow D) (d : D) (B : gset (Z * D)).

Definition floor_of (n top : Z) : Z := satu64 (top - n).

(** Everything booked so far, and the highest trade. *)
Definition judge (n : Z) (B : gset (Z * D)) (top : Z) (e : Z * D) : Seen :=
  if e.1 <? floor_of n top then SStale else if bool_decide (e ∈ B) then SDuplicate else SNew.
Definition book (a : Seen) B (top : Z) (e : Z * D) : gset (Z * D) * Z :=
  match a with SNew => ({[e]} ∪ B, Z.max top e.1) | _ => (B, top) end.

Fixpoint judges (n : Z) B (top : Z) (es : list (Z * D)) : list Seen * (gset (Z * D) * Z) :=
  match es with
  | [] => ([], (B, top))
  | e :: es =>
      let a := judge n B top e in
      let '(B, top) := book a B top e in
      let '(l, r) := judges n B top es in (a :: l, r)
  end.

(** The window is the specification above its floor. *)
Record tracks w B (top : Z) : Prop := {
  tr_highest : highest w = top;
  tr_top : 0 ≤ top;
  tr_seen : ∀ e, e ∈ seen w → e ∈ B;
  tr_kept : ∀ e, e ∈ B → TradeWindow.floor w ≤ e.1 → e ∈ seen w;
  tr_below : ∀ e, e ∈ B → e.1 ≤ top;
}.

Lemma insert_tracks w B top e a w' : tracks w B top → 0 ≤ width w → u64 e.1 →
  TradeWindow.insert w e.1 e.2 = (a, w') →
  a = judge (width w) B top e ∧ width w' = width w ∧ tracks w' (book a B top e).1 (book a B top e).2.
Proof.
  intros [Hh Ht Hs Hk Hb] Hw He H. destruct e as [t d]; simpl in *. unfold TradeWindow.insert in H.
  unfold judge, floor_of; simpl. assert (TradeWindow.floor w = satu64 (top - width w)) as Hf by (unfold TradeWindow.floor; by rewrite Hh).
  rewrite <-Hf. destruct (Z.ltb_spec t (TradeWindow.floor w)); [injection H as <- <-; split_and!; try done; by split|].
  assert ((t, d) ∈ seen w ↔ (t, d) ∈ B) as Hin by (split; [apply Hs|intros; by apply Hk]).
  rewrite <-(bool_decide_ext _ _ Hin). case_bool_decide as Hd; [injection H as <- <-; split_and!; try done; by split|].
  set (w1 := mkWindow ({[(t, d)]} ∪ seen w) (Z.max (highest w) t) (width w) (prune_at w)) in *.
  assert (tracks w1 ({[(t, d)]} ∪ B) (Z.max top t)) as H1.
  { split; simpl; [by rewrite Hh|unfold u64 in He; lia|set_solver| |].
    - intros e [->%elem_of_singleton|HB]%elem_of_union Hfl; [set_solver|]. apply elem_of_union_r, Hk; [done|].
      unfold TradeWindow.floor in *; simpl in *. mlia.
    - intros e [->%elem_of_singleton|HB]%elem_of_union; simpl; [lia|]. specialize (Hb e HB). lia. }
  destruct (prune_at w1 <? _); injection H as <- <-; split_and!; try done. simpl.
  destruct H1 as [G1 G2 G3 G4 G5]. split; simpl; try done.
  - intros e [_ He']%elem_of_filter. by apply G3.
  - intros e HB Hfl. apply elem_of_filter. split; [exact Hfl|]. by apply G4.
Qed.
End spec.

Section memory.
Context {D : Type} `{HD : Countable D}.
Implicit Types (w : TradeWindow D) (d : D) (B : gset (Z * D)).

Lemma inserts_track w B top es l w' : tracks w B top → 0 ≤ width w → Forall (λ e, u64 e.1) es →
  TradeWindow.inserts w es = (l, w') →
  ∃ B' top', judges (width w) B top es = (l, (B', top')) ∧ width w' = width w ∧ tracks w' B' top'.
Proof.
  intros Ht Hw HF. revert w B top l Ht Hw. induction HF as [|e es He _ IH]; intros w B top l Ht Hw E; simpl in E.
  { injection E as <- <-. by exists B, top. }
  destruct (TradeWindow.insert w e.1 e.2) as [a w1] eqn:E1. destruct (TradeWindow.inserts w1 es) as [l1 w2] eqn:E2.
  injection E as <- <-. destruct (insert_tracks _ _ _ _ _ _ Ht Hw He E1) as (-> & Ew & Ht1).
  destruct (IH w1 _ _ _ Ht1 ltac:(lia) E2) as (B' & top' & Ej & Ew' & Ht'). exists B', top'.
  cbn [judges]. rewrite (surjective_pairing (book _ B top e)). rewrite Ew in Ej. rewrite Ej. split_and!; try done. congruence.
Qed.

(** What the window holds at once. *)
Definition all_of (ds : list D) (a n : Z) : gset (Z * D) := list_to_set (list_prod (seqZ a n) ds).

Lemma all_of_size ds a n : 0 ≤ n → Z.of_nat (size (all_of ds a n)) ≤ n * Z.of_nat (length ds).
Proof.
  intros Hn. unfold all_of, size, set_size.
  assert (elements (list_to_set (C := gset (Z * D)) (list_prod (seqZ a n) ds)) ⊆+ list_prod (seqZ a n) ds) as Hs.
  { apply NoDup_submseteq; [apply NoDup_elements|]. intros x. by rewrite elem_of_elements, elem_of_list_to_set. }
  apply submseteq_length in Hs. rewrite length_prod, length_seqZ in Hs. simpl. lia.
Qed.

Record bounded (ds : list D) w : Prop := {
  bd_size : Z.of_nat (size (seen w)) ≤ prune_at w;
  bd_prune : prune_at w ≤ Z.max MIN_PRUNE_AT (2 * ((width w + 1) * Z.of_nat (length ds)));
  bd_below : ∀ e, e ∈ seen w → e.1 ≤ highest w;
}.

Lemma insert_bounded ds w t d a w' : (∀ d, d ∈ ds) → 0 ≤ width w → u64 (highest w) → u64 t → bounded ds w →
  TradeWindow.insert w t d = (a, w') → bounded ds w' ∧ width w' = width w ∧ u64 (highest w').
Proof.
  intros Hds Hw Hh Ht [Hs Hp Hb] E. unfold TradeWindow.insert in E.
  destruct (t <? _); [by injection E as <- <-|]. case_bool_decide as Hd; [by injection E as <- <-|].
  set (w1 := mkWindow ({[(t, d)]} ∪ seen w) (Z.max (highest w) t) (width w) (prune_at w)) in *.
  assert (∀ e, e ∈ seen w1 → e.1 ≤ highest w1) as Hb1.
  { intros e; simpl; intros [->%elem_of_singleton|He]%elem_of_union; simpl; [lia|]. specialize (Hb e He). lia. }
  destruct (Z.ltb_spec (prune_at w1) (Z.of_nat (size (seen w1)))) as [Hlt|Hge]; injection E as <- <-;
    (split; [|simpl; split; [done|mlia]]); [|by split].
  change (seen w1) with ({[(t, d)]} ∪ seen w).
  set (kept := filter (λ e, TradeWindow.floor w1 ≤ e.1) ({[(t, d)]} ∪ seen w)).
  assert (Z.of_nat (size kept) ≤ (width w + 1) * Z.of_nat (length ds)) as Hk.
  { etransitivity; [|apply (all_of_size ds (TradeWindow.floor w1)); lia]. apply inj_le, subseteq_size.
    intros [t' d'] [Hf He]%elem_of_filter. unfold all_of. apply elem_of_list_to_set, list_elem_of_In, in_prod.
    - apply list_elem_of_In, elem_of_seqZ. simpl in Hf. specialize (Hb1 _ He). simpl in Hb1.
      unfold TradeWindow.floor in *; simpl in *. mlia.
    - apply list_elem_of_In, Hds. }
  change (prune_at w1) with (prune_at w) in *. split; cbn [seen highest width prune_at]; fold kept; [lia|lia|].
  intros e [_ He]%elem_of_filter. by apply Hb1.
Qed.

Lemma inserts_bounded ds w es l w' : (∀ d, d ∈ ds) → Forall (λ e, u64 e.1) es → 0 ≤ width w → u64 (highest w) → bounded ds w →
  TradeWindow.inserts w es = (l, w') → bounded ds w' ∧ width w' = width w.
Proof.
  intros Hds HF. revert w l. induction HF as [|e es He _ IH]; intros w l Hw Hh Hb E; simpl in E; [by injection E as <- <-|].
  destruct (TradeWindow.insert w e.1 e.2) as [a w1] eqn:E1. destruct (TradeWindow.inserts w1 es) as [l1 w2] eqn:E2.
  injection E as _ <-. destruct (insert_bounded _ _ _ _ _ _ Hds Hw Hh He Hb E1) as (Hb1 & Ew & Hh1).
  destruct (IH w1 _ ltac:(lia) Hh1 Hb1 E2) as [Hb2 Ew2]. split; [done|congruence].
Qed.

(** What was answered new, in order. *)
Definition news (l : list Seen) (es : list (Z * D)) : list (Z * D) :=
  (filter (λ p, p.1 = SNew) (zip l es)).*2.

Lemma judges_news n B top es l B' top' : judges n B top es = (l, (B', top')) →
  NoDup (news l es) ∧ (∀ e, e ∈ news l es → e ∉ B) ∧ (∀ e, e ∈ B' ↔ e ∈ B ∨ e ∈ news l es).
Proof.
  revert B top l. induction es as [|e es IH]; intros B top l H; cbn [judges] in H.
  { injection H as <- <- <-. unfold news. simpl. split; [constructor|]. split; [by intros e He%elem_of_nil|]. set_solver. }
  set (a := judge n B top e) in *. destruct (book a B top e) as [B1 top1] eqn:Eb.
  destruct (judges n B1 top1 es) as [l1 [B2 top2]] eqn:Ej. injection H as <- <- <-.
  destruct (IH _ _ _ Ej) as (Hd & Hf & Hall). unfold news. cbn [zip_with]. rewrite filter_cons. simpl.
  destruct a eqn:Ea; simpl in Eb; injection Eb as <- <-; case_decide as Hc; try done.
  cbn [fmap list_fmap snd]. fold (news l1 es). assert (e ∉ B) as HeB.
  { unfold a, judge in Ea. destruct (_ <? _); [done|]. by case_bool_decide. }
  split; [constructor; [intros Hin; specialize (Hf _ Hin); set_solver|done]|]. split.
  - intros x [->|Hx]%elem_of_cons; [done|]. specialize (Hf _ Hx). set_solver.
  - intros x. rewrite Hall, elem_of_cons. set_solver.
Qed.
End memory.

Lemma fresh_tracks {D} `{Countable D} n : tracks (TradeWindow.with_width (D := D) n) ∅ 0.
Proof. split; simpl; [done|done|set_solver..]. Qed.

(** A bounded window that never books a trade twice.  However trades and
    their copies arrive, in any order: the window answers every one as a set
    that never forgot anything would, below the same floor; so no trade is
    answered new twice, and every trade answered new is remembered as booked
    for ever; and the window never holds more than twice what fits in its
    width, or the size under which it is not pruned. *)
Theorem window_forgets_nothing {D} `{Countable D} (ds : list D) (n : Z) (es : list (Z * D)) l w
    (Hds : ∀ d, d ∈ ds) (Hn : 0 ≤ n) (He : Forall (λ e, u64 e.1) es)
    (E : TradeWindow.inserts (TradeWindow.with_width n) es = (l, w)) :
  l = (judges n ∅ 0 es).1 ∧ NoDup (news l es) ∧
  (∀ e, e ∈ news l es → TradeWindow.contains w e.1 e.2 = true) ∧
  (∀ t d, u64 t → TradeWindow.contains w t d = true →
     (TradeWindow.insert w t d).1 = SDuplicate ∨ (TradeWindow.insert w t d).1 = SStale) ∧
  Z.of_nat (size (seen w)) ≤ Z.max MIN_PRUNE_AT (2 * ((n + 1) * Z.of_nat (length ds))).
Proof.
  destruct (inserts_track _ ∅ 0 es l w (fresh_tracks n) Hn He E) as (B & top & Ej & Ew & Ht). simpl in *.
  destruct (judges_news _ _ _ _ _ _ _ Ej) as (Hd & _ & Hall). rewrite Ej. split; [done|]. split; [done|]. split; [|split].
  - intros e He'. unfold TradeWindow.contains. destruct (Z.ltb_spec e.1 (TradeWindow.floor w)); [done|]. simpl.
    rewrite bool_decide_true; [done|]. destruct e as [t d]. apply (tr_kept _ _ _ Ht); [|done]. apply Hall. by right.
  - intros t d _ Hc. unfold TradeWindow.contains in Hc. unfold TradeWindow.insert.
    destruct (t <? _); [by right|]. simpl in Hc. rewrite Hc. by left.
  - destruct (inserts_bounded ds (TradeWindow.with_width n) es l w Hds He Hn ltac:(simpl; mlia)) as [[Hs Hp _] Ew']; [|done|].
    + split; [change (seen _) with (∅ : gset (Z * D)); rewrite size_empty; by unfold MIN_PRUNE_AT; simpl|simpl; unfold MIN_PRUNE_AT; lia|].
      intros e He'. by apply elem_of_empty in He'.
    + rewrite Ew' in Hp. simpl in Hp. lia.
Qed.

Lemma window_forgets_nothing_witness :
  let es := [(7, true); (7, false); (9, true); (7, true); (3, true); (20, false); (9, true)] in
  (TradeWindow.inserts (TradeWindow.with_width 10) es).1 =
    [SNew; SNew; SNew; SDuplicate; SNew; SNew; SStale] ∧
  NoDup (news (TradeWindow.inserts (TradeWindow.with_width 10) es).1 es).
Proof.
  split; [vm_compute; reflexivity|].
  apply (window_forgets_nothing [true; false] 10 _ _ (TradeWindow.inserts (TradeWindow.with_width 10)
    [(7, true); (7, false); (9, true); (7, true); (3, true); (20, false); (9, true)]).2).
  - intros []; [by left|by right; left].
  - lia.
  - repeat constructor; simpl; mlia.
  - vm_compute. reflexivity.
Defined.
