(* ===== verification/Books.v ===== *)
(** The account books of a live session ([oq-live/src/books.rs]): the kernel's
    own accounting, fed by the venue's reports, each trade once. *)

From stdpp Require Import gmap strings.
From S2P Require Import Prelude Slices SortedVec Types Order Currency Margin Liquidation Funding.
From S2P Require Import Tick Strategy RestingBook L0 Depth Matcher Cost Event Kernel Dedup.
#[local] Open Scope Z_scope.

#[export] Instance Side_countable : Countable Side.
Proof.
  refine (inj_countable' (λ s, match s with Buy => true | Sell => false end) (λ b : bool, if b then Buy else Sell) _).
  by intros [].
Defined.

Record Mismatch := mkMismatch { ours : QtyLots; theirs : QtyLots; mm_at : Nanos }.
Definition drift (m : Mismatch) : run QtyLots := chk64 (theirs m - ours m).

Inductive Booked := BApplied (outs : list Output) | BDuplicate | BUnidentifiable | BStale.

(** [record::venue_fee]: a venue that said nothing was not read. *)
Definition venue_fee (fee : Fee) : Fee := match fee with Unsaid => Unreadable | other => other end.

Record Books (M : Type) := mkBooks {
  bk_kernel : Kernel M;
  bk_instrument : InstrumentId;
  bk_seen : TradeWindow Side;
  bk_booked : Z;
  unpriced_fills : list Fill;
  recovered_fees : list (Fill * Cash);
}.
Arguments mkBooks {M}.
Arguments bk_kernel {M}.
Arguments bk_instrument {M}.
Arguments bk_seen {M}.
Arguments bk_booked {M}.
Arguments unpriced_fills {M}.
Arguments recovered_fees {M}.

Definition too_early : string := "fee recovery precedes execution receipt".
Definition conflicting : string := "fee recovery conflicts with already booked evidence".
Definition not_pending : string := "fee recovery has no exact pending unknown-fee execution".

Module Books.
Section books.
Context {M : Type} `{!MatcherOps M}.
Implicit Types b : Books M.

(** The venue matches and the venue liquidates. *)
Definition opening (i : InstrumentId) (c : Contract) (t : TierTable) (starting : Cash) (mode : PositionMode) : State M :=
  State.with_mode (State.with_matching (State.without_liquidation (State.new i c t starting)) Venue) mode.
Definition new (i : InstrumentId) (c : Contract) (t : TierTable) (starting : Cash) (mode : PositionMode) : Books M :=
  mkBooks (Kernel.new (opening i c t starting mode)) i TradeWindow.default 0 [] [].

Definition set_kernel b (k : Kernel M) : Books M :=
  mkBooks k (bk_instrument b) (bk_seen b) (bk_booked b) (unpriced_fills b) (recovered_fees b).

(** The fill that installs a position the venue already held. *)
Definition adoption b (side : Side) (qty : QtyLots) (entry : PriceTicks) (at_ : Nanos) : Fill :=
  mkFill (mkStamp at_ at_) (bk_instrument b) 0 0 side Open entry qty Taker.
Definition adopt b (side : Side) (qty : QtyLots) (entry : PriceTicks) (at_ : Nanos) : run (Books M) :=
  if qty <=? 0 then mret b
  else k ← Kernel.apply (bk_kernel b) (EVenueFill (adoption b side qty entry at_) Unreadable); mret (set_kernel b k).

Definition on_tick b (t : Tick) : run (list Output * Books M) :=
  k ← Kernel.apply (bk_kernel b) (ETick None t); mret (outputs k, set_kernel b k).

Definition on_submit b (id : OrderId) (side : Side) (qty : QtyLots) (offset : Offset) (at_ : Nanos) : run (Books M) :=
  k ← Kernel.apply (bk_kernel b) (ESubmit None id side None qty offset (mkStamp at_ at_)); mret (set_kernel b k).

Definition on_venue_fill b (f : Fill) (fee : Fee) : run (Booked * Books M) :=
  if f_trade f =? 0 then mret (BUnidentifiable, b)
  else
    let '(seen, w) := TradeWindow.insert (bk_seen b) (f_trade f) (f_side f) in
    match seen with
    | SDuplicate => mret (BDuplicate, mkBooks (bk_kernel b) (bk_instrument b) w (bk_booked b) (unpriced_fills b) (recovered_fees b))
    | SStale => mret (BStale, mkBooks (bk_kernel b) (bk_instrument b) w (bk_booked b) (unpriced_fills b) (recovered_fees b))
    | SNew =>
        n ← chku64 (bk_booked b + 1);
        let fee := venue_fee fee in
        let unpriced := if bool_decide (fee = Unreadable) then unpriced_fills b ++ [f] else unpriced_fills b in
        k ← Kernel.apply (bk_kernel b) (EVenueFill f fee);
        mret (BApplied (outputs k), mkBooks k (bk_instrument b) w n unpriced (recovered_fees b))
    end.

Definition recover_fee b (f : Fill) (amount : Cash) (at_ : Nanos) : run (result bool string * Books M) :=
  if at_ <? local (f_stamp f) then mret (Err too_early, b)
  else
    match find (λ r, bool_decide (r.1 = f)) (recovered_fees b) with
    | Some (_, prior) => mret (if prior =? amount then Ok false else Err conflicting, b)
    | None =>
        match position (λ o, bool_decide (o = f)) (unpriced_fills b) with
        | None => mret (Err not_pending, b)
        | Some i =>
            let pending := take i (unpriced_fills b) ++ drop (S i) (unpriced_fills b) in
            k ← Kernel.apply (bk_kernel b) (EFeeRecovered at_ amount (Z.of_nat (length pending)));
            mret (Ok true, mkBooks k (bk_instrument b) (bk_seen b) (bk_booked b) pending (recovered_fees b ++ [(f, amount)]))
        end
    end.

Definition on_funding_charged b (amount : Cash) (at_ : Nanos) : run (Books M) :=
  k ← Kernel.apply (bk_kernel b) (EFundingCharged None at_ amount); mret (set_kernel b k).

(** * Reading the books *)

Definition legs b : run (QtyLots * QtyLots) := s ← summary (bk_kernel b); mret (sm_qty s, sm_short_qty s).
Definition net_position b : run QtyLots := s ← summary (bk_kernel b); chk64 (sm_qty s + sm_short_qty s).
Definition close_exceeds_position b (f : Fill) : run bool :=
  if negb (bool_decide (mode (k_state (bk_kernel b)) = Hedge)) || negb (bool_decide (f_offset f = Close)) ||
     TradeWindow.contains (bk_seen b) (f_trade f) (f_side f)
  then mret false
  else
    '(long, short) ← legs b;
    available ← match f_side f with Sell => mret long | Buy => chk64 (- short) end;
    mret (available <? f_qty f).
Definition has_booked b (trade : Z) (side : Side) : bool := TradeWindow.contains (bk_seen b) trade side.
Definition context b (t : Tick) (working : nat) : run Context :=
  s ← summary (bk_kernel b);
  h ← State.holding (k_state (bk_kernel b));
  mret (mkContext (h_instrument h) t (sm_qty s) (sm_entry s) (sm_short_qty s) (sm_short_entry s) (sm_equity s) working).
Definition fees_known b : bool := State.fees_known (k_state (bk_kernel b)).
Definition realized_parts b : Cash * Cash * Cash :=
  let s := k_state (bk_kernel b) in (realized s, fees s, funding s).
Definition realized_net b : run Cash :=
  let s := k_state (bk_kernel b) in d ← chk64 (realized s - fees s); chk64 (d + funding s).
Definition equity b : run Cash := s ← summary (bk_kernel b); mret (sm_equity s).
Definition reconcile b (venue : QtyLots) (at_ : Nanos) : run (option Mismatch) :=
  q ← net_position b; mret (if q =? venue then None else Some (mkMismatch q venue at_)).
End books.
End Books.

(** * Every report of a session, in the order it came *)

Inductive Report :=
| RAdopt (side : Side) (qty : QtyLots) (entry : PriceTicks) (at_ : Nanos)
| RTick (t : Tick)
| RSubmit (id : OrderId) (side : Side) (qty : QtyLots) (offset : Offset) (at_ : Nanos)
| RFill (f : Fill) (fee : Fee)
| RRecover (f : Fill) (amount : Cash) (at_ : Nanos)
| RFunding (amount : Cash) (at_ : Nanos).

Section once.
Context {M : Type} `{!MatcherOps M}.
Implicit Types (b : Books M) (k : Kernel M) (f : Fill).

(** The books after a report, and the events it put to the kernel. *)
Definition report b (r : Report) : run (list Event * Books M) :=
  match r with
  | RAdopt side qty entry at_ =>
      b' ← Books.adopt b side qty entry at_;
      mret (if qty <=? 0 then [] else [EVenueFill (Books.adoption b side qty entry at_) Unreadable], b')
  | RTick t => '(_, b') ← Books.on_tick b t; mret ([ETick None t], b')
  | RSubmit id side qty offset at_ =>
      b' ← Books.on_submit b id side qty offset at_;
      mret ([ESubmit None id side None qty offset (mkStamp at_ at_)], b')
  | RFill f fee =>
      '(a, b') ← Books.on_venue_fill b f fee;
      mret (match a with BApplied _ => [EVenueFill f (venue_fee fee)] | _ => [] end, b')
  | RRecover f amount at_ =>
      '(a, b') ← Books.recover_fee b f amount at_;
      mret (match a with
            | Ok true => [EFeeRecovered at_ amount (Z.of_nat (length (unpriced_fills b')))]
            | _ => []
            end, b')
  | RFunding amount at_ => b' ← Books.on_funding_charged b amount at_; mret ([EFundingCharged None at_ amount], b')
  end.
Fixpoint reports b (rs : list Report) : run (list Event * Books M) :=
  match rs with
  | [] => mret ([], b)
  | r :: rs => '(es, b) ← report b r; '(es', b) ← reports b rs; mret (es ++ es', b)
  end.

(** The trades a list of events books, and those whose fee was not read. *)
Definition trades_of (e : Event) : list (Z * Side) :=
  match e with EVenueFill f _ => if f_trade f =? 0 then [] else [(f_trade f, f_side f)] | _ => [] end.
Definition trades (es : list Event) : list (Z * Side) := es ≫= trades_of.
Definition unread_of (e : Event) : list Fill :=
  match e with
  | EVenueFill f fee => if (f_trade f =? 0) || negb (bool_decide (fee = Unreadable)) then [] else [f]
  | _ => []
  end.
Definition unread (es : list Event) : list Fill := es ≫= unread_of.

Record booked_once k0 (es : list Event) b : Prop := {
  bo_run : ∃ os, Kernel.run_events k0 es = Ret (bk_kernel b, os);
  bo_window : ∃ B top, tracks (bk_seen b) B top ∧ ∀ e, e ∈ B ↔ e ∈ trades es;
  bo_width : width (bk_seen b) = WINDOW;
  bo_once : NoDup (trades es);
  bo_count : bk_booked b = Z.of_nat (length (trades es));
  bo_fees : Permutation (unpriced_fills b ++ (recovered_fees b).*1) (unread es);
}.

Lemma run_events_snoc k es k1 os e k2 : Kernel.run_events k es = Ret (k1, os) → Kernel.apply k1 e = Ret k2 →
  ∃ os', Kernel.run_events k (es ++ [e]) = Ret (k2, os').
Proof.
  revert k os. induction es as [|x es IH]; intros k os H1 H2; simpl in *.
  - injection H1 as -> _. rewrite H2. eexists. reflexivity.
  - apply bind_ret in H1 as (k' & -> & H1). apply bind_ret in H1 as ([k3 os3] & H1 & [= -> <-]).
    cbn [mbind run_bind]. destruct (IH _ _ H1 H2) as [os' ->]. eexists. reflexivity.
Qed.

(** An event that books no trade. *)
Lemma other_event k0 es b k e : booked_once k0 es b → Kernel.apply (bk_kernel b) e = Ret k →
  trades_of e = [] → unread_of e = [] → booked_once k0 (es ++ [e]) (Books.set_kernel b k).
Proof.
  intros [[os Hr] Hw Hwd Ho Hc Hf] Hk Ht Hu. unfold trades, unread in *.
  assert ((es ++ [e]) ≫= trades_of = es ≫= trades_of) as Et by (rewrite bind_app; simpl; rewrite Ht; by rewrite !app_nil_r).
  assert ((es ++ [e]) ≫= unread_of = es ≫= unread_of) as Eu by (rewrite bind_app; simpl; rewrite Hu; by rewrite !app_nil_r).
  split; unfold trades, unread; rewrite ?Et, ?Eu; try done. by eapply run_events_snoc.
Qed.

Lemma fill_booked k0 es b f fee a b' : booked_once k0 es b → u64 (f_trade f) →
  Books.on_venue_fill b f fee = Ret (a, b') →
  booked_once k0 (es ++ match a with BApplied _ => [EVenueFill f (venue_fee fee)] | _ => [] end) b'.
Proof.
  intros Hb Hu H. pose proof Hb as [[os Hr] (B & top & Ht & HB) Hwd Ho Hc Hf]. unfold Books.on_venue_fill in H.
  destruct (Z.eqb_spec (f_trade f) 0) as [|Hz]; [injection H as <- <-; by rewrite app_nil_r|].
  destruct (TradeWindow.insert (bk_seen b) (f_trade f) (f_side f)) as [a1 w] eqn:Ei.
  destruct (insert_tracks (bk_seen b) B top (f_trade f, f_side f) a1 w Ht ltac:(rewrite Hwd; done) Hu Ei) as (Ea & Ew & Ht').
  destruct a1 eqn:Ea1.
  - apply bind_ret in H as (n & Hn & H). apply chk_inv in Hn as [-> _]. apply bind_ret in H as (k & Hk & [= <- <-]).
    assert ((f_trade f, f_side f) ∉ B) as Hnew.
    { symmetry in Ea. unfold judge in Ea. simpl in Ea. destruct (_ <? _); [done|]. by case_bool_decide. }
    assert (trades (es ++ [EVenueFill f (venue_fee fee)]) = trades es ++ [(f_trade f, f_side f)]) as Et.
    { unfold trades. rewrite bind_app. simpl. destruct (Z.eqb_spec (f_trade f) 0); done. }
    split; simpl; rewrite ?Et.
    + by eapply run_events_snoc.
    + exists ({[(f_trade f, f_side f)]} ∪ B), (Z.max top (f_trade f)). split; [exact Ht'|].
      intros e. rewrite elem_of_union, elem_of_singleton, elem_of_app, list_elem_of_singleton, HB. tauto.
    + congruence.
    + apply NoDup_app. split; [done|]. split; [|apply NoDup_singleton]. intros e He ->%list_elem_of_singleton. apply Hnew. by apply HB.
    + rewrite length_app. simpl. lia.
    + assert (unread (es ++ [EVenueFill f (venue_fee fee)]) =
        unread es ++ (if bool_decide (venue_fee fee = Unreadable) then [f] else [])) as Eu.
      { unfold unread. rewrite bind_app. simpl. destruct (Z.eqb_spec (f_trade f) 0); [done|]. simpl.
        by case_bool_decide. }
      rewrite Eu. case_bool_decide; [|by rewrite app_nil_r]. rewrite <-(assoc_L (++)), (comm (++) [f]), (assoc_L (++)). by rewrite Hf.
  - injection H as <- <-. rewrite app_nil_r. split; simpl; try done; [by exists os|by exists B, top|congruence].
  - injection H as <- <-. rewrite app_nil_r. split; simpl; try done; [by exists os|by exists B, top|congruence].
Qed.

Lemma recover_booked k0 es b f amount at_ a b' : booked_once k0 es b →
  Books.recover_fee b f amount at_ = Ret (a, b') →
  booked_once k0 (es ++ match a with
    | Ok true => [EFeeRecovered at_ amount (Z.of_nat (length (unpriced_fills b')))] | _ => [] end) b'.
Proof.
  intros Hb H. unfold Books.recover_fee in H. destruct (_ <? _); [injection H as <- <-; by rewrite app_nil_r|].
  destruct (find _ _) as [[f' prior]|].
  { injection H as <- <-. destruct (prior =? amount); by rewrite app_nil_r. }
  destruct (position _ _) as [i|] eqn:Ep; [|injection H as <- <-; by rewrite app_nil_r].
  apply bind_ret in H as (k & Hk & [= <- <-]). cbn [unpriced_fills].
  destruct (position_Some _ _ _ Ep) as (x & Hx & Exf & _). apply bool_decide_eq_true in Exf as ->.
  pose proof (other_event k0 es b k _ Hb Hk eq_refl eq_refl) as [Hr Hw Hwd Ho Hc Hf].
  assert (Permutation (unpriced_fills b) (f :: take i (unpriced_fills b) ++ drop (S i) (unpriced_fills b))) as Hp.
  { rewrite <-(take_drop_middle _ _ _ Hx) at 1. by rewrite Permutation_middle. }
  split; try done. simpl in *. rewrite fmap_app. simpl. rewrite <-Hf. set (rest := take i _ ++ drop _ _) in *.
  transitivity ((f :: rest) ++ (recovered_fees b).*1); [|by apply Permutation_app_tail].
  by rewrite (assoc (++)), (comm (++) _ [f]).
Qed.

Lemma report_booked k0 es b r es' b' : booked_once k0 es b →
  match r with RFill f _ => u64 (f_trade f) | _ => True end →
  report b r = Ret (es', b') → booked_once k0 (es ++ es') b'.
Proof.
  intros Hb Hu H. destruct r as [side qty entry at_|t|id side qty offset at_|f fee|f amount at_|amount at_]; simpl in H.
  - apply bind_ret in H as (b1 & H1 & [= <- <-]). unfold Books.adopt in H1.
    destruct (qty <=? 0); [injection H1 as <-; by rewrite app_nil_r|]. apply bind_ret in H1 as (k & Hk & [= <-]).
    by apply other_event.
  - apply bind_ret in H as ([o b1] & H1 & [= <- <-]). apply bind_ret in H1 as (k & Hk & [= _ <-]). by apply other_event.
  - apply bind_ret in H as (b1 & H1 & [= <- <-]). apply bind_ret in H1 as (k & Hk & [= <-]). by apply other_event.
  - apply bind_ret in H as ([a b1] & H1 & [= <- <-]). by eapply fill_booked.
  - apply bind_ret in H as ([a b1] & H1 & [= <- <-]). by eapply recover_booked.
  - injection H as <- <-. by apply other_event.
Qed.

Definition fill_trade (r : Report) : Prop := match r with RFill f _ => u64 (f_trade f) | _ => True end.

Lemma reports_booked k0 es b rs es' b' : booked_once k0 es b → Forall fill_trade rs →
  reports b rs = Ret (es', b') → booked_once k0 (es ++ es') b'.
Proof.
  intros Hb HF. revert es b es' Hb. induction HF as [|r rs Hr _ IH]; intros es b es' Hb H; simpl in H.
  { injection H as <- <-. by rewrite app_nil_r. }
  apply bind_ret in H as ([e1 b1] & H1 & H). apply bind_ret in H as ([e2 b2] & H2 & [= <- <-]).
  rewrite (assoc_L (++)). eapply IH; [|exact H2]. by eapply report_booked.
Qed.

Lemma new_booked i c t starting mode : booked_once (Kernel.new (Books.opening i c t starting mode)) [] (Books.new i c t starting mode).
Proof.
  split; simpl; try done; [by eexists| |constructor]. exists ∅, 0. split; [apply fresh_tracks|].
  intros e. unfold trades. simpl. set_solver.
Qed.

(** A trade the books have, delivered again, leaves them as they are. *)
Lemma redelivered k0 es b f fee : booked_once k0 es b → u64 (f_trade f) → f_trade f ≠ 0 →
  (f_trade f, f_side f) ∈ trades es →
  Books.on_venue_fill b f fee = Ret (BDuplicate, b) ∨ Books.on_venue_fill b f fee = Ret (BStale, b).
Proof.
  intros [_ (B & top & Ht & HB) Hwd _ _ _] Hu Hz Hin. apply HB in Hin. unfold Books.on_venue_fill.
  rewrite (proj2 (Z.eqb_neq _ _)) by done. unfold TradeWindow.insert.
  destruct (Z.ltb_spec (f_trade f) (TradeWindow.floor (bk_seen b))); [right; by destruct b|].
  rewrite bool_decide_true by by apply (tr_kept _ _ _ Ht). left. by destruct b.
Qed.
End once.

(** C25. Each trade is booked once.  Whatever a venue reports of a session, with
    trades delivered twice, late or out of order: the kernel behind the books
    is the run of the events the books put to it, among which no trade of a
    side appears twice; a report of a trade already booked changes nothing; the
    counter is the number of trades booked; and the fills waiting for their
    commission, with those whose commission was recovered, are exactly the
    booked fills that came without one. *)
Theorem each_trade_is_booked_once {M} `{!MatcherOps M} i c t starting mode (rs : list Report) es (b : Books M)
    (Hrs : Forall fill_trade rs)
    (H : reports (Books.new i c t starting mode) rs = Ret (es, b)) :
  (∃ os, Kernel.run_events (Kernel.new (Books.opening i c t starting mode)) es = Ret (bk_kernel b, os)) ∧
  NoDup (trades es) ∧
  (∀ f fee, u64 (f_trade f) → f_trade f ≠ 0 → (f_trade f, f_side f) ∈ trades es →
     Books.on_venue_fill b f fee = Ret (BDuplicate, b) ∨ Books.on_venue_fill b f fee = Ret (BStale, b)) ∧
  bk_booked b = Z.of_nat (length (trades es)) ∧
  Permutation (unpriced_fills b ++ (recovered_fees b).*1) (unread es).
Proof.
  pose proof (reports_booked _ [] _ _ _ _ (new_booked i c t starting mode) Hrs H) as Hb. simpl in Hb.
  split; [exact (bo_run _ _ _ Hb)|]. split; [exact (bo_once _ _ _ Hb)|]. split; [|split; [exact (bo_count _ _ _ Hb)|exact (bo_fees _ _ _ Hb)]].
  intros f fee. by apply (redelivered _ es b f fee Hb).
Qed.

Module DemoBooks.
Definition fill (trade : Z) (side : Side) (qty : QtyLots) : Fill :=
  mkFill (mkStamp 5 5) 7 1 trade side Open 100 qty Taker.
Definition stream : list Report :=
  [RAdopt Buy 3 90 1; RFill (fill 11 Buy 2) (Reported 40); RFill (fill 12 Buy 1) Unsaid; RFill (fill 11 Buy 2) (Reported 40);
   RFill (fill 11 Sell 1) Unreadable; RRecover (fill 12 Buy 1) 30 9; RFill (fill 12 Buy 1) Unsaid; RFunding (-7) 10].
End DemoBooks.

(** A redelivery, the other side of the same match, and a commission recovered
    later. *)
Lemma each_trade_is_booked_once_witness :
  ∃ es (b : Books Matcher),
    reports (Books.new 7 (mkContract 100) (mkTable [mkTier 1000000000000 10000000 0]) 1000000 OneWay) DemoBooks.stream = Ret (es, b) ∧
    trades es = [(11, Buy); (12, Buy); (11, Sell)] ∧ bk_booked b = 3 ∧
    unpriced_fills b = [DemoBooks.fill 11 Sell 1] ∧
    Permutation (unpriced_fills b ++ (recovered_fees b).*1) (unread es).
Proof.
  assert (∃ es (b : Books Matcher),
    reports (Books.new 7 (mkContract 100) (mkTable [mkTier 1000000000000 10000000 0]) 1000000 OneWay) DemoBooks.stream = Ret (es, b) ∧
    trades es = [(11, Buy); (12, Buy); (11, Sell)] ∧ bk_booked b = 3 ∧ unpriced_fills b = [DemoBooks.fill 11 Sell 1])
    as (es & b & E & Et & Eb & Eu) by (eexists _, _; split; [vm_compute; reflexivity|split; [reflexivity|split; reflexivity]]).
  exists es, b. split; [exact E|]. split; [exact Et|]. split; [exact Eb|]. split; [exact Eu|].
  refine (proj2 (proj2 (proj2 (proj2 (each_trade_is_booked_once 7 _ _ 1000000 OneWay DemoBooks.stream es b _ E))))).
  repeat (apply Forall_cons; split; [first [exact I|simpl; mlia]|]). apply Forall_nil_2.
Defined.
