(* ===== verification/LiveBook.v ===== *)
(** What a live process believes it holds ([oq-live/src/book.rs]): the
    positions the venue reported, moved by each fill once, and the orders that
    rest. *)

From stdpp Require Import gmap strings.
From Stdlib Require Import Floats.SpecFloat.
From S2P Require Import Prelude Slices Text Floats Types Order Dedup.
#[local] Open Scope Z_scope.

Implicit Types (s : text).

(** An order's state as the venue reports it ([oq-gateway/src/exec.rs]); the
    fields no one here reads are left out. *)
Record OrderUpdate := mkUpdate {
  ou_symbol : text; ou_client_id : text; ou_status : text; ou_last_qty : text; ou_side : text; ou_position_side : text;
  ou_trade_id : option Z;
}.

(** One leg of one contract. *)
Record Position := mkPosition { ps_symbol : text; ps_side : text; ps_amount : spec_float }.

Record Book := mkBook {
  bo_positions : list Position;
  bo_working : list text;
  bo_ended : gset text;
  seen_trades : gmap text (TradeWindow text);
  duplicates : Z;
  stale : Z;
  bo_prefix : text;
  foreign : Z;
}.

Definition NEW : text := text_of "NEW".
Definition FILLED : text := text_of "FILLED".
Definition PARTIALLY_FILLED : text := text_of "PARTIALLY_FILLED".
Definition ENDINGS : list text := text_of <$> ["FILLED"; "CANCELED"; "EXPIRED"; "EXPIRED_IN_MATCH"; "REJECTED"]%string.
Definition WITHDRAWALS : list text := text_of <$> ["CANCELED"; "EXPIRED"; "EXPIRED_IN_MATCH"; "REJECTED"]%string.
Definition is_ending s : bool := existsb (λ w, bool_decide (s = w)) ENDINGS.
Definition is_withdrawal s : bool := existsb (λ w, bool_decide (s = w)) WITHDRAWALS.
Definition is_fill_status s : bool := bool_decide (s = PARTIALLY_FILLED) || bool_decide (s = FILLED).

Module Book.
Implicit Types (b : Book) (u : OrderUpdate).

Definition owning (prefix : text) : Book := mkBook [] [] ∅ ∅ 0 0 prefix 0.
Definition new : Book := owning [].

Definition set_positions b (ps : list Position) : Book :=
  mkBook ps (bo_working b) (bo_ended b) (seen_trades b) (duplicates b) (stale b) (bo_prefix b) (foreign b).
Definition set_orders b (ws : list text) (es : gset text) : Book :=
  mkBook (bo_positions b) ws es (seen_trades b) (duplicates b) (stale b) (bo_prefix b) (foreign b).
Definition set_seen b (m : gmap text (TradeWindow text)) : Book :=
  mkBook (bo_positions b) (bo_working b) (bo_ended b) m (duplicates b) (stale b) (bo_prefix b) (foreign b).
(** The counters are [u64]s. *)
Definition set_counts b (d s f : Z) : Book :=
  mkBook (bo_positions b) (bo_working b) (bo_ended b) (seen_trades b) d s (bo_prefix b) f.
Definition count_foreign b : run Book := n ← chku64 (foreign b + 1); mret (set_counts b (duplicates b) (stale b) n).
Definition count_duplicate b : run Book := n ← chku64 (duplicates b + 1); mret (set_counts b n (stale b) (foreign b)).
Definition count_stale b : run Book := n ← chku64 (stale b + 1); mret (set_counts b (duplicates b) n (foreign b)).

(** [strip_prefix]. *)
Definition strip_prefix (p s : text) : option text := if starts_with s p then Some (drop (length p) s) else None.
Definition is_ours b (client_id : text) : bool :=
  if bool_decide (bo_prefix b = []) then true
  else
    match strip_prefix (bo_prefix b) client_id with
    | None => false
    | Some rest =>
        let sequence := default rest (strip_prefix [45] rest) in
        negb (bool_decide (sequence = [])) && forallb is_digit sequence
    end.

Definition signed u (qty : spec_float) : spec_float :=
  if eq_ignore_ascii_case (ou_side u) (text_of "BUY") then qty else F64.neg qty.
Definition leg_of u : text := if bool_decide (ou_position_side u = []) then text_of "BOTH" else ou_position_side u.
Fixpoint move_leg (symbol leg : text) (by_ : spec_float) (ps : list Position) : list Position :=
  match ps with
  | [] => [mkPosition symbol (ascii_upper <$> leg) by_]
  | p :: ps =>
      if bool_decide (ps_symbol p = symbol) && eq_ignore_ascii_case (ps_side p) leg
      then mkPosition (ps_symbol p) (ps_side p) (F64.add (ps_amount p) by_) :: ps
      else p :: move_leg symbol leg by_ ps
  end.
Definition book_fill b u (qty : spec_float) : Book :=
  set_positions b (move_leg (ou_symbol u) (leg_of u) (signed u qty) (bo_positions b)).

(** The order's ending, whatever came of its fill. *)
Definition end_order b u : bool * Book :=
  if is_ours b (ou_client_id u) && is_ending (ou_status u) then
    let ws := List.filter (λ w, negb (bool_decide (w = ou_client_id u))) (bo_working b) in
    (negb (length (bo_working b) =? length ws)%nat, set_orders b ws ({[ou_client_id u]} ∪ bo_ended b))
  else (false, b).

(** The fill: booked, or an answer given at once. *)
Definition take_fill b u (ended : bool) : run ((bool * Book) + Book) :=
  let ours := is_ours b (ou_client_id u) in
  match ou_trade_id u with
  | None => b ← (if ours then mret b else count_foreign b); mret (inl (ended, b))
  | Some trade =>
      match F64.parse (ou_last_qty u) with
      | None => mret (inr b)
      | Some qty =>
          let '(a, w) := TradeWindow.insert (default TradeWindow.default (seen_trades b !! ou_symbol u)) (Z.abs trade) (ou_client_id u) in
          let b := set_seen b (<[ou_symbol u := w]> (seen_trades b)) in
          match a with
          | SNew => mret (inr (book_fill b u qty))
          | SDuplicate => b ← (if ours then count_duplicate b else mret b); mret (inl (ended, b))
          | SStale => b ← count_stale b; mret (inl (ended, b))
          end
      end
  end.

Definition is_known b (client_id : text) : bool :=
  bool_decide (client_id ∈ bo_ended b) || existsb (λ w, bool_decide (w = client_id)) (bo_working b).

Definition apply b u : run (bool * Book) :=
  let ours := is_ours b (ou_client_id u) in
  let '(ended, b) := end_order b u in
  let is_fill := is_fill_status (ou_status u) in
  r ← (if is_fill then take_fill b u ended else mret (inr b));
  match r with
  | inl answer => mret answer
  | inr b =>
      if negb ours then b ← count_foreign b; mret (is_fill, b)
      else if bool_decide (ou_status u = NEW) then
        if is_known b (ou_client_id u) then mret (false, b)
        else mret (true, set_orders b (bo_working b ++ [ou_client_id u]) (bo_ended b))
      else if is_withdrawal (ou_status u) then mret (ended, b)
      else if is_fill then mret (true, b)
      else mret (false, b)
  end.

Definition on_sent b (client_id : text) : Book :=
  if is_known b client_id then b else set_orders b (bo_working b ++ [client_id]) (bo_ended b).
Definition adopt b (ps : list Position) : Book := set_positions b ps.
Definition working b : Z := Z.min (Z.of_nat (length (bo_working b))) U32_MAX.

Definition net b (symbol : text) : spec_float :=
  F64.sum (ps_amount <$> List.filter (λ p, bool_decide (ps_symbol p = symbol)) (bo_positions b)).
Definition net_lots b (symbol : text) (qty_scale : Z) : QtyLots := F64.round_i64 (F64.mul (net b symbol) (F64.pow10 qty_scale)).
Definition leg_lots b (symbol leg : text) (qty_scale : Z) : QtyLots :=
  let amount := F64.sum (ps_amount <$> List.filter (λ p, bool_decide (ps_symbol p = symbol) && eq_ignore_ascii_case (ps_side p) leg)
                                         (bo_positions b)) in
  F64.round_i64 (F64.mul amount (F64.pow10 qty_scale)).
End Book.

(** * Every fill once, and no order twice *)

Section once.
Implicit Types (b : Book) (u : OrderUpdate).

Inductive BookOp := BUpdate u | BSent (client_id : text) | BAdopt (ps : list Position).

(** What moved the positions. *)
Inductive Effect := Took u (qty : spec_float) | Adopted (ps : list Position).
Definition effect (ps : list Position) (e : Effect) : list Position :=
  match e with
  | Took u qty => Book.move_leg (ou_symbol u) (Book.leg_of u) (Book.signed u qty) ps
  | Adopted ps => ps
  end.

(** A fill is known by the symbol, the venue's trade id and the order. *)
Definition fill_key u : option (text * (Z * text)) :=
  if is_fill_status (ou_status u) then
    t ← ou_trade_id u; if decide (is_Some (F64.parse (ou_last_qty u))) then Some (ou_symbol u, (Z.abs t, ou_client_id u)) else None
  else None.
Definition taken (e : Effect) : list (text * (Z * text)) :=
  match e with Took u _ => option_list (fill_key u) | Adopted _ => [] end.
Definition window b s : TradeWindow text := default TradeWindow.default (seen_trades b !! s).

(** The effect of an update on the books that see it. *)
Definition took b u : list Effect :=
  match fill_key u, F64.parse (ou_last_qty u) with
  | Some k, Some qty =>
      match (TradeWindow.insert (window b k.1) k.2.1 k.2.2).1 with SNew => [Took u qty] | _ => [] end
  | _, _ => []
  end.
Definition book_op b (o : BookOp) : run (list Effect * Book) :=
  match o with
  | BUpdate u => '(_, b') ← Book.apply b u; mret (took b u, b')
  | BSent id => mret ([], Book.on_sent b id)
  | BAdopt ps => mret ([Adopted ps], Book.adopt b ps)
  end.
Fixpoint book_ops b (os : list BookOp) : run (list Effect * Book) :=
  match os with
  | [] => mret ([], b)
  | o :: os => '(es, b) ← book_op b o; '(es', b) ← book_ops b os; mret (es ++ es', b)
  end.

(** The orders of the books. *)
Record orders_ok b : Prop := {
  oo_once : NoDup (bo_working b);
  oo_ended : ∀ id, id ∈ bo_ended b → id ∉ bo_working b;
}.
(** How an update changes them. *)
Record orders_step b b' : Prop := {
  os_ok : orders_ok b → orders_ok b';
  os_ended : ∀ id, id ∈ bo_ended b → id ∈ bo_ended b';
  os_prefix : bo_prefix b' = bo_prefix b;
}.
Lemma orders_step_refl b : orders_step b b.
Proof. by split. Qed.
Lemma orders_step_trans b1 b2 b3 : orders_step b1 b2 → orders_step b2 b3 → orders_step b1 b3.
Proof. intros [H1 H2 H3] [G1 G2 G3]. split; [auto|auto|congruence]. Qed.
Lemma orders_same b b' : bo_working b' = bo_working b → bo_ended b' = bo_ended b → bo_prefix b' = bo_prefix b → orders_step b b'.
Proof. intros E1 E2 E3. split; [|by rewrite E2|done]. intros [H1 H2]. split; by rewrite ?E1, ?E2. Qed.

Lemma is_known_spec b id : Book.is_known b id = false ↔ id ∉ bo_ended b ∧ id ∉ bo_working b.
Proof.
  unfold Book.is_known. rewrite orb_false_iff, bool_decide_eq_false. apply and_iff_compat_l. rewrite <-not_true_iff_false, existsb_exists.
  split; intros H; [intros Hi; apply H; exists id; by rewrite <-list_elem_of_In, bool_decide_eq_true|].
  intros (x & Hx%list_elem_of_In & ->%bool_decide_eq_true). done.
Qed.
Lemma remember_order b id : Book.is_known b id = false → orders_step b (Book.set_orders b (bo_working b ++ [id]) (bo_ended b)).
Proof.
  intros [He Hw]%is_known_spec. split; [|done|done]. intros [H1 H2]. split; simpl.
  - apply NoDup_app. split; [done|]. split; [|apply NoDup_singleton]. by intros x Hx ->%list_elem_of_singleton.
  - intros x Hx [Hi| ->%list_elem_of_singleton]%elem_of_app; [by apply (H2 x)|done].
Qed.
Lemma end_order_step b u e b' : Book.end_order b u = (e, b') →
  orders_step b b' ∧ bo_positions b' = bo_positions b ∧ seen_trades b' = seen_trades b ∧
  (Book.is_ours b (ou_client_id u) = true → is_ending (ou_status u) = true → ou_client_id u ∈ bo_ended b').
Proof.
  unfold Book.end_order. destruct (Book.is_ours b (ou_client_id u) && is_ending (ou_status u)) eqn:E; intros [= <- <-].
  - split_and!; try done; [|intros _ _; simpl; set_solver]. split; simpl; [|set_solver|done]. intros [H1 H2]. split; simpl.
    + eapply sublist_NoDup; [exact H1|apply sublist_list_filter].
    + intros x [->%elem_of_singleton|Hx]%elem_of_union [Hi Hn]%in_list_filter; [by rewrite bool_decide_true in Hn|by apply (H2 x)].
  - split; [apply orders_step_refl|]. split_and!; try done. intros H1 H2. by rewrite H1, H2 in E.
Qed.

Lemma counted b (m : run Book) b' : (m = mret b ∨ m = Book.count_foreign b ∨ m = Book.count_duplicate b ∨ m = Book.count_stale b) →
  m = Ret b' → orders_step b b' ∧ bo_positions b' = bo_positions b ∧ seen_trades b' = seen_trades b.
Proof.
  intros H E. destruct H as [->|[->|[->| ->]]]; [injection E as <-; split; [apply orders_step_refl|done]|..];
    apply bind_ret in E as (n & _ & [= <-]); (split; [by apply orders_same|done]).
Qed.

(** The seen trades after an update. *)
Definition seen_after b u : gmap text (TradeWindow text) :=
  match fill_key u with
  | Some k => <[k.1 := (TradeWindow.insert (window b k.1) k.2.1 k.2.2).2]> (seen_trades b)
  | None => seen_trades b
  end.

Lemma fill_key_some u t qty : is_fill_status (ou_status u) = true → ou_trade_id u = Some t → F64.parse (ou_last_qty u) = Some qty →
  fill_key u = Some (ou_symbol u, (Z.abs t, ou_client_id u)).
Proof. intros H1 H2 H3. unfold fill_key. by rewrite H1, H2, H3. Qed.

Lemma take_fill_spec b u ended r : is_fill_status (ou_status u) = true → Book.take_fill b u ended = Ret r →
  let b' := match r with inl (_, b) => b | inr b => b end in
  orders_step b b' ∧ bo_positions b' = fold_left effect (took b u) (bo_positions b) ∧ seen_trades b' = seen_after b u.
Proof.
  intros Hf H. unfold Book.take_fill in H. destruct (ou_trade_id u) as [t|] eqn:Et.
  2: { apply bind_ret in H as (b1 & H & [= <-]). assert (fill_key u = None) as Ek by (unfold fill_key; by rewrite Hf, Et).
       unfold took, seen_after. rewrite Ek. eapply counted; [|exact H]. destruct (Book.is_ours _ _); auto. }
  destruct (F64.parse (ou_last_qty u)) as [qty|] eqn:Eq.
  2: { injection H as <-. assert (fill_key u = None) as Ek by (unfold fill_key; by rewrite Hf, Et, Eq).
       unfold took, seen_after. rewrite Ek. split; [apply orders_step_refl|done]. }
  pose proof (fill_key_some u t qty Hf Et Eq) as Ek. unfold took, seen_after. rewrite Ek, Eq. cbn [fst snd].
  fold (window b (ou_symbol u)) in H. destruct (TradeWindow.insert (window b (ou_symbol u)) (Z.abs t) (ou_client_id u)) as [a w].
  cbn [fst snd]. set (b1 := Book.set_seen b (<[ou_symbol u := w]> (seen_trades b))) in *.
  assert (orders_step b b1) as H1 by by apply orders_same. destruct a.
  - injection H as <-. split; [by apply orders_same|done].
  - apply bind_ret in H as (b2 & H & [= <-]). destruct (counted b1 (if Book.is_ours b (ou_client_id u) then Book.count_duplicate b1 else mret b1) b2 ltac:(destruct (Book.is_ours _ _); auto) H) as (H2 & E1 & E2).
    split; [by eapply orders_step_trans|]. by rewrite E1, E2.
  - apply bind_ret in H as (b2 & H & [= <-]). destruct (counted b1 _ b2 ltac:(auto) H) as (H2 & E1 & E2).
    split; [by eapply orders_step_trans|]. by rewrite E1, E2.
Qed.

Lemma apply_step b u r b' : Book.apply b u = Ret (r, b') →
  orders_step b b' ∧ bo_positions b' = fold_left effect (took b u) (bo_positions b) ∧ seen_trades b' = seen_after b u ∧
  (Book.is_ours b (ou_client_id u) = true → is_ending (ou_status u) = true → ou_client_id u ∈ bo_ended b').
Proof.
  intros H. unfold Book.apply in H. destruct (Book.end_order b u) as [ended b1] eqn:Ee.
  destruct (end_order_step _ _ _ _ Ee) as (S1 & P1 & T1 & O1). apply bind_ret in H as (x & Hx & H).
  assert (took b1 u = took b u ∧ seen_after b1 u = seen_after b u) as [E1 E2] by (unfold took, seen_after, window; by rewrite T1).
  set (b2 := match x with inl (_, b) => b | inr b => b end).
  assert (orders_step b1 b2 ∧ bo_positions b2 = fold_left effect (took b u) (bo_positions b) ∧ seen_trades b2 = seen_after b u) as (S2 & P2 & T2).
  { rewrite <-E1, <-E2, <-P1. destruct (is_fill_status (ou_status u)) eqn:Ef; [by eapply take_fill_spec|].
    injection Hx as <-. assert (fill_key u = None) as Ek by (unfold fill_key; by rewrite Ef). unfold took, seen_after. rewrite Ek.
    split; [apply orders_step_refl|done]. }
  assert (orders_step b2 b' ∧ bo_positions b' = bo_positions b2 ∧ seen_trades b' = seen_trades b2) as (S3 & P3 & T3).
  { destruct x as [[a b3]|b3]; unfold b2; clear b2 S2 P2 T2; [injection H as <- <-; split; [apply orders_step_refl|done]|].
    destruct (negb _); [apply bind_ret in H as (b4 & H & [= _ <-]); eapply counted; [|exact H]; auto|].
    case_bool_decide.
    - destruct (Book.is_known b3 _) eqn:Ek; injection H as _ <-; (split; [|done]); [apply orders_step_refl|by apply remember_order].
    - destruct (is_withdrawal _); [injection H as _ <-; split; [apply orders_step_refl|done]|].
      destruct (is_fill_status _); injection H as _ <-; (split; [apply orders_step_refl|done]). }
  split; [eapply orders_step_trans; [exact S1|]; by eapply orders_step_trans|]. rewrite P3, T3. split; [done|]. split; [done|].
  intros H1 H2. apply (os_ended _ _ S3), (os_ended _ _ S2). auto.
Qed.

(** The fills taken so far are those the windows remember. *)
Record remembered b (K : list (text * (Z * text))) : Prop := {
  rb_once : NoDup K;
  rb_window : ∀ s, width (window b s) = WINDOW ∧ ∃ B top, tracks (window b s) B top ∧ (∀ e, e ∈ B ↔ (s, e) ∈ K) ∧
    (top = 0 ∨ ∃ e, e ∈ B ∧ e.1 = top);
}.
Lemma remembered_same b b' K : seen_trades b' = seen_trades b → remembered b K → remembered b' K.
Proof. intros E [H1 H2]. split; [done|]. unfold window in *. by rewrite E. Qed.

Definition trade_ok u : Prop := match ou_trade_id u with Some t => i64 t | None => True end.
(** The fill was taken already, or is older than the windows remember. *)
Definition known_fill (K : list (text * (Z * text))) (k : text * (Z * text)) : Prop :=
  k ∈ K ∨ ∃ e, (k.1, e) ∈ K ∧ k.2.1 + WINDOW < e.1.

Lemma fill_key_u64 u k : trade_ok u → fill_key u = Some k → u64 k.2.1.
Proof.
  unfold fill_key, trade_ok. destruct (is_fill_status _); [|done]. destruct (ou_trade_id u) as [t|]; [|done]. simpl.
  intros Ht. case_decide; [|done]. intros [= <-]. simpl. mlia.
Qed.

Lemma window_insert b m s s' w : seen_trades b = <[s := w]> m → window b s' = if decide (s' = s) then w else default TradeWindow.default (m !! s').
Proof.
  intros E. unfold window. rewrite E. destruct (decide (s' = s)) as [->|Hne]; [by rewrite lookup_insert_eq|by rewrite lookup_insert_ne].
Qed.

Lemma taking b u b' K : remembered b K → trade_ok u → seen_trades b' = seen_after b u →
  remembered b' (K ++ (took b u ≫= taken)) ∧ (∀ k, fill_key u = Some k → known_fill (K ++ (took b u ≫= taken)) k).
Proof.
  intros [Ho Hw] Ht E. unfold seen_after in E. unfold took. destruct (fill_key u) as [k|] eqn:Ek.
  2: { simpl. rewrite app_nil_r. split; [by apply (remembered_same b)|done]. }
  assert (∃ qty, F64.parse (ou_last_qty u) = Some qty) as [qty Eq].
  { unfold fill_key in Ek. destruct (is_fill_status _); [|done]. destruct (ou_trade_id u); [|done]. simpl in Ek. case_decide as H; [|done]. exact H. }
  rewrite Eq. pose proof (fill_key_u64 _ _ Ht Ek) as Hu. destruct k as [s [t c]]. cbn [fst snd] in *.
  destruct (Hw s) as (Hwd & B & top & Htr & HB & Htop).
  destruct (TradeWindow.insert (window b s) t c) as [a w] eqn:Ei. cbn [fst snd] in *.
  destruct (insert_tracks (window b s) B top (t, c) a w Htr ltac:(rewrite Hwd; done) Hu Ei) as (Ea & Ew & Ht').
  assert (∀ s', window b' s' = if decide (s' = s) then w else window b s') as Ewin by (intros s'; exact (window_insert b' _ s s' w E)).
  destruct a.
  - assert ((t, c) ∉ B) as Hnew by (symmetry in Ea; unfold judge in Ea; destruct (_ <? _); [done|by case_bool_decide]).
    simpl. rewrite Ek. simpl. split; [|intros k [= <-]; left; apply elem_of_app; right; by left]. split.
    + apply NoDup_app. split; [done|]. split; [|apply NoDup_singleton]. intros e He ->%list_elem_of_singleton. by apply Hnew, HB.
    + intros s'. rewrite Ewin. destruct (decide (s' = s)) as [->|Hne].
      * split; [congruence|]. exists ({[(t, c)]} ∪ B), (Z.max top t). split; [exact Ht'|]. split.
        -- intros e. rewrite elem_of_union, elem_of_singleton, elem_of_app, list_elem_of_singleton, HB.
           split; [intros [->|?]; auto|intros [?|[= ->]]; auto].
        -- destruct (Z.max_spec top t) as [[_ ->]|[_ ->]]; [right; exists (t, c); set_solver|].
           destruct Htop as [?|(e & He & <-)]; [by left|right; exists e; set_solver].
      * destruct (Hw s') as (Hwd' & B' & top' & Htr' & HB' & Htop'). split; [done|]. exists B', top'. split; [done|]. split; [|done].
        intros e. rewrite HB', elem_of_app, list_elem_of_singleton. split; [auto|intros [?|[= ? ?]]; [done|congruence]].
  - simpl. rewrite app_nil_r. split.
    + split; [done|]. intros s'. rewrite Ewin. destruct (decide (s' = s)) as [->|Hne]; [|apply Hw].
      split; [congruence|]. exists B, top. done.
    + intros k [= <-]. left. apply HB. symmetry in Ea. unfold judge in Ea. destruct (_ <? _); [done|]. by case_bool_decide.
  - simpl. rewrite app_nil_r. split.
    + split; [done|]. intros s'. rewrite Ewin. destruct (decide (s' = s)) as [->|Hne]; [|apply Hw].
      split; [congruence|]. exists B, top. done.
    + intros k [= <-]. right. symmetry in Ea. unfold judge in Ea. simpl in Ea.
      destruct (Z.ltb_spec t (floor_of (width (window b s)) top)) as [Hlt|]; [|by case_bool_decide].
      rewrite Hwd in Hlt. unfold floor_of, WINDOW in Hlt. unfold u64 in Hu. simpl in Hu.
      assert (t + 50000000 < top) as Hlt' by mlia. destruct Htop as [->|(e & He & <-)]; [lia|].
      exists e. split; [by apply HB|done].
Qed.

Record account b (K : list (text * (Z * text))) (es : list Effect) : Prop := {
  ac_orders : orders_ok b;
  ac_taken : remembered b K;
  ac_positions : bo_positions b = fold_left effect es [];
  ac_keys : K = es ≫= taken;
}.
Definition op_ok (o : BookOp) : Prop := match o with BUpdate u => trade_ok u | _ => True end.

Lemma book_op_step b o es K es0 b' : account b K es0 → op_ok o → book_op b o = Ret (es, b') →
  account b' (K ++ (es ≫= taken)) (es0 ++ es) ∧ bo_prefix b' = bo_prefix b ∧ (∀ id, id ∈ bo_ended b → id ∈ bo_ended b') ∧
  match o with
  | BUpdate u => (∀ k, fill_key u = Some k → known_fill (K ++ (es ≫= taken)) k) ∧
      (Book.is_ours b (ou_client_id u) = true → is_ending (ou_status u) = true → ou_client_id u ∈ bo_ended b')
  | _ => True
  end.
Proof.
  intros [Ho Hr Hp Hk] Hok H. destruct o as [u|id|ps]; simpl in H, Hok.
  - apply bind_ret in H as ([r b1] & H & [= <- <-]). destruct (apply_step _ _ _ _ H) as ([S1 S2 S3] & P & T & E).
    destruct (taking b u b1 K Hr Hok T) as [Hr' Hkn]. split; [|done]. split; [by apply S1|done| |].
    + by rewrite P, Hp, fold_left_app.
    + by rewrite bind_app, <-Hk.
  - injection H as <- <-. simpl. rewrite !app_nil_r. unfold Book.on_sent. destruct (Book.is_known b id) eqn:Ekn; [by split_and!|].
    destruct (remember_order b id Ekn) as [S1 S2 S3]. split; [split; [by apply S1|by apply (remembered_same b)|done..]|done].
  - injection H as <- <-. simpl. rewrite !app_nil_r. split; [|done]. split; [by destruct Ho; split|by apply (remembered_same b)| |].
    + by rewrite fold_left_app.
    + rewrite bind_app. simpl. by rewrite app_nil_r.
Qed.

Lemma known_fill_later K K' k : known_fill K k → known_fill (K ++ K') k.
Proof. intros [H|(e & He & Hlt)]; [left; by apply elem_of_app; left|right; exists e; split; [by apply elem_of_app; left|done]]. Qed.

Lemma is_ours_prefix b b' id : bo_prefix b' = bo_prefix b → Book.is_ours b' id = Book.is_ours b id.
Proof. intros E. unfold Book.is_ours. by rewrite E. Qed.

Lemma book_ops_account os : ∀ b K es0 es b', account b K es0 → Forall op_ok os → book_ops b os = Ret (es, b') →
  account b' (K ++ (es ≫= taken)) (es0 ++ es) ∧ (∀ id, id ∈ bo_ended b → id ∈ bo_ended b') ∧
  ∀ u, BUpdate u ∈ os → (∀ k, fill_key u = Some k → known_fill (K ++ (es ≫= taken)) k) ∧
    (Book.is_ours b (ou_client_id u) = true → is_ending (ou_status u) = true → ou_client_id u ∈ bo_ended b').
Proof.
  induction os as [|o os IH]; intros b K es0 es b' Ha HF H; simpl in H.
  { injection H as <- <-. simpl. rewrite !app_nil_r. split; [done|]. split; [done|]. intros u Hu. by apply not_elem_of_nil in Hu. }
  apply Forall_cons in HF as [Ho HF]. apply bind_ret in H as ([es1 b1] & H1 & H). apply bind_ret in H as ([es2 b2] & H2 & [= <- <-]).
  destruct (book_op_step _ _ _ _ _ _ Ha Ho H1) as (Ha1 & Ep & Hen & Hu). destruct (IH _ _ _ _ _ Ha1 HF H2) as (Ha2 & Hen2 & Hu2).
  rewrite bind_app, !(assoc_L (++)). split; [done|]. split; [auto|]. intros u [<-|Hin]%elem_of_cons.
  - destruct Hu as [Hk He]. split; [intros k Hk'; by apply known_fill_later, Hk|auto].
  - destruct (Hu2 u Hin) as [Hk He]. split; [done|]. intros Hi. apply He. by rewrite (is_ours_prefix b b1).
Qed.

(** C7. The book takes each fill once and each order's ending for good.
    Whatever the account stream delivers, in whatever order and however often,
    with orders sent and positions adopted in between: the positions are the
    adopted ones moved by the fills taken, and no fill - a trade of a symbol
    for an order - is taken twice; every readable fill was taken, unless it is
    older than fifty million trades of its symbol; the working orders are
    listed once; and an order of this process an ending was reported for is
    not among them, and no late acknowledgement brings it back. *)
Theorem book_takes_each_fill_once prefix (os : list BookOp) es b
    (Hok : Forall op_ok os) (H : book_ops (Book.owning prefix) os = Ret (es, b)) :
  bo_positions b = fold_left effect es [] ∧ NoDup (es ≫= taken) ∧
  (∀ u k, BUpdate u ∈ os → fill_key u = Some k → known_fill (es ≫= taken) k) ∧
  NoDup (bo_working b) ∧
  (∀ u, BUpdate u ∈ os → Book.is_ours (Book.owning prefix) (ou_client_id u) = true → is_ending (ou_status u) = true →
    ou_client_id u ∉ bo_working b).
Proof.
  assert (account (Book.owning prefix) [] []) as Ha.
  { split; [split; [constructor|by intros ? ?]|split; [constructor|]|done|done]. intros s. split; [done|].
    exists ∅, 0. split; [apply fresh_tracks|]. split; [|by left]. intros e. split; [set_solver|intros He; by apply not_elem_of_nil in He]. }
  destruct (book_ops_account os _ _ _ _ _ Ha Hok H) as ([[Ho1 Ho2] [Hn _] Hp _] & _ & Hu). simpl in Hn, Hp.
  split; [done|]. split; [done|]. split; [intros u k Hin; exact (proj1 (Hu u Hin) k)|]. split; [done|].
  intros u Hin Hi He. apply Ho2. exact (proj2 (Hu u Hin) Hi He).
Qed.
End once.

Module DemoBook.
Definition update (id status trade qty : string) : OrderUpdate :=
  mkUpdate (text_of "BTC") (text_of id) (text_of status) (text_of qty) (text_of "BUY") []
    (if bool_decide (trade = EmptyString) then None else parse_digits (text_of trade)).
(** A fill redelivered, another system's fill of the same trade, an order that
    ends before its acknowledgement arrives, and a position adopted. *)
Definition ops : list BookOp :=
  [BAdopt [mkPosition (text_of "BTC") (text_of "both") (F64.of_int 1)];
   BSent (text_of "oq-1");
   BUpdate (update "oq-1" "PARTIALLY_FILLED" "7" "0.5");
   BUpdate (update "oq-1" "PARTIALLY_FILLED" "7" "0.5");
   BUpdate (update "oqx1" "FILLED" "7" "2");
   BUpdate (update "oq-2" "EXPIRED_IN_MATCH" "" "0");
   BUpdate (update "oq-2" "NEW" "" "0");
   BUpdate (update "oq-1" "FILLED" "8" "0.25")].
End DemoBook.

Lemma book_takes_each_fill_once_witness : ∃ es b, book_ops (Book.owning (text_of "oq")) DemoBook.ops = Ret (es, b) ∧
  Book.net_lots b (text_of "BTC") 2 = 375 ∧ bo_working b = [] ∧ length (es ≫= taken) = 3%nat ∧ NoDup (es ≫= taken).
Proof.
  assert (∃ es b, book_ops (Book.owning (text_of "oq")) DemoBook.ops = Ret (es, b) ∧ Book.net_lots b (text_of "BTC") 2 = 375 ∧
    bo_working b = [] ∧ length (es ≫= taken) = 3%nat) as (es & b & E & H1 & H2 & H3)
    by (eexists _, _; split; [vm_compute; reflexivity|]; split_and!; vm_compute; reflexivity).
  exists es, b. split; [exact E|]. split; [exact H1|]. split; [exact H2|]. split; [exact H3|].
  refine (proj1 (proj2 (book_takes_each_fill_once (text_of "oq") DemoBook.ops es b _ E))).
  unfold DemoBook.ops. rewrite !Forall_cons. split_and!; [exact I|exact I| | | | | | |apply Forall_nil_2].
  all: vm_compute; first [exact I|split; discriminate].
Defined.
