(* ===== verification/Interlock.v ===== *)
(** One process per account and one range of ids per start
    ([oq-live/src/interlock.rs] and [order_ids.rs]).

    The operating system's lock, directory and files are explicit: a claim may
    be refused by it, and a reservation may fail or be cut short by a crash at
    any of its steps. *)

From stdpp Require Import gmap strings.
From S2P Require Import Prelude Text.
#[local] Open Scope Z_scope.

Implicit Types (s t : text).

(** * The lock file's name *)

Definition is_ascii_alphanumeric (b : Z) : bool :=
  is_digit b || ((65 <=? b) && (b <=? 90)) || ((97 <=? b) && (b <=? 122)).
(** [{:02X}]. *)
Definition hex_upper (z : Z) : Z := if z <? 10 then 48 + z else 55 + z.
Definition encode_byte (b : Z) : text :=
  if is_ascii_alphanumeric b || (b =? 45) then [b] else [37; hex_upper (b / 16); hex_upper (b mod 16)].
Definition encode s : text := s ≫= encode_byte.
Definition lock_name (deployment symbol prefix : text) : text :=
  text_of "oq-live." ++ encode deployment ++ [46] ++ encode symbol ++ [46] ++ encode prefix ++ text_of ".lock".

(** * Claiming *)

(** A lock file: what it says, and whether a live process holds it. *)
Record LockFile := mkLock { lk_held : bool; lk_text : text }.
Record Taken := mkTaken { tk_path : text; tk_held_by : text }.
(** What stops a claim before the lock is tried, or instead of it. *)
Inductive ClaimFault := NoDirectory | NotOpened | NotLocked.

Definition ownership (pid : Z) (deployment symbol prefix : text) : text :=
  text_of "pid " ++ shown pid ++ text_of " trading " ++ symbol ++ text_of " on " ++ deployment ++ text_of " as " ++ prefix ++ [10].
(** The directory is a map from names to lock files; writing what the holder
    says of itself may fail without anyone noticing, which changes no
    answer. *)
Definition claim (d : gmap text LockFile) (fault : option (ClaimFault * text)) (pid : Z) (deployment symbol prefix : text)
    : result text Taken * gmap text LockFile :=
  let path := lock_name deployment symbol prefix in
  let failed why := Err (mkTaken path (text_of "the lock could not be established: " ++ why)) in
  match fault with
  | Some (NotLocked, why) => (failed why, <[path := default (mkLock false []) (d !! path)]> d)
  | Some (_, why) => (failed why, d)
  | None =>
      let f := default (mkLock false []) (d !! path) in
      if lk_held f then
        let read := take 1024 (lk_text f) in
        let says := if utf8 read then trim read else [] in
        (Err (mkTaken path (if bool_decide (says = []) then text_of "nothing about itself" else says)), d)
      else (Ok path, <[path := mkLock true (ownership pid deployment symbol prefix)]> d)
  end.
(** The holder ends, however it ends; the file stays. *)
Definition release (d : gmap text LockFile) (path : text) : gmap text LockFile :=
  match d !! path with Some f => <[path := mkLock false (lk_text f)]> d | None => d end.

(** * Reserving order ids *)

Definition RESERVATION : Z := 1000000000.

(** [str::parse::<u64>]. *)
Definition parse_u64 s : option Z :=
  let s := match s with c :: s' => if (c =? 43) && negb (bool_decide (s' = [])) then s' else s | [] => s end in
  if bool_decide (s = []) || negb (forallb is_digit s) then None
  else if decide (u64 (digits_value s)) then Some (digits_value s) else None.

(** The high-water file and its staging file, as a crash leaves them. *)
Record IdFiles := mkIds { id_mark : option text; id_staging : option text }.
(** Where a reservation stops, by an error or a crash: before anything is
    created, with [n] bytes of the staging file written, before the rename, or
    before the directory is on the device, when the rename may be lost. *)
Inductive ReserveFault := BeforeCreate | Writing (n : nat) | BeforeRename | Publishing (kept : bool).
Inductive IdError := Stopped | Unreadable | Exhausted | Uncertain.

Definition reserve_order_ids (d : IdFiles) (fault : option ReserveFault) (clock_floor : Z) : IdFiles * result (Z * Z) IdError :=
  match fault with
  | Some BeforeCreate => (d, Err Stopped)
  | _ =>
      match match id_mark d with Some s => parse_u64 (trim s) | None => Some 0 end with
      | None => (d, Err Unreadable)
      | Some prior =>
          let floor := Z.max prior clock_floor in
          match checked u64 (floor + RESERVATION) with
          | None => (d, Err Exhausted)
          | Some last =>
              match id_staging d with
              | Some _ => (d, Err Uncertain)
              | None =>
                  let line := shown last ++ [10] in
                  let staged := mkIds (id_mark d) (Some line) in
                  let published := mkIds (Some line) None in
                  match fault with
                  | Some (Writing n) => (mkIds (id_mark d) (Some (take n line)), Err Stopped)
                  | Some BeforeRename => (staged, Err Stopped)
                  | Some (Publishing kept) => (if kept then published else staged, Err Stopped)
                  | _ => (published, Ok (floor + 1, last))
                  end
              end
          end
      end
  end.

(** * Distinct triples have distinct locks *)

Lemma hex_upper_inj a b : 0 ≤ a < 16 → 0 ≤ b < 16 → hex_upper a = hex_upper b → a = b.
Proof. unfold hex_upper. intros Ha Hb. destruct (Z.ltb_spec a 10), (Z.ltb_spec b 10); lia. Qed.
Lemma hex_upper_plain z : 0 ≤ z < 16 → hex_upper z ≠ 46.
Proof. unfold hex_upper. destruct (Z.ltb_spec z 10); lia. Qed.

(** An encoded byte tells where it ends. *)
Lemma encode_byte_inj a b s t : u8 a → u8 b → encode_byte a ++ s = encode_byte b ++ t → a = b ∧ s = t.
Proof.
  intros Ha Hb H. unfold encode_byte in H.
  destruct (is_ascii_alphanumeric a || (a =? 45)) eqn:Ea, (is_ascii_alphanumeric b || (b =? 45)) eqn:Eb; simpl in H.
  - by injection H.
  - injection H as -> _. unfold is_ascii_alphanumeric, is_digit in Ea. lia.
  - injection H as <- _. unfold is_ascii_alphanumeric, is_digit in Eb. lia.
  - injection H as H1 H2 ->. unfold u8 in *. pose proof (Z.mod_pos_bound a 16). pose proof (Z.mod_pos_bound b 16).
    pose proof (Z.div_mod a 16). pose proof (Z.div_mod b 16).
    apply hex_upper_inj in H1, H2; [split; [lia|done]|lia|lia|split; [apply Z.div_pos|apply Z.div_lt_upper_bound]; lia..].
Qed.
Lemma encode_cons b s : encode (b :: s) = encode_byte b ++ encode s.
Proof. done. Qed.
Lemma encode_byte_head b : u8 b → ∃ c l, encode_byte b = c :: l ∧ c ≠ 46.
Proof.
  intros Hb. unfold encode_byte. destruct (is_ascii_alphanumeric b || (b =? 45)) eqn:E; eexists _, _; (split; [done|]); [|lia].
  unfold is_ascii_alphanumeric, is_digit in E. lia.
Qed.
(** A dot ends a component. *)
Lemma encode_dot_inj a : ∀ b s t, Forall u8 a → Forall u8 b → encode a ++ 46 :: s = encode b ++ 46 :: t → a = b ∧ s = t.
Proof.
  induction a as [|x a IH]; intros b s t Ha Hb H.
  - destruct b as [|y b]; [by injection H|]. apply Forall_cons in Hb as [Hy _]. rewrite encode_cons in H.
    destruct (encode_byte_head y Hy) as (c & l & E & Hc). rewrite E in H. simpl in H. by injection H as <- _.
  - apply Forall_cons in Ha as [Hx Ha]. destruct b as [|y b].
    + rewrite encode_cons in H. destruct (encode_byte_head x Hx) as (c & l & E & Hc). rewrite E in H. simpl in H. by injection H as -> _.
    + apply Forall_cons in Hb as [Hy Hb]. rewrite !encode_cons, <-!app_assoc in H.
      apply encode_byte_inj in H as [-> H]; [|done|done]. apply IH in H as [-> ->]; done.
Qed.
Lemma lock_name_inj d s p d' s' p' : Forall u8 d → Forall u8 s → Forall u8 p → Forall u8 d' → Forall u8 s' → Forall u8 p' →
  lock_name d s p = lock_name d' s' p' → (d, s, p) = (d', s', p').
Proof.
  intros ?????? H. unfold lock_name in H. apply (inj (app _)) in H. cbn [app] in H.
  apply encode_dot_inj in H as [-> H]; [|done..]. apply encode_dot_inj in H as [-> H]; [|done..].
  change (text_of ".lock") with (46 :: text_of "lock") in H. by apply encode_dot_inj in H as [-> _].
Qed.

(** * Who holds what *)

(** A process and what it trades; [None] for one that has ended. *)
Record Claim := mkClaim { cl_pid : Z; cl_deployment : text; cl_symbol : text; cl_prefix : text }.
Definition triple (c : Claim) : text * text * text := (cl_deployment c, cl_symbol c, cl_prefix c).
Definition lock_of (c : Claim) : text := lock_name (cl_deployment c) (cl_symbol c) (cl_prefix c).
Definition claim_ok (c : Claim) : Prop :=
  Forall u8 (cl_deployment c) ∧ Forall u8 (cl_symbol c) ∧ Forall u8 (cl_prefix c).

Definition is_ok {A E} (r : result A E) : bool := match r with Ok _ => true | Err _ => false end.

(** Processes come, and end; what holds is those that live. *)
Inductive held_by : gmap text LockFile → list Claim → Prop :=
| hb_new d : (∀ p f, d !! p = Some f → lk_held f = false) → held_by d []
| hb_claim d cs c fault r d' : held_by d cs → claim_ok c →
    claim d fault (cl_pid c) (cl_deployment c) (cl_symbol c) (cl_prefix c) = (r, d') →
    held_by d' (match r with Ok _ => c :: cs | Err _ => cs end)
| hb_end d a c b : held_by d (a ++ c :: b) → held_by (release d (lock_of c)) (a ++ b).

Record exclusive (d : gmap text LockFile) (cs : list Claim) : Prop := {
  ex_ok : Forall claim_ok cs;
  ex_nodup : NoDup (triple <$> cs);
  ex_held : ∀ p, match d !! p with Some f => lk_held f = true | None => False end ↔ p ∈ lock_of <$> cs;
}.

Lemma lock_of_inj c c' : claim_ok c → claim_ok c' → lock_of c = lock_of c' → triple c = triple c'.
Proof. intros (?&?&?) (?&?&?) E. by apply lock_name_inj. Qed.
Lemma lock_of_triple c c' : triple c = triple c' → lock_of c = lock_of c'.
Proof. unfold triple, lock_of. by intros [= -> -> ->]. Qed.
Lemma lock_of_elem c cs : claim_ok c → Forall claim_ok cs → lock_of c ∈ lock_of <$> cs ↔ triple c ∈ triple <$> cs.
Proof.
  intros Hc Hcs. rewrite !list_elem_of_fmap. split; intros (c' & E & Hi); exists c'; (split; [|done]).
  - apply lock_of_inj; [done| |done]. rewrite Forall_forall in Hcs. by apply Hcs.
  - by apply lock_of_triple.
Qed.

Lemma held_exclusive d cs : held_by d cs → exclusive d cs.
Proof.
  intros Hcs. induction Hcs as [d Hd|d cs c fault r d' _ [Hok Hnd Hh] Hc H|d a c b _ [Hok Hnd Hh]].
  - split; [constructor|constructor|]. intros p. rewrite elem_of_nil. specialize (Hd p). destruct (d !! p) as [f|]; [|done].
    rewrite (Hd f eq_refl). done.
  - unfold claim in H. fold (lock_of c) in H. destruct fault as [[fl why]|].
    + assert (r = Err (mkTaken (lock_of c) (text_of "the lock could not be established: " ++ why)) ∧
        (d' = d ∨ d' = <[lock_of c := default (mkLock false []) (d !! lock_of c)]> d)) as [-> Hd'].
      { destruct fl; injection H as <- <-; (split; [done|]); [by left|by left|by right]. }
      split; [done|done|]. intros p. rewrite <-Hh. destruct Hd' as [->| ->]; [done|].
      destruct (decide (p = lock_of c)) as [->|]; [|by rewrite lookup_insert_ne]. rewrite lookup_insert_eq. destruct (d !! lock_of c); simpl; naive_solver.
    + destruct (lk_held _) eqn:Ef; injection H as <- <-; [by split|].
      assert (lock_of c ∉ lock_of <$> cs) as Hnew.
      { rewrite <-Hh. destruct (d !! lock_of c) as [f|]; simpl in Ef; [by rewrite Ef|tauto]. }
      split.
      * by apply Forall_cons.
      * simpl. constructor; [|done]. by rewrite <-lock_of_elem.
      * intros p. simpl. rewrite elem_of_cons, <-Hh. destruct (decide (p = lock_of c)) as [->|Hne].
        { rewrite lookup_insert_eq. split; [by left|done]. }
        rewrite lookup_insert_ne by done. naive_solver.
  - rewrite Forall_app, Forall_cons in Hok. destruct Hok as (Ha & Hc & Hb). rewrite fmap_app in Hnd. cbn [fmap list_fmap] in Hnd.
    apply NoDup_app in Hnd as (Hna & Hd & Hncb). apply NoDup_cons in Hncb as [Hcb Hnb]. split.
    + by apply Forall_app_2.
    + rewrite fmap_app. apply NoDup_app. split_and!; [done| |done]. intros x Hx Hi. apply (Hd x Hx). by right.
    + assert (lock_of c ∉ lock_of <$> (a ++ b)) as Hnot.
      { rewrite lock_of_elem by (done || by apply Forall_app_2). rewrite fmap_app, elem_of_app. intros [Hi|Hi]; [|done].
        apply (Hd _ Hi). by left. }
      intros p. pose proof (Hh p) as Hp. unfold release.
      assert (p ∈ lock_of <$> (a ++ c :: b) ↔ p = lock_of c ∨ p ∈ lock_of <$> (a ++ b)) as Hsplit.
      { rewrite !fmap_app. cbn [fmap list_fmap]. rewrite !elem_of_app, elem_of_cons. naive_solver. }
      rewrite Hsplit in Hp. destruct (decide (p = lock_of c)) as [->|Hne].
      * destruct (d !! lock_of c) as [f|] eqn:El; rewrite ?lookup_insert_eq, ?El; simpl; naive_solver.
      * destruct (d !! lock_of c) as [f|] eqn:El; rewrite ?lookup_insert_ne by done; rewrite Hp; naive_solver.
Qed.

(** A lock excludes exactly the processes that would share order ids.
    However processes claim, fail to claim and end, no two that live hold the
    same deployment, symbol and prefix; and a claim the operating system does
    not stop succeeds exactly when no live process holds that triple, so two
    contracts whose names differ in one awkward character do not exclude each
    other. *)
Theorem claims_exclude_the_same_triple d cs c
    (H : held_by d cs) (Hc : claim_ok c) :
  NoDup (triple <$> cs) ∧
  (is_ok (claim d None (cl_pid c) (cl_deployment c) (cl_symbol c) (cl_prefix c)).1 = true ↔ triple c ∉ triple <$> cs).
Proof.
  destruct (held_exclusive d cs H) as [Hok Hnd Hh]. split; [done|]. rewrite <-lock_of_elem, <-Hh by done. unfold claim.
  fold (lock_of c). destruct (d !! lock_of c) as [f|]; simpl; [|naive_solver]. destruct (lk_held f); simpl; naive_solver.
Qed.

Module DemoLocks.
Definition slash : Claim := mkClaim 10 (text_of "binance") (text_of "BTC/USDT") (text_of "oq").
Definition dash : Claim := mkClaim 11 (text_of "binance") (text_of "BTC-USDT") (text_of "oq").
Definition held : gmap text LockFile := (claim ∅ None 10 (text_of "binance") (text_of "BTC/USDT") (text_of "oq")).2.
Lemma names : lock_of slash = text_of "oq-live.binance.BTC%2FUSDT.oq.lock" ∧ lock_of dash = text_of "oq-live.binance.BTC-USDT.oq.lock".
Proof. by vm_compute. Qed.
End DemoLocks.
Lemma claims_exclude_the_same_triple_witness :
  held_by DemoLocks.held [DemoLocks.slash] ∧
  is_ok (claim DemoLocks.held None 11 (text_of "binance") (text_of "BTC-USDT") (text_of "oq")).1 = true.
Proof.
  assert (∀ c, claim_ok c ↔ Forall u8 (cl_deployment c) ∧ Forall u8 (cl_symbol c) ∧ Forall u8 (cl_prefix c)) as Hiff by done.
  assert (claim_ok DemoLocks.slash) as H1.
  { unfold claim_ok, DemoLocks.slash; simpl. split_and!; repeat constructor; by vm_compute. }
  assert (claim_ok DemoLocks.dash) as H2.
  { unfold claim_ok, DemoLocks.dash; simpl. split_and!; repeat constructor; by vm_compute. }
  assert (held_by DemoLocks.held [DemoLocks.slash]) as H.
  { refine (hb_claim ∅ [] DemoLocks.slash None (Ok (lock_of DemoLocks.slash)) DemoLocks.held _ H1 _).
    - apply hb_new. intros p f Hp. rewrite lookup_empty in Hp. discriminate.
    - vm_compute. reflexivity. }
  split; [exact H|].
  destruct (claims_exclude_the_same_triple DemoLocks.held [DemoLocks.slash] DemoLocks.dash H H2) as [_ Hok].
  apply Hok. unfold triple, DemoLocks.slash, DemoLocks.dash; cbn [fmap list_fmap cl_deployment cl_symbol cl_prefix].
  rewrite list_elem_of_singleton. intros E. vm_compute in E. discriminate E.
Defined.
