(* ===== verification/ClientIds.v ===== *)
(** Client order ids and whose they are ([oq-gateway/src/broker.rs], and the
    ownership test of [oq-live/src/book.rs]). *)

From stdpp Require Import strings.
From S2P Require Import Prelude Text LiveBook Interlock.
#[local] Open Scope Z_scope.

Implicit Types (s t id : text).

(** * Rules *)

Inductive IdRules :=
| IdText (max_len : nat) (punctuation_allowed : bool)
| IdNumber (max : Z)
| IdHex (bytes : nat).

Definition is_punctuation (b : Z) : bool := (b =? 46) || (b =? 95) || (b =? 58) || (b =? 47) || (b =? 45).
Definition is_hexdigit (b : Z) : bool := is_digit b || ((65 <=? b) && (b <=? 70)) || ((97 <=? b) && (b <=? 102)).

Module IdRules.
Definition BINANCE : IdRules := IdText 36 true.
Definition OKX : IdRules := IdText 32 false.
Definition KRAKEN : IdRules := IdText 100 true.
Definition DERIBIT : IdRules := IdText 64 true.
Definition BACKPACK : IdRules := IdNumber U32_MAX.
Definition HYPERLIQUID : IdRules := IdHex 16.

Definition prefix_is_unambiguous (prefix separator : text) : bool :=
  negb (bool_decide (separator = [])) || negb (existsb is_digit prefix).
Definition separator (r : IdRules) : text := match r with IdText _ true => text_of "-" | _ => [] end.
(** A character that is not ASCII has bytes past every class. *)
Definition accepts (r : IdRules) id : bool :=
  match r with
  | IdText max_len punctuation_allowed =>
      negb (bool_decide (id = [])) && (length id <=? max_len)%nat &&
      forallb (λ b, is_ascii_alphanumeric b || (punctuation_allowed && is_punctuation b)) id
  | IdNumber max => match parse_u64 id with Some v => v <=? max | None => false end
  | IdHex bytes =>
      (length id =? 2 + bytes * 2)%nat && starts_with id (text_of "0x") && forallb is_hexdigit (drop 2 id)
  end.
Definition takes_a_prefix (r : IdRules) : bool := match r with IdText _ _ => true | _ => false end.
Definition max_len (r : IdRules) : option nat := match r with IdText n _ => Some n | _ => None end.
End IdRules.

Inductive IdRefusal :=
| WrongShape
| TooLong (len max : nat)
| BadCharacter (found : text)
| EmptyPart.

(** * Broker codes and schemes *)

Module BrokerCode.
Definition new (code : text) : result text IdRefusal :=
  if bool_decide (code = []) then Err EmptyPart
  else match find (λ c, negb (forallb is_ascii_alphanumeric c)) (chars code) with
       | Some c => Err (BadCharacter c)
       | None => Ok code
       end.
End BrokerCode.

Record IdScheme := mkScheme { is_broker : option text; is_owner : text; is_rules : IdRules }.

Module IdScheme.
Definition new (owner : text) (rules : IdRules) : result IdScheme IdRefusal :=
  if bool_decide (owner = []) then Err EmptyPart
  else if negb (IdRules.takes_a_prefix rules) then Err WrongShape
  else match find (λ c, negb (IdRules.accepts rules c)) (chars owner) with
       | Some c => Err (BadCharacter c)
       | None => Ok (mkScheme None owner rules)
       end.
Definition with_broker (x : IdScheme) (code : text) : IdScheme := mkScheme (Some code) (is_owner x) (is_rules x).
Definition owned_prefix (x : IdScheme) : text := match is_broker x with Some b => b ++ is_owner x | None => is_owner x end.
Definition compose (x : IdScheme) (sequence : Z) : result text IdRefusal :=
  let id := owned_prefix x ++ shown sequence in
  match IdRules.max_len (is_rules x) with
  | Some max =>
      if (max <? length id)%nat then Err (TooLong (length id) max)
      else match find (λ c, negb (IdRules.accepts (is_rules x) c)) (chars id) with
           | Some c => Err (BadCharacter c)
           | None => Ok id
           end
  | None => match find (λ c, negb (IdRules.accepts (is_rules x) c)) (chars id) with
            | Some c => Err (BadCharacter c)
            | None => Ok id
            end
  end.
Definition owns (x : IdScheme) id : bool := starts_with id (owned_prefix x).
End IdScheme.

(** * Whose an id is *)

Definition ours (prefix id : text) : bool := Book.is_ours (Book.owning prefix) id.
Definition composed (prefix separator : text) (n : Z) : text := prefix ++ separator ++ shown n.

Lemma digits_app s t : forallb is_digit (s ++ t) = forallb is_digit s && forallb is_digit t.
Proof. apply forallb_app. Qed.
Lemma shown_digits n : 0 ≤ n → shown n ≠ [] ∧ forallb is_digit (shown n) = true.
Proof. intros Hn. by destruct (shown_number n Hn) as (? & ? & _). Qed.

Lemma strip_prefix_some p s r : Book.strip_prefix p s = Some r ↔ s = p ++ r.
Proof.
  unfold Book.strip_prefix, starts_with. case_bool_decide as E; split.
  - intros [= <-]. by rewrite <-E at 1; rewrite take_drop.
  - intros ->. by rewrite drop_app_length.
  - done.
  - intros ->. by rewrite take_app_length in E.
Qed.
Lemma strip_prefix_none p s : Book.strip_prefix p s = None ↔ ∀ r, s ≠ p ++ r.
Proof.
  destruct (Book.strip_prefix p s) as [r|] eqn:E; split; try done.
  - rewrite strip_prefix_some in E. intros H. by destruct (H r).
  - intros _ r Hr. rewrite <-strip_prefix_some in Hr. congruence.
Qed.

(** The sequence left when the prefix, and a hyphen after it, are taken off. *)
Definition sequence_of s : text := default s (Book.strip_prefix [45] s).
Lemma sequence_of_cons b s : sequence_of (b :: s) = if b =? 45 then s else b :: s.
Proof.
  unfold sequence_of. destruct (Book.strip_prefix [45] (b :: s)) as [r|] eqn:E.
  - rewrite strip_prefix_some in E. cbn [app] in E. injection E as -> ->. done.
  - rewrite strip_prefix_none in E. destruct (Z.eqb_spec b 45) as [->|]; [|done]. by destruct (E s).
Qed.
Lemma ours_spec p id : p ≠ [] →
  ours p id = true ↔ ∃ r, id = p ++ r ∧ sequence_of r ≠ [] ∧ forallb is_digit (sequence_of r) = true.
Proof.
  intros Hp. unfold ours, Book.is_ours. cbn [bo_prefix Book.owning]. rewrite bool_decide_eq_false_2 by done.
  destruct (Book.strip_prefix p id) as [r|] eqn:E.
  - rewrite strip_prefix_some in E. subst id. fold (sequence_of r). rewrite andb_true_iff, negb_true_iff, bool_decide_eq_false. split.
    + intros [H1 H2]. by exists r.
    + intros (r' & E & H1 & H2). by apply (inj (app p)) in E as <-.
  - rewrite strip_prefix_none in E. split; [done|]. intros (r & -> & _). by destruct (E r).
Qed.

(** With a hyphen between prefix and sequence, another process's order is taken
    for one's own exactly when one's prefix is the other's, a hyphen and the
    first digits of its sequence. *)
Lemma hyphen_ours p q n : p ≠ [] → 0 ≤ n →
  ours p (composed q (text_of "-") n) = true ↔
  p = q ∨ ∃ d e, p = q ++ 45 :: d ∧ shown n = d ++ e ∧ e ≠ [].
Proof.
  intros Hp Hn. destruct (shown_digits n Hn) as [Hne Hd]. rewrite ours_spec by done. unfold composed.
  change (text_of "-") with [45]. cbn [app]. split.
  - intros (r & E & H1 & H2). apply app_eq_inv in E as [(k & -> & E)|(k & -> & E)]; swap 1 2.
    + (* the prefix is the longer *)
      destruct k as [|c k]; [left; by rewrite app_nil_r|]. simpl in E. injection E as <- E. right. exists k, r.
      split; [done|]. split; [done|]. by intros ->.
    + destruct k as [|c k]; [left; by rewrite app_nil_r|]. exfalso. rewrite E in H2. simpl in H2.
      rewrite sequence_of_cons in H2. destruct (c =? 45).
      * rewrite digits_app in H2. apply andb_true_iff in H2 as [_ H2]. done.
      * change (c :: k ++ 45 :: shown n) with ((c :: k) ++ 45 :: shown n) in H2. rewrite digits_app in H2.
        apply andb_true_iff in H2 as [_ H2]. done.
  - intros [->|(d & e & -> & E & He)].
    + exists (45 :: shown n). rewrite sequence_of_cons. done.
    + exists e. rewrite <-app_assoc. cbn [app]. rewrite E. split; [done|].
      rewrite E, digits_app in Hd. apply andb_true_iff in Hd as [_ Hd]. destruct e as [|b e]; [done|].
      simpl in Hd. apply andb_true_iff in Hd as [Hb He'].
      assert ((b =? 45) = false) as Hb' by (unfold is_digit in Hb; lia). rewrite sequence_of_cons, Hb'. simpl. by rewrite Hb, He'.
Qed.

(** Without one, a prefix of letters reads the orders of its own name only, or
    of its name with a hyphen, which such a venue does not take. *)
Lemma bare_ours p q n : p ≠ [] → 0 ≤ n → existsb is_digit p = false → existsb is_digit q = false →
  ours p (composed q [] n) = true ↔ q = p ∨ q = p ++ [45].
Proof.
  intros Hp Hn Hpd Hqd. destruct (shown_digits n Hn) as [Hne Hd]. rewrite ours_spec by done. unfold composed. cbn [app]. split.
  - intros (r & E & H1 & H2). apply app_eq_inv in E as [(k & -> & E)|(k & -> & E)]; swap 1 2.
    + destruct k as [|c k]; [left; by rewrite app_nil_r|]. exfalso. rewrite existsb_app in Hpd. apply orb_false_iff in Hpd as [_ Hpd].
      simpl in Hpd. apply orb_false_iff in Hpd as [Hc _]. rewrite E in Hd. simpl in Hd. apply andb_true_iff in Hd as [Hd _]. congruence.
    + destruct k as [|c k]; [left; by rewrite app_nil_r|]. right. rewrite existsb_app in Hqd. apply orb_false_iff in Hqd as [_ Hqd].
      simpl in Hqd. apply orb_false_iff in Hqd as [Hc Hk]. rewrite E in H2. simpl in H2. rewrite sequence_of_cons in H2.
      destruct (Z.eqb_spec c 45) as [->|Hc45].
      * destruct k as [|c k]; [done|]. simpl in Hk, H2. apply orb_false_iff in Hk as [Hk _]. apply andb_true_iff in H2 as [H2 _]. congruence.
      * simpl in H2. apply andb_true_iff in H2 as [H2 _]. congruence.
  - intros [-> | ->].
    + exists (shown n). destruct (shown n) as [|b s] eqn:Es; [done|]. rewrite sequence_of_cons.
      simpl in Hd. apply andb_true_iff in Hd as [Hb Hs]. assert ((b =? 45) = false) as -> by (unfold is_digit in Hb; lia).
      simpl. by rewrite Hb, Hs.
    + exists (45 :: shown n). rewrite <-app_assoc, sequence_of_cons. done.
Qed.

(** ** What a scheme composes, the venue takes *)

Lemma chars_loop_concat fuel : ∀ s, (length s ≤ fuel)%nat → concat (chars_loop fuel s) = s.
Proof.
  induction fuel as [|fuel IH]; intros s Hl; [by destruct s; [|simpl in Hl; lia]|]. destruct s as [|b s]; [done|].
  cbn [chars_loop concat]. rewrite IH, take_drop; [done|]. rewrite length_drop.
  assert (1 ≤ char_len b)%nat by (unfold char_len; repeat case_match; lia). simpl in *. lia.
Qed.
Lemma chars_concat s : concat (chars s) = s.
Proof. by apply chars_loop_concat. Qed.
Lemma find_none {A} (f : A → bool) l : find f l = None ↔ Forall (λ x, f x = false) l.
Proof.
  induction l as [|x l IH]; simpl; [done|]. rewrite Forall_cons, <-IH. destruct (f x) eqn:E; naive_solver.
Qed.
Lemma all_accepted n pa s : find (λ c, negb (IdRules.accepts (IdText n pa) c)) (chars s) = None →
  forallb (λ b, is_ascii_alphanumeric b || (pa && is_punctuation b)) s = true.
Proof.
  intros H. rewrite find_none in H. rewrite <-(chars_concat s). induction H as [|c l Hc _ IH]; [done|]. simpl.
  rewrite forallb_app, IH, andb_true_r. apply negb_false_iff in Hc. simpl in Hc. by apply andb_true_iff in Hc as [_ Hc].
Qed.
Lemma compose_accepted owner rules x code n id : IdScheme.new owner rules = Ok x →
  let x := match code with Some c => IdScheme.with_broker x c | None => x end in
  IdScheme.compose x n = Ok id →
  id = IdScheme.owned_prefix x ++ shown n ∧ IdRules.accepts rules id = true ∧ IdScheme.owns x id = true.
Proof.
  intros Hnew y H. unfold IdScheme.new in Hnew. case_bool_decide as Hne; [done|]. destruct rules as [len pa| |]; [|done|done].
  simpl in Hnew. destruct (find _ _); [done|]. injection Hnew as <-.
  assert (is_rules y = IdText len pa) as Er by by destruct code. unfold IdScheme.compose in H. rewrite Er in H.
  cbn [IdRules.max_len] in H. destruct (Nat.ltb_spec len (length (IdScheme.owned_prefix y ++ shown n))) as [|Hle]; [done|].
  destruct (find _ _) eqn:Ef; [done|]. injection H as <-. split; [done|].
  assert (IdScheme.owned_prefix y ≠ []) as Hp by (destruct code as [[|]|]; simpl; done).
  split.
  - cbn [IdRules.accepts]. rewrite (all_accepted _ _ _ Ef), andb_true_r, (proj2 (Nat.leb_le _ _)) by done.
    rewrite bool_decide_eq_false_2; [done|]. by destruct (IdScheme.owned_prefix y).
  - unfold IdScheme.owns, starts_with. apply bool_decide_eq_true_2. by rewrite take_app_length.
Qed.

(** C5. A process claims exactly its own orders.  With prefixes that start up
    accepts, and in which no hyphen stands, on a venue with or without a
    hyphen before the sequence: the ids of two processes are never equal,
    an id is taken for one's own exactly when one's own prefix wrote it, and
    what a scheme composes with its broker code is an id the venue takes and
    the scheme owns. *)
Theorem a_process_claims_its_own_orders rules p q n m x code k id
    (Hp : p ≠ [] ∧ 45 ∉ p) (Hq : q ≠ [] ∧ 45 ∉ q) (Hn : 0 ≤ n ∧ 0 ≤ m)
    (Hup : IdRules.prefix_is_unambiguous p (IdRules.separator rules) = true)
    (Huq : IdRules.prefix_is_unambiguous q (IdRules.separator rules) = true)
    (Hx : IdScheme.new p rules = Ok x)
    (Hid : IdScheme.compose (match code with Some c => IdScheme.with_broker x c | None => x end) k = Ok id) :
  (ours p (composed q (IdRules.separator rules) n) = true ↔ p = q) ∧
  (composed p (IdRules.separator rules) n = composed q (IdRules.separator rules) m → p = q ∧ n = m) ∧
  IdRules.accepts rules id = true ∧ starts_with id (match code with Some c => c ++ p | None => p end) = true.
Proof.
  destruct Hp as [Hp Hph], Hq as [Hq Hqh], Hn as [Hn Hm].
  assert (IdRules.separator rules = text_of "-" ∨ IdRules.separator rules = []) as Hsep by (destruct rules as [l []| |]; auto).
  assert (∀ p q n, p ≠ [] → 45 ∉ p → 45 ∉ q → 0 ≤ n → IdRules.prefix_is_unambiguous p (IdRules.separator rules) = true →
    IdRules.prefix_is_unambiguous q (IdRules.separator rules) = true → ours p (composed q (IdRules.separator rules) n) = true ↔ p = q) as Hours.
  { intros p' q' n' H1 H2 H3 H4 H5 H6. destruct Hsep as [Es|Es]; rewrite Es in *.
    - rewrite hyphen_ours by done. split; [|by left]. intros [?|(d & e & -> & _)]; [done|]. destruct H2. set_solver.
    - unfold IdRules.prefix_is_unambiguous in H5, H6. simpl in H5, H6. apply negb_true_iff in H5, H6.
      rewrite bare_ours by done. split; [|by left]. intros [?| ->]; [done|]. destruct H3. set_solver. }
  split; [by apply Hours|]. split.
  - intros E. assert (p = q) as ->.
    { apply (Hours p q m); try done. rewrite <-E. by apply Hours. }
    split; [done|]. by apply (inj (app q)), (inj (app _)), (inj shown) in E.
  - destruct (compose_accepted p rules x code k id Hx Hid) as (_ & Ha & Ho). split; [done|].
    unfold IdScheme.owns in Ho. unfold IdScheme.new in Hx. case_bool_decide; [done|]. destruct (negb _); [done|].
    destruct (find _ _); [done|]. injection Hx as <-. by destruct code.
Qed.

Lemma a_process_claims_its_own_orders_witness :
  ours (text_of "oq") (composed (text_of "oq2") (text_of "-") 7) = false ∧
  ours (text_of "oq") (composed (text_of "oq") (text_of "-") 7) = true ∧
  IdRules.accepts IdRules.BINANCE (text_of "xbrokeroq7") = true.
Proof.
  assert (∀ q, q = text_of "oq" ∨ q = text_of "oq2" → q ≠ [] ∧ 45 ∉ q) as Hq.
  { intros q [-> | ->]; (split; [discriminate|]); apply (proj1 (bool_decide_eq_false _)); vm_compute; reflexivity. }
  destruct (a_process_claims_its_own_orders IdRules.BINANCE (text_of "oq") (text_of "oq2") 7 7 (mkScheme None (text_of "oq") IdRules.BINANCE)
    (Some (text_of "xbroker")) 7 (text_of "xbrokeroq7") (Hq _ (or_introl eq_refl)) (Hq _ (or_intror eq_refl))
    ltac:(split; discriminate) ltac:(reflexivity) ltac:(reflexivity) ltac:(vm_compute; reflexivity) ltac:(vm_compute; reflexivity))
    as (H1 & _ & H3 & _).
  destruct (a_process_claims_its_own_orders IdRules.BINANCE (text_of "oq") (text_of "oq") 7 7 (mkScheme None (text_of "oq") IdRules.BINANCE)
    None 7 (text_of "oq7") (Hq _ (or_introl eq_refl)) (Hq _ (or_introl eq_refl))
    ltac:(split; discriminate) ltac:(reflexivity) ltac:(reflexivity) ltac:(vm_compute; reflexivity) ltac:(vm_compute; reflexivity))
    as (H2 & _).
  split; [|split; [apply H2; reflexivity|exact H3]].
  apply not_true_is_false. intros E. apply H1 in E. vm_compute in E. discriminate E.
Defined.

(** A prefix with a hyphen and digits in it passes every check at start up, and
    takes the orders of another process for its own: the hyphen the venue takes
    does not separate them. *)
Lemma hyphenated_prefix_claims_anothers :
  IdScheme.new (text_of "oq-1") IdRules.BINANCE = Ok (mkScheme None (text_of "oq-1") IdRules.BINANCE) ∧
  IdRules.prefix_is_unambiguous (text_of "oq-1") (IdRules.separator IdRules.BINANCE) = true ∧
  ours (text_of "oq-1") (composed (text_of "oq") (IdRules.separator IdRules.BINANCE) 1750000000000000001) = true.
Proof. by vm_compute. Qed.
