(* ===== verification/Latency.v ===== *)
(** The latency histogram ([oq-live/src/latency.rs]): what it keeps of a list
    of measurements, and how far a reported percentile is from the true one. *)

From stdpp Require Import list strings sorting.
From Stdlib Require Import Floats.SpecFloat.
From S2P Require Import Prelude Text Floats.
#[local] Open Scope Z_scope.

(** * Data *)

Definition SUB_BUCKETS : Z := 128.
Definition SUB_BITS : Z := 7.
Definition ROWS : Z := 64 - SUB_BITS + 1.

(** [buckets] are [u64]s, and so are the rest but [total], a [u128]. *)
Record Latency := mkLatency { lt_buckets : list Z; lt_count : Z; lt_total : Z; lt_min : Z; lt_max : Z }.

Definition u128 (z : Z) : Prop := 0 ≤ z < 2 ^ 128.
#[export] Instance u128_dec z : Decision (u128 z).
Proof. unfold u128; apply _. Defined.

Module Latency.
Definition new : Latency := mkLatency (replicate (Z.to_nat (SUB_BUCKETS * ROWS)) 0) 0 0 U64_MAX 0.

(** [63 - leading_zeros] of a positive [u64] is its binary logarithm. *)
Definition index (ns : Z) : Z :=
  if ns <? SUB_BUCKETS then ns
  else
    let magnitude := Z.log2 ns in
    let shift := magnitude - SUB_BITS in
    let sub := Z.shiftr ns shift - SUB_BUCKETS in
    let row := magnitude - SUB_BITS + 1 in
    Z.min (row * SUB_BUCKETS + sub) (SUB_BUCKETS * ROWS - 1).

Definition value_at (i : Z) : Z :=
  if i <? SUB_BUCKETS then i
  else
    let row := i / SUB_BUCKETS in
    let sub := i mod SUB_BUCKETS in
    Z.shiftl (SUB_BUCKETS + sub) (row - 1).

Definition record (h : Latency) (ns : Z) : run Latency :=
  let i := Z.to_nat (index ns) in
  b ← expect (lt_buckets h !! i);
  b ← chku64 (b + 1);
  c ← chku64 (lt_count h + 1);
  t ← chk u128 (lt_total h + ns);
  mret (mkLatency (<[i := b]> (lt_buckets h)) c t (Z.min (lt_min h) ns) (Z.max (lt_max h) ns)).

Definition count (h : Latency) : Z := lt_count h.
Definition max (h : Latency) : option Z := if lt_count h =? 0 then None else Some (lt_max h).
Definition min (h : Latency) : option Z := if lt_count h =? 0 then None else Some (lt_min h).
Definition mean (h : Latency) : option spec_float :=
  if 0 <? lt_count h then Some (F64.div (F64.of_int (lt_total h)) (F64.of_int (lt_count h))) else None.

(** The rank a quantile asks for, and the loop that finds its bucket; [seen]
    cannot overflow, being at most the count. *)
Definition rank (q : spec_float) (n : Z) : Z :=
  F64.to_u64 (F64.max (F64.ceil (F64.mul q (F64.of_int n))) F64.one).
Fixpoint find_bucket (bs : list Z) (i seen target : Z) : option Z :=
  match bs with
  | [] => None
  | n :: bs => if target <=? seen + n then Some i else find_bucket bs (i + 1) (seen + n) target
  end.
Definition quantile (h : Latency) (q : spec_float) : option Z :=
  if (lt_count h =? 0) || negb (F64.leb F64.zero q && F64.leb q F64.one) then None
  else
    match find_bucket (lt_buckets h) 0 0 (rank q (lt_count h)) with
    | Some i => Some (value_at i)
    | None => Some (lt_max h)
    end.

(** [0.50], [0.99] and [0.999]. *)
Definition P50 : spec_float := F64.of_decimal false 50 (-2).
Definition P99 : spec_float := F64.of_decimal false 99 (-2).
Definition P999 : spec_float := F64.of_decimal false 999 (-3).
Definition micros (ns : Z) : text := shown (ns / 1000) ++ [194; 181; 115].
Definition summary (h : Latency) : text :=
  match quantile h P50 with
  | None => text_of "no measurements"
  | Some p50 =>
      text_of "n=" ++ shown (lt_count h) ++ text_of " p50=" ++ micros p50 ++
      text_of " p99=" ++ micros (default 0 (quantile h P99)) ++
      text_of " p999=" ++ micros (default 0 (quantile h P999)) ++ text_of " max=" ++ micros (lt_max h)
  end.
End Latency.

(** * Buckets *)

Lemma shiftr_row ns : 128 ≤ ns → 128 ≤ Z.shiftr ns (Z.log2 ns - 7) < 256.
Proof.
  intros H. pose proof (Z.log2_spec ns ltac:(lia)) as [H1 H2].
  assert (7 ≤ Z.log2 ns) by (change 7 with (Z.log2 128); by apply Z.log2_le_mono).
  rewrite Z.shiftr_div_pow2 by lia.
  replace (2 ^ Z.log2 ns) with (128 * 2 ^ (Z.log2 ns - 7)) in H1
    by (change 128 with (2 ^ 7); rewrite <-Z.pow_add_r by lia; f_equal; lia).
  rewrite Z.pow_succ_r in H2 by lia.
  replace (2 ^ Z.log2 ns) with (128 * 2 ^ (Z.log2 ns - 7)) in H2
    by (change 128 with (2 ^ 7); rewrite <-Z.pow_add_r by lia; f_equal; lia).
  split; [apply Z.div_le_lower_bound|apply Z.div_lt_upper_bound]; lia.
Qed.

(** The clamp at the last bucket never acts. *)
Lemma index_large ns : 128 ≤ ns → u64 ns →
  Latency.index ns = (Z.log2 ns - 6) * 128 + (Z.shiftr ns (Z.log2 ns - 7) - 128) ∧ 7 ≤ Z.log2 ns ≤ 63.
Proof.
  intros H Hu. pose proof (shiftr_row ns H).
  assert (7 ≤ Z.log2 ns) by (change 7 with (Z.log2 128); by apply Z.log2_le_mono).
  assert (Z.log2 ns ≤ 63) by (assert (Z.log2 ns < 64); [apply Z.log2_lt_pow2; unfold u64 in Hu; lia|lia]).
  unfold Latency.index, ROWS, SUB_BUCKETS, SUB_BITS. rewrite (proj2 (Z.ltb_ge _ _)) by done. split; [lia|done].
Qed.
Lemma index_range ns : u64 ns → 0 ≤ Latency.index ns < SUB_BUCKETS * ROWS.
Proof.
  intros Hu. destruct (Z.lt_ge_cases ns 128) as [H|H].
  - unfold Latency.index, ROWS, SUB_BUCKETS, SUB_BITS. rewrite (proj2 (Z.ltb_lt _ _)) by done. unfold u64 in Hu. lia.
  - destruct (index_large ns H Hu) as [-> ?]. pose proof (shiftr_row ns H). unfold ROWS, SUB_BUCKETS, SUB_BITS. lia.
Qed.

(** A bucket's value is below every measurement in it, by one part in 128 at
    most. *)
Lemma value_at_index ns : u64 ns →
  Latency.value_at (Latency.index ns) ≤ ns ∧ (ns - Latency.value_at (Latency.index ns)) * 128 ≤ Latency.value_at (Latency.index ns).
Proof.
  intros Hu. destruct (Z.lt_ge_cases ns 128) as [H|H].
  { assert ((ns <? 128) = true) as E by lia. unfold Latency.value_at, Latency.index, SUB_BUCKETS. rewrite !E.
    unfold u64 in Hu. lia. }
  destruct (index_large ns H Hu) as [-> [H1 H2]]. pose proof (shiftr_row ns H) as Hs.
  unfold Latency.value_at, SUB_BUCKETS. rewrite (proj2 (Z.ltb_ge _ _)) by lia.
  set (s := Z.shiftr ns (Z.log2 ns - 7)) in *.
  assert (((Z.log2 ns - 6) * 128 + (s - 128)) / 128 = Z.log2 ns - 6) as ->.
  { symmetry. apply (Z.div_unique_pos _ _ _ (s - 128)); lia. }
  assert (((Z.log2 ns - 6) * 128 + (s - 128)) mod 128 = s - 128) as ->.
  { symmetry. apply (Z.mod_unique_pos _ _ (Z.log2 ns - 6)); lia. }
  replace (128 + (s - 128)) with s by lia. replace (Z.log2 ns - 6 - 1) with (Z.log2 ns - 7) by lia.
  rewrite Z.shiftl_mul_pow2 by lia. unfold s in *. rewrite Z.shiftr_div_pow2 in * by lia.
  assert (0 < 2 ^ (Z.log2 ns - 7)) by (apply Z.pow_pos_nonneg; lia).
  pose proof (Z.div_mod ns (2 ^ (Z.log2 ns - 7)) ltac:(lia)). pose proof (Z.mod_pos_bound ns (2 ^ (Z.log2 ns - 7)) ltac:(lia)).
  nia.
Qed.

Lemma index_mono a b : u64 a → u64 b → a ≤ b → Latency.index a ≤ Latency.index b.
Proof.
  intros Ha Hb Hab. destruct (Z.lt_ge_cases b 128) as [H|H].
  { unfold Latency.index, SUB_BUCKETS. by rewrite (proj2 (Z.ltb_lt a 128)), (proj2 (Z.ltb_lt b 128)) by lia. }
  destruct (index_large b H Hb) as [-> [? ?]]. pose proof (shiftr_row b H). destruct (Z.lt_ge_cases a 128) as [H'|H'].
  { unfold Latency.index, SUB_BUCKETS. rewrite (proj2 (Z.ltb_lt _ _)) by lia. lia. }
  destruct (index_large a H' Ha) as [-> [? ?]]. pose proof (shiftr_row a H').
  pose proof (Z.log2_le_mono a b Hab). destruct (decide (Z.log2 a = Z.log2 b)) as [E|]; [|lia].
  rewrite E. assert (Z.shiftr a (Z.log2 b - 7) ≤ Z.shiftr b (Z.log2 b - 7)); [|lia].
  rewrite !Z.shiftr_div_pow2 by lia. apply Z.div_le_mono; [apply Z.pow_pos_nonneg; lia|done].
Qed.

(** * What a histogram keeps *)

Fixpoint records (h : Latency) (l : list Z) : run Latency :=
  match l with [] => mret h | ns :: l => h ← Latency.record h ns; records h l end.
Definition tally (i : nat) (l : list Z) : Z := Z.of_nat (length (filter (λ ns, Z.to_nat (Latency.index ns) = i) l)).
Record holds (h : Latency) (l : list Z) : Prop := {
  ho_u64 : Forall u64 l;
  ho_length : length (lt_buckets h) = Z.to_nat (SUB_BUCKETS * ROWS);
  ho_buckets : ∀ i b, lt_buckets h !! i = Some b → b = tally i l;
  ho_count : lt_count h = Z.of_nat (length l);
  ho_total : lt_total h = zsum l;
  ho_min : lt_min h = foldr Z.min U64_MAX l;
  ho_max : lt_max h = foldr Z.max 0 l;
}.

Lemma new_holds : holds Latency.new [].
Proof.
  split; try done. intros i b Hb. by apply lookup_replicate in Hb as [-> _].
Qed.
Lemma foldr_snoc {A B} (f : A → B → B) b l x : foldr f b (l ++ [x]) = foldr f (f x b) l.
Proof. apply foldr_app. Qed.
Lemma min_snoc l x b : foldr Z.min b (l ++ [x]) = Z.min (foldr Z.min b l) x.
Proof. rewrite foldr_snoc. induction l; simpl; lia. Qed.
Lemma max_snoc l x b : foldr Z.max b (l ++ [x]) = Z.max (foldr Z.max b l) x.
Proof. rewrite foldr_snoc. induction l; simpl; lia. Qed.

Lemma record_holds h l ns h' : holds h l → u64 ns → Latency.record h ns = Ret h' → holds h' (l ++ [ns]).
Proof.
  intros [Hu Hl Hb Hc Ht Hmin Hmax] Hn H. unfold Latency.record in H. inv_run.
  apply chk_inv in E0 as [-> _]. apply chk_inv in E1 as [-> _]. apply chk_inv in E2 as [-> _].
  destruct (lt_buckets h !! _) as [b|] eqn:Eb; [|done]. injection E as <-.
  split; simpl.
  - by apply Forall_app_2; [|apply Forall_singleton].
  - by rewrite length_insert.
  - intros i c Hi. unfold tally. rewrite filter_app, length_app, filter_cons, filter_nil.
    destruct (decide (Z.to_nat (Latency.index ns) = i)) as [<-|Hne].
    + rewrite list_lookup_insert_eq in Hi by (by eapply lookup_lt_Some). injection Hi as <-.
      rewrite (Hb _ _ Eb). unfold tally. simpl. lia.
    + rewrite list_lookup_insert_ne in Hi by done. rewrite (Hb _ _ Hi). unfold tally. simpl. lia.
  - rewrite length_app. simpl. lia.
  - rewrite zsum_app. simpl. lia.
  - by rewrite min_snoc, Hmin.
  - by rewrite max_snoc, Hmax.
Qed.
Lemma records_holds l : ∀ h k h', holds h k → Forall u64 l → records h l = Ret h' → holds h' (k ++ l).
Proof.
  induction l as [|ns l IH]; intros h k h' Hh Hl H; simpl in H.
  { injection H as <-. by rewrite app_nil_r. }
  apply bind_ret in H as (h1 & H1 & H). apply Forall_cons in Hl as [? ?].
  change (ns :: l) with ([ns] ++ l). rewrite (app_assoc k). eapply IH; [|done|exact H]. by eapply record_holds.
Qed.

(** Nothing is refused: a measurement panics only when a counter is full. *)
Lemma record_returns h l ns : holds h l → u64 ns → Z.of_nat (length l) < U64_MAX → zsum l + ns < 2 ^ 128 →
  ∃ h', Latency.record h ns = Ret h'.
Proof.
  intros [Hu Hl Hb Hc Ht _ _] Hn Hcnt Htot. pose proof (index_range ns Hn) as Hi. unfold Latency.record.
  destruct (lookup_lt_is_Some_2 (lt_buckets h) (Z.to_nat (Latency.index ns))) as [b Eb]; [rewrite Hl; lia|].
  rewrite Eb. cbn [expect mbind run_bind].
  assert (0 ≤ b ≤ Z.of_nat (length l)) as Hbb.
  { rewrite (Hb _ _ Eb). unfold tally. pose proof (length_filter (λ x, Z.to_nat (Latency.index x) = Z.to_nat (Latency.index ns)) l). lia. }
  assert (0 ≤ zsum l) by (clear -Hu; induction Hu; simpl; unfold u64 in *; lia).
  rewrite (chk_ret u64 (b + 1)) by (unfold u64; lia). cbn [mbind run_bind].
  rewrite (chk_ret u64 (lt_count h + 1)) by (unfold u64; lia). cbn [mbind run_bind].
  rewrite (chk_ret u128) by (unfold u128, u64 in *; lia). by eexists.
Qed.

(** * Percentiles *)

(** Measurements in the buckets below the [i]th. *)
Definition below (i : Z) (l : list Z) : Z := Z.of_nat (length (filter (λ ns, Latency.index ns < i) l)).

Lemma below_succ i l : Forall u64 l → 0 ≤ i → below (i + 1) l = below i l + tally (Z.to_nat i) l.
Proof.
  intros Hl Hi. induction Hl as [|ns l Hn _ IH]; [done|]. pose proof (index_range ns Hn).
  unfold below, tally in *. rewrite !filter_cons. repeat case_decide; simpl; lia.
Qed.
Lemma below_zero l : Forall u64 l → below 0 l = 0.
Proof.
  intros Hl. induction Hl as [|ns l Hn _ IH]; [done|]. pose proof (index_range ns Hn).
  unfold below in *. rewrite filter_cons. case_decide; [lia|done].
Qed.

Lemma find_bucket_spec l target bs : ∀ i, Forall u64 l → 0 ≤ i →
  (∀ j b, bs !! j = Some b → b = tally (Z.to_nat i + j) l) →
  match Latency.find_bucket bs i (below i l) target with
  | Some k => target ≤ below (k + 1) l ∧ (i < k → below k l < target) ∧ i ≤ k
  | None => ∀ k, i < k ≤ i + Z.of_nat (length bs) → below k l < target
  end.
Proof.
  induction bs as [|b bs IH]; intros i Hl Hi Hb; simpl; [lia|].
  rewrite (Hb 0%nat b eq_refl), Nat.add_0_r, <-below_succ by done.
  destruct (Z.leb_spec target (below (i + 1) l)) as [Hle|Hgt]; [lia|].
  assert (∀ j c, bs !! j = Some c → c = tally (Z.to_nat (i + 1) + j) l) as Hb'.
  { intros j c Hj. rewrite (Hb (S j) c Hj). f_equal. lia. }
  specialize (IH (i + 1) Hl ltac:(lia) Hb').
  destruct (Latency.find_bucket _ _ _ _) as [k|].
  - destruct IH as (? & H & ?). split_and!; [done| |lia]. intros _. destruct (decide (k = i + 1)) as [->|]; [done|apply H; lia].
  - intros k Hk. destruct (decide (k = i + 1)) as [->|]; [done|]. apply IH. lia.
Qed.

Lemma below_perm i l l' : Permutation l l' → below i l = below i l'.
Proof. intros H. unfold below. by rewrite H. Qed.

(** In a sorted list, the buckets below a bound are a prefix. *)
Lemma below_sorted i l n x : Sorted Z.le l → Forall u64 l → l !! n = Some x →
  (Latency.index x < i → Z.of_nat n < below i l) ∧ (i ≤ Latency.index x → below i l ≤ Z.of_nat n).
Proof.
  intros Hs%Sorted_StronglySorted Hu; [|intros ???; lia]. revert n. induction Hs as [|y l _ IH Hy]; intros n Hn; [done|].
  apply Forall_cons in Hu as [Huy Hu]. unfold below in *. rewrite filter_cons.
  destruct n as [|n]; simpl in Hn.
  - injection Hn as ->. split; intros Hi; case_decide; simpl; try lia.
    assert (filter (λ ns, Latency.index ns < i) l = []) as ->; [|done].
    clear IH. induction l as [|z l IHl]; [done|]; apply Forall_cons in Hu as [? ?]; apply Forall_cons in Hy as [? ?].
    pose proof (index_mono x z ltac:(done) ltac:(done) ltac:(done)); rewrite filter_cons; case_decide; [lia|by apply IHl].
  - assert (Latency.index y ≤ Latency.index x) as Hyx.
    { apply index_mono; [done| |]; eapply Forall_lookup_1; [exact Hu| |exact Hy|]; done. }
    destruct (IH Hu n Hn) as [H1 H2]. split; intros Hi; case_decide; simpl; lia.
Qed.

Lemma least_first l l' x : Sorted Z.le l' → Permutation l l' → Forall u64 l → l' !! 0%nat = Some x →
  foldr Z.min U64_MAX l = x.
Proof.
  intros Hs Hp Hu Hx. assert (foldr Z.min U64_MAX l = foldr Z.min U64_MAX l') as ->.
  { clear -Hp. induction Hp; simpl; lia. }
  rewrite Hp in Hu. destruct l' as [|y l']; [done|]. injection Hx as ->. apply Forall_cons in Hu as [Hx Hu].
  apply Sorted_StronglySorted in Hs; [|intros ???; lia]. apply StronglySorted_inv in Hs as [_ Hall].
  simpl. assert (x ≤ foldr Z.min U64_MAX l') as H; [|lia]. clear -Hall Hx. induction Hall; simpl; unfold u64 in *; lia.
Qed.
Lemma greatest_last l l' x : Sorted Z.le l' → Permutation l l' → Forall u64 l → last l' = Some x →
  foldr Z.max 0 l = x.
Proof.
  intros Hs Hp Hu Hx. assert (foldr Z.max 0 l = foldr Z.max 0 l') as ->.
  { clear -Hp. induction Hp; simpl; lia. }
  rewrite Hp in Hu. apply Sorted_StronglySorted in Hs; [|intros ???; lia]. clear Hp l.
  induction Hs as [|y l _ IH Hy]; [done|]. apply Forall_cons in Hu as [Hyu Hu]. destruct l as [|z l].
  - injection Hx as ->. simpl. unfold u64 in *. lia.
  - rewrite last_cons_cons in Hx. change (foldr Z.max 0 (y :: z :: l)) with (Z.max y (foldr Z.max 0 (z :: l))).
    rewrite (IH Hu Hx). apply last_Some_elem_of in Hx. rewrite Forall_forall in Hy. specialize (Hy x Hx). lia.
Qed.

Lemma quantile_finds h l l' q x : holds h l → l ≠ [] → Sorted Z.le l' → Permutation l l' →
  (F64.leb F64.zero q && F64.leb q F64.one) = true →
  1 ≤ Latency.rank q (Z.of_nat (length l)) → l' !! Z.to_nat (Latency.rank q (Z.of_nat (length l)) - 1) = Some x →
  Latency.quantile h q = Some (Latency.value_at (Latency.index x)).
Proof.
  intros [Hu Hl Hb Hc _ _ _] Hne Hs Hp Hq Ht Hx. unfold Latency.quantile. rewrite Hc.
  assert (Z.of_nat (length l) ≠ 0) as Hn by (destruct l; [done|simpl; lia]).
  rewrite (proj2 (Z.eqb_neq _ _) Hn), Hq. cbn [orb negb]. set (t := Latency.rank q _) in *.
  assert (Forall u64 l') as Hu' by by rewrite <-Hp.
  assert (u64 x) as Hux by (by eapply Forall_lookup_1).
  pose proof (index_range x Hux) as Hix.
  assert (below 0 l = 0) as E0 by by apply below_zero.
  pose proof (find_bucket_spec l t (lt_buckets h) 0 Hu ltac:(lia)) as Hf. rewrite E0 in Hf.
  assert (∀ j b, lt_buckets h !! j = Some b → b = tally (Z.to_nat 0 + j) l) as Hb' by (intros j b Hj; simpl; by apply Hb).
  specialize (Hf Hb'). pose proof (below_sorted (Latency.index x + 1) l' _ x Hs Hu' Hx) as [H1 _].
  pose proof (below_sorted (Latency.index x) l' _ x Hs Hu' Hx) as [_ H2].
  rewrite <-(below_perm _ _ _ Hp) in H1. rewrite <-(below_perm _ _ _ Hp) in H2. specialize (H1 ltac:(lia)). specialize (H2 ltac:(lia)).
  rewrite Z2Nat.id in H1, H2 by lia. destruct (Latency.find_bucket _ _ _ _) as [k|].
  - destruct Hf as (Hk1 & Hk2 & Hk0). f_equal. f_equal.
    assert (∀ i j, i ≤ j → below i l ≤ below j l) as Hmono.
    { intros i j Hij. unfold below. apply Nat2Z.inj_le, sublist_length.
      clear -Hij. induction l as [|a l IH]; [constructor|]. rewrite !filter_cons.
      repeat case_decide; try lia; first [exact IH|by constructor]. }
    destruct (Z.lt_trichotomy k (Latency.index x)) as [Hlt|[Heq|Hgt]]; [|done|].
    + pose proof (Hmono (k + 1) (Latency.index x) ltac:(lia)). lia.
    + pose proof (Hmono (Latency.index x + 1) k ltac:(lia)). lia.
  - specialize (Hf (Latency.index x + 1)). rewrite Hl in Hf.
    assert (below (Latency.index x + 1) l < t); [apply Hf; lia|lia].
Qed.

(** A percentile is the true one, rounded down by less than a part in 128.
    Whatever is measured, the histogram counts every measurement once, keeps
    their exact total, least and greatest, and reports as a quantile the
    measurement of that rank, in the order of size, never above it and never
    below it by more than a 128th; a rank past the last measurement is the
    greatest; and nothing measured is no percentile, not zero. *)
Theorem quantile_is_the_order_statistic l h q
    (Hl : Forall u64 l) (H : records Latency.new l = Ret h) :
  Latency.count h = Z.of_nat (length l) ∧ lt_total h = zsum l ∧
  (l = [] → Latency.quantile h q = None ∧ Latency.max h = None ∧ Latency.min h = None) ∧
  (l ≠ [] → (F64.leb F64.zero q && F64.leb q F64.one) = true →
   let sorted := merge_sort Z.le l in let t := Latency.rank q (Z.of_nat (length l)) in
   (∀ x, sorted !! 0%nat = Some x → Latency.min h = Some x) ∧
   (∀ x, last sorted = Some x → Latency.max h = Some x) ∧
   (1 ≤ t ≤ Z.of_nat (length l) → ∃ x v, sorted !! Z.to_nat (t - 1) = Some x ∧ Latency.quantile h q = Some v ∧
      v ≤ x ∧ (x - v) * 128 ≤ v) ∧
   (Z.of_nat (length l) < t → Latency.quantile h q = Latency.max h)).
Proof.
  assert (holds h l) as Hh by (by apply (records_holds l Latency.new [] h); [apply new_holds|..]).
  pose proof Hh as [_ Hlen Hb Hc Ht Hmin Hmax]. split; [done|]. split; [done|]. split.
  { intros ->. unfold Latency.quantile, Latency.max, Latency.min. by rewrite Hc. }
  intros Hne Hq sorted t.
  assert (Sorted Z.le sorted) as Hs by (apply Sorted_merge_sort; intros ??; lia).
  assert (Permutation l sorted) as Hp by (symmetry; apply merge_sort_Permutation).
  assert ((Z.of_nat (length l) =? 0) = false) as En by (destruct l; [done|simpl; lia]).
  split_and!.
  - intros x Hx. unfold Latency.min. rewrite Hc, En, Hmin. f_equal. by eapply least_first.
  - intros x Hx. unfold Latency.max. rewrite Hc, En, Hmax. f_equal. by eapply greatest_last.
  - intros Ht1. destruct (lookup_lt_is_Some_2 sorted (Z.to_nat (t - 1))) as [x Hx]; [rewrite <-Hp; lia|].
    exists x, (Latency.value_at (Latency.index x)). split; [done|].
    split; [eapply quantile_finds; [done|done|exact Hs|exact Hp|done| |done]; unfold t in Ht1; lia|].
    apply value_at_index. rewrite Hp in Hl. by eapply Forall_lookup_1.
  - intros Hgt. unfold Latency.quantile, Latency.max. rewrite Hc, En, Hq. cbn [orb negb]. fold t.
    destruct (Latency.find_bucket _ _ _ _) as [k|] eqn:Ef; [|done]. exfalso.
    pose proof (find_bucket_spec l t (lt_buckets h) 0 Hl ltac:(lia)) as Hf. rewrite below_zero in Hf by done.
    rewrite Ef in Hf. destruct Hf as [Hf _]; [intros j b Hj; simpl; by apply Hb|].
    unfold below in Hf. pose proof (length_filter (λ ns, Latency.index ns < k + 1) l). lia.
Qed.

Definition demo_latencies : list Z := [250; 90; 7000; 120; 40000].
Definition demo_histogram : Latency := match records Latency.new demo_latencies with Ret h => h | _ => Latency.new end.
Lemma demo_histogram_records : records Latency.new demo_latencies = Ret demo_histogram.
Proof. vm_compute. reflexivity. Qed.
Lemma demo_summary : Latency.summary demo_histogram = text_of "n=5 p50=0" ++ [194; 181] ++ text_of "s p99=39" ++
  [194; 181] ++ text_of "s p999=39" ++ [194; 181] ++ text_of "s max=40" ++ [194; 181] ++ text_of "s".
Proof. vm_compute. reflexivity. Qed.
Lemma quantile_is_the_order_statistic_witness :
  records Latency.new demo_latencies = Ret demo_histogram ∧ Latency.rank Latency.P50 (Z.of_nat (length demo_latencies)) = 3 ∧
  ∃ v, Latency.quantile demo_histogram Latency.P50 = Some v ∧ v ≤ 250 ∧ (250 - v) * 128 ≤ v.
Proof.
  assert (Forall u64 demo_latencies) as Hd by (repeat constructor; vm_compute; discriminate).
  assert (Latency.rank Latency.P50 (Z.of_nat (length demo_latencies)) = 3) as Er by by vm_compute.
  split; [exact demo_histogram_records|]. split; [exact Er|].
  destruct (quantile_is_the_order_statistic demo_latencies demo_histogram Latency.P50 Hd demo_histogram_records) as (_ & _ & _ & H).
  destruct (H ltac:(discriminate) ltac:(by vm_compute)) as (_ & _ & Hq & _).
  rewrite Er in Hq. destruct (Hq ltac:(vm_compute; split; discriminate)) as (x & v & Ex & Ev & Hv).
  vm_compute in Ex. injection Ex as <-. exists v. split; [exact Ev|exact Hv].
Defined.
