(* ===== verification/LiveRecord.v ===== *)
(** The records of a live session ([oq-live/src/record.rs]).

    A text is its bytes; [utf8] is the check [String::from_utf8] makes. *)

From S2P Require Import Prelude Bytes Text Types Order Instrument Margin Tick Depth Event Codec.
From S2P Require Import Matcher Kernel.

Implicit Types (bs : list Z) (s : text).

(** * Data *)

Record ScheduleGap := mkGap { since_ms : Z; until_ms : option Z }.
Record FundingObligations := mkObligations {
  pending_ms : list Z; schedule_gaps : list ScheduleGap; problem : option text;
}.

Inductive OutcomeTag := OAccepted | ORejected | OUnknown.

Inductive LiveRecord :=
| RecSessionStart (prefix symbol : text) (ps qs : Z)
| RecTick (at_ seen : Nanos) (last bid ask : PriceTicks) (volume : QtyLots)
| RecSubmitted (at_ : Nanos) (client_id : text) (side : Side) (limit_price : PriceTicks) (qty : QtyLots)
    (reduce_only : bool) (leg : text)
| RecOutcome (at_ : Nanos) (client_id : text) (tag : OutcomeTag) (detail : text)
| RecCancelled (at_ : Nanos) (client_id : text)
| RecFill (at_ : Nanos) (client_id : text) (trade_id : Z) (qty price : text) (order : Z) (side : text)
| RecRefused (at_ : Nanos) (breach : text)
| RecReconciled (at_ : Nanos) (legs : list (text * text * Z * Z))
| RecWaiting (at_ : Nanos) (entries : list (text * Z))
| RecOperator (at_ : Nanos) (command reason origin outcome : text)
| RecFunding (at_ : Nanos) (settled_ms : Z) (rate mark : text) (venue model : Cash) (verified : bool)
| RecFundingEvidence (at_ : Nanos) (settled_ms : Z) (rate mark : text) (venue model : Cash) (verified : bool)
    (lines : list (Z * Z * Cash))
| RecFundingRecovered (at_ : Nanos) (since through : Z) (lines : list (Z * Z * Cash))
| RecFundingState (at_ : Nanos) (obligations : FundingObligations)
| RecFeeEvidence (at_ : Nanos) (source_ms : Z) (fill : Fill) (amount : Cash)
| RecExecution (client_id : text) (fill : Fill) (fee : Fee)
| RecLedgerStart (at_ : Nanos) (instrument_id : InstrumentId) (instrument : Instrument) (tick_cash : Z)
    (balance : Cash) (mode : PositionMode).

Module Rec.
Definition SESSION_START : Z := 1.
Definition TICK : Z := 2.
Definition SUBMITTED : Z := 3.
Definition OUTCOME : Z := 4.
Definition FILL : Z := 5.
Definition REFUSED : Z := 6.
Definition RECONCILED : Z := 7.
Definition WAITING : Z := 8.
Definition CANCELLED : Z := 9.
Definition OPERATOR : Z := 10.
Definition FUNDING : Z := 11.
Definition EXECUTION : Z := 12.
Definition LEDGER_START : Z := 13.
Definition FUNDING_EVIDENCE : Z := 14.
Definition FUNDING_RECOVERED : Z := 15.
Definition FUNDING_STATE : Z := 16.
Definition FEE_EVIDENCE : Z := 17.

Definition is_observation (r : LiveRecord) : bool :=
  match r with RecTick _ _ _ _ _ _ | RecWaiting _ _ => true | _ => false end.

Definition kind (r : LiveRecord) : Z :=
  match r with
  | RecSessionStart _ _ _ _ => SESSION_START
  | RecTick _ _ _ _ _ _ => TICK
  | RecSubmitted _ _ _ _ _ _ _ => SUBMITTED
  | RecOutcome _ _ _ _ => OUTCOME
  | RecFill _ _ _ _ _ _ _ => FILL
  | RecRefused _ _ => REFUSED
  | RecCancelled _ _ => CANCELLED
  | RecReconciled _ _ => RECONCILED
  | RecWaiting _ _ => WAITING
  | RecOperator _ _ _ _ _ => OPERATOR
  | RecFunding _ _ _ _ _ _ _ => FUNDING
  | RecFundingEvidence _ _ _ _ _ _ _ _ => FUNDING_EVIDENCE
  | RecFundingRecovered _ _ _ _ => FUNDING_RECOVERED
  | RecFundingState _ _ => FUNDING_STATE
  | RecFeeEvidence _ _ _ _ => FEE_EVIDENCE
  | RecExecution _ _ _ => EXECUTION
  | RecLedgerStart _ _ _ _ _ _ => LEDGER_START
  end.

(** * Encoding *)

Definition put_i64 (v : Z) : list Z := le 8 v.
Definition put_u8 (v : Z) : list Z := [v].
Definition put_bool (b : bool) : list Z := [u8_of_bool b].
(** A text longer than a [u32] is cut at that length. *)
Definition put_str (s : text) : list Z :=
  let len := Z.min (Z.of_nat (length s)) U32_MAX in le 4 len ++ take (Z.to_nat len) s.
(** [i64::try_from(len)]: a list in memory is never that long. *)
Definition put_len {A} (l : list A) : list Z := put_i64 (Z.of_nat (length l)).

Definition tag_byte (t : OutcomeTag) : Z := match t with OAccepted => 1 | ORejected => 2 | OUnknown => 3 end.
Definition from_u8 (v : Z) : option OutcomeTag :=
  if v =? 1 then Some OAccepted else if v =? 2 then Some ORejected else if v =? 3 then Some OUnknown else None.

Definition put_line (l : Z * Z * Cash) : list Z := put_i64 l.1.1 ++ put_i64 l.1.2 ++ put_i64 l.2.
Definition put_leg (l : text * text * Z * Z) : list Z :=
  put_str l.1.1.1 ++ put_str l.1.1.2 ++ put_i64 l.1.2 ++ put_i64 l.2.
Definition put_entry (e : text * Z) : list Z := put_str e.1 ++ put_i64 e.2.
Definition put_gap (g : ScheduleGap) : list Z :=
  put_i64 (since_ms g) ++ match until_ms g with Some u => put_u8 1 ++ put_i64 u | None => put_u8 0 end.
Definition put_all {A} (put : A → list Z) (l : list A) : list Z := concat (put <$> l).
(** The fill as the kernel's journal writes it, behind its length. *)
Definition put_fill (f : Fill) (fee : Fee) : list Z :=
  let payload := Codec.encode (EVenueFill f fee) in le 4 (Z.of_nat (length payload)) ++ payload.

Definition encode_funding (at_ : Nanos) (settled_ms : Z) (rate mark : text) (venue model : Cash) (verified : bool) : list Z :=
  put_i64 at_ ++ put_i64 settled_ms ++ put_str rate ++ put_str mark ++ put_i64 venue ++ put_i64 model ++ put_bool verified.

Definition encode (r : LiveRecord) : list Z :=
  match r with
  | RecExecution id f fee => put_str id ++ put_fill f fee
  | RecLedgerStart at_ id i k b m =>
      put_i64 at_ ++ put_i64 id ++ put_u8 (price_scale i) ++ put_u8 (qty_scale i) ++
      put_i64 (contract_size i) ++ put_i64 (price_tick i) ++ put_i64 (qty_step i) ++ put_i64 (min_notional i) ++
      put_i64 k ++ put_i64 b ++ put_u8 (match m with OneWay => 0 | Hedge => 1 end)
  | RecSessionStart p s a b => put_str p ++ put_str s ++ put_u8 a ++ put_u8 b
  | RecTick at_ seen last bid ask volume =>
      put_i64 at_ ++ put_i64 last ++ put_i64 bid ++ put_i64 ask ++ put_i64 volume ++ put_i64 seen
  | RecSubmitted at_ id side price qty ro leg =>
      put_i64 at_ ++ put_str id ++ put_u8 (match side with Buy => 1 | Sell => 2 end) ++ put_i64 price ++ put_i64 qty ++
      put_bool ro ++ put_str leg
  | RecOutcome at_ id tag detail => put_i64 at_ ++ put_str id ++ put_u8 (tag_byte tag) ++ put_str detail
  | RecFill at_ id trade qty price order side =>
      put_i64 at_ ++ put_str id ++ put_i64 trade ++ put_str qty ++ put_str price ++
      put_i64 (if decide (i64 order) then order else 0) ++ put_str side
  | RecRefused at_ breach => put_i64 at_ ++ put_str breach
  | RecCancelled at_ id => put_i64 at_ ++ put_str id
  | RecWaiting at_ es => put_i64 at_ ++ put_len es ++ put_all put_entry es
  | RecOperator at_ c r o x => put_i64 at_ ++ put_str c ++ put_str r ++ put_str o ++ put_str x
  | RecFunding at_ settled rate mark venue model verified => encode_funding at_ settled rate mark venue model verified
  | RecFundingEvidence at_ settled rate mark venue model verified ls =>
      encode_funding at_ settled rate mark venue model verified ++ put_len ls ++ put_all put_line ls
  | RecFundingRecovered at_ since through ls =>
      put_i64 at_ ++ put_i64 since ++ put_i64 through ++ put_len ls ++ put_all put_line ls
  | RecFeeEvidence at_ source f amount => put_i64 at_ ++ put_i64 source ++ put_fill f (Reported amount)
  | RecFundingState at_ o =>
      put_i64 at_ ++ put_len (pending_ms o) ++ put_all put_i64 (pending_ms o) ++
      put_len (schedule_gaps o) ++ put_all put_gap (schedule_gaps o) ++
      match problem o with Some p => put_u8 1 ++ put_str p | None => put_u8 0 end
  | RecReconciled at_ ls => put_i64 at_ ++ put_len ls ++ put_all put_leg ls
  end.
End Rec.

(** * Decoding

    A parser takes the bytes left, and may refuse; only the fill inside a
    record is decoded by the kernel's decoder, which may in principle panic. *)

Definition parser (A : Type) : Type := list Z → run (option (A * list Z)).
#[export] Instance parser_ret : MRet parser := λ A a p, mret (Some (a, p)).
#[export] Instance parser_bind : MBind parser := λ A B f m p,
  r ← m p; match r with Some (a, p) => f a p | None => mret None end.

Module Take.
Definition u8 : parser Z := λ p, match p with a :: p => mret (Some (a, p)) | [] => mret None end.
Definition i64 : parser Z := λ p,
  if (length p <? 8)%nat then mret None else mret (Some (unle_i64 (take 8 p), drop 8 p)).
Definition str : parser text := λ p,
  if (length p <? 4)%nat then mret None
  else
    let len := Z.to_nat (unle (take 4 p)) in
    let rest := drop 4 p in
    if (length rest <? len)%nat then mret None
    else if utf8 (take len rest) then mret (Some (take len rest, drop len rest)) else mret None.
Definition refuse {A} : parser A := λ p, mret None.
(** [?] on a value that is already an [Option]. *)
Definition some {A} (o : option A) : parser A := λ p, mret (a ← o; Some (a, p)).
(** The bytes left. *)
Definition left : parser (list Z) := λ p, mret (Some (p, p)).
(** [for _ in 0..n]. *)
Fixpoint many {A} (n : nat) (p : parser A) : parser (list A) :=
  match n with
  | O => mret []
  | S n => a ← p; l ← many n p; mret (a :: l)
  end.
Definition flag : parser bool := b ← u8; mret (negb (b =? 0)).
(** A byte that is 0 or 1 and nothing else. *)
Definition strict_flag : parser bool :=
  b ← u8; if b =? 0 then mret false else if b =? 1 then mret true else refuse.
(** [usize::try_from(take_i64()?).ok()?]. *)
Definition count : parser nat := n ← i64; if n <? 0 then refuse else mret (Z.to_nat n).
Definition line : parser (Z * Z * Cash) := a ← i64; b ← i64; c ← i64; mret (a, b, c).
Definition entry : parser (text * Z) := a ← str; b ← i64; mret (a, b).
Definition leg : parser (text * text * Z * Z) := a ← str; b ← str; c ← i64; d ← i64; mret (a, b, c, d).
Definition gap : parser ScheduleGap :=
  since ← i64; b ← strict_flag;
  if b : bool then u ← i64; mret (mkGap since (Some u)) else mret (mkGap since None).
(** Lines that must be all that is left: [count * 24], unless that overflows. *)
Definition lines : parser (list (Z * Z * Cash)) :=
  n ← count; p ← left;
  if decide (u64 (Z.of_nat n * 24)) then
    if negb (Z.of_nat n * 24 =? Z.of_nat (length p)) then refuse else many n line
  else refuse.
(** A fill behind its length, to the end. *)
Definition fill : parser (Fill * Fee) := λ p,
  if (length p <? 4)%nat then mret None
  else
    let len := Z.to_nat (unle (take 4 p)) in
    let p := drop 4 p in
    if negb (length p =? len)%nat then mret None
    else
      e ← Codec.decode VENUE_FILL p;
      mret match e with Some (EVenueFill f fee) => Some ((f, fee), []) | _ => None end.
End Take.

Definition side_of_record (b : Z) : option Side := if b =? 1 then Some Buy else if b =? 2 then Some Sell else None.

Definition take_submitted : parser LiveRecord :=
  at_ ← Take.i64; id ← Take.str; b ← Take.u8; side ← Take.some (side_of_record b);
  price ← Take.i64; qty ← Take.i64; ro ← Take.flag;
  p ← Take.left;
  leg ← (match p with [] => mret [] | _ => Take.str end : parser text);
  mret (RecSubmitted at_ id side price qty ro leg).

Definition take_funding : parser LiveRecord :=
  at_ ← Take.i64; settled ← Take.i64; rate ← Take.str; mark ← Take.str; venue ← Take.i64; model ← Take.i64;
  verified ← Take.flag; mret (RecFunding at_ settled rate mark venue model verified).

Definition take_funding_evidence : parser LiveRecord :=
  at_ ← Take.i64; settled ← Take.i64; rate ← Take.str; mark ← Take.str; venue ← Take.i64; model ← Take.i64;
  verified ← Take.strict_flag; ls ← Take.lines; mret (RecFundingEvidence at_ settled rate mark venue model verified ls).

Definition take_funding_state : parser LiveRecord :=
  at_ ← Take.i64;
  n ← Take.count; p ← Take.left;
  if (length p / 8 <? n)%nat then Take.refuse
  else
    pending ← Take.many n Take.i64;
    m ← Take.count; p ← Take.left;
    if (length p / 9 <? m)%nat then Take.refuse
    else
      gaps ← Take.many m Take.gap;
      b ← Take.strict_flag;
      if b : bool then why ← Take.str; mret (RecFundingState at_ (mkObligations pending gaps (Some why)))
      else mret (RecFundingState at_ (mkObligations pending gaps None)).

Definition take_ledger_start : parser LiveRecord :=
  at_ ← Take.i64; id ← Take.i64;
  if decide (u32 id) then
    ps ← Take.u8; qs ← Take.u8; size ← Take.i64; tick ← Take.i64; step ← Take.i64; min ← Take.i64;
    let i := mkInstrument ps qs size tick step min in
    k ← Take.i64; b ← Take.i64;
    mb ← Take.u8;
    mode ← Take.some (if mb =? 0 then Some OneWay else if mb =? 1 then Some Hedge else None);
    if (k <=? 0) || (price_tick i <=? 0) || (qty_step i <=? 0) then Take.refuse
    else
      c ← Take.some (contract_of i);
      if negb (c_tick_cash c =? k) then Take.refuse else mret (RecLedgerStart at_ id i k b mode)
  else Take.refuse.

Definition take_record (k : Z) : parser LiveRecord :=
  if k =? Rec.SESSION_START then p ← Take.str; s ← Take.str; a ← Take.u8; b ← Take.u8; mret (RecSessionStart p s a b)
  else if k =? Rec.TICK then
    at_ ← Take.i64; last ← Take.i64; bid ← Take.i64; ask ← Take.i64; volume ← Take.i64; seen ← Take.i64;
    mret (RecTick at_ seen last bid ask volume)
  else if k =? Rec.SUBMITTED then take_submitted
  else if k =? Rec.OUTCOME then
    at_ ← Take.i64; id ← Take.str; b ← Take.u8; tag ← Take.some (Rec.from_u8 b); d ← Take.str;
    mret (RecOutcome at_ id tag d)
  else if k =? Rec.FILL then
    at_ ← Take.i64; id ← Take.str; trade ← Take.i64; qty ← Take.str; price ← Take.str; order ← Take.i64; side ← Take.str;
    mret (RecFill at_ id trade qty price (Z.abs order) side)
  else if k =? Rec.CANCELLED then at_ ← Take.i64; id ← Take.str; mret (RecCancelled at_ id)
  else if k =? Rec.REFUSED then at_ ← Take.i64; why ← Take.str; mret (RecRefused at_ why)
  else if k =? Rec.WAITING then
    at_ ← Take.i64; n ← Take.i64; es ← Take.many (Z.to_nat n) Take.entry; mret (RecWaiting at_ es)
  else if k =? Rec.OPERATOR then
    at_ ← Take.i64; c ← Take.str; r ← Take.str; o ← Take.str; x ← Take.str; mret (RecOperator at_ c r o x)
  else if k =? Rec.FUNDING then take_funding
  else if k =? Rec.FUNDING_EVIDENCE then take_funding_evidence
  else if k =? Rec.FUNDING_RECOVERED then
    at_ ← Take.i64; since ← Take.i64; through ← Take.i64; ls ← Take.lines; mret (RecFundingRecovered at_ since through ls)
  else if k =? Rec.FUNDING_STATE then take_funding_state
  else if k =? Rec.FEE_EVIDENCE then
    at_ ← Take.i64; source ← Take.i64; ff ← Take.fill;
    match ff with (f, Reported amount) => mret (RecFeeEvidence at_ source f amount) | _ => Take.refuse end
  else if k =? Rec.EXECUTION then id ← Take.str; ff ← Take.fill; mret (RecExecution id ff.1 ff.2)
  else if k =? Rec.LEDGER_START then take_ledger_start
  else if k =? Rec.RECONCILED then
    at_ ← Take.i64; n ← Take.i64; ls ← Take.many (Z.to_nat n) Take.leg; mret (RecReconciled at_ ls)
  else Take.refuse.

(** The whole payload, and nothing after it. *)
Definition decode_record (k : Z) (bs : list Z) : run (option LiveRecord) :=
  r ← take_record k bs; mret match r with Some (r, []) => Some r | _ => None end.

(** * Well-formed records *)

Definition text_ok s : Prop := utf8 s = true ∧ Z.of_nat (length s) ≤ U32_MAX.
Definition line_ok (l : Z * Z * Cash) : Prop := i64 l.1.1 ∧ i64 l.1.2 ∧ i64 l.2.
Definition leg_ok (l : text * text * Z * Z) : Prop := text_ok l.1.1.1 ∧ text_ok l.1.1.2 ∧ i64 l.1.2 ∧ i64 l.2.
Definition entry_ok (e : text * Z) : Prop := text_ok e.1 ∧ i64 e.2.
Definition gap_ok (g : ScheduleGap) : Prop := i64 (since_ms g) ∧ match until_ms g with Some u => i64 u | None => True end.
Definition list_ok {A} (P : A → Prop) (l : list A) : Prop := Forall P l ∧ Z.of_nat (length l) ≤ 2 ^ 56.
Definition instrument_wf (i : Instrument) : Prop :=
  u8 (price_scale i) ∧ u8 (qty_scale i) ∧ i64 (contract_size i) ∧ 0 < price_tick i ≤ I64_MAX ∧
  0 < qty_step i ≤ I64_MAX ∧ i64 (min_notional i).

Definition record_ok (r : LiveRecord) : Prop :=
  match r with
  | RecSessionStart p s a b => text_ok p ∧ text_ok s ∧ u8 a ∧ u8 b
  | RecTick a b c d e f => i64 a ∧ i64 b ∧ i64 c ∧ i64 d ∧ i64 e ∧ i64 f
  | RecSubmitted a id _ p q _ leg => i64 a ∧ text_ok id ∧ i64 p ∧ i64 q ∧ text_ok leg
  | RecOutcome a id _ d => i64 a ∧ text_ok id ∧ text_ok d
  | RecCancelled a t | RecRefused a t => i64 a ∧ text_ok t
  | RecFill a id t q p o s => i64 a ∧ text_ok id ∧ i64 t ∧ text_ok q ∧ text_ok p ∧ 0 ≤ o ≤ I64_MAX ∧ text_ok s
  | RecReconciled a ls => i64 a ∧ list_ok leg_ok ls
  | RecWaiting a es => i64 a ∧ list_ok entry_ok es
  | RecOperator a c r o x => i64 a ∧ text_ok c ∧ text_ok r ∧ text_ok o ∧ text_ok x
  | RecFunding a s r m v d _ => i64 a ∧ i64 s ∧ text_ok r ∧ text_ok m ∧ i64 v ∧ i64 d
  | RecFundingEvidence a s r m v d _ ls => i64 a ∧ i64 s ∧ text_ok r ∧ text_ok m ∧ i64 v ∧ i64 d ∧ list_ok line_ok ls
  | RecFundingRecovered a s t ls => i64 a ∧ i64 s ∧ i64 t ∧ list_ok line_ok ls
  | RecFundingState a o => i64 a ∧ list_ok i64 (pending_ms o) ∧ list_ok gap_ok (schedule_gaps o) ∧
      match problem o with Some p => text_ok p | None => True end
  | RecFeeEvidence a s f c => i64 a ∧ i64 s ∧ event_wf (EVenueFill f (Reported c))
  | RecExecution id f fee => text_ok id ∧ event_wf (EVenueFill f fee)
  | RecLedgerStart a id i k b _ => i64 a ∧ u32 id ∧ instrument_wf i ∧ 0 < k ∧ i64 k ∧ i64 b ∧ contract_of i = Some (mkContract k)
  end.

(** * The round trip, field by field *)

Lemma parser_step {A B} (p : parser A) (f : A → parser B) bs a tl : p bs = Ret (Some (a, tl)) → (p ≫= f) bs = f a tl.
Proof. intros H. unfold mbind, parser_bind. by rewrite H. Qed.

Lemma i64_put v tl : i64 v → Take.i64 (Rec.put_i64 v ++ tl) = Ret (Some (v, tl)).
Proof.
  intros Hv. unfold Take.i64, Rec.put_i64. rewrite length_app, length_le, (proj2 (Nat.ltb_ge _ _)) by lia.
  rewrite take_app_length', drop_app_length' by by rewrite length_le. by rewrite unle_i64_le.
Qed.
Lemma u8_put v tl : Take.u8 (Rec.put_u8 v ++ tl) = Ret (Some (v, tl)).
Proof. done. Qed.
Lemma str_put s tl : text_ok s → Take.str (Rec.put_str s ++ tl) = Ret (Some (s, tl)).
Proof.
  intros [Hu Hl]. unfold Take.str, Rec.put_str. rewrite Z.min_l by done. rewrite Nat2Z.id, take_ge by done.
  rewrite <-(assoc_L (++)), length_app, length_le, (proj2 (Nat.ltb_ge _ _)) by lia.
  rewrite take_app_length', drop_app_length' by by rewrite length_le.
  rewrite unle_u32 by mlia. rewrite Nat2Z.id, length_app, (proj2 (Nat.ltb_ge _ _)) by lia.
  by rewrite take_app_length, drop_app_length, Hu.
Qed.
Lemma flag_put b tl : Take.flag (Rec.put_bool b ++ tl) = Ret (Some (b, tl)).
Proof. by destruct b. Qed.
Lemma strict_flag_put b tl : Take.strict_flag (Rec.put_bool b ++ tl) = Ret (Some (b, tl)).
Proof. by destruct b. Qed.
Lemma some_put {A} (a : A) tl : Take.some (Some a) tl = Ret (Some (a, tl)).
Proof. done. Qed.
Lemma left_put tl : Take.left tl = Ret (Some (tl, tl)).
Proof. done. Qed.
Lemma count_put {A} (l : list A) tl : Z.of_nat (length l) ≤ 2 ^ 56 → Take.count (Rec.put_len l ++ tl) = Ret (Some (length l, tl)).
Proof.
  intros Hl. unfold Take.count, Rec.put_len. erewrite parser_step by (apply i64_put; mlia).
  rewrite (proj2 (Z.ltb_ge _ _)) by lia. by rewrite Nat2Z.id.
Qed.
Lemma len_put {A} (l : list A) tl : Z.of_nat (length l) ≤ 2 ^ 56 →
  Take.i64 (Rec.put_len l ++ tl) = Ret (Some (Z.of_nat (length l), tl)).
Proof. intros Hl. apply i64_put. mlia. Qed.

Lemma many_put {A} (p : parser A) (put : A → list Z) (P : A → Prop) l tl :
  (∀ a tl, P a → p (put a ++ tl) = Ret (Some (a, tl))) → Forall P l →
  Take.many (length l) p (Rec.put_all put l ++ tl) = Ret (Some (l, tl)).
Proof.
  intros Hp. induction 1 as [|a l Ha _ IH]; [done|]. cbn [Take.many length].
  change (Rec.put_all put (a :: l)) with (put a ++ Rec.put_all put l). rewrite <-(assoc_L (++)).
  erewrite parser_step by by apply Hp. erewrite parser_step by exact IH. done.
Qed.

(** Read the next field off the front. *)
Ltac next :=
  rewrite <-?(assoc_L (++));
  lazymatch goal with
  | |- (Take.i64 ≫= _) (Rec.put_i64 _ ++ _) = _ => erewrite parser_step by (apply i64_put; first [done|mlia])
  | |- (Take.i64 ≫= _) (Rec.put_len _ ++ _) = _ => erewrite parser_step by (apply len_put; done)
  | |- (Take.count ≫= _) _ = _ => erewrite parser_step by (apply count_put; done)
  | |- (Take.str ≫= _) _ = _ => erewrite parser_step by (apply str_put; done)
  | |- (Take.u8 ≫= _) _ = _ => erewrite parser_step by apply u8_put
  | |- (Take.flag ≫= _) _ = _ => erewrite parser_step by apply flag_put
  | |- (Take.strict_flag ≫= _) _ = _ => erewrite parser_step by apply strict_flag_put
  end; cbv beta iota.

Lemma line_put l tl : line_ok l → Take.line (Rec.put_line l ++ tl) = Ret (Some (l, tl)).
Proof. intros (?&?&?). destruct l as [[a b] c]. unfold Take.line, Rec.put_line; simpl in *. repeat next. done. Qed.
Lemma entry_put e tl : entry_ok e → Take.entry (Rec.put_entry e ++ tl) = Ret (Some (e, tl)).
Proof. intros (?&?). destruct e as [a b]. unfold Take.entry, Rec.put_entry; simpl in *. repeat next. done. Qed.
Lemma leg_put l tl : leg_ok l → Take.leg (Rec.put_leg l ++ tl) = Ret (Some (l, tl)).
Proof. intros (?&?&?&?). destruct l as [[[a b] c] d]. unfold Take.leg, Rec.put_leg; simpl in *. repeat next. done. Qed.
Lemma gap_put g tl : gap_ok g → Take.gap (Rec.put_gap g ++ tl) = Ret (Some (g, tl)).
Proof.
  intros (?&Hu). destruct g as [a [u|]]; unfold Take.gap, Rec.put_gap; cbn [since_ms until_ms] in *;
    [change (Rec.put_u8 1) with (Rec.put_bool true)|change (Rec.put_u8 0) with (Rec.put_bool false)];
    repeat next; done.
Qed.
Lemma length_put_lines ls : length (Rec.put_all Rec.put_line ls) = (length ls * 24)%nat.
Proof.
  induction ls as [|l ls IH]; [done|]. change (Rec.put_all Rec.put_line (l :: ls)) with (Rec.put_line l ++ Rec.put_all Rec.put_line ls).
  rewrite length_app, IH. unfold Rec.put_line, Rec.put_i64. rewrite !length_app, !length_le. simpl. lia.
Qed.
Lemma lines_put ls : list_ok line_ok ls →
  Take.lines (Rec.put_len ls ++ Rec.put_all Rec.put_line ls) = Ret (Some (ls, [])).
Proof.
  intros [HF Hl]. unfold Take.lines. next. erewrite parser_step by apply left_put. cbv beta iota.
  rewrite decide_True by mlia. rewrite length_put_lines, Nat2Z.inj_mul, Z.eqb_refl. cbn [negb].
  rewrite <-(app_nil_r (Rec.put_all _ _)). by eapply many_put; [apply line_put|].
Qed.
Lemma fill_put f fee : event_wf (EVenueFill f fee) → Take.fill (Rec.put_fill f fee) = Ret (Some ((f, fee), [])).
Proof.
  intros He. unfold Take.fill, Rec.put_fill. set (p := Codec.encode _).
  assert (Z.of_nat (length p) ≤ 64) as Hp.
  { unfold p. cbn [Codec.encode]. unfold put_stamp. destruct fee; rewrite ?length_app, ?length_le; simpl; rewrite ?length_le; lia. }
  rewrite length_app, length_le, (proj2 (Nat.ltb_ge _ _)) by lia.
  rewrite take_app_length', drop_app_length' by by rewrite length_le.
  rewrite unle_u32 by mlia. rewrite Nat2Z.id, Nat.eqb_refl. cbn [negb].
  change VENUE_FILL with (Codec.kind (EVenueFill f fee)). unfold p. by rewrite event_decodes.
Qed.

Lemma side_byte x : side_of_record (match x with Buy => 1 | Sell => 2 end) = Some x.
Proof. by destruct x. Qed.
Lemma tag_byte_from t : Rec.from_u8 (Rec.tag_byte t) = Some t.
Proof. by destruct t. Qed.
Lemma put_str_cons s : ∃ b bs, Rec.put_str s = b :: bs.
Proof. unfold Rec.put_str. rewrite le_S. eauto. Qed.
Lemma submitted_put a id x p q ro leg :
  record_ok (RecSubmitted a id x p q ro leg) →
  take_submitted (Rec.encode (RecSubmitted a id x p q ro leg)) = Ret (Some (RecSubmitted a id x p q ro leg, [])).
Proof.
  intros (?&?&?&?&?). unfold take_submitted. cbn [Rec.encode]. do 3 next. rewrite side_byte.
  erewrite parser_step by apply some_put. cbv beta. do 3 next.
  erewrite parser_step by apply left_put. cbv beta. destruct (put_str_cons leg) as (b & bs & Hb). rewrite Hb, <-Hb.
  rewrite <-(app_nil_r (Rec.put_str leg)). by next.
Qed.

Lemma funding_put a st r m v d b tl :
  record_ok (RecFunding a st r m v d b) →
  take_funding (Rec.encode_funding a st r m v d b ++ tl) = Ret (Some (RecFunding a st r m v d b, tl)).
Proof. intros (?&?&?&?&?&?). unfold take_funding, Rec.encode_funding. by repeat next. Qed.

Lemma funding_evidence_put a st r m v d b ls :
  record_ok (RecFundingEvidence a st r m v d b ls) →
  take_funding_evidence (Rec.encode (RecFundingEvidence a st r m v d b ls)) =
    Ret (Some (RecFundingEvidence a st r m v d b ls, [])).
Proof.
  intros (?&?&?&?&?&?&?). unfold take_funding_evidence. cbn [Rec.encode]. unfold Rec.encode_funding. do 7 next.
  erewrite parser_step by by apply lines_put. done.
Qed.

(** Each item of a list takes a byte at least. *)
Lemma length_put_all {A} (put : A → list Z) (P : A → Prop) n l tl :
  (∀ a, P a → (n ≤ length (put a))%nat) → Forall P l → (length l * n ≤ length (Rec.put_all put l ++ tl))%nat.
Proof.
  intros Hn. induction 1 as [|a l Ha _ IH]; [simpl; lia|].
  change (Rec.put_all put (a :: l)) with (put a ++ Rec.put_all put l). rewrite <-(assoc_L (++)), length_app.
  specialize (Hn a Ha). simpl. lia.
Qed.
Lemma room_left n m k : (0 < k)%nat → (n * k ≤ m)%nat → (m / k <? n)%nat = false.
Proof. intros. apply Nat.ltb_ge, Nat.div_le_lower_bound; lia. Qed.

Lemma funding_state_put a o :
  record_ok (RecFundingState a o) →
  take_funding_state (Rec.encode (RecFundingState a o)) = Ret (Some (RecFundingState a o, [])).
Proof.
  intros (?&[Hp ?]&[Hg ?]&Hpr). destruct o as [ps gs pr]; cbn [pending_ms schedule_gaps problem] in *.
  unfold take_funding_state. cbn [Rec.encode pending_ms schedule_gaps problem]. do 2 next.
  erewrite parser_step by apply left_put. cbv beta.
  rewrite room_left; [|lia|eapply length_put_all; [|exact Hp]; intros; unfold Rec.put_i64; by rewrite length_le].
  erewrite parser_step by (eapply many_put; [apply i64_put|exact Hp]). cbv beta. next.
  erewrite parser_step by apply left_put. cbv beta.
  rewrite room_left; [|lia|eapply length_put_all; [|exact Hg]].
  2:{ intros g _. unfold Rec.put_gap, Rec.put_i64. rewrite length_app, length_le. destruct (until_ms g); simpl; lia. }
  erewrite parser_step by (eapply many_put; [apply gap_put|exact Hg]). cbv beta.
  destruct pr as [t|]; [change (Rec.put_u8 1) with (Rec.put_bool true)|change (Rec.put_u8 0) with (Rec.put_bool false)].
  - next. rewrite <-(app_nil_r (Rec.put_str t)). by next.
  - rewrite <-(app_nil_r (Rec.put_bool false)). by next.
Qed.

Lemma mode_byte m :
  (let mb := match m with OneWay => 0 | Hedge => 1 end in
   if mb =? 0 then Some OneWay else if mb =? 1 then Some Hedge else None) = Some m.
Proof. by destruct m. Qed.

Lemma ledger_start_put a id i k b m tl :
  record_ok (RecLedgerStart a id i k b m) →
  take_ledger_start (Rec.encode (RecLedgerStart a id i k b m) ++ tl) = Ret (Some (RecLedgerStart a id i k b m, tl)).
Proof.
  intros (?&?&(?&?&?&[]&[]&?)&?&?&?&Hc). destruct i as [xs qs size tick step mn].
  unfold take_ledger_start. cbn -[Take.i64 Take.u8 Take.some contract_of Rec.put_i64 Rec.put_u8] in *. do 2 next.
  rewrite decide_True by done. do 9 next. rewrite mode_byte. erewrite parser_step by apply some_put. cbv beta.
  rewrite !(proj2 (Z.leb_gt _ _)) by done. cbn [orb]. rewrite Hc. erewrite parser_step by apply some_put. cbv beta.
  cbn [c_tick_cash]. by rewrite Z.eqb_refl.
Qed.


(** The kind picks the decoder, which reads the fields one by one. *)
Ltac kinds := unfold take_record; cbn -[Take.i64 Take.u8 Take.str Take.many Take.lines Take.fill Take.some Rec.encode
  take_submitted take_funding take_funding_evidence take_funding_state take_ledger_start].
Ltac list_of put := rewrite Nat2Z.id; erewrite parser_step by (eapply many_put; [apply put|done]).

Lemma take_record_put r : record_ok r → take_record (Rec.kind r) (Rec.encode r) = Ret (Some (r, [])).
Proof.
  intros Hr. destruct r; kinds;
    try lazymatch goal with |- take_submitted _ = _ => by apply submitted_put
      | |- take_funding_evidence _ = _ => by apply funding_evidence_put
      | |- take_funding_state _ = _ => by apply funding_state_put
      | |- take_funding _ = _ => rewrite <-(app_nil_r (Rec.encode _)); by apply funding_put
      | |- take_ledger_start _ = _ => rewrite <-(app_nil_r (Rec.encode _)); by apply ledger_start_put end;
    unfold record_ok in Hr; destruct_and? Hr;
    try (rewrite <-(app_nil_r (Rec.encode _)); cbn [Rec.encode]; repeat next; done); cbn [Rec.encode]; repeat next.
  - rewrite tag_byte_from, <-(app_nil_r (Rec.put_str _)). erewrite parser_step by apply some_put. by next.
  - assert (i64 order) by mlia. rewrite decide_True by done. rewrite <-(app_nil_r (Rec.put_str side)). repeat next.
    by rewrite Z.abs_eq by done.
  - destruct H0 as [? Hl]. rewrite <-(app_nil_r (Rec.put_all _ _)). next. by list_of leg_put.
  - destruct H0 as [? Hl]. rewrite <-(app_nil_r (Rec.put_all _ _)). next. by list_of entry_put.
  - by erewrite parser_step by by apply lines_put.
  - by erewrite parser_step by by apply fill_put.
  - by erewrite parser_step by by apply fill_put.
Qed.

(** Live records round trip.  Every record a session writes, decoded under
    the kind it was written with, is the record that was written, and nothing
    of its payload is left over: the optional leg, the lists behind their
    counts, the fill in the kernel's own encoding and the terms a ledger
    starts from included. *)
Theorem record_roundtrip r (Hr : record_ok r) : decode_record (Rec.kind r) (Rec.encode r) = Ret (Some r).
Proof. unfold decode_record. by rewrite take_record_put. Qed.

Definition demo_record : LiveRecord :=
  RecFundingState 7 (mkObligations [1; -2; 3] [mkGap 4 None; mkGap 5 (Some 6)] (Some [195; 169])).
Lemma record_roundtrip_witness :
  record_ok demo_record ∧ decode_record 16 (Rec.encode demo_record) = Ret (Some demo_record).
Proof.
  assert (record_ok demo_record) as H.
  { unfold demo_record, record_ok, list_ok, text_ok; cbn [pending_ms schedule_gaps problem].
    split_and!; rewrite ?Forall_cons, ?Forall_nil; unfold gap_ok; cbn [since_ms until_ms]; split_and?; by vm_compute. }
  split; [exact H|exact (record_roundtrip demo_record H)].
Defined.

(** An order id that no [i64] holds is written as 0: the one thing a record can
    carry that does not come back. *)
Lemma large_order_id_is_lost :
  decode_record Rec.FILL (Rec.encode (RecFill 1 [] 2 [] [] (2 ^ 63) [])) = Ret (Some (RecFill 1 [] 2 [] [] 0 [])).
Proof. by vm_compute. Qed.

Implicit Types (a b : text).

(** * UTF-8 *)

(** The characters of a text, one at a time. *)
Lemma utf8_app_aux n : ∀ a b, (length a ≤ n)%nat → utf8 a = true → utf8 (a ++ b) = utf8 b.
Proof.
  induction n as [|n IH]; intros a b Hn H; [by destruct a; [|simpl in Hn; lia]|]. destruct a as [|x a]; [done|].
  cbn [utf8 app] in *. simpl in Hn. destruct (within_ 0 127 x); [apply IH; [lia|done]|].
  destruct a as [|y a]; [done|]. cbn [app] in *. simpl in Hn. destruct (within_ 194 223 x).
  { apply andb_true_iff in H as [-> H]. cbn [andb]. apply IH; [lia|done]. }
  destruct a as [|z a]; [done|]. cbn [app] in *. simpl in Hn. destruct (within_ 224 239 x).
  { apply andb_true_iff in H as [-> H]. cbn [andb]. apply IH; [lia|done]. }
  destruct a as [|t a]; [done|]. cbn [app] in *. simpl in Hn.
  apply andb_true_iff in H as [-> H]. cbn [andb]. apply IH; [lia|done].
Qed.
Lemma utf8_app a b : utf8 a = true → utf8 b = true → utf8 (a ++ b) = true.
Proof. intros Ha Hb. by rewrite (utf8_app_aux (length a)). Qed.
(** The next byte is one. *)
Ltac octet := apply Forall_cons; split; [mlia|].
Lemma utf8_bytes_aux n : ∀ s, (length s ≤ n)%nat → utf8 s = true → bytes s.
Proof.
  induction n as [|n IH]; intros s Hn H; [destruct s; [constructor|simpl in Hn; lia]|]. destruct s as [|x s]; [constructor|].
  cbn [utf8] in H. simpl in Hn. unfold within_, tail_byte in H.
  destruct ((0 <=? x) && (x <=? 127)) eqn:E1; [octet; apply IH; [lia|done]|].
  destruct s as [|y s]; [done|]. simpl in Hn. destruct ((194 <=? x) && (x <=? 223)) eqn:E2.
  { apply andb_true_iff in H as [H1 H]. do 2 octet. apply IH; [lia|done]. }
  destruct s as [|z s]; [done|]. simpl in Hn. destruct ((224 <=? x) && (x <=? 239)) eqn:E3.
  { rewrite !andb_true_iff in H. destruct H as [[H1 H2] H]. destruct (x =? 224), (x =? 237);
      (do 3 octet; apply IH; [lia|done]). }
  destruct s as [|t s]; [done|]. simpl in Hn. rewrite !andb_true_iff in H. destruct H as [[[[H0 H1] H2] H3] H].
  destruct (x =? 240), (x =? 244); (do 4 octet; apply IH; [lia|done]).
Qed.
Lemma utf8_bytes s : utf8 s = true → bytes s.
Proof. by apply (utf8_bytes_aux (length s)). Qed.
Lemma text_ok_bytes s : text_ok s → bytes s.
Proof. intros [? _]. by apply utf8_bytes. Qed.
Lemma ascii_text_ok s : ascii s → Z.of_nat (length s) ≤ U32_MAX → text_ok s.
Proof. split; [by apply ascii_utf8|done]. Qed.
Lemma text_of_ascii_bytes x : bytes (text_of x).
Proof.
  unfold text_of. induction (String.list_ascii_of_string x) as [|c l IH]; [constructor|]. cbn [fmap list_fmap].
  constructor; [|done]. destruct c as [[] [] [] [] [] [] [] []]; vm_compute; split; discriminate.
Qed.
Lemma shown_bytes z : bytes (shown z).
Proof. eapply Forall_impl; [apply shown_ascii|]. intros x Hx. mlia. Qed.

(** * The bytes of a record *)

Lemma put_str_bytes s : bytes s → bytes (Rec.put_str s).
Proof. intros H. unfold Rec.put_str. apply Forall_app_2; [apply le_bytes|by apply Forall_take]. Qed.
Lemma put_bool_bytes (x : bool) : bytes (Rec.put_bool x).
Proof. by destruct x; repeat constructor. Qed.
Lemma put_all_bytes {A} (put : A → list Z) (l : list A) : Forall (λ x, bytes (put x)) l → bytes (Rec.put_all put l).
Proof. intros H. unfold Rec.put_all. apply Forall_concat. by apply Forall_fmap. Qed.

Lemma bytes_app (x y : list Z) : bytes x → bytes y → bytes (x ++ y).
Proof. apply Forall_app_2. Qed.
Lemma bytes_nil : bytes [].
Proof. constructor. Qed.

Create HintDb bytes.
#[export] Hint Resolve le_bytes put_str_bytes put_bool_bytes shown_bytes text_of_ascii_bytes text_ok_bytes : bytes.
#[export] Hint Resolve bytes_app bytes_nil : bytes.
