(* ===== verification/RecordDecode.v ===== *)
(** Decoding arbitrary bytes as a live record ([Record::decode] of
    [oq-live/src/record.rs]): it never panics, it never answers with more items
    than it has bytes, and what it answers can be written again. *)

From S2P Require Import Prelude Bytes Text Types Order Instrument Margin Tick Depth Event Codec Matcher Kernel LiveRecord.

Implicit Types (bs : list Z) (s : text).

(** Bytes that fit in memory. *)
Definition payload bs : Prop := bytes bs ∧ Z.of_nat (length bs) ≤ 2 ^ 56.

(** What a parser answers when it takes at least [n] bytes and finds a [P]. *)
Definition took {A} (n : nat) bs (P : A → Prop) (o : option (A * list Z)) : Prop :=
  match o with Some (a, tl) => P a ∧ bytes tl ∧ (n + length tl ≤ length bs)%nat | None => True end.
Definition sound {A} (n : nat) (p : parser A) (P : A → Prop) : Prop := ∀ bs, payload bs → returns (p bs) (took n bs P).

(** * Rules for the combinators *)

Lemma payload_tail bs tl n : payload bs → bytes tl → (n + length tl ≤ length bs)%nat → payload tl.
Proof. intros [??] ??. split; [done|lia]. Qed.

Lemma took_mono {A} n m bs bs' (P Q : A → Prop) o :
  (m + length bs' ≤ n + length bs)%nat → (∀ a, P a → Q a) → took n bs' P o → took m bs Q o.
Proof. intros Hn HPQ. destruct o as [[a tl]|]; [|done]. intros (?&?&?). split_and!; [auto|done|lia]. Qed.

Lemma sound_ret {A} (a : A) (P : A → Prop) : P a → sound 0 (mret a) P.
Proof. intros Ha bs []. by apply returns_Ret. Qed.

Lemma sound_bind {A B} n m k (p : parser A) (f : A → parser B) P Q :
  sound n p P → (m ≤ n + k)%nat → (∀ a, P a → sound k (f a) Q) → sound m (p ≫= f) Q.
Proof.
  intros Hp Hm Hf bs Hb. apply returns_bind. eapply returns_mono; [by apply Hp|].
  intros [[a tl]|]; [|intros _; by apply returns_Ret]. intros (Ha & Ht & Hl).
  eapply returns_mono; [apply (Hf a Ha); by eapply payload_tail|]. intros o.
  destruct o as [[b tl']|]; [|done]. intros (?&?&?). split_and!; [done..|lia].
Qed.

Lemma sound_mono {A} n m (p : parser A) (P Q : A → Prop) : sound n p P → (m ≤ n)%nat → (∀ a, P a → Q a) → sound m p Q.
Proof.
  intros Hp Hm HPQ bs Hb. eapply returns_mono; [by apply Hp|]. intros [[a tl]|]; [|done].
  intros (?&?&?). split_and!; [auto|done|lia].
Qed.

Lemma sound_refuse {A} n (P : A → Prop) : sound n Take.refuse P.
Proof. intros bs Hb. by apply returns_Ret. Qed.

Lemma sound_some {A} (o : option A) : sound 0 (Take.some o) (λ a, o = Some a).
Proof. intros bs []. destruct o; by apply returns_Ret. Qed.

(** Each item takes a byte, so there are no more items than bytes. *)
Lemma sound_many {A} n (p : parser A) P : sound 1 p P → sound n (Take.many n p) (list_ok P).
Proof.
  intros Hp. assert (sound n (Take.many n p) (λ l, Forall P l ∧ length l = n)) as H.
  { induction n as [|n IH]; [by apply sound_ret|]. cbn [Take.many].
    eapply sound_bind; [exact Hp|reflexivity|]. intros a Ha. eapply sound_bind; [exact IH|by rewrite Nat.add_0_r|].
    intros l [Hl <-]. apply sound_ret. split; [by constructor|done]. }
  intros bs Hb. eapply returns_mono; [by apply H|]. intros [[l tl]|]; [|done]. intros ([? Hl]&?&?).
  destruct Hb. split_and!; [split; [done|lia]|done..].
Qed.

Lemma sound_left {A} (f : list Z → parser A) P : (∀ p, sound 0 (f p) P) → sound 0 (Take.left ≫= f) P.
Proof. intros Hf bs Hb. by apply Hf. Qed.

(** * The fields *)

Lemma sound_u8 : sound 1 Take.u8 u8.
Proof.
  intros [|a p] [Hb _]; apply returns_Ret; [done|]. apply Forall_cons in Hb as [??]. split_and!; [done..|simpl; lia].
Qed.

Lemma sound_i64 : sound 8 Take.i64 i64.
Proof.
  intros bs [Hb _]. unfold Take.i64. destruct (Nat.ltb_spec (length bs) 8); apply returns_Ret; [done|].
  assert (bytes (take 8 bs)) as Ht by by apply Forall_take. pose proof (unle_bound _ Ht) as Hu.
  rewrite length_take, Nat.min_l in Hu by lia. split_and!; [by apply signed64_range|by apply Forall_drop|rewrite length_drop; lia].
Qed.

Lemma sound_str : sound 4 Take.str text_ok.
Proof.
  intros bs [Hb _]. unfold Take.str. destruct (Nat.ltb_spec (length bs) 4) as [|H4]; [by apply returns_Ret|]. cbv zeta.
  set (len := unle (take 4 bs)). assert (bytes (take 4 bs)) as Ht by by apply Forall_take.
  pose proof (unle_bound _ Ht) as Hu. rewrite length_take, Nat.min_l in Hu by lia. fold len in Hu.
  destruct (Nat.ltb_spec (length (drop 4 bs)) (Z.to_nat len)) as [|Hd]; [by apply returns_Ret|].
  destruct (utf8 _) eqn:Hutf; apply returns_Ret; [|done].
  split_and!; [split; [done|]|by do 2 apply Forall_drop|].
  - rewrite length_take. change (256 ^ Z.of_nat 4) with (U32_MAX + 1) in Hu. lia.
  - rewrite !length_drop in *. lia.
Qed.

Create HintDb sound.
#[local] Hint Resolve sound_u8 sound_i64 sound_str sound_some sound_many : sound.

(** The next field, whatever it takes; what it answers is kept as a hypothesis. *)
Ltac part :=
  lazymatch goal with
  | |- sound _ Take.refuse _ => apply sound_refuse
  | |- sound _ (Take.left ≫= _) _ => apply sound_left; intros ?
  | |- sound _ (_ ≫= _) _ => eapply sound_bind with (k := 0%nat); [solve [eauto with sound]|lia|intros ? ?]
  | |- sound _ (if ?b then Take.refuse else _) _ => destruct b eqn:?; [apply sound_refuse|]
  | |- sound _ (if ?b then _ else Take.refuse) _ => destruct b eqn:?; [|apply sound_refuse]
  end.

Lemma sound_flag : sound 1 Take.flag (λ _, True).
Proof. unfold Take.flag. part. by apply sound_ret. Qed.
Lemma sound_strict_flag : sound 1 Take.strict_flag (λ _, True).
Proof. unfold Take.strict_flag. part. repeat case_match; by first [apply sound_ret|apply sound_refuse]. Qed.
Lemma sound_count : sound 8 Take.count (λ _, True).
Proof. unfold Take.count. part. case_match; by first [apply sound_ret|apply sound_refuse]. Qed.
Lemma sound_line : sound 1 Take.line line_ok.
Proof. unfold Take.line. repeat part. by apply sound_ret. Qed.
Lemma sound_entry : sound 1 Take.entry entry_ok.
Proof. unfold Take.entry. repeat part. by apply sound_ret. Qed.
Lemma sound_leg : sound 1 Take.leg leg_ok.
Proof. unfold Take.leg. repeat part. by apply sound_ret. Qed.
#[local] Hint Resolve sound_flag sound_strict_flag sound_count sound_line sound_entry sound_leg : sound.
Lemma sound_gap : sound 1 Take.gap gap_ok.
Proof. unfold Take.gap. do 2 part. match goal with b : bool |- _ => destruct b end; repeat part; by apply sound_ret. Qed.
Lemma sound_i64s n : sound n (Take.many n Take.i64) (list_ok i64).
Proof. apply sound_many. eapply sound_mono; [apply sound_i64|lia|done]. Qed.
Lemma sound_lines : sound 0 Take.lines (list_ok line_ok).
Proof. unfold Take.lines. do 4 part. eapply sound_mono; [apply sound_many, sound_line|lia|done]. Qed.
#[local] Hint Resolve sound_gap sound_i64s sound_lines : sound.

Lemma sound_fill : sound 0 Take.fill (λ ff, event_wf (EVenueFill ff.1 ff.2)).
Proof.
  intros bs [Hb _]. unfold Take.fill. destruct (_ <? _)%nat; [by apply returns_Ret|]. cbv zeta.
  destruct (negb _); [by apply returns_Ret|]. apply returns_bind. change (Codec.decode VENUE_FILL) with decode_venue_fill.
  eapply returns_mono; [apply venue_fill_total; by apply Forall_drop|]. intros [e|] He; [|by apply returns_Ret].
  destruct e; try by apply returns_Ret. apply returns_Ret. split_and!; [done|apply Forall_nil_2|simpl; lia].
Qed.
#[local] Hint Resolve sound_fill : sound.

(** * The records *)

(** What decoding answers: a record that can be written, but for the one number
    a fill can carry that cannot. *)
Definition decoded_ok (r : LiveRecord) : Prop :=
  match r with
  | RecFill a id t q p o st => record_ok (RecFill a id t q p 0 st) ∧ 0 ≤ o ≤ 2 ^ 63
  | r => record_ok r
  end.
Definition decoded_as (k : Z) (r : LiveRecord) : Prop := decoded_ok r ∧ Rec.kind r = k.

Ltac parts := repeat part; apply sound_ret; split; [cbn [decoded_ok record_ok]; split_and?; try done|done].

Lemma sound_submitted : sound 0 take_submitted (decoded_as Rec.SUBMITTED).
Proof.
  unfold take_submitted. do 8 part.
  eapply sound_bind with (k := 0%nat) (n := 0%nat) (P := text_ok); [|done|intros ? ?; by parts].
  case_match; [by apply sound_ret|]. eapply sound_mono; [apply sound_str|lia|done].
Qed.
Lemma sound_funding : sound 0 take_funding (decoded_as Rec.FUNDING).
Proof. unfold take_funding. by parts. Qed.
Lemma sound_funding_evidence : sound 0 take_funding_evidence (decoded_as Rec.FUNDING_EVIDENCE).
Proof. unfold take_funding_evidence. by parts. Qed.
Lemma sound_funding_state : sound 0 take_funding_state (decoded_as Rec.FUNDING_STATE).
Proof.
  unfold take_funding_state. do 8 part.
  do 2 part. match goal with b : bool |- _ => destruct b end; by parts.
Qed.
Lemma sound_ledger_start : sound 0 take_ledger_start (decoded_as Rec.LEDGER_START).
Proof.
  unfold take_ledger_start. repeat part. cbn [price_tick qty_step] in *.
  repeat match goal with H : (_ || _) = false |- _ => apply orb_false_iff in H as [? ?] end.
  repeat match goal with H : (_ <=? _) = false |- _ => apply Z.leb_gt in H end.
  match goal with H : negb (_ =? _) = false |- _ => apply negb_false_iff, Z.eqb_eq in H end.
  match goal with c : Contract |- _ => destruct c as [tc]; cbn [c_tick_cash] in *; subst tc end.
  apply sound_ret. split; [|done]. unfold decoded_ok, record_ok, instrument_wf; cbn [price_scale qty_scale contract_size price_tick qty_step min_notional].
  split_and?; try done; mlia.
Qed.

#[local] Hint Resolve sound_submitted sound_funding sound_funding_evidence sound_funding_state sound_ledger_start : sound.

(** One case of the dispatch on the kind. *)
Lemma sound_case k n (p q : parser LiveRecord) :
  sound 0 p (decoded_as n) → sound 0 q (decoded_as k) → sound 0 (if k =? n then p else q) (decoded_as k).
Proof. intros Hp Hq. by destruct (Z.eqb_spec k n) as [->|]. Qed.

Lemma sound_record k : sound 0 (take_record k) (decoded_as k).
Proof.
  unfold take_record. repeat (apply sound_case; [auto with sound; try (by parts)|]); [..|apply sound_refuse].
  - repeat part. apply sound_ret. split; [|done]. cbn [decoded_ok record_ok]. split_and?; try done; mlia.
  - do 3 part. match goal with ff : Fill * Fee |- _ => destruct ff as [f []] end; try apply sound_refuse.
    apply sound_ret. split; [by split_and!|done].
Qed.


(** A count of a thousand lines, and no line. *)
Definition greedy_payload : list Z := le 8 1 ++ le 8 2 ++ le 8 3 ++ le 8 1000 ++ [0].
Lemma greedy_payload_bytes : bytes greedy_payload.
Proof. apply (bool_decide_eq_true_1 _). by vm_compute. Qed.
