(* ===== verification/Twin.v ===== *)
(** Two sets of live books that were told of the same fills: whatever else each
    was told - quotes, orders, commissions, funding - they hold the same
    position, opened at the same price, with the same realized profit. *)

From stdpp Require Import gmap.
From S2P Require Import Prelude Slices Types Order Currency Margin Liquidation Tick Strategy RestingBook L0 Depth Matcher Cost Event Kernel Dedup Books.
#[local] Open Scope Z_scope.

Section twin.
Context {M : Type} `{!MatcherOps M}.
Implicit Types (s : State M) (k : Kernel M) (b : Books M) (x : Holding M) (f : Fill).

(** The same holding with another matcher and another mark. *)
Definition refit x (m : M) (p : PriceTicks) : Holding M :=
  mkHolding (h_instrument x) m (h_contract x) (h_table x) (h_qty x) (h_entry x) (h_short_qty x) (h_short_entry x) p
    (h_long_cost x) (h_short_cost x).

Lemma refit_open x m p short qty price sign :
  Holding.open_leg (refit x m p) short qty price sign = (y ← Holding.open_leg x short qty price sign; mret (refit y m p)).
Proof.
  unfold Holding.open_leg, Holding.short_entry_cost, Holding.entry_cost. cbn.
  destruct (QtyLots.is_zero qty); [done|]. destruct short; cbn; by destruct (chk i64 _).
Qed.

Lemma refit_close x m p short qty price :
  Holding.close_leg (refit x m p) short qty price =
    ('(pnl, y) ← Holding.close_leg x short qty price; mret (pnl, refit y m p)).
Proof.
  unfold Holding.close_leg, Holding.short_entry_cost, Holding.entry_cost. cbn [refit h_qty h_short_qty h_entry h_short_entry
    h_contract h_long_cost h_short_cost].
  set (v := if short then (h_short_qty x, h_short_entry x, _) else _). destruct v as [[held entry] cost].
  destruct (QtyLots.is_zero held); [done|]. cbv zeta.
  destruct (close _ _ _ _) as [[value pnl]| |]; cbn [mbind run_bind]; [|done|done].
  destruct (chk i64 _); cbn [mbind run_bind]; [|done|done].
  destruct (chk i64 _); cbn [mbind run_bind]; [|done|done]. by destruct short.
Qed.

(** Books the venue drives hold one instrument, match nothing and liquidate
    nothing. *)
Record driven s x : Prop := {
  dr_one : holdings s = [x];
  dr_venue : matching s = Venue;
  dr_stays : enforce_liquidation s = false;
}.
Record twin s s' : Prop := {
  tw_x : ∃ x m p, driven s x ∧ driven s' (refit x m p);
  tw_mode : mode s' = mode s;
  tw_realized : realized s' = realized s;
}.

Lemma driven_at s x : driven s x → State.at_ s 0 = Ret x.
Proof. intros [H _ _]. unfold State.at_. by rewrite H. Qed.
Lemma driven_holding s x : driven s x → State.holding s = Ret x.
Proof. apply driven_at. Qed.
Lemma driven_index s x i : driven s x → State.holding_index s i = if h_instrument x =? i then Some 0%nat else None.
Proof. intros [H _ _]. unfold State.holding_index. rewrite H. simpl. by destruct (_ =? _). Qed.
Lemma driven_put s x y : driven s x → driven (State.put s 0 y) y.
Proof. intros [H H1 H2]. split; [|done|done]. unfold State.put. simpl. by rewrite H. Qed.

(** What fees, funding and the balance do does not touch a position. *)
Lemma driven_frame s s' x : driven s x → holdings s' = holdings s → matching s' = matching s →
  enforce_liquidation s' = enforce_liquidation s → driven s' x.
Proof. intros [H1 H2 H3] E1 E2 E3. split; congruence. Qed.

Lemma driven_credit s x y c d : driven s x → driven (State.credit (State.add_realized (State.put s 0 y) c) d) y.
Proof. intros Hd. eapply driven_frame; [by apply (driven_put s x)|done..]. Qed.

Definition same_money s s' : Prop := fees s' = fees s ∧ funding s' = funding s ∧ mode s' = mode s.

(** A fill does the same to both. *)
Lemma apply_fill_twin s s' f s1 : twin s s' → State.apply_fill s f = Ret s1 →
  ∃ s1', State.apply_fill s' f = Ret s1' ∧ twin s1 s1' ∧ same_money s s1 ∧ same_money s' s1'.
Proof.
  intros [(x & m & p & Hd & Hd') Hm Hr] H. unfold State.apply_fill in *.
  rewrite (driven_index _ _ _ Hd) in H. rewrite (driven_index _ _ _ Hd'). cbn [refit h_instrument].
  destruct (h_instrument x =? f_instrument f) eqn:Ei; [|done]. cbn [expect mbind run_bind] in *. rewrite Hm.
  case_bool_decide.
  - unfold State.apply_fill_hedged in *. rewrite (driven_index _ _ _ Hd) in H. rewrite (driven_index _ _ _ Hd').
    cbn [refit h_instrument]. rewrite Ei in *. cbn [expect mbind run_bind] in *.
    rewrite (driven_at _ _ Hd) in H. rewrite (driven_at _ _ Hd'). cbn [mbind run_bind] in *.
    destruct (f_offset f).
    + rewrite refit_open. destruct (Holding.open_leg x _ _ _ _) as [y| |]; [|done|done]. injection H as <-.
      eexists. split; [reflexivity|]. split; [|done]. split; [|done|done]. exists y, m, p. split; by eapply driven_put.
    + rewrite refit_close. destruct (Holding.close_leg x _ _ _) as [[pnl y]| |]; [|done|done]. injection H as <-.
      eexists. split; [reflexivity|]. split; [|done]. split; [|done|simpl; by rewrite Hr]. exists y, m, p.
      split; by eapply driven_credit.
  - destruct (position_delta f) as [signed| |]; [|done|done]. cbn [mbind run_bind] in *.
    rewrite (driven_at _ _ Hd) in H. rewrite (driven_at _ _ Hd'). cbn [mbind run_bind refit h_qty] in *.
    destruct (negb (h_qty x =? 0) && _).
    + rewrite refit_close. destruct (Holding.close_leg x _ _ _) as [[pnl y]| |]; [|done|done]. cbn [mbind run_bind mret run_ret] in *.
      destruct (chk i64 _) as [r| |]; [|done|done]. cbn [mbind run_bind] in *.
      assert (driven (State.credit (State.add_realized (State.put s 0 y) pnl) pnl) y) as Hy
        by (by eapply driven_credit).
      assert (driven (State.credit (State.add_realized (State.put s' 0 (refit y m p)) pnl) pnl) (refit y m p)) as Hy'
        by (by eapply driven_credit).
      destruct (r >? 0).
      * rewrite refit_open. destruct (Holding.open_leg y _ _ _ _) as [z| |]; [|done|done]. injection H as <-.
        eexists. split; [reflexivity|]. split; [|done]. split; [|done|simpl; by rewrite Hr]. exists z, m, p. split; by eapply driven_put.
      * injection H as <-. eexists. split; [reflexivity|]. split; [|done]. split; [|done|simpl; by rewrite Hr]. by exists y, m, p.
    + rewrite refit_open. destruct (Holding.open_leg x _ _ _ _) as [y| |]; [|done|done]. injection H as <-.
      eexists. split; [reflexivity|]. split; [|done]. split; [|done|done]. exists y, m, p. split; by eapply driven_put.
Qed.

Lemma refit_same x : refit x (h_engine x) (h_mark x) = x.
Proof. by destruct x. Qed.
Lemma refit_refit x m p m' p' : refit (refit x m p) m' p' = refit x m' p'.
Proof. done. Qed.

Lemma twin_refl s x : driven s x → twin s s.
Proof. intros Hd. split; [|done|done]. exists x, (h_engine x), (h_mark x). by rewrite refit_same. Qed.
Lemma driven_unique s x y : driven s x → driven s y → x = y.
Proof. intros [H _ _] [H' _ _]. congruence. Qed.
Lemma twin_sym s s' : twin s s' → twin s' s.
Proof.
  intros [(x & m & p & Hd & Hd') Hm Hr]. split; [|done|done]. exists (refit x m p), (h_engine x), (h_mark x).
  by rewrite refit_refit, refit_same.
Qed.
Lemma twin_trans s1 s2 s3 : twin s1 s2 → twin s2 s3 → twin s1 s3.
Proof.
  intros [(x & m & p & Hd & Hd') Hm Hr] [(y & n & q & He & He') Hm' Hr']. split; [|congruence|congruence].
  rewrite <-(driven_unique _ _ _ Hd' He) in He'. exists x, n, q. by rewrite refit_refit in He'.
Qed.

(** A step that leaves the position: the holding keeps its legs, the account its
    mode and its profit. *)
Lemma twin_step s x s' m p : driven s x → driven s' (refit x m p) → mode s' = mode s → realized s' = realized s → twin s s'.
Proof. intros Hd Hd' Hm Hr. split; [by exists x, m, p|done|done]. Qed.
Lemma twin_frame s x s' : driven s x → holdings s' = holdings s → matching s' = matching s →
  enforce_liquidation s' = enforce_liquidation s → mode s' = mode s → realized s' = realized s → twin s s'.
Proof.
  intros Hd E1 E2 E3 Hm Hr. eapply (twin_step s x s' (h_engine x) (h_mark x)); [done| |done|done].
  rewrite refit_same. by eapply driven_frame.
Qed.
Lemma twin_put s x s' m p : driven s x → s' = State.put s 0 (refit x m p) → twin s s'.
Proof. intros Hd ->. eapply (twin_step s x); [done|by eapply driven_put|done|done]. Qed.

Lemma driven_route s x : driven s x → Kernel.route s None = Some 0%nat.
Proof. intros [H _ _]. unfold Kernel.route. by rewrite H. Qed.
Lemma driven_stays k mark : enforce_liquidation (k_state k) = false → Kernel.check_liquidation k mark = mret k.
Proof. intros H. unfold Kernel.check_liquidation. by rewrite H. Qed.

Lemma tick_twin k x t : driven (k_state k) x →
  ∃ k', Kernel.apply k (ETick None t) = Ret k' ∧ twin (k_state k) (k_state k') ∧ same_money (k_state k) (k_state k').
Proof.
  intros Hd. unfold Kernel.apply. cbn [k_state]. rewrite (driven_route _ _ Hd). unfold Kernel.on_tick. cbn [k_state].
  set (s := State.with_now (k_state k) _). assert (driven s x) as Hs by by eapply driven_frame.
  rewrite (driven_at _ _ Hs). cbn [mbind run_bind].
  assert (driven (State.put s 0 (Holding.set_mark x (t_last t))) (Holding.set_mark x (t_last t))) as Hp by by eapply driven_put.
  rewrite bool_decide_true by apply Hp. rewrite driven_stays by apply Hp.
  eexists. split; [reflexivity|]. split; [|done]. apply (twin_trans _ s); [by eapply twin_frame|].
  by eapply (twin_put s x _ (h_engine x) (t_last t)).
Qed.

Lemma submit_twin k x id side qty offset stamp k' : driven (k_state k) x →
  Kernel.apply k (ESubmit None id side None qty offset stamp) = Ret k' →
  twin (k_state k) (k_state k') ∧ same_money (k_state k) (k_state k').
Proof.
  intros Hd H. unfold Kernel.apply, Kernel.on_submit in H. cbn [k_state working outputs] in H.
  assert (twin (k_state k) (k_state k) ∧ same_money (k_state k) (k_state k)) as Hsame by (split; [by eapply twin_refl|done]).
  destruct (qty <=? 0); [by injection H as <-|]. case_bool_decide; [by injection H as <-|].
  rewrite (driven_route _ _ Hd) in H. destruct (State.balance _ <=? 0); [by injection H as <-|].
  apply bind_ret in H as (o & _ & H). rewrite (driven_at _ _ Hd) in H. cbn [mbind run_bind] in H.
  apply bind_ret in H as (m & _ & [= <-]). split; [|done]. cbn [k_state].
  by eapply (twin_put _ x _ m (h_mark x)).
Qed.

Lemma funding_twin k x a at_ : driven (k_state k) x →
  ∃ k', Kernel.apply k (EFundingCharged None at_ a) = Ret k' ∧ twin (k_state k) (k_state k') ∧
    fees (k_state k') = fees (k_state k) ∧ funding (k_state k') = Cash.add (funding (k_state k)) a ∧ mode (k_state k') = mode (k_state k).
Proof.
  intros Hd. unfold Kernel.apply, Kernel.on_funding_charged. cbn [k_state].
  assert (driven (State.with_now (k_state k) at_) x) as Hs by by eapply driven_frame.
  rewrite (driven_route _ _ Hs). eexists. split; [reflexivity|]. split; [|done]. by eapply twin_frame.
Qed.

Lemma recovered_twin k x a amount n : driven (k_state k) x →
  ∃ k', Kernel.apply k (EFeeRecovered a amount n) = Ret k' ∧ twin (k_state k) (k_state k') ∧
    fees (k_state k') = Cash.add (fees (k_state k)) amount ∧ funding (k_state k') = funding (k_state k).
Proof. intros Hd. eexists. split; [reflexivity|]. split; [|done]. by eapply twin_frame. Qed.

(** What a commission adds to the fees. *)
Definition charged (fee : Fee) : Cash := match fee with Reported c => c | _ => Cash.ZERO end.

Lemma fill_kernel k x f fee : driven (k_state k) x → fee ≠ Unsaid → h_instrument x = f_instrument f →
  ∃ s, twin (k_state k) s ∧ fees s = Cash.add (fees (k_state k)) (charged fee) ∧ funding s = funding (k_state k) ∧
    Kernel.apply k (EVenueFill f fee) =
      (s' ← State.apply_fill s f; mret (mkKernel s' [OFilled f] (filter (λ w, w ≠ f_order f) (working k)))).
Proof.
  intros Hd Hf Hi. unfold Kernel.apply, Kernel.on_venue_fill. cbn [k_state working].
  rewrite bool_decide_true by apply Hd. cbn [negb].
  set (s1 := State.with_now (k_state k) _). assert (driven s1 x) as H1 by by eapply driven_frame.
  rewrite (driven_index _ _ _ H1), Hi, Z.eqb_refl. rewrite (driven_at _ _ H1). cbn [mbind run_bind mret run_ret].
  set (m := (m_cancel (h_engine x) (f_order f)).2).
  set (s2 := State.put s1 0 (Holding.set_engine x m)). assert (driven s2 (refit x m (h_mark x))) as H2 by by eapply driven_put.
  rewrite (driven_holding _ _ H2). cbn [mbind run_bind].
  assert (∃ s, match fee with
    | Reported cash => (cash, State.with_fee_flags s2 true (fees_missing s2))
    | Unreadable => (Cash.ZERO, State.with_fee_flags s2 (fees_covered s2) true)
    | Unsaid => (Fees.charge (fee_schedule s2) match State.holding_of s2 (f_instrument f) with
        | Some h => h_contract h | None => h_contract (refit x m (h_mark x)) end f, s2)
    end = (charged fee, s) ∧ twin s2 s ∧ fees s = fees (k_state k) ∧ funding s = funding (k_state k)) as (s3 & -> & T3 & F3 & U3).
  { destruct fee; try done; eexists; (split; [reflexivity|]); (split; [by eapply twin_frame|done]). }
  set (s4 := State.credit (State.add_fees s3 (charged fee)) (Cash.neg (charged fee))).
  assert (twin (k_state k) s4) as T4.
  { apply (twin_trans _ s1); [by eapply twin_frame|]. apply (twin_trans _ s2); [by eapply twin_put|].
    apply (twin_trans _ s3); [done|]. destruct T3 as [(y & n & q & _ & Hy) _ _]. by eapply twin_frame. }
  exists s4. split; [done|]. split; [by simpl; rewrite F3|]. split; [done|].
  cbn [Kernel.forget Kernel.set_state outputs working]. change (k_state (mkKernel s3 ?a ?b)) with s3.
  fold s4. destruct (State.apply_fill s4 f) as [s5| |] eqn:E5; [|done|done]. cbn [mbind run_bind mret run_ret].
  destruct T4 as [(z & n & q & _ & Hz) _ _].
  destruct (apply_fill_twin s4 s4 f s5 (twin_refl _ _ Hz) E5) as (_ & _ & [(y & m' & p' & Hy & _) _ _] & _).
  by rewrite driven_stays by apply Hy.
Qed.

(** * The books *)

Definition state_of b : State M := k_state (bk_kernel b).
Definition paid b : Cash := fees (state_of b).
Definition charged_funding b : Cash := funding (state_of b).

Record led b : Prop := { led_x : ∃ x, driven (state_of b) x ∧ h_instrument x = bk_instrument b }.
Record follows b b' : Prop := {
  fo_led : led b;
  fo_twin : twin (state_of b) (state_of b');
  fo_seen : bk_seen b' = bk_seen b;
  fo_instrument : bk_instrument b' = bk_instrument b;
  fo_booked : bk_booked b' = bk_booked b;
}.
(** Nothing changed that the accounts of the venue are made of. *)
Record steady b b' : Prop := {
  sd_follows : follows b b';
  sd_paid : paid b' = paid b;
  sd_funding : charged_funding b' = charged_funding b;
  sd_unpriced : unpriced_fills b' = unpriced_fills b;
  sd_recovered : recovered_fees b' = recovered_fees b;
}.

Lemma follows_led b b' : follows b b' → led b'.
Proof.
  intros [[(x & Hx & Hi)] [(y & m & p & Hy & Hy') _ _] _ E _]. rewrite <-(driven_unique _ _ _ Hx Hy) in Hy'.
  split. exists (refit x m p). split; [done|]. by rewrite E.
Qed.
Lemma follows_refl b : led b → follows b b.
Proof. intros Hl. pose proof Hl as [(x & Hx & _)]. split; try done. by eapply twin_refl. Qed.
Lemma follows_sym b b' : follows b b' → follows b' b.
Proof. intros H. pose proof (follows_led _ _ H). destruct H as [? T ? ? ?]. split; try done. by apply twin_sym. Qed.
Lemma follows_trans b1 b2 b3 : follows b1 b2 → follows b2 b3 → follows b1 b3.
Proof. intros [? T ? ? ?] [? T' ? ? ?]. split; try congruence. by eapply twin_trans. Qed.
Lemma follows_kernel b k : led b → twin (state_of b) (k_state k) → follows b (Books.set_kernel b k).
Proof. intros Hl Ht. by split. Qed.
Lemma steady_refl b : led b → steady b b.
Proof. intros. split; try done. by apply follows_refl. Qed.

Lemma tick_steady b t : led b → ∃ o b', Books.on_tick b t = Ret (o, b') ∧ steady b b'.
Proof.
  intros Hl. pose proof Hl as [(x & Hx & _)]. destruct (tick_twin _ _ t Hx) as (k & Hk & Ht & F & U & _).
  unfold Books.on_tick. rewrite Hk. eexists _, _. split; [reflexivity|]. split; [by apply follows_kernel|done..].
Qed.
Lemma submit_steady b id side qty offset at_ b' : led b → Books.on_submit b id side qty offset at_ = Ret b' → steady b b'.
Proof.
  intros Hl H. pose proof Hl as [(x & Hx & _)]. apply bind_ret in H as (k & Hk & [= <-]).
  destruct (submit_twin _ _ _ _ _ _ _ _ Hx Hk) as (Ht & F & U & _). split; [by apply follows_kernel|done..].
Qed.
Lemma charge_follows b a at_ : led b → ∃ b', Books.on_funding_charged b a at_ = Ret b' ∧ follows b b' ∧
  paid b' = paid b ∧ charged_funding b' = Cash.add (charged_funding b) a ∧
  unpriced_fills b' = unpriced_fills b ∧ recovered_fees b' = recovered_fees b.
Proof.
  intros Hl. pose proof Hl as [(x & Hx & _)]. destruct (funding_twin _ _ a at_ Hx) as (k & Hk & Ht & F & U & _).
  unfold Books.on_funding_charged. rewrite Hk. eexists. split; [reflexivity|]. split; [by apply follows_kernel|done].
Qed.

Lemma open_instrument x short qty price sign y : Holding.open_leg x short qty price sign = Ret y → h_instrument y = h_instrument x.
Proof.
  unfold Holding.open_leg. destruct (QtyLots.is_zero qty); [by intros [= ->]|].
  destruct (if short then (h_short_qty x, _) else _) as [held cost]. intros (t & _ & [= <-])%bind_ret. by destruct short.
Qed.
Lemma close_instrument x short qty price pnl y : Holding.close_leg x short qty price = Ret (pnl, y) → h_instrument y = h_instrument x.
Proof.
  unfold Holding.close_leg. destruct (if short then (h_short_qty x, h_short_entry x, _) else _) as [[held entry] cost].
  destruct (QtyLots.is_zero held); [by intros [= _ ->]|].
  intros ([v p] & _ & (st & _ & (l & _ & [= _ <-])%bind_ret)%bind_ret)%bind_ret. by destruct short.
Qed.
Lemma apply_fill_instrument s x f s1 : driven s x → State.apply_fill s f = Ret s1 →
  ∃ y, driven s1 y ∧ h_instrument y = h_instrument x.
Proof.
  intros Hd H. unfold State.apply_fill, State.apply_fill_hedged in H. rewrite (driven_index _ _ _ Hd) in H.
  destruct (h_instrument x =? f_instrument f); [|done]. cbn [expect mbind run_bind] in H. rewrite (driven_at _ _ Hd) in H.
  cbn [mbind run_bind] in H. case_bool_decide.
  - destruct (f_offset f).
    + apply bind_ret in H as (y & Hy%open_instrument & [= <-]). exists y. split; [by eapply driven_put|done].
    + apply bind_ret in H as ([pnl y] & Hy%close_instrument & [= <-]). exists y. split; [by eapply driven_credit|done].
  - apply bind_ret in H as (signed & _ & H). destruct (negb (h_qty x =? 0) && _).
    + apply bind_ret in H as ([pnl y] & Hy%close_instrument & H). apply bind_ret in H as (r & _ & H).
      assert (driven (State.credit (State.add_realized (State.put s 0 y) pnl) pnl) y) as Hy' by by eapply driven_credit.
      destruct (r >? 0); [|injection H as <-; by exists y].
      apply bind_ret in H as (z & Hz%open_instrument & [= <-]). exists z. split; [by eapply driven_put|congruence].
    + apply bind_ret in H as (y & Hy%open_instrument & [= <-]). exists y. split; [by eapply driven_put|done].
Qed.

(** A fill the books took is taken by every set of books that follows them,
    whatever commission it comes with. *)
Lemma applied_kernel b b' f fee fee' k : follows b b' → fee ≠ Unsaid → fee' ≠ Unsaid → f_instrument f = bk_instrument b →
  Kernel.apply (bk_kernel b) (EVenueFill f fee) = Ret k →
  ∃ k', Kernel.apply (bk_kernel b') (EVenueFill f fee') = Ret k' ∧ twin (k_state k) (k_state k') ∧
    fees (k_state k') = Cash.add (paid b') (charged fee') ∧ funding (k_state k') = charged_funding b' ∧
    fees (k_state k) = Cash.add (paid b) (charged fee) ∧ funding (k_state k) = charged_funding b ∧
    ∃ x, driven (k_state k) x ∧ h_instrument x = bk_instrument b.
Proof.
  intros Hfo Hf Hf' Hi H. pose proof Hfo as [[(x & Hx & Hxi)] T _ Ei _].
  destruct (follows_led _ _ Hfo) as [(x' & Hx' & Hxi')].
  destruct (fill_kernel _ _ f fee Hx Hf ltac:(congruence)) as (s & Ts & F & U & E). rewrite E in H.
  destruct (fill_kernel _ _ f fee' Hx' Hf' ltac:(congruence)) as (s' & Ts' & F' & U' & E'). rewrite E'.
  apply bind_ret in H as (s1 & H1 & [= <-]).
  pose proof (twin_trans _ _ _ (twin_sym _ _ Ts) (twin_trans _ _ _ T Ts')) as Tss.
  destruct (apply_fill_twin _ _ _ _ Tss H1) as (s1' & H1' & T1 & (F1 & U1 & _) & (F1' & U1' & _)). rewrite H1'.
  eexists. split; [reflexivity|]. cbn [k_state]. split; [done|]. split; [by rewrite F1', F'|]. split; [by rewrite U1', U'|].
  split; [by rewrite F1, F|]. split; [by rewrite U1, U|].
  destruct Ts as [(y & m & p & Hy & Hs) _ _]. rewrite <-(driven_unique _ _ _ Hx Hy) in Hs.
  destruct (apply_fill_instrument _ _ _ _ Hs H1) as (z & Hz & Ez). exists z. split; [done|]. by rewrite Ez.
Qed.

Lemma venue_fee_said fee : venue_fee fee ≠ Unsaid.
Proof. by destruct fee. Qed.

(** The books after a fill they took. *)
Record filled b f (fee : Fee) b1 : Prop := {
  fl_led : led b1;
  fl_paid : paid b1 = Cash.add (paid b) (charged (venue_fee fee));
  fl_funding : charged_funding b1 = charged_funding b;
  fl_unpriced : unpriced_fills b1 = unpriced_fills b ++ (if bool_decide (venue_fee fee = Unreadable) then [f] else []);
  fl_recovered : recovered_fees b1 = recovered_fees b;
}.
Lemma fill_follows b b' f fee fee' o b1 : follows b b' → f_instrument f = bk_instrument b →
  Books.on_venue_fill b f fee = Ret (BApplied o, b1) →
  ∃ o' b1', Books.on_venue_fill b' f fee' = Ret (BApplied o', b1') ∧ follows b1 b1' ∧ filled b f fee b1 ∧ filled b' f fee' b1'.
Proof.
  intros Hfo Hi H. pose proof Hfo as [_ _ Es Ei En]. unfold Books.on_venue_fill in *.
  destruct (f_trade f =? 0); [done|]. rewrite Es, En.
  destruct (TradeWindow.insert (bk_seen b) (f_trade f) (f_side f)) as [[] w]; [|done|done].
  destruct (chku64 (bk_booked b + 1)) as [n| |]; [|done|done]. cbn [mbind run_bind] in *.
  apply bind_ret in H as (k & Hk & [= _ <-]).
  destruct (applied_kernel b b' f _ _ k Hfo (venue_fee_said fee) (venue_fee_said fee') Hi Hk)
    as (k' & -> & T & F' & U' & F & U & (x & Hx & Hxi)).
  eexists _, _. split; [reflexivity|]. assert (led (mkBooks k (bk_instrument b) w n
    (if bool_decide (venue_fee fee = Unreadable) then unpriced_fills b ++ [f] else unpriced_fills b) (recovered_fees b))) as Hl
    by (split; by exists x).
  assert (∀ z : list Fill, (if bool_decide (venue_fee fee = Unreadable) then z ++ [f] else z) =
    z ++ (if bool_decide (venue_fee fee = Unreadable) then [f] else [])) as Eu by (intros z; case_bool_decide; by rewrite ?app_nil_r).
  split; [by split|]. split; [by split; [exact Hl|done|done|apply Eu|done]|]. split; try done.
  - split. destruct T as [(y & m & p & Hy & Hy') _ _]. exists (refit y m p). split; [done|]. simpl. by rewrite <-(driven_unique _ _ _ Hx Hy), Ei.
  - simpl. destruct (bool_decide (venue_fee fee' = Unreadable)); by rewrite ?app_nil_r.
Qed.

Lemma fill_refused b f fee a b1 : Books.on_venue_fill b f fee = Ret (a, b1) → (∀ o, a ≠ BApplied o) → b1 = b.
Proof.
  unfold Books.on_venue_fill. destruct (f_trade f =? 0); [by intros [= _ ->]|]. unfold TradeWindow.insert.
  destruct (f_trade f <? _); [intros [= _ <-] _; by destruct b|].
  case_bool_decide; [intros [= _ <-] _; by destruct b|].
  destruct (_ <? _); intros (n & _ & (k & _ & [= <- _])%bind_ret)%bind_ret Ha; by destruct (Ha (outputs k)).
Qed.

(** A commission recovered. *)
Lemma recover_follows b f amount at_ r b1 : led b → Books.recover_fee b f amount at_ = Ret (r, b1) →
  match r with
  | Ok true => follows b b1 ∧ paid b1 = Cash.add (paid b) amount ∧ charged_funding b1 = charged_funding b ∧
      local (f_stamp f) ≤ at_ ∧ recovered_fees b1 = recovered_fees b ++ [(f, amount)] ∧
      ∃ i, unpriced_fills b !! i = Some f ∧ unpriced_fills b1 = take i (unpriced_fills b) ++ drop (S i) (unpriced_fills b)
  | _ => b1 = b
  end.
Proof.
  intros Hl H. unfold Books.recover_fee in H. destruct (Z.ltb_spec at_ (local (f_stamp f))); [by injection H as <- <-|].
  destruct (find _ _) as [[f' prior]|]; [injection H as <- <-; by destruct (prior =? amount)|].
  destruct (position _ _) as [i|] eqn:Ep; [|by injection H as <- <-].
  destruct (position_Some _ _ _ Ep) as (x & Hx & Exf & _). apply bool_decide_eq_true in Exf as ->.
  apply bind_ret in H as (k & Hk & [= <- <-]). pose proof Hl as [(y & Hy & _)].
  destruct (recovered_twin _ _ at_ amount (Z.of_nat (length (take i (unpriced_fills b) ++ drop (S i) (unpriced_fills b)))) Hy)
    as (k' & Hk' & T & F & U). rewrite Hk' in Hk. injection Hk as ->.
  split; [by split|]. split_and!; try done. by exists i.
Qed.

(** * The beginning and the end *)

Lemma new_led i c t starting md : led (Books.new i c t starting md : Books M) ∧
  paid (Books.new i c t starting md : Books M) = 0 ∧ charged_funding (Books.new i c t starting md : Books M) = 0.
Proof. split_and!; [|done|done]. split. eexists. split; [split; reflexivity|done]. Qed.

(** Taking over a position is a fill nobody priced. *)
Lemma adopt_follows b b' side qty entry at_ at' b1 : follows b b' →
  Books.adopt b side qty entry at_ = Ret b1 →
  ∃ b1', Books.adopt b' side qty entry at' = Ret b1' ∧ follows b1 b1' ∧
    (paid b = 0 → paid b1 = 0) ∧ (paid b' = 0 → paid b1' = 0) ∧
    charged_funding b1 = charged_funding b ∧ charged_funding b1' = charged_funding b' ∧
    unpriced_fills b1 = unpriced_fills b ∧ recovered_fees b1 = recovered_fees b ∧ bk_instrument b1 = bk_instrument b ∧
    bk_seen b1 = bk_seen b ∧ bk_booked b1 = bk_booked b.
Proof.
  intros Hfo H. unfold Books.adopt in *. destruct (qty <=? 0); [injection H as <-; exists b'; by split_and!|].
  apply bind_ret in H as (k & Hk & [= <-]). pose proof Hfo as [_ _ Es Ei En].
  assert (∃ k', Kernel.apply (bk_kernel b') (EVenueFill (Books.adoption b' side qty entry at') Unreadable) = Ret k' ∧
    twin (k_state k) (k_state k') ∧ fees (k_state k') = Cash.add (paid b') 0 ∧ funding (k_state k') = charged_funding b' ∧
    fees (k_state k) = Cash.add (paid b) 0 ∧ funding (k_state k) = charged_funding b ∧
    ∃ x, driven (k_state k) x ∧ h_instrument x = bk_instrument b) as (k' & -> & T & F' & U' & F & U & Hx).
  { pose proof Hfo as [[(x & Hx & Hxi)] T _ _ _]. destruct (follows_led _ _ Hfo) as [(x' & Hx' & Hxi')].
    destruct (fill_kernel _ _ (Books.adoption b side qty entry at_) Unreadable Hx ltac:(done) Hxi) as (s & Ts & F & U & E).
    rewrite E in Hk. destruct (fill_kernel _ _ (Books.adoption b' side qty entry at') Unreadable Hx' ltac:(done) Hxi')
      as (s' & Ts' & F' & U' & E'). rewrite E'. apply bind_ret in Hk as (s1 & H1 & [= <-]).
    pose proof (twin_trans _ _ _ (twin_sym _ _ Ts) (twin_trans _ _ _ T Ts')) as Tss.
    destruct (apply_fill_twin _ _ _ _ Tss H1) as (s1' & H1' & T1 & (F1 & U1 & _) & (F1' & U1' & _)).
    assert (State.apply_fill s' (Books.adoption b' side qty entry at') = Ret s1') as H2.
    { rewrite <-H1'. unfold Books.adoption. by rewrite Ei. }
    rewrite H2. eexists. split; [reflexivity|]. cbn [k_state]. rewrite F1', F', U1', U', F1, F, U1, U. split_and!; try done.
    destruct Ts as [(y & m & p & Hy & Hs) _ _]. rewrite <-(driven_unique _ _ _ Hx Hy) in Hs.
    destruct (apply_fill_instrument _ _ _ _ Hs H1) as (z & Hz & Ez). exists z. split; [done|]. by rewrite Ez. }
  eexists. split; [reflexivity|]. split; [by split|]. unfold paid in *.
  change (state_of (Books.set_kernel b k)) with (k_state k). change (state_of (Books.set_kernel b' k')) with (k_state k').
  rewrite F, F'. split_and!; try done; intros ->; by vm_compute.
Qed.

(** What is reported at the end depends on the position only. *)
Lemma context_follows b b' t n : follows b b' →
  ∃ cx cx', Books.context b t n = Ret cx ∧ Books.context b' t n = Ret cx' ∧ cx_position cx' = cx_position cx ∧
    cx_entry cx' = cx_entry cx ∧ cx_short_position cx' = cx_short_position cx ∧ cx_short_entry cx' = cx_short_entry cx.
Proof.
  intros [_ [(x & m & p & Hx & Hx') _ _] _ _ _]. unfold Books.context, summary, state_of in *.
  rewrite (driven_holding _ _ Hx), (driven_holding _ _ Hx'). by do 2 eexists.
Qed.
Lemma parts_follow b b' : follows b b' →
  ∃ r, Books.realized_parts b = (r, paid b, charged_funding b) ∧ Books.realized_parts b' = (r, paid b', charged_funding b').
Proof. intros [_ [_ _ Hr] _ _ _]. exists (realized (state_of b)). unfold Books.realized_parts. split; [done|]. by rewrite <-Hr. Qed.
End twin.
