(* ===== verification/FundingWatch.v ===== *)
(** Funding settlements of a live session: the venue's arithmetic, and the
    watch that waits for its figures ([oq-live/src/funding.rs]). *)

From stdpp Require Import gmap strings.
From S2P Require Import Prelude Slices SortedVec Bytes Text Types Instrument LiveRecord.
#[local] Open Scope Z_scope.

Implicit Types (s : text).

Definition OVERDUE_MS : Z := 30 * 60000.
Definition SAME_SETTLEMENT_MS : Z := 60000.

(** * The venue's arithmetic *)

(** [split_once('.')], and an empty fraction where there is none. *)
Fixpoint split_point s : text * text :=
  match s with
  | [] => ([], [])
  | c :: s => if c =? 46 then ([], s) else let '(w, x) := split_point s in (c :: w, x)
  end.
(** A decimal as an integer and its places. *)
Definition decimal s : option (Z * nat) :=
  let t := trim s in
  let '(whole, frac) := split_point t in
  if negb (forallb is_digit frac) then None
  else
    let negative := match whole with c :: _ => c =? 45 | [] => false end in
    digits ← parse_digits (trim_signs whole ++ frac);
    if decide (u32 (Z.of_nat (length frac))) then Some (if negative then - digits else digits, length frac) else None.

Definition checked128 (z : Z) : option Z := if decide (i128 z) then Some z else None.
(** [checked_pow]; no [i128] holds [10^39]. *)
Definition pow10 (n : Z) : option Z := if 39 <=? n then None else checked128 (10 ^ n).

Definition charge (i : Instrument) (lots : QtyLots) (rate mark : text) : run (option Cash) :=
  if negb (contract_size i =? CONTRACT_SCALE) then mret None
  else
    match decimal rate with
    | None => mret None
    | Some (rate_m, rate_s) =>
        match decimal mark with
        | None => mret None
        | Some (mark_m, mark_s) =>
            let numerator :=
              n ← checked128 (lots * mark_m); n ← checked128 (n * rate_m); n ← checked128 (n * 100000000); checked128 (- n) in
            match numerator with
            | None => mret None
            | Some n =>
                places ← chk u32 (qty_scale i + Z.of_nat mark_s);
                places ← chk u32 (places + Z.of_nat rate_s);
                mret (d ← pow10 places; let q := Z.quot n d in if decide (i64 q) then Some q else None)
            end
        end
    end.

Abbreviation Legs := (QtyLots * QtyLots)%type.

(** Long then short, as held at a settlement. *)
Fixpoint charge_each (i : Instrument) (rate mark : text) (total : Cash) (ls : list QtyLots) : run (option Cash) :=
  match ls with
  | [] => mret (Some total)
  | l :: ls =>
      if l =? 0 then charge_each i rate mark total ls
      else
        c ← charge i l rate mark;
        match c with Some c => charge_each i rate mark (Cash.add total c) ls | None => mret None end
  end.
Definition charge_legs (i : Instrument) (l : Legs) (rate mark : text) : run (option Cash) :=
  charge_each i rate mark Cash.ZERO [l.1; l.2].

(** * The watch *)

(** What an account reports: a line of its ledger, and the rate of a settlement
    ([oq-gateway/src/account.rs]). *)
Record FundingCharge := mkCharge { fc_time : Z; fc_amount : Cash; fc_id : Z }.
Record SettledRate := mkRate { sr_time : Z; sr_rate : text; sr_mark : text }.

#[export] Instance FundingCharge_eq_dec : EqDecision FundingCharge.
Proof. solve_decision. Defined.

Record Pending := mkPending { pd_at : Z; pd_live : Legs; pd_model : Legs; pd_overdue : bool }.
Record Settled := mkSettled {
  st_at : Z; st_rate : text; st_mark : text; st_venue : Cash; st_model : Cash; st_verified : bool;
  st_lines : list FundingCharge;
}.
Record RecoveredFunding := mkRecovered { rv_since : Z; rv_through : Z; rv_lines : list FundingCharge }.

Record FundingWatch := mkWatch {
  fw_instrument : Instrument;
  next_ms : option Z;
  pending : list Pending;
  venue_total : Cash;
  model_total : Cash;
  fw_problem : option text;
  settled_count : nat;
  booked_lines : gmap Z (Z * Cash);
  fw_gaps : list ScheduleGap;
}.

Module FundingWatch.
Implicit Types (w : FundingWatch) (ls : list FundingCharge).

Definition set_next w (n : option Z) : FundingWatch :=
  mkWatch (fw_instrument w) n (pending w) (venue_total w) (model_total w) (fw_problem w) (settled_count w) (booked_lines w) (fw_gaps w).
Definition set_pending w (ps : list Pending) : FundingWatch :=
  mkWatch (fw_instrument w) (next_ms w) ps (venue_total w) (model_total w) (fw_problem w) (settled_count w) (booked_lines w) (fw_gaps w).
Definition set_problem w (p : text) : FundingWatch :=
  mkWatch (fw_instrument w) (next_ms w) (pending w) (venue_total w) (model_total w) (Some p) (settled_count w) (booked_lines w) (fw_gaps w).
Definition set_gaps w (gs : list ScheduleGap) : FundingWatch :=
  mkWatch (fw_instrument w) (next_ms w) (pending w) (venue_total w) (model_total w) (fw_problem w) (settled_count w) (booked_lines w) gs.
Definition book_line w (l : FundingCharge) : FundingWatch :=
  mkWatch (fw_instrument w) (next_ms w) (pending w) (venue_total w) (model_total w) (fw_problem w) (settled_count w)
    (<[fc_id l := (fc_time l, fc_amount l)]> (booked_lines w)) (fw_gaps w).

Definition new (i : Instrument) (next : result (option Z) text) : FundingWatch :=
  let '(n, problem) :=
    match next with
    | Ok (Some t) => (Some t, None)
    | Ok None => (None, Some (text_of "this venue's adapter does not report funding settlements"))
    | Err e => (None, Some (text_of "the next funding settlement could not be read: " ++ e))
    end in
  let problem :=
    match problem with
    | Some p => Some p
    | None => if negb (contract_size i =? CONTRACT_SCALE)
              then Some (text_of "funding is computed for linear contracts only") else None
    end in
  mkWatch i n [] Cash.ZERO Cash.ZERO problem 0 ∅ [].

Definition begin_schedule_gap w (since : Z) : FundingWatch :=
  if match last (fw_gaps w) with Some g => bool_decide (is_Some (until_ms g)) | None => true end
  then set_gaps w (fw_gaps w ++ [mkGap since None]) else w.

(** The loop's clock moved; [next] is the venue's answer, asked only when a
    settlement was passed. *)
Definition on_time w (now_ms : Z) (live model : Legs) (next : option Z) : FundingWatch :=
  match next_ms w with
  | None => begin_schedule_gap w now_ms
  | Some t =>
      if now_ms <? t then w
      else
        let w := set_pending w (pending w ++ [mkPending t live model false]) in
        let w := set_next w (n ← next; if t <? n then Some n else None) in
        let w := if bool_decide (next_ms w = None) then begin_schedule_gap w t else w in
        if bool_decide (next_ms w = None ∧ fw_problem w = None)
        then set_problem w (text_of "the settlement after " ++ shown t ++ text_of " could not be read") else w
  end.

Definition needs_schedule w : bool := bool_decide (next_ms w = None).

Definition close_last_gap (gs : list ScheduleGap) (until : Z) : list ScheduleGap :=
  match last gs with
  | Some g => take (length gs - 1) gs ++ [mkGap (since_ms g) (Some until)]
  | None => gs
  end.
Definition rediscover_schedule w (now_ms : Z) (next : result (option Z) text) : FundingWatch :=
  if negb (needs_schedule w) then w
  else
    let w := begin_schedule_gap w now_ms in
    match (match next with Ok (Some n) => if now_ms <? n then Some n else None | _ => None end) with
    | Some n => set_gaps (set_next w (Some n)) (close_last_gap (fw_gaps w) now_ms)
    | None => w
    end.

Definition unresolved w : list Z := pd_at <$> pending w.
Definition obligations w : FundingObligations := mkObligations (unresolved w) (fw_gaps w) (fw_problem w).
Definition waiting w : bool := negb (bool_decide (pending w = [])).

Definition minimum (l : list Z) : option Z := match l with [] => None | a :: l => Some (fold_left Z.min l a) end.
Definition asking_since w : option Z :=
  let p := (λ t, sat64 (t - SAME_SETTLEMENT_MS)) <$> minimum (pd_at <$> pending w) in
  minimum (option_list p ++ (since_ms <$> fw_gaps w)).
Definition needs_poll w : bool := waiting w || needs_schedule w || negb (bool_decide (fw_gaps w = [])).

(** A [BTreeMap] from identity to line. *)
Abbreviation Lines := (list (Z * FundingCharge)).
Definition put_line (u : Lines) (l : FundingCharge) : Lines := sv_upsert (fc_id l) (λ _, l) l u.

(** The lines by identity, or the first identity whose evidence conflicts. *)
Fixpoint unique_lines w (bad : bool → Z → text) (u : Lines) ls : result Lines text :=
  match ls with
  | [] => Ok u
  | l :: ls =>
      if match booked_lines w !! fc_id l with Some prior => negb (bool_decide (prior = (fc_time l, fc_amount l))) | None => false end
      then Err (bad true (fc_id l))
      else if match sv_get (fc_id l) u with Some prior => negb (bool_decide (prior = l)) | None => false end
      then Err (bad false (fc_id l))
      else unique_lines w bad (put_line u l) ls
  end.

(** * Unknown intervals *)

Definition conflict_in_recovery (_ : bool) (id : Z) : text :=
  text_of "funding recovery identity " ++ shown id ++ text_of " has conflicting evidence".
Definition in_gap (now_ms : Z) (time : Z) (g : ScheduleGap) : bool :=
  (since_ms g <=? time) && (time <=? default now_ms (until_ms g)).
Definition near (a b : Z) : bool := Z.abs (a - b) <=? SAME_SETTLEMENT_MS.
(** Not booked, not in the future, in an interval nobody knew the schedule of,
    and not a settlement that is being waited for. *)
Definition recoverable w (now_ms : Z) (l : FundingCharge) : bool :=
  negb (bool_decide (is_Some (booked_lines w !! fc_id l)) || (now_ms <? fc_time l)) &&
  existsb (in_gap now_ms (fc_time l)) (fw_gaps w) &&
  negb (existsb (λ p, near (fc_time l) (pd_at p)) (pending w)).
Definition by_time_and_id (a b : FundingCharge) : bool :=
  (fc_time a <? fc_time b) || ((fc_time a =? fc_time b) && (fc_id a <=? fc_id b)).
Fixpoint insert_sorted (l : FundingCharge) ls : list FundingCharge :=
  match ls with
  | [] => [l]
  | a :: ls => if by_time_and_id l a then l :: a :: ls else a :: insert_sorted l ls
  end.
Definition sort_lines ls : list FundingCharge := foldr insert_sorted [] ls.

Definition recover_unknown w ls (now_ms : Z) : option RecoveredFunding * FundingWatch :=
  match minimum (since_ms <$> fw_gaps w) with
  | None => (None, w)
  | Some since =>
      match unique_lines w conflict_in_recovery [] ls with
      | Err why => (None, set_problem w why)
      | Ok u =>
          let found := sort_lines (List.filter (recoverable w now_ms) (snd <$> u)) in
          if bool_decide (found = []) then (None, w)
          else (Some (mkRecovered since now_ms found), fold_left book_line found w)
      end
  end.

(** * Known settlements *)

Definition conflict_in_ledger (changed : bool) (id : Z) : text :=
  text_of "funding ledger identity " ++ shown id ++
  text_of (if changed then " changed after booking" else " has conflicting evidence").
(** [(a - b).abs() <= SAME_SETTLEMENT_MS], on an [i64]. *)
Definition near64 (a b : Z) : run bool := d ← chk64 (a - b); d ← chk64 (Z.abs d); mret (d <=? SAME_SETTLEMENT_MS).
Fixpoint rate_at (at_ : Z) (rates : list SettledRate) : run (option SettledRate) :=
  match rates with
  | [] => mret None
  | r :: rates => b ← near64 (sr_time r) at_; if b : bool then mret (Some r) else rate_at at_ rates
  end.
Fixpoint lines_at (at_ : Z) ls : run (list FundingCharge) :=
  match ls with
  | [] => mret []
  | l :: ls => b ← near64 (fc_time l) at_; found ← lines_at at_ ls; mret (if b : bool then l :: found else found)
  end.
Definition keep_pending (p : Pending) (now_ms : Z) : Pending :=
  mkPending (pd_at p) (pd_live p) (pd_model p) (pd_overdue p || (OVERDUE_MS <? sat64 (now_ms - pd_at p))).
Definition settle w (s : Settled) : FundingWatch :=
  let w := mkWatch (fw_instrument w) (next_ms w) (pending w) (Cash.add (venue_total w) (st_venue s))
             (Cash.add (model_total w) (st_model s)) (fw_problem w) (S (settled_count w)) (booked_lines w) (fw_gaps w) in
  fold_left book_line (st_lines s) w.

(** One settlement: answered, or kept waiting. *)
Definition resolve_one w (rates : list SettledRate) (u : Lines) (now_ms : Z) (p : Pending)
    : run (FundingWatch * (Settled + Pending)) :=
  rate ← rate_at (pd_at p) rates;
  booked ← lines_at (pd_at p) (snd <$> u);
  if existsb (λ l, bool_decide (is_Some (booked_lines w !! fc_id l))) booked then
    mret (set_problem w (text_of "the settlement at " ++ shown (pd_at p) ++ text_of " overlaps an already booked ledger identity"),
          inr (keep_pending p now_ms))
  else
    match rate with
    | None => mret (w, inr (keep_pending p now_ms))
    | Some rate =>
        expected ← charge_legs (fw_instrument w) (pd_live p) (sr_rate rate) (sr_mark rate);
        model ← charge_legs (fw_instrument w) (pd_model p) (sr_rate rate) (sr_mark rate);
        match expected, model with
        | Some expected, Some model =>
            if bool_decide (booked = []) && negb (expected =? Cash.ZERO) then mret (w, inr (keep_pending p now_ms))
            else
              let venue := fold_left (λ a l, Cash.add a (fc_amount l)) booked Cash.ZERO in
              let verified := venue =? expected in
              let w := if negb verified && bool_decide (fw_problem w = None)
                       then set_problem w (text_of "the settlement at " ++ shown (pd_at p) ++ text_of " was charged " ++ shown venue ++
                              text_of " where the live positions compute " ++ shown expected ++
                              text_of ": the model's funding cannot be trusted for this run")
                       else w in
              let s := mkSettled (pd_at p) (sr_rate rate) (sr_mark rate) venue model verified booked in
              mret (settle w s, inl s)
        | _, _ =>
            mret (set_problem w (text_of "the settlement at " ++ shown (pd_at p) ++ text_of " did not compute"),
                  inr (keep_pending p now_ms))
        end
    end.
Fixpoint resolve_each w (rates : list SettledRate) (u : Lines) (now_ms : Z) (ps : list Pending)
    : run (FundingWatch * list Settled * list Pending) :=
  match ps with
  | [] => mret (w, [], [])
  | p :: ps =>
      '(w, a) ← resolve_one w rates u now_ms p;
      '(w, out, still) ← resolve_each w rates u now_ms ps;
      mret (match a with inl s => (w, s :: out, still) | inr p => (w, out, p :: still) end)
  end.
Definition resolve w (rates : list SettledRate) ls (now_ms : Z) : run (list Settled * FundingWatch) :=
  match unique_lines w conflict_in_ledger [] ls with
  | Err why => mret ([], set_problem w why)
  | Ok u =>
      '(w, out, still) ← resolve_each (set_pending w []) rates u now_ms (pending w);
      mret (out, set_pending w still)
  end.

Definition evidence w : result (Cash * Cash) text :=
  match fw_problem w with
  | Some why => Err why
  | None =>
      match pending w with
      | p :: _ =>
          Err (text_of "the settlement at " ++ shown (pd_at p) ++ text_of " is " ++
               (if pd_overdue p then text_of "overdue after 30 minutes and still " else []) ++
               text_of "waiting for the venue to publish its rate and ledger")
      | [] => Ok (venue_total w, model_total w)
      end
  end.
End FundingWatch.
