(* ===== verification/FundingKept.v ===== *)
(** The funding watch loses nothing and charges nothing twice. *)

From stdpp Require Import gmap strings.
From S2P Require Import Prelude Slices SortedVec Text Types Instrument LiveRecord FundingWatch.
#[local] Open Scope Z_scope.

(** * Each line is booked once, and no settlement is lost *)

Implicit Types (w : FundingWatch) (ls all : list FundingCharge).

(** What a session asks of the watch, with the venue's answers. *)
Inductive Ask :=
| ATime (now_ms : Z) (live model : Legs) (next : option Z)
| ARediscover (now_ms : Z) (next : result (option Z) text)
| AResolve (now_ms : Z) (rates : list SettledRate) ls
| ARecover (now_ms : Z) ls.
Definition asked_at (a : Ask) : Z :=
  match a with ATime n _ _ _ | ARediscover n _ | AResolve n _ _ | ARecover n _ => n end.

(** What came of it: settlements, recovered lines, and the times crossed. *)
Record Outcome := mkOutcome { oc_settled : list Settled; oc_recovered : list RecoveredFunding; oc_crossed : list Z }.
Definition nothing : Outcome := mkOutcome [] [] [].
Definition outcomes (a b : Outcome) : Outcome :=
  mkOutcome (oc_settled a ++ oc_settled b) (oc_recovered a ++ oc_recovered b) (oc_crossed a ++ oc_crossed b).
Definition lines_of (o : Outcome) : list FundingCharge := (oc_settled o ≫= st_lines) ++ (oc_recovered o ≫= rv_lines).

Definition crossing w (now_ms : Z) : list Z :=
  match next_ms w with Some t => if now_ms <? t then [] else [t] | None => [] end.
Definition ask w (a : Ask) : run (Outcome * FundingWatch) :=
  match a with
  | ATime now_ms live model next => mret (mkOutcome [] [] (crossing w now_ms), FundingWatch.on_time w now_ms live model next)
  | ARediscover now_ms next => mret (nothing, FundingWatch.rediscover_schedule w now_ms next)
  | AResolve now_ms rates ls => '(out, w) ← FundingWatch.resolve w rates ls now_ms; mret (mkOutcome out [] [], w)
  | ARecover now_ms ls => let '(r, w) := FundingWatch.recover_unknown w ls now_ms in mret (mkOutcome [] (option_list r) [], w)
  end.
Fixpoint ask_all w (asks : list Ask) : run (Outcome * FundingWatch) :=
  match asks with
  | [] => mret (nothing, w)
  | a :: asks => '(o, w) ← ask w a; '(o', w) ← ask_all w asks; mret (outcomes o o', w)
  end.

(** The lines booked, as the watch remembers them. *)
Record remembers (B : gmap Z (Z * Cash)) all : Prop := {
  rm_once : NoDup (fc_id <$> all);
  rm_booked : ∀ l, l ∈ all ↔ B !! fc_id l = Some (fc_time l, fc_amount l);
}.

Lemma remembers_none B all l : remembers B all → B !! fc_id l = None → fc_id l ∉ fc_id <$> all.
Proof. intros [_ HB] Hn (x & E & Hx)%list_elem_of_fmap. apply HB in Hx. congruence. Qed.

Lemma remembers_add B all l : remembers B all → B !! fc_id l = None →
  remembers (<[fc_id l := (fc_time l, fc_amount l)]> B) (all ++ [l]).
Proof.
  intros Hr Hn. pose proof (remembers_none _ _ _ Hr Hn) as Hf. destruct Hr as [Ho HB]. split.
  - rewrite fmap_app. apply NoDup_app. split; [done|]. split; [|apply NoDup_singleton].
    by intros x Hx ->%list_elem_of_singleton.
  - intros x. rewrite elem_of_app, list_elem_of_singleton, HB. destruct (decide (fc_id x = fc_id l)) as [E|E].
    + rewrite E, lookup_insert_eq, Hn. destruct x, l; simpl in *. split; [intros [?|?]; congruence|intros [= -> ->]; right; congruence].
    + rewrite lookup_insert_ne by done. split; [|auto]. intros [?| ->]; done.
Qed.

Lemma remembers_all ls : ∀ w all, remembers (booked_lines w) all → NoDup (fc_id <$> ls) →
  (∀ l, l ∈ ls → booked_lines w !! fc_id l = None) → remembers (booked_lines (fold_left FundingWatch.book_line ls w)) (all ++ ls).
Proof.
  induction ls as [|l ls IH]; intros w all Hr Hd Hf; simpl; [by rewrite app_nil_r|].
  apply NoDup_cons in Hd as [Hl Hd]. replace (all ++ l :: ls) with ((all ++ [l]) ++ ls) by by rewrite <-(assoc_L (++)).
  apply IH; [apply remembers_add; [done|apply Hf, list_elem_of_here]|done|]. intros x Hx. simpl.
  rewrite lookup_insert_ne; [apply Hf; by right|]. intros E. apply Hl. rewrite E. by apply list_elem_of_fmap_2.
Qed.

(** Booking changes the remembered lines only. *)
Lemma book_all_frame ls : ∀ w, let w' := fold_left FundingWatch.book_line ls w in
  pending w' = pending w ∧ next_ms w' = next_ms w ∧ fw_gaps w' = fw_gaps w ∧ fw_problem w' = fw_problem w.
Proof. induction ls as [|l ls IH]; intros w; simpl; [done|]. by destruct (IH (FundingWatch.book_line w l)) as (-> & -> & -> & ->). Qed.

(** A map from identity to line. *)
Definition keyed (u : list (Z * FundingCharge)) : Prop := sv_ok u ∧ ∀ e, e ∈ u → e.1 = fc_id e.2.

Lemma keyed_nodup u : keyed u → NoDup (fc_id <$> (snd <$> u)).
Proof.
  intros [Hs Hk]. replace (fc_id <$> (snd <$> u)) with (fst <$> u).
  - induction Hs as [|e u Hs IH HF]; simpl; [constructor|]. constructor; [|apply IH; intros; apply Hk; by right].
    intros (x & E & Hx)%list_elem_of_fmap. rewrite Forall_forall in HF. specialize (HF x Hx). unfold key_lt in HF.
    rewrite E, kcmp_refl in HF. done.
  - clear Hs. induction u as [|e u IH]; simpl; [done|]. f_equal; [apply Hk, list_elem_of_here|]. apply IH. intros. apply Hk. by right.
Qed.

Lemma put_line_keyed u l : keyed u → keyed (FundingWatch.put_line u l).
Proof.
  intros [Hs Hk]. unfold FundingWatch.put_line. split; [by apply sv_upsert_ok|]. intros [k v] Hin.
  apply (sv_get_elem k v) in Hin; [|by apply sv_upsert_ok]. rewrite sv_get_upsert in Hin by done.
  case_decide as E; [|apply (Hk (k, v)); by apply sv_get_elem]. apply kcmp_eq in E as ->. simpl.
  by destruct (sv_get (fc_id l) u); injection Hin as <-.
Qed.

Lemma unique_lines_keyed w bad ls : ∀ u u', keyed u → FundingWatch.unique_lines w bad u ls = Ok u' → keyed u'.
Proof.
  induction ls as [|l ls IH]; intros u u' Hu H; simpl in H; [by injection H as <-|].
  destruct (match booked_lines w !! fc_id l with Some _ => _ | None => _ end); [done|].
  destruct (match sv_get (fc_id l) u with Some _ => _ | None => _ end); [done|].
  eapply IH; [|exact H]. by apply put_line_keyed.
Qed.

Lemma keyed_nil : keyed [].
Proof. split; [constructor|]. intros e He. by apply not_elem_of_nil in He. Qed.

Lemma insert_sorted_perm l ls : Permutation (FundingWatch.insert_sorted l ls) (l :: ls).
Proof.
  induction ls as [|a ls IH]; simpl; [done|]. destruct (FundingWatch.by_time_and_id l a); [done|].
  rewrite IH. apply perm_swap.
Qed.
Lemma sort_lines_perm ls : Permutation (FundingWatch.sort_lines ls) ls.
Proof. induction ls as [|l ls IH]; simpl; [done|]. by rewrite insert_sorted_perm, IH. Qed.

Lemma keyed_filter_nodup u (p : FundingCharge → bool) : keyed u → NoDup (fc_id <$> List.filter p u.*2).
Proof. intros Hu. eapply sublist_NoDup; [by apply keyed_nodup|]. apply fmap_sublist, sublist_list_filter. Qed.

Lemma near64_spec a b r : FundingWatch.near64 a b = Ret r → r = FundingWatch.near a b.
Proof.
  unfold FundingWatch.near64, FundingWatch.near. intros (d & Hd & (e & He & [= <-])%bind_ret)%bind_ret.
  apply chk_inv in Hd as [-> _]. by apply chk_inv in He as [-> _].
Qed.

(** What each settlement is charged: the lines within a minute of it. *)
Lemma lines_at_spec at_ ls found : FundingWatch.lines_at at_ ls = Ret found →
  found = List.filter (λ l, FundingWatch.near (fc_time l) at_) ls.
Proof.
  revert found. induction ls as [|l ls IH]; intros found H; simpl in H; [by injection H as <-|].
  apply bind_ret in H as (b & ->%near64_spec & H). apply bind_ret in H as (x & Hx & [= <-]). simpl.
  rewrite <-(IH x Hx). by destruct (FundingWatch.near _ _).
Qed.

Lemma fresh_lines (B : gmap Z (Z * Cash)) ls :
  existsb (λ l, bool_decide (is_Some (B !! fc_id l))) ls = false → ∀ l, l ∈ ls → B !! fc_id l = None.
Proof.
  intros H l Hl. apply eq_None_not_Some. intros Hs. apply not_true_iff_false in H. apply H, existsb_exists.
  exists l. split; [by apply list_elem_of_In|]. by apply bool_decide_eq_true.
Qed.

Lemma fold_min_le l : ∀ a, fold_left Z.min l a ≤ a ∧ ∀ x, x ∈ l → fold_left Z.min l a ≤ x.
Proof.
  induction l as [|b l IH]; intros a; simpl; [split; [lia|intros x Hx; by apply not_elem_of_nil in Hx]|].
  destruct (IH (Z.min a b)) as [H1 H2]. split; [lia|]. intros x [->|Hx]%elem_of_cons; [lia|auto].
Qed.
Lemma minimum_le l m x : FundingWatch.minimum l = Some m → x ∈ l → m ≤ x.
Proof.
  destruct l as [|a l]; [done|]. intros [= <-]. destruct (fold_min_le l a) as [H1 H2]. intros [->|Hx]%elem_of_cons; auto.
Qed.

(** What is recovered lies in an interval whose schedule nobody knew. *)
Lemma recoverable_spec w now_ms l since : FundingWatch.recoverable w now_ms l = true →
  FundingWatch.minimum (since_ms <$> fw_gaps w) = Some since →
  booked_lines w !! fc_id l = None ∧ since ≤ fc_time l ≤ now_ms.
Proof.
  unfold FundingWatch.recoverable. intros H Hm. apply andb_true_iff in H as [[H1 H2]%andb_true_iff _].
  apply negb_true_iff, orb_false_iff in H1 as [Hb Ht%Z.ltb_ge]. apply bool_decide_eq_false, eq_None_not_Some in Hb.
  split; [done|]. split; [|done]. apply existsb_exists in H2 as (g & Hg & Hi).
  unfold FundingWatch.in_gap in Hi. apply andb_true_iff in Hi as [Hi%Z.leb_le _].
  etransitivity; [|exact Hi]. eapply minimum_le; [exact Hm|]. by apply list_elem_of_fmap_2, list_elem_of_In.
Qed.

Lemma recovers w ls now_ms r w' all : remembers (booked_lines w) all →
  FundingWatch.recover_unknown w ls now_ms = (r, w') →
  remembers (booked_lines w') (all ++ (option_list r ≫= rv_lines)) ∧ pending w' = pending w ∧ next_ms w' = next_ms w ∧
  fw_gaps w' = fw_gaps w ∧
  match r with
  | Some r => rv_through r = now_ms ∧ rv_since r ≤ now_ms ∧
      Forall (λ l, rv_since r ≤ fc_time l ≤ now_ms ∧ FundingWatch.recoverable w now_ms l = true) (rv_lines r)
  | None => True
  end.
Proof.
  intros Hr H. unfold FundingWatch.recover_unknown in H.
  destruct (FundingWatch.minimum (since_ms <$> fw_gaps w)) as [since|] eqn:Em; [|injection H as <- <-; by rewrite app_nil_r].
  destruct (FundingWatch.unique_lines w _ [] ls) as [u|why] eqn:Eu; [|injection H as <- <-; by rewrite app_nil_r].
  set (found := FundingWatch.sort_lines _) in *. case_bool_decide as En; [injection H as <- <-; by rewrite app_nil_r|].
  injection H as <- <-. simpl. rewrite app_nil_r.
  pose proof (sort_lines_perm (List.filter (FundingWatch.recoverable w now_ms) u.*2)) as Hp. fold found in Hp.
  assert (∀ l, l ∈ found → FundingWatch.recoverable w now_ms l = true) as Hf.
  { intros l Hl. rewrite Hp in Hl. by apply list_elem_of_In, filter_In in Hl as [_ ?]. }
  destruct (book_all_frame found w) as (-> & -> & -> & _). split_and!; try done.
  - apply remembers_all; [done| |intros l Hl; by eapply recoverable_spec; [apply Hf|]].
    rewrite Hp. eapply keyed_filter_nodup. by eapply unique_lines_keyed; [apply keyed_nil|].
  - destruct found as [|l ?] eqn:Ef; [done|]. destruct (recoverable_spec w now_ms l since (Hf l ltac:(left)) Em). lia.
  - apply Forall_forall. intros l Hl. split; [|by apply Hf]. by eapply recoverable_spec; [apply Hf|].
Qed.

(** One settlement answered or kept: the lines it books are new, near it, and
    sum to what it reports. *)
Record one_resolved w w' (p : Pending) (a : sum Settled Pending) all : Prop := {
  or_booked : remembers (booked_lines w') (all ++ match a with inl s => st_lines s | inr _ => [] end);
  or_pending : pending w' = pending w;
  or_next : next_ms w' = next_ms w;
  or_gaps : fw_gaps w' = fw_gaps w;
  or_problem : fw_problem w' = None → fw_problem w = None;
  or_at : match a with inl s => st_at s | inr p => pd_at p end = pd_at p;
  or_lines : match a with
    | inl s => Forall (λ l, Z.abs (fc_time l - st_at s) ≤ SAME_SETTLEMENT_MS) (st_lines s) ∧
        st_venue s = fold_left (λ c l, Cash.add c (fc_amount l)) (st_lines s) Cash.ZERO
    | inr _ => True
    end;
}.

Lemma kept_waiting w p now_ms all (why : option text) : remembers (booked_lines w) all →
  one_resolved w (match why with Some why => FundingWatch.set_problem w why | None => w end) p
    (inr (FundingWatch.keep_pending p now_ms)) all.
Proof. intros Hr. destruct why; split; try done; by rewrite app_nil_r. Qed.

Lemma resolve_one_spec w rates u now_ms p w' a all : remembers (booked_lines w) all → keyed u →
  FundingWatch.resolve_one w rates u now_ms p = Ret (w', a) → one_resolved w w' p a all.
Proof.
  intros Hr Hu H. unfold FundingWatch.resolve_one in H. apply bind_ret in H as (rate & _ & H).
  apply bind_ret in H as (booked & ->%lines_at_spec & H). set (booked := List.filter _ _) in *.
  destruct (existsb _ booked) eqn:Ef; [injection H as <- <-; apply (kept_waiting w p now_ms all (Some _) Hr)|].
  destruct rate as [rate|]; [|injection H as <- <-; apply (kept_waiting w p now_ms all None Hr)].
  apply bind_ret in H as (expected & _ & H). apply bind_ret in H as (model & _ & H).
  destruct expected as [expected|]; [|injection H as <- <-; apply (kept_waiting w p now_ms all (Some _) Hr)].
  destruct model as [model|]; [|injection H as <- <-; apply (kept_waiting w p now_ms all (Some _) Hr)].
  destruct (_ && negb _); [injection H as <- <-; apply (kept_waiting w p now_ms all None Hr)|].
  match type of H with context [FundingWatch.settle ?x _] => set (w1 := x) in H end.
  assert (booked_lines w1 = booked_lines w ∧ pending w1 = pending w ∧ next_ms w1 = next_ms w ∧ fw_gaps w1 = fw_gaps w ∧
    (fw_problem w1 = None → fw_problem w = None)) as (E1 & E2 & E3 & E4 & E5) by by (unfold w1; destruct (_ && _)).
  injection H as <- <-. unfold FundingWatch.settle. cbv zeta. cbn [st_lines st_at st_venue st_model].
  destruct (book_all_frame booked (mkWatch (fw_instrument w1) (next_ms w1) (pending w1)
    (Cash.add (venue_total w1) (fold_left (λ a l, Cash.add a (fc_amount l)) booked Cash.ZERO)) (Cash.add (model_total w1) model)
    (fw_problem w1) (S (settled_count w1)) (booked_lines w1) (fw_gaps w1))) as (P1 & P2 & P3 & P4).
  cbn [pending next_ms fw_gaps fw_problem] in P1, P2, P3, P4.
  split; cbn [st_lines st_at st_venue st_model]; [|congruence|congruence|congruence|by rewrite P4|done|].
  - apply remembers_all; cbn [booked_lines]; [by rewrite E1|by apply keyed_filter_nodup|].
    rewrite E1. by apply fresh_lines.
  - split; [|done]. apply Forall_forall. intros l Hl%list_elem_of_In. apply filter_In in Hl as [_ Hn%Z.leb_le]. done.
Qed.

Definition settled_ok (s : Settled) : Prop :=
  Forall (λ l, Z.abs (fc_time l - st_at s) ≤ SAME_SETTLEMENT_MS) (st_lines s) ∧
  st_venue s = fold_left (λ c l, Cash.add c (fc_amount l)) (st_lines s) Cash.ZERO.

Record all_resolved w w' (ps : list Pending) (out : list Settled) (still : list Pending) all : Prop := {
  ar_booked : remembers (booked_lines w') (all ++ (out ≫= st_lines));
  ar_next : next_ms w' = next_ms w;
  ar_gaps : fw_gaps w' = fw_gaps w;
  ar_problem : fw_problem w' = None → fw_problem w = None;
  ar_none_lost : Permutation (pd_at <$> ps) ((st_at <$> out) ++ (pd_at <$> still));
  ar_in_order : (pd_at <$> still) `sublist_of` (pd_at <$> ps);
  ar_out : Forall settled_ok out;
}.

Lemma resolve_each_spec rates u now_ms ps : ∀ w w' out still all, remembers (booked_lines w) all → keyed u →
  FundingWatch.resolve_each w rates u now_ms ps = Ret (w', out, still) → all_resolved w w' ps out still all.
Proof.
  induction ps as [|p ps IH]; intros w w' out still all Hr Hu H; simpl in H.
  { injection H as <- <- <-. split; try done; by rewrite app_nil_r. }
  apply bind_ret in H as ([w1 a] & H1 & H). apply bind_ret in H as ([[w2 out2] still2] & H2 & H).
  destruct (resolve_one_spec _ _ _ _ _ _ _ _ Hr Hu H1) as [B1 _ N1 G1 P1 A1 L1].
  destruct (IH _ _ _ _ _ B1 Hu H2) as [B2 N2 G2 P2 Q2 S2 O2].
  destruct a as [s|q]; injection H as <- <- <-; split; simpl; rewrite ?N2, ?G2; try done; try (by auto).
  - by rewrite (assoc_L (++)).
  - rewrite A1. by apply perm_skip.
  - by constructor.
  - by rewrite app_nil_r in B2.
  - rewrite A1, <-Permutation_middle. by apply perm_skip.
  - rewrite A1. by constructor.
Qed.

Lemma resolves w rates ls now_ms out w' all : remembers (booked_lines w) all →
  FundingWatch.resolve w rates ls now_ms = Ret (out, w') → all_resolved w w' (pending w) out (pending w') all.
Proof.
  intros Hr H. unfold FundingWatch.resolve in H.
  destruct (FundingWatch.unique_lines w _ [] ls) as [u|why] eqn:Eu; [|injection H as <- <-; split; try done; by rewrite app_nil_r].
  apply bind_ret in H as ([[w1 out1] still] & H1 & [= <- <-]).
  by destruct (resolve_each_spec rates u now_ms (pending w) (FundingWatch.set_pending w []) w1 out1 still all Hr
    (unique_lines_keyed _ _ _ _ _ keyed_nil Eu) H1).
Qed.

(** * The clock, the schedule and its gaps *)

(** The settlements crossed so far, [crossed], in order; nothing is pending that
    was not crossed; and what is known of the schedule lies ahead of it. *)
Record scheduled w (clock : Z) (crossed : list Z) : Prop := {
  sc_sorted : StronglySorted Z.lt crossed;
  sc_past : Forall (λ t, t ≤ clock) crossed;
  sc_next : match next_ms w with Some n => Forall (λ t, t < n) crossed | None => True end;
  sc_pending : (pd_at <$> pending w) `sublist_of` crossed;
}.

Lemma begin_gap_frame w since : let w' := FundingWatch.begin_schedule_gap w since in
  pending w' = pending w ∧ next_ms w' = next_ms w ∧ booked_lines w' = booked_lines w ∧ fw_problem w' = fw_problem w.
Proof. unfold FundingWatch.begin_schedule_gap. by destruct (match last _ with Some _ => _ | None => _ end). Qed.

Lemma on_time_frame w now_ms live model next : let w' := FundingWatch.on_time w now_ms live model next in
  booked_lines w' = booked_lines w ∧
  pd_at <$> pending w' = (pd_at <$> pending w) ++ crossing w now_ms ∧
  match next_ms w' with Some n => match next_ms w with Some t => now_ms < t ∧ n = t ∨ t ≤ now_ms ∧ t < n | None => False end | None => True end.
Proof.
  unfold FundingWatch.on_time, crossing. destruct (next_ms w) as [t|] eqn:En.
  - destruct (Z.ltb_spec now_ms t); [rewrite En, app_nil_r; auto|].
    set (w1 := FundingWatch.set_next _ _). set (w2 := if bool_decide _ then FundingWatch.begin_schedule_gap w1 t else w1).
    assert (booked_lines w2 = booked_lines w ∧ next_ms w2 = next_ms w1 ∧ pending w2 = pending w1) as (E1 & E2 & E3).
    { unfold w2. case_bool_decide; [|done]. by destruct (begin_gap_frame w1 t) as (-> & -> & -> & _). }
    assert (next_ms w1 = (n ← next; if t <? n then Some n else None)) as E4 by done.
    match goal with |- context [if bool_decide ?P then FundingWatch.set_problem w2 ?x else w2] =>
      set (w3 := if bool_decide P then FundingWatch.set_problem w2 x else w2) end.
    assert (booked_lines w3 = booked_lines w2 ∧ next_ms w3 = next_ms w2 ∧ pending w3 = pending w2) as (-> & -> & ->)
      by (unfold w3; by case_bool_decide).
    rewrite E1, E2, E3, E4. unfold w1. simpl. rewrite fmap_app. split_and!; [done|done|].
    destruct next as [n|]; simpl; [|done]. destruct (Z.ltb_spec t n); [right; lia|done].
  - destruct (begin_gap_frame w now_ms) as (-> & -> & -> & _). rewrite En, app_nil_r. auto.
Qed.

Lemma remembers_perm B all all' : Permutation all all' → remembers B all → remembers B all'.
Proof. intros Hp [Ho HB]. split; [by rewrite <-Hp|]. intros l. by rewrite <-Hp. Qed.

Lemma lines_of_outcomes o o' : Permutation (lines_of (outcomes o o')) (lines_of o ++ lines_of o').
Proof.
  unfold lines_of, outcomes; simpl. rewrite !bind_app, <-!(assoc_L (++)). apply Permutation_app_head.
  rewrite !(assoc_L (++)). apply Permutation_app_tail. apply Permutation_app_comm.
Qed.

Lemma lines_of_quiet o crossed : lines_of (outcomes o (mkOutcome [] [] crossed)) = lines_of o.
Proof. unfold lines_of, outcomes; simpl. by rewrite !app_nil_r. Qed.

Lemma sorted_lt_NoDup (l : list Z) : StronglySorted Z.lt l → NoDup l.
Proof.
  induction 1 as [|a l _ IH HF]; constructor; [|done]. intros Ha. rewrite Forall_forall in HF. specialize (HF a Ha). lia.
Qed.

Definition recovered_ok (r : RecoveredFunding) : Prop :=
  rv_since r ≤ rv_through r ∧ Forall (λ l, rv_since r ≤ fc_time l ≤ rv_through r) (rv_lines r).

(** What the watch keeps, whatever it was asked. *)
Record kept w (clock : Z) (o : Outcome) : Prop := {
  kp_lines : remembers (booked_lines w) (lines_of o);
  kp_schedule : scheduled w clock (oc_crossed o);
  kp_none_lost : Permutation (oc_crossed o) ((st_at <$> oc_settled o) ++ (pd_at <$> pending w));
  kp_settled : Forall settled_ok (oc_settled o);
  kp_recovered : Forall recovered_ok (oc_recovered o);
}.

Lemma scheduled_later w w' clock clock' crossed : scheduled w clock crossed → clock ≤ clock' →
  next_ms w' = next_ms w → (pd_at <$> pending w') `sublist_of` (pd_at <$> pending w) → scheduled w' clock' crossed.
Proof.
  intros [Hs Hp Hn Hq] Hc En Eq. split; [done| |by rewrite En|by etransitivity].
  eapply Forall_impl; [exact Hp|]. intros t Ht. simpl in *. lia.
Qed.

Lemma on_time_kept w clock now_ms live model next o : kept w clock o → clock ≤ now_ms →
  kept (FundingWatch.on_time w now_ms live model next) now_ms (outcomes o (mkOutcome [] [] (crossing w now_ms))).
Proof.
  intros [Hl [Hs Hp Hn Hq] Hk Ho Hr] Hc. destruct (on_time_frame w now_ms live model next) as (Eb & Ep & En).
  assert (Forall (λ t, t ≤ now_ms) (oc_crossed o)) as Hp' by (eapply Forall_impl; [exact Hp|]; intros t Ht; simpl in *; lia).
  split; rewrite ?lines_of_quiet; [by rewrite Eb| | | |]; simpl; rewrite ?app_nil_r; [| |done|done].
  - split; rewrite ?Ep.
    + unfold crossing. destruct (next_ms w) as [t|]; [|by rewrite app_nil_r]. destruct (now_ms <? t); [by rewrite app_nil_r|].
      apply StronglySorted_app. split; [done|]. split; [repeat constructor|]. intros x y Hx ->%list_elem_of_singleton.
      rewrite Forall_forall in Hn. by apply Hn.
    + apply Forall_app. split; [done|]. unfold crossing. destruct (next_ms w) as [t|]; [|done].
      destruct (Z.ltb_spec now_ms t); [done|]. by apply Forall_singleton.
    + destruct (next_ms (FundingWatch.on_time _ _ _ _ _)) as [n|]; [|done]. unfold crossing.
      destruct (next_ms w) as [t|]; [|done]. apply Forall_app. destruct En as [[Hlt ->]|[Hle Hlt]].
      * split; [done|]. rewrite (proj2 (Z.ltb_lt _ _)) by done. constructor.
      * split; [eapply Forall_impl; [exact Hn|]; intros x Hx; simpl in *; lia|].
        rewrite (proj2 (Z.ltb_ge _ _)) by done. by apply Forall_singleton.
    + by apply sublist_app.
  - rewrite Ep, (assoc_L (++)). by apply Permutation_app_tail.
Qed.

Lemma rediscover_kept w clock now_ms next o : kept w clock o → clock ≤ now_ms →
  kept (FundingWatch.rediscover_schedule w now_ms next) now_ms (outcomes o nothing).
Proof.
  intros [Hl [Hs Hp Hn Hq] Hk Ho Hr] Hc. unfold FundingWatch.rediscover_schedule.
  replace (outcomes o nothing) with o by (destruct o; unfold outcomes; simpl; by rewrite !app_nil_r).
  assert (Forall (λ t, t ≤ now_ms) (oc_crossed o)) as Hp' by (eapply Forall_impl; [exact Hp|]; intros t Ht; simpl in *; lia).
  destruct (negb _); [split; [done|by split|done..]|].
  destruct (begin_gap_frame w now_ms) as (E1 & E2 & E3 & _). set (w1 := FundingWatch.begin_schedule_gap w now_ms) in *.
  assert (∀ n, match n with Some n => now_ms < n | None => n = next_ms w end →
    match n with Some n => Forall (λ t, t < n) (oc_crossed o) | None => True end) as Hn'.
  { intros [n|] Hn'; [|done]. eapply Forall_impl; [exact Hp'|]. intros t Ht. simpl in *. lia. }
  destruct next as [[n|]|e]; simpl.
  2,3: split; simpl; rewrite ?E1, ?E3; try done; split; simpl; rewrite ?E1, ?E2; done.
  destruct (Z.ltb_spec now_ms n); split; simpl; rewrite ?E1, ?E3; try done; split; simpl; rewrite ?E1, ?E2; try done.
  by apply (Hn' (Some n)).
Qed.

Lemma ask_kept w clock a o o' w' : kept w clock o → clock ≤ asked_at a → ask w a = Ret (o', w') →
  kept w' (asked_at a) (outcomes o o').
Proof.
  intros Hk Hc H. destruct a as [now_ms live model next|now_ms next|now_ms rates ls|now_ms ls]; simpl in H, Hc.
  - injection H as <- <-. by apply (on_time_kept w clock).
  - injection H as <- <-. by apply (rediscover_kept w clock).
  - apply bind_ret in H as ([out w1] & H1 & [= <- <-]). destruct Hk as [Hl Hs Hk Ho Hr].
    destruct (resolves _ _ _ _ _ _ _ Hl H1) as [B N G P Q S O]. split; simpl; rewrite ?app_nil_r.
    + eapply remembers_perm; [symmetry; apply lines_of_outcomes|]. unfold lines_of at 2; simpl. by rewrite app_nil_r.
    + by eapply scheduled_later.
    + rewrite Hk, fmap_app, <-(assoc_L (++)). by apply Permutation_app_head.
    + by apply Forall_app.
    + done.
  - destruct (FundingWatch.recover_unknown w ls now_ms) as [r w1] eqn:Er. injection H as <- <-. destruct Hk as [Hl Hs Hk Ho Hr].
    destruct (recovers _ _ _ _ _ _ Hl Er) as (B & P & N & G & R). split; simpl; rewrite ?app_nil_r.
    + eapply remembers_perm; [symmetry; apply lines_of_outcomes|]. done.
    + eapply scheduled_later; try done. by rewrite P.
    + by rewrite P.
    + done.
    + apply Forall_app. split; [done|]. destruct r as [r|]; [|done]. destruct R as (R1 & R2 & R3). apply Forall_singleton.
      split; [lia|]. eapply Forall_impl; [exact R3|]. intros l [? _]. lia.
Qed.

Lemma outcomes_assoc a b c : outcomes (outcomes a b) c = outcomes a (outcomes b c).
Proof. unfold outcomes; simpl. by rewrite !(assoc_L (++)). Qed.

Fixpoint in_time (clock : Z) (asks : list Ask) : bool :=
  match asks with [] => true | a :: asks => (clock <=? asked_at a) && in_time (asked_at a) asks end.

Lemma ask_all_kept asks : ∀ w clock o o' w', kept w clock o → in_time clock asks = true → ask_all w asks = Ret (o', w') →
  ∃ clock', kept w' clock' (outcomes o o').
Proof.
  induction asks as [|a asks IH]; intros w clock o o' w' Hk Ht H; simpl in H, Ht.
  { injection H as <- <-. exists clock. destruct o; unfold outcomes; simpl. by rewrite !app_nil_r. }
  apply andb_true_iff in Ht as [Hc%Z.leb_le Ht]. apply bind_ret in H as ([o1 w1] & H1 & H).
  apply bind_ret in H as ([o2 w2] & H2 & [= <- <-]). rewrite <-outcomes_assoc.
  eapply IH; [|exact Ht|exact H2]. by eapply ask_kept.
Qed.

Lemma new_kept i next clock : kept (FundingWatch.new i next) clock nothing.
Proof.
  unfold FundingWatch.new. destruct next as [[t|]|e]; split; simpl; try done;
    try (split; simpl; [constructor|constructor|done|done]);
    (split; [constructor|]; intros l; rewrite lookup_empty; split; [intros Hl; by apply not_elem_of_nil in Hl|done]).
Qed.


Module DemoFunding.
Definition contract : Instrument := mkInstrument 1 3 CONTRACT_SCALE 1 1 0.
Definition line : FundingCharge := mkCharge 1001 (-2500000) 9.
(** A settlement charged, its page read twice, the schedule lost, and a line of
    the unknown interval recovered. *)
Definition asks : list Ask :=
  [ATime 1000 (5, 0) (3, 0) (Some 200000);
   AResolve 61000 [mkRate 1002 (text_of "0.0001") (text_of "50000.0")] [line; line];
   ATime 200000 (0, 0) (0, 0) None;
   ARecover 500000 [line; mkCharge 400000 77 10];
   ARediscover 600000 (Ok (Some 900000));
   ARecover 700000 [mkCharge 400000 77 10; mkCharge 650000 5 11]].
End DemoFunding.

