(* ===== verification/LiveLedger.v ===== *)
(** The accounts of a session, rebuilt from its records
    ([replay_records] of [oq-live/src/ledger.rs]). *)

From stdpp Require Import gmap strings.
From S2P Require Import Prelude Slices Bytes Text Types Order Instrument Currency Margin Liquidation Tick Strategy Matcher Event Kernel.
From S2P Require Import Dedup Books LiveRecord.
#[local] Open Scope Z_scope.

Implicit Types (rs : list LiveRecord) (f : Fill).

(** * A computation that may refuse, with its reason *)

Definition attempt (A : Type) : Type := run (result A string).
#[export] Instance attempt_ret : MRet attempt := λ A a, Ret (Ok a).
#[export] Instance attempt_bind : MBind attempt := λ A B k m,
  (r ← (m : run (result A string)); match r with Ok a => k a | Err e => Ret (Err e) end : run (result B string)).
Definition refuse {A} (why : string) : attempt A := Ret (Err why).
(** [if bad { return Err(why) }]. *)
Definition unless (bad : bool) (why : string) : attempt () := if bad then refuse why else mret ().
(** [ok_or(why)?]. *)
Definition ok_or {A} (o : option A) (why : string) : attempt A := match o with Some a => mret a | None => refuse why end.
Definition lift {A} (m : run A) : attempt A := a ← m; Ret (Ok a).

(** * What is rebuilt *)

Record LedgerReport := mkReport {
  lr_symbol : text; lr_mode : PositionMode; lr_starting : Cash; lr_recorded : Cash; lr_realized : Cash;
  lr_fees : Cash; lr_funding : Cash; lr_executions : nat; lr_missing : nat; lr_recovered : nat;
  lr_legs : list (string * QtyLots * PriceTicks); lr_coverage : bool; lr_identified : nat; lr_unmodelled : nat;
  lr_obligations : option FundingObligations;
}.

(** What funding has been accounted for: the settlements, the identities of the
    venue's ledger lines, and the last statement of what is owed. *)
Record FundingTally := mkFunding {
  ft_settled : gset Z; ft_ids : gset Z; ft_unmodelled : nat; ft_state : option (Nanos * FundingObligations);
}.

Record Tally (M : Type) := mkTally {
  t_books : option (Books M);
  t_instrument : InstrumentId;
  t_initial : Cash;
  t_mode : PositionMode;
  t_executions : nat;
  t_missing : nat;
  t_adopted : bool;
  t_funding : FundingTally;
}.
Arguments mkTally {M}.
Arguments t_books {M}.
Arguments t_instrument {M}.
Arguments t_initial {M}.
Arguments t_mode {M}.
Arguments t_executions {M}.
Arguments t_missing {M}.
Arguments t_adopted {M}.
Arguments t_funding {M}.

Definition SHORT : text := [83; 72; 79; 82; 84].

(** Milliseconds of an instant: [/] on [i64] rounds toward zero. *)
Definition millis (at_ : Nanos) : Z := Z.quot at_ 1000000.

Module Ledger.
(** The fees recovered after their executions, by the index of the execution. *)
Definition is_execution_of f (r : LiveRecord) : bool :=
  match r with RecExecution _ original _ => bool_decide (original = f) | _ => false end.
Definition gather_step (done : list LiveRecord) (m : gmap nat Cash) (r : LiveRecord) : attempt (gmap nat Cash) :=
  match r with
  | RecFeeEvidence at_ source f amount =>
      unless ((at_ <? local (f_stamp f)) || (millis at_ <? source))
        "fee evidence precedes execution receipt or comes from the future";;
      index ← ok_or (position (is_execution_of f) done) "fee evidence does not bind a prior complete execution";
      match done !! index with
      | Some (RecExecution _ _ fee) =>
          unless (negb (bool_decide (venue_fee fee = Unreadable)))
            "fee evidence cannot overwrite an already reported commission";;
          unless (bool_decide (is_Some (m !! index))) "duplicate fee recovery for one execution";;
          mret (<[index := amount]> m)
      | _ => Panic
      end
  | _ => mret m
  end.
Fixpoint gather (done : list LiveRecord) (m : gmap nat Cash) rs : attempt (gmap nat Cash) :=
  match rs with
  | [] => mret m
  | r :: rs => m ← gather_step done m r; gather (done ++ [r]) m rs
  end.

(** * Funding *)

Definition add_id (t : FundingTally) (id : Z) : attempt FundingTally :=
  unless (bool_decide (id ∈ ft_ids t)) "duplicate funding ledger identity";;
  mret (mkFunding (ft_settled t) ({[id]} ∪ ft_ids t) (ft_unmodelled t) (ft_state t)).

(** The lines of a settlement; the total is an [i128], which [2^64] of them
    would not overflow. *)
Fixpoint settlement_lines (t : FundingTally) (settled : Z) (total : Z) (ls : list (Z * Z * Cash)) : attempt (FundingTally * Z) :=
  match ls with
  | [] => mret (t, total)
  | (id, time, amount) :: ls =>
      t ← add_id t id;
      unless (60000 <? Z.abs (time - settled)) "funding ledger line is outside its settlement window";;
      settlement_lines t settled (total + amount) ls
  end.
Definition identified (t : FundingTally) (settled : Z) (venue : Cash) (ls : list (Z * Z * Cash)) : attempt FundingTally :=
  '(t, total) ← settlement_lines t settled 0 ls;
  unless (negb (total =? venue)) "funding ledger lines disagree with recorded amount";;
  mret t.
Definition settle_once (t : FundingTally) (settled : Z) : attempt FundingTally :=
  unless (bool_decide (settled ∈ ft_settled t)) "duplicate funding settlement";;
  mret (mkFunding ({[settled]} ∪ ft_settled t) (ft_ids t) (ft_unmodelled t) (ft_state t)).
Definition recovered_line (t : FundingTally) (since through : Z) (l : Z * Z * Cash) : attempt FundingTally :=
  t ← add_id t l.1.1;
  unless ((l.1.2 <? since) || (through <? l.1.2)) "recovered funding line is outside its history range";;
  mret (mkFunding (ft_settled t) (ft_ids t) (S (ft_unmodelled t)) (ft_state t)).

Fixpoint unordered (ts : list Z) : bool :=
  match ts with
  | a :: ((b :: _) as ts) => (b <=? a) || unordered ts
  | _ => false
  end.
Definition bad_gap (now_ms : Z) (before : option ScheduleGap) (g : ScheduleGap) : bool :=
  match until_ms g with Some u => (u <? since_ms g) || (now_ms <? u) | None => false end ||
  (sat64 (now_ms + 1) <? since_ms g) ||
  match before with
  | Some b => match until_ms b with Some u => since_ms g <=? u | None => true end
  | None => false
  end.
Fixpoint bad_gaps (now_ms : Z) (before : option ScheduleGap) (gs : list ScheduleGap) : bool :=
  match gs with [] => false | g :: gs => bad_gap now_ms before g || bad_gaps now_ms (Some g) gs end.

Fixpoint gaps_kept (now_gaps : list ScheduleGap) (before : list ScheduleGap) : attempt () :=
  match before with
  | [] => mret ()
  | p :: before =>
      g ← ok_or (find (λ g, since_ms g =? since_ms p) now_gaps) "funding schedule gap obligation disappeared";
      unless (bool_decide (is_Some (until_ms p)) && negb (bool_decide (until_ms p = until_ms g)))
        "funding schedule gap history was rewritten";;
      gaps_kept now_gaps before
  end.
(** A statement of what is owed: in order, and never less than the one before
    unless what is gone was booked. *)
Definition state_step (t : FundingTally) (at_ : Nanos) (o : FundingObligations) : attempt FundingTally :=
  let now_ms := millis at_ in
  unless (unordered (pending_ms o) || existsb (λ p, now_ms <? p) (pending_ms o))
    "funding pending timestamps are duplicate, unordered or after receipt";;
  unless (bad_gaps now_ms None (schedule_gaps o)) "funding schedule gap boundaries are invalid";;
  match ft_state t with
  | Some (previous_at, previous) =>
      unless (at_ <? previous_at) "funding state receive time moved backwards";;
      unless (bool_decide (is_Some (problem previous)) && bool_decide (problem o = None))
        "funding uncertainty was silently cleared";;
      unless (existsb (λ p, negb (bool_decide (p ∈ pending_ms o)) && negb (bool_decide (p ∈ ft_settled t))) (pending_ms previous))
        "funding pending obligation disappeared without a booked settlement";;
      gaps_kept (schedule_gaps o) (schedule_gaps previous)
  | None => mret ()
  end;;
  mret (mkFunding (ft_settled t) (ft_ids t) (ft_unmodelled t) (Some (at_, o))).

(** * The accounts *)

Section replay.
Context {M : Type} `{!MatcherOps M}.
Implicit Types (t : Tally M) (b : Books M).

Definition set_books t b : Tally M :=
  mkTally (Some b) (t_instrument t) (t_initial t) (t_mode t) (t_executions t) (t_missing t) (t_adopted t) (t_funding t).
Definition set_funding t (u : FundingTally) : Tally M :=
  mkTally (t_books t) (t_instrument t) (t_initial t) (t_mode t) (t_executions t) (t_missing t) (t_adopted t) u.

Definition start_ledger t (ps qs : Z) (id : InstrumentId) (i : Instrument) (tick_cash : Z) (balance : Cash) (m : PositionMode)
    : attempt (Tally M) :=
  unless (bool_decide (is_Some (t_books t))) "duplicate ledger context in one session";;
  unless (negb (bool_decide (c_tick_cash <$> contract_of i = Some tick_cash)))
    "ledger instrument and cash-per-tick-lot disagree";;
  unless (negb (price_scale i =? ps) || negb (qty_scale i =? qs)) "session scales and ledger instrument disagree";;
  table ← lift TierTable.example_btcusdt;
  mret (mkTally (Some (Books.new id (mkContract tick_cash) table balance m)) id balance m
    (t_executions t) (t_missing t) (t_adopted t) (t_funding t)).

(** A leg that was held when the session began. *)
Definition leg_side (l : text * text * Z * Z) : Side :=
  if eq_ignore_ascii_case l.1.1.2 SHORT || (l.1.2 <? 0) then Sell else Buy.
Fixpoint adopt_legs b (symbol : text) (at_ : Nanos) (ls : list (text * text * Z * Z)) : attempt (Books M) :=
  match ls with
  | [] => mret b
  | l :: ls =>
      unless (negb (bool_decide (l.1.1.1 = symbol))) "adopted leg belongs to another symbol";;
      b ← lift (Books.adopt b (leg_side l) (i64_saturating_abs l.1.2) l.2 at_);
      adopt_legs b symbol at_ ls
  end.
Definition adopt_all t (symbol : text) (at_ : Nanos) (ls : list (text * text * Z * Z)) : attempt (Tally M) :=
  b ← ok_or (t_books t) "adoption precedes ledger context";
  unless (negb (t_executions t =? 0)%nat) "position adoption after executions requires a new session";;
  unless (t_adopted t) "duplicate adoption in one session";;
  b ← adopt_legs b symbol at_ ls;
  mret (mkTally (Some b) (t_instrument t) (t_initial t) (t_mode t) (t_executions t) (t_missing t) true (t_funding t)).

(** The fee an execution is booked with: what was recovered for it later, or
    what it said itself. *)
Definition evidence (m : gmap nat Cash) (index : nat) (fee : Fee) : Fee :=
  match m !! index with Some amount => Reported amount | None => venue_fee fee end.
Definition execute t (m : gmap nat Cash) (index : nat) (f : Fill) (fee : Fee) : attempt (Tally M) :=
  unless (negb (t_adopted t)) "initial positions are unknown; an explicit adoption record is required, even when flat";;
  unless (negb (f_instrument f =? t_instrument t) || (f_qty f <=? 0) || (f_price f <=? 0))
    "execution instrument, price or quantity is invalid";;
  b ← ok_or (t_books t) "execution precedes ledger context";
  let fee := evidence m index fee in
  let missing := if bool_decide (fee = Unreadable) then S (t_missing t) else t_missing t in
  '(booked, b) ← lift (Books.on_venue_fill b f fee);
  match booked with
  | BApplied _ =>
      mret (mkTally (Some b) (t_instrument t) (t_initial t) (t_mode t) (S (t_executions t)) missing (t_adopted t) (t_funding t))
  | _ => refuse "execution identity is duplicate, stale or unidentifiable"
  end.

(** The settlement's lines, the settlement itself, and the charge. *)
Definition charge_funding t (at_ : Nanos) (settled : Z) (venue : Cash) (lines : option (list (Z * Z * Cash))) : attempt (Tally M) :=
  u ← match lines with Some ls => identified (t_funding t) settled venue ls | None => mret (t_funding t) end;
  u ← settle_once u settled;
  b ← ok_or (t_books t) "funding precedes ledger context";
  b ← lift (Books.on_funding_charged b venue at_);
  mret (set_books (set_funding t u) b).
Fixpoint charge_lines b (u : FundingTally) (at_ : Nanos) (since through : Z) (ls : list (Z * Z * Cash)) : attempt (Books M * FundingTally) :=
  match ls with
  | [] => mret (b, u)
  | l :: ls =>
      u ← recovered_line u since through l;
      b ← lift (Books.on_funding_charged b l.2 at_);
      charge_lines b u at_ since through ls
  end.
Definition recover_funding t (at_ : Nanos) (since through : Z) (ls : list (Z * Z * Cash)) : attempt (Tally M) :=
  unless (negb (t_adopted t)) "recovered funding precedes explicit initial positions";;
  unless ((through <? since) || (millis at_ <? through)) "funding recovery range is invalid or lies after receipt";;
  b ← ok_or (t_books t) "funding recovery precedes ledger context";
  '(b, u) ← charge_lines b (t_funding t) at_ since through ls;
  mret (set_books (set_funding t u) b).

Definition tick_of (at_ seen : Nanos) (last bid ask : PriceTicks) (volume : QtyLots) : Tick :=
  mkTick (mkStamp at_ seen) last last last bid ask volume.

Definition replay_step (symbol : text) (ps qs : Z) (m : gmap nat Cash) t (index : nat) (r : LiveRecord) : attempt (Tally M) :=
  match r with
  | RecLedgerStart _ id i tick_cash balance md => start_ledger t ps qs id i tick_cash balance md
  | RecReconciled at_ ls => adopt_all t symbol at_ ls
  | RecExecution _ f fee => execute t m index f fee
  | RecFill _ _ _ _ _ _ _ => refuse "legacy fill needs fee/instrument enrichment; it cannot certify net accounting"
  | RecFunding at_ settled _ _ venue _ _ => charge_funding t at_ settled venue None
  | RecFundingEvidence at_ settled _ _ venue _ _ ls => charge_funding t at_ settled venue (Some ls)
  | RecTick at_ seen last bid ask volume =>
      match t_books t with
      | Some b => '(_, b) ← lift (Books.on_tick b (tick_of at_ seen last bid ask volume)); mret (set_books t b)
      | None => mret t
      end
  | RecFundingRecovered at_ since through ls => recover_funding t at_ since through ls
  | RecFundingState at_ o => u ← state_step (t_funding t) at_ o; mret (set_funding t u)
  | _ => mret t
  end.
Fixpoint replay_from (symbol : text) (ps qs : Z) (m : gmap nat Cash) t (index : nat) rs : attempt (Tally M) :=
  match rs with
  | [] => mret t
  | r :: rs => t ← replay_step symbol ps qs m t index r; replay_from symbol ps qs m t (S index) rs
  end.

Definition nothing_yet : Tally M := mkTally None 0 0 OneWay 0 0 false (mkFunding ∅ ∅ 0 None).

(** [Tick::default]. *)
Definition no_tick : Tick := tick_of 0 0 0 0 0 0.

(** What is still owed once the session's own settlements are taken out. *)
Definition still_owed (u : FundingTally) : option FundingObligations :=
  (λ x, mkObligations (List.filter (λ p, negb (bool_decide (p ∈ ft_settled u))) (pending_ms x.2)) (schedule_gaps x.2) (problem x.2))
    <$> ft_state u.

Definition report (symbol : text) (m : gmap nat Cash) t : attempt LedgerReport :=
  b ← ok_or (t_books t) "ledger context is missing; supply independently identified enrichment";
  unless (negb (t_adopted t)) "initial positions are unknown; explicit adoption is required";;
  let '(rl, fe, fu) := Books.realized_parts b in
  cx ← lift (Books.context b no_tick 0);
  let legs := if bool_decide (t_mode t = Hedge)
              then [("LONG"%string, cx_position cx, cx_entry cx); ("SHORT"%string, cx_short_position cx, cx_short_entry cx)]
              else [("NET"%string, cx_position cx, cx_entry cx)] in
  mret (mkReport symbol (t_mode t) (t_initial t) (Cash.add (Cash.sub (Cash.add (t_initial t) rl) fe) fu) rl fe fu
    (t_executions t) (t_missing t) (size m) legs false (size (ft_ids (t_funding t))) (ft_unmodelled (t_funding t))
    (still_owed (t_funding t))).

(** The records after the last session start, and that start. *)
Fixpoint last_session rs : option (text * Z * Z * list LiveRecord) :=
  match rs with
  | [] => None
  | r :: rs =>
      match last_session rs with
      | Some x => Some x
      | None => match r with RecSessionStart _ symbol ps qs => Some (symbol, ps, qs, rs) | _ => None end
      end
  end.

Definition replay_records rs : attempt LedgerReport :=
  x ← ok_or (last_session rs) "session identity is missing";
  let '(symbol, ps, qs, session) := x in
  m ← gather [] ∅ session;
  t ← replay_from symbol ps qs m nothing_yet 0 session;
  report symbol m t.
End replay.
End Ledger.
