(* ===== verification/LiveRun.v ===== *)
(** The accounts of a live run: the books, the funding watch and the journal,
    moved together the way [oq-live/src/run.rs] moves them, with the records
    [oq-live/src/session.rs] writes and the fee history of
    [oq-live/src/fee_history.rs].

    What the venue answers is an argument of each step; the journal is taken to
    accept every record. *)

From stdpp Require Import gmap strings.
From S2P Require Import Prelude Slices SortedVec Bytes Text Types Order Instrument Currency Margin Liquidation Tick Strategy Matcher Event.
From S2P Require Import Kernel Dedup Books LiveRecord FundingWatch LiveLedger.
#[local] Open Scope Z_scope.

Implicit Types (f : Fill) (s : text).

#[export] Instance ScheduleGap_eq_dec : EqDecision ScheduleGap.
Proof. solve_decision. Defined.
#[export] Instance FundingObligations_eq_dec : EqDecision FundingObligations.
Proof. solve_decision. Defined.

(** * Commissions read back *)

Record ExecutionFee := mkExecutionFee { ef_trade : Z; ef_side : Side; ef_time : Z; ef_amount : Cash }.
#[export] Instance ExecutionFee_eq_dec : EqDecision ExecutionFee.
Proof. solve_decision. Defined.

Module FeeHistory.
Definition is_buy (x : Side) : bool := match x with Buy => true | Sell => false end.
Definition row_key (r : ExecutionFee) : Z * bool := (ef_trade r, is_buy (ef_side r)).
Definition fill_key f : Z * bool := (f_trade f, is_buy (f_side f)).

Fixpoint index_rows (received : Nanos) (u : gmap (Z * bool) ExecutionFee) (rows : list ExecutionFee)
    : result (gmap (Z * bool) ExecutionFee) string :=
  match rows with
  | [] => Ok u
  | r :: rows =>
      if (ef_trade r =? 0) || (millis received <? ef_time r) then Err "fee history has an unidentifiable or future row"%string
      else if match u !! row_key r with Some prior => negb (bool_decide (prior = r)) | None => false end
      then Err "fee history has conflicting execution identity evidence"%string
      else index_rows received (<[row_key r := r]> u) rows
  end.
Fixpoint bind_each (received : Nanos) (u : gmap (Z * bool) ExecutionFee) (first : option Fill) (seen : gset (Z * bool))
    (fills : list Fill) : result (list (Fill * Z * Cash)) string :=
  match fills with
  | [] => Ok []
  | f :: fills =>
      if (f_trade f =? 0) || (received <? local (f_stamp f)) || (f_qty f <=? 0) || (f_price f <=? 0) ||
         match first with Some x => negb (f_instrument x =? f_instrument f) | None => false end
      then Err "fee enrichment requires valid prior executions of one instrument"%string
      else if bool_decide (fill_key f ∈ seen) then Err "unknown-fee inventory repeats an execution identity"%string
      else
        match bind_each received u first ({[fill_key f]} ∪ seen) fills with
        | Err e => Err e
        | Ok out => Ok (match u !! fill_key f with Some r => (f, ef_time r, ef_amount r) :: out | None => out end)
        end
  end.
Definition bind (fills : list Fill) (rows : list ExecutionFee) (received : Nanos) : result (list (Fill * Z * Cash)) string :=
  match index_rows received ∅ rows with
  | Err e => Err e
  | Ok u => bind_each received u (head fills) ∅ fills
  end.
End FeeHistory.

(** * What a session writes of them *)

Module Recorder.
Definition line_of (l : FundingCharge) : Z * Z * Cash := (fc_id l, fc_time l, fc_amount l).
Definition record_funding (at_ : Nanos) (x : Settled) : LiveRecord :=
  RecFundingEvidence at_ (st_at x) (st_rate x) (st_mark x) (st_venue x) (st_model x) (st_verified x) (line_of <$> st_lines x).
Definition record_recovered_funding (at_ : Nanos) (r : RecoveredFunding) : LiveRecord :=
  RecFundingRecovered at_ (rv_since r) (rv_through r) (line_of <$> rv_lines r).
(** Only a statement that differs from the last is written. *)
Definition record_funding_state (at_ : Nanos) (told : option FundingObligations) (w : FundingWatch)
    : list LiveRecord * option FundingObligations :=
  let o := FundingWatch.obligations w in
  if bool_decide (told = Some o) then ([], told) else ([RecFundingState at_ o], Some o).
Definition record_fee_evidence (at_ : Nanos) (e : Fill * Z * Cash) : LiveRecord := RecFeeEvidence at_ e.1.2 e.1.1 e.2.
Definition record_execution f (client_id : text) (fee : Fee) : LiveRecord := RecExecution client_id f (venue_fee fee).
Definition record_ledger_start (at_ : Nanos) (id : InstrumentId) (i : Instrument) (c : Contract) (balance : Cash)
    (mode : PositionMode) : LiveRecord := RecLedgerStart at_ id i (c_tick_cash c) balance mode.
Definition record_tick (t : Tick) : LiveRecord :=
  RecTick (exch (t_stamp t)) (local (t_stamp t)) (t_last t) (t_bid t) (t_ask t) (t_volume t).
End Recorder.

(** Each leg held when the run began, as the journal has it. *)
Definition LONG : text := [76; 79; 78; 71].
Definition adopted_leg (symbol : text) (l : Side * QtyLots * PriceTicks) : text * text * Z * Z :=
  match l.1.1 with
  | Buy => (symbol, LONG, l.1.2, l.2)
  | Sell => (symbol, SHORT, - l.1.2, l.2)
  end.
Definition adopted_legs (symbol : text) (ls : list (Side * QtyLots * PriceTicks)) : list (text * text * Z * Z) :=
  adopted_leg symbol <$> ls.

(** * The run *)

Record Live (M : Type) := mkLive {
  lv_books : Books M;
  lv_watch : FundingWatch;
  lv_told : option FundingObligations;
  lv_journal : list LiveRecord;
}.
Arguments mkLive {M}.
Arguments lv_books {M}.
Arguments lv_watch {M}.
Arguments lv_told {M}.
Arguments lv_journal {M}.

(** What happens to the accounts of a run, with the venue's answers. *)
Inductive Happening :=
| HHistory (t : Tick)
| HTick (t : Tick)
| HSubmit (id : OrderId) (side : Side) (qty : QtyLots) (offset : Offset) (at_ : Nanos)
| HFill f (fee : Fee) (client_id : text)
| HFees (at_ : Nanos) (rows : option (list ExecutionFee))
| HClock (at_ : Nanos) (model : Legs) (next : option Z)
| HFunding (at_ : Nanos) (schedule : result (option Z) text) (lines : option (list FundingCharge))
    (rates : option (list SettledRate))
| HNote (r : LiveRecord).

Module Live.
Section live.
Context {M : Type} `{!MatcherOps M}.
Implicit Types (v : Live M) (b : Books M) (w : FundingWatch).

Definition write v (rs : list LiveRecord) : Live M := mkLive (lv_books v) (lv_watch v) (lv_told v) (lv_journal v ++ rs).
Definition set_books v b : Live M := mkLive b (lv_watch v) (lv_told v) (lv_journal v).
Definition set_watch v w : Live M := mkLive (lv_books v) w (lv_told v) (lv_journal v).
Definition tell v (at_ : Nanos) : Live M :=
  let '(rs, told) := Recorder.record_funding_state at_ (lv_told v) (lv_watch v) in
  mkLive (lv_books v) (lv_watch v) told (lv_journal v ++ rs).

Fixpoint adopt_each b (ls : list (Side * QtyLots * PriceTicks * Nanos)) : run (Books M) :=
  match ls with
  | [] => mret b
  | l :: ls => b ← Books.adopt b l.1.1.1 l.1.1.2 l.1.2 l.2; adopt_each b ls
  end.
(** The books at the venue's balance, the positions taken over, the first two
    records, and the watch. *)
Definition start (symbol : text) (i : Instrument) (c : Contract) (balance : Cash) (mode : PositionMode)
    (legs : list (Side * QtyLots * PriceTicks * Nanos)) (at_ : Nanos) (next : result (option Z) text) : run (Live M) :=
  table ← TierTable.example_btcusdt;
  b ← adopt_each (Books.new 1 c table balance mode) legs;
  mret (mkLive b (FundingWatch.new i next) None
    [Recorder.record_ledger_start at_ 1 i c balance mode; RecReconciled at_ (adopted_legs symbol (fst <$> legs))]).

(** A fill of the account stream: recorded once the books have accepted it. *)
Definition book_fill v f (fee : Fee) (client_id : text) : run (Live M) :=
  '(booked, b) ← Books.on_venue_fill (lv_books v) f (venue_fee fee);
  let v := set_books v b in
  mret match booked with BApplied _ => write v [Recorder.record_execution f client_id fee] | _ => v end.

Fixpoint recover_each b (at_ : Nanos) (bound : list (Fill * Z * Cash)) : run (list (Fill * Z * Cash) * Books M) :=
  match bound with
  | [] => mret ([], b)
  | e :: bound =>
      '(r, b) ← Books.recover_fee b e.1.1 e.2 at_;
      '(es, b) ← recover_each b at_ bound;
      mret (match r with Ok true => e :: es | _ => es end, b)
  end.
Definition poll_fees v (at_ : Nanos) (rows : option (list ExecutionFee)) : run (Live M) :=
  match rows with
  | Some rows =>
      if bool_decide (unpriced_fills (lv_books v) = []) then mret v
      else
        match FeeHistory.bind (unpriced_fills (lv_books v)) rows at_ with
        | Err _ => mret v
        | Ok bound =>
            '(recovered, b) ← recover_each (lv_books v) at_ bound;
            mret (write (set_books v b) (Recorder.record_fee_evidence at_ <$> recovered))
        end
  | None => mret v
  end.

Definition on_clock v (at_ : Nanos) (model : Legs) (next : option Z) : run (Live M) :=
  legs ← Books.legs (lv_books v);
  mret (tell (set_watch v (FundingWatch.on_time (lv_watch v) (millis at_) legs model next)) at_).

Fixpoint charge_each b (at_ : Nanos) (amounts : list Cash) : run (Books M) :=
  match amounts with
  | [] => mret b
  | a :: amounts => b ← Books.on_funding_charged b a at_; charge_each b at_ amounts
  end.
(** The venue's figures: settlements answered, unknown intervals recovered. *)
Definition poll_funding v (at_ : Nanos) (schedule : result (option Z) text) (lines : option (list FundingCharge))
    (rates : option (list SettledRate)) : run (list Settled * option RecoveredFunding * Live M) :=
  let w := lv_watch v in
  let w := if FundingWatch.needs_schedule w then FundingWatch.rediscover_schedule w (millis at_) schedule else w in
  let v := set_watch v w in
  match FundingWatch.asking_since w, lines with
  | Some _, Some lines =>
      '(settled, w) ←
        match rates with
        | Some rates => if FundingWatch.waiting w then FundingWatch.resolve w rates lines (millis at_) else mret ([], w)
        | None => mret ([], w)
        end;
      let '(recovered, w) := FundingWatch.recover_unknown w lines (millis at_) in
      b ← charge_each (lv_books v) at_ (fc_amount <$> (option_list recovered ≫= rv_lines));
      b ← charge_each b at_ (st_venue <$> settled);
      mret (settled, recovered, set_watch (set_books v b) w)
  | _, _ => mret ([], None, v)
  end.
Definition on_funding v (at_ : Nanos) (schedule : result (option Z) text) (lines : option (list FundingCharge))
    (rates : option (list SettledRate)) : run (Live M) :=
  '(settled, recovered, v) ← poll_funding v at_ schedule lines rates;
  let v := write v (Recorder.record_funding at_ <$> settled) in
  let v := write v (Recorder.record_recovered_funding at_ <$> option_list recovered) in
  mret (tell v at_).

Definition happen v (h : Happening) : run (Live M) :=
  match h with
  | HHistory t => '(_, b) ← Books.on_tick (lv_books v) t; mret (set_books v b)
  | HTick t => let v := write v [Recorder.record_tick t] in '(_, b) ← Books.on_tick (lv_books v) t; mret (set_books v b)
  | HSubmit id side qty offset at_ => b ← Books.on_submit (lv_books v) id side qty offset at_; mret (set_books v b)
  | HFill f fee client_id => book_fill v f fee client_id
  | HFees at_ rows => poll_fees v at_ rows
  | HClock at_ model next => on_clock v at_ model next
  | HFunding at_ schedule lines rates => on_funding v at_ schedule lines rates
  | HNote r => mret (write v [r])
  end.
Fixpoint happen_all v (hs : list Happening) : run (Live M) :=
  match hs with [] => mret v | h :: hs => v ← happen v h; happen_all v hs end.
End live.
End Live.
