(* ===== verification/LiveSession.v ===== *)
(** The session: the only path that sends an order
    ([oq-live/src/session.rs], with the order types and [decimal] of
    [oq-gateway/src/exec.rs]).

    The venue is a parameter: what it answers may depend on every call made so
    far.  So are the disk, the clock and the texts the standard library and the
    operating system print. *)

From stdpp Require Import gmap strings.
From Stdlib Require Import Floats.SpecFloat.
From S2P Require Import Prelude Slices Bytes Text Floats Types Order Instrument Margin Tick Event Frame Journal Risk Dedup Kernel.
From S2P Require Import Books LiveBook Latency LiveRecord FundingWatch LiveLedger LiveRun ClientIds.
#[local] Open Scope Z_scope.

Implicit Types (f : Fill) (id : text).

(** * Orders as a venue takes them *)

Inductive PositionSide := PsOneWay | PsLong | PsShort.
Definition is_hedged (p : PositionSide) : bool := match p with PsLong | PsShort => true | PsOneWay => false end.

(** The time in force is always [GoodTilCancel]. *)
Record NewOrder := mkNewOrder {
  no_symbol : text; no_side : Side; no_limit_price : option PriceTicks; no_qty : QtyLots; no_client_id : text;
  no_reduce_only : bool; no_position_side : PositionSide;
}.
Record OrderAck := mkAck { ak_venue_id : text; ak_client_id : text; ak_status : text; ak_executed_qty : text }.
Record Reject := mkReject { rj_code : option Z; rj_message : text }.
Record Unresolved := mkUnresolved { ur_client_id : text; ur_reason : text }.
Inductive Placed := Accepted (a : OrderAck) | Rejected (r : Reject) | Unknown (u : Unresolved).

(** The fields of a position the session reads. *)
Record PositionSnapshot := mkSnapshot { sn_symbol : text; sn_position_side : text; sn_amount : spec_float }.

Definition decimal (value scale : Z) : run text :=
  if scale =? 0 then mret (shown value)
  else
    let sign := if value <? 0 then text_of "-" else [] in
    divisor ← chku64 (10 ^ scale);
    let frac := shown (Z.abs value mod divisor) in
    mret (sign ++ shown (Z.abs value / divisor) ++ text_of "." ++ replicate (Z.to_nat scale - length frac) 48 ++ frac).

(** * Calls and answers *)

(** A call to the venue.  A placement carries what was so when it was made: the
    permit, the bytes of the journal an observer of the file would read, and
    how many of them are on the device. *)
Inductive Call :=
| Placing (p : Permit) (o : NewOrder) (file : list Z) (synced : nat)
| Cancelling (symbol id : text)
| Asking (symbol id : text).

Record Venue := mkVenue {
  v_place : list Call → NewOrder → Instrument → Placed;
  v_cancel : list Call → text → text → Placed;
  v_order_status : list Call → text → text → result (option OrderAck) text;
}.
(** The operating system and the standard library: the answer to the [n]th
    write or flush, the nanoseconds before the [n]th call, an I/O error, the
    lock's refusal, and a float, in print. *)
Record Os := mkOs {
  os_disk : nat → Io; os_elapsed : nat → Z; os_io_error : text; os_locked : text; os_f64 : spec_float → text;
}.
Record World := mkWorld { w_calls : list Call; w_ios : nat }.
Definition call (w : World) (c : Call) : World := mkWorld (w_calls w ++ [c]) (w_ios w).
Definition ios (w : World) (n : nat) : World := mkWorld (w_calls w) (w_ios w + n).

(** * Texts *)

Definition newtype (name : string) (z : Z) : text := text_of name ++ text_of "(" ++ shown z ++ text_of ")".
(** [{:?}] of a breach. *)
Definition breach_text (b : Breach) : text :=
  match b with
  | Halted => text_of "Halted"
  | OrderTooLarge q l =>
      text_of "OrderTooLarge { qty: " ++ newtype "QtyLots" q ++ text_of ", limit: " ++ newtype "QtyLots" l ++ text_of " }"
  | PositionWouldExceed r l =>
      text_of "PositionWouldExceed { resulting: " ++ newtype "QtyLots" r ++ text_of ", limit: " ++
      newtype "QtyLots" l ++ text_of " }"
  | NotionalTooLarge n l =>
      text_of "NotionalTooLarge { notional: " ++ newtype "Cash" n ++ text_of ", limit: " ++ newtype "Cash" l ++ text_of " }"
  | PriceOutsideBand p m l =>
      text_of "PriceOutsideBand { price: " ++ newtype "PriceTicks" p ++ text_of ", mark: " ++ newtype "PriceTicks" m ++
      text_of ", limit: " ++ newtype "Ratio" l ++ text_of " }"
  | TooManyWorking n l => text_of "TooManyWorking { working: " ++ shown n ++ text_of ", limit: " ++ shown l ++ text_of " }"
  | TooFast n l => text_of "TooFast { sent: " ++ shown n ++ text_of ", limit: " ++ shown l ++ text_of " }"
  | Malformed why => text_of "Malformed(" ++ [34] ++ text_of why ++ [34] ++ text_of ")"
  | Unpriceable => text_of "Unpriceable"
  end.
Definition side_text (s : Side) : text := match s with Buy => text_of "Buy" | Sell => text_of "Sell" end.
Definition leg_text (p : PositionSide) : text :=
  match p with PsOneWay => text_of "BOTH" | PsLong => text_of "LONG" | PsShort => text_of "SHORT" end.

(** [{:#010x}]. *)
Definition hex_digit (z : Z) : Z := if z <? 10 then 48 + z else 87 + z.
Fixpoint hex_digits (n : nat) (z : Z) : text :=
  match n with O => [] | S n => hex_digits n (z / 16) ++ [hex_digit (z mod 16)] end.
Definition hex8 (z : Z) : text := text_of "0x" ++ hex_digits 8 z.
Definition frame_error_text (e : FrameError) : text :=
  match e with
  | Incomplete n a =>
      text_of "incomplete record: needed " ++ shown (Z.of_nat n) ++ text_of " bytes, " ++ shown (Z.of_nat a) ++ text_of " available"
  | BadMagic m => text_of "bad magic " ++ hex8 m
  | UnknownVersion v => text_of "unknown frame version " ++ shown v
  | LengthOutOfRange l => text_of "payload length " ++ shown l ++ text_of " out of range"
  | ChecksumMismatch e c => text_of "checksum mismatch: expected " ++ hex8 e ++ text_of ", computed " ++ hex8 c
  end.
Definition journal_error_text (os : Os) (e : JournalError) : text :=
  match e with
  | JIo => text_of "journal io: " ++ os_io_error os
  | Corrupt at_offset cause =>
      text_of "corrupt record at offset " ++ shown (Z.of_nat at_offset) ++ text_of ": " ++ frame_error_text cause
  | SequenceGap expected found => text_of "sequence gap: expected " ++ shown expected ++ text_of ", found " ++ shown found
  | AlreadyOpen => text_of "journal already open: " ++ os_locked os
  | Broken => text_of "an earlier write to this journal failed; nothing more is appended until it is reopened"
  | SequenceExhausted => text_of "sequence number would pass u64::MAX"
  end.

(** * The session *)

Inductive StartupRefusal :=
| UndeclaredPosition (symbol side : text) (amount : spec_float)
| UndeclaredOrder (client_id : text)
| InvalidPosition (symbol side : text) (amount : spec_float).
Definition refusal_text (os : Os) (r : StartupRefusal) : text :=
  match r with
  | InvalidPosition symbol side amount =>
      text_of "invalid venue position " ++ symbol ++ text_of " " ++ side ++ text_of " " ++ os_f64 os amount ++
      text_of "; refusing to reinterpret its sign"
  | UndeclaredPosition symbol side amount =>
      text_of "the venue holds " ++ os_f64 os amount ++ text_of " of " ++ symbol ++ text_of " (" ++ side ++
      text_of ") that this process was not told about; starting would size every order against a picture that is already wrong"
  | UndeclaredOrder id => text_of "the venue has a resting order this process did not place: " ++ id
  end.

Inductive Submission :=
| Sent (id : text)
| Refused (b : Breach)
| SRejected (why : text)
| SUnresolved (client_id why : text).
Definition is_sent (s : Submission) : bool := match s with Sent _ => true | _ => false end.

Record SessionConfig := mkSessionConfig {
  sc_symbol : text; sc_instrument : Instrument; sc_position_side : PositionSide; sc_id_prefix : text;
}.

Record Session := mkSession {
  ss_latency : Latency;
  ss_journal : option Writer;
  ss_sync_decisions : bool;
  ss_journal_lost : option text;
  ss_told : option FundingObligations;
  ss_halt_reason : option text;
  ss_gate : RiskGate;
  ss_book : Book;
  ss_config : SessionConfig;
  ss_sequence : Z;
  ss_sequence_end : Z;
  ss_separator : text;
}.

Definition invalid (p : PositionSnapshot) : bool :=
  negb (F64.is_finite (sn_amount p)) ||
  (eq_ignore_ascii_case (sn_position_side p) (text_of "LONG") && F64.ltb (sn_amount p) F64.zero) ||
  (eq_ignore_ascii_case (sn_position_side p) (text_of "SHORT") && F64.ltb F64.zero (sn_amount p)).
Fixpoint validate_positions (ps : list PositionSnapshot) : result () StartupRefusal :=
  match ps with
  | [] => Ok ()
  | p :: ps => if invalid p then Err (InvalidPosition (sn_symbol p) (sn_position_side p) (sn_amount p)) else validate_positions ps
  end.
Definition held (p : PositionSnapshot) : bool := negb (F64.eqb (sn_amount p) F64.zero).
Definition position_of (p : PositionSnapshot) : Position := mkPosition (sn_symbol p) (sn_position_side p) (sn_amount p).

Definition leg_for (configured : PositionSide) (side : Side) (closing : bool) : PositionSide :=
  if negb (is_hedged configured) then configured
  else match side, closing with
       | Buy, false | Sell, true => PsLong
       | Sell, false | Buy, true => PsShort
       end.

Module Session.
Section session.
Context (v : Venue) (os : Os).
Implicit Types (s : Session) (w : World) (r : LiveRecord).

Definition set_latency s (x : Latency) : Session :=
  mkSession x (ss_journal s) (ss_sync_decisions s) (ss_journal_lost s) (ss_told s) (ss_halt_reason s) (ss_gate s) (ss_book s)
    (ss_config s) (ss_sequence s) (ss_sequence_end s) (ss_separator s).
Definition set_journal s (j : option Writer) (sync : bool) (lost : option text) : Session :=
  mkSession (ss_latency s) j sync lost (ss_told s) (ss_halt_reason s) (ss_gate s) (ss_book s)
    (ss_config s) (ss_sequence s) (ss_sequence_end s) (ss_separator s).
Definition set_told s (o : FundingObligations) : Session :=
  mkSession (ss_latency s) (ss_journal s) (ss_sync_decisions s) (ss_journal_lost s) (Some o) (ss_halt_reason s) (ss_gate s)
    (ss_book s) (ss_config s) (ss_sequence s) (ss_sequence_end s) (ss_separator s).
Definition set_gate s (g : RiskGate) (why : option text) : Session :=
  mkSession (ss_latency s) (ss_journal s) (ss_sync_decisions s) (ss_journal_lost s) (ss_told s) why g (ss_book s)
    (ss_config s) (ss_sequence s) (ss_sequence_end s) (ss_separator s).
Definition set_book s (b : Book) : Session :=
  mkSession (ss_latency s) (ss_journal s) (ss_sync_decisions s) (ss_journal_lost s) (ss_told s) (ss_halt_reason s) (ss_gate s) b
    (ss_config s) (ss_sequence s) (ss_sequence_end s) (ss_separator s).
Definition set_ids s (sequence last : Z) (separator : text) : Session :=
  mkSession (ss_latency s) (ss_journal s) (ss_sync_decisions s) (ss_journal_lost s) (ss_told s) (ss_halt_reason s) (ss_gate s)
    (ss_book s) (ss_config s) sequence last separator.

(** ** Starting *)

Fixpoint undeclared (expected : list Position) (ps : list PositionSnapshot) : result () StartupRefusal :=
  match ps with
  | [] => Ok ()
  | p :: ps =>
      if negb (held p) then undeclared expected ps
      else if existsb (λ e, bool_decide (ps_symbol e = sn_symbol p) && bool_decide (ps_side e = sn_position_side p) &&
                            F64.eqb (ps_amount e) (sn_amount p)) expected
      then undeclared expected ps
      else Err (UndeclaredPosition (sn_symbol p) (sn_position_side p) (sn_amount p))
  end.
Definition start (gate : RiskGate) (config : SessionConfig) (ps : list PositionSnapshot) (orders : list text)
    (expected : list Position) : result Session StartupRefusal :=
  match validate_positions ps with
  | Err e => Err e
  | Ok _ =>
      match undeclared expected ps with
      | Err e => Err e
      | Ok _ =>
          match orders with
          | id :: _ => Err (UndeclaredOrder id)
          | [] =>
              let book := Book.adopt (Book.owning (sc_id_prefix config)) (position_of <$> List.filter held ps) in
              Ok (mkSession Latency.new None false None None None gate book config 0 U64_MAX (text_of "-"))
          end
      end
  end.
Definition with_order_id_range s (first last : Z) : result Session text :=
  if negb (ss_sequence s =? 0) || (last <? first) || (first =? 0)
  then Err (text_of "invalid or late client order id reservation")
  else Ok (set_ids s (first - 1) last (ss_separator s)).
Definition with_id_rules s (rules : IdRules) : Session := set_ids s (ss_sequence s) (ss_sequence_end s) (IdRules.separator rules).

(** ** The journal *)

Definition write s w r : run (bool * Session * World) :=
  match ss_journal s with
  | None => mret (true, s, w)
  | Some j =>
      if bool_decide (is_Some (ss_journal_lost s)) then mret (false, s, w)
      else
        let sync := ss_sync_decisions s && negb (Rec.is_observation r) in
        '(a, j) ← Writer.append j (os_disk os (w_ios w)) (Rec.kind r) (Rec.encode r);
        let '(b, j) := match a with
                       | Err e => (Err e, j)
                       | Ok _ => (if sync then Writer.sync else Writer.flush) j (os_disk os (S (w_ios w)))
                       end in
        let w := ios w 2 in
        mret match b with
             | Ok _ => (true, set_journal s (Some j) (ss_sync_decisions s) None, w)
             | Err e => (false, set_journal s (Some j) (ss_sync_decisions s) (Some (journal_error_text os e)), w)
             end
  end.
Definition note s w r : run (Session * World) := '(_, s, w) ← write s w r; mret (s, w).
Definition journalling_with s w (j : Writer) (sync_decisions : bool) : run (Session * World) :=
  let c := ss_config s in
  let start := RecSessionStart (sc_id_prefix c) (sc_symbol c) (price_scale (sc_instrument c)) (qty_scale (sc_instrument c)) in
  note (set_journal s (Some j) sync_decisions (ss_journal_lost s)) w start.
Definition journalling s w (j : Writer) : run (Session * World) := journalling_with s w j false.

Definition record_operator s w (at_ : Nanos) (command reason origin outcome : text) : run (Session * World) :=
  note s w (RecOperator at_ command reason origin outcome).
Definition record_reconciled s w (at_ : Nanos) (legs : list (text * text * Z * Z)) : run (Session * World) :=
  if bool_decide (legs = []) then mret (s, w) else note s w (RecReconciled at_ legs).
Definition record_initial_positions s w (at_ : Nanos) (legs : list (text * text * Z * Z)) : run (Session * World) :=
  note s w (RecReconciled at_ legs).
Definition record_waiting s w (at_ : Nanos) (entries : list (text * Z)) : run (Session * World) :=
  if bool_decide (entries = []) then mret (s, w) else note s w (RecWaiting at_ entries).
Definition record_funding_state s w (at_ : Nanos) (watch : FundingWatch) : run (Session * World) :=
  let o := FundingWatch.obligations watch in
  if bool_decide (ss_told s = Some o) then mret (s, w)
  else
    '(recorded, s, w) ← write s w (RecFundingState at_ o);
    mret (if recorded : bool then set_told s o else s, w).
Definition record_fill s w f (client_id : text) : run (Session * World) :=
  let i := sc_instrument (ss_config s) in
  qty ← decimal (f_qty f) (qty_scale i);
  price ← decimal (f_price f) (price_scale i);
  note s w (RecFill (exch (f_stamp f)) client_id (if decide (i64 (f_trade f)) then f_trade f else 0) qty price
    (f_order f) (side_text (f_side f))).
Definition record_cancelled s w (at_ : Nanos) (client_id : text) : run (Session * World) := note s w (RecCancelled at_ client_id).

(** ** Halting *)

Definition note_halt s (why : text) : Session :=
  match ss_halt_reason s with None => set_gate s (ss_gate s) (Some why) | Some _ => s end.
Definition halt_reason s : option text :=
  if tripped (ss_gate s) then Some (default (text_of "halted, reason not recorded") (ss_halt_reason s)) else None.
Definition clear_halt s : Session := set_gate s (RiskGate.clear (ss_gate s)) None.
(** [gate().kill_switch().trip()], from outside the loop. *)
Definition trip s : Session := set_gate s (RiskGate.trip (ss_gate s)) (ss_halt_reason s).

(** ** Sending *)

Definition client_id s (n : Z) : text := sc_id_prefix (ss_config s) ++ ss_separator s ++ shown n.
Definition order_of s (p : ProposedOrder) (id : text) : NewOrder :=
  let c := ss_config s in
  mkNewOrder (sc_symbol c) (po_side p) (po_limit_price p) (po_qty p) id
    (po_reduce_only p && negb (is_hedged (sc_position_side c)))
    (leg_for (sc_position_side c) (po_side p) (po_reduce_only p)).
Definition submitted (now : Nanos) (o : NewOrder) : LiveRecord :=
  RecSubmitted now (no_client_id o) (no_side o) (default 0 (no_limit_price o)) (no_qty o) (no_reduce_only o)
    (leg_text (no_position_side o)).
Definition outcome (now : Nanos) (id : text) (x : Placed) : LiveRecord :=
  match x with
  | Accepted a => RecOutcome now id OAccepted (ak_status a)
  | Rejected r => RecOutcome now id ORejected (rj_message r)
  | Unknown u => RecOutcome now id OUnknown (ur_reason u)
  end.
(** What the placement says of itself: the file, and the part of it synced. *)
Definition file s : list Z := match ss_journal s with Some j => take (w_flushed j) (w_stream j) | None => [] end.
Definition synced s : nat := match ss_journal s with Some j => w_synced j | None => O end.

Definition not_yet : text :=
  text_of "the venue does not have it yet; asked again once the request can no longer be accepted".
Definition settle s w (id : text) (x : Placed) : Submission * Session * World :=
  match x with
  | Accepted a => (Sent (ak_client_id a), set_book s (Book.on_sent (ss_book s) (ak_client_id a)), w)
  | Rejected r => (SRejected (rj_message r), s, w)
  | Unknown _ =>
      let symbol := sc_symbol (ss_config s) in
      let answer := v_order_status v (w_calls w) symbol id in
      let w := call w (Asking symbol id) in
      match answer with
      | Ok (Some a) => (Sent (ak_client_id a), set_book s (Book.on_sent (ss_book s) (ak_client_id a)), w)
      | Ok None => (SUnresolved id not_yet, s, w)
      | Err e => (SUnresolved id e, s, w)
      end
  end.
Definition send s w (p : Permit) (now : Nanos) : run (Submission * Session * World) :=
  match ss_journal_lost s with
  | Some why => mret (SRejected (text_of "not sent: the journal can no longer record orders (" ++ why ++ text_of ")"), s, w)
  | None =>
      if ss_sequence_end s <=? ss_sequence s
      then mret (SRejected (text_of "reserved client order ids exhausted; restart with a new durable reservation"), s, w)
      else
        n ← chku64 (ss_sequence s + 1);
        let s := set_ids s n (ss_sequence_end s) (ss_separator s) in
        let id := client_id s n in
        let o := order_of s (pm_order p) id in
        '(recorded, s, w) ← write s w (submitted now o);
        if negb recorded then mret (SRejected (text_of "not sent: the journal could not record " ++ id), s, w)
        else
          l ← Latency.record (ss_latency s) (Z.min U64_MAX (os_elapsed os (length (w_calls w))));
          let s := set_latency s l in
          let placed := v_place v (w_calls w) o (sc_instrument (ss_config s)) in
          let w := call w (Placing p o (file s) (synced s)) in
          '(_, s, w) ← write s w (outcome now id placed);
          mret (settle s w id placed)
  end.

Definition position_for s (o : ProposedOrder) : QtyLots :=
  let c := ss_config s in
  let scale := qty_scale (sc_instrument c) in
  if is_hedged (sc_position_side c) && negb (po_reduce_only o)
  then Book.leg_lots (ss_book s) (sc_symbol c) (match po_side o with Buy => text_of "LONG" | Sell => text_of "SHORT" end) scale
  else Book.net_lots (ss_book s) (sc_symbol c) scale.
Definition submit s w (o : ProposedOrder) (mark : PriceTicks) (now : Nanos) : run (Submission * Session * World) :=
  let account := mkAccountState (position_for s o) mark (Book.working (ss_book s)) in
  '(d, g) ← RiskGate.check (ss_gate s) o account (sc_instrument (ss_config s)) now;
  let s := set_gate s g (ss_halt_reason s) in
  match d with
  | Permitted p => send s w p now
  | Refuse b => '(_, s, w) ← write s w (RecRefused now (breach_text b)); mret (Refused b, s, w)
  end.
Definition confirm_resting s (id : text) : Session := set_book s (Book.on_sent (ss_book s) id).

(** A cancel is not gated, and changes no one here but the venue. *)
Definition cancel s w (id : text) : Submission * World :=
  let symbol := sc_symbol (ss_config s) in
  let answer := v_cancel v (w_calls w) symbol id in
  (match answer with
   | Accepted a => Sent (ak_client_id a)
   | Rejected r => SRejected (rj_message r)
   | Unknown u => SUnresolved (ur_client_id u) (ur_reason u)
   end, call w (Cancelling symbol id)).
Definition reconcile s (ps : list PositionSnapshot) : result () text * Session :=
  match validate_positions ps with
  | Err e => (Err (refusal_text os e), s)
  | Ok _ => (Ok (), set_book s (Book.adopt (ss_book s) (position_of <$> List.filter held ps)))
  end.
Definition apply s (u : OrderUpdate) : run (bool * Session) :=
  '(r, b) ← Book.apply (ss_book s) u; mret (r, set_book s b).
End session.
End Session.
