(* ===== verification/SessionLife.v ===== *)
(** The life of a session: what holds of every order it places, whatever is
    asked of it and whatever the venue and the disk answer. *)

From stdpp Require Import gmap strings.
From Stdlib Require Import Floats.SpecFloat.
From S2P Require Import Prelude Slices Bytes Text Floats Types Order Instrument Margin Tick Event Frame Journal Risk Dedup Kernel.
From S2P Require Import Books LiveBook Latency LiveRecord FundingWatch LiveLedger LiveRun ClientIds LiveSession.
#[local] Open Scope Z_scope.

Implicit Types (f : Fill) (id : text).

(** * A life of a session *)

Inductive SessionOp :=
| OSubmit (o : ProposedOrder) (mark : PriceTicks) (now : Nanos)
| OConfirm (id : text)
| OCancel (id : text)
| OReconcile (ps : list PositionSnapshot)
| OApply (u : OrderUpdate)
| OTrip
| OClear
| ONoteHalt (why : text)
| ONote (r : LiveRecord)
| OReconciled (at_ : Nanos) (legs : list (text * text * Z * Z))
| OWaiting (at_ : Nanos) (entries : list (text * Z))
| OFundingState (at_ : Nanos) (watch : FundingWatch)
| OFill f (id : text).

Section life.
Context (v : Venue) (os : Os).
Implicit Types (s : Session) (w : World) (r : LiveRecord) (j : Writer) (fs : list Frame).

Definition session_op s w (x : SessionOp) : run (Session * World) :=
  match x with
  | OSubmit o mark now => '(_, s, w) ← Session.submit v os s w o mark now; mret (s, w)
  | OConfirm id => mret (Session.confirm_resting s id, w)
  | OCancel id => mret (s, (Session.cancel v s w id).2)
  | OReconcile ps => mret ((Session.reconcile os s ps).2, w)
  | OApply u => '(_, s) ← Session.apply s u; mret (s, w)
  | OTrip => mret (Session.trip s, w)
  | OClear => mret (Session.clear_halt s, w)
  | ONoteHalt why => mret (Session.note_halt s why, w)
  | ONote r => Session.note os s w r
  | OReconciled at_ legs => Session.record_reconciled os s w at_ legs
  | OWaiting at_ es => Session.record_waiting os s w at_ es
  | OFundingState at_ watch => Session.record_funding_state os s w at_ watch
  | OFill f id => Session.record_fill os s w f id
  end.
Fixpoint session_ops s w (xs : list SessionOp) : run (Session * World) :=
  match xs with [] => mret (s, w) | x :: xs => '(s, w) ← session_op s w x; session_ops s w xs end.

(** The placements among the calls, in order. *)
Definition placement (c : Call) : option (Permit * NewOrder * list Z * nat) :=
  match c with Placing p o file synced => Some (p, o, file, synced) | _ => None end.
Definition placements w : list (Permit * NewOrder * list Z * nat) := omap placement (w_calls w).

(** ** The journal *)

(** A writer at the end of a file of whole records. *)
Record writer_at j fs : Prop := {
  wa_stream : w_stream j = images fs;
  wa_ok : Forall frame_ok fs;
  wa_numbered : ∃ e, numbered None fs e ∧ default 0 e = w_next_seq j;
  wa_seq : u64 (w_next_seq j);
  wa_flushed : w_flushed j = length (w_stream j);
  wa_broken : w_broken j = false;
}.

(** Opening a file of whole records. *)
Lemma open_writer_at fs e p j : Forall frame_ok fs → numbered None fs e → u64 (default 0 e) →
  Writer.open false (images fs) p = Ret (Ok j) → writer_at j fs ∧ w_policy j = p.
Proof.
  intros Hf Hn Hu H. unfold Writer.open, scan_tail in H. rewrite <-(app_nil_r (images fs)) in H.
  rewrite (replay_whole fs [] e) in H by (done || apply Forall_nil_2). cbn in H. injection H as <-.
  rewrite app_nil_r, take_ge by lia. split; [|done]. split; simpl; try done. by exists e.
Qed.

Lemma append_at_end j fs io k pl j' seq : writer_at j fs → u16 k → bytes pl → Writer.append j io k pl = Ret (Ok seq, j') →
  w_stream j' = images (fs ++ [mkFrame (w_next_seq j) k pl]) ∧ Forall frame_ok (fs ++ [mkFrame (w_next_seq j) k pl]) ∧
  (∃ e, numbered None (fs ++ [mkFrame (w_next_seq j) k pl]) e ∧ default 0 e = w_next_seq j') ∧ u64 (w_next_seq j') ∧
  w_broken j' = false ∧ w_policy j' = w_policy j ∧
  (w_policy j = EveryRecord → w_synced j' = length (w_stream j')).
Proof.
  intros [Es Ho (e & Hn & He) Hu Hfl Hb] Hk Hp H. unfold Writer.append in H. rewrite Hb in H. unfold checked in H.
  case_decide as Hnext; [|by injection H]. case_bool_decide; [by injection H|].
  apply bind_ret in H as (sc & Hsc & H). set (g := mkFrame (w_next_seq j) k pl) in *.
  unfold Frame.encode in Hsc. destruct (Z.leb_spec (Z.of_nat (length (fr_payload g))) MAX_PAYLOAD) as [Hm|]; [|done].
  injection Hsc as <-. fold (image g) in H. destruct io; [|by injection H].
  apply bind_ret in H as (n & _ & [= <- <-]). cbn [w_stream w_next_seq w_broken w_policy w_synced Writer.set_fail_in].
  assert (frame_ok g) as Hg by by split. unfold u64 in Hnext, Hu.
  rewrite images_app, Es. unfold images at 3. simpl. rewrite app_nil_r. split_and!; try done.
  - apply Forall_app_2; [done|by apply Forall_singleton].
  - exists (Some (w_next_seq j + 1)). split; [|done]. apply numbered_app. exists e. split; [done|]. simpl.
    split_and!; [|lia|done]. destruct e as [e|]; [right; simpl in He; congruence|by left].
  - by intros ->.
Qed.

(** The stream only grows. *)
Definition grows j j' : Prop := w_stream j `prefix_of` w_stream j' ∧ w_policy j' = w_policy j.
Lemma grows_refl j : grows j j.
Proof. done. Qed.
Lemma grows_trans a b c : grows a b → grows b c → grows a c.
Proof. intros [H1 E1] [H2 E2]. split; [by etrans|congruence]. Qed.
Lemma append_grows j io k pl a j' : Writer.append j io k pl = Ret (a, j') → grows j j'.
Proof.
  intros H. unfold Writer.append in H. destruct (w_broken j); [by injection H as <- <-|]. unfold checked in H.
  case_decide; [|by injection H as <- <-]. case_bool_decide; [by injection H as <- <-|].
  apply bind_ret in H as (sc & _ & H). destruct io.
  - apply bind_ret in H as (n & _ & [= <- <-]). split; [by apply prefix_app_r|done].
  - injection H as <- <-. split; [by apply prefix_app_r|done].
Qed.
Definition settled (x : bool) (j : Writer) (io : Io) := (if x then Writer.sync else Writer.flush) j io.
Lemma settled_spec x j io b j' : settled x j io = (b, j') → w_broken j = false →
  grows j j' ∧ w_next_seq j' = w_next_seq j ∧ w_stream j' = w_stream j ∧
  match b with
  | Ok _ => w_broken j' = false ∧ w_flushed j' = length (w_stream j) ∧
      w_synced j' = if x then length (w_stream j) else w_synced j
  | Err _ => True
  end.
Proof.
  intros H Hb. unfold settled, Writer.sync, Writer.flush in H.
  destruct x; rewrite Hb in H; destruct io; injection H as <- <-; simpl; done.
Qed.

(** What a write changes, and what it leaves in the file. *)
Definition same_but_journal s s' : Prop := s' = Session.set_journal s (ss_journal s') (ss_sync_decisions s) (ss_journal_lost s').
Definition holds_records s fs : Prop :=
  ∃ j, ss_journal s = Some j ∧ (ss_journal_lost s = None → writer_at j fs).
Definition journal_grows s s' : Prop :=
  ∃ j j', ss_journal s = Some j ∧ ss_journal s' = Some j' ∧ grows j j' ∧ (is_Some (ss_journal_lost s) → is_Some (ss_journal_lost s')).

Lemma record_kind_u16 r : u16 (Rec.kind r).
Proof. by destruct r; vm_compute. Qed.

Lemma write_spec s w r b s' w' fs : holds_records s fs → bytes (Rec.encode r) →
  Session.write os s w r = Ret (b, s', w') →
  w_calls w' = w_calls w ∧ same_but_journal s s' ∧ journal_grows s s' ∧
  (b = false → is_Some (ss_journal_lost s')) ∧
  (b = true → ss_journal_lost s = None ∧ ss_journal_lost s' = None ∧ ∃ g, fr_kind g = Rec.kind r ∧ fr_payload g = Rec.encode r ∧
    holds_records s' (fs ++ [g]) ∧
    (∀ j, ss_journal s' = Some j → ss_sync_decisions s && negb (Rec.is_observation r) = true ∨ w_policy j = EveryRecord →
      w_synced j = length (w_stream j))).
Proof.
  intros (j & Ej & Hj) Hb H. unfold Session.write in H. rewrite Ej in H. case_bool_decide as Hlost.
  { injection H as <- <- <-. split_and!; try done; [by destruct s|]. by exists j, j. }
  apply bind_ret in H as ([a j1] & Ha & H). pose proof (append_grows _ _ _ _ _ _ Ha) as Hg1.
  assert (ss_journal_lost s = None) as Hnone by (destruct (ss_journal_lost s); [by destruct Hlost|done]).
  specialize (Hj Hnone). set (sync := ss_sync_decisions s && negb (Rec.is_observation r)) in *.
  destruct a as [seq|e].
  2: { injection H as <- <- <-. split_and!; try done. by exists j, j1. }
  destruct (append_at_end _ _ _ _ _ _ _ Hj (record_kind_u16 r) Hb Ha) as (Es & Ho & Hn & Hu & Hbr & Hpol & Hsyn).
  fold (settled sync j1 (os_disk os (S (w_ios w)))) in H. destruct (settled _ _ _) as [c j2] eqn:Ec.
  destruct (settled_spec _ _ _ _ _ Ec Hbr) as (Hg2 & En2 & Es2 & Hc).
  assert (grows j j2) as Hg by by eapply grows_trans.
  destruct c as [u|e]; injection H as <- <- <-; (split_and!; try done); try by exists j, j2.
  intros _. split; [done|]. split; [done|]. destruct Hc as (Hb2 & Hf2 & Hs2).
  exists (mkFrame (w_next_seq j) (Rec.kind r) (Rec.encode r)). split_and!; [done|done| |].
  - exists j2. split; [done|]. intros _. split; rewrite ?Es2, ?En2; done.
  - intros j3 [= <-]. rewrite Es2, Hs2. destruct Hg2 as [_ Hp2]. rewrite Hp2, Hpol. intros [Hx|Hx]; [by rewrite Hx|].
    rewrite <-(Hsyn Hx). by destruct sync; [rewrite (Hsyn Hx)|].
Qed.
End life.

(** ** The bytes it writes *)

Lemma newtype_bytes x z : bytes (newtype x z).
Proof. unfold newtype. auto 10 with bytes. Qed.
#[local] Hint Resolve newtype_bytes : bytes.
Lemma breach_bytes b : bytes (breach_text b).
Proof.
  assert (bytes [34]) as Hq by (repeat constructor; by vm_compute).
  destruct b; unfold breach_text; auto 20 with bytes.
Qed.
Lemma refused_bytes now b : bytes (Rec.encode (RecRefused now (breach_text b))).
Proof. cbn [Rec.encode]. apply Forall_app_2; [apply le_bytes|]. apply put_str_bytes, breach_bytes. Qed.
Lemma submitted_bytes now o : bytes (no_client_id o) → bytes (Rec.encode (Session.submitted now o)).
Proof.
  intros Hid. unfold Session.submitted. cbn [Rec.encode].
  assert (bytes (Rec.put_u8 (match no_side o with Buy => 1 | Sell => 2 end))) by (destruct (no_side o); repeat constructor; by vm_compute).
  assert (bytes (leg_text (no_position_side o))) by (destruct (no_position_side o); apply text_of_ascii_bytes).
  unfold Rec.put_i64. auto 20 with bytes.
Qed.
Lemma outcome_bytes now id x : bytes id →
  bytes (match x with Accepted a => ak_status a | Rejected r => rj_message r | Unknown u => ur_reason u end) →
  bytes (Rec.encode (Session.outcome now id x)).
Proof.
  intros Hid Hx. assert (∀ t, bytes (Rec.put_u8 (Rec.tag_byte t))) by (intros []; repeat constructor; by vm_compute).
  destruct x; cbn [Session.outcome Rec.encode]; unfold Rec.put_i64; auto 20 with bytes.
Qed.
Lemma decimal_bytes z k : yields (decimal z k) bytes.
Proof.
  unfold decimal. destruct (k =? 0); [apply yields_ret, shown_bytes|]. apply yields_bind. intros d _. apply yields_ret.
  assert (∀ n, bytes (replicate n 48)) by (intros n; apply Forall_replicate; by vm_compute).
  destruct (z <? 0); auto 20 with bytes.
Qed.

(** ** What holds of every placement *)

Section safe.
Context (v : Venue) (os : Os) (cfg : SessionConfig) (sep : text) (lo hi : Z) (l : Limits) (sync : bool) (pol : SyncPolicy).
Implicit Types (s : Session) (w : World) (r : LiveRecord) (j : Writer) (fs : list Frame).

(** Records are made of bytes, and the times and sizes fit their types. *)
Definition venue_texts : Prop :=
  ∀ calls o i, bytes (match v_place v calls o i with Accepted a => ak_status a | Rejected r => rj_message r | Unknown u => ur_reason u end).
Definition op_typed (x : SessionOp) : Prop :=
  match x with
  | OSubmit o _ now => i64 now ∧ i64 (po_qty o) ∧ match po_limit_price o with Some p => i64 p | None => True end
  | ONote r => bytes (Rec.encode r)
  | OReconciled at_ legs => bytes (Rec.encode (RecReconciled at_ legs))
  | OWaiting at_ es => bytes (Rec.encode (RecWaiting at_ es))
  | OFundingState at_ watch => bytes (Rec.encode (RecFundingState at_ (FundingWatch.obligations watch)))
  | OFill _ id => bytes id
  | _ => True
  end.
Fixpoint ops_clocked (t : Nanos) (xs : list SessionOp) : Prop :=
  match xs with
  | [] => True
  | OSubmit _ _ now :: xs => t ≤ now ∧ ops_clocked now xs
  | _ :: xs => ops_clocked t xs
  end.

Definition id_text (n : Z) : text := sc_id_prefix cfg ++ sep ++ shown n.
(** The last record of the file is this order's, and on the device when it has
    to be. *)
Definition announced (p : Permit) (o : NewOrder) (file : list Z) (synced : nat) : Prop :=
  ∃ fs g e, file = images (fs ++ [g]) ∧ Forall frame_ok (fs ++ [g]) ∧ numbered None (fs ++ [g]) e ∧
    fr_kind g = Rec.SUBMITTED ∧ decode_record (fr_kind g) (fr_payload g) = Ret (Some (Session.submitted (pm_at p) o)) ∧
    (sync = true ∨ pol = EveryRecord → synced = length file).
Definition as_permitted (p : Permit) (o : NewOrder) : Prop :=
  no_symbol o = sc_symbol cfg ∧ no_side o = po_side (pm_order p) ∧ no_limit_price o = po_limit_price (pm_order p) ∧
  no_qty o = po_qty (pm_order p) ∧
  no_reduce_only o = po_reduce_only (pm_order p) && negb (is_hedged (sc_position_side cfg)) ∧
  no_position_side o = leg_for (sc_position_side cfg) (po_side (pm_order p)) (po_reduce_only (pm_order p)).

Record live_inv s w (ps : list Permit) (t : Nanos) : Prop := {
  li_config : ss_config s = cfg;
  li_separator : ss_separator s = sep;
  li_end : ss_sequence_end s = hi;
  li_sync : ss_sync_decisions s = sync;
  li_journal : ∃ fs, holds_records s fs;
  li_files : ∃ j, ss_journal s = Some j ∧ w_policy j = pol ∧ Forall (λ x, x.1.2 `prefix_of` w_stream j) (placements w);
  li_gate : paced l (ss_gate s) ps t;
  li_permits : ((λ x, x.1.1.1) <$> placements w) `sublist_of` ps;
  li_sequence : lo - 1 ≤ ss_sequence s ≤ hi;
  li_ids : ∃ ns, ((λ x, no_client_id x.1.1.2) <$> placements w) = id_text <$> ns ∧ StronglySorted Z.lt ns ∧
    Forall (λ n, lo ≤ n ≤ ss_sequence s) ns;
  li_placed : Forall (λ x, announced x.1.1.1 x.1.1.2 x.1.2 x.2 ∧ as_permitted x.1.1.1 x.1.1.2) (placements w);
}.

(** What the invariant does not see may change. *)
Lemma live_same s w ps t s' w' ps' t' : live_inv s w ps t →
  ss_config s' = ss_config s → ss_separator s' = ss_separator s → ss_sequence_end s' = ss_sequence_end s →
  ss_sync_decisions s' = ss_sync_decisions s → ss_journal s' = ss_journal s → ss_journal_lost s' = ss_journal_lost s →
  ss_sequence s ≤ ss_sequence s' ≤ hi → placements w' = placements w → paced l (ss_gate s') ps' t' → ps `sublist_of` ps' →
  live_inv s' w' ps' t'.
Proof.
  intros [H1 H2 H3 H4 (fs & j0 & Ej0 & Hj0) (j & Ej & Hp & Hf) H7 H8 H9 (ns & Hns & Hs & Hb) H11] E1 E2 E3 E4 E5 E6 E7 E8 Hg Hsub.
  split; rewrite ?E8; try congruence; try done.
  - exists fs, j0. rewrite E5, E6. done.
  - exists j. rewrite E5. done.
  - by etrans.
  - lia.
  - exists ns. split_and!; [done|done|]. eapply Forall_impl; [exact Hb|]. simpl. lia.
Qed.

(** A record more in the journal. *)
Lemma live_write s w ps t r b s' w' : live_inv s w ps t → bytes (Rec.encode r) →
  Session.write os s w r = Ret (b, s', w') → live_inv s' w' ps t.
Proof.
  intros [H1 H2 H3 H4 (fs & Hfs) (j & Ej & Hp & Hf) H7 H8 H9 H10 H11] Hb H.
  destruct (write_spec os s w r b s' w' fs Hfs Hb H) as (Ew & Hsame & (j1 & j2 & E1 & E2 & [Hgr Hpol] & Hlost) & Hfalse & Htrue).
  assert (placements w' = placements w) as Ep by (unfold placements; by rewrite Ew).
  rewrite Ej in E1. injection E1 as <-.
  rewrite Hsame; split; rewrite ?Ep; try done; cbn [ss_journal ss_journal_lost Session.set_journal].
  - destruct b.
    + destruct (Htrue eq_refl) as (_ & Hn & g & _ & _ & Hg & _). exists (fs ++ [g]).
      destruct Hg as (j3 & E3 & Hg). exists j3. done.
    + exists []. exists j2. split; [done|]. simpl. intros Hn. specialize (Hfalse eq_refl). rewrite Hn in Hfalse. by destruct Hfalse.
  - exists j2. split_and!; [done|congruence|]. eapply Forall_impl; [exact Hf|]. simpl. intros x Hx. by etrans.
Qed.
Lemma live_note s w ps t r s' w' : live_inv s w ps t → bytes (Rec.encode r) →
  Session.note os s w r = Ret (s', w') → live_inv s' w' ps t.
Proof.
  intros Hl Hb H. unfold Session.note in H. apply bind_ret in H as ([[b s1] w1] & H & [= <- <-]). by eapply live_write.
Qed.

Context (Hv : venue_texts) (Hid : ∀ n, u64 n → text_ok (id_text n)) (Hhi : hi ≤ U64_MAX) (Hlo : 1 ≤ lo) (Hlim : limits_ok l).

Lemma submitted_decodes p o : i64 (pm_at p) → text_ok (no_client_id o) → i64 (no_qty o) →
  match no_limit_price o with Some x => i64 x | None => True end →
  decode_record Rec.SUBMITTED (Rec.encode (Session.submitted (pm_at p) o)) = Ret (Some (Session.submitted (pm_at p) o)).
Proof.
  intros Hn Hi Hq Hp. unfold decode_record. change Rec.SUBMITTED with (Rec.kind (Session.submitted (pm_at p) o)).
  rewrite take_record_put; [done|]. unfold Session.submitted, record_ok. split_and!; try done.
  - by destruct (no_limit_price o).
  - apply ascii_text_ok; destruct (no_position_side o); vm_compute; [repeat constructor..|done|done|done]; done.
Qed.

(** A placement joins the others. *)
Lemma live_place s w ps t p o g fs : live_inv s w ps t → o = Session.order_of s (pm_order p) (id_text (ss_sequence s)) →
  (∀ x, x ∈ placements w → ∃ n, lo ≤ n < ss_sequence s ∧ no_client_id x.1.1.2 = id_text n) →
  lo ≤ ss_sequence s → ss_journal_lost s = None → holds_records s (fs ++ [g]) → fr_kind g = Rec.SUBMITTED →
  fr_payload g = Rec.encode (Session.submitted (pm_at p) o) →
  (∀ j, ss_journal s = Some j → sync = true ∨ w_policy j = EveryRecord → w_synced j = length (w_stream j)) →
  ((λ x, x.1.1.1) <$> placements w) ++ [p] `sublist_of` ps →
  i64 (pm_at p) → i64 (po_qty (pm_order p)) → match po_limit_price (pm_order p) with Some x => i64 x | None => True end →
  live_inv s (call w (Placing p o (Session.file s) (Session.synced s))) ps t.
Proof.
  intros Hl Eo Hold Hseq Hnone (j & Ej & Hj) Hk Hpl Hsy Hsub Ht Hq Hpr. specialize (Hj Hnone).
  pose proof Hl as [H1 H2 H3 H4 H5 (j0 & Ej0 & Hpol & Hf) H7 H8 H9 (ns & Hns & Hs & Hb) H11].
  rewrite Ej in Ej0. injection Ej0 as <-.
  set (x := (p, o, Session.file s, Session.synced s)).
  assert (placements (call w (Placing p o (Session.file s) (Session.synced s))) = placements w ++ [x]) as Ep.
  { unfold placements, call. cbn [w_calls]. by rewrite omap_app. }
  assert (Session.file s = w_stream j) as Efile.
  { unfold Session.file. rewrite Ej, (wa_flushed _ _ Hj). by rewrite take_ge. }
  assert (no_client_id o = id_text (ss_sequence s)) as Eid by by rewrite Eo.
  split; rewrite ?Ep, ?fmap_app; try done.
  - exists j. split_and!; [done|done|]. apply Forall_app_2; [done|]. apply Forall_singleton. simpl. by rewrite Efile.
  - exists (ns ++ [ss_sequence s]). rewrite fmap_app, Hns. simpl. rewrite Eid. split; [done|].
    assert (Forall (λ n, n < ss_sequence s) ns) as Hlt.
    { rewrite Forall_forall. intros n Hn. assert (id_text n ∈ id_text <$> ns) as Hi by by apply list_elem_of_fmap_2.
      rewrite <-Hns in Hi. apply list_elem_of_fmap in Hi as (y & Ey & Hy). destruct (Hold y Hy) as (m & Hm & Em).
      simpl in Ey. rewrite Em in Ey. unfold id_text in Ey. apply (inj (app _)), (inj (app _)), (inj shown) in Ey. lia. }
    split.
    + clear -Hs Hlt. induction Hs as [|n ns Hs IH Hn]; simpl; [repeat constructor|]. apply Forall_cons in Hlt as [? ?].
      constructor; [by apply IH|]. apply Forall_app_2; [done|by apply Forall_singleton].
    + apply Forall_app_2; [done|]. apply Forall_singleton. lia.
  - apply Forall_app_2; [done|]. apply Forall_singleton. simpl. rewrite Efile. split.
    + destruct Hj as [Es Ho (e & Hn & _) _ _ _]. exists fs, g, e. split_and!; try done.
      * rewrite Hk, Hpl. apply submitted_decodes; [done|rewrite Eid; apply Hid; unfold u64; lia|by rewrite Eo|by rewrite Eo].
      * intros Hd. unfold Session.synced. rewrite Ej. apply Hsy; [done|]. rewrite Hpol. done.
    + rewrite Eo. unfold as_permitted, Session.order_of. rewrite H1. done.
Qed.

Lemma live_settle s w ps t id x y s' w' : live_inv s w ps t → Session.settle v s w id x = (y, s', w') → live_inv s' w' ps t.
Proof.
  intros Hl H. pose proof (li_sequence _ _ _ _ Hl) as [? ?]. pose proof (li_gate _ _ _ _ Hl) as Hg.
  unfold Session.settle in H. destruct x as [a|r|u].
  - injection H as <- <- <-. by eapply live_same.
  - by injection H as <- <- <-.
  - set (q := Asking _ _) in H. assert (placements (call w q) = placements w) as Ep.
    { unfold placements, call. cbn [w_calls]. rewrite omap_app. simpl. by rewrite app_nil_r. }
    destruct (v_order_status _ _ _ _) as [[a|]|e]; injection H as <- <- <-; by eapply live_same.
Qed.

Lemma live_send s w ps t p y s' w' : live_inv s w (ps ++ [p]) t → ((λ x, x.1.1.1) <$> placements w) `sublist_of` ps →
  i64 (pm_at p) → i64 (po_qty (pm_order p)) → match po_limit_price (pm_order p) with Some x => i64 x | None => True end →
  Session.send v os s w p (pm_at p) = Ret (y, s', w') → live_inv s' w' (ps ++ [p]) t.
Proof.
  intros Hl Hsub Ht Hq Hp H. unfold Session.send in H.
  destruct (ss_journal_lost s) as [why|] eqn:Elost; [by injection H as <- <- <-|].
  destruct (Z.leb_spec (ss_sequence_end s) (ss_sequence s)) as [Hle|Hlt]; [by injection H as <- <- <-|].
  apply bind_ret in H as (n & Hn & H). apply chk_inv in Hn as [-> Hnu].
  pose proof (li_end _ _ _ _ Hl) as Eend. pose proof (li_sequence _ _ _ _ Hl) as Hseq. pose proof (li_gate _ _ _ _ Hl) as Hg.
  set (s1 := Session.set_ids s _ _ _) in H.
  assert (live_inv s1 w (ps ++ [p]) t) as Hl1 by (eapply live_same; [exact Hl|done..| |done|done|done]; simpl; lia).
  assert (Session.client_id s1 (ss_sequence s + 1) = id_text (ss_sequence s1)) as Eid.
  { unfold Session.client_id, id_text. by rewrite (li_config _ _ _ _ Hl1), (li_separator _ _ _ _ Hl1). }
  rewrite Eid in H. set (o := Session.order_of s1 (pm_order p) (id_text (ss_sequence s1))) in H.
  apply bind_ret in H as ([[b s2] w2] & Hw & H).
  destruct (li_journal _ _ _ _ Hl1) as [fs Hfs].
  assert (bytes (id_text (ss_sequence s1))) as Hib by (apply text_ok_bytes, Hid; done).
  assert (bytes (Rec.encode (Session.submitted (pm_at p) o))) as Hob by by apply submitted_bytes.
  destruct (write_spec os _ _ _ _ _ _ fs Hfs Hob Hw) as (Ew & Hsame & _ & _ & Htrue).
  pose proof (live_write _ _ _ _ _ _ _ _ Hl1 Hob Hw) as Hl2.
  destruct b; simpl in H; [|by injection H as <- <- <-].
  destruct (Htrue eq_refl) as (_ & Hnone & g & Hgk & Hgp & Hg2 & Hsy). apply bind_ret in H as (lt & _ & H).
  assert (placements w2 = placements w) as Ep by (unfold placements; by rewrite Ew).
  set (s3 := Session.set_latency s2 lt) in H.
  assert (live_inv s3 w2 (ps ++ [p]) t) as Hl3.
  { eapply live_same; [exact Hl2|done..| |done|exact (li_gate _ _ _ _ Hl2)|done]. pose proof (li_sequence _ _ _ _ Hl2). simpl. lia. }
  assert (ss_sequence s3 = ss_sequence s1) as Eseq by (unfold s3; by rewrite Hsame).
  apply bind_ret in H as ([[b' s4] w4] & Hw' & H). injection H as H.
  assert (live_inv (s3) (call w2 (Placing p o (Session.file s3) (Session.synced s3))) (ps ++ [p]) t) as Hl4.
  { eapply (live_place _ _ _ _ _ _ g fs); [exact Hl3| | | |done| |exact Hgk|exact Hgp| | |done..].
    - rewrite Eseq. unfold o, Session.order_of. rewrite (li_config _ _ _ _ Hl1).
      by rewrite (li_config _ _ _ _ Hl3).
    - rewrite Ep. intros x Hx. destruct (li_ids _ _ _ _ Hl) as (ns & Hns & _ & Hb).
      assert (no_client_id x.1.1.2 ∈ id_text <$> ns) as Hi by (rewrite <-Hns; by eapply (list_elem_of_fmap_2 (λ x, no_client_id x.1.1.2))).
      apply list_elem_of_fmap in Hi as (m & Em & Hm). exists m. rewrite Forall_forall in Hb. specialize (Hb m Hm).
      rewrite Eseq. simpl. split; [lia|done].
    - rewrite Eseq. simpl. lia.
    - destruct Hg2 as (j & Ej & Hj). by exists j.
    - intros j Ej Hd. apply Hsy; [done|]. rewrite (li_sync _ _ _ _ Hl1). simpl. destruct Hd as [->|?]; [by left|by right].
    - rewrite Ep. by apply sublist_app. }
  eapply live_settle; [|exact H]. eapply live_write; [exact Hl4| |exact Hw']. apply outcome_bytes; [done|]. apply Hv.
Qed.

Lemma live_op s w ps t x s' w' : live_inv s w ps t → ops_clocked t [x] → op_typed x → session_op v os s w x = Ret (s', w') →
  ∃ ps' t', live_inv s' w' (ps ++ ps') t' ∧ ∀ xs, ops_clocked t (x :: xs) → ops_clocked t' xs.
Proof.
  intros Hl Hc Ht H. pose proof (li_sequence _ _ _ _ Hl) as [? ?]. pose proof (li_gate _ _ _ _ Hl) as Hg.
  destruct x; simpl in H.
  1: { apply bind_ret in H as ([[y s1] w1] & H & [= <- <-]). unfold Session.submit in H.
    apply bind_ret in H as ([d g] & Hch & H). simpl in Hc. destruct Hc as [Hc _], Ht as (Ht & Hq & Hp).
    pose proof (check_paced _ _ _ _ _ _ _ _ _ _ Hlim Hg Hc Hch) as Hg'. destruct d as [p|b].
    - exists [p], now. split; [|by intros xs []].
      assert (p = mkPermit o now) as -> by (destruct (check_decides _ _ _ _ _ _ Hch) as [[_ [= -> _]]|(_ & ? & _)]; done).
      eapply (live_send _ _ _ _ (mkPermit o now)); [|exact (li_permits _ _ _ _ Hl)|done|done|done|exact H].
      eapply live_same; [exact Hl|done..|exact Hg'|by apply sublist_inserts_r].
    - exists [], now. split; [|by intros xs []]. apply bind_ret in H as ([[c s2] w2] & Hw & [= <- <- <-]).
      eapply live_write; [|apply (refused_bytes now b)|exact Hw]. rewrite app_nil_r in Hg' |- *.
      eapply live_same; [exact Hl|done..|exact Hg'|done]. }
  all: exists [], t; rewrite app_nil_r; split; [|by intros xs ?].
  - injection H as <- <-. by eapply live_same.
  - injection H as <- <-. eapply live_same; [exact Hl|done..| |exact Hg|done].
    unfold placements, Session.cancel, call. cbn [w_calls snd]. rewrite omap_app. simpl. by rewrite app_nil_r.
  - injection H as <- <-. unfold Session.reconcile. destruct (validate_positions ps0); [by eapply live_same|done].
  - apply bind_ret in H as ([y s1] & H & [= <- <-]). unfold Session.apply in H.
    apply bind_ret in H as ([z b] & _ & [= <- <-]). by eapply live_same.
  - injection H as <- <-. eapply live_same; [exact Hl|done..| |done]. by destruct Hg.
  - injection H as <- <-. eapply live_same; [exact Hl|done..| |done]. by destruct Hg.
  - injection H as <- <-. unfold Session.note_halt. destruct (ss_halt_reason s); [done|]. by eapply live_same.
  - by eapply live_note.
  - unfold Session.record_reconciled in H. case_bool_decide; [by injection H as <- <-|]. by eapply live_note.
  - unfold Session.record_waiting in H. case_bool_decide; [by injection H as <- <-|]. by eapply live_note.
  - unfold Session.record_funding_state in H. case_bool_decide; [by injection H as <- <-|].
    apply bind_ret in H as ([[b s1] w1] & H & [= <- <-]). pose proof (live_write _ _ _ _ _ _ _ _ Hl Ht H) as Hl1.
    destruct b; [|done]. pose proof (li_sequence _ _ _ _ Hl1) as [? ?]. pose proof (li_gate _ _ _ _ Hl1). by eapply live_same.
  - unfold Session.record_fill in H. apply bind_ret in H as (q & Hq & H). apply bind_ret in H as (p & Hp & H).
    eapply live_note; [exact Hl| |exact H]. apply decimal_bytes in Hq, Hp. cbn [Rec.encode].
    assert (bytes (side_text (f_side f))) by (destruct (f_side f); apply text_of_ascii_bytes).
    simpl in Ht. unfold Rec.put_i64. auto 20 with bytes.
Qed.

Lemma live_ops xs : ∀ s w ps t s' w', live_inv s w ps t → ops_clocked t xs → Forall op_typed xs →
  session_ops v os s w xs = Ret (s', w') → ∃ ps' t', live_inv s' w' (ps ++ ps') t'.
Proof.
  induction xs as [|x xs IH]; intros s w ps t s' w' Hl Hc Ht H; simpl in H.
  { injection H as <- <-. exists [], t. by rewrite app_nil_r. }
  apply bind_ret in H as ([s1 w1] & H1 & H). apply Forall_cons in Ht as [Hx Ht].
  assert (ops_clocked t [x]) as Hc1 by (destruct x; simpl in *; naive_solver).
  destruct (live_op _ _ _ _ _ _ _ Hl Hc1 Hx H1) as (ps1 & t1 & Hl1 & Hn).
  destruct (IH _ _ _ _ _ _ Hl1 (Hn xs Hc) Ht H) as (ps2 & t2 & Hl2). exists (ps1 ++ ps2), t2. by rewrite (app_assoc ps).
Qed.
End safe.

Section tells.
Context (v : Venue) (os : Os).
Implicit Types (s : Session) (w : World).

(** A session whose journal is lost writes and places nothing. *)
Lemma lost_writes_nothing s w r b s' w' : is_Some (ss_journal_lost s) → Session.write os s w r = Ret (b, s', w') → s' = s ∧ w' = w.
Proof.
  intros Hl H. unfold Session.write in H. destruct (ss_journal s); [|by injection H as <- <- <-].
  rewrite bool_decide_eq_true_2 in H by done. by injection H as <- <- <-.
Qed.
Lemma lost_notes_nothing s w r s' w' : is_Some (ss_journal_lost s) → Session.note os s w r = Ret (s', w') → s' = s ∧ w' = w.
Proof. intros Hl H. apply bind_ret in H as ([[b s1] w1] & H & [= <- <-]). by eapply lost_writes_nothing. Qed.
Lemma lost_op s w x s' w' : is_Some (ss_journal_lost s) → session_op v os s w x = Ret (s', w') →
  is_Some (ss_journal_lost s') ∧ placements w' = placements w.
Proof.
  intros Hl H. destruct x; simpl in H.
  - apply bind_ret in H as ([[y s1] w1] & H & [= <- <-]). unfold Session.submit in H.
    apply bind_ret in H as ([d g] & _ & H). set (s2 := Session.set_gate s g _) in H.
    assert (is_Some (ss_journal_lost s2)) as Hl2 by done. destruct d as [p|b].
    + unfold Session.send in H. destruct Hl2 as [why Hl2]. rewrite Hl2 in H. injection H as <- <- <-. by rewrite Hl2.
    + apply bind_ret in H as ([[c s3] w3] & H & [= <- <- <-]). by destruct (lost_writes_nothing _ _ _ _ _ _ Hl2 H) as [-> ->].
  - by injection H as <- <-.
  - injection H as <- <-. split; [done|]. unfold placements, Session.cancel, call. cbn [w_calls snd].
    rewrite omap_app. simpl. by rewrite app_nil_r.
  - injection H as <- <-. unfold Session.reconcile. by destruct (validate_positions ps).
  - apply bind_ret in H as ([y s1] & H & [= <- <-]). apply bind_ret in H as ([z b] & _ & [= <- <-]). done.
  - by injection H as <- <-.
  - by injection H as <- <-.
  - injection H as <- <-. unfold Session.note_halt. by destruct (ss_halt_reason s).
  - by destruct (lost_notes_nothing _ _ _ _ _ Hl H) as [-> ->].
  - unfold Session.record_reconciled in H. case_bool_decide; [by injection H as <- <-|].
    by destruct (lost_notes_nothing _ _ _ _ _ Hl H) as [-> ->].
  - unfold Session.record_waiting in H. case_bool_decide; [by injection H as <- <-|].
    by destruct (lost_notes_nothing _ _ _ _ _ Hl H) as [-> ->].
  - unfold Session.record_funding_state in H. case_bool_decide; [by injection H as <- <-|].
    apply bind_ret in H as ([[b s1] w1] & H & [= <- <-]). destruct (lost_writes_nothing _ _ _ _ _ _ Hl H) as [-> ->]. by destruct b.
  - unfold Session.record_fill in H. apply bind_ret in H as (q & _ & H). apply bind_ret in H as (p & _ & H).
    by destruct (lost_notes_nothing _ _ _ _ _ Hl H) as [-> ->].
Qed.
Lemma lost_ops xs : ∀ s w s' w', is_Some (ss_journal_lost s) → session_ops v os s w xs = Ret (s', w') → placements w' = placements w.
Proof.
  induction xs as [|x xs IH]; intros s w s' w' Hl H; simpl in H; [by injection H as <- <-|].
  apply bind_ret in H as ([s1 w1] & H1 & H). destruct (lost_op _ _ _ _ _ Hl H1) as [Hl1 <-]. by eapply IH.
Qed.

(** What the answer to a submission says of the calls it made. *)
Definition tells (calls cs : list Call) (i : Instrument) (b b' : Book) (y : Submission) : Prop :=
  match cs with
  | [] => b' = b ∧ match y with Refused _ | SRejected _ => True | _ => False end
  | [Placing p o file n] =>
      match v_place v calls o i with
      | Accepted a => y = Sent (ak_client_id a) ∧ b' = Book.on_sent b (ak_client_id a)
      | Rejected r => y = SRejected (rj_message r) ∧ b' = b
      | Unknown _ => False
      end
  | [Placing p o file n as c; Asking symbol id] =>
      symbol = no_symbol o ∧ id = no_client_id o ∧ (∃ u, v_place v calls o i = Unknown u) ∧
      match v_order_status v (calls ++ [c]) symbol id with
      | Ok (Some a) => y = Sent (ak_client_id a) ∧ b' = Book.on_sent b (ak_client_id a)
      | Ok None => y = SUnresolved id Session.not_yet ∧ b' = b
      | Err e => y = SUnresolved id e ∧ b' = b
      end
  | _ => False
  end.

Lemma write_frame s w r b s' w' : Session.write os s w r = Ret (b, s', w') →
  w_calls w' = w_calls w ∧ ss_book s' = ss_book s ∧ ss_config s' = ss_config s.
Proof.
  intros H. unfold Session.write in H. destruct (ss_journal s); [|by injection H as <- <- <-].
  case_bool_decide; [by injection H as <- <- <-|]. apply bind_ret in H as ([a j] & _ & H).
  destruct (match a with Ok _ => _ | Err e => _ end) as [c j']. by destruct c; injection H as <- <- <-.
Qed.
Lemma send_tells s w p now y s' w' : Session.send v os s w p now = Ret (y, s', w') →
  ∃ cs, w_calls w' = w_calls w ++ cs ∧ tells (w_calls w) cs (sc_instrument (ss_config s)) (ss_book s) (ss_book s') y ∧
    (∀ b, y ≠ Refused b).
Proof.
  intros H. unfold Session.send in H. destruct (ss_journal_lost s).
  { injection H as <- <- <-. exists []. rewrite app_nil_r. done. }
  destruct (_ <=? _); [injection H as <- <- <-; exists []; by rewrite app_nil_r|].
  apply bind_ret in H as (n & _ & H). set (s1 := Session.set_ids s _ _ _) in H. set (o := Session.order_of s1 _ _) in H.
  apply bind_ret in H as ([[b s2] w2] & Hw & H). destruct (write_frame _ _ _ _ _ _ Hw) as (Ec & Eb & Eg).
  destruct b; simpl in H; [|injection H as <- <- <-; exists []; by rewrite app_nil_r].
  apply bind_ret in H as (lt & _ & H). set (c := Placing p o _ _) in H. apply bind_ret in H as ([[b' s4] w4] & Hw' & H).
  destruct (write_frame _ _ _ _ _ _ Hw') as (Ec4 & Eb4 & Eg4). cbn [call w_calls] in Ec4. simpl in Eb4, Eg4. injection H as H.
  change (ss_config s) with (ss_config s1). rewrite <-Eg.
  assert (ss_book s = ss_book s4) as -> by (by rewrite Eb4, Eb). rewrite <-Ec. unfold Session.settle in H.
  destruct (v_place v (w_calls w2) o (sc_instrument (ss_config s2))) as [a|r|u] eqn:Ep.
  - injection H as <- <- <-. exists [c]. split; [done|]. simpl. rewrite Ep. done.
  - injection H as <- <- <-. exists [c]. split; [done|]. simpl. rewrite Ep. done.
  - assert (sc_symbol (ss_config s4) = no_symbol o) as Es by (rewrite Eg4, Eg; done). rewrite Es in H.
    change (Session.client_id s1 n) with (no_client_id o) in H.
    rewrite Ec4 in H. unfold call in H. rewrite Ec4, <-app_assoc in H. cbn [app] in H.
    exists [c; Asking (no_symbol o) (no_client_id o)]. unfold c, tells. fold c. rewrite Ep.
    destruct (v_order_status _ _ _ _) as [[a|]|e]; injection H as <- <- <-; split_and!; try done; by eexists.
Qed.

(** C4. What a submission answers is what happened.  It asks the venue to place
    at most one order, and asks about it at most once: refused means the gate
    refused it and the venue heard nothing; sent means the venue accepted it or,
    when its answer was lost, acknowledged it when asked, and it counts as
    working from then on; rejected means the venue rejected it or was not asked;
    unresolved carries the id to ask about, and the order is neither counted nor
    sent again. *)
Theorem submission_tells_what_happened s w o mark now y s' w'
    (H : Session.submit v os s w o mark now = Ret (y, s', w')) :
  ∃ cs, w_calls w' = w_calls w ++ cs ∧
    tells (w_calls w) cs (sc_instrument (ss_config s)) (ss_book s) (ss_book s') y ∧
    match y with
    | Refused b => cs = [] ∧ RiskGate.check (ss_gate s) o
        (mkAccountState (Session.position_for s o) mark (Book.working (ss_book s))) (sc_instrument (ss_config s)) now =
        Ret (Refuse b, ss_gate s')
    | _ => True
    end.
Proof.
  unfold Session.submit in H. apply bind_ret in H as ([d g] & Hch & H). destruct d as [p|b].
  - destruct (send_tells _ _ _ _ _ _ _ H) as (cs & Ec & Ht & Hne). exists cs. split; [done|]. split; [done|].
    destruct y as [| b | |]; try done. by destruct (Hne b).
  - apply bind_ret in H as ([[c s1] w1] & Hw & [= <- <- <-]). destruct (write_frame _ _ _ _ _ _ Hw) as (Ec & Eb & _).
    exists []. rewrite app_nil_r. split; [done|]. split; [by simpl; rewrite Eb|]. split; [done|].
    rewrite Hch. do 2 f_equal.
    unfold Session.write in Hw. cbn [ss_journal ss_journal_lost Session.set_gate] in Hw.
    destruct (ss_journal s); [|by injection Hw as _ <- _]. case_bool_decide; [by injection Hw as _ <- _|].
    apply bind_ret in Hw as ([a j] & _ & Hw). destruct (match a with Ok _ => _ | Err e => _ end) as [x j'].
    by destruct x; injection Hw as _ <- _.
Qed.


End tells.

(** * No order the journal has not heard of *)

Definition config_ok (c : SessionConfig) : Prop :=
  text_ok (sc_id_prefix c) ∧ Z.of_nat (length (sc_id_prefix c)) ≤ 2 ^ 31 ∧ text_ok (sc_symbol c) ∧
  u8 (price_scale (sc_instrument c)) ∧ u8 (qty_scale (sc_instrument c)).

Lemma separator_ascii r : ascii (IdRules.separator r) ∧ (length (IdRules.separator r) ≤ 1)%nat.
Proof. destruct r as [n [] | |]; simpl; (split; [repeat constructor; by vm_compute|lia]). Qed.
Lemma id_text_ok c r n : config_ok c → u64 n → text_ok (id_text c (IdRules.separator r) n).
Proof.
  intros ([Hu Hl] & Hl2 & _) Hn. destruct (separator_ascii r) as [Ha Hs]. unfold id_text. split.
  - apply utf8_app; [done|]. apply ascii_utf8, ascii_app; [done|apply shown_ascii].
  - rewrite !length_app. pose proof (shown_length n ltac:(unfold u64 in Hn; lia)). lia.
Qed.
Lemma session_start_bytes c : config_ok c →
  bytes (Rec.encode (RecSessionStart (sc_id_prefix c) (sc_symbol c) (price_scale (sc_instrument c)) (qty_scale (sc_instrument c)))).
Proof.
  intros (H1 & _ & H2 & H3 & H4). cbn [Rec.encode].
  assert (∀ x, u8 x → bytes (Rec.put_u8 x)) by (intros x Hx; by apply Forall_singleton). auto 10 with bytes.
Qed.
#[export] Instance id_text_inj c sep : Inj (=) (=) (id_text c sep).
Proof. intros a b H. unfold id_text in H. by apply (inj (app _)), (inj (app _)), (inj shown) in H. Qed.
Lemma sublist_filter_length {A} (P : A → Prop) `{!∀ x, Decision (P x)} (a b : list A) :
  a `sublist_of` b → (length (filter P a) ≤ length (filter P b))%nat.
Proof. induction 1 as [|x a b _ IH|x a b _ IH]; rewrite ?filter_cons; repeat case_decide; simpl; lia. Qed.
Lemma increasing_nodup ns : StronglySorted Z.lt ns → NoDup ns.
Proof.
  induction 1 as [|n ns Hs IH Hn]; constructor; [|done]. rewrite Forall_forall in Hn. intros Hi. specialize (Hn n Hi). lia.
Qed.

(** What the invariant says of a session from its start. *)
Lemma started_live v os l config rules positions orders expected lo hi s0 s1 fs e pol j sync s2 w2 ops t s w
    (Hv : venue_texts v) (Hc : config_ok config) (Hl : limits_ok l) (Hr : u64 lo ∧ u64 hi)
    (Hstart : Session.start (RiskGate.new l) config positions orders expected = Ok s0)
    (Hrange : Session.with_order_id_range s0 lo hi = Ok s1)
    (Hf : Forall frame_ok fs) (Hn : numbered None fs e) (He : u64 (default 0 e))
    (Hopen : Writer.open false (images fs) pol = Ret (Ok j))
    (Hjournal : Session.journalling_with os (Session.with_id_rules s1 rules) (mkWorld [] 0) j sync = Ret (s2, w2))
    (Hclock : ops_clocked t ops) (Htyped : Forall op_typed ops)
    (H : session_ops v os s2 w2 ops = Ret (s, w)) :
  ∃ ps t', live_inv config (IdRules.separator rules) lo hi l sync pol s w ps t'.
Proof.
  destruct (open_writer_at fs e pol j Hf Hn He Hopen) as [Hj Hpol].
  unfold Session.start in Hstart. destruct (validate_positions _); [|done]. destruct (Session.undeclared _ _); [|done].
  destruct orders; [|done]. injection Hstart as <-. unfold Session.with_order_id_range in Hrange. cbn [ss_sequence negb] in Hrange.
  destruct (negb (0 =? 0) || (hi <? lo) || (lo =? 0)) eqn:Er; [done|]. injection Hrange as <-.
  apply orb_false_iff in Er as [Er1 Er2]. apply orb_false_iff in Er1 as [_ Er1]. apply Z.ltb_ge in Er1. apply Z.eqb_neq in Er2.
  unfold u64 in Hr. assert (1 ≤ lo ∧ hi ≤ U64_MAX) as [Hlo Hhi] by lia.
  assert (∀ n, u64 n → text_ok (id_text config (IdRules.separator rules) n)) as Hid by (intros n Hu; by apply id_text_ok).
  unfold Session.journalling_with in Hjournal.
  assert (live_inv config (IdRules.separator rules) lo hi l sync pol s2 w2 [] t) as Hl2.
  { eapply (live_note os _ _ _ _ _ _ _ _ _ _ t); [| |exact Hjournal].
    - split; simpl; try done; try lia.
      + exists fs, j. done.
      + exists j. split_and!; [done|done|]. unfold placements; simpl. constructor.
      + split; [done|constructor|done|]. intros u. simpl. destruct Hl as (_ & _ & _ & Hu & _). mlia.
      + exists []. split_and!; try done; constructor.
    - by apply session_start_bytes. }
  destruct (live_ops v os _ _ _ _ _ _ _ Hv Hid Hhi Hlo Hl ops _ _ _ _ _ _ Hl2 Hclock Htyped H) as (ps & t' & Hlive).
  by exists ps, t'.
Qed.


(** * A session in action *)

Module DemoSession.
(** A venue that answers the first placement and loses the answer to the
    others, of which it has heard when asked. *)
Definition ack (id : text) : OrderAck := mkAck (text_of "77") id (text_of "NEW") (text_of "0").
Definition venue : Venue := mkVenue
  (λ calls o _, match calls with
                | [] => Accepted (ack (no_client_id o))
                | _ => Unknown (mkUnresolved (no_client_id o) (text_of "timed out"))
                end)
  (λ _ _ id, Accepted (ack id))
  (λ _ _ id, Ok (Some (ack id))).
(** A disk that fails at its eleventh answer, partway through a write. *)
Definition os : Os := mkOs (λ n, if bool_decide (n = 10)%nat then IoFail 7 else IoOk) (λ _, 90000)
  (text_of "no space left") [] (λ _, []).
Definition limits : Limits := mkLimits 10 100 1000000000000000 1000000000 5 10 1000000000.
Definition config : SessionConfig := mkSessionConfig (text_of "BTCUSDT") (linear 1 3) PsLong (text_of "oq").
Definition order : ProposedOrder := mkProposed Buy (Some 100) 10 false.
Definition ops : list SessionOp :=
  [OSubmit order 100 5; OSubmit order 100 7; ONoteHalt (text_of "look"); OTrip; OSubmit order 100 8; OClear;
   OSubmit order 100 9; OSubmit order 100 10].
Definition fresh : Session :=
  match Session.start (RiskGate.new limits) config [mkSnapshot (text_of "BTCUSDT") (text_of "LONG") (S754_zero false)] [] [] with
  | Ok s => s
  | Err _ => mkSession Latency.new None false None None None (RiskGate.new limits) Book.new config 0 0 []
  end.
Definition ranged : Session := match Session.with_order_id_range fresh 41 1000 with Ok s => s | Err _ => fresh end.
Definition writer : Writer := mkWriter [] 0 0 EveryRecordNoFsync 0 0 false None.
Definition journalled : Session * World :=
  match Session.journalling_with os (Session.with_id_rules ranged (IdText 36 true)) (mkWorld [] 0) writer true with
  | Ret x => x | _ => (ranged, mkWorld [] 0)
  end.
Definition ended : Session * World :=
  match session_ops venue os journalled.1 journalled.2 ops with Ret x => x | _ => journalled end.

Lemma started : Session.start (RiskGate.new limits) config [mkSnapshot (text_of "BTCUSDT") (text_of "LONG") (S754_zero false)] [] [] = Ok fresh.
Proof. reflexivity. Qed.
Lemma in_range : Session.with_order_id_range fresh 41 1000 = Ok ranged.
Proof. reflexivity. Qed.
Lemma opened : Writer.open false (images []) EveryRecordNoFsync = Ret (Ok writer).
Proof. reflexivity. Qed.
Lemma journals : Session.journalling_with os (Session.with_id_rules ranged (IdText 36 true)) (mkWorld [] 0) writer true =
  Ret (journalled.1, journalled.2).
Proof. vm_compute. reflexivity. Qed.
Lemma runs : session_ops venue os journalled.1 journalled.2 ops = Ret (ended.1, ended.2).
Proof. vm_compute. reflexivity. Qed.
(** Two orders are placed, the third is refused while halted, the fourth is
    never sent because its record does not reach the file. *)
Lemma placed : ((λ x, no_client_id x.1.1.2) <$> placements ended.2) = [text_of "oq-41"; text_of "oq-42"] ∧
  length (w_calls ended.2) = 3%nat ∧ Book.working (ss_book ended.1) = 2 ∧
  ss_journal_lost ended.1 = Some (text_of "journal io: no space left").
Proof. vm_compute. done. Qed.
End DemoSession.


Lemma submission_tells_what_happened_witness : ∃ y s w cs,
  Session.submit DemoSession.venue DemoSession.os DemoSession.fresh (mkWorld [] 0) DemoSession.order 100 5 = Ret (y, s, w) ∧
  y = Sent (text_of "oq-1") ∧ w_calls w = [] ++ cs ∧
  tells DemoSession.venue [] cs (linear 1 3) (ss_book DemoSession.fresh) (ss_book s) y.
Proof.
  assert (∃ y s w, Session.submit DemoSession.venue DemoSession.os DemoSession.fresh (mkWorld [] 0) DemoSession.order 100 5 =
    Ret (y, s, w) ∧ y = Sent (text_of "oq-1")) as (y & s & w & E & Ey).
  { destruct (Session.submit _ _ _ _ _ _ _) as [[[y s] w]| |] eqn:E.
    - exists y, s, w. split; [reflexivity|].
      assert (match Session.submit DemoSession.venue DemoSession.os DemoSession.fresh (mkWorld [] 0) DemoSession.order 100 5 with
              | Ret (y, _, _) => y | _ => SRejected [] end = Sent (text_of "oq-1")) as Ey by (vm_compute; reflexivity).
      rewrite E in Ey. exact Ey.
    - exfalso. revert E. vm_compute. discriminate.
    - exfalso. revert E. vm_compute. discriminate. }
  destruct (submission_tells_what_happened DemoSession.venue DemoSession.os DemoSession.fresh (mkWorld [] 0) DemoSession.order
    100 5 y s w E) as (cs & Ec & Ht & _).
  exists y, s, w, cs. split; [exact E|]. split; [exact Ey|]. split; [exact Ec|exact Ht].
Defined.
