(* ===== verification/Restart.v ===== *)
(** What a restarted process has to find out before it trades again
    ([oq-live/src/recovery.rs]): the orders its journal cannot account for. *)

From stdpp Require Import gmap strings.
From Stdlib Require Import Floats.SpecFloat.
From S2P Require Import Prelude Text Types Order Bytes Frame Journal Event Risk LiveRecord RecordDecode Dedup LiveBook ClientIds LiveSession SessionLife.
#[local] Open Scope Z_scope.

Implicit Types (id : text) (f : Frame) (fs : list Frame) (rs : list (option LiveRecord)).

Inductive Unaccounted := NoOutcome | OutcomeUnknown.
#[export] Instance Unaccounted_eq_dec : EqDecision Unaccounted.
Proof. solve_decision. Defined.
Record InFlight := mkInFlight { if_client_id : text; if_reason : Unaccounted }.
#[export] Instance InFlight_eq_dec : EqDecision InFlight.
Proof. solve_decision. Defined.
Record Recovered := mkRecovered { rv_prefix : option text; rv_symbol : option text; rv_in_flight : list InFlight; rv_undecodable : Z }.

(** What the loop over the frames carries. *)
Record Scan := mkScan { sc_out : Recovered; sc_order : list text; sc_outcome : gmap text OutcomeTag }.
Definition scan_start : Scan := mkScan (mkRecovered None None [] 0) [] ∅.

Definition scan_record (s : Scan) (r : option LiveRecord) : run Scan :=
  let out := sc_out s in
  match r with
  | Some (RecSessionStart prefix symbol _ _) =>
      mret (mkScan (mkRecovered (Some prefix) (Some symbol) (rv_in_flight out) (rv_undecodable out)) (sc_order s) (sc_outcome s))
  | Some (RecSubmitted _ id _ _ _ _ _) =>
      mret (if bool_decide (id ∈ sc_order s) then s else mkScan out (sc_order s ++ [id]) (sc_outcome s))
  | Some (RecOutcome _ id tag _) => mret (mkScan out (sc_order s) (<[id := tag]> (sc_outcome s)))
  | Some _ => mret s
  | None =>
      n ← chku64 (rv_undecodable out + 1);
      mret (mkScan (mkRecovered (rv_prefix out) (rv_symbol out) (rv_in_flight out) n) (sc_order s) (sc_outcome s))
  end.
Fixpoint scan_frames (s : Scan) fs : run Scan :=
  match fs with
  | [] => mret s
  | f :: fs => r ← decode_record (fr_kind f) (fr_payload f); s ← scan_record s r; scan_frames s fs
  end.
Definition unaccounted (outcome : gmap text OutcomeTag) id : list InFlight :=
  match outcome !! id with
  | None => [mkInFlight id NoOutcome]
  | Some OUnknown => [mkInFlight id OutcomeUnknown]
  | Some (OAccepted | ORejected) => []
  end.
(** [recover], on the bytes of the journal (none when there is no file). *)
Definition recover (file : list Z) : run (result Recovered JournalError) :=
  r ← replay file;
  match r with
  | Err e => mret (Err e)
  | Ok replayed =>
      s ← scan_frames scan_start (since replayed 0);
      let out := sc_out s in
      mret (Ok (mkRecovered (rv_prefix out) (rv_symbol out) (rv_in_flight out ++ flat_map (unaccounted (sc_outcome s)) (sc_order s))
                  (rv_undecodable out)))
  end.

(** * What the records say *)

Definition submitted_id (r : option LiveRecord) : option text :=
  match r with Some (RecSubmitted _ id _ _ _ _ _) => Some id | _ => None end.
(** The outcome recorded last for an order. *)
Fixpoint last_outcome rs id : option OutcomeTag :=
  match rs with
  | [] => None
  | r :: rs =>
      match last_outcome rs id with
      | Some t => Some t
      | None => match r with Some (RecOutcome _ id' tag _) => if bool_decide (id' = id) then Some tag else None | _ => None end
      end
  end.
Definition undecodable rs : Z := Z.of_nat (length (List.filter (λ r, match r with None => true | _ => false end) rs)).
Fixpoint last_start rs : option (text * text) :=
  match rs with
  | [] => None
  | r :: rs =>
      match last_start rs with
      | Some x => Some x
      | None => match r with Some (RecSessionStart p s _ _) => Some (p, s) | _ => None end
      end
  end.

(** The records [rs], read on top of [s]. *)
Record scanned (s : Scan) rs (s' : Scan) : Prop := {
  sd_order : ∀ id, id ∈ sc_order s' ↔ id ∈ sc_order s ∨ id ∈ omap submitted_id rs;
  sd_nodup : NoDup (sc_order s) → NoDup (sc_order s');
  sd_outcome : ∀ id, sc_outcome s' !! id = match last_outcome rs id with Some t => Some t | None => sc_outcome s !! id end;
  sd_flight : rv_in_flight (sc_out s') = rv_in_flight (sc_out s);
  sd_count : rv_undecodable (sc_out s') = rv_undecodable (sc_out s) + undecodable rs;
  sd_start : (rv_prefix (sc_out s'), rv_symbol (sc_out s')) =
    match last_start rs with Some (p, y) => (Some p, Some y) | None => (rv_prefix (sc_out s), rv_symbol (sc_out s)) end;
}.

Lemma scanned_nil s : scanned s [] s.
Proof. split; try done; [intros id; cbn; set_solver|unfold undecodable; cbn; lia]. Qed.
Lemma scanned_cons s r s1 rs s2 : scanned s [r] s1 → scanned s1 rs s2 → scanned s (r :: rs) s2.
Proof.
  intros [O1 N1 U1 F1 C1 S1] [O2 N2 U2 F2 C2 S2]. split.
  - intros id. rewrite O2, O1. cbn. destruct (submitted_id r); set_solver.
  - auto.
  - intros id. rewrite U2, U1. cbn [last_outcome]. destruct (last_outcome rs id); [done|]. done.
  - congruence.
  - rewrite C2, C1. unfold undecodable. cbn [List.filter]. destruct r; cbn [length]; lia.
  - rewrite S2. cbn [last_start] in *. destruct (last_start rs) as [[p y]|]; [done|]. done.
Qed.
Lemma scan_record_scanned s r : 0 ≤ rv_undecodable (sc_out s) < U64_MAX → ∃ s', scan_record s r = Ret s' ∧ scanned s [r] s'.
Proof.
  intros Hc.
  assert (∀ x, submitted_id x = None → (∀ id, last_outcome [x] id = None) → last_start [x] = None → undecodable [x] = 0 → scanned s [x] s) as Hno.
  { intros x H1 H2 H3 H4. split; try done; [intros id; cbn; rewrite H1; set_solver|intros id; by rewrite H2|rewrite H4; lia|by rewrite H3]. }
  destruct r as [r|].
  2: { cbn [scan_record]. rewrite chk_ret by mlia. eexists. split; [done|]. split; try done. intros id. cbn. set_solver. }
  destruct r; cbn [scan_record]; try (exists s; split; [done|by apply Hno]).
  - eexists. split; [done|]. split; try done; [intros id; cbn; set_solver|unfold undecodable; cbn; lia].
  - case_bool_decide as E; eexists; (split; [done|]).
    + split; try done; [intros id; cbn; rewrite elem_of_cons, elem_of_nil; naive_solver|unfold undecodable; cbn; lia].
    + split; try done; [intros id; cbn; set_solver| |unfold undecodable; cbn; lia]. intros Hn. cbn. apply NoDup_app. split_and!; [done|set_solver|].
      apply NoDup_singleton.
  - eexists. split; [done|]. split; try done; [intros id; cbn; set_solver| |unfold undecodable; cbn; lia].
    intros id. cbn. case_bool_decide as E; [subst; apply lookup_insert_eq|by rewrite lookup_insert_ne].
Qed.
Lemma undecodable_bound rs : 0 ≤ undecodable rs ≤ Z.of_nat (length rs).
Proof. unfold undecodable. pose proof (filter_length_le (λ r : option LiveRecord, match r with None => true | _ => false end) rs). lia. Qed.

Lemma decode_returns_payload k bs : bytes bs → Z.of_nat (length bs) ≤ 2 ^ 56 → ∃ r, decode_record k bs = Ret r.
Proof.
  intros Hb Hl. destruct (sound_record k bs) as (r & E & _); [by split|]. unfold decode_record. rewrite E. by eexists.
Qed.
(** The scan returns on frames that replay, and says what they hold. *)
Definition reads f (r : option LiveRecord) : Prop := decode_record (fr_kind f) (fr_payload f) = Ret r.
Lemma scan_frames_scanned fs : ∀ s, Forall frame_ok fs → 0 ≤ rv_undecodable (sc_out s) →
  rv_undecodable (sc_out s) + Z.of_nat (length fs) ≤ U64_MAX →
  ∃ rs s', Forall2 reads fs rs ∧ scan_frames s fs = Ret s' ∧ scanned s rs s'.
Proof.
  induction fs as [|f fs IH]; intros s Hf Hc Hl.
  { exists [], s. split_and!; [constructor|done|apply scanned_nil]. }
  apply Forall_cons in Hf as [[_ _ Hb Hm] Hf]. cbn [length] in Hl.
  assert (∃ r, reads f r) as [r Hr].
  { destruct (decode_returns_payload (fr_kind f) (fr_payload f)) as [r Hr]; [done| |by exists r]. unfold MAX_PAYLOAD in Hm. lia. }
  destruct (scan_record_scanned s r) as (s1 & E1 & H1); [lia|]. pose proof (sd_count _ _ _ H1) as Hc1.
  pose proof (undecodable_bound [r]) as Hu. cbn [length] in Hu.
  destruct (IH s1 Hf) as (rs & s2 & Hrs & E2 & H2); [lia|lia|]. exists (r :: rs), s2. split_and!.
  - by constructor.
  - cbn [scan_frames]. unfold reads in Hr. rewrite Hr. cbn [mbind run_bind]. by rewrite E1.
  - by eapply scanned_cons.
Qed.

(** * What a restart learns *)

Lemma replay_loop_extends fuel : ∀ bs o acc e r, bytes bs → Forall frame_ok acc → replay_loop fuel bs o acc e = Ret (Ok r) →
  acc `prefix_of` frames r ∧ Forall frame_ok (frames r).
Proof.
  induction fuel as [|fuel IH]; intros bs o acc e r Hb Ha; [done|]. cbn [replay_loop].
  destruct (o =? length bs)%nat; [by intros [= <-]|]. intros (d & Hd & H)%bind_ret. destruct d as [[f used]|cause].
  - assert (frame_ok f) as Hf by (eapply decode_inv; [by apply Forall_drop|exact Hd]).
    assert (∀ n, replay_loop fuel bs (o + used) (acc ++ [f]) n = Ret (Ok r) → acc `prefix_of` frames r ∧ Forall frame_ok (frames r)) as Hgo.
    { intros n Hn. destruct (IH _ _ _ _ _ Hb (Forall_app_2 _ _ _ Ha (proj2 (Forall_singleton _ _) Hf)) Hn) as [Hp ?].
      split; [|done]. etrans; [by apply prefix_app_r|exact Hp]. }
    destruct e as [e|]; [destruct (fr_seq f =? e); [|done]|]; unfold checked in H; case_decide; try done; by eapply Hgo.
  - destruct (is_incomplete cause); [|done]. apply bind_ret in H as (fo & _ & H). destruct fo; [done|]. by injection H as <-.
Qed.
Lemma replay_frames_ok bs r : bytes bs → replay bs = Ret (Ok r) → Forall frame_ok (frames r).
Proof. intros Hb H. by eapply (replay_loop_extends _ bs 0 []). Qed.
Lemma replay_extends fs e tl r : Forall frame_ok fs → numbered None fs e → bytes tl → replay (images fs ++ tl) = Ret (Ok r) →
  fs `prefix_of` frames r.
Proof.
  intros Hf Hn Ht H. rewrite (replay_whole fs tl e) in H by done. cbv zeta in H. destruct (_ =? 0)%nat; [by injection H as <-|].
  eapply replay_loop_extends; [|exact Hf|exact H]. apply Forall_app_2; [by apply images_bytes|done].
Qed.
Lemma since_all r : Forall frame_ok (frames r) → since r 0 = frames r.
Proof.
  unfold since. generalize (frames r). intros fs. induction 1 as [|f fs [_ Hs _ _] _ IH]; [done|].
  rewrite filter_cons_True by (unfold u64 in Hs; lia). by rewrite IH.
Qed.

(** What a recovery must say, of a file that holds these records. *)
Record recovers rs (r : Recovered) : Prop := {
  rc_in_flight : ∀ id why, mkInFlight id why ∈ rv_in_flight r ↔
    id ∈ omap submitted_id rs ∧ last_outcome rs id = match why with NoOutcome => None | OutcomeUnknown => Some OUnknown end;
  rc_once : NoDup (if_client_id <$> rv_in_flight r);
  rc_start : (rv_prefix r, rv_symbol r) = match last_start rs with Some (p, y) => (Some p, Some y) | None => (None, None) end;
  rc_undecodable : rv_undecodable r = undecodable rs;
}.

Lemma unaccounted_in m id x : x ∈ unaccounted m id ↔
  if_client_id x = id ∧ m !! id = match if_reason x with NoOutcome => None | OutcomeUnknown => Some OUnknown end.
Proof.
  unfold unaccounted. destruct x as [id' why]. cbn. destruct (m !! id) as [[]|]; rewrite ?elem_of_cons, ?elem_of_nil; destruct why; naive_solver.
Qed.
Lemma in_flight_ids m order : NoDup order → NoDup (if_client_id <$> flat_map (unaccounted m) order).
Proof.
  assert (∀ id, unaccounted m id = [] ∨ ∃ why, unaccounted m id = [mkInFlight id why]) as Hcase.
  { intros id. unfold unaccounted. destruct (m !! id) as [[]|]; eauto. }
  assert (∀ id l, id ∈ if_client_id <$> flat_map (unaccounted m) l → id ∈ l) as Hin.
  { intros id l. induction l as [|x l IH]; cbn [flat_map]; [done|]. rewrite fmap_app, elem_of_app.
    intros [H|H]; [|right; by apply IH]. destruct (Hcase x) as [E|[why E]]; rewrite E in H; [by apply elem_of_nil in H|].
    cbn in H. apply list_elem_of_singleton in H as ->. by left. }
  induction 1 as [|x l Hx Hl IH]; cbn [flat_map]; [constructor|]. rewrite fmap_app.
  destruct (Hcase x) as [->|[why ->]]; [done|]. cbn. constructor; [|done]. intros H. by apply Hx, Hin.
Qed.

Lemma recover_spec file rp : bytes file → replay file = Ret (Ok rp) → Z.of_nat (length (frames rp)) ≤ U64_MAX →
  ∃ rs r, Forall2 reads (frames rp) rs ∧ recover file = Ret (Ok r) ∧ recovers rs r.
Proof.
  intros Hb Hr Hl. pose proof (replay_frames_ok _ _ Hb Hr) as Hf. unfold recover. rewrite Hr. cbn [mbind run_bind].
  rewrite (since_all _ Hf). destruct (scan_frames_scanned (frames rp) scan_start Hf) as (rs & s & Hrs & E & [HO HN HU HF HC HS]);
    [done|cbn; lia|]. rewrite E. cbn [mbind run_bind mret run_ret]. exists rs. eexists. split_and!; [done|done|].
  split; cbn [rv_in_flight rv_undecodable rv_prefix rv_symbol].
  - intros id why. rewrite HF. cbn [app scan_start sc_out rv_in_flight].
    assert (mkInFlight id why ∈ flat_map (unaccounted (sc_outcome s)) (sc_order s) ↔
      ∃ x, x ∈ sc_order s ∧ mkInFlight id why ∈ unaccounted (sc_outcome s) x) as ->.
    { rewrite list_elem_of_In, in_flat_map. setoid_rewrite <-list_elem_of_In. done. }
    setoid_rewrite unaccounted_in. cbn [if_client_id if_reason]. setoid_rewrite HO. setoid_rewrite HU. split.
    + intros (x & [Hx|Hx] & -> & Ho); [by apply elem_of_nil in Hx|]. split; [done|]. destruct (last_outcome rs x); [done|]. done.
    + intros [Hx Ho]. exists id. split; [by right|]. split; [done|]. rewrite Ho. by destruct why.
  - rewrite HF. apply in_flight_ids, HN. constructor.
  - exact HS.
  - rewrite HC. done.
Qed.

(** C3. What the journal cannot account for is asked about, and nothing else is.
    Take any session and any order it asked the venue to place; stop the process
    then or later, and let the file the next one finds begin with what the
    journal held when the order left, and replay.  Recovery returns, and its
    list holds, once each, exactly the orders recorded as submitted whose last
    recorded outcome is missing or unknown: so that order is on it, unless the
    file records that the venue accepted or rejected it. *)
Theorem a_restart_asks_about_open_orders v os l config rules positions orders expected lo hi s0 s1 fs e pol j sync s2 w2 ops t s w
    p o file n tl rp
    (Hv : venue_texts v) (Hc : config_ok config) (Hl : limits_ok l) (Hr : u64 lo ∧ u64 hi)
    (Hstart : Session.start (RiskGate.new l) config positions orders expected = Ok s0)
    (Hrange : Session.with_order_id_range s0 lo hi = Ok s1)
    (Hf : Forall frame_ok fs) (Hn : numbered None fs e) (He : u64 (default 0 e))
    (Hopen : Writer.open false (images fs) pol = Ret (Ok j))
    (Hjournal : Session.journalling_with os (Session.with_id_rules s1 rules) (mkWorld [] 0) j sync = Ret (s2, w2))
    (Hclock : ops_clocked t ops) (Htyped : Forall op_typed ops)
    (H : session_ops v os s2 w2 ops = Ret (s, w))
    (Hplaced : (p, o, file, n) ∈ placements w)
    (Htl : bytes tl) (Hrp : replay (file ++ tl) = Ret (Ok rp)) (Hlen : Z.of_nat (length (frames rp)) ≤ U64_MAX) :
  ∃ rs r, Forall2 reads (frames rp) rs ∧ recover (file ++ tl) = Ret (Ok r) ∧ recovers rs r ∧
    match last_outcome rs (no_client_id o) with
    | Some (OAccepted | ORejected) => ∀ why, mkInFlight (no_client_id o) why ∉ rv_in_flight r
    | Some OUnknown => mkInFlight (no_client_id o) OutcomeUnknown ∈ rv_in_flight r
    | None => mkInFlight (no_client_id o) NoOutcome ∈ rv_in_flight r
    end.
Proof.
  destruct (started_live v os l config rules positions orders expected lo hi s0 s1 fs e pol j sync s2 w2 ops t s w
    Hv Hc Hl Hr Hstart Hrange Hf Hn He Hopen Hjournal Hclock Htyped H) as (ps & t' & Hlive).
  pose proof (li_placed _ _ _ _ _ _ _ _ _ _ _ Hlive) as Hpl. rewrite Forall_forall in Hpl. specialize (Hpl _ Hplaced).
  cbn [fst snd] in Hpl. destruct Hpl as [(gs & g & e' & -> & Hok & Hnum & Hk & Hd & _) _].
  assert (bytes (images (gs ++ [g]) ++ tl)) as Hb by (apply Forall_app_2; [by apply images_bytes|done]).
  destruct (recover_spec _ rp Hb Hrp Hlen) as (rs & r & Hrs & Er & Hrec). exists rs, r. split_and!; [done..|].
  destruct (replay_extends _ e' tl rp Hok Hnum Htl Hrp) as [more Hmore].
  assert (no_client_id o ∈ omap submitted_id rs) as Hin.
  { rewrite Hmore in Hrs. apply Forall2_app_inv_l in Hrs as (r1 & r2 & H1 & _ & ->). apply Forall2_app_inv_l in H1 as (r3 & r4 & _ & H4 & ->).
    apply Forall2_cons_inv_l in H4 as (x & r5 & Hx & _ & ->). unfold reads in Hx. rewrite Hd in Hx. injection Hx as <-.
    apply list_elem_of_omap. exists (Some (Session.submitted (pm_at p) o)). split; [|done]. rewrite !elem_of_app. left; right. by left. }
  destruct (last_outcome rs (no_client_id o)) as [[]|] eqn:Eo.
  - intros why Hw. apply (rc_in_flight _ _ Hrec) in Hw as [_ Hw]. rewrite Eo in Hw. by destruct why.
  - intros why Hw. apply (rc_in_flight _ _ Hrec) in Hw as [_ Hw]. rewrite Eo in Hw. by destruct why.
  - by apply (rc_in_flight _ _ Hrec).
  - by apply (rc_in_flight _ _ Hrec).
Qed.

(** The first order of the demonstration, found by a process that starts after
    the first one died before it heard the venue's answer. *)
Definition first_placement : Permit * NewOrder * list Z * nat :=
  match placements DemoSession.ended.2 with x :: _ => x | [] => (mkPermit DemoSession.order 0, mkNewOrder [] Buy None 0 [] false PsLong, [], 0%nat) end.
Definition first_replay : Replay :=
  match replay (first_placement.1.2 ++ []) with Ret (Ok r) => r | _ => mkReplay [] Clean 0 end.
Lemma first_in : (first_placement.1.1.1, first_placement.1.1.2, first_placement.1.2, first_placement.2) ∈ placements DemoSession.ended.2.
Proof.
  assert (length (placements DemoSession.ended.2) = 2%nat) as E2 by (by vm_compute). unfold first_placement.
  destruct (placements DemoSession.ended.2) as [|[[[p o] file] n] l]; [done|]. by left.
Qed.
Lemma a_restart_asks_about_open_orders_witness :
  (∃ rs r, Forall2 reads (frames first_replay) rs ∧ recover (first_placement.1.2 ++ []) = Ret (Ok r) ∧ recovers rs r) ∧
  recover (first_placement.1.2 ++ []) =
    Ret (Ok (mkRecovered (Some (text_of "oq")) (Some (text_of "BTCUSDT")) [mkInFlight (text_of "oq-41") NoOutcome] 0)).
Proof.
  split; [|vm_compute; reflexivity].
  assert (venue_texts DemoSession.venue) as Hv by (intros [|c calls] o i; apply text_of_ascii_bytes).
  assert (config_ok DemoSession.config) as Hc by (unfold config_ok, text_ok; split_and!; vm_compute; done || (split; discriminate)).
  assert (limits_ok DemoSession.limits) as Hl by (unfold limits_ok, DemoSession.limits; simpl; mlia).
  assert (u64 41 ∧ u64 1000) as Hr by (unfold u64; lia).
  assert (ops_clocked 0 DemoSession.ops) as Ht by (simpl; lia).
  assert (Forall op_typed DemoSession.ops) as Hty.
  { unfold DemoSession.ops, DemoSession.order. repeat (apply Forall_cons; split); simpl; try done; unfold i64; lia. }
  assert (replay (first_placement.1.2 ++ []) = Ret (Ok first_replay)) as Hrp by (vm_compute; reflexivity).
  destruct (a_restart_asks_about_open_orders DemoSession.venue DemoSession.os DemoSession.limits DemoSession.config (IdText 36 true)
    [mkSnapshot (text_of "BTCUSDT") (text_of "LONG") (S754_zero false)] [] [] 41 1000
    DemoSession.fresh DemoSession.ranged [] None EveryRecordNoFsync DemoSession.writer true DemoSession.journalled.1
    DemoSession.journalled.2 DemoSession.ops 0 DemoSession.ended.1 DemoSession.ended.2
    first_placement.1.1.1 first_placement.1.1.2 first_placement.1.2 first_placement.2 [] first_replay Hv Hc Hl Hr DemoSession.started
    DemoSession.in_range ltac:(apply Forall_nil_2) ltac:(reflexivity) ltac:(unfold u64; simpl; lia) DemoSession.opened
    DemoSession.journals Ht Hty DemoSession.runs first_in ltac:(apply Forall_nil_2) Hrp ltac:(vm_compute; discriminate))
    as (rs & r & Hrs & Er & Hrec & _).
  exists rs, r. split; [exact Hrs|]. split; [exact Er|exact Hrec].
Defined.
