(* ===== verification/Belief.v ===== *)
(** What a running process believed it held, reconstructed from its journal
    ([oq-live/src/belief.rs]): a fold over the records that carries signed lots
    and the notional behind them, and the orders left resting. *)

From stdpp Require Import gmap strings.
From S2P Require Import Prelude Slices Text Decimal Types Order Instrument Kernel Bytes Frame Journal Event LiveRecord.
#[local] Open Scope Z_scope.

Implicit Types (id : text) (rs : list (option LiveRecord)).

(** * A leg *)

Record Leg := mkLeg { lg_lots : Z; lg_notional : Z }.
#[export] Instance Leg_eq_dec : EqDecision Leg.
Proof. solve_decision. Defined.
Module Leg.
Definition default : Leg := mkLeg 0 0.
(** [i128::abs] panics on the least value. *)
Definition entry_ticks (l : Leg) : run Z :=
  if lg_lots l =? 0 then mret 0
  else
    n ← chk128 (Z.abs (lg_notional l));
    mret (from_option id I64_MAX (checked i64 (Z.quot n (i64_saturating_abs (lg_lots l))))).
Definition fold (l : Leg) (signed_lots price_ticks : Z) : run Leg :=
  if signed_lots =? 0 then mret l
  else
    let before := lg_lots l in
    let after := sat64 (before + signed_lots) in
    notional ←
      (if (before =? 0) || Bool.eqb (0 <? before) (0 <? signed_lots) then
         mret (sat128 (lg_notional l + sat128 (signed_lots * price_ticks)))
       else if negb (Bool.eqb (0 <? before) (0 <? after)) && negb (after =? 0) then mret (sat128 (after * price_ticks))
       else if after =? 0 then mret 0
       else
         n ← chk128 (Z.abs (lg_notional l));
         let shrunk := Z.quot (sat128 (n * i64_saturating_abs after)) (i64_saturating_abs before) in
         mret (if lg_notional l <? 0 then - shrunk else shrunk));
    mret (mkLeg after notional).
End Leg.

Definition LONG : text := text_of "LONG".
Definition SHORT : text := text_of "SHORT".
Definition NET : text := text_of "NET".

(** The legs by name, in the order of their names. *)
Abbreviation Legs := (gmap text Leg).
Definition entry (legs : Legs) (name : text) : Leg := default Leg.default (legs !! name).
Definition fold_into (legs : Legs) (name : text) (lots price : Z) : run Legs :=
  l ← Leg.fold (entry legs name) lots price; mret (<[name := l]> legs).
Definition in_order (legs : Legs) : list (text * Leg) := sort_named fst (map_to_list legs).

(** [net_leg]. *)
Definition net_leg (legs : Legs) : option text * Legs :=
  match legs !! NET with
  | Some _ => (Some NET, legs)
  | None =>
      match (in_order legs).*1 with
      | [] => (Some NET, <[NET := Leg.default]> legs)
      | [one] => (Some NET, <[NET := entry legs one]> (delete one legs))
      | _ => (None, legs)
      end
  end.

(** [parse_scaled]: more decimals than the contract quotes are refused, zeros too. *)
Definition parse_scaled (x : text) (decimals : Z) : option Z :=
  let x := trim x in
  let '(neg, x) := match x with c :: r => if c =? 45 then (true, r) else (false, x) | [] => (false, x) end in
  let '(int, frac) := from_option id (x, []) (split_once 46 x) in
  if bool_decide (int = []) && bool_decide (frac = []) then None
  else if negb (forallb is_digit int) || negb (forallb is_digit frac) then None
  else
    let d := Z.to_nat decimals in
    let digits := int ++ take d frac ++ replicate (d - length frac) 48 in
    if (d <? length frac)%nat then None
    else v ← checked i64 (digits_value digits); Some (if neg : bool then - v else v).

(** * The belief *)

Record Belief := mkBelief {
  b_symbol : option text; b_position_lots : Z; b_entry_ticks : Z; b_resting : list text;
  b_price_scale : Z; b_qty_scale : Z; b_adopted : bool; b_hedged : bool; b_adopted_at : option Z;
  b_legs : list (text * Z * Z); b_undecodable : Z; b_instrument : option Instrument }.
Definition Belief_default : Belief := mkBelief None 0 0 [] 0 0 false false None [] 0 None.

(** What the loop carries: the belief, what was submitted, accepted, filled and
    withdrawn, the legs, the net position and the declared mode. *)
Record Scan := mkScan {
  sb : Belief; submitted : gmap text (Side * bool * text); accepted : gset text; filled : gmap text Z; withdrawn : gset text;
  s_legs : Legs; net : Leg; mode : option PositionMode }.
Definition scan_start : Scan := mkScan Belief_default ∅ ∅ ∅ ∅ ∅ Leg.default None.
Implicit Types (s : Scan) (b : Belief).

Definition is_hedge (m : PositionMode) : bool := match m with Hedge => true | OneWay => false end.

Definition undecoded s : run Scan :=
  let b := sb s in
  n ← chku64 (b_undecodable b + 1);
  mret (mkScan (mkBelief (b_symbol b) (b_position_lots b) (b_entry_ticks b) (b_resting b) (b_price_scale b) (b_qty_scale b) (b_adopted b)
                  (b_hedged b) (b_adopted_at b) (b_legs b) n (b_instrument b))
          (submitted s) (accepted s) (filled s) (withdrawn s) (s_legs s) (net s) (mode s)).
Definition started s (symbol : text) (ps qs : Z) : Scan :=
  let b := sb s in
  mkScan (mkBelief (Some symbol) (b_position_lots b) (b_entry_ticks b) (b_resting b) ps qs (b_adopted b) (b_hedged b) (b_adopted_at b) (b_legs b)
            (b_undecodable b) None)
    (submitted s) (accepted s) (filled s) (withdrawn s) (s_legs s) (net s) None.
Definition declared s (i : Instrument) (m : PositionMode) : Scan :=
  let b := sb s in
  mkScan (mkBelief (b_symbol b) (b_position_lots b) (b_entry_ticks b) (b_resting b) (b_price_scale b) (b_qty_scale b) (b_adopted b)
            (is_hedge m) (b_adopted_at b) (b_legs b) (b_undecodable b) (Some i))
    (submitted s) (accepted s) (filled s) (withdrawn s) (s_legs s) (net s) (Some m).

(** One adopted row: which leg, and its signed lots. *)
Definition adopted_leg (row : text * text * Z * Z) : text * Z :=
  let '(_, side, lots, _) := row in
  let size := i64_saturating_abs lots in
  if eq_ignore_ascii_case side SHORT then (SHORT, - size) else (LONG, size).
Fixpoint adopt_rows (rows : list (text * text * Z * Z)) (legs : Legs) (net : Leg) : run (Legs * Leg) :=
  match rows with
  | [] => mret (legs, net)
  | row :: rows =>
      let '(name, signed) := adopted_leg row in
      net ← Leg.fold net signed row.2;
      legs ← fold_into legs name signed row.2;
      adopt_rows rows legs net
  end.
Definition adopt s (at_ : Z) (rows : list (text * text * Z * Z)) : run Scan :=
  '(legs, net) ← adopt_rows rows ∅ Leg.default;
  let b := sb s in
  let both := existsb (λ r, bool_decide ((adopted_leg r).1 = LONG)) rows && existsb (λ r, bool_decide ((adopted_leg r).1 = SHORT)) rows in
  mret (mkScan (mkBelief (b_symbol b) (b_position_lots b) (b_entry_ticks b) (b_resting b) (b_price_scale b) (b_qty_scale b) true
                  (match mode s with Some m => is_hedge m | None => both end) (Some at_) (b_legs b) (b_undecodable b) (b_instrument b))
          (submitted s) ∅ ∅ ∅ legs net (mode s)).

(** A fill of an order: on which leg, how many signed lots, at what price. *)
Definition moved s id (name : text) (signed lots price : Z) : run Scan :=
  n ← chk64 (default 0 (filled s !! id) + lots);
  net ← Leg.fold (net s) signed price;
  legs ← fold_into (s_legs s) name signed price;
  mret (mkScan (sb s) (submitted s) (accepted s) (<[id := n]> (filled s)) (withdrawn s) legs net (mode s)).

Definition execution_leg (m : PositionMode) (f : Fill) : text :=
  match m with
  | Hedge => match f_side f, f_offset f with Buy, Open | Sell, Close => LONG | _, _ => SHORT end
  | OneWay => NET
  end.
Definition signed_qty (side : Side) (qty : Z) : run Z := match side with Buy => mret qty | Sell => chk64 (- qty) end.

Definition scan_record s (r : option LiveRecord) : run Scan :=
  match r with
  | Some (RecSessionStart _ symbol ps qs) => mret (started s symbol ps qs)
  | Some (RecLedgerStart _ _ instrument _ _ m) => mret (declared s instrument m)
  | Some (RecReconciled at_ rows) => adopt s at_ rows
  | Some (RecSubmitted _ id side _ _ reduce_only leg) =>
      mret (mkScan (sb s) (<[id := (side, reduce_only, leg)]> (submitted s)) (accepted s) (filled s) (withdrawn s) (s_legs s) (net s) (mode s))
  | Some (RecCancelled _ id) =>
      mret (mkScan (sb s) (submitted s) (accepted s) (filled s) ({[id]} ∪ withdrawn s) (s_legs s) (net s) (mode s))
  | Some (RecOutcome _ id OAccepted _) =>
      mret (mkScan (sb s) (submitted s) ({[id]} ∪ accepted s) (filled s) (withdrawn s) (s_legs s) (net s) (mode s))
  | Some (RecExecution id f _) =>
      match mode s with
      | None => undecoded s
      | Some m => signed ← signed_qty (f_side f) (f_qty f); moved s id (execution_leg m f) signed (f_qty f) (f_price f)
      end
  | Some (RecFill _ id _ qty price _ _) =>
      match submitted s !! id with
      | None => undecoded s
      | Some (side, _, leg) =>
          match parse_scaled qty (b_qty_scale (sb s)), parse_scaled price (b_price_scale (sb s)) with
          | Some lots, Some ticks =>
              signed ← signed_qty side lots;
              let '(key, legs) :=
                if eq_ignore_ascii_case leg LONG || eq_ignore_ascii_case leg SHORT then (Some (ascii_upper <$> leg), s_legs s)
                else net_leg (s_legs s) in
              match key with
              | None => undecoded s
              | Some key =>
                  moved (mkScan (sb s) (submitted s) (accepted s) (filled s) (withdrawn s) legs (net s) (mode s)) id key signed lots ticks
              end
          | _, _ => undecoded s
          end
      end
  | Some _ => mret s
  | None => undecoded s
  end.
Fixpoint scan_records s rs : run Scan :=
  match rs with [] => mret s | r :: rs => s ← scan_record s r; scan_records s rs end.

(** Accepted, not consumed by fills, and not withdrawn; in order. *)
Definition rests s id : bool := (default 0 (filled s !! id) =? 0) && negb (bool_decide (id ∈ withdrawn s)).
Definition resting s : list text := sort_named id (List.filter (rests s) (elements (accepted s))).
(** A leg that holds something, under the name of its direction. *)
Definition report_leg (p : text * Leg) : run (text * Z * Z) :=
  let '(name, l) := p in
  e ← Leg.entry_ticks l;
  mret (if bool_decide (name = NET) then if 0 <? lg_lots l then LONG else SHORT else name, lg_lots l, e).
Fixpoint report_legs (ls : list (text * Leg)) : run (list (text * Z * Z)) :=
  match ls with
  | [] => mret []
  | p :: ls => r ← report_leg p; rs ← report_legs ls; mret (r :: rs)
  end.
Definition finish s : run Belief :=
  e ← Leg.entry_ticks (net s);
  legs ← report_legs (List.filter (λ p, negb (lg_lots p.2 =? 0)) (in_order (s_legs s)));
  let b := sb s in
  mret (mkBelief (b_symbol b) (lg_lots (net s)) e (resting s) (b_price_scale b) (b_qty_scale b) (b_adopted b) (b_hedged b) (b_adopted_at b)
          (sort_named (λ r : text * Z * Z, r.1.1) legs) (b_undecodable b) (b_instrument b)).

Fixpoint decode_frames (fs : list Frame) : run (list (option LiveRecord)) :=
  match fs with
  | [] => mret []
  | f :: fs => r ← decode_record (fr_kind f) (fr_payload f); rs ← decode_frames fs; mret (r :: rs)
  end.
(** [from_journal], on the bytes of the journal (none when there is no file). *)
Definition from_journal (file : list Z) : run (result Belief JournalError) :=
  r ← replay file;
  match r with
  | Err e => mret (Err e)
  | Ok replayed =>
      rs ← decode_frames (since replayed 0);
      s ← scan_records scan_start rs;
      b ← finish s;
      mret (Ok b)
  end.

(** * Folding a fill into a leg *)

Definition sized (l : Leg) : Prop := i64 (lg_lots l).
Lemma fold_lots l signed price l' : Leg.fold l signed price = Ret l' → i64 (lg_lots l + signed) → sized l → lg_lots l' = lg_lots l + signed.
Proof.
  unfold Leg.fold. intros H Hi Hs. destruct (Z.eqb_spec signed 0) as [->|]; [injection H as <-; lia|].
  apply bind_ret in H as (N & _ & [= <-]). cbn [lg_lots]. by rewrite sat64_id.
Qed.

(** The signs of a leg: lots and notional agree, at prices that are not negative. *)
Definition agrees (l : Leg) : Prop := (0 ≤ lg_lots l → 0 ≤ lg_notional l) ∧ (lg_lots l ≤ 0 → lg_notional l ≤ 0).

(** A fill taken whole or in parts leaves the same leg. *)
Theorem split_fill_lands_where_a_whole_one_would (l : Leg) (a b price : Z) :
  0 < a * b → 0 ≤ lg_lots l * a → i64 (lg_lots l + a + b) → sized l → i64 (a + b) →
  i128 (lg_notional l + (a + b) * price) → i128 (lg_notional l) → i128 ((a + b) * price) →
  (l' ← Leg.fold l a price; Leg.fold l' b price) = Leg.fold l (a + b) price.
Proof.
  intros Hab Hla Hi Hs Hsum Hn Hn0 Hp. unfold sized in Hs. unfold Leg.fold.
  assert (a ≠ 0 ∧ b ≠ 0 ∧ a + b ≠ 0) as (Ha & Hb & Hab0) by nia.
  destruct (Z.eqb_spec a 0); [done|]. destruct (Z.eqb_spec (a + b) 0); [done|].
  assert (∀ x, 0 < x * a → (lg_lots l =? 0) || Bool.eqb (0 <? lg_lots l) (0 <? x) = true) as Hsame.
  { intros x Hx. apply orb_true_iff. destruct (Z.eqb_spec (lg_lots l) 0); [by left|]. right. apply eqb_true_iff.
    destruct (Z.ltb_spec 0 (lg_lots l)), (Z.ltb_spec 0 x); try done; nia. }
  rewrite !Hsame by nia. cbn [mbind run_bind mret run_ret]. destruct (Z.eqb_spec b 0); [done|]. cbn [lg_lots lg_notional].
  assert (i64 (lg_lots l + a)) as Hi' by (unfold i64 in *; nia). rewrite (sat64_id (lg_lots l + a)) by done.
  assert ((lg_lots l + a =? 0) || Bool.eqb (0 <? lg_lots l + a) (0 <? b) = true) as ->.
  { apply orb_true_iff. right. apply eqb_true_iff. destruct (Z.ltb_spec 0 (lg_lots l + a)), (Z.ltb_spec 0 b); try done; nia. }
  cbn [mbind run_bind mret run_ret]. 
  assert (i128 (a * price)) by (unfold i128 in *; nia). assert (i128 (b * price)) by (unfold i128 in *; nia).
  rewrite (sat128_id (a * price)), (sat128_id (b * price)), (sat128_id ((a + b) * price)) by done.
  assert (i128 (lg_notional l + a * price)) by (unfold i128 in *; nia). rewrite (sat128_id (lg_notional l + a * price)) by done.
  f_equal. f_equal; [f_equal; lia|]. f_equal. lia.
Qed.

(** A reduction leaves the entry where it was, whatever it truncates. *)
Theorem reducing_never_moves_the_entry (l : Leg) (signed price : Z) :
  lg_lots l ≠ 0 → i64 (lg_lots l) → lg_lots l ≠ I64_MIN → 0 < lg_lots l * (lg_lots l + signed) → Z.abs (lg_lots l + signed) < Z.abs (lg_lots l) →
  Z.abs (lg_notional l) * Z.abs (lg_lots l) ≤ I128_MAX →
  (l' ← Leg.fold l signed price; Leg.entry_ticks l') = Leg.entry_ticks l.
Proof.
  intros H0 Hi Hm Hs Hr Hn. set (b := lg_lots l) in *. set (a := b + signed) in *. set (N := lg_notional l) in *.
  assert (i64 a) as Ha by (unfold i64 in *; lia). assert (signed ≠ 0) as Hsg by lia.
  assert (a ≠ 0) as Ha0 by lia. assert (i128 (Z.abs N)) as HN by (unfold i128; nia).
  unfold Leg.fold. fold b a N. destruct (Z.eqb_spec signed 0); [done|]. destruct (Z.eqb_spec b 0); [done|]. rewrite sat64_id by done. fold a.
  assert (Bool.eqb (0 <? b) (0 <? signed) = false) as ->.
  { apply eqb_false_iff. destruct (Z.ltb_spec 0 b), (Z.ltb_spec 0 signed); try done; nia. }
  assert (Bool.eqb (0 <? b) (0 <? a) = true) as ->.
  { apply eqb_true_iff. destruct (Z.ltb_spec 0 b), (Z.ltb_spec 0 a); try done; nia. }
  destruct (Z.eqb_spec a 0); [done|]. cbn [orb negb andb]. unfold N at 1. fold N. rewrite (chk_ret i128) by done. cbn [mbind run_bind mret run_ret].
  assert (i64_saturating_abs a = Z.abs a) as Eaa by (unfold i64 in *; mlia). assert (i64_saturating_abs b = Z.abs b) as Eab by (unfold i64 in *; mlia).
  rewrite Eaa, Eab, sat128_id by (unfold i128; nia). unfold Leg.entry_ticks. cbn [lg_lots lg_notional]. fold b N.
  destruct (Z.eqb_spec a 0); [done|]. destruct (Z.eqb_spec b 0); [done|].
  set (S := Z.quot (Z.abs N * Z.abs a) (Z.abs b)).
  assert (S = Z.abs N * Z.abs a / Z.abs b) as ES by (apply Z.quot_div_nonneg; nia).
  assert (0 ≤ S ≤ Z.abs N) as HS.
  { rewrite ES. split; [apply Z.div_pos; nia|]. apply Z.div_le_upper_bound; nia. }
  assert (Z.abs (if N <? 0 then - S else S) = S) as -> by (destruct (N <? 0); lia).
  rewrite !(chk_ret i128) by (try done; unfold i128 in *; lia). cbn [mbind run_bind]. rewrite Eaa, Eab. do 3 f_equal.
  rewrite !Z.quot_div_nonneg by lia. rewrite ES, Z.div_div, Z.mul_comm, Z.mul_comm, Z.div_mul_cancel_r by lia. done.
Qed.

(** * The legs add up to the position *)

Definition lots_of (p : text * Leg) : Z := lg_lots p.2.
Definition held (legs : Legs) : Z := zsum (lots_of <$> map_to_list legs).
Definition gross (legs : Legs) : Z := weight (lots_of <$> map_to_list legs).

Lemma entry_apart (legs : Legs) name l : legs !! name = Some l → ∃ d, d !! name = None ∧ legs = <[name := l]> d ∧ delete name legs = d.
Proof. intros E. exists (delete name legs). split_and!; [apply lookup_delete_eq|symmetry; by apply insert_delete_id|done]. Qed.
Lemma zsum_fresh (f : Leg → Z) (d : Legs) name l : d !! name = None →
  zsum ((f ∘ snd) <$> map_to_list (<[name := l]> d)) = f l + zsum ((f ∘ snd) <$> map_to_list d).
Proof. intros H. rewrite (zsum_perm _ _ (fmap_Permutation (f ∘ snd) _ _ (map_to_list_insert d name l H))). done. Qed.
Lemma zsum_entry (f : Leg → Z) (legs : Legs) name : f Leg.default = 0 →
  zsum ((f ∘ snd) <$> map_to_list legs) = f (entry legs name) + zsum ((f ∘ snd) <$> map_to_list (delete name legs)).
Proof.
  intros H0. unfold entry. destruct (legs !! name) as [old|] eqn:E; cbn [from_option id].
  - apply entry_apart in E as (d & Hd & -> & ->). by rewrite zsum_fresh.
  - by rewrite delete_id, H0 by done.
Qed.
Lemma zsum_lots_insert (f : Leg → Z) (legs : Legs) name l : f Leg.default = 0 →
  zsum ((f ∘ snd) <$> map_to_list (<[name := l]> legs)) = zsum ((f ∘ snd) <$> map_to_list legs) - f (entry legs name) + f l.
Proof.
  intros H0. rewrite (zsum_entry f legs name H0), <-(insert_delete_eq legs name l), zsum_fresh by apply lookup_delete_eq. lia.
Qed.
Lemma held_is legs : held legs = zsum ((lg_lots ∘ snd) <$> map_to_list legs).
Proof. done. Qed.
Lemma gross_is legs : gross legs = zsum (((λ l, Z.abs (lg_lots l)) ∘ snd) <$> map_to_list legs).
Proof. unfold gross, weight. by rewrite <-list_fmap_compose. Qed.
Lemma held_insert legs name l : held (<[name := l]> legs) = held legs - lg_lots (entry legs name) + lg_lots l.
Proof. by apply (zsum_lots_insert lg_lots). Qed.
Lemma gross_insert legs name l : gross (<[name := l]> legs) = gross legs - Z.abs (lg_lots (entry legs name)) + Z.abs (lg_lots l).
Proof. rewrite !gross_is. by apply (zsum_lots_insert (λ l, Z.abs (lg_lots l))). Qed.
Lemma gross_nonneg legs : 0 ≤ gross legs.
Proof. apply weight_nonneg. Qed.
Lemma held_delete legs name : held (delete name legs) = held legs - lg_lots (entry legs name).
Proof. rewrite !held_is, (zsum_entry lg_lots legs name eq_refl). lia. Qed.
Lemma gross_delete legs name : gross (delete name legs) = gross legs - Z.abs (lg_lots (entry legs name)).
Proof. rewrite !gross_is, (zsum_entry (λ l, Z.abs (lg_lots l)) legs name eq_refl). lia. Qed.
Lemma gross_entry legs name : Z.abs (lg_lots (entry legs name)) ≤ gross legs.
Proof. pose proof (gross_nonneg (delete name legs)). rewrite gross_delete in H. lia. Qed.
Lemma net_leg_held legs name legs' : net_leg legs = (name, legs') → held legs' = held legs ∧ gross legs' = gross legs.
Proof.
  unfold net_leg. destruct (legs !! NET) as [n|] eqn:En; [by intros [= <- <-]|].
  assert (entry legs NET = Leg.default) as Ee by (unfold entry; by rewrite En).
  destruct ((in_order legs).*1) as [|one [|]]; intros [= <- <-]; [| |done].
  - rewrite held_insert, gross_insert, Ee. cbn [lg_lots Leg.default]. lia.
  - rewrite held_insert, gross_insert, held_delete, gross_delete.
    assert (entry (delete one legs) NET = Leg.default) as ->.
    { unfold entry. destruct (decide (one = NET)) as [->|]; [by rewrite lookup_delete_eq|]. by rewrite lookup_delete_ne, En. }
    cbn [lg_lots Leg.default]. lia.
Qed.

(** What each record moves, in the state it meets: the order, the lots of the
    fill and their sign. *)
Definition signed_lots (side : Side) (qty : Z) : Z := match side with Buy => qty | Sell => - qty end.
Definition moves_of s (r : option LiveRecord) : list (text * Z * Z) :=
  match r with
  | Some (RecExecution id f _) => match mode s with Some _ => [(id, f_qty f, signed_lots (f_side f) (f_qty f))] | None => [] end
  | Some (RecFill _ id _ qty price _ _) =>
      match submitted s !! id with
      | Some (side, _, leg) =>
          match parse_scaled qty (b_qty_scale (sb s)), parse_scaled price (b_price_scale (sb s)) with
          | Some lots, Some _ =>
              if eq_ignore_ascii_case leg LONG || eq_ignore_ascii_case leg SHORT || bool_decide (is_Some (net_leg (s_legs s)).1)
              then [(id, lots, signed_lots side lots)] else []
          | _, _ => []
          end
      | None => []
      end
  | _ => []
  end.
(** The signed lots since the last position adopted, its own included. *)
Fixpoint movements s (ms : list Z) rs : list Z :=
  match rs with
  | [] => ms
  | r :: rs =>
      match scan_record s r with
      | Ret s' => movements s' (match r with Some (RecReconciled _ rows) => (adopted_leg <$> rows).*2 | _ => ms ++ (moves_of s r).*2 end) rs
      | _ => ms
      end
  end.

Record adds_up s (ms : list Z) : Prop := {
  au_net : lg_lots (net s) = zsum ms;
  au_held : held (s_legs s) = zsum ms;
  au_gross : gross (s_legs s) ≤ weight ms;
}.

Lemma fold_into_adds legs name signed price legs' bound : fold_into legs name signed price = Ret legs' →
  gross legs ≤ bound → bound + Z.abs signed ≤ I64_MAX →
  held legs' = held legs + signed ∧ gross legs' ≤ bound + Z.abs signed.
Proof.
  intros H Hg Hb. apply bind_ret in H as (l & Hf & [= <-]). pose proof (gross_entry legs name) as He.
  apply fold_lots in Hf; [|mlia|unfold sized; mlia]. rewrite held_insert, gross_insert, Hf. lia.
Qed.
Lemma adopt_rows_adds rows : ∀ legs n legs' n' ms, adopt_rows rows legs n = Ret (legs', n') →
  lg_lots n = zsum ms → held legs = zsum ms → gross legs ≤ weight ms → weight (ms ++ (adopted_leg <$> rows).*2) ≤ I64_MAX →
  lg_lots n' = zsum (ms ++ (adopted_leg <$> rows).*2) ∧ held legs' = zsum (ms ++ (adopted_leg <$> rows).*2) ∧
  gross legs' ≤ weight (ms ++ (adopted_leg <$> rows).*2).
Proof.
  induction rows as [|row rows IH]; intros legs n legs' n' ms H Hn Hh Hg Hw.
  { injection H as <- <-. cbn [fmap list_fmap]. rewrite app_nil_r. auto. }
  cbn [adopt_rows] in H. cbn [fmap list_fmap] in *. destruct (adopted_leg row) as [name signed] eqn:E. cbn [snd] in *.
  apply bind_ret in H as (n1 & H1 & H). apply bind_ret in H as (l1 & H2 & H).
  rewrite cons_middle, app_assoc in Hw |- *. pose proof (weight_nonneg (adopted_leg <$> rows).*2) as Hr.
  rewrite weight_app in Hw. assert (weight (ms ++ [signed]) = weight ms + Z.abs signed) as Ew by (rewrite weight_app, weight_cons; change (weight []) with 0; lia).
  pose proof (zsum_weight ms) as Hzw. apply fold_lots in H1; [|mlia|unfold sized; mlia].
  apply (fold_into_adds _ _ _ _ _ (weight ms)) in H2 as [H2 H2']; [|done|lia].
  apply (IH _ _ _ _ (ms ++ [signed])) in H; [done| | | |].
  - rewrite zsum_app, zsum_cons, H1, Hn. change (zsum []) with 0. lia.
  - rewrite zsum_app, zsum_cons, H2, Hh. change (zsum []) with 0. lia.
  - lia.
  - by rewrite weight_app.
Qed.
Lemma moved_adds s id name signed lots price s' ms : moved s id name signed lots price = Ret s' → adds_up s ms → weight (ms ++ [signed]) ≤ I64_MAX →
  adds_up s' (ms ++ [signed]).
Proof.
  intros H [Hn Hh Hg] Hw. rewrite weight_app, weight_cons in Hw. change (weight []) with 0 in Hw. pose proof (zsum_weight ms) as Hz. unfold moved in H.
  apply bind_ret in H as (k & _ & H). apply bind_ret in H as (n1 & H1 & H). apply bind_ret in H as (l1 & H2 & [= <-]).
  apply fold_lots in H1; [|mlia|unfold sized; mlia]. apply (fold_into_adds _ _ _ _ _ (weight ms)) in H2 as [H2 H2']; [|done|lia].
  split; cbn [net s_legs]; rewrite ?zsum_app, ?weight_app, ?zsum_cons, ?weight_cons; change (zsum []) with 0; change (weight []) with 0; lia.
Qed.

Lemma signed_qty_is side qty z : signed_qty side qty = Ret z → z = signed_lots side qty.
Proof. destruct side; cbn; [by intros [= ->]|]. by intros [-> _]%chk_inv. Qed.
Lemma undecoded_same s s' : undecoded s = Ret s' →
  net s' = net s ∧ s_legs s' = s_legs s ∧ accepted s' = accepted s ∧ withdrawn s' = withdrawn s ∧ filled s' = filled s.
Proof. intros H. apply bind_ret in H as (n & _ & [= <-]). done. Qed.

(** A record that moves something moves it through [moved], and nothing else
    touches the position. *)
Definition not_adopting (r : option LiveRecord) : Prop := match r with Some (RecReconciled _ _) => False | _ => True end.
Lemma scan_record_moves s r s' : scan_record s r = Ret s' → not_adopting r →
  (moves_of s r = [] ∧ net s' = net s ∧ s_legs s' = s_legs s ∧ filled s' = filled s) ∨
  (∃ id lots signed legs name price s0, moves_of s r = [(id, lots, signed)] ∧ moved s0 id name signed lots price = Ret s' ∧
     net s0 = net s ∧ s_legs s0 = legs ∧ held legs = held (s_legs s) ∧ gross legs = gross (s_legs s) ∧
     accepted s0 = accepted s ∧ withdrawn s0 = withdrawn s ∧ filled s0 = filled s).
Proof.
  intros H Hr. destruct r as [r|].
  2: { left. apply undecoded_same in H as (? & ? & ? & ? & ?). auto. }
  destruct r; cbn [scan_record moves_of] in *; try (left; injection H as <-; done); try done.
  - left. destruct tag; injection H as <-; done.
  - destruct (submitted s !! client_id) as [[[sd ro] leg]|]; [|left; apply undecoded_same in H as (? & ? & ? & ? & ?); auto].
    destruct (parse_scaled qty _) as [lots|]; [|left; apply undecoded_same in H as (? & ? & ? & ? & ?); auto].
    destruct (parse_scaled price _) as [ticks|]; [|left; apply undecoded_same in H as (? & ? & ? & ? & ?); auto].
    apply bind_ret in H as (z & Hz%signed_qty_is & H). subst z.
    destruct (eq_ignore_ascii_case leg LONG || eq_ignore_ascii_case leg SHORT) eqn:E; cbn [orb].
    + right. do 7 eexists. split; [done|]. split; [exact H|]. done.
    + destruct (net_leg (s_legs s)) as [[key|] legs] eqn:En; cbn [fst].
      * right. apply net_leg_held in En as [Eh Eg]. rewrite bool_decide_true by eauto. do 7 eexists. split; [done|]. split; [exact H|]. done.
      * left. rewrite bool_decide_false by (intros [? ?]; done). apply undecoded_same in H as (? & ? & ? & ? & ?). auto.
  - destruct (mode s) as [m|]; [|left; apply undecoded_same in H as (? & ? & ? & ? & ?); auto].
    apply bind_ret in H as (z & Hz%signed_qty_is & H). subst z. right. do 7 eexists. split; [done|]. split; [exact H|]. done.
Qed.

Lemma scan_record_adds s r s' ms : scan_record s r = Ret s' → adds_up s ms →
  let ms' := match r with Some (RecReconciled _ rows) => (adopted_leg <$> rows).*2 | _ => ms ++ (moves_of s r).*2 end in
  weight ms' ≤ I64_MAX → adds_up s' ms'.
Proof.
  intros H Ha. assert (not_adopting r → weight (ms ++ (moves_of s r).*2) ≤ I64_MAX → adds_up s' (ms ++ (moves_of s r).*2)) as Hn.
  { intros Hr Hw. destruct (scan_record_moves s r s' H Hr) as [(Em & En & El & _)|(id & lots & signed & legs & name & price & s0 & Em & Hm & En & El & Eh & Eg & _)].
    - rewrite Em. cbn [fmap list_fmap]. rewrite app_nil_r. destruct Ha. by split; rewrite ?En, ?El.
    - rewrite Em in *. cbn [fmap list_fmap snd] in *. eapply moved_adds; [exact Hm| |done]. destruct Ha as [? ? ?]. subst legs.
      split; rewrite ?En, ?Eh, ?Eg; done. }
  destruct r as [r|]; [|by apply Hn]. destruct r; try (by apply Hn). cbn zeta. intros Hw. clear Hn.
  cbn [scan_record] in H. unfold adopt in H. apply bind_ret in H as ([legs' n'] & Hr & [= <-]).
  apply (adopt_rows_adds _ _ _ _ _ []) in Hr as (H1 & H2 & H3); [by split|done|done|by unfold gross; rewrite map_to_list_empty|done].
Qed.

#[export] Instance not_adopting_dec r : Decision (not_adopting r).
Proof. destruct r as [[]|]; cbn; apply _. Defined.
Lemma movements_heavier rs : ∀ s ms, Forall not_adopting rs → weight ms ≤ weight (movements s ms rs).
Proof.
  induction rs as [|r rs IH]; intros s ms H; [done|]. apply Forall_cons in H as [Hr H]. cbn [movements].
  destruct (scan_record s r) as [s'| |]; [|done..].
  assert (match r with Some (RecReconciled _ rows) => (adopted_leg <$> rows).*2 | _ => ms ++ (moves_of s r).*2 end = ms ++ (moves_of s r).*2) as -> by (by destruct r as [[]|]).
  etrans; [|by apply IH]. rewrite weight_app. pose proof (weight_nonneg (moves_of s r).*2). lia.
Qed.
Lemma scan_records_adds rs : ∀ s ms s', scan_records s rs = Ret s' → adds_up s ms ∨ ¬ Forall not_adopting rs →
  weight (movements s ms rs) ≤ I64_MAX → adds_up s' (movements s ms rs).
Proof.
  induction rs as [|r rs IH]; intros s ms s' H Ha Hw.
  { injection H as <-. destruct Ha as [?|[]]; [done|constructor]. }
  cbn [scan_records] in H. apply bind_ret in H as (s1 & Hs & H). cbn [movements] in Hw |- *. rewrite Hs in Hw |- *.
  apply IH; [done| |done]. destruct (decide (Forall not_adopting rs)) as [Hn|]; [|by right]. left.
  set (ms' := match r with Some (RecReconciled _ rows) => (adopted_leg <$> rows).*2 | _ => ms ++ (moves_of s r).*2 end) in *.
  pose proof (movements_heavier rs s1 ms' Hn) as Hh. destruct (decide (not_adopting r)) as [Hr|Hr].
  - destruct Ha as [Ha|Ha]; [|exfalso; apply Ha; by constructor].
    apply (scan_record_adds s r s1 ms Hs Ha). etrans; [apply Hh|done].
  - destruct r as [r|]; [|done]. destruct r; try done. subst ms'. cbn zeta in Hh.
    cbn [scan_record] in Hs. unfold adopt in Hs. apply bind_ret in Hs as ([legs' n'] & He & [= <-]).
    apply (adopt_rows_adds _ _ _ _ _ []) in He as (H1 & H2 & H3); [by split|done|done|by unfold gross; rewrite map_to_list_empty|]. cbn [app]. lia.
Qed.

Lemma report_legs_lots ls : ∀ out, report_legs ls = Ret out → (λ r : text * Z * Z, r.1.2) <$> out = lots_of <$> ls.
Proof.
  induction ls as [|[name l] ls IH]; intros out H; [by injection H as <-|]. cbn [report_legs] in H.
  apply bind_ret in H as (r & Hr & H). apply bind_ret in H as (rs' & Hrs & [= <-]). apply bind_ret in Hr as (e & _ & [= <-]).
  cbn [fmap list_fmap fst snd]. by rewrite (IH _ Hrs).
Qed.
Lemma zsum_nonzero (ls : list (text * Leg)) : zsum (lots_of <$> List.filter (λ p, negb (lg_lots p.2 =? 0)) ls) = zsum (lots_of <$> ls).
Proof.
  induction ls as [|p ls IH]; [done|]. cbn [List.filter]. unfold lots_of in *. destruct (Z.eqb_spec (lg_lots p.2) 0) as [E|]; cbn [negb fmap list_fmap]; rewrite ?zsum_cons; lia.
Qed.

(** What a journal says was moved, and the legs a belief reports for it. *)
Definition journal_movements (file : list Z) : list Z :=
  match replay file with
  | Ret (Ok replayed) => match decode_frames (since replayed 0) with Ret rs => movements scan_start [] rs | _ => [] end
  | _ => []
  end.

(** C22. The position a belief reports is the one adopted last with every fill
    the journal could place added to it, and its legs add up to it: a hedged
    account compared leg by leg and as a net number is one account.  The lots
    moved since the adoption are within an [i64]. *)
Theorem belief_is_what_was_moved file b :
  from_journal file = Ret (Ok b) → weight (journal_movements file) ≤ I64_MAX →
  b_position_lots b = zsum (journal_movements file) ∧
  zsum ((λ r : text * Z * Z, r.1.2) <$> b_legs b) = b_position_lots b.
Proof.
  unfold from_journal, journal_movements. intros H Hw. apply bind_ret in H as ([replayed|e] & Hf & H); [|done]. rewrite Hf in Hw |- *.
  apply bind_ret in H as (rs & Hd & H). rewrite Hd in Hw |- *. apply bind_ret in H as (s & Hs & H). apply bind_ret in H as (b' & Hb & [= ->]).
  apply (scan_records_adds rs scan_start [] s) in Hs as [Hn Hh _]; [|left; by split|done].
  apply bind_ret in Hb as (e & _ & Hb). apply bind_ret in Hb as (legs & Hl & [= <-]). cbn [b_position_lots b_legs]. split; [done|].
  rewrite (zsum_perm _ _ (fmap_Permutation _ _ _ (sort_named_perm _ legs))), (report_legs_lots _ _ Hl), zsum_nonzero.
  unfold in_order. rewrite (zsum_perm _ _ (fmap_Permutation _ _ _ (sort_named_perm _ _))). fold (held (s_legs s)). congruence.
Qed.

(** * The orders left resting *)

(** The records since the last adoption, and what they say of an order. *)
Fixpoint current (cur : list (option LiveRecord)) rs : list (option LiveRecord) :=
  match rs with [] => cur | r :: rs => current (if decide (not_adopting r) then cur ++ [r] else []) rs end.
Definition accepted_in (r : option LiveRecord) : list text := match r with Some (RecOutcome _ id OAccepted _) => [id] | _ => [] end.
Definition withdrawn_in (r : option LiveRecord) : list text := match r with Some (RecCancelled _ id) => [id] | _ => [] end.
(** The lots of the fills since then, by order. *)
Fixpoint fills s (fs : list (text * Z * Z)) rs : list (text * Z * Z) :=
  match rs with
  | [] => fs
  | r :: rs =>
      match scan_record s r with
      | Ret s' => fills s' (if decide (not_adopting r) then fs ++ moves_of s r else []) rs
      | _ => fs
      end
  end.
Definition filled_lots id (fs : list (text * Z * Z)) : Z :=
  zsum ((λ f : text * Z * Z, f.1.2) <$> List.filter (λ f, bool_decide (f.1.1 = id)) fs).

Record follows s (cur : list (option LiveRecord)) (fs : list (text * Z * Z)) : Prop := {
  fo_accepted : ∀ id, id ∈ accepted s ↔ id ∈ flat_map accepted_in cur;
  fo_withdrawn : ∀ id, id ∈ withdrawn s ↔ id ∈ flat_map withdrawn_in cur;
  fo_filled : ∀ id, default 0 (filled s !! id) = filled_lots id fs;
}.

Lemma filled_lots_app id fs f : filled_lots id (fs ++ [f]) = filled_lots id fs + (if bool_decide (f.1.1 = id) then f.1.2 else 0).
Proof.
  unfold filled_lots. rewrite List.filter_app, fmap_app, zsum_app. cbn [List.filter]. case_bool_decide; cbn [fmap list_fmap]; [rewrite zsum_cons|]; change (zsum []) with 0; lia.
Qed.
Lemma scan_record_sets s r s' : scan_record s r = Ret s' → not_adopting r →
  accepted s' = list_to_set (accepted_in r) ∪ accepted s ∧ withdrawn s' = list_to_set (withdrawn_in r) ∪ withdrawn s.
Proof.
  intros H Hr. assert (∀ X : gset text, list_to_set [] ∪ X = X) as He by (intros X; apply union_empty_l_L).
  assert (∀ s0, undecoded s0 = Ret s' → accepted s0 = accepted s → withdrawn s0 = withdrawn s → accepted s' = accepted s ∧ withdrawn s' = withdrawn s) as Hu.
  { intros s0 Hu ? ?. apply undecoded_same in Hu as (_ & _ & -> & -> & _). auto. }
  assert (∀ s0 id n z l p, moved s0 id n z l p = Ret s' → accepted s0 = accepted s → withdrawn s0 = withdrawn s → accepted s' = accepted s ∧ withdrawn s' = withdrawn s) as Hm.
  { intros s0 id n z l p Hm ? ?. unfold moved in Hm. apply bind_ret in Hm as (? & _ & Hm). apply bind_ret in Hm as (? & _ & Hm). apply bind_ret in Hm as (? & _ & [= <-]). auto. }
  destruct r as [r|]; [|cbn [accepted_in withdrawn_in]; rewrite !He; by apply (Hu s)].
  destruct r; cbn [scan_record accepted_in withdrawn_in] in *; try (injection H as <-; cbn [accepted withdrawn started declared]; split; set_solver); try done.
  - destruct tag; injection H as <-; cbn [accepted withdrawn]; split; set_solver.
  - rewrite !He.
    destruct (submitted s !! client_id) as [[[sd ro] leg]|]; [|by apply (Hu s)].
    destruct (parse_scaled qty _) as [lots|]; [|by apply (Hu s)]. destruct (parse_scaled price _) as [ticks|]; [|by apply (Hu s)].
    apply bind_ret in H as (z & _ & H).
    destruct (eq_ignore_ascii_case leg LONG || eq_ignore_ascii_case leg SHORT); [by eapply Hm|].
    destruct (net_leg (s_legs s)) as [[key|] legs]; [by eapply Hm|by apply (Hu s)].
  - rewrite !He. destruct (mode s) as [m|]; [|by apply (Hu s)]. apply bind_ret in H as (z & _ & H). by eapply Hm.
Qed.
Lemma moved_filled s id name z l p s' : moved s id name z l p = Ret s' → ∀ id', default 0 (filled s' !! id') = default 0 (filled s !! id') + (if bool_decide (id = id') then l else 0).
Proof.
  intros H id'. unfold moved in H. apply bind_ret in H as (n & [-> _]%chk_inv & H). apply bind_ret in H as (? & _ & H). apply bind_ret in H as (? & _ & [= <-]).
  cbn [filled]. case_bool_decide as E; [subst id'; by rewrite lookup_insert_eq|]. rewrite lookup_insert_ne by done. lia.
Qed.
Lemma scan_record_follows s r s' cur fs : scan_record s r = Ret s' → follows s cur fs →
  follows s' (if decide (not_adopting r) then cur ++ [r] else []) (if decide (not_adopting r) then fs ++ moves_of s r else []).
Proof.
  intros H [Ha Hw Hf]. destruct (decide (not_adopting r)) as [Hr|Hr].
  - destruct (scan_record_sets s r s' H Hr) as [Ea Ew]. split.
    + intros id. rewrite Ea, flat_map_app, elem_of_app, <-Ha, elem_of_union, elem_of_list_to_set. cbn [flat_map]. rewrite app_nil_r. tauto.
    + intros id. rewrite Ew, flat_map_app, elem_of_app, <-Hw, elem_of_union, elem_of_list_to_set. cbn [flat_map]. rewrite app_nil_r. tauto.
    + intros id. destruct (scan_record_moves s r s' H Hr) as [(Em & _ & _ & Ef)|(i & lots & signed & legs & name & price & s0 & Em & Hm & _ & _ & _ & _ & _ & _ & Ef)].
      * by rewrite Em, app_nil_r, Ef.
      * rewrite Em, filled_lots_app, (moved_filled _ _ _ _ _ _ _ Hm), Ef, Hf. done.
  - destruct r as [r|]; [|by destruct Hr]. destruct r; try by destruct Hr. cbn [scan_record] in H. unfold adopt in H.
    apply bind_ret in H as ([? ?] & _ & [= <-]). split; intros id; cbn [accepted withdrawn filled flat_map]; [set_solver..|]. by rewrite lookup_empty.
Qed.
Lemma scan_records_follows rs : ∀ s s' cur fs, scan_records s rs = Ret s' → follows s cur fs → follows s' (current cur rs) (fills s fs rs).
Proof.
  induction rs as [|r rs IH]; intros s s' cur fs H Hf; [by injection H as <-|]. cbn [scan_records] in H. apply bind_ret in H as (s1 & Hs & H).
  cbn [current fills]. rewrite Hs. apply (IH s1); [done|]. by apply scan_record_follows.
Qed.

Definition journal_records (file : list Z) : list (option LiveRecord) :=
  match replay file with Ret (Ok replayed) => match decode_frames (since replayed 0) with Ret rs => rs | _ => [] end | _ => [] end.

(** The orders a belief lists as resting are those the venue accepted since
    the last adoption, that no record since then withdrew and no fill touched:
    each once, in order. *)
Theorem resting_is_what_is_open file b :
  from_journal file = Ret (Ok b) →
  NoDup (b_resting b) ∧ Sorted text_le (b_resting b) ∧
  ∀ id, id ∈ b_resting b ↔
    id ∈ flat_map accepted_in (current [] (journal_records file)) ∧
    id ∉ flat_map withdrawn_in (current [] (journal_records file)) ∧
    filled_lots id (fills scan_start [] (journal_records file)) = 0.
Proof.
  unfold from_journal, journal_records. intros H. apply bind_ret in H as ([replayed|e] & Hf & H); [|done]. rewrite Hf.
  apply bind_ret in H as (rs & Hd & H). rewrite Hd. apply bind_ret in H as (s & Hs & H). apply bind_ret in H as (b' & Hb & [= ->]).
  apply (scan_records_follows rs scan_start s [] []) in Hs as [Ha Hw Hfl]; [|split; intros id; cbn; [set_solver..|done]].
  apply bind_ret in Hb as (e & _ & Hb). apply bind_ret in Hb as (legs & _ & [= <-]). cbn [b_resting]. unfold resting.
  split; [|split; [apply (sort_named_sorted id)|]].
  - rewrite sort_named_perm. eapply sublist_NoDup; [|apply sublist_list_filter]. apply NoDup_elements.
  - intros i. rewrite sort_named_perm, in_list_filter, elem_of_elements, Ha, <-Hw, <-Hfl. unfold rests. rewrite andb_true_iff, Z.eqb_eq, negb_true_iff, bool_decide_eq_false. tauto.
Qed.

(** A one-way account: 5 lots adopted, an order accepted and filled in two parts,
    another withdrawn, a third still resting. *)
Module BeliefDemo.
Definition fill (side : Side) (qty price : Z) : Fill := mkFill (mkStamp 0 0) 0 0 0 side Open price qty Taker.
Definition records : list LiveRecord :=
  [RecSessionStart (text_of "oq") (text_of "ETHUSDT") 2 3; RecLedgerStart 1 0 (linear 2 3) 1000 0 OneWay;
   RecReconciled 2 [(text_of "ETHUSDT", text_of "BOTH", 5, 100)];
   RecSubmitted 3 (text_of "oq-1") Buy 100 20 false []; RecOutcome 3 (text_of "oq-1") OAccepted [];
   RecSubmitted 3 (text_of "oq-2") Sell 900 1 false []; RecOutcome 3 (text_of "oq-2") OAccepted [];
   RecSubmitted 3 (text_of "oq-3") Sell 900 1 false []; RecOutcome 3 (text_of "oq-3") OAccepted [];
   RecExecution (text_of "oq-1") (fill Buy 16 8317320) Unsaid; RecExecution (text_of "oq-1") (fill Buy 4 8317320) Unsaid;
   RecCancelled 4 (text_of "oq-2")].
Definition closed : list LiveRecord :=
  [RecSessionStart (text_of "oq") (text_of "ETHUSDT") 2 3; RecLedgerStart 1 0 (linear 2 3) 1000 0 OneWay;
   RecReconciled 2 [(text_of "ETHUSDT", text_of "BOTH", 5, 100)]; RecExecution (text_of "oq-1") (fill Sell 5 120) Unsaid].
Fixpoint written (seq : Z) (rs : list LiveRecord) : run (list Z) :=
  match rs with
  | [] => mret []
  | r :: rs => a ← Frame.encode (mkFrame seq (Rec.kind r) (Rec.encode r)); b ← written (seq + 1) rs; mret (a ++ b)
  end.
Definition file : list Z := match written 0 records with Ret bs => bs | _ => [] end.
Definition belief : Belief := match from_journal file with Ret (Ok b) => b | _ => Belief_default end.
End BeliefDemo.
Example demo_belief :
  (b_position_lots BeliefDemo.belief, b_legs BeliefDemo.belief, b_resting BeliefDemo.belief, b_undecodable BeliefDemo.belief) =
  (25, [(LONG, 5, 100); (LONG, 20, 8317320)], [text_of "oq-3"], 0).
Proof. by vm_compute. Qed.
(** On a one-way account an execution goes to a leg of its own and not to the
    position adopted before it: a position that was closed is reported as one
    held both ways. *)
Example closed_position_is_held_both_ways :
  (b ← scan_records scan_start (Some <$> BeliefDemo.closed); finish b) ≫= (λ b, mret (b_position_lots b, b_legs b, b_hedged b)) =
  Ret (0, [(LONG, 5, 100); (SHORT, -5, 120)], false).
Proof. by vm_compute. Qed.
Lemma belief_is_what_was_moved_witness :
  from_journal BeliefDemo.file = Ret (Ok BeliefDemo.belief) ∧ weight (journal_movements BeliefDemo.file) ≤ I64_MAX ∧
  b_position_lots BeliefDemo.belief = zsum (journal_movements BeliefDemo.file) ∧
  zsum ((λ r : text * Z * Z, r.1.2) <$> b_legs BeliefDemo.belief) = b_position_lots BeliefDemo.belief.
Proof.
  assert (from_journal BeliefDemo.file = Ret (Ok BeliefDemo.belief)) as H by (vm_compute; reflexivity).
  assert (weight (journal_movements BeliefDemo.file) ≤ I64_MAX) as Hw by (vm_compute; discriminate).
  split; [exact H|]. split; [exact Hw|]. exact (belief_is_what_was_moved _ _ H Hw).
Defined.
Lemma resting_is_what_is_open_witness :
  from_journal BeliefDemo.file = Ret (Ok BeliefDemo.belief) ∧
  (text_of "oq-3" ∈ b_resting BeliefDemo.belief ↔
    text_of "oq-3" ∈ flat_map accepted_in (current [] (journal_records BeliefDemo.file)) ∧
    text_of "oq-3" ∉ flat_map withdrawn_in (current [] (journal_records BeliefDemo.file)) ∧
    filled_lots (text_of "oq-3") (fills scan_start [] (journal_records BeliefDemo.file)) = 0).
Proof.
  assert (from_journal BeliefDemo.file = Ret (Ok BeliefDemo.belief)) as H by (vm_compute; reflexivity).
  split; [exact H|]. apply (resting_is_what_is_open _ _ H).
Defined.

(** No journal at all reconstructs as a flat account and not as an error. *)
Example absent_journal_is_flat : from_journal [] = Ret (Ok Belief_default).
Proof. by vm_compute. Qed.
