(* ===== verification/OrderIds.v ===== *)
(** Order ids over the whole life of an account: every start reserves a range
    ([oq-live/src/order_ids.rs]) and runs a session in it, and no id is used
    twice, whatever fails and wherever a process is cut short. *)

From stdpp Require Import gmap strings.
From S2P Require Import Prelude Text Types Frame Journal Risk LiveBook LiveRecord ClientIds LiveSession SessionLife Interlock.
#[local] Open Scope Z_scope.

Implicit Types (s : text) (d : IdFiles).

(** * What the mark says *)

(** The mark a directory holds: every id up to it is taken. *)
Definition mark_of d (m : Z) : Prop :=
  match id_mark d with Some s => s = shown m ++ [10] ∧ u64 m | None => m = 0 end.

(** White space starts with no digit. *)
Lemma white_space_heads w : w ∈ white_space → ∃ c w', w = c :: w' ∧ is_digit c = false.
Proof.
  intros Hw. assert (Forall (λ w, match w with c :: _ => is_digit c = false | [] => False end) white_space) as H
    by (repeat constructor).
  rewrite Forall_forall in H. specialize (H w Hw). destruct w as [|c w]; [done|]. by exists c, w.
Qed.
Lemma trim_end_newline s : s ≠ [] → Forall (λ b, is_digit b = true) s → trim (s ++ [10]) = s.
Proof.
  intros Hne Hs.
  assert (∀ w, w ∈ white_space → starts_with (s ++ [10]) w = false) as Hst.
  { intros w Hw. destruct (white_space_heads w Hw) as (c & w' & -> & Hc). destruct s as [|b s]; [done|].
    apply Forall_cons in Hs as [Hb _]. unfold starts_with. apply bool_decide_eq_false_2. intros E. simpl in E.
    injection E as <- _. congruence. }
  assert (∀ w, w ∈ white_space → ends_with s w = false) as Hend.
  { intros w Hw. destruct (white_space_heads w Hw) as (c & w' & -> & Hc). unfold ends_with.
    destruct (Nat.leb_spec (length (c :: w')) (length s)); [|done]. cbn [andb]. apply bool_decide_eq_false_2.
    intros E. pose proof (Forall_drop _ (length s - length (c :: w')) _ Hs) as Hd. rewrite E in Hd.
    apply Forall_cons in Hd as [Hd _]. congruence. }
  unfold trim. assert (trim_start (s ++ [10]) = s ++ [10]) as ->.
  { unfold trim_start. destruct (length (s ++ [10])) eqn:El; [done|]. cbn [trim_start_loop].
    assert (find (starts_with (s ++ [10])) white_space = None) as ->; [|done].
    destruct (find _ _) as [w|] eqn:Ef; [|done]. apply List.find_some in Ef as [Hw Ef]. apply list_elem_of_In in Hw.
    by rewrite (Hst w Hw) in Ef. }
  rewrite length_app. simpl. rewrite Nat.add_1_r. cbn [trim_end_loop].
  assert (find (ends_with (s ++ [10])) white_space = Some [10]) as ->.
  { assert (∀ b, ends_with (s ++ [10]) [b] = bool_decide (10 = b)) as Hb.
    { intros b. unfold ends_with. rewrite length_app. change (length [b]) with 1%nat. change (length [10]) with 1%nat.
      assert ((1 <=? length s + 1)%nat = true) as -> by (apply Nat.leb_le; lia). cbn [andb].
      apply bool_decide_ext. rewrite drop_app_length' by lia. naive_solver. }
    change white_space with ([9] :: [10] :: drop 2 white_space). cbn [find]. by rewrite !Hb. }
  rewrite length_app. simpl. rewrite take_app_length' by lia. destruct (length s) as [|n]; [done|]. cbn [trim_end_loop].
  assert (find (ends_with s) white_space = None) as ->; [|done].
  destruct (find _ _) as [w|] eqn:Ef; [|done]. apply List.find_some in Ef as [Hw Ef]. apply list_elem_of_In in Hw.
  by rewrite (Hend w Hw) in Ef.
Qed.

Lemma forallb_Forall s : forallb is_digit s = true ↔ Forall (λ b, is_digit b = true) s.
Proof. rewrite forallb_forall, Forall_forall. setoid_rewrite list_elem_of_In. done. Qed.
(** What a reservation writes, the next one reads. *)
Lemma mark_reads m : u64 m → parse_u64 (trim (shown m ++ [10])) = Some m.
Proof.
  intros Hm. destruct (shown_number m) as (Hne & Hd & Hv); [unfold u64 in Hm; lia|].
  rewrite trim_end_newline; [|done|by apply forallb_Forall]. unfold parse_u64.
  destruct (shown m) as [|c s] eqn:E; [done|]. assert (is_digit c = true) as Hc by (simpl in Hd; by apply andb_true_iff in Hd as [? _]).
  assert ((c =? 43) = false) as -> by (unfold is_digit in Hc; lia). cbn [andb]. rewrite bool_decide_eq_false_2 by done.
  rewrite Hd. cbn [negb orb]. rewrite Hv. by rewrite decide_True.
Qed.

(** * One reservation *)

Lemma reserve_spec d m fault floor d' r : mark_of d m → 0 ≤ floor → reserve_order_ids d fault floor = (d', r) →
  ∃ m', mark_of d' m' ∧ m ≤ m' ∧
    match r with Ok (lo, hi) => m < lo ∧ hi = m' ∧ hi = lo + RESERVATION - 1 ∧ u64 hi ∧ floor < lo | Err _ => True end.
Proof.
  intros Hm Hfl H. unfold reserve_order_ids in H.
  assert (fault = Some BeforeCreate ∨ fault ≠ Some BeforeCreate) as [->|Hf] by (destruct fault as [[]|]; naive_solver).
  { injection H as <- <-. by exists m. }
  assert (match id_mark d with Some s => parse_u64 (trim s) | None => Some 0 end = Some m ∧ 0 ≤ m) as [Er H0].
  { unfold mark_of in Hm. destruct (id_mark d) as [s|]; [destruct Hm as [-> Hu]; split; [by apply mark_reads|unfold u64 in Hu; lia]|].
    subst. done. }
  rewrite Er in H. set (last := Z.max m floor + RESERVATION) in *.
  assert (∀ x y : IdFiles * result (Z * Z) IdError, match fault with Some BeforeCreate => x | _ => y end = y) as Hmatch
    by (intros x y; destruct fault as [[]|]; done).
  rewrite Hmatch in H. unfold checked in H. case_decide as Hu; [|injection H as <- <-; by exists m].
  destruct (id_staging d); [injection H as <- <-; by exists m|].
  assert (mark_of (mkIds (Some (shown last ++ [10])) None) last) as Hnew by done.
  assert (m ≤ last) by (unfold last, RESERVATION; lia).
  destruct fault as [[ |n| |[]]|]; try done; injection H as <- <-.
  - by exists m.
  - by exists m.
  - by exists last.
  - by exists m.
  - exists last. split; [done|]. split; [done|]. unfold last, RESERVATION in *. split_and!; try done; lia.
Qed.

(** * Starts and crashes *)

Section lives.
Context (config : SessionConfig) (rules : IdRules).

(** What happens to the account: a reservation that came to nothing, an
    operator who removes a staging file, or a reservation and the session run
    in its range; the ids that the venue was asked to place. *)
Inductive starts : IdFiles → list text → Prop :=
| st_new : starts (mkIds None None) []
| st_failed d ids fault floor d' e : starts d ids → 0 ≤ floor →
    reserve_order_ids d fault floor = (d', Err e) → starts d' ids
| st_cleared d ids : starts d ids → starts (mkIds (id_mark d) None) ids
| st_run d ids floor d' lo hi v os l positions orders expected (s0 s1 s2 s : Session) fs e pol j sync w2 ops t w :
    starts d ids → 0 ≤ floor → reserve_order_ids d None floor = (d', Ok (lo, hi)) →
    venue_texts v → limits_ok l →
    Session.start (RiskGate.new l) config positions orders expected = Ok s0 →
    Session.with_order_id_range s0 lo hi = Ok s1 →
    Forall frame_ok fs → numbered None fs e → u64 (default 0 e) →
    Writer.open false (images fs) pol = Ret (Ok j) →
    Session.journalling_with os (Session.with_id_rules s1 rules) (mkWorld [] 0) j sync = Ret (s2, w2) →
    ops_clocked t ops → Forall op_typed ops →
    session_ops v os s2 w2 ops = Ret (s, w) →
    starts d' (ids ++ ((λ x, no_client_id x.1.1.2) <$> placements w)).

Definition taken_up_to (m : Z) (ids : list text) : Prop :=
  ∃ ns, ids = id_text config (IdRules.separator rules) <$> ns ∧ StronglySorted Z.lt ns ∧ Forall (λ n, 1 ≤ n ≤ m) ns.

Lemma sorted_app (a b : list Z) (m : Z) : StronglySorted Z.lt a → StronglySorted Z.lt b → Forall (λ n, n ≤ m) a →
  Forall (λ n, m < n) b → StronglySorted Z.lt (a ++ b).
Proof.
  intros Ha Hb Hla Hlb. induction Ha as [|x a Ha IH Hx]; [done|]. apply Forall_cons in Hla as [Hxm Hla]. simpl.
  constructor; [by apply IH|]. apply Forall_app_2; [done|]. eapply Forall_impl; [exact Hlb|]. simpl. lia.
Qed.

Lemma starts_taken d ids : config_ok config → starts d ids → ∃ m, mark_of d m ∧ taken_up_to m ids.
Proof.
  intros Hc. induction 1 as [|d ids fault floor d' e _ (m & Hm & Ht) Hfl H|d ids _ (m & Hm & Ht)|
    d ids floor d' lo hi v os l positions orders expected s0 s1 s2 s fs e pol j sync w2 ops t w
      _ (m & Hm & (ns & -> & Hs & Hb)) Hfl Hres Hv Hl Hstart Hrange Hf Hn He Hopen Hj Hclk Hty Hrun].
  - exists 0. split; [done|]. exists []. split_and!; try done; constructor.
  - destruct (reserve_spec _ _ _ _ _ _ Hm Hfl H) as (m' & Hm' & Hle & _). exists m'. split; [done|].
    destruct Ht as (ns & -> & Hs & Hb). exists ns. split_and!; [done|done|]. eapply Forall_impl; [exact Hb|]. simpl. lia.
  - exists m. by split.
  - destruct (reserve_spec _ _ _ _ _ _ Hm Hfl Hres) as (m' & Hm' & Hle & Hlo & Ehi & Espan & Hu & Hfloor).
    assert (u64 lo ∧ u64 hi) as Hr by (unfold u64, RESERVATION in *; lia).
    destruct (started_live v os l config rules positions orders expected lo hi s0 s1 fs e pol j sync s2 w2 ops t s w
      Hv Hc Hl Hr Hstart Hrange Hf Hn He Hopen Hj Hclk Hty Hrun) as (ps & t' & Hlive).
    destruct (li_ids _ _ _ _ _ _ _ _ _ _ _ Hlive) as (ns' & -> & Hs' & Hb').
    pose proof (li_sequence _ _ _ _ _ _ _ _ _ _ _ Hlive) as [_ Hseq]. exists m'. split; [done|].
    exists (ns ++ ns'). rewrite fmap_app. split_and!; [done| |].
    + apply (sorted_app _ _ m); [done|done| |]; (eapply Forall_impl; [eassumption|]); simpl; lia.
    + apply Forall_app_2; (eapply Forall_impl; [eassumption|]); simpl; lia.
Qed.
End lives.


Module DemoStarts.
(** The first reservation is cut short after it was published; the second,
    on a clock that went back, begins past it. *)
Definition after_crash : IdFiles := (reserve_order_ids (mkIds None None) (Some (Publishing true)) 100).1.
Definition reserved : IdFiles := (reserve_order_ids after_crash None 50).1.
Definition ranged : Session :=
  match Session.with_order_id_range DemoSession.fresh 1000000101 2000000100 with Ok s => s | Err _ => DemoSession.fresh end.
Definition journalled : Session * World :=
  match Session.journalling_with DemoSession.os (Session.with_id_rules ranged (IdText 36 true)) (mkWorld [] 0) DemoSession.writer true with
  | Ret x => x | _ => (ranged, mkWorld [] 0)
  end.
Definition ended : Session * World :=
  match session_ops DemoSession.venue DemoSession.os journalled.1 journalled.2 DemoSession.ops with Ret x => x | _ => journalled end.
Definition ids : list text := [] ++ ((λ x, no_client_id x.1.1.2) <$> placements ended.2).
Lemma restart_placed : ids = [text_of "oq-1000000101"; text_of "oq-1000000102"].
Proof. by vm_compute. Qed.
Lemma restart_journals : Session.journalling_with DemoSession.os (Session.with_id_rules ranged (IdText 36 true)) (mkWorld [] 0)
  DemoSession.writer true = Ret (journalled.1, journalled.2).
Proof. vm_compute. reflexivity. Qed.
Lemma restart_runs : session_ops DemoSession.venue DemoSession.os journalled.1 journalled.2 DemoSession.ops = Ret (ended.1, ended.2).
Proof. vm_compute. reflexivity. Qed.
Lemma restart_started : starts DemoSession.config (IdText 36 true) reserved ids.
Proof.
  refine (st_run _ _ after_crash [] 50 reserved 1000000101 2000000100 DemoSession.venue DemoSession.os DemoSession.limits
    [mkSnapshot (text_of "BTCUSDT") (text_of "LONG") (Floats.SpecFloat.S754_zero false)] [] [] DemoSession.fresh ranged
    journalled.1 ended.1 [] None EveryRecordNoFsync DemoSession.writer true journalled.2 DemoSession.ops 0 ended.2
    _ _ _ _ _ DemoSession.started _ _ _ _ DemoSession.opened restart_journals _ _ restart_runs).
  - refine (st_failed _ _ (mkIds None None) [] (Some (Publishing true)) 100 after_crash Stopped (st_new _ _) _ _); [lia|].
    vm_compute. reflexivity.
  - lia.
  - vm_compute. reflexivity.
  - intros [|c calls] o i; apply text_of_ascii_bytes.
  - unfold limits_ok, DemoSession.limits; simpl; mlia.
  - reflexivity.
  - apply Forall_nil_2.
  - reflexivity.
  - unfold u64; simpl; lia.
  - simpl. lia.
  - unfold DemoSession.ops, DemoSession.order. repeat (apply Forall_cons; split); simpl; try done; unfold i64; lia.
Qed.
End DemoStarts.
