(* ===== verification/FundingTold.v ===== *)
(** What a session writes of its funding is what the ledger accepts: the lines
    and settlements of a watch, and its statements of what is owed, pass every
    check the replay makes of them. *)

From stdpp Require Import gmap strings.
From S2P Require Import Prelude Slices SortedVec Text Types Instrument LiveRecord FundingWatch FundingKept LiveLedger LiveRun.
#[local] Open Scope Z_scope.

Implicit Types (w : FundingWatch) (u : FundingTally) (ls all : list FundingCharge) (g : ScheduleGap) (gs : list ScheduleGap).

Lemma ok_bind {A B} (m : attempt A) (k : A → attempt B) a : m = Ret (Ok a) → (m ≫= k) = k a.
Proof. intros H. unfold mbind, attempt_bind. by rewrite H. Qed.
Lemma unless_false why : unless false why = Ret (Ok ()).
Proof. done. Qed.
Lemma lift_ok {A} (m : run A) a : m = Ret a → lift m = Ret (Ok a).
Proof. intros H. unfold lift. by rewrite H. Qed.

(** * Lines and settlements *)

Definition ids_are u all : Prop := ∀ id, id ∈ ft_ids u ↔ id ∈ fc_id <$> all.
Definition settled_are u (S : list Z) : Prop := ∀ t, t ∈ ft_settled u ↔ t ∈ S.

(** Sums of amounts, while nothing saturates. *)
Lemma sat_exact a b : Z.abs (a + b) ≤ I64_MAX → Cash.add a b = a + b.
Proof. intros H. unfold Cash.add. apply sat64_id. mlia. Qed.
Lemma fold_add_exact l : ∀ a, Z.abs a + weight l ≤ I64_MAX → fold_left Cash.add l a = a + zsum l.
Proof.
  induction l as [|b l IH]; intros a H; [simpl; lia|]. rewrite weight_cons in H. rewrite zsum_cons.
  pose proof (weight_nonneg l). cbn [fold_left]. rewrite sat_exact by lia. rewrite IH by lia. lia.
Qed.

Lemma identity_is_new u all l : ids_are u all → fc_id l ∉ fc_id <$> all →
  ∃ u', Ledger.add_id u (fc_id l) = Ret (Ok u') ∧ ids_are u' (all ++ [l]) ∧ ft_settled u' = ft_settled u ∧
    ft_state u' = ft_state u.
Proof.
  intros Hi Hf. unfold Ledger.add_id. rewrite bool_decide_false by (intros Hx; apply Hf; by apply Hi).
  eexists. split; [reflexivity|]. split; [|done]. intros id. simpl. rewrite elem_of_union, elem_of_singleton, (Hi id), fmap_app, elem_of_app.
  simpl. rewrite list_elem_of_singleton. tauto.
Qed.

Lemma NoDup_fresh_cons all l ls : NoDup (fc_id <$> (all ++ l :: ls)) → fc_id l ∉ fc_id <$> all ∧ NoDup (fc_id <$> ((all ++ [l]) ++ ls)).
Proof.
  intros H. split; [|by rewrite <-(assoc_L (++))]. rewrite fmap_app, fmap_cons in H.
  apply NoDup_app in H as (_ & H & _). intros Hin. apply (H _ Hin). left.
Qed.

Lemma settlement_lines_ok settled ls : ∀ u all total, ids_are u all → NoDup (fc_id <$> (all ++ ls)) →
  Forall (λ l, Z.abs (fc_time l - settled) ≤ SAME_SETTLEMENT_MS) ls →
  ∃ u', Ledger.settlement_lines u settled total (Recorder.line_of <$> ls) = Ret (Ok (u', total + zsum (fc_amount <$> ls))) ∧
    ids_are u' (all ++ ls) ∧ ft_settled u' = ft_settled u ∧ ft_state u' = ft_state u.
Proof.
  induction ls as [|l ls IH]; intros u all total Hi Hd HF.
  { exists u. rewrite app_nil_r. simpl. by rewrite Z.add_0_r. }
  apply Forall_cons in HF as [Hl HF]. apply NoDup_fresh_cons in Hd as [Hf Hd].
  destruct (identity_is_new u all l Hi Hf) as (u1 & E1 & Hi1 & S1 & T1).
  destruct (IH u1 (all ++ [l]) (total + fc_amount l) Hi1 Hd HF) as (u2 & E2 & Hi2 & S2 & T2).
  exists u2. rewrite <-(assoc_L (++)) in Hi2. split; [|by rewrite S2, T2].
  cbn [fmap list_fmap Ledger.settlement_lines Recorder.line_of]. rewrite (ok_bind _ _ _ E1). cbv beta.
  unfold SAME_SETTLEMENT_MS in Hl. rewrite (proj2 (Z.ltb_ge _ _)) by done. rewrite (ok_bind _ _ _ (unless_false _)). cbv beta.
  rewrite E2. simpl. by rewrite Z.add_assoc.
Qed.

(** A settlement the watch answered, as the replay takes it. *)
Definition tally_settled u (x : Settled) : attempt FundingTally :=
  u ← Ledger.identified u (st_at x) (st_venue x) (Recorder.line_of <$> st_lines x); Ledger.settle_once u (st_at x).

Lemma fold_amounts ls a : fold_left (λ c l, Cash.add c (fc_amount l)) ls a = fold_left Cash.add (fc_amount <$> ls) a.
Proof. revert a. induction ls as [|l ls IH]; intros a; simpl; [done|]. apply IH. Qed.

Lemma tally_settled_ok u x all S : ids_are u all → settled_are u S → NoDup (fc_id <$> (all ++ st_lines x)) → st_at x ∉ S →
  settled_ok x → weight (fc_amount <$> st_lines x) ≤ I64_MAX →
  ∃ u', tally_settled u x = Ret (Ok u') ∧ ids_are u' (all ++ st_lines x) ∧ settled_are u' (S ++ [st_at x]) ∧ ft_state u' = ft_state u.
Proof.
  intros Hi Hs Hd Hn [HF Hv] Hw. unfold tally_settled.
  destruct (settlement_lines_ok (st_at x) (st_lines x) u all 0 Hi Hd HF) as (u1 & E1 & Hi1 & S1 & T1).
  unfold Cash.ZERO in Hv. rewrite fold_amounts, fold_add_exact in Hv by (simpl; lia).
  assert (Ledger.identified u (st_at x) (st_venue x) (Recorder.line_of <$> st_lines x) = Ret (Ok u1)) as E2.
  { unfold Ledger.identified. rewrite (ok_bind _ _ _ E1). cbv beta iota. by rewrite Hv, Z.eqb_refl. }
  rewrite (ok_bind _ _ _ E2). cbv beta.
  unfold Ledger.settle_once. rewrite bool_decide_false by (rewrite S1; intros Hx; apply Hn; by apply Hs).
  eexists. split; [reflexivity|]. split; [done|]. split; [|done]. intros t. simpl.
  rewrite elem_of_union, elem_of_singleton, S1, (Hs t), elem_of_app, list_elem_of_singleton. tauto.
Qed.

(** A line recovered, as the replay takes it. *)
Lemma recovered_line_ok u all l since through : ids_are u all → fc_id l ∉ fc_id <$> all → since ≤ fc_time l ≤ through →
  ∃ u', Ledger.recovered_line u since through (Recorder.line_of l) = Ret (Ok u') ∧ ids_are u' (all ++ [l]) ∧
    ft_settled u' = ft_settled u ∧ ft_state u' = ft_state u.
Proof.
  intros Hi Hf [H1 H2]. destruct (identity_is_new u all l Hi Hf) as (u1 & E1 & Hi1 & S1 & T1).
  unfold Ledger.recovered_line. cbn [Recorder.line_of fst snd]. rewrite (ok_bind _ _ _ E1). cbv beta.
  rewrite !(proj2 (Z.ltb_ge _ _)) by done. cbn [orb]. rewrite (ok_bind _ _ _ (unless_false _)). by eexists.
Qed.

(** * The intervals whose schedule was not known *)

Definition closed_before (n : Z) g : Prop := ∃ t, until_ms g = Some t ∧ t < n.
Definition gap_before g g' : Prop := closed_before (since_ms g') g.
Definition gap_ok (clock : Z) g : Prop := since_ms g ≤ clock ∧ ∀ t, until_ms g = Some t → since_ms g ≤ t ≤ clock.

(** In order, none open but the last, and none open while a settlement is
    expected. *)
Record gaps_wf w (clock : Z) : Prop := {
  gw_order : StronglySorted gap_before (fw_gaps w);
  gw_ok : Forall (gap_ok clock) (fw_gaps w);
  gw_next : match next_ms w with
    | Some n => Forall (closed_before n) (fw_gaps w)
    | None => fw_gaps w = [] ∨ ∃ gs g, fw_gaps w = gs ++ [g] ∧ until_ms g = None
    end;
}.

Lemma gap_ok_later clock clock' g : gap_ok clock g → clock ≤ clock' → gap_ok clock' g.
Proof. intros [H1 H2] Hc. split; [lia|]. intros t Ht. specialize (H2 t Ht). lia. Qed.
Lemma gaps_ok_later clock clock' gs : Forall (gap_ok clock) gs → clock ≤ clock' → Forall (gap_ok clock') gs.
Proof. intros H Hc. eapply Forall_impl; [exact H|]. intros g Hg. by eapply gap_ok_later. Qed.

(** What the replay asks of a list of intervals. *)
Lemma gaps_pass now_ms gs : ∀ before, i64 now_ms → Forall (gap_ok now_ms) gs →
  StronglySorted gap_before (option_list before ++ gs) → Ledger.bad_gaps now_ms before gs = false.
Proof.
  induction gs as [|g gs IH]; intros before Hi HF Hs; [done|]. apply Forall_cons in HF as [[Hg1 Hg2] HF].
  cbn [Ledger.bad_gaps]. apply orb_false_iff. split.
  - unfold Ledger.bad_gap. repeat (apply orb_false_iff; split).
    + destruct (until_ms g) as [t|]; [|done]. specialize (Hg2 t eq_refl). apply orb_false_iff. split; apply Z.ltb_ge; lia.
    + apply Z.ltb_ge. unfold sat64. mlia.
    + destruct before as [b|]; [|done]. simpl in Hs. apply StronglySorted_inv in Hs as [_ Hb].
      apply Forall_cons in Hb as [(t & -> & Ht) _]. by apply Z.leb_gt.
  - apply IH; [done|done|]. destruct before as [b|]; simpl in *; [by apply StronglySorted_inv in Hs as [? _]|done].
Qed.

Lemma gap_found gs g : StronglySorted gap_before gs → Forall (λ g, ∀ t, until_ms g = Some t → since_ms g ≤ t) gs → g ∈ gs →
  find (λ x, since_ms x =? since_ms g) gs = Some g.
Proof.
  induction 1 as [|a gs Hs IH HF]; intros Hk Hin; [by apply not_elem_of_nil in Hin|]. apply Forall_cons in Hk as [Ha Hk]. simpl.
  apply elem_of_cons in Hin as [->|Hin]; [by rewrite Z.eqb_refl|]. rewrite Forall_forall in HF.
  destruct (HF g Hin) as (t & Ht & Hlt). specialize (Ha t Ht). rewrite (proj2 (Z.eqb_neq _ _)) by lia. by apply IH.
Qed.

(** Later statements keep the earlier ones' intervals. *)
Definition extends gs gs' : Prop := ∀ g, g ∈ gs → ∃ g', g' ∈ gs' ∧ since_ms g' = since_ms g ∧ (until_ms g = None ∨ until_ms g' = until_ms g).

Lemma extends_refl gs : extends gs gs.
Proof. intros g Hg. exists g. auto. Qed.
Lemma extends_trans gs1 gs2 gs3 : extends gs1 gs2 → extends gs2 gs3 → extends gs1 gs3.
Proof.
  intros H1 H2 g Hg. destruct (H1 g Hg) as (g' & Hg' & E & U). destruct (H2 g' Hg') as (h & Hh & E' & U').
  exists h. split; [done|]. split; [congruence|]. destruct U as [U|U]; [by left|]. destruct U' as [U'|U']; [left|right]; congruence.
Qed.
Lemma extends_app gs gs' : extends gs (gs ++ gs').
Proof. intros g Hg. exists g. split; [by apply elem_of_app; left|auto]. Qed.

Lemma gaps_kept_ok gs gs' : StronglySorted gap_before gs' → Forall (λ g, ∀ t, until_ms g = Some t → since_ms g ≤ t) gs' →
  extends gs gs' → Ledger.gaps_kept gs' gs = Ret (Ok ()).
Proof.
  intros Hs Hk. induction gs as [|g gs IH]; intros He; [done|]. cbn [Ledger.gaps_kept].
  destruct (He g ltac:(left)) as (g' & Hg' & E & U).
  assert (ok_or (find (λ x, since_ms x =? since_ms g) gs') "funding schedule gap obligation disappeared" = Ret (Ok g')) as Ef.
  { rewrite <-E. by rewrite gap_found. }
  rewrite (ok_bind _ _ _ Ef). cbv beta.
  assert (bool_decide (is_Some (until_ms g)) && negb (bool_decide (until_ms g = until_ms g')) = false) as ->.
  { destruct U as [-> | ->]; [done|]. by rewrite (bool_decide_true (until_ms g = until_ms g)), andb_false_r. }
  rewrite (ok_bind _ _ _ (unless_false _)). cbv beta. apply IH. intros x Hx. apply He. by right.
Qed.

(** The steps of the watch keep the intervals in order. *)


Lemma begin_gap_new w since : Forall (λ g, is_Some (until_ms g)) (fw_gaps w) →
  fw_gaps (FundingWatch.begin_schedule_gap w since) = fw_gaps w ++ [mkGap since None].
Proof.
  intros H. unfold FundingWatch.begin_schedule_gap. destruct (last (fw_gaps w)) as [g|] eqn:El; [|done].
  rewrite Forall_forall in H. rewrite bool_decide_true by by apply H, last_Some_elem_of. done.
Qed.
Lemma begin_gap_open w since gs g : fw_gaps w = gs ++ [g] → until_ms g = None →
  FundingWatch.begin_schedule_gap w since = w.
Proof. intros E Hu. unfold FundingWatch.begin_schedule_gap. by rewrite E, last_snoc, Hu. Qed.

Lemma gap_opens gs since clock : StronglySorted gap_before gs → Forall (gap_ok clock) gs → Forall (closed_before since) gs →
  since ≤ clock → StronglySorted gap_before (gs ++ [mkGap since None]) ∧ Forall (gap_ok clock) (gs ++ [mkGap since None]).
Proof.
  intros Hs Hk Hc Hle. split.
  - apply StronglySorted_app. split; [done|]. split; [repeat constructor|]. intros x y Hx ->%list_elem_of_singleton.
    rewrite Forall_forall in Hc. by apply Hc.
  - apply Forall_app. split; [done|]. apply Forall_singleton. by split.
Qed.

Lemma closed_closed n gs : Forall (closed_before n) gs → Forall (λ g, is_Some (until_ms g)) gs.
Proof. intros H. eapply Forall_impl; [exact H|]. intros g (t & Ht & _). by exists t. Qed.

Lemma on_time_gaps w clock now_ms live model next : gaps_wf w clock → clock ≤ now_ms →
  gaps_wf (FundingWatch.on_time w now_ms live model next) now_ms ∧
  extends (fw_gaps w) (fw_gaps (FundingWatch.on_time w now_ms live model next)).
Proof.
  intros [Hs Hk Hn] Hc. pose proof (gaps_ok_later _ _ _ Hk Hc) as Hk'. unfold FundingWatch.on_time.
  destruct (next_ms w) as [t|] eqn:En.
  - destruct (Z.ltb_spec now_ms t); [split; [split; [done..|by rewrite En]|apply extends_refl]|].
    set (w1 := FundingWatch.set_next _ _). set (w2 := if bool_decide _ then FundingWatch.begin_schedule_gap w1 t else w1).
    assert (next_ms w1 = (n ← next; if t <? n then Some n else None)) as E1 by done.
    match goal with |- context [if bool_decide ?P then FundingWatch.set_problem w2 ?x else w2] =>
      set (w3 := if bool_decide P then FundingWatch.set_problem w2 x else w2) end.
    assert (fw_gaps w3 = fw_gaps w2 ∧ next_ms w3 = next_ms w2) as [E3 E3'] by (unfold w3; by case_bool_decide).
    destruct (next_ms w1) as [n|] eqn:En1.
    + assert (w2 = w1) as E2 by (unfold w2; by rewrite bool_decide_false by congruence).
      rewrite E3, E2. split; [|apply extends_refl]. split; rewrite ?E3, ?E3', ?E2, ?En1; [done..|].
      eapply Forall_impl; [exact Hn|]. intros g (x & Hx & Hlt). exists x. split; [done|].
      destruct next as [n'|]; simpl in E1; [|done]. destruct (Z.ltb_spec t n'); [|done]. injection E1 as ->. lia.
    + assert (w2 = FundingWatch.begin_schedule_gap w1 t) as E2 by (unfold w2; by rewrite bool_decide_true).
      destruct (begin_gap_frame w1 t) as (_ & E4 & _). pose proof (begin_gap_new w1 t (closed_closed _ _ Hn)) as E5.
      rewrite E3, E2, E5. destruct (gap_opens (fw_gaps w) t now_ms Hs Hk' Hn ltac:(lia)) as [G1 G2].
      split; [|apply extends_app]. split; rewrite ?E3, ?E3', ?E2, ?E5, ?E4, ?En1; [done..|]. right. by eexists _, _.
  - destruct Hn as [Hn|(gs & g & Hn & Hg)].
    + pose proof (begin_gap_new w now_ms ltac:(by rewrite Hn)) as E. destruct (begin_gap_frame w now_ms) as (_ & E4 & _).
      rewrite E, Hn. split; [|apply extends_app]. split; rewrite ?E, ?E4, ?Hn, ?En; [repeat constructor| |right; by exists [], (mkGap now_ms None)].
      apply Forall_singleton. split; simpl; [lia|done].
    + rewrite (begin_gap_open _ _ _ _ Hn Hg). split; [|apply extends_refl]. split; [done..|]. rewrite En. right. by exists gs, g.
Qed.

(** The interval being open, rediscovery closes it. *)
Lemma gap_closes gs g now_ms : StronglySorted gap_before (gs ++ [g]) → Forall (gap_ok now_ms) (gs ++ [g]) →
  let gs' := FundingWatch.close_last_gap (gs ++ [g]) now_ms in
  gs' = gs ++ [mkGap (since_ms g) (Some now_ms)] ∧ StronglySorted gap_before gs' ∧ Forall (gap_ok now_ms) gs' ∧
  ∀ n, now_ms < n → Forall (closed_before n) gs'.
Proof.
  intros Hs Hk. unfold FundingWatch.close_last_gap. rewrite last_snoc, length_app. simpl.
  replace (length gs + 1 - 1)%nat with (length gs + 0)%nat by lia. rewrite take_app_add. simpl. rewrite app_nil_r.
  apply StronglySorted_app in Hs as (S1 & _ & S2). apply Forall_app in Hk as [K1 K2]. apply Forall_singleton in K2 as [K2 _].
  split; [done|]. split; [|split].
  - apply StronglySorted_app. split; [done|]. split; [repeat constructor|]. intros x y Hx ->%list_elem_of_singleton.
    apply (S2 x g); [done|left].
  - apply Forall_app. split; [done|]. apply Forall_singleton. split; simpl; [lia|]. intros t [= <-]. lia.
  - intros n Hn. apply Forall_app. split.
    + apply Forall_forall. intros x Hx. destruct (S2 x g Hx ltac:(left)) as (t & Ht & Hlt). exists t. split; [done|lia].
    + apply Forall_singleton. exists now_ms. by split.
Qed.
Lemma closes_extends gs g now_ms : until_ms g = None → extends (gs ++ [g]) (gs ++ [mkGap (since_ms g) (Some now_ms)]).
Proof.
  intros Hu x [Hx| ->%list_elem_of_singleton]%elem_of_app.
  - exists x. split; [by apply elem_of_app; left|auto].
  - exists (mkGap (since_ms g) (Some now_ms)). split; [apply elem_of_app; right; left|auto].
Qed.

Lemma rediscover_gaps w clock now_ms next : gaps_wf w clock → clock ≤ now_ms →
  gaps_wf (FundingWatch.rediscover_schedule w now_ms next) now_ms ∧
  extends (fw_gaps w) (fw_gaps (FundingWatch.rediscover_schedule w now_ms next)).
Proof.
  intros [Hs Hk Hn] Hc. pose proof (gaps_ok_later _ _ _ Hk Hc) as Hk'.
  unfold FundingWatch.rediscover_schedule, FundingWatch.needs_schedule.
  destruct (next_ms w) as [t|] eqn:En; [rewrite bool_decide_false by done; cbn [negb]; split; [split; [done..|by rewrite En]|apply extends_refl]|].
  rewrite bool_decide_true by done. cbn [negb]. set (w1 := FundingWatch.begin_schedule_gap w now_ms).
  assert (∃ gs g, fw_gaps w1 = gs ++ [g] ∧ until_ms g = None ∧ StronglySorted gap_before (gs ++ [g]) ∧
    Forall (gap_ok now_ms) (gs ++ [g]) ∧ extends (fw_gaps w) (gs ++ [g])) as (gs & g & E & Hg & S1 & K1 & X1).
  { destruct Hn as [Hn|(gs & g & Hn & Hg)].
    - exists [], (mkGap now_ms None). unfold w1. rewrite begin_gap_new by by rewrite Hn. rewrite Hn.
      split_and!; try done; [repeat constructor| |by intros ? ?%not_elem_of_nil].
      apply Forall_singleton. split; simpl; [lia|done].
    - exists gs, g. unfold w1. rewrite (begin_gap_open _ _ _ _ Hn Hg), Hn in *. split_and!; try done. apply extends_refl. }
  destruct (begin_gap_frame w now_ms) as (_ & E4 & _). fold w1 in E4.
  destruct (gap_closes gs g now_ms S1 K1) as (E' & S' & K' & C').
  destruct (match next with Ok (Some n) => if now_ms <? n then Some n else None | _ => None end) as [n|] eqn:Enx.
  - cbn [FundingWatch.set_gaps fw_gaps]. rewrite E. split; [|rewrite E'; eapply extends_trans; [exact X1|by apply closes_extends]].
    split; cbn [FundingWatch.set_gaps FundingWatch.set_next fw_gaps next_ms]; [done..|]. apply C'.
    destruct next as [[n'|]|]; [|done|done]. destruct (Z.ltb_spec now_ms n'); [|done]. by injection Enx as <-.
  - rewrite E. split; [|done]. split; rewrite ?E, ?E4, ?En; [done..|]. right. by exists gs, g.
Qed.

(** A problem is never taken back. *)
Lemma on_time_problem w now_ms live model next :
  fw_problem (FundingWatch.on_time w now_ms live model next) = None → fw_problem w = None.
Proof.
  unfold FundingWatch.on_time. destruct (next_ms w) as [t|].
  - destruct (now_ms <? t); [done|]. set (w1 := FundingWatch.set_next _ _).
    set (w2 := if bool_decide _ then FundingWatch.begin_schedule_gap w1 t else w1).
    assert (fw_problem w2 = fw_problem w) as E by (unfold w2; case_bool_decide; [by destruct (begin_gap_frame w1 t) as (_ & _ & _ & ->)|done]).
    case_bool_decide; [done|]. by rewrite E.
  - by destruct (begin_gap_frame w now_ms) as (_ & _ & _ & ->).
Qed.
Lemma rediscover_problem w now_ms next : fw_problem (FundingWatch.rediscover_schedule w now_ms next) = fw_problem w.
Proof.
  unfold FundingWatch.rediscover_schedule. destruct (negb _); [done|]. destruct (begin_gap_frame w now_ms) as (_ & _ & _ & E).
  by destruct (match next with Ok (Some n) => if now_ms <? n then Some n else None | _ => None end).
Qed.

(** * Statements *)

(** An earlier statement, seen from a later watch that has answered [S]. *)
Record told_ok w (S : list Z) (o : FundingObligations) : Prop := {
  to_pending : ∀ p, p ∈ pending_ms o → p ∈ FundingWatch.unresolved w ∨ p ∈ S;
  to_gaps : extends (schedule_gaps o) (fw_gaps w);
  to_problem : fw_problem w = None → problem o = None;
}.

Lemma told_now w S : told_ok w S (FundingWatch.obligations w).
Proof. split; simpl; [auto|apply extends_refl|done]. Qed.

Lemma told_later w w' S S' o : told_ok w S o →
  (∀ p, p ∈ FundingWatch.unresolved w → p ∈ FundingWatch.unresolved w' ∨ p ∈ S') → (∀ p, p ∈ S → p ∈ S') →
  extends (fw_gaps w) (fw_gaps w') → (fw_problem w' = None → fw_problem w = None) → told_ok w' S' o.
Proof.
  intros [H1 H2 H3] Hp HS Hg Hq. split; [|by eapply extends_trans|auto].
  intros p Hin. destruct (H1 p Hin); auto.
Qed.

Lemma sorted_unordered l : StronglySorted Z.lt l → Ledger.unordered l = false.
Proof.
  induction 1 as [|a l Hs IH HF]; [done|]. destruct l as [|b l]; [done|]. cbn [Ledger.unordered].
  apply Forall_cons in HF as [Hab _]. apply orb_false_iff. split; [by apply Z.leb_gt|done].
Qed.
Lemma Forall_sublist {A} (P : A → Prop) (l l' : list A) : l `sublist_of` l' → Forall P l' → Forall P l.
Proof. induction 1; intros HF; [done|apply Forall_cons in HF as [??]; constructor; auto|apply Forall_cons in HF as [??]; auto]. Qed.
Lemma sorted_sublist (l l' : list Z) : l `sublist_of` l' → StronglySorted Z.lt l' → StronglySorted Z.lt l.
Proof.
  induction 1 as [|x l l' Hs IH|x l l' Hs IH]; intros H; [done| |].
  - apply StronglySorted_inv in H as [H HF]. constructor; [by apply IH|]. by eapply Forall_sublist.
  - apply StronglySorted_inv in H as [H _]. by apply IH.
Qed.

Lemma millis_i64 at_ : i64 at_ → i64 (millis at_).
Proof. unfold millis, i64. intros H. Z.to_euclidean_division_equations. mlia. Qed.
Lemma millis_mono a b : a ≤ b → millis a ≤ millis b.
Proof. intros. unfold millis. Z.to_euclidean_division_equations. lia. Qed.

Lemma statement_accepted u w at_ crossed (S : list Z) : i64 at_ → scheduled w (millis at_) crossed → gaps_wf w (millis at_) →
  settled_are u S →
  match ft_state u with Some (a, o) => a ≤ at_ ∧ told_ok w S o | None => True end →
  Ledger.state_step u at_ (FundingWatch.obligations w) =
    Ret (Ok (mkFunding (ft_settled u) (ft_ids u) (ft_unmodelled u) (Some (at_, FundingWatch.obligations w)))).
Proof.
  intros Hi [Hs Hp _ Hq] [Gs Gk _] HS Ht. unfold Ledger.state_step. cbn [pending_ms schedule_gaps problem FundingWatch.obligations].
  unfold FundingWatch.unresolved in *.
  assert (Ledger.unordered (pd_at <$> pending w) || existsb (λ p, millis at_ <? p) (pd_at <$> pending w) = false) as ->.
  { apply orb_false_iff. split; [by apply sorted_unordered, (sorted_sublist _ _ Hq)|]. apply not_true_iff_false.
    intros (p & Hin%list_elem_of_In & Hlt%Z.ltb_lt)%existsb_exists. pose proof (Forall_sublist _ _ _ Hq Hp) as HF.
    rewrite Forall_forall in HF. specialize (HF p Hin). lia. }
  rewrite (ok_bind _ _ _ (unless_false _)). cbv beta.
  rewrite (gaps_pass _ _ None (millis_i64 _ Hi) Gk Gs), (ok_bind _ _ _ (unless_false _)). cbv beta.
  destruct (ft_state u) as [[a o]|]; [|done]. destruct Ht as [Ha [T1 T2 T3]].
  rewrite (proj2 (Z.ltb_ge _ _)) by done.
  assert (bool_decide (is_Some (problem o)) && bool_decide (fw_problem w = None) = false) as E1.
  { destruct (fw_problem w) eqn:E; [by rewrite (bool_decide_false (Some _ = None)), andb_false_r|]. by rewrite T3. }
  assert (existsb (λ p, negb (bool_decide (p ∈ pd_at <$> pending w)) && negb (bool_decide (p ∈ ft_settled u))) (pending_ms o) = false) as E2.
  { apply not_true_iff_false. intros (p & Hin%list_elem_of_In & [H1 H2]%andb_true_iff)%existsb_exists.
    apply negb_true_iff, bool_decide_eq_false in H1, H2. destruct (T1 p Hin) as [?|Hp2]; [done|]. apply H2. by apply HS. }
  assert (Ledger.gaps_kept (fw_gaps w) (schedule_gaps o) = Ret (Ok ())) as E3.
  { apply gaps_kept_ok; [done| |done]. eapply Forall_impl; [exact Gk|]. intros g [_ Hg] t Hgt. by apply Hg. }
  rewrite E1, E2, E3. done.
Qed.
