(* ===== verification/LiveJournal.v ===== *)
(** What the journal of a live run says of its accounts, and the books that
    wrote it: each record adds to both the same. *)

From stdpp Require Import gmap strings.
From S2P Require Import Prelude Slices SortedVec Text Types Order Instrument Currency Margin Liquidation Tick Strategy Matcher Event Kernel.
From S2P Require Import Dedup Books LiveRecord FundingWatch FundingKept LiveLedger LiveRun FundingTold Twin.
#[local] Open Scope Z_scope.

Implicit Types (f : Fill) (js : list LiveRecord) (g : gmap nat Cash) (n : nat).

(** * What a journal says *)

(** The commissions of its executions, given those recovered later. *)
Definition fee_at g n (r : LiveRecord) : list Cash :=
  match r with RecExecution _ _ fee => [charged (Ledger.evidence g n fee)] | _ => [] end.
Fixpoint fees_from g n js : list Cash :=
  match js with [] => [] | r :: js => fee_at g n r ++ fees_from g (S n) js end.
(** The executions whose commission is still not known. *)
Definition open_at g n (r : LiveRecord) : list Fill :=
  match r with RecExecution _ f fee => if bool_decide (Ledger.evidence g n fee = Unreadable) then [f] else [] | _ => [] end.
Fixpoint open_from g n js : list Fill :=
  match js with [] => [] | r :: js => open_at g n r ++ open_from g (S n) js end.
Definition trade_in (r : LiveRecord) : list (Z * Side) :=
  match r with RecExecution _ f _ => [(f_trade f, f_side f)] | _ => [] end.
Definition trades_in js : list (Z * Side) := js ≫= trade_in.
Definition funds_in (r : LiveRecord) : list Cash :=
  match r with
  | RecFunding _ _ _ _ v _ _ | RecFundingEvidence _ _ _ _ v _ _ _ => [v]
  | RecFundingRecovered _ _ _ ls => snd <$> ls
  | _ => []
  end.
Definition funds js : list Cash := js ≫= funds_in.

(** Every amount it names. *)
Definition fee_amounts (r : LiveRecord) : list Cash :=
  match r with
  | RecExecution _ _ fee => [charged fee]
  | RecFeeEvidence _ _ _ a => [a]
  | _ => []
  end.
Definition funding_amounts (r : LiveRecord) : list Cash :=
  match r with
  | RecFunding _ _ _ _ v _ _ => [v]
  | RecFundingEvidence _ _ _ _ _ _ _ ls | RecFundingRecovered _ _ _ ls => snd <$> ls
  | _ => []
  end.
Definition in_range js : Prop := weight (js ≫= fee_amounts) ≤ I64_MAX ∧ weight (js ≫= funding_amounts) ≤ I64_MAX.

Lemma in_range_prefix js js' : in_range (js ++ js') → in_range js.
Proof. unfold in_range. rewrite !bind_app, !weight_app. intros [H1 H2]. split; [pose proof (weight_nonneg (js' ≫= fee_amounts))|pose proof (weight_nonneg (js' ≫= funding_amounts))]; lia. Qed.

Lemma fees_from_app g js js' : ∀ n, fees_from g n (js ++ js') = fees_from g n js ++ fees_from g (n + length js) js'.
Proof.
  induction js as [|r js IH]; intros n; simpl; [by rewrite Nat.add_0_r|]. rewrite IH, (assoc_L (++)). do 2 f_equal. lia.
Qed.
Lemma open_from_app g js js' : ∀ n, open_from g n (js ++ js') = open_from g n js ++ open_from g (n + length js) js'.
Proof.
  induction js as [|r js IH]; intros n; simpl; [by rewrite Nat.add_0_r|]. rewrite IH, (assoc_L (++)). do 2 f_equal. lia.
Qed.

Lemma evidence_other g j a n fee : j ≠ n → Ledger.evidence (<[j := a]> g) n fee = Ledger.evidence g n fee.
Proof. intros H. unfold Ledger.evidence. by rewrite lookup_insert_ne. Qed.
Lemma evidence_same g n a fee : Ledger.evidence (<[n := a]> g) n fee = Reported a.
Proof. unfold Ledger.evidence. by rewrite lookup_insert_eq. Qed.
Lemma evidence_unreadable g n fee : Ledger.evidence g n fee = Unreadable ↔ g !! n = None ∧ venue_fee fee = Unreadable.
Proof. unfold Ledger.evidence. destruct (g !! n); [split; [done|by intros [? _]]|]. split; [done|by intros [_ ?]]. Qed.

(** Recovering the commission of an execution before the records at hand. *)
Lemma fees_from_before g j a js : ∀ n, (j < n)%nat → fees_from (<[j := a]> g) n js = fees_from g n js.
Proof.
  induction js as [|r js IH]; intros n Hn; simpl; [done|]. rewrite IH by lia. f_equal.
  destruct r; simpl; rewrite ?evidence_other by lia; done.
Qed.
Lemma open_from_before g j a js : ∀ n, (j < n)%nat → open_from (<[j := a]> g) n js = open_from g n js.
Proof.
  induction js as [|r js IH]; intros n Hn; simpl; [done|]. rewrite IH by lia. f_equal.
  destruct r; simpl; rewrite ?evidence_other by lia; done.
Qed.

(** And of the one at [j]: its amount joins the fees, its fill leaves the open
    ones. *)
Lemma fees_from_recovered g j a id f fee js : ∀ n, js !! j = Some (RecExecution id f fee) →
  Ledger.evidence g (n + j) fee = Unreadable →
  zsum (fees_from (<[(n + j)%nat := a]> g) n js) = zsum (fees_from g n js) + a ∧
  weight (fees_from (<[(n + j)%nat := a]> g) n js) = weight (fees_from g n js) + Z.abs a.
Proof.
  revert j. induction js as [|r js IH]; intros j n Hj He; [done|]. destruct j as [|j]; simpl in Hj.
  - injection Hj as ->. rewrite Nat.add_0_r in *. cbn [fees_from fee_at]. rewrite fees_from_before by lia.
    rewrite He, evidence_same. cbn [app charged]. rewrite !zsum_cons, !weight_cons.
    unfold Cash.ZERO. lia.
  - cbn [fees_from]. replace (n + S j)%nat with (S n + j)%nat in * by lia. destruct (IH j (S n) Hj He) as [E1 E2].
    assert (fee_at (<[(S n + j)%nat := a]> g) n r = fee_at g n r) as -> by (destruct r; simpl; rewrite ?evidence_other by lia; done).
    rewrite !zsum_app, !weight_app, E1, E2. lia.
Qed.

Lemma open_from_elem g js f : ∀ n, f ∈ open_from g n js →
  ∃ j id fee, js !! j = Some (RecExecution id f fee) ∧ Ledger.evidence g (n + j) fee = Unreadable.
Proof.
  induction js as [|r js IH]; intros n H; simpl in H; [by apply not_elem_of_nil in H|].
  apply elem_of_app in H as [H|H].
  - destruct r; simpl in H; try by apply not_elem_of_nil in H. case_bool_decide as He; [|by apply not_elem_of_nil in H].
    apply list_elem_of_singleton in H as ->. exists 0%nat, client_id, fee. by rewrite Nat.add_0_r.
  - destruct (IH (S n) H) as (j & id & fee & Hj & He). exists (S j), id, fee. split; [done|]. by replace (n + S j)%nat with (S n + j)%nat by lia.
Qed.

(** Executions of distinct trades have distinct fills. *)
Lemma open_trades g js : ∀ n, ((λ f, (f_trade f, f_side f)) <$> open_from g n js) `sublist_of` trades_in js.
Proof.
  induction js as [|r js IH]; intros n; simpl; [done|]. unfold trades_in in *. cbn [open_from]. rewrite fmap_app. simpl.
  apply sublist_app; [|apply IH]. destruct r; simpl; try done. case_bool_decide; simpl; [done|apply sublist_nil_l].
Qed.
Lemma execution_position js j id f fee : NoDup (trades_in js) → js !! j = Some (RecExecution id f fee) →
  position (Ledger.is_execution_of f) js = Some j.
Proof.
  revert j. induction js as [|r js IH]; intros j Hd Hj; [done|]. unfold trades_in in Hd. simpl in Hd.
  apply NoDup_app in Hd as (H1 & H2 & H3). destruct j as [|j]; simpl in Hj.
  - injection Hj as ->. cbn [position Ledger.is_execution_of]. by rewrite bool_decide_true.
  - cbn [position]. destruct (Ledger.is_execution_of f r) eqn:E; [|by rewrite (IH j H3 Hj)]. exfalso.
    destruct r; simpl in E; try done. apply bool_decide_eq_true in E as ->. apply (H2 (f_trade f, f_side f)); [simpl; left|].
    apply list_elem_of_bind. exists (RecExecution id f fee). split; [left|by eapply list_elem_of_lookup_2].
Qed.

Lemma open_from_recovered g j a id f fee js : ∀ n, NoDup (trades_in js) → js !! j = Some (RecExecution id f fee) →
  open_from (<[(n + j)%nat := a]> g) n js = List.filter (λ x, negb (bool_decide (x = f))) (open_from g n js).
Proof.
  revert j. induction js as [|r js IH]; intros j n Hd Hj; [done|]. unfold trades_in in Hd. simpl in Hd.
  apply NoDup_app in Hd as (H1 & H2 & H3). cbn [open_from]. rewrite List.filter_app.
  assert (∀ x, (f_trade x, f_side x) ∉ trades_in js → List.filter (λ y, negb (bool_decide (y = x))) (open_from g (S n) js) = open_from g (S n) js) as Hkeep.
  { intros x Hx. apply forallb_filter_id, forallb_forall. intros y Hy%list_elem_of_In. apply negb_true_iff, bool_decide_eq_false.
    intros ->. apply Hx. pose proof (open_trades g js (S n)) as Hs. apply (sublist_submseteq _ _), elem_of_submseteq with (x := (f_trade x, f_side x)) in Hs; [done|].
    by apply (list_elem_of_fmap_2 (λ f, (f_trade f, f_side f))). }
  destruct j as [|j]; simpl in Hj.
  - injection Hj as ->. rewrite Nat.add_0_r. rewrite open_from_before by lia. rewrite Hkeep by (intros Hx; by apply (H2 (f_trade f, f_side f)); [simpl; left|]).
    f_equal. cbn [open_at]. rewrite evidence_same, (bool_decide_false (Reported a = Unreadable)) by done.
    case_bool_decide; [|done]. simpl. by rewrite bool_decide_true.
  - replace (n + S j)%nat with (S n + j)%nat by lia. rewrite (IH j (S n) H3 Hj). f_equal.
    destruct r; simpl; try done. rewrite evidence_other by lia. case_bool_decide; [|done]. simpl.
    rewrite bool_decide_false; [done|]. intros ->. apply (H2 (f_trade f, f_side f)); [simpl; left|].
    apply list_elem_of_bind. exists (RecExecution id f fee). split; [left|by eapply list_elem_of_lookup_2].
Qed.

(** * The live side *)

Section live.
Context {M : Type} `{!MatcherOps M}.
Implicit Types (b : Books M) (v : Live M) (t : Tally M).

(** The books of a run and its journal so far: [g] is what the replay will
    gather of the commissions recovered. *)
Record gathered js g b : Prop := {
  ga_session : Ledger.last_session js = None;
  ga_run : Ledger.gather [] ∅ js = Ret (Ok g);
  ga_led : led b;
  ga_instrument : bk_instrument b = 1;
  ga_paid : paid b = zsum (fees_from g 0 js);
  ga_funding : charged_funding b = zsum (funds js);
  ga_weight : weight (fees_from g 0 js) ≤ weight (js ≫= fee_amounts);
  ga_funds : weight (funds js) ≤ weight (js ≫= funding_amounts);
  ga_dom : ∀ j a, g !! j = Some a → (j < length js)%nat;
  ga_open : unpriced_fills b = open_from g 0 js;
  ga_size : size g = length (recovered_fees b);
  ga_trades : NoDup (trades_in js);
  ga_width : width (bk_seen b) = WINDOW;
  ga_window : ∃ B top, tracks (bk_seen b) B top ∧ ∀ e, e ∈ trades_in js → e ∈ B;
  ga_count : bk_booked b = Z.of_nat (length (trades_in js));
}.

Lemma gather_app js js' : ∀ done m, Ledger.gather done m (js ++ js') = (m ← Ledger.gather done m js; Ledger.gather (done ++ js) m js').
Proof.
  induction js as [|r js IH]; intros done m; simpl; [by rewrite app_nil_r|].
  destruct (Ledger.gather_step done m r) as [[m'|e]| |]; [|done|done|done]. cbn [mbind attempt_bind run_bind].
  rewrite IH. by rewrite <-(assoc_L (++)).
Qed.
Lemma gather_snoc js g r g' : Ledger.gather [] ∅ js = Ret (Ok g) → Ledger.gather_step js g r = Ret (Ok g') →
  Ledger.gather [] ∅ (js ++ [r]) = Ret (Ok g').
Proof. intros H Hr. rewrite gather_app, (ok_bind _ _ _ H). cbn [Ledger.gather app]. by rewrite (ok_bind _ _ _ Hr). Qed.

(** A record with no commission in it, of the same session. *)
Definition feeless (r : LiveRecord) : bool :=
  match r with RecExecution _ _ _ | RecFeeEvidence _ _ _ _ | RecSessionStart _ _ _ _ => false | _ => true end.

Lemma last_session_app js js' : Ledger.last_session js = None → Ledger.last_session js' = None → Ledger.last_session (js ++ js') = None.
Proof.
  induction js as [|r js IH]; [done|]. simpl. destruct (Ledger.last_session js); [done|]. intros Hr H. rewrite IH by done. by destruct r.
Qed.

Lemma gathered_same js g b b' : gathered js g b → steady b b' → gathered js g b'.
Proof.
  intros [] [Hf Hp Hu Ho Hr]. pose proof (follows_led _ _ Hf). destruct Hf as [_ _ Es Ei En].
  split; rewrite ?Hp, ?Hu, ?Ho, ?Hr, ?Es, ?Ei, ?En; done.
Qed.

Lemma feeless_quiet rs g : Forall (λ r, feeless r = true) rs →
  (∀ done m, Ledger.gather done m rs = Ret (Ok m)) ∧ (∀ n, fees_from g n rs = []) ∧ (∀ n, open_from g n rs = []) ∧ trades_in rs = [] ∧ Ledger.last_session rs = None.
Proof.
  induction 1 as [|r rs Hr _ (I1 & I2 & I3 & I4 & I5)]; [done|]. split_and!.
  - intros done m. destruct r; try done; exact (I1 _ m).
  - intros n. simpl. rewrite I2. by destruct r.
  - intros n. simpl. rewrite I3. by destruct r.
  - change (trades_in (r :: rs)) with (trade_in r ++ trades_in rs). rewrite I4. by destruct r.
  - simpl. rewrite I5. by destruct r.
Qed.

Lemma gathered_feeless js g b b' rs : gathered js g b → Forall (λ r, feeless r = true) rs → follows b b' → paid b' = paid b →
  charged_funding b' = charged_funding b + zsum (funds rs) → weight (funds rs) ≤ weight (rs ≫= funding_amounts) →
  unpriced_fills b' = unpriced_fills b → recovered_fees b' = recovered_fees b → gathered (js ++ rs) g b'.
Proof.
  intros [Hss Hg Hl Hi Hp Hf Hw Hfw Hd Ho Hz Ht Hwd Hwi Hc] Hr Hfo Ep Ef Ew Eu Er. pose proof (follows_led _ _ Hfo). destruct Hfo as [_ _ Es Ei En].
  destruct (feeless_quiet rs g Hr) as (G & F & O & T' & S').
  assert (trades_in (js ++ rs) = trades_in js) as T by (unfold trades_in at 1; rewrite bind_app; fold (trades_in rs); rewrite T'; apply app_nil_r).
  split; rewrite ?T, ?Es, ?Ei, ?En, ?Er, ?fees_from_app, ?open_from_app, ?F, ?O, ?app_nil_r; try done.
  - by apply last_session_app.
  - rewrite gather_app, (ok_bind _ _ _ Hg). apply G.
  - congruence.
  - rewrite Ef, Hf. unfold funds. by rewrite bind_app, zsum_app.
  - rewrite bind_app, weight_app. pose proof (weight_nonneg (rs ≫= fee_amounts)). lia.
  - unfold funds in *. rewrite !bind_app, !weight_app. lia.
  - intros j a Hj. rewrite length_app. specialize (Hd j a Hj). lia.
  - congruence.
Qed.

Lemma venue_fee_idem fee : venue_fee (venue_fee fee) = venue_fee fee.
Proof. by destruct fee. Qed.

(** A fill booked, and its execution written. *)
Lemma gathered_execution js g b f fee id o b1 : gathered js g b → f_instrument f = 1 → u64 (f_trade f) →
  Books.on_venue_fill b f (venue_fee fee) = Ret (BApplied o, b1) → in_range (js ++ [Recorder.record_execution f id fee]) →
  gathered (js ++ [Recorder.record_execution f id fee]) g b1.
Proof.
  intros [Hss Hg Hl Hi Hp Hf Hw Hfw Hd Ho Hz Ht Hwd (B & top & Htr & HB) Hc] Hfi Hu H [Hr _].
  destruct (fill_follows b b f (venue_fee fee) (venue_fee fee) o b1 (follows_refl _ Hl) ltac:(congruence) H) as (_ & _ & _ & _ & [L1 P1 U1 O1 R1] & _).
  assert (g !! length js = None) as Hn by (apply eq_None_not_Some; intros [a Ha]; specialize (Hd _ _ Ha); lia).
  assert (Ledger.evidence g (length js) (venue_fee fee) = venue_fee fee) as He by (unfold Ledger.evidence; by rewrite Hn, venue_fee_idem).
  assert (trades_in (js ++ [Recorder.record_execution f id fee]) = trades_in js ++ [(f_trade f, f_side f)]) as T
    by (unfold trades_in; by rewrite bind_app).
  rewrite bind_app, weight_app in Hr. cbn [mbind list_bind Recorder.record_execution fee_amounts app] in Hr. rewrite weight_cons in Hr.
  pose proof (zsum_weight (fees_from g 0 js)). pose proof (weight_nonneg []).
  unfold Books.on_venue_fill in H. destruct (f_trade f =? 0); [done|].
  destruct (TradeWindow.insert (bk_seen b) (f_trade f) (f_side f)) as [[] w] eqn:Ei; [|done|done].
  apply bind_ret in H as (n & Hnn & H). apply chk_inv in Hnn as [-> _]. apply bind_ret in H as (k & _ & [= _ <-]).
  destruct (insert_tracks (bk_seen b) B top (f_trade f, f_side f) _ w Htr ltac:(rewrite Hwd; done) Hu Ei) as (Ea & Ew & Ht').
  assert ((f_trade f, f_side f) ∉ B) as Hnew.
  { unfold judge in Ea. simpl in Ea. destruct (_ <? _); [done|]. by case_bool_decide. }
  split; rewrite ?T, ?fees_from_app, ?open_from_app; cbn [fees_from fee_at open_from open_at Recorder.record_execution Nat.add app bk_seen
    bk_booked bk_instrument]; rewrite ?He.
  - by apply last_session_app.
  - eapply gather_snoc; [done|]. done.
  - done.
  - done.
  - rewrite P1, venue_fee_idem, Hp, zsum_app, zsum_cons. change (zsum []) with 0. rewrite Z.add_0_r. apply sat_exact.
    change (weight []) with 0 in Hr. lia.
  - rewrite U1, Hf. unfold funds. rewrite bind_app, zsum_app. simpl. lia.
  - rewrite bind_app, !weight_app. cbn [mbind list_bind fee_amounts app Recorder.record_execution]. rewrite !weight_cons. lia.
  - unfold funds in *. rewrite !bind_app, !weight_app. simpl. lia.
  - intros j a Hj. rewrite length_app. specialize (Hd j a Hj). lia.
  - cbn [unpriced_fills] in O1. cbn [unpriced_fills]. rewrite O1, Ho, venue_fee_idem. by rewrite app_nil_r.
  - done.
  - apply NoDup_app. split; [done|]. split; [|apply NoDup_singleton]. intros e He' ->%list_elem_of_singleton. by apply Hnew, HB.
  - congruence.
  - exists ({[(f_trade f, f_side f)]} ∪ B), (Z.max top (f_trade f)). split; [exact Ht'|].
    intros e [He'| ->%list_elem_of_singleton]%elem_of_app; apply elem_of_union; [right; by apply HB|left; by apply elem_of_singleton].
  - rewrite length_app. simpl. lia.
Qed.

Lemma remove_filter (l : list Fill) i f : NoDup l → l !! i = Some f →
  take i l ++ drop (S i) l = List.filter (λ x, negb (bool_decide (x = f))) l.
Proof.
  intros Hd Hi. rewrite <-(take_drop_middle l i f Hi) at 3. rewrite <-(take_drop_middle l i f Hi) in Hd.
  apply NoDup_app in Hd as (_ & H2 & H3). apply NoDup_cons in H3 as [H3 _]. rewrite List.filter_app. simpl.
  rewrite bool_decide_true by done. simpl.
  assert (∀ k : list Fill, f ∉ k → List.filter (λ x, negb (bool_decide (x = f))) k = k) as Hk.
  { intros k Hf. apply forallb_filter_id, forallb_forall. intros y Hy%list_elem_of_In. apply negb_true_iff, bool_decide_eq_false.
    by intros ->. }
  rewrite !Hk; [done|done|]. intros Hf. apply (H2 f Hf). left.
Qed.

Lemma open_nodup g js n : NoDup (trades_in js) → NoDup (open_from g n js).
Proof. intros H. eapply NoDup_fmap_1, sublist_NoDup; [exact H|apply open_trades]. Qed.

(** A commission recovered, and its evidence written. *)
Lemma gathered_recovered js g b f amount at_ source b1 : gathered js g b →
  Books.recover_fee b f amount at_ = Ret (Ok true, b1) → source ≤ millis at_ →
  in_range (js ++ [RecFeeEvidence at_ source f amount]) →
  ∃ g', gathered (js ++ [RecFeeEvidence at_ source f amount]) g' b1.
Proof.
  intros [Hss Hg Hl Hi Hp Hf Hw Hfw Hd Ho Hz Ht Hwd Hwi Hc] H Hs [Hr _].
  destruct (recover_follows b f amount at_ (Ok true) b1 Hl H) as (Hfo & P1 & U1 & Hat & R1 & i & Hx & O1).
  pose proof (follows_led _ _ Hfo) as Hl1. destruct Hfo as [_ _ Es Ei En]. rewrite Ho in Hx.
  destruct (open_from_elem g js f 0 (list_elem_of_lookup_2 _ _ _ Hx)) as (j & id & fee & Hj & He).
  pose proof He as [Hgj Hfe]%evidence_unreadable. pose proof (execution_position js j id f fee Ht Hj) as Hpos.
  destruct (fees_from_recovered g j amount id f fee js 0 Hj He) as [F1 F2].
  pose proof (open_from_recovered g j amount id f fee js 0 Ht Hj) as Op. cbn [Nat.add] in *.
  pose proof (zsum_weight (fees_from g 0 js)). rewrite bind_app, weight_app in Hr.
  cbn [mbind list_bind fee_amounts app] in Hr. rewrite weight_cons in Hr. change (weight []) with 0 in Hr.
  exists (<[j := amount]> g).
  split; rewrite ?fees_from_app, ?open_from_app, ?app_nil_r, ?Es, ?Ei, ?En; cbn [fees_from fee_at open_from open_at app]; rewrite ?app_nil_r.
  - by apply last_session_app.
  - eapply gather_snoc; [done|]. unfold Ledger.gather_step. rewrite !(proj2 (Z.ltb_ge _ _)) by done. cbn [orb].
    rewrite (ok_bind _ _ _ (unless_false _)). cbv beta. rewrite Hpos. cbn [ok_or]. rewrite (ok_bind _ _ j eq_refl). cbv beta.
    rewrite Hj. rewrite (bool_decide_true (venue_fee fee = Unreadable)) by done. cbn [negb].
    rewrite (ok_bind _ _ _ (unless_false _)). cbv beta. rewrite (bool_decide_false (is_Some (g !! j))) by (rewrite Hgj; by intros [? ?]).
    by rewrite (ok_bind _ _ _ (unless_false _)).
  - done.
  - done.
  - rewrite P1, Hp, F1. apply sat_exact. lia.
  - rewrite U1, Hf. unfold funds. rewrite bind_app. simpl. by rewrite app_nil_r.
  - rewrite F2, bind_app, weight_app. cbn [mbind list_bind fee_amounts app]. rewrite weight_cons. change (weight []) with 0. lia.
  - unfold funds in *. rewrite !bind_app, !weight_app. simpl. lia.
  - intros j' a' Hj'. rewrite length_app. destruct (decide (j' = j)) as [->|Hne].
    + apply lookup_lt_Some in Hj. lia.
    + rewrite lookup_insert_ne in Hj' by done. specialize (Hd _ _ Hj'). lia.
  - rewrite O1, Op, Ho. apply remove_filter; [by apply open_nodup|done].
  - rewrite R1, length_app, map_size_insert_None by done. simpl. lia.
  - unfold trades_in in *. rewrite bind_app. simpl. by rewrite app_nil_r.
  - done.
  - destruct Hwi as (B & top & H1 & H2). exists B, top. split; [done|]. unfold trades_in in *. rewrite bind_app. simpl. by rewrite app_nil_r.
  - unfold trades_in in *. rewrite bind_app. simpl. by rewrite app_nil_r.
Qed.

(** All the commissions one answer of the venue brought. *)
Lemma gathered_recoveries at_ bound : ∀ js g b es b1, gathered js g b → Live.recover_each b at_ bound = Ret (es, b1) →
  Forall (λ e, e.1.2 ≤ millis at_) bound → in_range (js ++ (Recorder.record_fee_evidence at_ <$> es)) →
  ∃ g', gathered (js ++ (Recorder.record_fee_evidence at_ <$> es)) g' b1.
Proof.
  induction bound as [|e bound IH]; intros js g b es b1 Hg H HF Hr; cbn [Live.recover_each] in H.
  { injection H as <- <-. exists g. by rewrite app_nil_r. }
  apply Forall_cons in HF as [He HF]. apply bind_ret in H as ([r b2] & H1 & H). apply bind_ret in H as ([es2 b3] & H2 & H).
  pose proof (recover_follows _ _ _ _ _ _ (ga_led _ _ _ Hg) H1) as Hrf.
  destruct r as [[]|why].
  2,3: injection H as <- <-; subst b2; by eapply IH.
  injection H as <- <-.
  rewrite fmap_cons in *. change (?a :: ?l) with ([a] ++ l) in Hr |- *. rewrite (assoc_L (++)) in *.
  destruct (gathered_recovered js g b e.1.1 e.2 at_ e.1.2 b2 Hg H1 He (in_range_prefix _ _ Hr)) as [g' Hg'].
  by eapply IH.
Qed.

(** Funding charged to the books, line by line. *)
Lemma charges at_ amounts : ∀ b, led b → ∃ b', Live.charge_each b at_ amounts = Ret b' ∧ follows b b' ∧ paid b' = paid b ∧
  charged_funding b' = fold_left Cash.add amounts (charged_funding b) ∧ unpriced_fills b' = unpriced_fills b ∧
  recovered_fees b' = recovered_fees b.
Proof.
  induction amounts as [|a amounts IH]; intros b Hl; cbn [Live.charge_each fold_left];
    [exists b; split; [done|]; split; [by apply follows_refl|done]|].
  destruct (charge_follows b a at_ Hl) as (b1 & -> & F1 & P1 & U1 & O1 & R1). cbn [mbind run_bind].
  destruct (IH b1 (follows_led _ _ F1)) as (b2 & -> & F2 & P2 & U2 & O2 & R2).
  exists b2. split; [done|]. split; [by eapply follows_trans|]. rewrite P2, U2, U1, O2, R2. done.
Qed.
End live.
