(* ===== verification/LiveReplay.v ===== *)
(** The journal of a live run replays to the accounts the run ended with. *)

From stdpp Require Import gmap strings.
From S2P Require Import Prelude Slices SortedVec Text Types Order Instrument Currency Margin Liquidation Tick Strategy Matcher Event Kernel.
From S2P Require Import Dedup Books LiveRecord FundingWatch FundingKept LiveLedger LiveRun FundingTold Twin LiveJournal.
#[local] Open Scope Z_scope.

Implicit Types (f : Fill) (js : list LiveRecord) (g : gmap nat Cash) (n : nat).

(** * The replay, record by record *)

Section replay.
Context {M : Type} `{!MatcherOps M}.
Implicit Types (b : Books M) (v : Live M) (t : Tally M).
Context (symbol : text) (ps qs : Z) (balance : Cash) (md : PositionMode).

(** The replay of a journal, next to the run that wrote it. *)
Record rebuilt g js v t : Prop := {
  rb_run : Ledger.replay_from symbol ps qs g Ledger.nothing_yet 0 js = Ret (Ok t);
  rb_books : ∃ b', t_books t = Some b' ∧ follows (lv_books v) b' ∧
    paid b' = fold_left Cash.add (fees_from g 0 js) 0 ∧ charged_funding b' = fold_left Cash.add (funds js) 0;
  rb_start : t_instrument t = 1 ∧ t_initial t = balance ∧ t_mode t = md ∧ t_adopted t = true;
  rb_executions : t_executions t = length (trades_in js);
  rb_missing : t_missing t = length (open_from g 0 js);
}.

Lemma replay_app g js js' : ∀ t n, Ledger.replay_from symbol ps qs g t n (js ++ js') =
  (t ← Ledger.replay_from symbol ps qs g t n js; Ledger.replay_from symbol ps qs g t (n + length js) js').
Proof.
  induction js as [|r js IH]; intros t n; simpl; [by rewrite Nat.add_0_r|].
  destruct (Ledger.replay_step symbol ps qs g t n r) as [[t'|e]| |]; [|done|done|done]. cbn [mbind attempt_bind run_bind].
  rewrite IH. by replace (S n + length js)%nat with (n + S (length js))%nat by lia.
Qed.
Lemma replay_snoc g js t t' r : Ledger.replay_from symbol ps qs g Ledger.nothing_yet 0 js = Ret (Ok t) →
  Ledger.replay_step symbol ps qs g t (length js) r = Ret (Ok t') →
  Ledger.replay_from symbol ps qs g Ledger.nothing_yet 0 (js ++ [r]) = Ret (Ok t').
Proof. intros H Hr. rewrite replay_app, (ok_bind _ _ _ H). cbn [Ledger.replay_from Nat.add]. by rewrite (ok_bind _ _ _ Hr). Qed.

Lemma funds_snoc js r : funds (js ++ [r]) = funds js ++ funds_in r.
Proof. unfold funds. rewrite bind_app. simpl. by rewrite app_nil_r. Qed.
Lemma trades_snoc js r : trades_in (js ++ [r]) = trades_in js ++ trade_in r.
Proof. unfold trades_in. rewrite bind_app. simpl. by rewrite app_nil_r. Qed.
Lemma fees_snoc g js r : fees_from g 0 (js ++ [r]) = fees_from g 0 js ++ fee_at g (length js) r.
Proof. rewrite fees_from_app. simpl. by rewrite app_nil_r. Qed.
Lemma open_snoc g js r : open_from g 0 (js ++ [r]) = open_from g 0 js ++ open_at g (length js) r.
Proof. rewrite open_from_app. simpl. by rewrite app_nil_r. Qed.

(** The run went on without a word to the journal. *)
Lemma rebuilt_unwritten g js v v' t : rebuilt g js v t → follows (lv_books v) (lv_books v') → rebuilt g js v' t.
Proof.
  intros [Hr (b' & Hb & Hf & Hp & Hu) Hs He Hm] Hv. split; try done. exists b'. split_and!; try done.
  exact (follows_trans _ _ _ (follows_sym _ _ Hv) Hf).
Qed.

(** A record the replay passes over, or that moves nothing but the funding
    tally. *)
Lemma rebuilt_passed g js v v' t u r : rebuilt g js v t → follows (lv_books v) (lv_books v') →
  Ledger.replay_step symbol ps qs g t (length js) r = Ret (Ok (Ledger.set_funding t u)) →
  funds_in r = [] → feeless r = true ∨ (∃ a s f c, r = RecFeeEvidence a s f c) →
  rebuilt g (js ++ [r]) v' (Ledger.set_funding t u).
Proof.
  intros [Hr (b' & Hb & Hf & Hp & Hu) Hs He Hm] Hv Hstep Hfr Hq.
  assert (trade_in r = [] ∧ fee_at g (length js) r = [] ∧ open_at g (length js) r = []) as (Q1 & Q2 & Q3)
    by (destruct Hq as [Hq|(?&?&?&?& ->)]; [by destruct r|done]).
  split; rewrite ?trades_snoc, ?open_snoc, ?Q1, ?Q3, ?app_nil_r; try done.
  - by eapply replay_snoc.
  - exists b'. rewrite funds_snoc, fees_snoc, Hfr, Q2, !app_nil_r. split_and!; try done.
    exact (follows_trans _ _ _ (follows_sym _ _ Hv) Hf).
Qed.
Lemma set_funding_same t : Ledger.set_funding t (t_funding t) = t.
Proof. by destruct t. Qed.

Definition is_note (r : LiveRecord) : bool :=
  match r with
  | RecSubmitted _ _ _ _ _ _ _ | RecOutcome _ _ _ _ | RecCancelled _ _ | RecRefused _ _ | RecWaiting _ _ | RecOperator _ _ _ _ _ => true
  | _ => false
  end.

Lemma rebuilt_note g js v v' t r : rebuilt g js v t → follows (lv_books v) (lv_books v') →
  is_note r = true ∨ (∃ a s f c, r = RecFeeEvidence a s f c) → rebuilt g (js ++ [r]) v' t.
Proof.
  intros Hb Hv Hr. rewrite <-(set_funding_same t). eapply rebuilt_passed; [exact Hb|done|..].
  - rewrite set_funding_same. destruct Hr as [Hr|(?&?&?&?& ->)]; [by destruct r|done].
  - destruct Hr as [Hr|(?&?&?&?& ->)]; [by destruct r|done].
  - destruct Hr as [Hr|?]; [left; by destruct r|by right].
Qed.

Lemma rebuilt_tick g js v v' t tick : rebuilt g js v t → follows (lv_books v) (lv_books v') →
  ∃ t', rebuilt g (js ++ [Recorder.record_tick tick]) v' t' ∧ t_funding t' = t_funding t.
Proof.
  intros [Hr (b' & Hb & Hf & Hp & Hu) Hs He Hm] Hv. unfold Recorder.record_tick.
  destruct (tick_steady b' (Ledger.tick_of (exch (t_stamp tick)) (local (t_stamp tick)) (t_last tick) (t_bid tick) (t_ask tick) (t_volume tick))
    (follows_led _ _ Hf)) as (o & b1 & E & [F1 P1 U1 O1 R1]).
  exists (Ledger.set_books t b1). split; [|done]. split; rewrite ?trades_snoc, ?open_snoc; cbn [trade_in open_at]; rewrite ?app_nil_r; try done.
  - eapply replay_snoc; [done|]. cbn [Ledger.replay_step]. rewrite Hb. by rewrite (ok_bind _ _ _ (lift_ok _ _ E)).
  - exists b1. rewrite funds_snoc, fees_snoc. cbn [funds_in fee_at]. rewrite !app_nil_r, P1, U1. split_and!; try done.
    exact (follows_trans _ _ _ (follows_sym _ _ Hv) (follows_trans _ _ _ Hf F1)).
Qed.

Lemma evidence_idem g n fee : venue_fee (Ledger.evidence g n fee) = Ledger.evidence g n fee.
Proof. unfold Ledger.evidence. destruct (g !! n); [done|apply venue_fee_idem]. Qed.

Lemma rebuilt_execution g js v v' t f fee id o b1 : rebuilt g js v t → bk_instrument (lv_books v) = 1 →
  f_instrument f = 1 → 0 < f_qty f → 0 < f_price f →
  Books.on_venue_fill (lv_books v) f (venue_fee fee) = Ret (BApplied o, b1) → lv_books v' = b1 →
  ∃ t', rebuilt g (js ++ [Recorder.record_execution f id fee]) v' t' ∧ t_funding t' = t_funding t.
Proof.
  intros [Hr (b' & Hb & Hf & Hp & Hu) (S1 & S2 & S3 & S4) He Hm] Hbi Hfi Hq Hpr H Hv.
  set (fee' := Ledger.evidence g (length js) (venue_fee fee)).
  destruct (fill_follows _ b' f (venue_fee fee) fee' o b1 Hf ltac:(congruence) H) as (o' & b1' & E & F1 & _ & [L1 P1 U1 O1 R1]).
  exists (mkTally (Some b1') (t_instrument t) (t_initial t) (t_mode t) (S (t_executions t))
    (if bool_decide (fee' = Unreadable) then S (t_missing t) else t_missing t) (t_adopted t) (t_funding t)).
  split; [|done]. split; rewrite ?trades_snoc, ?open_snoc; cbn [trade_in open_at Recorder.record_execution t_executions t_missing
    t_books t_instrument t_initial t_mode t_adopted].
  - eapply replay_snoc; [done|]. cbn [Ledger.replay_step Recorder.record_execution]. unfold Ledger.execute.
    rewrite S4. cbn [negb]. rewrite (ok_bind _ _ _ (unless_false _)). cbv beta.
    rewrite S1, Hfi, Z.eqb_refl, !(proj2 (Z.leb_gt _ _)) by done. cbn [negb orb]. rewrite (ok_bind _ _ _ (unless_false _)). cbv beta.
    rewrite Hb. cbn [ok_or]. rewrite (ok_bind _ _ b' eq_refl). cbv beta zeta. fold fee'.
    by rewrite (ok_bind _ _ _ (lift_ok _ _ E)).
  - exists b1'. rewrite Hv, funds_snoc, fees_snoc. cbn [funds_in fee_at Recorder.record_execution]. rewrite app_nil_r, fold_left_app.
    split_and!; [done|done| |by rewrite U1]. rewrite P1, Hp. unfold fee'. by rewrite evidence_idem.
  - done.
  - rewrite He, length_app. simpl. lia.
  - fold fee'. rewrite Hm, length_app. destruct (bool_decide (fee' = Unreadable)); simpl; lia.
Qed.

Lemma line_amounts (ls : list FundingCharge) : snd <$> (Recorder.line_of <$> ls) = fc_amount <$> ls.
Proof. by rewrite <-list_fmap_compose. Qed.

(** A settlement charged. *)
Lemma rebuilt_settlement g js v t at_ x u' : rebuilt g js v t → tally_settled (t_funding t) x = Ret (Ok u') →
  ∃ t', rebuilt g (js ++ [Recorder.record_funding at_ x]) v t' ∧ t_funding t' = u'.
Proof.
  intros [Hr (b' & Hb & Hf & Hp & Hu) Hs He Hm] Ht.
  destruct (charge_follows b' (st_venue x) at_ (follows_led _ _ Hf)) as (b1 & E & F1 & P1 & U1 & O1 & R1).
  exists (Ledger.set_books (Ledger.set_funding t u') b1). split; [|done].
  split; rewrite ?trades_snoc, ?open_snoc; cbn [trade_in open_at Recorder.record_funding]; rewrite ?app_nil_r; try done.
  - eapply replay_snoc; [done|]. cbn [Ledger.replay_step Recorder.record_funding]. unfold Ledger.charge_funding.
    unfold tally_settled in Ht. destruct (Ledger.identified _ _ _ _) as [[u1|e]| |]; [|done|done|done].
    cbn [mbind attempt_bind run_bind] in Ht |- *. destruct (Ledger.settle_once u1 (st_at x)) as [[u2|e]| |]; [|done|done|done].
    injection Ht as ->. cbn [mbind attempt_bind run_bind]. rewrite Hb. cbn [ok_or mret attempt_ret mbind attempt_bind run_bind].
    by rewrite (lift_ok _ _ E).
  - exists b1. rewrite funds_snoc, fees_snoc. cbn [funds_in fee_at Recorder.record_funding]. rewrite app_nil_r, fold_left_app.
    split_and!; [done|by eapply follows_trans|congruence|]. rewrite U1, Hu. done.
Qed.

Lemma rebuilt_settlements g v at_ out : ∀ js t all S, rebuilt g js v t → ids_are (t_funding t) all → settled_are (t_funding t) S →
  NoDup (fc_id <$> (all ++ (out ≫= st_lines))) → NoDup (S ++ (st_at <$> out)) → Forall settled_ok out →
  Forall (λ x, weight (fc_amount <$> st_lines x) ≤ I64_MAX) out →
  ∃ t', rebuilt g (js ++ (Recorder.record_funding at_ <$> out)) v t' ∧ ids_are (t_funding t') (all ++ (out ≫= st_lines)) ∧
    settled_are (t_funding t') (S ++ (st_at <$> out)) ∧ ft_state (t_funding t') = ft_state (t_funding t).
Proof.
  induction out as [|x out IH]; intros js t all S Hb Hi Hs Hd Hn HF HW.
  { exists t. simpl. by rewrite !app_nil_r. }
  apply Forall_cons in HF as [Hx HF]. apply Forall_cons in HW as [Wx HW]. simpl in Hd.
  change ((x :: out) ≫= st_lines) with (st_lines x ++ (out ≫= st_lines)) in *. rewrite (assoc_L (++)) in Hd.
  change (st_at <$> x :: out) with ([st_at x] ++ (st_at <$> out)) in Hn |- *. rewrite (app_assoc S) in Hn |- *.
  change (Recorder.record_funding at_ <$> x :: out) with ([Recorder.record_funding at_ x] ++ (Recorder.record_funding at_ <$> out)).
  destruct (tally_settled_ok (t_funding t) x all S Hi Hs) as (u1 & E1 & Hi1 & Hs1 & T1); [..|done|done|].
  { rewrite fmap_app in Hd. by apply NoDup_app in Hd as [? _]. }
  { apply NoDup_app in Hn as [Hn _]. apply NoDup_app in Hn as (_ & Hn & _). intros Hin. apply (Hn _ Hin). left. }
  destruct (rebuilt_settlement g js v t at_ x u1 Hb E1) as (t1 & Hb1 & Eu1). rewrite <-Eu1 in *.
  destruct (IH _ t1 _ _ Hb1 Hi1 Hs1 Hd Hn HF HW) as (t2 & Hb2 & Hi2 & Hs2 & T2).
  exists t2. rewrite <-!(assoc_L (++)) in *. split_and!; [exact Hb2|exact Hi2|exact Hs2|congruence].
Qed.

(** An unknown interval recovered. *)
Lemma charge_lines_ok at_ since through ls : ∀ (b : Books M) u all, led b → ids_are u all → NoDup (fc_id <$> (all ++ ls)) →
  Forall (λ l, since ≤ fc_time l ≤ through) ls →
  ∃ b' u', Ledger.charge_lines b u at_ since through (Recorder.line_of <$> ls) = Ret (Ok (b', u')) ∧ follows b b' ∧ paid b' = paid b ∧
    charged_funding b' = fold_left Cash.add (fc_amount <$> ls) (charged_funding b) ∧ ids_are u' (all ++ ls) ∧
    ft_settled u' = ft_settled u ∧ ft_state u' = ft_state u.
Proof.
  induction ls as [|l ls IH]; intros b u all Hl Hi Hd HF.
  { exists b, u. rewrite app_nil_r. split; [done|]. split; [by apply follows_refl|done]. }
  apply Forall_cons in HF as [Hx HF]. apply NoDup_fresh_cons in Hd as [Hf Hd].
  destruct (recovered_line_ok u all l since through Hi Hf Hx) as (u1 & E1 & Hi1 & S1 & T1).
  destruct (charge_follows b (fc_amount l) at_ Hl) as (b1 & Eb & F1 & P1 & U1 & _ & _).
  destruct (IH b1 u1 _ (follows_led _ _ F1) Hi1 Hd HF) as (b2 & u2 & E2 & F2 & P2 & U2 & Hi2 & S2 & T2).
  exists b2, u2. rewrite <-(assoc_L (++)) in Hi2. rewrite P2, U2, S2, T2, U1. cbn [fmap list_fmap Ledger.charge_lines fold_left].
  rewrite (ok_bind _ _ _ E1). cbv beta. change (Recorder.line_of l).2 with (fc_amount l). rewrite (ok_bind _ _ _ (lift_ok _ _ Eb)). cbv beta.
  split; [exact E2|]. split; [by eapply follows_trans|done].
Qed.

Lemma rebuilt_recovered g js v t at_ r all : rebuilt g js v t → ids_are (t_funding t) all →
  NoDup (fc_id <$> (all ++ rv_lines r)) → recovered_ok r → rv_through r = millis at_ →
  ∃ t', rebuilt g (js ++ [Recorder.record_recovered_funding at_ r]) v t' ∧ ids_are (t_funding t') (all ++ rv_lines r) ∧
    ft_settled (t_funding t') = ft_settled (t_funding t) ∧ ft_state (t_funding t') = ft_state (t_funding t).
Proof.
  intros [Hr (b' & Hb & Hf & Hp & Hu) (S1 & S2 & S3 & S4) He Hm] Hi Hd [Hle HF] Ht.
  destruct (charge_lines_ok at_ (rv_since r) (rv_through r) (rv_lines r) b' (t_funding t) all (follows_led _ _ Hf) Hi Hd HF)
    as (b1 & u1 & E & F1 & P1 & U1 & Hi1 & Su & Tu).
  exists (Ledger.set_books (Ledger.set_funding t u1) b1). split; [|done].
  split; rewrite ?trades_snoc, ?open_snoc; cbn [trade_in open_at Recorder.record_recovered_funding]; rewrite ?app_nil_r; try done.
  - eapply replay_snoc; [done|]. cbn [Ledger.replay_step Recorder.record_recovered_funding]. unfold Ledger.recover_funding.
    rewrite S4. cbn [negb]. rewrite (ok_bind _ _ _ (unless_false _)). cbv beta.
    rewrite (proj2 (Z.ltb_ge (rv_through r) (rv_since r))) by done. rewrite (proj2 (Z.ltb_ge (millis at_) (rv_through r))) by lia. cbn [orb].
    rewrite (ok_bind _ _ _ (unless_false _)). cbv beta. rewrite Hb. cbn [ok_or]. rewrite (ok_bind _ _ b' eq_refl). cbv beta.
    by rewrite (ok_bind _ _ _ E).
  - exists b1. rewrite funds_snoc, fees_snoc. cbn [funds_in fee_at Recorder.record_recovered_funding].
    rewrite app_nil_r, line_amounts, fold_left_app. split_and!; [done|by eapply follows_trans|congruence|]. by rewrite U1, Hu.
Qed.

(** * The whole, step by step *)

Definition answered (o : Outcome) : list Z := st_at <$> oc_settled o.

Record live_ok g v (clock : Nanos) (o : Outcome) : Prop := {
  lo_books : gathered (lv_journal v) g (lv_books v);
  lo_watch : kept (lv_watch v) (millis clock) o;
  lo_gaps : gaps_wf (lv_watch v) (millis clock);
}.
Record replayed G v t (clock : Nanos) (o : Outcome) : Prop := {
  rp_rebuilt : rebuilt G (lv_journal v) v t;
  rp_ids : ids_are (t_funding t) (lines_of o);
  rp_settled : settled_are (t_funding t) (answered o);
  rp_told : lv_told v = snd <$> ft_state (t_funding t);
  rp_state : match ft_state (t_funding t) with Some (a, x) => a ≤ clock ∧ told_ok (lv_watch v) (answered o) x | None => True end;
}.
(** A step of the run, and the replay of what it wrote, whatever commissions
    [G] the whole journal will turn out to recover. *)
Definition steps g v clock o v' (clock' : Nanos) : Prop := ∃ g' o', live_ok g' v' clock' o' ∧
  ∀ G t, replayed G v t clock o → ∃ t', replayed G v' t' clock' o'.

Lemma steps_books g v clock o v' rs : live_ok g v clock o → lv_watch v' = lv_watch v → lv_told v' = lv_told v →
  lv_journal v' = lv_journal v ++ rs → (∃ g', gathered (lv_journal v') g' (lv_books v')) →
  (∀ G t, rebuilt G (lv_journal v) v t → ∃ t', rebuilt G (lv_journal v') v' t' ∧ t_funding t' = t_funding t) →
  steps g v clock o v' clock.
Proof.
  intros [Hb Hw Hg] Ew Et Ej [g' Hb'] Hr. exists g', o. split; [split; [done|by rewrite Ew..]|].
  intros G t [R1 R2 R3 R4 R5]. destruct (Hr G t R1) as (t' & R1' & E). exists t'. split; rewrite ?E, ?Ew, ?Et; done.
Qed.

Lemma steps_trans g v clock o v' clock' v'' clock'' : steps g v clock o v' clock' →
  (∀ g' o', live_ok g' v' clock' o' → steps g' v' clock' o' v'' clock'') → steps g v clock o v'' clock''.
Proof.
  intros (g1 & o1 & H1 & R1) H2. destruct (H2 g1 o1 H1) as (g2 & o2 & H3 & R2).
  exists g2, o2. split; [done|]. intros G t HR. destruct (R1 G t HR) as (t1 & HR1). exact (R2 G t1 HR1).
Qed.

(** Quotes and orders. *)
Lemma history_steps g v clock o tick b out : live_ok g v clock o → Books.on_tick (lv_books v) tick = Ret (out, b) →
  steps g v clock o (Live.set_books v b) clock.
Proof.
  intros Hl H. pose proof Hl as [Hb _ _]. destruct (tick_steady _ tick (ga_led _ _ _ Hb)) as (out' & b' & E & Hs).
  rewrite E in H. injection H as -> ->. eapply (steps_books _ _ _ _ _ []); [exact Hl|done|done|by rewrite app_nil_r| |].
  - exists g. by eapply gathered_same.
  - intros G t Hr. exists t. split; [|done]. eapply rebuilt_unwritten; [exact Hr|]. apply Hs.
Qed.
Lemma tick_steps g v clock o tick b out : live_ok g v clock o → Books.on_tick (lv_books v) tick = Ret (out, b) →
  steps g v clock o (Live.set_books (Live.write v [Recorder.record_tick tick]) b) clock.
Proof.
  intros Hl H. pose proof Hl as [Hb _ _]. destruct (tick_steady _ tick (ga_led _ _ _ Hb)) as (out' & b' & E & Hs).
  rewrite E in H. injection H as -> ->. eapply (steps_books _ _ _ _ _ [_]); [exact Hl|done..| |].
  - exists g. eapply gathered_feeless; [exact Hb|by apply Forall_singleton|apply Hs|apply Hs| |done|apply Hs|apply Hs].
    cbn [Live.set_books Live.write lv_books]. rewrite (sd_funding _ _ Hs). change (zsum _) with 0. lia.
  - intros G t Hr. eapply rebuilt_tick; [exact Hr|]. apply Hs.
Qed.
Lemma submit_steps g v clock o id side qty offset at_ b : live_ok g v clock o →
  Books.on_submit (lv_books v) id side qty offset at_ = Ret b → steps g v clock o (Live.set_books v b) clock.
Proof.
  intros Hl H. pose proof Hl as [Hb _ _]. pose proof (submit_steady _ _ _ _ _ _ _ (ga_led _ _ _ Hb) H) as Hs.
  eapply (steps_books _ _ _ _ _ []); [exact Hl|done|done|by rewrite app_nil_r| |].
  - exists g. by eapply gathered_same.
  - intros G t Hr. exists t. split; [|done]. eapply rebuilt_unwritten; [exact Hr|]. apply Hs.
Qed.
Lemma note_steps g v clock o r : live_ok g v clock o → is_note r = true → steps g v clock o (Live.write v [r]) clock.
Proof.
  intros Hl Hn. pose proof Hl as [Hb _ _]. pose proof (follows_refl _ (ga_led _ _ _ Hb)) as Hf.
  eapply (steps_books _ _ _ _ _ [r]); [exact Hl|done..| |].
  - exists g. eapply gathered_feeless; [exact Hb|apply Forall_singleton; by destruct r|exact Hf|done| | |done|done].
    + destruct r; try done; change (zsum _) with 0; simpl; lia.
    + by destruct r.
  - intros G t Hr. exists t. split; [|done]. eapply rebuilt_note; [exact Hr|exact Hf|by left].
Qed.

(** Fills and commissions. *)
Lemma fill_steps g v clock o f fee id v' : live_ok g v clock o → f_instrument f = 1 → 0 < f_qty f → 0 < f_price f → u64 (f_trade f) →
  Live.book_fill v f fee id = Ret v' → in_range (lv_journal v') → steps g v clock o v' clock.
Proof.
  intros Hl Hi Hq Hp Hu H Hr. pose proof Hl as [Hb _ _]. unfold Live.book_fill in H. apply bind_ret in H as ([a b] & H & E).
  destruct a as [out| | |]; injection E as <-.
  2-4: rewrite (fill_refused _ _ _ _ _ H) by done; destruct v; eapply (steps_books _ _ _ _ _ []); [exact Hl|done|done|by rewrite app_nil_r|by exists g|];
    intros G t Ht; by exists t.
  eapply (steps_books _ _ _ _ _ [_]); [exact Hl|done..| |].
  - exists g. by eapply gathered_execution.
  - intros G t Ht. eapply rebuilt_execution; try done. apply Hb.
Qed.

Lemma rebuilt_evidence G v v' t at_ es : ∀ js, rebuilt G js v t → follows (lv_books v) (lv_books v') →
  rebuilt G (js ++ (Recorder.record_fee_evidence at_ <$> es)) v' t.
Proof.
  induction es as [|e es IH]; intros js Hr Hf; [rewrite app_nil_r; by eapply rebuilt_unwritten|].
  change (Recorder.record_fee_evidence at_ <$> e :: es) with ([Recorder.record_fee_evidence at_ e] ++ (Recorder.record_fee_evidence at_ <$> es)).
  rewrite (app_assoc js). apply IH; [|done]. eapply rebuilt_note; [exact Hr| |right; by do 4 eexists].
  destruct Hf. by apply follows_refl.
Qed.
Lemma recover_each_follows at_ bound : ∀ b es b1, led b → Live.recover_each b at_ bound = Ret (es, b1) → follows b b1.
Proof.
  induction bound as [|e bound IH]; intros b es b1 Hl H; cbn [Live.recover_each] in H.
  { injection H as <- <-. by apply follows_refl. }
  apply bind_ret in H as ([r b2] & H1 & H). apply bind_ret in H as ([es2 b3] & H2 & [= _ <-]).
  assert (follows b b2) as Hf.
  { pose proof (recover_follows _ _ _ _ _ _ Hl H1) as Hr. destruct r as [[]|]; [apply Hr|rewrite Hr; by apply follows_refl..]. }
  eapply follows_trans; [exact Hf|]. eapply IH; [by eapply follows_led|done].
Qed.

(** What is bound came no later than it was read. *)
Lemma index_rows_times received rows : ∀ u u', FeeHistory.index_rows received u rows = Ok u' →
  map_Forall (λ _ r, ef_time r ≤ millis received) u → map_Forall (λ _ r, ef_time r ≤ millis received) u'.
Proof.
  induction rows as [|r rows IH]; intros u u' H Hu; simpl in H; [by injection H as <-|].
  destruct (Z.ltb_spec (millis received) (ef_time r)); [by rewrite orb_true_r in H|]. destruct (_ || _); [done|].
  destruct (match u !! FeeHistory.row_key r with Some _ => _ | None => _ end); [done|]. eapply IH; [exact H|].
  by apply map_Forall_insert_2.
Qed.
Lemma bind_each_times received u first fills : ∀ seen out, FeeHistory.bind_each received u first seen fills = Ok out →
  map_Forall (λ _ r, ef_time r ≤ millis received) u → Forall (λ e, e.1.2 ≤ millis received) out.
Proof.
  induction fills as [|f fills IH]; intros seen out H Hu; cbn [FeeHistory.bind_each] in H; [by injection H as <-|].
  destruct (_ || match first with Some _ => _ | None => _ end); [done|]. case_bool_decide; [done|].
  destruct (FeeHistory.bind_each received u first _ fills) as [out'|] eqn:E; [|done]. injection H as <-.
  pose proof (IH _ _ E Hu). destruct (u !! FeeHistory.fill_key f) as [r|] eqn:Er; [|done]. constructor; [|done].
  exact (Hu _ _ Er).
Qed.
Lemma bind_times fills rows received out : FeeHistory.bind fills rows received = Ok out → Forall (λ e, e.1.2 ≤ millis received) out.
Proof.
  unfold FeeHistory.bind. destruct (FeeHistory.index_rows received ∅ rows) as [u|] eqn:Eu; [|done]. intros H.
  eapply bind_each_times; [exact H|]. by eapply index_rows_times; [|apply map_Forall_empty].
Qed.

Lemma fees_steps g v clock o at_ rows v' : live_ok g v clock o → Live.poll_fees v at_ rows = Ret v' → in_range (lv_journal v') →
  steps g v clock o v' clock.
Proof.
  intros Hl H Hr. pose proof Hl as [Hb _ _].
  assert (v' = v → steps g v clock o v' clock) as Hsame.
  { intros ->. eapply (steps_books _ _ _ _ _ []); [exact Hl|done|done|by rewrite app_nil_r|by exists g|]. intros G t Ht. by exists t. }
  unfold Live.poll_fees in H. destruct rows as [rows|]; [|injection H as <-; by apply Hsame].
  case_bool_decide; [injection H as <-; by apply Hsame|].
  destruct (FeeHistory.bind _ rows at_) as [bound|why] eqn:Eb; [|injection H as <-; by apply Hsame].
  apply bind_ret in H as ([es b] & H & [= <-]). eapply (steps_books _ _ _ _ _ (Recorder.record_fee_evidence at_ <$> es)); [exact Hl|done..| |].
  - eapply gathered_recoveries; [exact Hb|exact H|by eapply bind_times|done].
  - intros G t Ht. exists t. split; [|done]. eapply rebuilt_evidence; [exact Ht|]. eapply recover_each_follows; [apply Hb|exact H].
Qed.

(** Funding. *)
Lemma rediscover_pending w now_ms next : pending (FundingWatch.rediscover_schedule w now_ms next) = pending w.
Proof.
  unfold FundingWatch.rediscover_schedule. destruct (negb _); [done|]. destruct (begin_gap_frame w now_ms) as (E & _ & _ & _).
  by destruct (match next with Ok (Some n) => if now_ms <? n then Some n else None | _ => None end).
Qed.
Lemma recover_problem w ls now_ms r w' : FundingWatch.recover_unknown w ls now_ms = (r, w') → fw_problem w' = None → fw_problem w = None.
Proof.
  unfold FundingWatch.recover_unknown. destruct (FundingWatch.minimum _); [|by intros [= _ <-]].
  destruct (FundingWatch.unique_lines w _ [] ls); [|by intros [= _ <-]]. case_bool_decide; [by intros [= _ <-]|].
  intros [= _ <-]. by match goal with |- context [fold_left FundingWatch.book_line ?l w] => destruct (book_all_frame l w) as (_ & _ & _ & ->) end.
Qed.

(** What the watch states is accepted, now that the clock stands there. *)
Lemma tell_steps g v at_ o : i64 at_ → live_ok g v at_ o → steps g v at_ o (Live.tell v at_) at_.
Proof.
  intros Hi Hl. pose proof Hl as [Hb Hw Hg]. unfold Live.tell, Recorder.record_funding_state. case_bool_decide as Et.
  - eapply (steps_books _ _ _ _ _ []); [exact Hl|done..|by exists g; cbn [lv_journal]; rewrite app_nil_r|].
    intros G t Ht. exists t. split; [|done]. cbn [lv_journal]. rewrite app_nil_r. eapply rebuilt_unwritten; [exact Ht|apply follows_refl, Hb].
  - exists g, o. split.
    + split; [|done|done]. pose proof (follows_refl _ (ga_led _ _ _ Hb)). eapply gathered_feeless; try done; [by apply Forall_singleton|].
      change (zsum _) with 0. cbn [lv_books]. lia.
    + intros G t [R1 R2 R3 R4 R5]. pose proof Hw as [_ Hs _ _ _].
      pose proof (statement_accepted (t_funding t) (lv_watch v) at_ _ _ Hi Hs Hg R3 R5) as Ha.
      eexists. split; [eapply rebuilt_passed; [exact R1| |cbn [Ledger.replay_step]; by rewrite (ok_bind _ _ _ Ha)|done|by left]|done|done|done|].
      * apply follows_refl, Hb.
      * split; [done|apply told_now].
Qed.

Lemma clock_steps g v clock o at_ model next v' : live_ok g v clock o → clock ≤ at_ → i64 at_ →
  Live.on_clock v at_ model next = Ret v' → steps g v clock o v' at_.
Proof.
  intros Hl Hc Hi H. unfold Live.on_clock in H. apply bind_ret in H as (legs & _ & [= <-]).
  pose proof Hl as [Hb Hw Hg]. pose proof (millis_mono _ _ Hc) as Hm. eapply (steps_trans _ _ _ _ (Live.set_watch v _) at_).
  - exists g, (outcomes o (mkOutcome [] [] (crossing (lv_watch v) (millis at_)))).
    destruct (on_time_gaps (lv_watch v) _ (millis at_) legs model next Hg Hm) as [G1 G2].
    split; [split; [done|by eapply on_time_kept|exact G1]|]. intros G t [R1 R2 R3 R4 R5]. exists t.
    split; [eapply rebuilt_unwritten; [exact R1|apply follows_refl, Hb]|by rewrite lines_of_quiet|by unfold answered in *; simpl; rewrite app_nil_r|done|].
    destruct (ft_state (t_funding t)) as [[a x]|]; [|done]. destruct R5 as [R5 R6]. split; [lia|].
    eapply told_later; [exact R6| | |done|apply on_time_problem].
    + intros p Hp. left. destruct (on_time_frame (lv_watch v) (millis at_) legs model next) as (_ & Ep & _).
      unfold FundingWatch.unresolved in *. cbn [Live.set_watch lv_watch]. rewrite Ep. apply elem_of_app. by left.
    + unfold answered. simpl. by rewrite app_nil_r.
  - intros g' o' Hl'. by apply tell_steps.
Qed.

Lemma outcomes_nothing o : outcomes o nothing = o.
Proof. destruct o. unfold outcomes; simpl. by rewrite !app_nil_r. Qed.

Lemma rediscover_steps g v clock o at_ schedule : live_ok g v clock o → clock ≤ at_ →
  steps g v clock o (Live.set_watch v (FundingWatch.rediscover_schedule (lv_watch v) (millis at_) schedule)) at_.
Proof.
  intros [Hb Hw Hg] Hc. pose proof (millis_mono _ _ Hc) as Hm. exists g, o.
  destruct (rediscover_gaps (lv_watch v) _ (millis at_) schedule Hg Hm) as [G1 G2].
  split; [split; [done|rewrite <-(outcomes_nothing o); by eapply rediscover_kept|exact G1]|]. intros G t [R1 R2 R3 R4 R5]. exists t.
  split; [eapply rebuilt_unwritten; [exact R1|apply follows_refl, Hb]|done..|].
  destruct (ft_state (t_funding t)) as [[a x]|]; [|done]. destruct R5 as [R5 R6]. split; [lia|].
  eapply told_later; [exact R6| |done|done|cbn [Live.set_watch lv_watch]; by rewrite rediscover_problem].
  intros p Hp. left. unfold FundingWatch.unresolved in *. cbn [Live.set_watch lv_watch]. by rewrite rediscover_pending.
Qed.
Lemma wait_steps g v clock o at_ : live_ok g v clock o → clock ≤ at_ → steps g v clock o v at_.
Proof.
  intros [Hb [Hl Hs Hk Ho Hr] [G1 G2 G3]] Hc. pose proof (millis_mono _ _ Hc) as Hm. exists g, o. split.
  - split; [done| |split; [done|by eapply gaps_ok_later|done]]. split; [done|by eapply scheduled_later|done..].
  - intros G t [R1 R2 R3 R4 R5]. exists t. split; try done. destruct (ft_state (t_funding t)) as [[a x]|]; [|done]. destruct R5. split; [lia|done].
Qed.

Lemma weight_bind {A} (h : A → list Z) (k : A → Z) (l : list A) : (∀ x, x ∈ l → Z.abs (k x) ≤ weight (h x)) → weight (k <$> l) ≤ weight (l ≫= h).
Proof.
  induction l as [|x l IH]; intros H; [done|]. change ((x :: l) ≫= h) with (h x ++ (l ≫= h)). rewrite fmap_cons, weight_cons, weight_app.
  specialize (H x ltac:(left)) as Hx. specialize (IH ltac:(intros; apply H; by right)). lia.
Qed.
Lemma weight_elem {A} (h : A → list Z) (l : list A) x : x ∈ l → weight (h x) ≤ weight (l ≫= h).
Proof.
  induction 1 as [x l|x y l _ IH]; (change ((?y :: l) ≫= h) with (h y ++ (l ≫= h)); rewrite weight_app).
  - pose proof (weight_nonneg (l ≫= h)). lia.
  - pose proof (weight_nonneg (h y)). lia.
Qed.
Lemma settled_weight x : settled_ok x → weight (fc_amount <$> st_lines x) ≤ I64_MAX → Z.abs (st_venue x) ≤ weight (fc_amount <$> st_lines x).
Proof.
  intros [_ ->] Hw. rewrite fold_amounts, fold_add_exact by (unfold Cash.ZERO; lia). unfold Cash.ZERO.
  pose proof (zsum_weight (fc_amount <$> st_lines x)). lia.
Qed.

(** The records of one answer about funding. *)
Definition funding_records (at_ : Nanos) (settled : list Settled) (r : option RecoveredFunding) : list LiveRecord :=
  (Recorder.record_funding at_ <$> settled) ++ (Recorder.record_recovered_funding at_ <$> option_list r).
Lemma funding_records_say at_ settled r :
  funds (funding_records at_ settled r) = (st_venue <$> settled) ++ (fc_amount <$> (option_list r ≫= rv_lines)) ∧
  funding_records at_ settled r ≫= funding_amounts =
    (settled ≫= λ x, fc_amount <$> st_lines x) ++ (fc_amount <$> (option_list r ≫= rv_lines)) ∧
  Forall (λ r, feeless r = true) (funding_records at_ settled r).
Proof.
  unfold funding_records, funds. rewrite !bind_app. split_and!.
  - f_equal; [induction settled as [|x settled IH]; simpl; [done|by f_equal]|]. destruct r; simpl; [|done].
    by rewrite !app_nil_r, line_amounts.
  - f_equal; [induction settled as [|x settled IH]; simpl; [done|]; rewrite line_amounts; by f_equal|]. destruct r; simpl; [|done].
    by rewrite !app_nil_r, line_amounts.
  - apply Forall_app. split; apply Forall_forall; intros x (y & -> & _)%list_elem_of_fmap; done.
Qed.

(** The books take what one answer of the venue says of funding. *)
Lemma gathered_funding g v at_ settled r b1 b2 : gathered (lv_journal v) g (lv_books v) → Forall settled_ok settled →
  Live.charge_each (lv_books v) at_ (fc_amount <$> (option_list r ≫= rv_lines)) = Ret b1 →
  Live.charge_each b1 at_ (st_venue <$> settled) = Ret b2 →
  in_range (lv_journal v ++ funding_records at_ settled r) →
  gathered (lv_journal v ++ funding_records at_ settled r) g b2 ∧ follows (lv_books v) b2 ∧
  Forall (λ x, weight (fc_amount <$> st_lines x) ≤ I64_MAX) settled.
Proof.
  intros Hb Hk H1 H2 [_ Hr]. destruct (funding_records_say at_ settled r) as (F1 & F2 & F3).
  destruct (charges at_ (fc_amount <$> (option_list r ≫= rv_lines)) (lv_books v) (ga_led _ _ _ Hb)) as (b1' & E1 & Fo1 & P1 & U1 & O1 & R1).
  rewrite E1 in H1. injection H1 as ->.
  destruct (charges at_ (st_venue <$> settled) b1 (follows_led _ _ Fo1)) as (b2' & E2 & Fo2 & P2 & U2 & O2 & R2).
  rewrite E2 in H2. injection H2 as ->. pose proof (follows_trans _ _ _ Fo1 Fo2) as Fo.
  rewrite bind_app, weight_app, F2, weight_app in Hr. pose proof (ga_funds _ _ _ Hb). pose proof (zsum_weight (funds (lv_journal v))).
  pose proof (weight_nonneg (fc_amount <$> (option_list r ≫= rv_lines))). pose proof (weight_nonneg (settled ≫= λ x, fc_amount <$> st_lines x)).
  assert (Forall (λ x, weight (fc_amount <$> st_lines x) ≤ I64_MAX) settled) as HW.
  { apply Forall_forall. intros x Hx. pose proof (weight_elem (λ x, fc_amount <$> st_lines x) settled x Hx).
    pose proof (weight_nonneg (lv_journal v ≫= funding_amounts)). simpl in *. lia. }
  assert (weight (st_venue <$> settled) ≤ weight (settled ≫= λ x, fc_amount <$> st_lines x)) as Hv.
  { apply weight_bind. intros x Hx. rewrite Forall_forall in HW, Hk. apply settled_weight; auto. }
  split; [|done]. eapply gathered_feeless; try done; [congruence| |rewrite F1, F2, !weight_app; lia|congruence|congruence].
  rewrite U2, U1, (ga_funding _ _ _ Hb), F1, zsum_app. rewrite !fold_add_exact; [lia|lia|].
  pose proof (zsum_weight (fc_amount <$> (option_list r ≫= rv_lines))). rewrite fold_add_exact by lia. lia.
Qed.

(** And the replay of those records, the same. *)
Lemma rebuilt_funding G v b2 w3 at_ settled r t all S : rebuilt G (lv_journal v) v t → ids_are (t_funding t) all → settled_are (t_funding t) S →
  NoDup (fc_id <$> ((all ++ (settled ≫= st_lines)) ++ (option_list r ≫= rv_lines))) → NoDup (S ++ (st_at <$> settled)) →
  Forall settled_ok settled → Forall (λ x, weight (fc_amount <$> st_lines x) ≤ I64_MAX) settled →
  match r with Some r => recovered_ok r ∧ rv_through r = millis at_ | None => True end → follows (lv_books v) b2 →
  ∃ t', rebuilt G (lv_journal v ++ funding_records at_ settled r) (mkLive b2 w3 (lv_told v) (lv_journal v ++ funding_records at_ settled r)) t' ∧
    ids_are (t_funding t') ((all ++ (settled ≫= st_lines)) ++ (option_list r ≫= rv_lines)) ∧
    settled_are (t_funding t') (S ++ (st_at <$> settled)) ∧ ft_state (t_funding t') = ft_state (t_funding t).
Proof.
  intros R1 R2 R3 Hd Hn Hk HW Hr Hf. pose proof Hd as Hd1. rewrite fmap_app in Hd1. apply NoDup_app in Hd1 as [Hd1 _].
  destruct (rebuilt_settlements G v at_ settled _ t all S R1 R2 R3 Hd1 Hn Hk HW) as (t1 & B1 & I1 & S1 & T1).
  unfold funding_records. rewrite (app_assoc (lv_journal v)). destruct r as [r|]; simpl in *.
  - rewrite app_nil_r in Hd |- *. destruct Hr as [Hr Ht].
    destruct (rebuilt_recovered G _ v t1 at_ r _ B1 I1 Hd Hr Ht) as (t2 & B2 & I2 & S2 & T2).
    exists t2. split; [eapply rebuilt_unwritten; [exact B2|done]|]. split; [done|]. split; [|congruence]. unfold settled_are in *. by rewrite S2.
  - rewrite !app_nil_r in *. exists t1. split; [by eapply rebuilt_unwritten; [exact B1|]|done].
Qed.

Lemma answer_steps g v at_ o settled lines r w2 w3 b1 b2 : live_ok g v at_ o →
  all_resolved (lv_watch v) w2 (pending (lv_watch v)) settled (pending w2) (lines_of o) →
  kept w2 (millis at_) (outcomes o (mkOutcome settled [] [])) →
  FundingWatch.recover_unknown w2 lines (millis at_) = (r, w3) →
  Live.charge_each (lv_books v) at_ (fc_amount <$> (option_list r ≫= rv_lines)) = Ret b1 →
  Live.charge_each b1 at_ (st_venue <$> settled) = Ret b2 →
  in_range (lv_journal v ++ funding_records at_ settled r) →
  steps g v at_ o (mkLive b2 w3 (lv_told v) (lv_journal v ++ funding_records at_ settled r)) at_.
Proof.
  intros [Hb Hw [G1 G2 G3]] [A1 A2 A3 A4 A5 A6 A7] Hk2 Er H1 H2 Hr.
  destruct (gathered_funding g v at_ settled r b1 b2 Hb A7 H1 H2 Hr) as (Hb' & Hf & HW).
  destruct (recovers _ _ _ _ _ _ A1 Er) as ([Hd _] & C2 & C3 & C4 & C5).
  assert (ask w2 (ARecover (millis at_) lines) = Ret (mkOutcome [] (option_list r) [], w3)) as Ea by (simpl; by rewrite Er).
  pose proof (ask_kept w2 (millis at_) (ARecover (millis at_) lines) _ _ _ Hk2 (Z.le_refl _) Ea) as Hk3. simpl in Hk3.
  eexists g, _. split; [split; [exact Hb'|exact Hk3|]|].
  { cbn [lv_watch]. split; rewrite C4, A3; [done..|]. by rewrite C3, A2. }
  intros G t [R1 R2 R3 R4 R5].
  assert (NoDup (answered o ++ (st_at <$> settled))) as Hn.
  { pose proof (kp_none_lost _ _ _ Hk2) as Hp. pose proof (sorted_lt_NoDup _ (sc_sorted _ _ _ (kp_schedule _ _ _ Hk2))) as Hs.
    rewrite Hp in Hs. apply NoDup_app in Hs as [Hs _]. unfold answered. by rewrite <-fmap_app. }
  destruct (rebuilt_funding G v b2 w3 at_ settled r t _ _ R1 R2 R3 Hd Hn A7 HW) as (t' & B & I & S' & T); [|done|].
  { destruct r as [r|]; [|done]. destruct C5 as (? & ? & C5). split; [|done]. split; [lia|]. eapply Forall_impl; [exact C5|].
    intros l [? _]. lia. }
  exists t'. split; [exact B| | | |].
  - intros id. rewrite (I id), lines_of_outcomes, (lines_of_outcomes o). unfold lines_of at 3 4; simpl. by rewrite app_nil_r.
  - intros p. rewrite (S' p). unfold answered. simpl. by rewrite app_nil_r, fmap_app.
  - by rewrite T.
  - rewrite T. destruct (ft_state (t_funding t)) as [[a x]|]; [|done]. destruct R5 as [R5 R6]. split; [done|].
    assert (answered (outcomes (outcomes o (mkOutcome settled [] [])) (mkOutcome [] (option_list r) [])) = answered o ++ (st_at <$> settled)) as ->
      by (unfold answered; simpl; by rewrite app_nil_r, fmap_app).
    eapply told_later; [exact R6| | | |].
    + intros p Hp. unfold FundingWatch.unresolved in *. cbn [lv_watch]. rewrite C2. rewrite A5 in Hp. apply elem_of_app in Hp as [Hp|Hp]; [right|by left].
      apply elem_of_app. by right.
    + intros p Hp. apply elem_of_app. by left.
    + cbn [lv_watch]. rewrite C4, A3. apply extends_refl.
    + cbn [lv_watch]. intros Hq. by apply A4, (recover_problem _ _ _ _ _ Er).
Qed.

Lemma fund_steps g v clock o at_ schedule lines rates v' : live_ok g v clock o → clock ≤ at_ → i64 at_ →
  Live.on_funding v at_ schedule lines rates = Ret v' → in_range (lv_journal v') → steps g v clock o v' at_.
Proof.
  intros Hl Hc Hi H Hr. unfold Live.on_funding in H. apply bind_ret in H as ([[settled r] v2] & H & [= <-]).
  unfold Live.poll_funding in H.
  set (w1 := if FundingWatch.needs_schedule (lv_watch v) then _ else lv_watch v) in H. cbv zeta in H.
  apply (steps_trans _ _ _ _ (Live.set_watch v w1) at_).
  { unfold w1. destruct (FundingWatch.needs_schedule (lv_watch v)); [by apply rediscover_steps|].
    replace (Live.set_watch v (lv_watch v)) with v by by destruct v. by apply wait_steps. }
  intros g1 o1 Hl1.
  assert (∀ v2', Live.write (Live.write v2 (Recorder.record_funding at_ <$> settled)) (Recorder.record_recovered_funding at_ <$> option_list r) = v2' →
    in_range (lv_journal v2')) as Hr2.
  { intros v2' <-. unfold Live.tell in Hr. destruct (Recorder.record_funding_state _ _ _) as [rs told]. by apply in_range_prefix in Hr. }
  apply (steps_trans _ _ _ _ (Live.write (Live.write v2 (Recorder.record_funding at_ <$> settled)) (Recorder.record_recovered_funding at_ <$> option_list r)) at_);
    [|intros g2 o2 Hl2; by apply tell_steps].
  specialize (Hr2 _ eq_refl). unfold Live.write in *. cbn [lv_books lv_watch lv_told lv_journal] in Hr2 |- *. rewrite <-app_assoc in Hr2. rewrite <-app_assoc.
  fold (funding_records at_ settled r) in Hr2 |- *.
  assert (v2 = Live.set_watch v w1 → settled = [] → r = None → steps g1 (Live.set_watch v w1) at_ o1
    (mkLive (lv_books v2) (lv_watch v2) (lv_told v2) (lv_journal v2 ++ funding_records at_ settled r)) at_) as Hquiet.
  { intros -> -> ->. eapply (steps_books _ _ _ _ _ []); [exact Hl1|done..|exists g1; cbn; rewrite app_nil_r; apply Hl1|].
    intros G t Ht. exists t. split; [|done]. cbn. rewrite app_nil_r. eapply rebuilt_unwritten; [exact Ht|]. apply follows_refl, Hl1. }
  destruct (FundingWatch.asking_since w1) as [since|]; [|injection H as <- <- <-; by apply Hquiet].
  destruct lines as [lines|]; [|injection H as <- <- <-; by apply Hquiet]. clear Hquiet.
  apply bind_ret in H as ([settled2 w2] & Hw2 & H). destruct (FundingWatch.recover_unknown w2 lines (millis at_)) as [r2 w3] eqn:Er.
  apply bind_ret in H as (b1 & H1 & H). apply bind_ret in H as (b2 & H2 & [= <- <- <-]).
  pose proof Hl1 as [Hb1 Hw1 Hg1]. cbn [Live.set_watch lv_watch] in Hw1.
  assert (all_resolved w1 w2 (pending w1) settled2 (pending w2) (lines_of o1) ∧ kept w2 (millis at_) (outcomes o1 (mkOutcome settled2 [] []))) as [A K].
  { assert (settled2 = [] → w2 = w1 → all_resolved w1 w2 (pending w1) settled2 (pending w2) (lines_of o1) ∧ kept w2 (millis at_) (outcomes o1 (mkOutcome settled2 [] []))) as Hnone.
    { intros -> ->. split; [|fold nothing; by rewrite (outcomes_nothing o1)]. split; try done. simpl. rewrite app_nil_r. apply Hw1. }
    destruct rates as [rates|]; [|injection Hw2 as <- <-; by apply Hnone].
    destruct (FundingWatch.waiting w1); [|injection Hw2 as <- <-; by apply Hnone]. clear Hnone. split.
    - eapply resolves; [apply Hw1|exact Hw2].
    - assert (ask w1 (AResolve (millis at_) rates lines) = Ret (mkOutcome settled2 [] [], w2)) as Ea by (cbn [ask]; by rewrite Hw2).
      exact (ask_kept w1 (millis at_) (AResolve (millis at_) rates lines) _ _ _ Hw1 (Z.le_refl _) Ea). }
  eapply (answer_steps g1 (Live.set_watch v w1)); [exact Hl1|exact A|exact K|exact Er|exact H1|exact H2|exact Hr2].
Qed.

(** * The whole run *)

(** What happens is in order: the clock does not run back, notes are notes, and
    a fill of the account stream is of the instrument, for something. *)
Definition proper (clock : Nanos) (h : Happening) : bool :=
  match h with
  | HFill f _ _ => (f_instrument f =? 1) && (0 <? f_qty f) && (0 <? f_price f) && bool_decide (u64 (f_trade f))
  | HClock at_ _ _ | HFunding at_ _ _ _ => (clock <=? at_) && bool_decide (i64 at_)
  | HNote r => is_note r
  | _ => true
  end.
Definition clock_after (clock : Nanos) (h : Happening) : Nanos :=
  match h with HClock at_ _ _ | HFunding at_ _ _ _ => at_ | _ => clock end.
Fixpoint proper_all (clock : Nanos) (hs : list Happening) : bool :=
  match hs with [] => true | h :: hs => proper clock h && proper_all (clock_after clock h) hs end.

Lemma happen_steps g v clock o h v' : live_ok g v clock o → proper clock h = true → Live.happen v h = Ret v' →
  in_range (lv_journal v') → steps g v clock o v' (clock_after clock h).
Proof.
  intros Hl Hp H Hr. destruct h; simpl in Hp, H |- *; repeat match goal with Hx : _ && _ = true |- _ => apply andb_true_iff in Hx as [? Hx] end.
  - apply bind_ret in H as ([out b] & H & [= <-]). by eapply history_steps.
  - apply bind_ret in H as ([out b] & H & [= <-]). by eapply tick_steps.
  - apply bind_ret in H as (b & H & [= <-]). by eapply submit_steps.
  - apply bool_decide_eq_true in Hp. rewrite ?Z.eqb_eq, ?Z.ltb_lt, ?Z.leb_le in *. apply (fill_steps g v clock o f fee client_id v' Hl); try done; lia.
  - by eapply fees_steps.
  - apply bool_decide_eq_true in Hp. rewrite ?Z.eqb_eq, ?Z.ltb_lt, ?Z.leb_le in *. by eapply clock_steps.
  - apply bool_decide_eq_true in Hp. rewrite ?Z.eqb_eq, ?Z.ltb_lt, ?Z.leb_le in *. by eapply fund_steps.
  - injection H as <-. by apply note_steps.
Qed.

Lemma recover_each_journal v at_ rows v' : Live.poll_fees v at_ rows = Ret v' → ∃ rs, lv_journal v' = lv_journal v ++ rs.
Proof.
  unfold Live.poll_fees. destruct rows as [rows|]; [|intros [= <-]; exists []; by rewrite app_nil_r].
  case_bool_decide; [intros [= <-]; exists []; by rewrite app_nil_r|].
  destruct (FeeHistory.bind _ _ _); [|intros [= <-]; exists []; by rewrite app_nil_r].
  intros ([es b] & _ & [= <-])%bind_ret. by eexists.
Qed.
Lemma tell_journal v at_ : ∃ rs, lv_journal (Live.tell v at_) = lv_journal v ++ rs.
Proof. unfold Live.tell. destruct (Recorder.record_funding_state _ _ _). by eexists. Qed.
Lemma poll_funding_journal v at_ schedule lines rates a r v' :
  Live.poll_funding v at_ schedule lines rates = Ret (a, r, v') → lv_journal v' = lv_journal v.
Proof.
  unfold Live.poll_funding. destruct (FundingWatch.asking_since _); [|by intros [= _ _ <-]]. destruct lines; [|by intros [= _ _ <-]].
  intros ([st w2] & _ & H)%bind_ret. destruct (FundingWatch.recover_unknown _ _ _).
  by apply bind_ret in H as (? & _ & (? & _ & [= _ _ <-])%bind_ret).
Qed.
(** The journal only grows. *)
Lemma happen_journal v h v' : Live.happen v h = Ret v' → ∃ rs, lv_journal v' = lv_journal v ++ rs.
Proof.
  destruct h; simpl; intros H.
  - apply bind_ret in H as ([? ?] & _ & [= <-]). exists []. by rewrite app_nil_r.
  - apply bind_ret in H as ([? ?] & _ & [= <-]). by eexists.
  - apply bind_ret in H as (? & _ & [= <-]). exists []. by rewrite app_nil_r.
  - unfold Live.book_fill in H. apply bind_ret in H as ([a b] & _ & [= <-]).
    destruct a; [by eexists|exists []; by rewrite app_nil_r..].
  - by eapply recover_each_journal.
  - unfold Live.on_clock in H. apply bind_ret in H as (legs & _ & [= <-]). exact (tell_journal (Live.set_watch v _) at_).
  - unfold Live.on_funding in H. apply bind_ret in H as ([[st r] v2] & H & [= <-]). apply poll_funding_journal in H as <-.
    destruct (tell_journal (Live.write (Live.write v2 (Recorder.record_funding at_ <$> st)) (Recorder.record_recovered_funding at_ <$> option_list r)) at_) as [rs ->].
    cbn [Live.write lv_journal]. rewrite <-!app_assoc. by eexists.
  - injection H as <-. by eexists.
Qed.
Lemma happen_all_journal hs : ∀ v v', Live.happen_all v hs = Ret v' → ∃ rs, lv_journal v' = lv_journal v ++ rs.
Proof.
  induction hs as [|h hs IH]; intros v v' H; simpl in H; [injection H as <-; exists []; by rewrite app_nil_r|].
  apply bind_ret in H as (v1 & H1 & H2). destruct (happen_journal _ _ _ H1) as [rs1 E1]. destruct (IH _ _ H2) as [rs2 E2].
  exists (rs1 ++ rs2). by rewrite E2, E1, app_assoc.
Qed.

Lemma happen_all_steps hs : ∀ g v clock o v', live_ok g v clock o → proper_all clock hs = true → Live.happen_all v hs = Ret v' →
  in_range (lv_journal v') → ∃ clock', steps g v clock o v' clock'.
Proof.
  induction hs as [|h hs IH]; intros g v clock o v' Hl Hp H Hr; simpl in Hp, H.
  { injection H as <-. exists clock. apply wait_steps; [done|lia]. }
  apply andb_true_iff in Hp as [Hp1 Hp2]. apply bind_ret in H as (v1 & H1 & H2).
  assert (in_range (lv_journal v1)) as Hr1 by (destruct (happen_all_journal _ _ _ H2) as [rs E]; rewrite E in Hr; by apply in_range_prefix in Hr).
  pose proof (happen_steps g v clock o h v1 Hl Hp1 H1 Hr1) as (g1 & o1 & Hl1 & R1).
  destruct (IH g1 v1 _ o1 v' Hl1 Hp2 H2 Hr) as (clock' & g2 & o2 & Hl2 & R2).
  exists clock', g2, o2. split; [done|]. intros G t HR. destruct (R1 G t HR) as [t1 HR1]. exact (R2 G t1 HR1).
Qed.

(** Once told, the statement is the watch's own. *)
Definition current v : Prop := lv_told v = None ∨ lv_told v = Some (FundingWatch.obligations (lv_watch v)).
Lemma tell_current v at_ : lv_told (Live.tell v at_) = Some (FundingWatch.obligations (lv_watch (Live.tell v at_))).
Proof. unfold Live.tell, Recorder.record_funding_state. by case_bool_decide. Qed.
Lemma happen_current v h v' : current v → Live.happen v h = Ret v' → current v'.
Proof.
  intros Hc H. destruct h; simpl in H.
  - by apply bind_ret in H as ([? ?] & _ & [= <-]).
  - by apply bind_ret in H as ([? ?] & _ & [= <-]).
  - by apply bind_ret in H as (? & _ & [= <-]).
  - unfold Live.book_fill in H. apply bind_ret in H as ([a b] & _ & [= <-]). by destruct a.
  - unfold Live.poll_fees in H. destruct rows; [|by injection H as <-]. case_bool_decide; [by injection H as <-|].
    destruct (FeeHistory.bind _ _ _); [|by injection H as <-]. by apply bind_ret in H as ([es b] & _ & [= <-]).
  - unfold Live.on_clock in H. apply bind_ret in H as (? & _ & [= <-]). right. apply tell_current.
  - unfold Live.on_funding in H. apply bind_ret in H as ([[? ?] ?] & _ & [= <-]). right. apply tell_current.
  - by injection H as <-.
Qed.
Lemma happen_all_current hs : ∀ v v', current v → Live.happen_all v hs = Ret v' → current v'.
Proof.
  induction hs as [|h hs IH]; intros v v' Hc H; simpl in H; [by injection H as <-|].
  apply bind_ret in H as (v1 & H1 & H2). eapply IH; [|exact H2]. by eapply happen_current.
Qed.
End replay.

(** * The beginning *)

Section start.
Context {M : Type} `{!MatcherOps M}.
Implicit Types (b : Books M) (v : Live M) (t : Tally M).

Lemma adopted_side symbol l : 0 ≤ l.1.2 ≤ I64_MAX →
  Ledger.leg_side (adopted_leg symbol l) = l.1.1 ∧ i64_saturating_abs (adopted_leg symbol l).1.2 = l.1.2 ∧
  (adopted_leg symbol l).2 = l.2 ∧ (adopted_leg symbol l).1.1.1 = symbol.
Proof.
  destruct l as [[[] lots] entry]; simpl; intros Hl; unfold Ledger.leg_side, adopted_leg, i64_saturating_abs; simpl.
  - change (eq_ignore_ascii_case LONG SHORT) with false. rewrite (proj2 (Z.ltb_ge _ _)) by lia. split; [done|]. split; [|done].
    mlia.
  - change (eq_ignore_ascii_case SHORT SHORT) with true. split; [done|]. split; [|done]. mlia.
Qed.

Record adopted b b' b1 b1' : Prop := {
  ad_follows : follows b1 b1';
  ad_paid : paid b = 0 → paid b1 = 0;
  ad_paid' : paid b' = 0 → paid b1' = 0;
  ad_funding : charged_funding b1 = charged_funding b ∧ charged_funding b1' = charged_funding b';
  ad_unpriced : unpriced_fills b1 = unpriced_fills b;
  ad_recovered : recovered_fees b1 = recovered_fees b;
  ad_instrument : bk_instrument b1 = bk_instrument b;
  ad_seen : bk_seen b1 = bk_seen b;
  ad_booked : bk_booked b1 = bk_booked b;
}.
Lemma adoptions symbol at_ legs : ∀ b b' b1, follows b b' → Forall (λ l, 0 ≤ l.1.1.2 ≤ I64_MAX) legs → Live.adopt_each b legs = Ret b1 →
  ∃ b1', Ledger.adopt_legs b' symbol at_ (adopted_legs symbol (fst <$> legs)) = Ret (Ok b1') ∧ adopted b b' b1 b1'.
Proof.
  induction legs as [|[[[side lots] entry] when] legs IH]; intros b b' b1 Hf HF H; simpl in H.
  { injection H as <-. exists b'. by split. }
  apply Forall_cons in HF as [Hl HF]. apply bind_ret in H as (b2 & H1 & H2).
  destruct (adopt_follows b b' side lots entry when at_ b2 Hf H1) as (b2' & E & F & P & P' & U & U' & O & R & I & S & N).
  destruct (IH b2 b2' b1 F HF H2) as (b1' & E' & [? ? ? [? ?] ? ? ? ? ?]). exists b1'. split; [|split; [done|auto|auto|..]; try split; congruence].
  destruct (adopted_side symbol (side, lots, entry) Hl) as (A1 & A2 & A3 & A4).
  change (adopted_legs symbol (fst <$> (side, lots, entry, when) :: legs)) with (adopted_leg symbol (side, lots, entry) :: adopted_legs symbol (fst <$> legs)).
  cbn [Ledger.adopt_legs]. rewrite A1, A2, A3, A4, bool_decide_true by done. cbn [negb].
  rewrite (ok_bind _ _ _ (unless_false _)). cbv beta. by rewrite (ok_bind _ _ _ (lift_ok _ _ E)).
Qed.

(** The first two records open the replayed books. *)
Definition opened (b : Books M) balance md (held : bool) : Tally M := mkTally (Some b) 1 balance md 0 0 held (mkFunding ∅ ∅ 0 None).
Lemma ledger_starts i c table balance md : contract_of i = Some c → TierTable.example_btcusdt = Ret table →
  Ledger.start_ledger Ledger.nothing_yet (price_scale i) (qty_scale i) 1 i (c_tick_cash c) balance md =
    Ret (Ok (opened (Books.new 1 c table balance md) balance md false)).
Proof.
  intros Hc Ht. unfold Ledger.start_ledger. rewrite Hc, (bool_decide_true (_ = _)), !Z.eqb_refl by done. cbn [negb orb].
  rewrite (bool_decide_false (is_Some (t_books (Ledger.nothing_yet : Tally M)))) by (by intros [? ?]).
  cbn [unless mret attempt_ret mbind attempt_bind run_bind]. unfold lift. rewrite Ht. by destruct c.
Qed.
Lemma ledger_adopts b b' balance md symbol at_ ls : Ledger.adopt_legs b symbol at_ ls = Ret (Ok b') →
  Ledger.adopt_all (opened b balance md false) symbol at_ ls = Ret (Ok (opened b' balance md true)).
Proof.
  intros H. unfold Ledger.adopt_all. cbn [opened t_books t_executions t_adopted ok_or Nat.eqb negb mret attempt_ret mbind attempt_bind run_bind unless].
  by rewrite H.
Qed.

Lemma start_steps symbol i c balance md legs at_ next v : contract_of i = Some c → Forall (λ l, 0 ≤ l.1.1.2 ≤ I64_MAX) legs →
  Live.start symbol i c balance md legs at_ next = Ret v → live_ok ∅ v at_ nothing ∧ current v ∧
  ∀ G, ∃ t, replayed symbol (price_scale i) (qty_scale i) balance md G v t at_ nothing.
Proof.
  intros Hc HF H. unfold Live.start in H. apply bind_ret in H as (table & Ht & (b & H & [= <-])%bind_ret).
  destruct (new_led (M := M) 1 c table balance md) as (Hl & P0 & U0).
  destruct (adoptions symbol at_ legs _ _ b (follows_refl _ Hl) HF H) as (b' & E & [F P P' [U U'] O R I S N]).
  assert (led b) as Hb by apply F. split; [|split; [by left|]].
  - split; [split|apply new_kept|].
    all: cbn [lv_books lv_watch lv_journal]; rewrite ?O, ?R, ?I, ?S, ?N, ?U; try done.
    + by apply P.
    + apply NoDup_nil_2.
    + exists ∅, 0. split; [apply fresh_tracks|]. intros e He. by apply not_elem_of_nil in He.
    + unfold FundingWatch.new. destruct next as [[]|]; (split; simpl; [constructor|constructor|]); auto.
  - intros G. eexists. split; [split| | | |]; cbn [lv_books lv_journal lv_told].
    + cbn [Ledger.replay_from Ledger.replay_step Recorder.record_ledger_start]. rewrite (ok_bind _ _ _ (ledger_starts i c table balance md Hc Ht)).
      cbv beta. rewrite (ok_bind _ _ _ (ledger_adopts _ _ balance md symbol at_ _ E)). reflexivity.
    + exists b'. split; [done|]. split; [done|]. split; [by apply P'|]. by rewrite U'.
    + done.
    + done.
    + done.
    + intros id. simpl. unfold lines_of; simpl. rewrite elem_of_empty. split; [done|]. apply not_elem_of_nil.
    + intros id. simpl. rewrite elem_of_empty. split; [done|]. apply not_elem_of_nil.
    + done.
    + done.
Qed.
End start.

(** * The end *)

Section report.
Context {M : Type} `{!MatcherOps M}.
Implicit Types (b : Books M) (v : Live M) (t : Tally M).

(** What the books of a run say of its positions. *)
Definition legs_of (md : PositionMode) (cx : Context) : list (string * QtyLots * PriceTicks) :=
  if bool_decide (md = Hedge)
  then [("LONG"%string, cx_position cx, cx_entry cx); ("SHORT"%string, cx_short_position cx, cx_short_entry cx)]
  else [("NET"%string, cx_position cx, cx_entry cx)].

(** The ledger's report agrees with the run it was read from. *)
Record agrees balance md v (rep : LedgerReport) : Prop := {
  ag_money : Books.realized_parts (lv_books v) = (lr_realized rep, lr_fees rep, lr_funding rep);
  ag_starting : lr_starting rep = balance;
  ag_recorded : lr_recorded rep = Cash.add (Cash.sub (Cash.add balance (lr_realized rep)) (lr_fees rep)) (lr_funding rep);
  ag_legs : ∃ cx, Books.context (lv_books v) Ledger.no_tick 0 = Ret cx ∧ lr_legs rep = legs_of md cx;
  ag_executions : Z.of_nat (lr_executions rep) = bk_booked (lv_books v);
  ag_missing : lr_missing rep = length (unpriced_fills (lv_books v));
  ag_recovered : lr_recovered rep = length (recovered_fees (lv_books v));
  ag_owed : lr_obligations rep = lv_told v;
}.

Lemma filter_keeps (P : Z → bool) (l : list Z) : (∀ x, x ∈ l → P x = true) → List.filter P l = l.
Proof. intros H. apply forallb_filter_id, forallb_forall. intros x Hx%list_elem_of_In. by apply H. Qed.

Lemma owed_told symbol ps qs balance md G v t clock o : replayed symbol ps qs balance md G v t clock o →
  current v → kept (lv_watch v) (millis clock) o → Ledger.still_owed (t_funding t) = lv_told v.
Proof.
  intros [_ _ R3 R4 _] Hc Hk. unfold Ledger.still_owed. destruct Hc as [Hc|Hc]; rewrite Hc in *;
    destruct (ft_state (t_funding t)) as [[a x]|]; try done. simpl in *. injection R4 as <-. f_equal. cbn [pending_ms FundingWatch.obligations].
  unfold FundingWatch.obligations at 3. f_equal. apply filter_keeps. intros p Hp.
  pose proof (sorted_lt_NoDup _ (sc_sorted _ _ _ (kp_schedule _ _ _ Hk))) as Hn. rewrite (kp_none_lost _ _ _ Hk) in Hn.
  apply NoDup_app in Hn as (_ & Hn & _). apply negb_true_iff, bool_decide_eq_false. intros Hs%R3. by apply (Hn p).
Qed.

Lemma report_agrees symbol ps qs balance md g v t clock o : live_ok g v clock o → current v → in_range (lv_journal v) →
  replayed symbol ps qs balance md g v t clock o → ∃ rep, Ledger.report symbol g t = Ret (Ok rep) ∧ agrees balance md v rep.
Proof.
  intros [[Hss Hg Hl Hi Hp Hf Hw Hfw Hd Ho Hz Ht Hwd Hwi Hct] Hk _] Hc [W1 W2] HR.
  pose proof HR as [[_ (b' & Hb & F & P & U) (_ & S2 & S3 & S4) E1 E2] _ _ _ _].
  destruct (parts_follow _ _ F) as (r & Q1 & Q2). destruct (context_follows _ _ Ledger.no_tick 0 F) as (cx & cx' & C1 & C2 & C3 & C4 & C5 & C6).
  rewrite fold_add_exact in P by (simpl; lia). rewrite fold_add_exact in U by (simpl; lia).
  rewrite P, U, !Z.add_0_l, <-Hp, <-Hf in Q2.
  unfold Ledger.report. rewrite Hb, S4. cbn [ok_or negb mret attempt_ret mbind attempt_bind run_bind unless]. rewrite Q2.
  unfold lift. rewrite C2. cbn [mbind attempt_bind run_bind]. eexists. split; [reflexivity|].
  rewrite S2, S3, E1, E2, Hz, <-Ho. split; cbn [lr_realized lr_fees lr_funding lr_starting lr_recorded lr_legs lr_executions lr_missing lr_recovered lr_obligations]; try done.
  - exists cx. split; [done|]. unfold legs_of. by rewrite C3, C4, C5, C6.
  - by eapply owed_told.
Qed.
End report.

(** C6. The journal is the account.  Whatever a live session goes through from
    the moment it takes over the venue's positions - ticks, orders, account
    stream fills with or without a readable commission, commissions read back
    later, settlements crossed, answered, missed and recovered - replaying the
    journal it wrote gives back the account it ended with: the realized profit,
    the commissions, the funding, the positions and their entries, how many
    executions were booked, how many of them still lack a commission and how
    many had it recovered, and the funding still owed.  The amounts of the
    journal must fit the accounts' 64 bits, and the clock may not run back. *)
Theorem replay_is_the_live_account {M} `{!MatcherOps M} symbol i c balance md legs at_ next prefix hs (v v' : Live M)
    (Hc : contract_of i = Some c) (Hl : Forall (λ l, 0 ≤ l.1.1.2 ≤ I64_MAX) legs)
    (H0 : Live.start symbol i c balance md legs at_ next = Ret v) (H : Live.happen_all v hs = Ret v')
    (Hp : proper_all at_ hs = true) (Hr : in_range (lv_journal v')) :
  ∃ rep, Ledger.replay_records (M := M) (RecSessionStart prefix symbol (price_scale i) (qty_scale i) :: lv_journal v') = Ret (Ok rep) ∧
    agrees balance md v' rep.
Proof.
  destruct (start_steps _ _ _ _ _ _ _ _ _ Hc Hl H0) as (L0 & C0 & R0).
  destruct (happen_all_steps symbol (price_scale i) (qty_scale i) balance md hs ∅ v at_ nothing v' L0 Hp H Hr) as (clock & g & o & L & R).
  destruct (R0 g) as [t0 Ht0]. destruct (R g t0 Ht0) as [t Ht].
  destruct (report_agrees _ _ _ _ _ _ _ _ _ _ L (happen_all_current _ _ _ C0 H) Hr Ht) as (rep & E & A). exists rep. split; [|exact A].
  pose proof L as [[Hss Hg _ _ _ _ _ _ _ _ _ _ _ _ _] _ _]. pose proof Ht as [[Hrun _ _ _ _] _ _ _ _].
  unfold Ledger.replay_records. cbn [Ledger.last_session]. rewrite Hss. cbn [ok_or mret attempt_ret mbind attempt_bind run_bind].
  rewrite Hg. cbn [mbind attempt_bind run_bind]. rewrite Hrun. exact E.
Qed.

Module DemoRun.
Definition symbol : text := text_of "BTCUSDT".
Definition instrument : Instrument := linear 1 3.
Definition contract : Contract := mkContract (match contract_of instrument with Some c => c_tick_cash c | None => 0 end).
Definition ms (t : Z) : Nanos := t * 1000000.
Definition tick (t p : Z) : Tick := mkTick (mkStamp (ms t) (ms t)) p p p p (p + 1) 5.
Definition fill (t id : Z) (side : Side) (p q : Z) : Fill := mkFill (mkStamp (ms t) (ms t)) 1 id id side Open p q Taker.
(** A short taken over; a fill priced, one whose commission comes later, and one
    reported twice; a settlement answered from its page, and one missed, whose
    charge is recovered. *)
Definition happenings : list Happening :=
  [HHistory (tick 10 500000); HTick (tick 20 500010);
   HSubmit 7 Buy 3 Open (ms 25);
   HFill (fill 30 71 Buy 500020 3) (Reported 1500) (text_of "a");
   HFill (fill 31 72 Buy 500030 1) Unreadable (text_of "b");
   HFill (fill 31 72 Buy 500030 1) Unreadable (text_of "b");
   HNote (RecCancelled (ms 32) (text_of "a"));
   HFees (ms 40) (Some [mkExecutionFee 72 Buy 31 700]);
   HClock (ms 1000) (1, 0) (Some 200000);
   HFunding (ms 61000) (Ok None) (Some [mkCharge 1002 500000 9]) (Some [mkRate 1002 (text_of "0.0001") (text_of "50000.0")]);
   HClock (ms 200000) (1, 0) None;
   HFunding (ms 500000) (Ok (Some 900000)) (Some [mkCharge 1002 500000 9; mkCharge 400000 77 10]) None].
End DemoRun.

Lemma replay_is_the_live_account_witness : ∃ v v' : Live Matcher,
    Live.start DemoRun.symbol DemoRun.instrument DemoRun.contract 1000000000000 OneWay [(Sell, 5, 499000, DemoRun.ms 5)] (DemoRun.ms 6) (Ok (Some 1000)) = Ret v ∧
    Live.happen_all v DemoRun.happenings = Ret v' ∧
  length (lv_journal v') = 13%nat ∧ bk_booked (lv_books v') = 2 ∧
  ∃ rep, Ledger.replay_records (M := Matcher) (RecSessionStart (text_of "oq") DemoRun.symbol (price_scale DemoRun.instrument) (qty_scale DemoRun.instrument) :: lv_journal v') = Ret (Ok rep) ∧
    agrees 1000000000000 OneWay v' rep.
Proof.
  assert (∃ v v' : Live Matcher,
    Live.start DemoRun.symbol DemoRun.instrument DemoRun.contract 1000000000000 OneWay [(Sell, 5, 499000, DemoRun.ms 5)] (DemoRun.ms 6) (Ok (Some 1000)) = Ret v ∧
    Live.happen_all v DemoRun.happenings = Ret v' ∧
    length (lv_journal v') = 13%nat ∧ bk_booked (lv_books v') = 2 ∧ in_range (lv_journal v')) as (v & v' & E0 & E & E1 & E2 & E3).
  { eexists _, _. split; [vm_compute; reflexivity|]. split; [vm_compute; reflexivity|]. split; [vm_compute; reflexivity|].
    split; [vm_compute; reflexivity|]. split; vm_compute; by intros ?. }
  exists v, v'. split; [exact E0|]. split; [exact E|]. split; [exact E1|]. split; [exact E2|].
  apply (replay_is_the_live_account DemoRun.symbol DemoRun.instrument DemoRun.contract 1000000000000 OneWay
    [(Sell, 5, 499000, DemoRun.ms 5)] (DemoRun.ms 6) (Ok (Some 1000)) (text_of "oq") DemoRun.happenings v v').
  - reflexivity.
  - constructor; [split; by vm_compute|constructor].
  - exact E0.
  - exact E.
  - vm_compute. reflexivity.
  - exact E3.
Defined.
