(* ===== verification/Ledger.v ===== *)
(** The abstract ledger of an account, and the proof that the kernel keeps
    it: every event is a list of movements, each booked twice. *)

From S2P Require Import Prelude Slices SortedVec Types Order Currency Margin Liquidation Funding.
From S2P Require Import Tick RestingBook L0 Depth Matcher Cost Event Kernel.

(** * The specification *)

Inductive Movement :=
| MPnl (c : Cash)       (** a position realizes a profit or a loss *)
| MFee (c : Cash)
| MRecovered (c : Cash) (** a fee that was unreadable when its fill was booked *)
| MFunding (c : Cash)
| MDeposit (c : Cash)
| MForfeit.             (** the venue takes whatever is left *)

Record Books := mkBooks {
  b_balance : Cash; b_realized : Cash; b_funding : Cash; b_fees : Cash; b_forfeited : Cash }.

Definition post (b : Books) (m : Movement) : Books :=
  match m with
  | MPnl c => mkBooks (Cash.add (b_balance b) c) (Cash.add (b_realized b) c) (b_funding b) (b_fees b) (b_forfeited b)
  | MFee c | MRecovered c => mkBooks (Cash.add (b_balance b) (Cash.neg c)) (b_realized b) (b_funding b) (Cash.add (b_fees b) c) (b_forfeited b)
  | MFunding c => mkBooks (Cash.add (b_balance b) c) (b_realized b) (Cash.add (b_funding b) c) (b_fees b) (b_forfeited b)
  | MDeposit c => mkBooks (Cash.add (b_balance b) c) (b_realized b) (b_funding b) (b_fees b) (b_forfeited b)
  | MForfeit => mkBooks (Cash.add (b_balance b) (Cash.neg (b_balance b))) (b_realized b) (b_funding b)
      (b_fees b) (Cash.add (b_forfeited b) (b_balance b))
  end.

Definition post_all (b : Books) (ms : list Movement) : Books := fold_left post ms b.

Lemma post_all_app b ms ns : post_all b (ms ++ ns) = post_all (post_all b ms) ns.
Proof. apply fold_left_app. Qed.

Definition is_trade (m : Movement) : Prop := match m with MFee _ | MPnl _ | MForfeit => True | _ => False end.
Definition is_funding (m : Movement) : Prop := match m with MFunding _ | MPnl _ | MForfeit => True | _ => False end.

(** Which movements an event causes. *)
Definition causes (e : Event) (ms : list Movement) : Prop :=
  match e with
  | ETick _ _ | EVenueFill _ _ => Forall is_trade ms
  | EFunding _ _ _ _ => Forall is_funding ms
  | EFundingCharged _ _ a => ms = [] ∨ ms = [MFunding a]
  | EFeeRecovered _ a _ => ms = [MRecovered a]
  | EMarginDeposit a _ => ms = [MDeposit a]
  | _ => ms = []
  end.

(** What the reports of an event say of its movements. *)
Definition funded (os : list Output) : list Cash :=
  omap (λ o, match o with OFunded c _ => Some c | _ => None end) os.
Definition fills_reported (os : list Output) : nat :=
  length (List.filter (λ o, match o with OFilled _ => true | _ => false end) os).
Definition fundings (ms : list Movement) : list Cash :=
  omap (λ m, match m with MFunding c => Some c | _ => None end) ms.
Definition fee_count (ms : list Movement) : nat :=
  length (List.filter (λ m, match m with MFee _ => true | _ => false end) ms).

Section refine.
Context {M : Type} `{!MatcherOps M}.
Implicit Types (s : State M) (k : Kernel M).

Definition books_of s : Books :=
  mkBooks (State.balance s) (realized s) (funding s) (fees s) (forfeited s).

Definition ledger_ok s : Prop := balances_ok (balances s).

(** One state after another by the movements [ms]. *)
Definition moved s s' (ms : list Movement) : Prop :=
  books_of s' = post_all (books_of s) ms ∧ ledger_ok s' ∧ settlement s' = settlement s ∧
  mode s' = mode s ∧ matching s' = matching s ∧ enforce_liquidation s' = enforce_liquidation s.

Lemma moved_trans s1 s2 s3 ms ns : moved s1 s2 ms → moved s2 s3 ns → moved s1 s3 (ms ++ ns).
Proof.
  unfold moved. intros (E1 & _ & ? & ? & ? & ?) (E2 & ? & ? & ? & ? & ?).
  rewrite post_all_app, <-E1, <-E2. split_and!; try done; congruence.
Qed.

Lemma moved_refl s : ledger_ok s → moved s s [].
Proof. done. Qed.

(** Everything but the books changes nothing of them. *)
Lemma moved_frame s s' : balances s' = balances s → settlement s' = settlement s →
  realized s' = realized s → funding s' = funding s → fees s' = fees s → forfeited s' = forfeited s →
  mode s' = mode s → matching s' = matching s → enforce_liquidation s' = enforce_liquidation s →
  ledger_ok s → moved s s' [].
Proof.
  intros Hb Hs Hr Hfu Hfe Hfo Hm Hma He Hok. unfold moved, books_of, State.balance, ledger_ok.
  rewrite Hb, Hs, Hr, Hfu, Hfe, Hfo, Hm, Hma, He. done.
Qed.

Lemma credit_balance s a : ledger_ok s → i64 a →
  State.balance (State.credit s a) = Cash.add (State.balance s) a ∧ ledger_ok (State.credit s a).
Proof.
  intros Hok Ha. split; [|by apply balances_add_ok]. unfold State.balance, State.credit, State.credit_in; simpl.
  by apply balances_get_add_same.
Qed.

Lemma balance_i64 s : ledger_ok s → i64 (State.balance s).
Proof. intros. by apply balances_get_i64. Qed.

(** The movements, one by one. *)
Lemma moved_pnl s c : ledger_ok s → i64 c → moved s (State.credit (State.add_realized s c) c) [MPnl c].
Proof.
  intros Hok Hc. destruct (credit_balance (State.add_realized s c) c Hok Hc) as [E Ho].
  unfold moved, books_of. rewrite E. done.
Qed.

Lemma moved_fee s c : ledger_ok s → i64 c → moved s (State.credit (State.add_fees s c) (Cash.neg c)) [MFee c].
Proof.
  intros Hok Hc. destruct (credit_balance (State.add_fees s c) (Cash.neg c) Hok ltac:(apply sat64_range)) as [E Ho].
  unfold moved, books_of. rewrite E. done.
Qed.

Lemma moved_recovered s c : ledger_ok s → i64 c → moved s (State.credit (State.add_fees s c) (Cash.neg c)) [MRecovered c].
Proof. apply moved_fee. Qed.

Lemma moved_funding s c : ledger_ok s → i64 c → moved s (State.add_funding (State.credit s c) c) [MFunding c].
Proof.
  intros Hok Hc. destruct (credit_balance s c Hok Hc) as [E Ho].
  unfold moved, books_of. change (State.balance (State.add_funding (State.credit s c) c)) with (State.balance (State.credit s c)).
  rewrite E. done.
Qed.

Lemma moved_deposit s c : ledger_ok s → i64 c → moved s (State.credit s c) [MDeposit c].
Proof.
  intros Hok Hc. destruct (credit_balance s c Hok Hc) as [E Ho]. unfold moved, books_of. rewrite E. done.
Qed.

Lemma moved_forfeit s : ledger_ok s →
  moved s (State.add_forfeited (State.credit s (Cash.neg (State.balance s))) (State.balance s)) [MForfeit].
Proof.
  intros Hok. destruct (credit_balance s (Cash.neg (State.balance s)) Hok ltac:(apply sat64_range)) as [E Ho].
  unfold moved, books_of.
  change (State.balance (State.add_forfeited ?x ?y)) with (State.balance x). rewrite E. done.
Qed.

Lemma moved_put s h x : ledger_ok s → moved s (State.put s h x) [].
Proof. intros. by apply moved_frame. Qed.

Lemma moved_ok s s' ms : moved s s' ms → ledger_ok s'.
Proof. by intros (_ & ? & _). Qed.

(** A frame step followed by a movement. *)
Lemma moved_then s1 s2 s3 ms : moved s1 s2 [] → moved s2 s3 ms → moved s1 s3 ms.
Proof. apply (moved_trans _ _ _ [] ms). Qed.

Lemma close_i64 cost held closing exit v pnl : close cost held closing exit = Ret (v, pnl) → i64 pnl.
Proof.
  unfold close. destruct (_ =? 0); [done|]. intros H. apply bind_ret in H as (r & _ & H).
  apply bind_ret in H as (p & _ & [= _ <-]). apply sat64_range.
Qed.

Lemma close_leg_i64 (h : Holding M) short q p pnl h' : Holding.close_leg h short q p = Ret (pnl, h') → i64 pnl.
Proof.
  unfold Holding.close_leg. destruct (if short then _ else _) as [[held entry] cost].
  destruct (QtyLots.is_zero held); [intros [= <- _]; by vm_compute|].
  intros H. apply bind_ret in H as ([v pn] & Hc%close_i64 & H). apply bind_ret in H as (st & _ & H).
  apply bind_ret in H as (l & _ & [= <- _]). done.
Qed.

Definition is_pnl (m : Movement) : Prop := match m with MPnl _ => True | _ => False end.
Definition is_loss (m : Movement) : Prop := match m with MPnl _ | MForfeit => True | _ => False end.

Lemma apply_fill_moved s f s' : ledger_ok s → State.apply_fill s f = Ret s' →
  ∃ ms, moved s s' ms ∧ Forall is_pnl ms.
Proof.
  intros Hok H. unfold State.apply_fill in H. apply bind_ret in H as (h & _ & H).
  case_bool_decide.
  - unfold State.apply_fill_hedged in H. apply bind_ret in H as (h1 & _ & H).
    apply bind_ret in H as (x & _ & H). destruct (f_offset f).
    + apply bind_ret in H as (y & _ & [= <-]). exists []. split; [by apply moved_put|done].
    + apply bind_ret in H as ([pnl y] & Hp%close_leg_i64 & [= <-]). exists [MPnl pnl].
      split; [|by repeat constructor]. eapply moved_then; [by apply (moved_put s h1 y)|]. by apply moved_pnl.
  - apply bind_ret in H as (signed & _ & H). apply bind_ret in H as (x & _ & H).
    destruct (_ && _).
    + apply bind_ret in H as ([pnl y] & Hp%close_leg_i64 & H). apply bind_ret in H as (rm & _ & H).
      exists [MPnl pnl]. split; [|by repeat constructor].
      assert (moved s (State.credit (State.add_realized (State.put s h y) pnl) pnl) [MPnl pnl]) as Hm
        by (eapply moved_then; [by apply (moved_put s h y)|]; by apply moved_pnl).
      destruct (rm >? 0); [|by injection H as <-]. apply bind_ret in H as (z & _ & [= <-]).
      apply (moved_trans _ _ _ [MPnl pnl] []) with (1 := Hm). apply moved_put. by eapply moved_ok.
    + apply bind_ret in H as (y & _ & [= <-]). exists []. split; [by apply moved_put|done].
Qed.

Lemma unrealized_i64 (x : Holding M) p : i64 (Holding.unrealized_at x p).
Proof. apply sat64_range. Qed.

Lemma liquidate_holding_moved s h p o s' : ledger_ok s → State.liquidate_holding s h p = Ret (o, s') →
  ∃ c, moved s s' [MPnl c] ∧ ∃ a q e f i l sh, o = OLiquidated a p q e f i l sh.
Proof.
  intros Hok H. unfold State.liquidate_holding in H. apply bind_ret in H as (x & _ & H).
  apply bind_ret in H as (q & _ & H). destruct (m_cancel_all (h_engine x)) as [n m]. injection H as <- <-.
  exists (Holding.unrealized_at x p). split; [|repeat eexists].
  pose proof (moved_pnl s _ Hok (unrealized_i64 x p)) as Hm.
  apply (moved_trans _ _ _ _ [] Hm). apply moved_put. by eapply moved_ok.
Qed.

Definition is_liquidated (o : Output) : Prop :=
  match o with OLiquidated _ _ _ _ _ _ _ _ => True | _ => False end.

Lemma liquidate_each_moved hs s os s' : ledger_ok s → State.liquidate_each s hs = Ret (os, s') →
  ∃ ms, moved s s' ms ∧ Forall is_pnl ms ∧ Forall is_liquidated os.
Proof.
  revert s os. induction hs as [|h hs IH]; intros s os Hok H; simpl in H.
  { injection H as <- <-. exists []. by split_and!. }
  apply bind_ret in H as (x & _ & H). apply bind_ret in H as ([o s1] & H1 & H).
  apply bind_ret in H as ([os' s2] & H2 & [= <- <-]).
  destruct (liquidate_holding_moved _ _ _ _ _ Hok H1) as (c & M1 & Ho).
  destruct (IH s1 os' (moved_ok _ _ _ M1) H2) as (ms & M2 & Hp & Hos).
  exists ([MPnl c] ++ ms). split; [by eapply moved_trans|]. split; [by constructor|].
  constructor; [|done]. by destruct Ho as (?&?&?&?&?&?&?&->).
Qed.

Lemma close_all_moved s p os s' : ledger_ok s → State.close_all s p = Ret (os, s') →
  ∃ ms, moved s s' ms ∧ Forall is_pnl ms ∧ Forall is_liquidated os.
Proof.
  intros Hok H. unfold State.close_all in H. destruct (_ =? _)%nat.
  - apply bind_ret in H as ([o s1] & H1 & [= <- <-]).
    destruct (liquidate_holding_moved _ _ _ _ _ Hok H1) as (c & M1 & (?&?&?&?&?&?&?&->)).
    exists [MPnl c]. split_and!; [done|by apply Forall_singleton|by apply Forall_singleton].
  - by eapply liquidate_each_moved.
Qed.

Lemma report_forfeit_liquidated c os : Forall is_liquidated os → Forall is_liquidated (State.report_forfeit c os).
Proof.
  induction 1 as [|o os Ho HF IH]; simpl; [done|]. destruct o; simpl in *; try done.
  destruct os; repeat constructor; try done; by inversion IH.
Qed.

Lemma liquidate_moved s p os s' : ledger_ok s → State.liquidate s p = Ret (os, s') →
  ∃ ms, moved s s' (ms ++ [MForfeit]) ∧ Forall is_pnl ms ∧ Forall is_liquidated os.
Proof.
  intros Hok H. unfold State.liquidate in H. apply bind_ret in H as ([out s1] & H1 & [= <- <-]).
  destruct (close_all_moved _ _ _ _ Hok H1) as (ms & M1 & Hp & Ho). exists ms. split; [|split; [done|]].
  - eapply moved_trans; [done|]. apply moved_forfeit. by eapply moved_ok.
  - apply report_forfeit_liquidated, Forall_fmap. eapply Forall_impl; [exact Ho|]. by intros [].
Qed.

(** What a step of the kernel did: movements of the allowed kinds, and
    reports that agree with them. *)
Definition kmoved (P : Movement → Prop) k k' : Prop :=
  ∃ ms os, moved (k_state k) (k_state k') ms ∧ outputs k' = outputs k ++ os ∧ Forall P ms ∧
    fills_reported os = fee_count ms ∧ funded os = fundings ms.

Lemma fills_reported_app os os' : fills_reported (os ++ os') = (fills_reported os + fills_reported os')%nat.
Proof. unfold fills_reported. by rewrite List.filter_app, length_app. Qed.
Lemma fee_count_app ms ns : fee_count (ms ++ ns) = (fee_count ms + fee_count ns)%nat.
Proof. unfold fee_count. by rewrite List.filter_app, length_app. Qed.

Lemma fundings_app ms ns : fundings (ms ++ ns) = fundings ms ++ fundings ns.
Proof. apply omap_app. Qed.
Lemma funded_app os os' : funded (os ++ os') = funded os ++ funded os'.
Proof. apply omap_app. Qed.

Lemma kmoved_trans P k1 k2 k3 : kmoved P k1 k2 → kmoved P k2 k3 → kmoved P k1 k3.
Proof.
  intros (ms & os & M1 & E1 & F1 & C1 & D1) (ns & qs & M2 & E2 & F2 & C2 & D2).
  exists (ms ++ ns), (os ++ qs). split_and!; [by eapply moved_trans| |by apply Forall_app| |].
  - by rewrite E2, E1, (assoc_L (++)).
  - by rewrite fills_reported_app, fee_count_app, C1, C2.
  - by rewrite funded_app, fundings_app, D1, D2.
Qed.

Lemma kmoved_mono (P Q : Movement → Prop) k k' : (∀ m, P m → Q m) → kmoved P k k' → kmoved Q k k'.
Proof.
  intros HPQ (ms & os & M1 & E1 & F1 & C). exists ms, os. split_and!; try tauto.
  eapply Forall_impl; [exact F1|]. auto.
Qed.

Lemma kmoved_state k s P : moved (k_state k) s [] → kmoved P k (Kernel.set_state k s).
Proof. intros Hm. exists [], []. rewrite app_nil_r. by split_and!. Qed.

Lemma kmoved_ok P k k' : kmoved P k k' → ledger_ok (k_state k').
Proof. intros (ms & os & M1 & _). by eapply moved_ok. Qed.

Lemma pnl_only ms : Forall is_pnl ms → fee_count ms = 0%nat ∧ fundings ms = [].
Proof.
  induction 1 as [|[] ms H HF [IH1 IH2]]; simpl; try done.
Qed.

Lemma liquidated_only os : Forall is_liquidated os → fills_reported os = 0%nat ∧ funded os = [].
Proof. induction 1 as [|[] os H HF [IH1 IH2]]; simpl; done. Qed.

Lemma check_liquidation_moved k mark k' : ledger_ok (k_state k) →
  Kernel.check_liquidation k mark = Ret k' → kmoved is_loss k k'.
Proof.
  intros Hok H. unfold Kernel.check_liquidation in H.
  destruct (_ || _); [injection H as <-; exists [], []; rewrite app_nil_r; by split_and!|].
  apply bind_ret in H as (b & _ & H). destruct b; [|injection H as <-; exists [], []; rewrite app_nil_r; by split_and!].
  apply bind_ret in H as ([out s] & H1 & [= <-]).
  destruct (liquidate_moved _ _ _ _ Hok H1) as (ms & M1 & Hp & Ho).
  exists (ms ++ [MForfeit]), out. destruct (pnl_only _ Hp) as [P1 P2]. destruct (liquidated_only _ Ho) as [O1 O2].
  split_and!; [done|done| | |].
  - apply Forall_app_2; [eapply Forall_impl; [exact Hp|]; by intros []|by apply Forall_singleton].
  - by rewrite fee_count_app, P1, O1.
  - by rewrite fundings_app, P2, O2.
Qed.

Lemma charge_i64 f c x : i64 (Fees.charge f c x).
Proof. apply scaled_range. Qed.

(** A fee, then the fill it is for. *)
Lemma paid_fill_moved s fee f s' : ledger_ok s → i64 fee →
  State.apply_fill (State.credit (State.add_fees s fee) (Cash.neg fee)) f = Ret s' →
  ∃ ms, moved s s' (MFee fee :: ms) ∧ Forall is_pnl ms.
Proof.
  intros Hok Hf H. pose proof (moved_fee s fee Hok Hf) as M1.
  destruct (apply_fill_moved _ _ _ (moved_ok _ _ _ M1) H) as (ms & M2 & Hp).
  exists ms. split; [|done]. by apply (moved_trans _ _ _ [MFee fee] ms M1).
Qed.

Lemma kmoved_fill k k' s fee f ms :
  moved (k_state k) s (MFee fee :: ms) → Forall is_pnl ms → k_state k' = s →
  outputs k' = outputs k ++ [OFilled f] → kmoved is_trade k k'.
Proof.
  intros Hm Hp Hs Ho. exists (MFee fee :: ms), [OFilled f]. rewrite Hs.
  destruct (pnl_only _ Hp) as [P1 P2]. split_and!; [done|done| | |].
  - constructor; [done|]. eapply Forall_impl; [exact Hp|]. by intros [].
  - change (fee_count (MFee fee :: ms)) with (S (fee_count ms)). by rewrite P1.
  - change (fundings (MFee fee :: ms)) with (fundings ms). by rewrite P2.
Qed.

Lemma book_fills_outputs fs k h k' : Kernel.book_fills k h fs = Ret k' →
  outputs k' = outputs k ++ (OFilled <$> fs).
Proof.
  revert k. induction fs as [|f fs IH]; intros k H; simpl in H; [injection H as <-; by rewrite app_nil_r|].
  apply bind_ret in H as (x & _ & H). apply bind_ret in H as (s & _ & H). rewrite (IH _ H). simpl.
  by rewrite <-(assoc_L (++)).
Qed.
Lemma book_fills_moved fs k h k' : ledger_ok (k_state k) →
  Kernel.book_fills k h fs = Ret k' → kmoved is_trade k k'.
Proof.
  revert k. induction fs as [|f fs IH]; intros k Hok H; simpl in H.
  { injection H as <-. exists [], []. rewrite app_nil_r. by split_and!. }
  apply bind_ret in H as (x & _ & H). apply bind_ret in H as (s & Hs & H).
  destruct (paid_fill_moved _ _ _ _ Hok (charge_i64 _ _ _) Hs) as (ms & M1 & Hp).
  set (k1 := Kernel.push (Kernel.forget (Kernel.set_state k s) (f_order f)) (OFilled f)) in *.
  assert (kmoved is_trade k k1) as K1 by by eapply kmoved_fill.
  eapply kmoved_trans; [exact K1|]. apply IH; [by eapply kmoved_ok|done].
Qed.

Lemma loss_trade m : is_loss m → is_trade m.
Proof. by destruct m. Qed.

Lemma on_tick_moved k h t k' : ledger_ok (k_state k) → Kernel.on_tick k h t = Ret k' → kmoved is_trade k k'.
Proof.
  intros Hok H. unfold Kernel.on_tick in H. apply bind_ret in H as (x & _ & H).
  set (s1 := State.put (State.with_now (k_state k) (exch (t_stamp t))) h (Holding.set_mark x (t_last t))) in *.
  assert (moved (k_state k) s1 []) as M1 by by apply moved_frame.
  case_bool_decide.
  - eapply kmoved_trans; [apply (kmoved_state k s1); done|]. eapply kmoved_mono; [apply loss_trade|].
    eapply check_liquidation_moved; [|exact H]. by eapply moved_ok.
  - apply bind_ret in H as ([fs m] & _ & H). apply bind_ret in H as (k2 & H2 & H).
    set (s2 := State.put s1 h (Holding.set_engine (Holding.set_mark x (t_last t)) m)) in *.
    assert (kmoved is_trade k (Kernel.set_state k s2)) as K1
      by (apply kmoved_state; by apply moved_frame).
    eapply kmoved_trans; [exact K1|].
    assert (kmoved is_trade (Kernel.set_state k s2) k2) as K2
      by (eapply book_fills_moved; [|exact H2]; by eapply kmoved_ok).
    eapply kmoved_trans; [exact K2|]. eapply kmoved_mono; [apply loss_trade|].
    eapply check_liquidation_moved; [|exact H]. by eapply kmoved_ok.
Qed.

(** The amounts an event carries are [i64]s. *)
Definition event_ok (e : Event) : Prop :=
  match e with
  | EFundingCharged _ _ a | EFeeRecovered _ a _ | EMarginDeposit a _ => i64 a
  | EVenueFill _ (Reported a) => i64 a
  | _ => True
  end.

Lemma on_venue_fill_moved k f fee k' : ledger_ok (k_state k) → event_ok (EVenueFill f fee) →
  Kernel.on_venue_fill k f fee = Ret k' → kmoved is_trade k k'.
Proof.
  intros Hok He H. unfold Kernel.on_venue_fill in H.
  destruct (negb _); [injection H as <-; exists [], [ORejected (f_order f) NotVenueMatched]; by split_and!|].
  apply bind_ret in H as (s1 & H1 & H). apply bind_ret in H as (x & _ & H).
  assert (moved (k_state k) s1 []) as M1.
  { destruct (State.holding_index _ _) as [h|]; [|injection H1 as <-; by apply moved_frame].
    apply bind_ret in H1 as (y & _ & [= <-]). by apply moved_frame. }
  set (fs := match fee with Reported _ => _ | _ => _ end) in H.
  assert (moved (k_state k) fs.2 [] ∧ i64 fs.1) as [M2 Hf].
  { pose proof (moved_ok _ _ _ M1) as Hok1. unfold fs. destruct fee; simpl; split;
      try (eapply (moved_trans _ _ _ [] [] M1); by apply moved_frame); try done;
      try (by apply charge_i64); by vm_compute. }
  clearbody fs. destruct fs as [fee' s2]. simpl in M2, Hf. apply bind_ret in H as (s3 & H3 & H).
  destruct (paid_fill_moved _ _ _ _ (moved_ok _ _ _ M2) Hf H3) as (ms & M3 & Hp).
  set (k3 := Kernel.push _ _) in H.
  assert (kmoved is_trade k k3) as K1.
  { eapply kmoved_fill; [eapply (moved_trans _ _ _ [] _ M2); exact M3|done|done|done]. }
  eapply kmoved_trans; [exact K1|]. eapply kmoved_mono; [apply loss_trade|].
  eapply check_liquidation_moved; [|exact H]. by eapply kmoved_ok.
Qed.

Lemma funding_of_i64 (x : Holding M) a r m : i64 (Kernel.funding_of x a r m).
Proof.
  unfold Kernel.funding_of. simpl. destruct (QtyLots.is_zero (h_qty x)), (QtyLots.is_zero (h_short_qty x));
    try (by apply sat64_range); by vm_compute.
Qed.

Definition nothing (m : Movement) : Prop := False.

Lemma on_submit_moved k i id sd p q off st k' : ledger_ok (k_state k) →
  Kernel.on_submit k i id sd p q off st = Ret k' → kmoved nothing k k'.
Proof.
  intros Hok H. unfold Kernel.on_submit in H.
  assert (∀ r, kmoved nothing k (Kernel.push k (ORejected id r))) as Hrej
    by (intros r; exists [], [ORejected id r]; by split_and!).
  destruct (q <=? 0); [by injection H as <-|]. case_bool_decide; [by injection H as <-|].
  destruct (Kernel.route _ _) as [h|]; [|by injection H as <-].
  destruct (_ <=? 0); [by injection H as <-|].
  apply bind_ret in H as (w & _ & H). apply bind_ret in H as (x & _ & H). apply bind_ret in H as (m & _ & [= <-]).
  exists [], []. rewrite app_nil_r. by split_and!.
Qed.

Lemma cancel_from_moved hs s id b s' : ledger_ok s → Kernel.cancel_from s id hs = Ret (b, s') → moved s s' [].
Proof.
  revert s. induction hs as [|h hs IH]; intros s Hok H; simpl in H; [by injection H as _ <-|].
  apply bind_ret in H as (x & _ & H). destruct (m_cancel (h_engine x) id) as [c m].
  pose proof (moved_put s h (Holding.set_engine x m) Hok) as M1.
  destruct c; [by injection H as _ <-|]. eapply moved_then; [exact M1|]. apply IH; [by eapply moved_ok|done].
Qed.

Lemma on_funding_moved k i a r m k' : ledger_ok (k_state k) → Kernel.on_funding k i a r m = Ret k' →
  kmoved is_funding k k'.
Proof.
  intros Hok H. unfold Kernel.on_funding in H. set (s1 := State.with_now (k_state k) a) in *.
  assert (moved (k_state k) s1 []) as M1 by by apply moved_frame.
  destruct (Kernel.route s1 i) as [h|].
  2: { injection H as <-. exists [], [ORejected 0 UnroutableObservation]. by split_and!. }
  apply bind_ret in H as (x & _ & H). destruct (Holding.flat x); [injection H as <-; by apply kmoved_state|].
  set (amt := Kernel.funding_of x a r m) in *. set (s2 := State.add_funding _ _) in H.
  assert (moved (k_state k) s2 [MFunding amt]) as M2.
  { eapply moved_then; [exact M1|]. apply moved_funding; [done|apply funding_of_i64]. }
  set (k2 := Kernel.push _ _) in H.
  assert (kmoved is_funding k k2) as K2.
  { exists [MFunding amt], [OFunded amt a]. split_and!; try done. by apply Forall_singleton. }
  eapply kmoved_trans; [exact K2|]. eapply (kmoved_mono is_loss); [by intros []|].
  eapply check_liquidation_moved; [|exact H]. by eapply kmoved_ok.
Qed.

(** One event, with everything it reports. *)
Lemma apply_moved k e k' : ledger_ok (k_state k) → event_ok e → Kernel.apply k e = Ret k' →
  ∃ ms, moved (k_state k) (k_state k') ms ∧ causes e ms ∧
    fills_reported (outputs k') = fee_count ms ∧ funded (outputs k') = fundings ms.
Proof.
  intros Hok He H. unfold Kernel.apply in H. set (k0 := mkKernel (k_state k) [] (working k)) in *.
  assert (∀ P, (∀ ms, Forall P ms → causes e ms) → kmoved P k0 k' →
    ∃ ms, moved (k_state k) (k_state k') ms ∧ causes e ms ∧
      fills_reported (outputs k') = fee_count ms ∧ funded (outputs k') = fundings ms) as Hk.
  { intros P HP (ms & os & Hm & E & F & C & D). simpl in E. subst os. exists ms. auto. }
  assert (∀ ms : list Movement, Forall nothing ms → ms = []) as Hnil
    by (intros [|m ms] HF; [done|by inversion HF]).
  assert (ledger_ok (k_state k0)) as Hok0 by done. destruct e; cbv zeta in H.
  - apply (Hk is_trade); [done|]. destruct (Kernel.route _ _) as [h|]; [by eapply on_tick_moved|].
    injection H as <-. exists [], [ORejected 0 UnroutableObservation]. by split_and!.
  - apply (Hk nothing); [done|]. by eapply on_submit_moved.
  - apply (Hk nothing); [done|].
    apply bind_ret in H as ([b s] & Hc%cancel_from_moved & H); [|done]. injection H as <-. destruct b.
    + exists [], [OCancelled id]. by split_and!.
    + by apply kmoved_state.
  - apply (Hk is_funding); [done|]. by eapply on_funding_moved.
  - injection H as <-. unfold Kernel.on_funding_charged. destruct (Kernel.route _ _) as [h|].
    + exists [MFunding amount]. split_and!; try done; [|by right].
      eapply moved_then; [|by apply moved_funding]. by apply moved_frame.
    + exists []. split_and!; try done; try (by left).
  - injection H as <-. exists [MRecovered amount]. split_and!; try done.
    set (s1 := State.with_now (k_state k0) at_). assert (moved (k_state k0) s1 []) as M1 by by apply moved_frame.
    pose proof (moved_recovered s1 amount (moved_ok _ _ _ M1) He) as M2.
    eapply moved_then; [exact M1|]. apply (moved_trans _ _ _ [MRecovered amount] [] M2).
    apply moved_frame; try done. by eapply moved_ok.
  - injection H as <-. exists []. split_and!; try done.
  - injection H as <-. exists [MDeposit amount]. split_and!; try done.
    eapply moved_then; [|by apply moved_deposit]. by apply moved_frame.
  - apply (Hk is_trade); [done|]. by eapply on_venue_fill_moved.
  - apply (Hk nothing); [done|]. destruct (_ =? _)%nat; [|injection H as <-; exists [], []; by split_and!].
    apply bind_ret in H as (x & _ & H). apply bind_ret in H as ([o m] & _ & [= <-]).
    by apply kmoved_state.
Qed.


(** ** Conservation *)

(** No movement of the list is clipped by saturation. *)
Fixpoint unclipped (b : Books) (ms : list Movement) : Prop :=
  match ms with
  | [] => True
  | m :: ms =>
      match m with
      | MPnl c => i64 (b_balance b + c) ∧ i64 (b_realized b + c)
      | MFee c | MRecovered c => i64 (- c) ∧ i64 (b_balance b - c) ∧ i64 (b_fees b + c)
      | MFunding c => i64 (b_balance b + c) ∧ i64 (b_funding b + c)
      | MDeposit c => i64 (b_balance b + c)
      | MForfeit => i64 (- b_balance b) ∧ i64 (b_forfeited b + b_balance b)
      end ∧ unclipped (post b m) ms
  end.

Definition deposits (ms : list Movement) : Z :=
  zsum (omap (λ m, match m with MDeposit c => Some c | _ => None end) ms).

(** What the account was worth before anything happened to it. *)
Definition net (b : Books) : Z :=
  b_balance b - b_realized b - b_funding b + b_fees b + b_forfeited b.

Lemma post_net b ms : unclipped b ms → net (post_all b ms) = net b + deposits ms.
Proof.
  revert b. induction ms as [|m ms IH]; intros b; simpl; [unfold deposits, zsum; simpl; lia|].
  intros [Hm Hu]. unfold post_all in *. simpl. rewrite IH by done.
  assert (deposits (m :: ms) = match m with MDeposit c => c | _ => 0 end + deposits ms) as ->
    by (destruct m; reflexivity).
  destruct m; simpl in *; unfold net, Cash.add, Cash.neg in *; simpl; mlia.
Qed.

Lemma run_events_moved es k k' os : ledger_ok (k_state k) → Forall event_ok es →
  Kernel.run_events k es = Ret (k', os) →
  ∃ mss, books_of (k_state k') = post_all (books_of (k_state k)) (concat mss) ∧
    Forall2 causes es mss ∧ ledger_ok (k_state k').
Proof.
  intros Hok HF. revert k os Hok. induction HF as [|e es He HF IH]; intros k os Hok; simpl.
  - intros [= <- <-]. by exists [].
  - intros H. apply bind_ret in H as (k1 & H1 & H). apply bind_ret in H as ([k2 os'] & H2 & [= <- <-]).
    destruct (apply_moved k e k1 Hok He H1) as (ms & (Hm & Hok1 & _) & F & _).
    destruct (IH _ _ Hok1 H2) as (mss & E2 & F2 & Hok2).
    exists (ms :: mss). split_and!; [|by constructor|done]. simpl.
    by rewrite post_all_app, E2, Hm.
Qed.

Definition deposited (es : list Event) : Z :=
  zsum (omap (λ e, match e with EMarginDeposit a _ => Some a | _ => None end) es).

Lemma deposits_app ms ns : deposits (ms ++ ns) = deposits ms + deposits ns.
Proof.
  unfold deposits. rewrite omap_app. induction (omap _ ms) as [|c l IH]; simpl; [done|].
  unfold zsum in *. simpl. lia.
Qed.

Lemma no_deposits (P : Movement → Prop) ms : (∀ m, P m → match m with MDeposit _ => False | _ => True end) →
  Forall P ms → deposits ms = 0.
Proof.
  intros HP. induction 1 as [|m ms Hm HF IH]; [done|]. specialize (HP m Hm).
  destruct m; try done; exact IH.
Qed.

Lemma causes_deposits es mss : Forall2 causes es mss → deposits (concat mss) = deposited es.
Proof.
  assert (∀ ms, Forall is_trade ms → deposits ms = 0) as Ht by (intros ms; apply no_deposits; by intros []).
  assert (∀ ms, Forall is_funding ms → deposits ms = 0) as Hf by (intros ms; apply no_deposits; by intros []).
  induction 1 as [|e ms es mss Hc HF IH]; [done|]. simpl concat. rewrite deposits_app, IH.
  destruct e; simpl in Hc; unfold deposited; try (by rewrite Hc); try (by rewrite Ht by done); try (by rewrite Hf by done).
  - by destruct Hc as [-> | ->].
  - rewrite Hc. replace (deposits [MDeposit amount]) with amount; [done|].
    symmetry. apply (Z.add_0_r amount).
Qed.

End refine.

(** * A concrete account *)

Module DemoAccount.
Definition contract : Contract := mkContract 100.
Definition table : TierTable := mkTable [mkTier 1000000000000 10000000 0].
Definition state : State Matcher :=
  State.with_fees (State.new 7 contract table 1000000) (Fees.flat 1000000).
Definition kernel : Kernel Matcher := Kernel.new state.
Definition tick (n last : Z) : Event := ETick (Some 7) (Tick.trades_only (mkStamp n n) last last last).
Definition events : list Event :=
  [tick 1 100; ESubmit None 1 Buy None 10 Open (mkStamp 1 1); tick 2 100; EMarginDeposit 5000 2;
   EFunding None 3 1000000 100; ESubmit None 2 Sell None 10 Open (mkStamp 3 3); tick 4 120].
End DemoAccount.

Lemma demo_ledger_ok : ledger_ok (k_state DemoAccount.kernel).
Proof. by apply (balances_of_ok Currency.usdt). Qed.

Lemma demo_events_ok : Forall event_ok DemoAccount.events.
Proof. repeat (apply Forall_cons; split; [simpl; try done; mlia|]). apply Forall_nil_2. Qed.


