(* ===== verification/Positions.v ===== *)
(** What fills do to a one-way position: exact quantities, and a realized
    profit that is exactly the cash flow of the trades. *)

From S2P Require Import Prelude Slices SortedVec Types Order Currency Margin Liquidation Funding.
From S2P Require Import Tick RestingBook L0 Depth Matcher Cost Event Kernel Ledger.

Section positions.
Context {M : Type} `{!MatcherOps M}.
Implicit Types (s : State M) (h : Holding M) (f : Fill).

(** A trade's notional, and what it moves in cash: a buy pays, a sell
    receives. *)
Definition fill_notional (c : Contract) f : Z := f_price f * f_qty f * c_tick_cash c.
Definition fill_delta f : Z := f_qty f * sign (f_side f).
Definition fill_flow (c : Contract) f : Z := - (sign (f_side f) * fill_notional c f).

(** The basis of the net position, with its sign. *)
Definition basis h : Z := Z.sgn (h_qty h) * Holding.entry_cost h.

(** A position within bounds: a basis between zero and [B], a quantity whose
    size is at most [Q]. *)
Record pos_ok (B Q : Z) h : Prop := {
  pos_cost : 0 ≤ Holding.entry_cost h ≤ B;
  pos_qty : Z.abs (h_qty h) ≤ Q;
}.

(** A fill that fits on top of it. *)
Record fill_fits (B Q : Z) h f : Prop := {
  fit_tick : 0 ≤ c_tick_cash (h_contract h) ∧ i64 (c_tick_cash (h_contract h));
  fit_price : 0 ≤ f_price f ∧ i64 (f_price f);
  fit_qty : 0 < f_qty f ∧ Q + f_qty f ≤ I64_MAX;
  fit_notional : B + fill_notional (h_contract h) f ≤ I64_MAX;
}.

Lemma notional_exact c p q : 0 ≤ c_tick_cash c → 0 ≤ p → i64 p → 0 ≤ q ≤ I64_MAX →
  p * q * c_tick_cash c ≤ I64_MAX → notional_wide c p q = p * q * c_tick_cash c.
Proof.
  intros Hk Hp Hpi Hq Hn. unfold notional_wide.
  assert (i64_saturating_abs q = q) as -> by mlia.
  assert (0 ≤ p * q ≤ I64_MAX * I64_MAX) by (unfold i64 in *; nia).
  rewrite (sat128_id (p * q)) by mlia. apply sat128_id.
  assert (0 ≤ p * q * c_tick_cash c) by (apply Z.mul_nonneg_nonneg; lia). mlia.
Qed.

(** The recorded basis is read back as long as the leg is not touched. *)
Lemma entry_cost_set h q e v : q ≠ 0 → Holding.entry_cost (Holding.set_long h q e (EntryCost.set q e v)) = v.
Proof.
  intros Hq. unfold Holding.entry_cost, EntryCost.value, QtyLots.is_zero; simpl.
  destruct (Z.eqb_spec q 0); [done|]. by rewrite !Z.eqb_refl.
Qed.

Lemma entry_cost_flat h e c : Holding.entry_cost (Holding.set_long h 0 e c) = 0.
Proof. done. Qed.

(** Adding to a position in its own direction, or opening one. *)
Lemma open_leg_spec B Q h q p sg : pos_ok B Q h → sg = 1 ∨ sg = -1 →
  (h_qty h = 0 ∨ Z.sgn (h_qty h) = sg) → (h_qty h = 0 → Holding.entry_cost h = 0) →
  0 < q → Q + q ≤ I64_MAX → 0 ≤ c_tick_cash (h_contract h) → i64 (c_tick_cash (h_contract h)) →
  0 ≤ p → i64 p → B + p * q * c_tick_cash (h_contract h) ≤ I64_MAX → 0 ≤ B →
  ∃ h', Holding.open_leg h false q p sg = Ret h' ∧
    h_qty h' = h_qty h + sg * q ∧ h_contract h' = h_contract h ∧
    h_instrument h' = h_instrument h ∧
    Holding.entry_cost h' = Holding.entry_cost h + p * q * c_tick_cash (h_contract h) ∧
    basis h' = basis h + sg * (p * q * c_tick_cash (h_contract h)).
Proof.
  intros [Hc Hq] Hsg Hdir Hflat Hq0 HQ Hk Hki Hp Hpi Hn HB. unfold Holding.open_leg.
  unfold QtyLots.is_zero at 1. destruct (Z.eqb_spec q 0); [lia|].
  set (N := p * q * c_tick_cash (h_contract h)) in *.
  assert (0 ≤ N) as HN by (apply Z.mul_nonneg_nonneg; [apply Z.mul_nonneg_nonneg|]; lia).
  rewrite notional_exact by (try done; lia). fold N.
  rewrite (sat128_id (_ + N)) by mlia.
  assert (i64_saturating_abs (h_qty h) = Z.abs (h_qty h)) as -> by mlia.
  rewrite (sat64_id (Z.abs (h_qty h) + q)) by mlia.
  rewrite chk_ret by (destruct Hsg as [-> | ->]; mlia). cbn [mbind run_bind].
  assert (sg * (Z.abs (h_qty h) + q) = h_qty h + sg * q) as Eq by (destruct Hsg as [-> | ->]; lia).
  rewrite Eq. eexists. split; [reflexivity|]. split; [done|]. split; [done|]. split; [done|].
  assert (h_qty h + sg * q ≠ 0) as Hne by (destruct Hsg as [-> | ->]; lia).
  rewrite entry_cost_set by done. split; [done|].
  unfold basis. rewrite entry_cost_set by done. simpl.
  assert (Z.sgn (h_qty h + sg * q) = sg) as -> by (destruct Hsg as [-> | ->]; lia).
  destruct Hdir as [H0|Hs]; [|rewrite Hs; lia]. rewrite (Hflat H0), H0. simpl. lia.
Qed.

(** Closing part or all of a position. *)
Lemma close_leg_spec B Q h q p : pos_ok B Q h → h_qty h ≠ 0 → 0 < q ≤ Z.abs (h_qty h) → Q ≤ I64_MAX →
  0 ≤ c_tick_cash (h_contract h) → 0 ≤ p → i64 p → B ≤ I64_MAX →
  p * q * c_tick_cash (h_contract h) ≤ I64_MAX →
  ∃ pnl h', Holding.close_leg h false q p = Ret (pnl, h') ∧ i64 pnl ∧
    h_qty h' = h_qty h - Z.sgn (h_qty h) * q ∧ h_contract h' = h_contract h ∧
    h_instrument h' = h_instrument h ∧
    0 ≤ Holding.entry_cost h' ≤ Holding.entry_cost h ∧ (h_qty h' = 0 → Holding.entry_cost h' = 0) ∧
    pnl = Z.sgn (h_qty h) * (p * q * c_tick_cash (h_contract h)) + basis h' - basis h.
Proof.
  intros [Hc Hq] Hne Hq0 HQ Hk Hp Hpi HB Hn. unfold Holding.close_leg.
  unfold QtyLots.is_zero at 1. destruct (Z.eqb_spec (h_qty h) 0); [done|].
  assert (i64_saturating_abs (h_qty h) = Z.abs (h_qty h)) as -> by mlia.
  rewrite (Z.min_l q) by lia. rewrite notional_exact by (try done; lia).
  set (N := p * q * c_tick_cash (h_contract h)) in *.
  assert (0 ≤ N) as HN by (apply Z.mul_nonneg_nonneg; [apply Z.mul_nonneg_nonneg|]; lia).
  destruct (close_spec (Holding.entry_cost h) (h_qty h) q N)
    as (pnl & v & -> & Hpi64 & Hv & Hs & Hfull & _); [split; [mlia|lia|lia|lia]|].
  cbn [mbind run_bind].
  assert ((if h_qty h >? 0 then 1 else -1) = Z.sgn (h_qty h)) as ->
    by (rewrite Z.gtb_ltb; destruct (Z.ltb_spec 0 (h_qty h)); lia).
  assert (sign_of (h_qty h) = Z.sgn (h_qty h)) as Esg
    by (unfold sign_of; destruct (Z.ltb_spec 0 (h_qty h)); lia).
  assert (Z.sgn (h_qty h) = 1 ∨ Z.sgn (h_qty h) = -1) as Hsg by lia.
  rewrite (chk_ret i64 (q * _)) by (destruct Hsg as [-> | ->]; mlia). cbn [mbind run_bind].
  rewrite (chk_ret i64 (h_qty h - _)) by (destruct Hsg as [E|E]; rewrite E; mlia). cbn [mbind run_bind].
  rewrite (Z.mul_comm q). set (l := h_qty h - Z.sgn (h_qty h) * q).
  eexists pnl, _. split; [reflexivity|]. split; [done|]. split; [done|]. split; [done|]. split; [done|].
  rewrite Esg in Hs. set (h' := Holding.set_long h l _ _).
  assert (Holding.entry_cost h' = v ∧ (l = 0 → v = 0)) as [Ev Hv0].
  { destruct (decide (l = 0)) as [Hl|Hl].
    - assert (v = 0) as -> by (apply Hfull; unfold l in Hl; destruct Hsg as [E|E]; rewrite E in Hl; lia).
      split; [|done]. unfold h'. rewrite Hl. apply entry_cost_flat.
    - split; [|done]. unfold h'. by apply entry_cost_set. }
  split; [rewrite Ev; lia|]. split; [intros El; rewrite Ev; by apply Hv0|].
  unfold basis. rewrite Ev. unfold h'. simpl.
  assert (Z.sgn l * v = Z.sgn (h_qty h) * v) as ->.
  { destruct (decide (l = 0)) as [Hl|Hl]; [rewrite (Hv0 Hl); lia|]. f_equal. unfold l in *. lia. }
  destruct Hsg as [E|E]; rewrite E in *; lia.
Qed.

(** ** One fill of a one-way account *)

Lemma position_delta_exact f : 0 < f_qty f ≤ I64_MAX → position_delta f = Ret (fill_delta f).
Proof. intros. unfold position_delta, fill_delta. apply chk_ret. destruct (f_side f); simpl; mlia. Qed.

(** What a fill may change: the holding it names, the profit and the cash. *)
Definition booked (s s' : State M) (h : nat) (x' : Holding M) (pnl : Z) : Prop :=
  holdings s' = <[h := x']> (holdings s) ∧ mode s' = mode s ∧ settlement s' = settlement s ∧
  fee_schedule s' = fee_schedule s ∧ fees s' = fees s ∧ ledger_ok s' ∧
  realized s' = Cash.add (realized s) pnl ∧ State.balance s' = Cash.add (State.balance s) pnl.

Lemma booked_open s (h : nat) (x' : Holding M) : ledger_ok s → i64 (realized s) → booked s (State.put s h x') h x' 0.
Proof.
  intros Hok Hr. unfold booked. split_and!; try done.
  - unfold Cash.add. rewrite Z.add_0_r, sat64_id; done.
  - unfold Cash.add. rewrite Z.add_0_r, sat64_id; [done|]. by apply balance_i64.
Qed.

Lemma booked_close s (h : nat) (x' : Holding M) pnl : ledger_ok s → i64 pnl →
  booked s (State.credit (State.add_realized (State.put s h x') pnl) pnl) h x' pnl.
Proof.
  intros Hok Hp. destruct (credit_balance (State.add_realized (State.put s h x') pnl) pnl Hok Hp) as [E Ho].
  by unfold booked; split_and!.
Qed.

Lemma booked_put s s' (h : nat) x x' pnl : booked s s' h x pnl → booked s (State.put s' h x') h x' pnl.
Proof.
  intros (E & ? & ? & ? & ? & ? & ? & ?). unfold booked. split_and!; try done. simpl. rewrite E. apply list_insert_insert_eq.
Qed.

(** The cash identity of one fill: what is realized is the cash it moves,
    plus what it adds to the basis of the position. *)
Lemma apply_fill_cash B Q s f (h : nat) x : mode s = OneWay → ledger_ok s → i64 (realized s) →
  State.holding_index s (f_instrument f) = Some h → holdings s !! h = Some x →
  pos_ok B Q x → (h_qty x = 0 → Holding.entry_cost x = 0) → fill_fits B Q x f → 0 ≤ B → 0 ≤ Q →
  ∃ s' x' pnl, State.apply_fill s f = Ret s' ∧ booked s s' h x' pnl ∧
    h_instrument x' = h_instrument x ∧ h_contract x' = h_contract x ∧
    h_qty x' = h_qty x + fill_delta f ∧
    pos_ok (B + fill_notional (h_contract x) f) (Q + f_qty f) x' ∧
    (h_qty x' = 0 → Holding.entry_cost x' = 0) ∧
    pnl = fill_flow (h_contract x) f + (basis x' - basis x).
Proof.
  intros Hm Hok Hr Hi Hx Hpos Hflat [[Hk Hki] [Hp Hpi] [Hq HQ] HN] HB HQ0.
  pose proof Hpos as [Hc Hq0].
  assert (0 ≤ fill_notional (h_contract x) f) as HN0
    by (apply Z.mul_nonneg_nonneg; [apply Z.mul_nonneg_nonneg|]; lia).
  unfold State.apply_fill. rewrite Hi. cbn [expect mbind run_bind]. rewrite bool_decide_false by congruence.
  rewrite position_delta_exact by lia. cbn [mbind run_bind]. unfold State.at_. rewrite Hx. cbn [expect mbind run_bind].
  assert (Z.abs (fill_delta f) = f_qty f) as Hd by (unfold fill_delta; destruct (f_side f); simpl; lia).
  assert (i64_saturating_abs (fill_delta f) = f_qty f) as -> by mlia.
  assert (i64_saturating_abs (h_qty x) = Z.abs (h_qty x)) as -> by mlia.
  assert (signum (fill_delta f) = sign (f_side f)) as -> by (unfold fill_delta, signum; destruct (f_side f); simpl; lia).
  assert (fill_delta f = sign (f_side f) * f_qty f) as Ed by (unfold fill_delta; lia).
  set (N := fill_notional (h_contract x) f) in *.
  assert (sign (f_side f) = 1 ∨ sign (f_side f) = -1) as Hsg by (destruct (f_side f); simpl; lia).
  set (sg := sign (f_side f)) in *.
  destruct (_ && _) eqn:Er.
  - apply andb_true_iff in Er as [E1%negb_true_iff%Z.eqb_neq E2%negb_true_iff%eqb_false_iff].
    assert (Z.sgn (h_qty x) = - sg) as Hopp.
    { rewrite !Z.gtb_ltb in E2. destruct (Z.ltb_spec 0 (h_qty x)), (Z.ltb_spec 0 (fill_delta f)); try done; lia. }
    set (cl := Z.min (f_qty f) (Z.abs (h_qty x))).
    assert (0 ≤ f_price f * cl * c_tick_cash (h_contract x) ≤ N) as Hcl.
    { unfold N, fill_notional. split; [apply Z.mul_nonneg_nonneg; [apply Z.mul_nonneg_nonneg|]; lia|].
      apply Z.mul_le_mono_nonneg_r; [lia|]. apply Z.mul_le_mono_nonneg_l; lia. }
    destruct (close_leg_spec B Q x cl (f_price f)) as (pnl & y & Ey & Hpnl & Hyq & Hyc & Hyi & Hye & Hy0 & Hpn);
      try done; try lia.
    rewrite Ey. cbn [mbind run_bind]. rewrite chk_ret by mlia. cbn [mbind run_bind].
    pose proof (booked_close s h y pnl Hok Hpnl) as Hb. rewrite Z.gtb_ltb.
    destruct (Z.ltb_spec 0 (f_qty f - cl)) as [Hrem|Hrem].
    + assert (h_qty y = 0) as Hyz by (rewrite Hyq, Hopp; lia).
      assert (N = f_price f * cl * c_tick_cash (h_contract x) + f_price f * (f_qty f - cl) * c_tick_cash (h_contract x))
        as EN by (unfold N, fill_notional; ring).
      destruct (open_leg_spec 0 0 y (f_qty f - cl) (f_price f) sg)
        as (z & Ez & Hzq & Hzc & Hzi & Hze & Hzb); rewrite ?Hyc; try done; try lia.
      { split; [rewrite (Hy0 Hyz)|rewrite Hyz]; lia. }
      rewrite Hyc in *. rewrite Ez. cbn [mbind run_bind].
      eexists _, z, pnl. split; [reflexivity|]. split; [by eapply booked_put|].
      split; [congruence|]. split; [congruence|]. rewrite (Hy0 Hyz) in Hze.
      assert (basis y = 0) as By by (unfold basis; rewrite Hyz; done).
      assert (h_qty z = h_qty x + fill_delta f) as Eq by (rewrite Hzq, Hyq, Hopp; destruct Hsg as [E|E]; rewrite E in *; lia).
      split; [done|]. split; [split; [lia|rewrite Eq; lia]|]. split; [intros; lia|].
      unfold fill_flow. fold N sg. rewrite Hzb, By, Hpn, By, Hopp, EN. ring.
    + assert (cl = f_qty f) as Ecl by lia.
      eexists _, y, pnl. split; [reflexivity|]. split; [done|]. split; [done|]. split; [done|].
      assert (h_qty y = h_qty x + fill_delta f) as Eq by (rewrite Hyq, Hopp, Ecl, Ed; lia).
      split; [done|]. split; [split; [lia|rewrite Eq; lia]|]. split; [done|].
      unfold fill_flow. fold N sg. rewrite Hpn, Hopp, Ecl. unfold N, fill_notional. ring.
  - destruct (open_leg_spec B Q x (f_qty f) (f_price f) sg)
      as (z & Ez & Hzq & Hzc & Hzi & Hze & Hzb); try done.
    { apply andb_false_iff in Er as [E1%negb_false_iff%Z.eqb_eq|E2%negb_false_iff%eqb_prop]; [by left|].
      destruct (decide (h_qty x = 0)) as [H0|H0]; [by left|right]. rewrite !Z.gtb_ltb in E2.
      destruct (Z.ltb_spec 0 (h_qty x)), (Z.ltb_spec 0 (fill_delta f)); try done; lia. }
    rewrite Ez. cbn [mbind run_bind]. eexists _, z, 0. split; [reflexivity|].
    split; [by apply booked_open|]. split; [done|]. split; [done|]. split; [rewrite Hzq; lia|].
    change (f_price f * f_qty f * c_tick_cash (h_contract x)) with N in *.
    split; [split; [lia|rewrite Hzq; destruct Hsg as [E|E]; rewrite E; lia]|]. split.
    + intros Hz0. unfold Holding.entry_cost, EntryCost.value, QtyLots.is_zero. by rewrite Hz0.
    + unfold fill_flow. fold N sg. rewrite Hzb. ring.
Qed.

(** ** A run of fills *)

Definition gross_qty (fs : list Fill) : Z := zsum (f_qty <$> fs).
Definition gross_notional (c : Contract) (fs : list Fill) : Z := zsum (fill_notional c <$> fs).
Definition net_qty (fs : list Fill) : Z := zsum (fill_delta <$> fs).
Definition net_flow (c : Contract) (fs : list Fill) : Z := zsum (fill_flow c <$> fs).
Definition fees_paid (sch : Fees) (c : Contract) (fs : list Fill) : Z := zsum (Fees.charge sch c <$> fs).
Definition gross_fees (sch : Fees) (c : Contract) (fs : list Fill) : Z :=
  zsum ((λ f, Z.abs (Fees.charge sch c f)) <$> fs).

Definition fill_of (i : InstrumentId) f : Prop :=
  f_instrument f = i ∧ 0 ≤ f_price f ∧ i64 (f_price f) ∧ 0 < f_qty f.

Lemma entry_cost_zero h : h_qty h = 0 → Holding.entry_cost h = 0.
Proof. intros E. unfold Holding.entry_cost, EntryCost.value, QtyLots.is_zero. by rewrite E. Qed.

Lemma fill_notional_nonneg c i f : 0 ≤ c_tick_cash c → fill_of i f → 0 ≤ fill_notional c f.
Proof. intros ? (_ & ? & _ & ?). apply Z.mul_nonneg_nonneg; [apply Z.mul_nonneg_nonneg|]; lia. Qed.

Lemma gross_notional_nonneg c i fs : 0 ≤ c_tick_cash c → Forall (fill_of i) fs → 0 ≤ gross_notional c fs.
Proof.
  intros Hk. induction 1 as [|f fs Hf HF IH]; [done|].
  change (gross_notional c (f :: fs)) with (fill_notional c f + gross_notional c fs).
  pose proof (fill_notional_nonneg c i f Hk Hf). lia.
Qed.
Lemma gross_qty_nonneg i fs : Forall (fill_of i) fs → 0 ≤ gross_qty fs.
Proof.
  induction 1 as [|f fs (_ & _ & _ & Hf) HF IH]; [done|].
  change (gross_qty (f :: fs)) with (f_qty f + gross_qty fs). lia.
Qed.
Lemma gross_fees_nonneg sch c (fs : list Fill) : 0 ≤ gross_fees sch c fs.
Proof.
  induction fs as [|f fs IH]; [done|].
  change (gross_fees sch c (f :: fs)) with (Z.abs (Fees.charge sch c f) + gross_fees sch c fs). lia.
Qed.
Lemma basis_bound B Q h : pos_ok B Q h → Z.abs (basis h) ≤ B.
Proof. intros [Hc _]. unfold basis. nia. Qed.

(** Room for a run of fills: nothing saturates on the way. *)
Record room (B Q : Z) s (x : Holding M) (fs : list Fill) : Prop := {
  room_qty : Q + gross_qty fs ≤ I64_MAX;
  room_basis : B + gross_notional (h_contract x) fs ≤ I64_MAX;
  room_realized : Z.abs (realized s - basis x) + B + 2 * gross_notional (h_contract x) fs ≤ I64_MAX;
  room_fees : Z.abs (fees s) + gross_fees (fee_schedule s) (h_contract x) fs ≤ I64_MAX;
  room_balance : Z.abs (State.balance s - basis x) + B + 2 * gross_notional (h_contract x) fs
    + gross_fees (fee_schedule s) (h_contract x) fs ≤ I64_MAX;
}.

Lemma book_fills_cash fs k (h : nat) x i B Q : let s := k_state k in let c := h_contract x in
  mode s = OneWay → ledger_ok s → State.holding_index s i = Some h → holdings s !! h = Some x →
  Forall (fill_of i) fs → pos_ok B Q x → 0 ≤ B → 0 ≤ Q → 0 ≤ c_tick_cash c → i64 (c_tick_cash c) →
  room B Q s x fs →
  ∃ k' x', Kernel.book_fills k h fs = Ret k' ∧ holdings (k_state k') !! h = Some x' ∧
    h_qty x' = h_qty x + net_qty fs ∧
    realized (k_state k') - basis x' = realized s - basis x + net_flow c fs ∧
    fees (k_state k') = fees s + fees_paid (fee_schedule s) c fs ∧
    State.balance (k_state k') - basis x' =
      State.balance s - basis x + net_flow c fs - fees_paid (fee_schedule s) c fs.
Proof.
  revert k x B Q. induction fs as [|f fs IH]; intros k x B Q s c Hm Hok Hi Hx Hfs Hp HB HQ Hk Hki Hr.
  { exists k, x. split; [done|]. split; [done|]. cbv [net_qty net_flow fees_paid zsum fmap list_fmap foldr]. fold s. lia. }
  apply Forall_cons in Hfs as [Hf Hfs]. pose proof Hf as (Hfi & Hfp & Hfpi & Hfq).
  pose proof (fill_notional_nonneg c i f Hk Hf) as HN. pose proof (gross_notional_nonneg c i fs Hk Hfs) as HG.
  pose proof (gross_qty_nonneg i fs Hfs) as HGq. pose proof (gross_fees_nonneg (fee_schedule s) c fs) as HGf.
  pose proof (basis_bound B Q x Hp) as Hb. pose proof (charge_i64 (fee_schedule s) c f) as Hfee.
  destruct Hr as [Rq Rb Rr Rf Rc]. fold c in Rb, Rr, Rf, Rc.
  change (gross_qty (f :: fs)) with (f_qty f + gross_qty fs) in Rq.
  change (gross_notional c (f :: fs)) with (fill_notional c f + gross_notional c fs) in *.
  set (fee := Fees.charge (fee_schedule s) c f) in *.
  change (gross_fees (fee_schedule s) c (f :: fs)) with (Z.abs fee + gross_fees (fee_schedule s) c fs) in *.
  change (net_qty (f :: fs)) with (fill_delta f + net_qty fs).
  change (net_flow c (f :: fs)) with (fill_flow c f + net_flow c fs).
  change (fees_paid (fee_schedule s) c (f :: fs)) with (fee + fees_paid (fee_schedule s) c fs).
  cbn [Kernel.book_fills]. unfold State.at_ at 1. fold s. rewrite Hx. cbn [expect mbind run_bind].
  fold c fee. set (s1 := State.credit (State.add_fees s fee) (Cash.neg fee)).
  destruct (credit_balance (State.add_fees s fee) (Cash.neg fee) Hok ltac:(apply sat64_range)) as [Eb1 Hok1].
  fold s1 in Eb1, Hok1.
  assert (State.balance s1 = State.balance s - fee) as Eb.
  { rewrite Eb1. change (State.balance (State.add_fees s fee)) with (State.balance s).
    unfold Cash.add, Cash.neg. rewrite (sat64_id (- fee)) by mlia. rewrite sat64_id by mlia. lia. }
  assert (fees s1 = fees s + fee) as Ef by (simpl; unfold Cash.add; rewrite sat64_id by mlia; done).
  destruct (apply_fill_cash B Q s1 f h x) as (s2 & x2 & pnl & E2 & Hbk & Hxi & Hxc & Hxq & Hx2 & _ & Hpn);
    try done; try (by apply entry_cost_zero).
  { unfold s1; simpl. mlia. } { by rewrite Hfi. } { split; fold c; [done|done|lia|lia]. }
  rewrite E2. cbn [mbind run_bind]. destruct Hbk as (Eh & Em & Es & Esch & Efe & Hok2 & Er & Ebal).
  pose proof (basis_bound _ _ _ Hx2) as Hb2. fold c in Hb2, Hpn, Hx2, Hxc.
  assert (Z.abs (fill_flow c f) ≤ fill_notional c f) as Hfl by (unfold fill_flow; destruct (f_side f); simpl; lia).
  assert (realized s2 = realized s + pnl) as Er2 by (rewrite Er; apply sat64_id; change (realized s1) with (realized s); mlia).
  assert (State.balance s2 = State.balance s - fee + pnl) as Eb2 by (rewrite Ebal, Eb; apply sat64_id; mlia).
  set (k2 := Kernel.push (Kernel.forget (Kernel.set_state k s2) (f_order f)) (OFilled f)).
  assert (h < length (holdings s))%nat as Hlen by by eapply lookup_lt_Some.
  destruct (IH k2 x2 (B + fill_notional c f) (Q + f_qty f))
    as (k' & x' & Ek & Hx' & Hq' & Hr' & Hf' & Hb'); simpl; rewrite ?Hxc; try done; try lia.
  - by rewrite Em.
  - unfold State.holding_index. rewrite Eh. change (holdings s1) with (holdings s).
    rewrite (position_insert_same _ _ _ x) by (by rewrite ?Hxi). done.
  - rewrite Eh. change (holdings s1) with (holdings s). by rewrite list_lookup_insert_eq.
  - assert (fee_schedule s2 = fee_schedule s) as Esch' by by rewrite Esch.
    split; simpl; rewrite ?Hxc, ?Esch', ?Efe, ?Ef; fold c; lia.
  - exists k', x'. split; [done|]. split; [done|]. simpl in Hr', Hf', Hb'.
    rewrite Esch in *. change (fee_schedule s1) with (fee_schedule s) in *. rewrite Hxc in *. lia.
Qed.
(** The profit of a session is its cash.  A one-way account that books
    any sequence of fills of an instrument from a flat position, within the
    machine's range, never panics; the position is the exact signed sum of the
    fills, the realized profit is the money the trades moved plus the basis of
    what is still open, and once the position is flat again the realized
    profit is exactly what was received less what was paid, whatever the order
    of openings, partial closes and reversals and whatever was truncated on
    the way; the balance moves by that profit less the fees. *)
Theorem session_profit_is_cash k (h : nat) (x : Holding M) i (fs : list Fill)
    (s := k_state k) (c := h_contract x)
    (Hmode : mode s = OneWay) (Hok : ledger_ok s)
    (Hi : State.holding_index s i = Some h) (Hx : holdings s !! h = Some x) (Hflat : h_qty x = 0)
    (Hfs : Forall (fill_of i) fs) (Hc : 0 ≤ c_tick_cash c ∧ i64 (c_tick_cash c))
    (Hqty : gross_qty fs ≤ I64_MAX)
    (Hreal : Z.abs (realized s) + 2 * gross_notional c fs ≤ I64_MAX)
    (Hfees : Z.abs (fees s) + gross_fees (fee_schedule s) c fs ≤ I64_MAX)
    (Hbal : Z.abs (State.balance s) + 2 * gross_notional c fs + gross_fees (fee_schedule s) c fs ≤ I64_MAX) :
  ∃ k' x', Kernel.book_fills k h fs = Ret k' ∧ holdings (k_state k') !! h = Some x' ∧
    h_qty x' = net_qty fs ∧
    realized (k_state k') = realized s + net_flow c fs + basis x' ∧
    (net_qty fs = 0 →
      realized (k_state k') = realized s + net_flow c fs ∧
      State.balance (k_state k') =
        State.balance s + net_flow c fs - fees_paid (fee_schedule s) c fs).
Proof.
  destruct Hc as [Hk Hki]. pose proof (gross_notional_nonneg c i fs Hk Hfs) as HG.
  assert (basis x = 0) as Bx by (unfold basis; by rewrite Hflat).
  assert (pos_ok 0 0 x) as Hp by (split; [rewrite entry_cost_zero by done|rewrite Hflat]; lia).
  destruct (book_fills_cash fs k h x i 0 0) as (k' & x' & E & Hx' & Hq & Hr & _ & Hb); fold s c; try done.
  { split; fold c; rewrite ?Bx, ?Z.sub_0_r; lia. }
  fold s c in Hr, Hb. exists k', x'. split; [done|]. split; [done|]. split; [lia|]. split; [lia|].
  intros Hn. assert (basis x' = 0) as Bx' by (unfold basis; replace (h_qty x') with 0 by lia; done). lia.
Qed.
End positions.

(** A long is opened, closed and reversed, and the short is closed. *)
Definition demo_fill (n : Z) (sd : Side) (p q : Z) : Fill :=
  mkFill (mkStamp n n) 7 n n sd Open p q Taker.
Definition demo_fills : list Fill :=
  [demo_fill 1 Buy 100 7; demo_fill 2 Sell 103 10; demo_fill 3 Buy 101 3].

Lemma session_profit_is_cash_witness :
  ∃ k', Kernel.book_fills DemoAccount.kernel 0 demo_fills = Ret k' ∧
    realized (k_state k') = 2700 ∧ State.balance (k_state k') = 1000000 + 2700 - 203.
Proof.
  assert (holdings (k_state DemoAccount.kernel) !! 0%nat =
    Some (Holding.fresh 7 (Matcher.l0 7) DemoAccount.contract DemoAccount.table)) as Hx by reflexivity.
  assert (Forall (fill_of 7) demo_fills) as Hfs
    by (repeat (apply Forall_cons; split; [unfold fill_of; simpl; mlia|]); apply Forall_nil_2).
  destruct (session_profit_is_cash DemoAccount.kernel 0 _ 7 demo_fills eq_refl demo_ledger_ok eq_refl Hx
    eq_refl Hfs ltac:(simpl; mlia) ltac:(vm_compute; congruence) ltac:(vm_compute; congruence)
    ltac:(vm_compute; congruence) ltac:(vm_compute; congruence)) as (k' & x' & E & _ & _ & _ & H).
  exists k'. split; [exact E|]. destruct (H eq_refl) as [Hr Hb]. split; [rewrite Hr|rewrite Hb]; reflexivity.
Defined.
