(* ===== verification/Enforcement.v ===== *)
(** The margin check is enforced: no event that marks the account leaves it
    below its requirement; and what a liquidation leaves behind. *)

From S2P Require Import Prelude Slices SortedVec Types Order Currency Margin Liquidation Funding.
From S2P Require Import Tick RestingBook L0 Depth L1 Matcher Cost Event Kernel Ledger.

Section enforcement.
Context {M : Type} `{!MatcherOps M}.
Implicit Types (s : State M) (k : Kernel M) (x : Holding M).

(** * What happens to every holding

    A preorder on holdings that each elementary operation follows is followed
    by every event, holding by holding. *)

Definition closed x (m : M) : Holding M :=
  mkHolding (h_instrument x) m (h_contract x) (h_table x) 0 0 0 0 (h_mark x)
    EntryCost.default EntryCost.default.

Record stable (md : PositionMode) (R : relation (Holding M)) : Prop := {
  st_pre :: PreOrder R;
  st_engine x m : R x (Holding.set_engine x m);
  st_open x short q p sg x' : (md = OneWay → short = false) →
    Holding.open_leg x short q p sg = Ret x' → R x x';
  st_close x short q p pnl x' : (md = OneWay → short = false) →
    Holding.close_leg x short q p = Ret (pnl, x') → R x x';
  st_closed x m : R x (closed x m);
}.

Definition all (P : Holding M → Prop) s : Prop := Forall P (holdings s).

Section stable_steps.
Variables (md : PositionMode) (R : relation (Holding M)).
Hypothesis HR : stable md R.

(** The mode never changes; the holdings follow [R] one by one. *)
Definition keeps s s' : Prop := mode s' = mode s ∧ Forall2 R (holdings s) (holdings s').

Lemma keeps_refl s s' : mode s' = mode s → holdings s' = holdings s → keeps s s'.
Proof. intros Hm Hh. split; [done|]. rewrite Hh. pose proof (st_pre md R HR). reflexivity. Qed.
Lemma keeps_trans s1 s2 s3 : keeps s1 s2 → keeps s2 s3 → keeps s1 s3.
Proof.
  intros [E1 H1] [E2 H2]. split; [congruence|]. pose proof (st_pre md R HR). by transitivity (holdings s2).
Qed.

Lemma put_keeps s h x x' : State.at_ s h = Ret x → R x x' → keeps s (State.put s h x').
Proof.
  intros Hx Hr. split; [done|]. pose proof (st_pre md R HR). unfold State.at_ in Hx.
  destruct (holdings s !! h) as [y|] eqn:E; [|done]. injection Hx as ->. simpl.
  rewrite <-(list_insert_id _ _ _ E) at 1. apply Forall2_insert; [reflexivity|done].
Qed.

Lemma at_put s h x x' : State.at_ s h = Ret x → State.at_ (State.put s h x') h = Ret x'.
Proof.
  unfold State.at_. destruct (holdings s !! h) as [y|] eqn:E; [|done]. intros _. simpl.
  by rewrite list_lookup_insert_eq by by eapply lookup_lt_Some.
Qed.

Lemma apply_fill_keeps s f s' : mode s = md → State.apply_fill s f = Ret s' → keeps s s'.
Proof.
  intros Hm H. unfold State.apply_fill in H. apply bind_ret in H as (h & _ & H). case_bool_decide as Hh.
  - unfold State.apply_fill_hedged in H. apply bind_ret in H as (h1 & _ & H).
    apply bind_ret in H as (x & Hx & H). assert (md ≠ OneWay) as Hne by congruence. destruct (f_offset f).
    + apply bind_ret in H as (y & Hy & [= <-]). apply (put_keeps s h1 x); [done|].
      by refine (st_open md R HR _ _ _ _ _ _ _ Hy).
    + apply bind_ret in H as ([pnl y] & Hy & [= <-]). apply (put_keeps s h1 x y); [done|].
      by refine (st_close md R HR _ _ _ _ _ _ _ Hy).
  - apply bind_ret in H as (sg & _ & H). apply bind_ret in H as (x & Hx & H). destruct (_ && _).
    + apply bind_ret in H as ([pnl y] & Hy & H). apply bind_ret in H as (r & _ & H).
      assert (keeps s (State.put s h y)) as K
        by (apply (put_keeps s h x y Hx); by refine (st_close md R HR _ _ _ _ _ _ _ Hy)).
      destruct (r >? 0); [|by injection H as <-].
      apply bind_ret in H as (z & Hz & [= <-]). eapply keeps_trans; [exact K|].
      apply (put_keeps (State.put s h y) h y z); [by eapply at_put|].
      by refine (st_open md R HR _ _ _ _ _ _ _ Hz).
    + apply bind_ret in H as (y & Hy & [= <-]). apply (put_keeps s h x y Hx).
      by refine (st_open md R HR _ _ _ _ _ _ _ Hy).
Qed.

Lemma book_fills_keeps fs k h k' : mode (k_state k) = md → Kernel.book_fills k h fs = Ret k' →
  keeps (k_state k) (k_state k').
Proof.
  revert k. induction fs as [|f fs IH]; intros k Hm H; simpl in H; [injection H as <-; by apply keeps_refl|].
  apply bind_ret in H as (x & _ & H). apply bind_ret in H as (s & Hs & H).
  unshelve epose proof (apply_fill_keeps _ _ _ _ Hs) as K; [exact Hm|].
  change (keeps (k_state k) s) in K. eapply keeps_trans; [exact K|].
  destruct K as [K _]. refine (IH _ _ H). exact (eq_trans K Hm).
Qed.

Lemma liquidate_holding_keeps s h p o s' : State.liquidate_holding s h p = Ret (o, s') → keeps s s'.
Proof.
  intros H. unfold State.liquidate_holding in H. apply bind_ret in H as (x & Hx & H).
  apply bind_ret in H as (q & _ & H). destruct (m_cancel_all (h_engine x)) as [n m]. injection H as <- <-.
  apply (put_keeps s h x (closed x m) Hx). apply (st_closed md R HR).
Qed.

Lemma liquidate_each_keeps hs s os s' : State.liquidate_each s hs = Ret (os, s') → keeps s s'.
Proof.
  revert s os. induction hs as [|h hs IH]; intros s os H; simpl in H; [injection H as <- <-; by apply keeps_refl|].
  apply bind_ret in H as (x & _ & H). apply bind_ret in H as ([o s1] & H1 & H).
  apply bind_ret in H as ([os' s2] & H2 & [= <- <-]).
  eapply keeps_trans; [by eapply liquidate_holding_keeps|by eapply IH].
Qed.

Lemma liquidate_keeps s p os s' : State.liquidate s p = Ret (os, s') → keeps s s'.
Proof.
  intros H. unfold State.liquidate in H. apply bind_ret in H as ([out s1] & H1 & [= <- <-]).
  apply keeps_trans with s1; [|by apply keeps_refl]. unfold State.close_all in H1. destruct (_ =? _)%nat.
  - apply bind_ret in H1 as ([o s2] & H2 & [= _ <-]). by eapply liquidate_holding_keeps.
  - by eapply liquidate_each_keeps.
Qed.

Lemma check_liquidation_keeps k mark k' : Kernel.check_liquidation k mark = Ret k' →
  keeps (k_state k) (k_state k').
Proof.
  intros H. unfold Kernel.check_liquidation in H. destruct (_ || _); [injection H as <-; by apply keeps_refl|].
  apply bind_ret in H as (b & _ & H). destruct b; [|injection H as <-; by apply keeps_refl].
  apply bind_ret in H as ([out s] & H1 & [= <-]). by eapply liquidate_keeps.
Qed.

Lemma withdrawn_keeps s f s1 :
  match State.holding_index s (f_instrument f) with
  | Some h => x ← State.at_ s h; mret (State.put s h (Holding.set_engine x (m_cancel (h_engine x) (f_order f)).2))
  | None => mret s
  end = Ret s1 → keeps s s1.
Proof.
  destruct (State.holding_index _ _) as [h|]; [|intros [= <-]; by apply keeps_refl].
  intros H. apply bind_ret in H as (x & Hx & [= <-]). eapply put_keeps; [exact Hx|apply (st_engine md R HR)].
Qed.

Lemma all_follows (P : Holding M → Prop) s s' :
  (∀ x x', R x x' → P x → P x') → keeps s s' → all P s → all P s'.
Proof. intros HP [_ H]. unfold all. induction H; intros HF; inversion HF; constructor; eauto. Qed.
End stable_steps.

(** A property kept by the operations, as a preorder. *)
Definition carried (P : Holding M → Prop) : relation (Holding M) := λ x x', P x → P x'.
#[local] Instance carried_pre P : PreOrder (carried P).
Proof. unfold carried. split; [by intros x|intros x y z; auto]. Qed.

(** * What a liquidation leaves *)

Lemma liquidate_holding_spec s h p o s' : State.liquidate_holding s h p = Ret (o, s') →
  ∃ x m, holdings s !! h = Some x ∧ holdings s' = <[h := closed x m]> (holdings s).
Proof.
  intros H. unfold State.liquidate_holding in H. apply bind_ret in H as (x & Hx & H).
  apply bind_ret in H as (q & _ & H). destruct (m_cancel_all (h_engine x)) as [n m]. injection H as _ <-.
  exists x, m. unfold State.at_ in Hx. destruct (holdings s !! h); [|done]. by injection Hx as ->.
Qed.

Definition flat_at s (j : nat) : Prop := ∀ x, holdings s !! j = Some x → Holding.flat x = true.

Lemma is_flat_iff s : State.is_flat s = true ↔ ∀ j, flat_at s j.
Proof.
  unfold State.is_flat, flat_at. rewrite forallb_forall. split.
  - intros H j x Hx. apply H, list_elem_of_In. by eapply list_elem_of_lookup_2.
  - intros H x Hx%list_elem_of_In. apply list_elem_of_lookup in Hx as [j Hj]. by eapply H.
Qed.

Lemma liquidate_each_flat hs s os s' : State.liquidate_each s hs = Ret (os, s') →
  ∀ j, j ∈ hs ∨ flat_at s j → flat_at s' j.
Proof.
  revert s os. induction hs as [|h hs IH]; intros s os H; simpl in H.
  { injection H as _ <-. intros j [Hj|Hj]; [by apply not_elem_of_nil in Hj|done]. }
  apply bind_ret in H as (y & _ & H). apply bind_ret in H as ([o s1] & H1 & H).
  apply bind_ret in H as ([os' s2] & H2 & [= _ <-]). intros j Hj. apply (IH _ _ H2).
  destruct (liquidate_holding_spec _ _ _ _ _ H1) as (x & m & Hx & E). unfold flat_at. rewrite E.
  destruct (decide (j = h)) as [->|Hne].
  - right. intros z. rewrite list_lookup_insert_eq by by eapply lookup_lt_Some. by intros [= <-].
  - rewrite list_lookup_insert_ne by done. apply or_comm in Hj as [Hj|Hj]; [by right|].
    left. apply elem_of_cons in Hj as [|]; done.
Qed.

Lemma close_all_flat s p os s' : State.close_all s p = Ret (os, s') → State.is_flat s' = true.
Proof.
  intros H. apply is_flat_iff. unfold State.close_all in H. destruct (Nat.eqb_spec (length (holdings s)) 1) as [E|E].
  - apply bind_ret in H as ([o s1] & H1 & [= _ <-]).
    destruct (liquidate_holding_spec _ _ _ _ _ H1) as (x & m & Hx & Eh). intros j z. rewrite Eh.
    destruct (holdings s) as [|a [|b l]]; try done. destruct j as [|j]; [by intros [= <-]|done].
  - intros j. apply (liquidate_each_flat _ _ _ _ H). destruct (holdings s !! j) as [x|] eqn:Ej; [|right; unfold flat_at; by rewrite Ej].
    destruct (Holding.flat x) eqn:Ef; [right; unfold flat_at; rewrite Ej; by intros ? [= <-]|left].
    apply list_elem_of_In, List.filter_In. split; [|by rewrite Ej, Ef].
    apply List.in_seq. apply lookup_lt_Some in Ej. lia.
Qed.

(** The account is closed out at zero; a balance of [i64::MIN] cannot be
    negated and ends one unit below. *)
Lemma liquidate_closes s p os s' : ledger_ok s → State.liquidate s p = Ret (os, s') →
  State.is_flat s' = true ∧ -1 ≤ State.balance s' ≤ 0.
Proof.
  intros Hok H. unfold State.liquidate in H. apply bind_ret in H as ([out s1] & H1 & [= _ <-]).
  destruct (close_all_moved _ _ _ _ Hok H1) as (ms & M1 & _). pose proof (moved_ok _ _ _ M1) as Hok1.
  split; [exact (close_all_flat _ _ _ _ H1)|].
  destruct (credit_balance s1 (Cash.neg (State.balance s1)) Hok1 ltac:(apply sat64_range)) as [E _].
  change (State.balance (State.add_forfeited ?a ?b)) with (State.balance a). rewrite E.
  pose proof (balance_i64 s1 Hok1). unfold Cash.add, Cash.neg. mlia.
Qed.

(** * The measure of the account *)

(** The account as the check sees it: a single one-way holding is judged at
    the price of the event, several or hedged ones each at its own mark. *)
Definition marked_at s (mark : PriceTicks) : State M :=
  match holdings s with
  | [x] => if bool_decide (mode s = Hedge) then s else State.with_holdings s [Holding.set_mark x mark]
  | _ => s
  end.

(** Above the requirement. *)
Definition solvent s : Prop := ∃ m, State.maintenance s = Ret m ∧ m < State.equity s.

Lemma tier_maintenance_i64 t c p q m : TierTable.maintenance t c p q = Ret m → i64 m.
Proof.
  unfold TierTable.maintenance. intros H. apply bind_ret in H as (x & _ & [= <-]).
  destruct (_ <? 0); [by vm_compute|apply sat64_range].
Qed.

Lemma unrealized_cost_i64 c cost mark q : i64 (unrealized_from_cost c cost mark q).
Proof. unfold unrealized_from_cost. destruct (q =? 0); [by vm_compute|apply saturate_range]. Qed.

Lemma cash_add_0_r a : i64 a → Cash.add a Cash.ZERO = a.
Proof. intros. unfold Cash.add, Cash.ZERO. rewrite Z.add_0_r. by apply sat64_id. Qed.
Lemma cash_add_0_l a : i64 a → Cash.add Cash.ZERO a = a.
Proof. intros. unfold Cash.add, Cash.ZERO. rewrite Z.add_0_l. by apply sat64_id. Qed.

(** The shortcut for a single one-way holding agrees with the account-wide
    measure. *)
Lemma shortcut_agrees s x mark b : holdings s = [x] → mode s = OneWay → h_short_qty x = 0 → h_qty x ≠ 0 →
  Position.is_liquidatable
    (Position.with_entry_cost (Position.new (h_contract x) (h_entry x) (h_qty x) (State.balance s))
       (Holding.entry_cost x)) (h_table x) mark = Ret b →
  ∃ m, State.maintenance (marked_at s mark) = Ret m ∧ b = (State.equity (marked_at s mark) <=? m).
Proof.
  intros Hh Hm Hs Hq H. unfold marked_at. rewrite Hh, bool_decide_false by congruence.
  unfold Position.is_liquidatable in H. apply bind_ret in H as (o & H & [= <-]).
  unfold Position.assess in H. unfold Position.is_flat in H; simpl in H.
  destruct (Z.eqb_spec (h_qty x) 0); [done|]. unfold Position.equity, Position.unrealized in H. simpl in H.
  apply bind_ret in H as (m & Hmt & H). unfold Position.maintenance in Hmt. simpl in Hmt.
  pose proof (tier_maintenance_i64 _ _ _ _ _ Hmt) as Hmi. exists m. split.
  - unfold State.maintenance, State.maintenance_loop, Holding.maintenance, Holding.maintenance_at, QtyLots.is_zero. simpl.
    rewrite Hs. destruct (Z.eqb_spec (h_qty x) 0); [done|]. simpl. rewrite Hmt. simpl.
    by rewrite cash_add_0_r, cash_add_0_l by done.
  - set (u := unrealized_from_cost _ _ _ _) in H. pose proof (unrealized_cost_i64 (h_contract x) (Holding.entry_cost x) mark (h_qty x)) as Hu.
    fold u in Hu.
    assert (State.equity (State.with_holdings s [Holding.set_mark x mark]) = Cash.add (State.balance s) u) as ->.
    { unfold State.equity. change (State.balance (State.with_holdings s ?l)) with (State.balance s). f_equal.
      unfold State.unrealized, Holding.unrealized, Holding.unrealized_at, Holding.short_entry_cost; simpl.
      rewrite Hs. change (unrealized_from_cost (h_contract x) _ mark 0) with Cash.ZERO.
      change (Holding.entry_cost (Holding.set_mark x mark)) with (Holding.entry_cost x). fold u.
      by rewrite cash_add_0_r, cash_add_0_l by (try done; rewrite cash_add_0_r; done). }
    destruct (_ <=? m); [by injection H as <-|]. apply bind_ret in H as (l & _ & H).
    by apply bind_ret in H as (d & _ & [= <-]).
Qed.

(** No one-way account has a short leg. *)
Definition one_way_ok s : Prop := mode s = OneWay → all (λ x, h_short_qty x = 0) s.

Lemma open_leg_frame x short q p sg x' : Holding.open_leg x short q p sg = Ret x' →
  h_instrument x' = h_instrument x ∧ h_mark x' = h_mark x ∧ h_contract x' = h_contract x ∧
  (short = false → h_short_qty x' = h_short_qty x).
Proof.
  unfold Holding.open_leg. destruct (QtyLots.is_zero q); [by intros [= <-]|].
  destruct short; intros H; by apply bind_ret in H as (t & _ & [= <-]).
Qed.

Lemma close_leg_frame x short q p pnl x' : Holding.close_leg x short q p = Ret (pnl, x') →
  h_instrument x' = h_instrument x ∧ h_mark x' = h_mark x ∧ h_contract x' = h_contract x ∧
  (short = false → h_short_qty x' = h_short_qty x).
Proof.
  unfold Holding.close_leg. destruct short; (destruct (QtyLots.is_zero _); [by intros [= _ <-]|]);
  intros H; apply bind_ret in H as ([v pn] & _ & H); apply bind_ret in H as (t & _ & H);
  by apply bind_ret in H as (l & _ & [= _ <-]).
Qed.

Lemma no_short_stable : stable OneWay (carried (λ x, h_short_qty x = 0)).
Proof.
  split; [apply _|by intros x m Hx| | |by intros x m Hx].
  - intros x short q p sg x' Hs (_ & _ & _ & E)%open_leg_frame Hx. by rewrite (E (Hs eq_refl)).
  - intros x short q p pnl x' Hs (_ & _ & _ & E)%close_leg_frame Hx. by rewrite (E (Hs eq_refl)).
Qed.

(** Marks move on ticks only, and the instrument of a holding never changes. *)
Definition same_frame : relation (Holding M) := λ x x',
  h_instrument x' = h_instrument x ∧ h_mark x' = h_mark x ∧ h_contract x' = h_contract x.

Lemma frame_stable md : stable md same_frame.
Proof.
  split; try done.
  - split; [done|]. intros x y z (?&?&?) (?&?&?). unfold same_frame. split_and!; congruence.
  - intros x short q p sg x' _ (?&?&?&_)%open_leg_frame. done.
  - intros x short q p pnl x' _ (?&?&?&_)%close_leg_frame. done.
Qed.

Lemma keeps_one_way s s' : (mode s = OneWay → keeps (carried (λ x, h_short_qty x = 0)) s s') → mode s' = mode s →
  one_way_ok s → one_way_ok s'.
Proof.
  intros H Hm Hok Hs'. rewrite Hm in Hs'. eapply all_follows; [|by apply H|by apply Hok]. by intros x x' Hc.
Qed.

(** The check: nothing happens to an account above its requirement, and one
    that is not is closed. *)
Lemma check_liquidation_spec k mark k' : ledger_ok (k_state k) → one_way_ok (k_state k) →
  enforce_liquidation (k_state k) = true → Kernel.check_liquidation k mark = Ret k' →
  (k' = k ∧ (State.is_flat (k_state k) = true ∨ solvent (marked_at (k_state k) mark))) ∨
  (State.is_flat (k_state k') = true ∧ -1 ≤ State.balance (k_state k') ≤ 0 ∧ working k' = []).
Proof.
  intros Hok Hone He H. set (s := k_state k) in *. unfold Kernel.check_liquidation in H. fold s in H. rewrite He in H.
  cbn [negb orb] in H. destruct (State.is_flat s) eqn:Ef; [injection H as <-; left; auto|].
  apply bind_ret in H as (b & Hb & H). destruct b.
  { right. apply bind_ret in H as ([out s1] & H1 & [= <-]). destruct (liquidate_closes _ _ _ _ Hok H1). auto. }
  injection H as <-. left. split; [done|]. right. unfold solvent. destruct (_ || _) eqn:Em.
  - apply bind_ret in Hb as (m & Hmm & [= Hlt%Z.leb_gt]). exists m. unfold marked_at.
    destruct (holdings s) as [|x [|y l]] eqn:Eh; try done.
    apply orb_true_iff in Em as [Em|Em]; [|done]. rewrite Em. done.
  - apply orb_false_iff in Em as [Em%bool_decide_eq_false El]. apply bind_ret in Hb as (p & Hp & Hb).
    apply bind_ret in Hb as (x & Hx & Hb). unfold State.position in Hp. rewrite Hx in Hp. injection Hp as <-.
    assert (mode s = OneWay) as Hm by (destruct (mode s); done).
    unfold State.holding, State.at_ in Hx. destruct (holdings s) as [|y [|z l]] eqn:Eh; simpl in Hx; try done.
    injection Hx as ->. pose proof (Hone Hm) as Hsh. unfold all in Hsh. rewrite Eh in Hsh. apply Forall_cons in Hsh as [Hsh _].
    destruct (shortcut_agrees s x mark false Eh Hm Hsh) as (m & Hmm & Hlt); [|done|].
    + intros Hq. unfold State.is_flat in Ef. rewrite Eh in Ef. simpl in Ef. unfold Holding.flat, QtyLots.is_zero in Ef.
      by rewrite Hq, Hsh in Ef.
    + exists m. split; [done|]. symmetry in Hlt. by apply Z.leb_gt in Hlt.
Qed.

(** The price an event is checked at, when it is one that is checked. *)
Definition judged s (e : Event) : option PriceTicks :=
  match e with
  | ETick i t => _ ← Kernel.route s i; Some (t_last t)
  | EVenueFill f _ => if bool_decide (matching s = Venue) then Some (f_price f) else None
  | EFunding i _ _ mark =>
      h ← Kernel.route s i; x ← holdings s !! h; if Holding.flat x then None else Some mark
  | _ => None
  end.

(** The state the check is made on. *)
Definition checked_at k e mark k1 : Prop :=
  ledger_ok (k_state k1) ∧ mode (k_state k1) = mode (k_state k) ∧
  enforce_liquidation (k_state k1) = enforce_liquidation (k_state k) ∧
  (one_way_ok (k_state k) → one_way_ok (k_state k1)) ∧
  Forall (λ o, ¬ is_liquidated o) (outputs k1) ∧
  (∀ i t x, e = ETick i t → holdings (k_state k1) = [x] → h_mark x = mark).

Lemma on_tick_checked k i t h k' : ledger_ok (k_state k) → outputs k = [] →
  Kernel.on_tick k h t = Ret k' →
  ∃ k1, Kernel.check_liquidation k1 (t_last t) = Ret k' ∧ checked_at k (ETick i t) (t_last t) k1.
Proof.
  intros Hok Ho H. unfold Kernel.on_tick in H. apply bind_ret in H as (x & Hx & H).
  set (s0 := State.with_now (k_state k) (exch (t_stamp t))) in *.
  set (s1 := State.put s0 h (Holding.set_mark x (t_last t))) in *.
  assert (keeps (carried (λ x, h_short_qty x = 0)) s0 s1) as K1
    by (apply (put_keeps _ _ no_short_stable _ _ x); [exact Hx|by intros ?]).
  unfold State.at_ in Hx. simpl in Hx.
  assert (∀ y, holdings s1 = [y] → h_mark y = t_last t) as Hmk.
  { intros y. simpl. destruct (holdings (k_state k)) as [|a [|b l]]; destruct h; simpl in *; try done; intros [= <-]; try done. by destruct h. }
  case_bool_decide.
  - exists (Kernel.set_state k s1). split; [done|]. unfold checked_at. simpl. split_and!; try done.
    + intros Hone. apply (keeps_one_way s0); [|done|exact Hone]. by intros.
    + rewrite Ho. apply Forall_nil_2.
    + intros i' t' y [= _ <-] E. by apply Hmk.
  - apply bind_ret in H as ([fs m] & _ & H). apply bind_ret in H as (k2 & H2 & H).
    set (s2 := State.put s1 h (Holding.set_engine (Holding.set_mark x (t_last t)) m)) in *.
    assert (State.at_ s1 h = Ret (Holding.set_mark x (t_last t))) as Hx1 by by eapply at_put.
    assert (keeps (carried (λ x, h_short_qty x = 0)) s0 s2) as K2.
    { eapply keeps_trans; [apply no_short_stable|exact K1|].
      apply (put_keeps _ _ no_short_stable _ _ _ _ Hx1). apply (st_engine _ _ no_short_stable). }
    assert (kmoved is_trade (Kernel.set_state k s2) k2) as (ms & os & (_ & Hok2 & _ & Em & _ & Ee) & _)
      by (eapply book_fills_moved; [|exact H2]; done).
    assert (∀ y, holdings s2 = [y] → h_mark y = t_last t) as Hmk2.
    { intros y. simpl. destruct (holdings (k_state k)) as [|a [|b l]]; destruct h; simpl in *; try done; intros [= <-]; try done. by destruct h. }
    exists k2. split; [done|]. unfold checked_at. split_and!; [done|exact Em|exact Ee| | |].
    + intros Hone. apply (keeps_one_way s0); [|exact Em|exact Hone]. intros Hm.
      eapply keeps_trans; [apply no_short_stable|exact K2|].
      exact (book_fills_keeps OneWay _ no_short_stable _ (Kernel.set_state k s2) _ _ Hm H2).
    + rewrite (book_fills_outputs _ _ _ _ H2). simpl. rewrite Ho. simpl. apply Forall_fmap, Forall_true. by intros f Hf.
    + intros i' t' y [= _ <-] E.
      pose proof (book_fills_keeps _ same_frame (frame_stable _) _ _ _ _ eq_refl H2) as K3. simpl in K3.
      destruct K3 as [_ K3]. rewrite E in K3.
      apply Forall2_cons_inv_r in K3 as (a & l & (_ & Ea & _) & Hl & Es).
      apply Forall2_nil_inv_r in Hl as ->. rewrite Ea. by apply Hmk2.
Qed.

Lemma on_venue_fill_checked k f fee k' : ledger_ok (k_state k) → outputs k = [] → event_ok (EVenueFill f fee) →
  matching (k_state k) = Venue → Kernel.on_venue_fill k f fee = Ret k' →
  ∃ k1, Kernel.check_liquidation k1 (f_price f) = Ret k' ∧ checked_at k (EVenueFill f fee) (f_price f) k1.
Proof.
  intros Hok Ho He Hv H. unfold Kernel.on_venue_fill in H. rewrite bool_decide_true in H by done. cbn [negb] in H.
  apply bind_ret in H as (s1 & H1 & H). apply bind_ret in H as (y & _ & H).
  set (s0 := State.with_now (k_state k) (exch (f_stamp f))) in *.
  pose proof (withdrawn_keeps _ _ no_short_stable _ _ _ H1) as K1.
  assert (moved s0 s1 []) as M1.
  { destruct (State.holding_index _ _) as [h|]; [|injection H1 as <-; by apply moved_frame].
    apply bind_ret in H1 as (x & _ & [= <-]). by apply moved_put. }
  set (fs := match fee with Reported _ => _ | _ => _ end) in H.
  assert (moved s1 fs.2 [] ∧ i64 fs.1 ∧ holdings fs.2 = holdings s1) as (M2 & Hf & Eh).
  { pose proof (moved_ok _ _ _ M1) as Hok1. unfold fs. destruct fee; simpl; split_and!;
      try (by apply moved_frame); try done; try (by apply charge_i64); by vm_compute. }
  clearbody fs. destruct fs as [fee' s2]. simpl in M2, Hf, Eh. apply bind_ret in H as (s3 & H3 & H).
  destruct (paid_fill_moved _ _ _ _ (moved_ok _ _ _ M2) Hf H3) as (ms & M3 & _).
  pose proof (moved_trans _ _ _ _ _ (moved_trans _ _ _ _ _ M1 M2) M3) as (_ & Hok3 & _ & Em & _ & Ee).
  eexists. split; [exact H|]. unfold checked_at. split_and!; [exact Hok3|exact Em|exact Ee| | |].
  - intros Hone. apply (keeps_one_way s0); [|exact Em|exact Hone]. intros Hm.
    eapply keeps_trans; [apply no_short_stable|exact K1|].
    assert (mode s2 = OneWay) as Hm2.
    { destruct M1 as (_ & _ & _ & E1 & _), M2 as (_ & _ & _ & E2 & _). congruence. }
    unshelve epose proof (apply_fill_keeps _ _ no_short_stable _ _ _ _ H3) as [E3 K3]; [exact Hm2|]. split.
    + destruct M2 as (_ & _ & _ & E2 & _). exact (eq_trans E3 E2).
    + rewrite <-Eh. exact K3.
  - simpl. rewrite Ho. apply Forall_singleton. by intros Hf'.
  - by intros i t x [= ].
Qed.

Lemma on_funding_checked k i a r mark k' : ledger_ok (k_state k) → outputs k = [] →
  judged (k_state k) (EFunding i a r mark) = Some mark → Kernel.on_funding k i a r mark = Ret k' →
  ∃ k1, Kernel.check_liquidation k1 mark = Ret k' ∧ checked_at k (EFunding i a r mark) mark k1.
Proof.
  intros Hok Ho Hj H. unfold Kernel.on_funding in H. simpl in Hj.
  assert (Kernel.route (State.with_now (k_state k) a) i = Kernel.route (k_state k) i) as Er by by destruct i.
  rewrite Er in H. destruct (Kernel.route (k_state k) i) as [h|]; [|done]. simpl in Hj.
  apply bind_ret in H as (x & Hx & H). unfold State.at_ in Hx. simpl in Hx.
  destruct (holdings (k_state k) !! h) as [y|]; [|done]. injection Hx as ->. simpl in Hj.
  destruct (Holding.flat x); [done|]. set (s0 := State.with_now (k_state k) a) in *.
  pose proof (moved_funding s0 (Kernel.funding_of x a r mark) Hok (funding_of_i64 x a r mark)) as (_ & Hok1 & _).
  eexists. split; [exact H|]. unfold checked_at. split_and!; [exact Hok1|done|done|done| |by intros ? ? ? [= ]].
  simpl. rewrite Ho. apply Forall_singleton. by intros Hf.
Qed.

Lemma judged_checked k e k' mark : ledger_ok (k_state k) → event_ok e → judged (k_state k) e = Some mark →
  Kernel.apply k e = Ret k' →
  ∃ k1, Kernel.check_liquidation k1 mark = Ret k' ∧ checked_at (mkKernel (k_state k) [] (working k)) e mark k1.
Proof.
  intros Hok He Hj H. set (k0 := mkKernel (k_state k) [] (working k)). unfold Kernel.apply in H. fold k0 in H.
  destruct e; try done; simpl in Hj.
  - change (k_state k0) with (k_state k) in H.
    destruct (Kernel.route (k_state k) instrument) as [h|]; [|done]. injection Hj as <-.
    apply (on_tick_checked k0 instrument tick h k'); [exact Hok|done|exact H].
  - assert (mark = mark0) as ->; [|by apply (on_funding_checked k0 instrument at_ rate mark0 k')].
    destruct (Kernel.route _ _) as [h|]; [|done]. simpl in Hj. destruct (_ !! h) as [x|]; [|done]. simpl in Hj.
    destruct (Holding.flat x); [done|]. by injection Hj.
  - case_bool_decide; [|done]. injection Hj as <-. by apply (on_venue_fill_checked k0 fill fee k').
Qed.

Lemma marked_at_same s mark : (∀ x, holdings s = [x] → h_mark x = mark) → marked_at s mark = s.
Proof.
  intros H. unfold marked_at. destruct (holdings s) as [|x [|y l]] eqn:E; try done.
  case_bool_decide; [done|]. specialize (H x eq_refl).
  assert (Holding.set_mark x mark = x) as -> by (destruct x; simpl in *; by subst).
  unfold State.with_holdings. rewrite <-E. by destruct s.
Qed.

End enforcement.

(** A long of ten lots bought at 100 on a balance of 2000, marked at 98. *)
Module Leveraged.
Definition holding : Holding Matcher :=
  Holding.set_long (Holding.fresh 7 (Matcher.l0 7) DemoAccount.contract DemoAccount.table)
    10 100 (EntryCost.set 10 100 100000).
Definition kernel : Kernel Matcher :=
  mkKernel (State.put (State.new 7 DemoAccount.contract DemoAccount.table 2000) 0 holding) [] [3].
End Leveraged.


(** * What a liquidation leaves behind

    Two runs in which an account that was just closed trades again on a balance
    of zero. *)

Definition tick_on (i : InstrumentId) (n last : Z) : Event :=
  ETick (Some i) (Tick.trades_only (mkStamp n n) last last last).

(** * An order on a flat holding outlives the liquidation of another *)

Module TwoHoldings.
Definition state : State Matcher :=
  State.open_holding (State.new 7 DemoAccount.contract DemoAccount.table 2000) 8 DemoAccount.contract DemoAccount.table.
Definition events : list Event :=
  [tick_on 7 1 100; tick_on 8 1 100;
   ESubmit (Some 8) 1 Buy (Some 90) 5 Open (mkStamp 1 1);
   ESubmit (Some 7) 2 Buy None 10 Open (mkStamp 1 1);
   tick_on 7 2 100; tick_on 7 3 60].
End TwoHoldings.

(** The account is liquidated by the sixth event, which empties its list of
    working orders; the seventh fills the order that was resting on the other
    instrument, and the closed account holds a position again. *)
(** The account is liquidated by the sixth event, which empties its list of
    working orders; the seventh fills the order that was resting on the other
    instrument, and the closed account holds a position again. *)
Definition dip : Event := ETick (Some 8) (Tick.trades_only (mkStamp 4 4) 130 130 85).
Lemma resting_order_survives_liquidation :
  ∃ k6 os6 k7, Kernel.run_events (Kernel.new TwoHoldings.state) TwoHoldings.events = Ret (k6, os6) ∧
    Exists is_liquidated (outputs k6) ∧ State.is_flat (k_state k6) = true ∧ State.balance (k_state k6) = 0 ∧
    working k6 = [] ∧
    Kernel.apply k6 dip = Ret k7 ∧
    State.is_flat (k_state k7) = false ∧ State.balance (k_state k7) = 0.
Proof.
  eexists _, _, _. split; [vm_compute; reflexivity|]. split; [apply Exists_cons_hd; exact I|].
  split_and!; vm_compute; reflexivity.
Qed.

(** * A fill still on its way back outlives the liquidation *)

Module LateFill.
(** Fills are reported two nanoseconds after they happen. *)
Definition matcher : Matcher :=
  ML1 (L1.new 7 (mkPolicy (FixedQueue 0) (mkLatency (FixedDelay 0) (FixedDelay 2)) 100)).
Definition holding : Holding Matcher :=
  Holding.set_long (Holding.set_engine (Holding.fresh 7 matcher DemoAccount.contract DemoAccount.table) matcher)
    10 100 (EntryCost.set 10 100 100000).
Definition kernel : Kernel Matcher :=
  mkKernel (State.put (State.new 7 DemoAccount.contract DemoAccount.table 2000) 0 holding) [] [].
Definition events : list Event :=
  [tick_on 7 1 100; ESubmit None 1 Buy None 5 Open (mkStamp 1 1); tick_on 7 2 100; tick_on 7 3 97].
End LateFill.

(** The order fills at 100 while the position is still open; the account is
    liquidated before the fill is reported; then the report opens a position
    of five on a balance of zero. *)
Lemma late_fill_reopens_a_closed_account :
  ∃ k4 os4 k5, Kernel.run_events LateFill.kernel LateFill.events = Ret (k4, os4) ∧
    Exists is_liquidated (outputs k4) ∧ State.is_flat (k_state k4) = true ∧ State.balance (k_state k4) = 0 ∧
    Kernel.apply k4 (tick_on 7 5 130) = Ret k5 ∧
    Forall (λ o, ¬ is_liquidated o) (outputs k5) ∧
    State.is_flat (k_state k5) = false ∧ State.balance (k_state k5) = 0.
Proof.
  eexists _, _, _. split; [vm_compute; reflexivity|]. split; [apply Exists_cons_hd; exact I|].
  split; [vm_compute; reflexivity|]. split; [vm_compute; reflexivity|]. split; [vm_compute; reflexivity|].
  split; [apply Forall_singleton; by intros H|]. split; vm_compute; reflexivity.
Qed.
