(* ===== verification/Shard.v ===== *)
(** Sharding ([oq-core/src/shard.rs]): one kernel per instrument, sharing
    nothing. *)

From S2P Require Import Prelude Slices SortedVec Types Order Currency Margin Liquidation Funding.
From S2P Require Import Tick RestingBook L0 Depth Matcher Cost Event Kernel Ledger Enforcement.

(** * No event renames a holding *)

Section frames.
Context {M : Type} `{!MatcherOps M}.
Implicit Types (s : State M) (k : Kernel M) (x : Holding M) (e : Event).

Section keeps.
Variables (md : PositionMode) (R : relation (Holding M)).
Hypothesis HR : stable md R.
Hypothesis Hmark : ∀ x p, R x (Holding.set_mark x p).

Lemma engine_keeps s h x m : State.at_ s h = Ret x → keeps R s (State.put s h (Holding.set_engine x m)).
Proof. intros Hx. eapply put_keeps; [exact HR|exact Hx|apply (st_engine md R HR)]. Qed.

Lemma cancel_from_keeps s id hs b s' : Kernel.cancel_from s id hs = Ret (b, s') → keeps R s s'.
Proof.
  revert s. induction hs as [|h hs IH]; intros s H; simpl in H; [injection H as _ <-; by eapply keeps_refl|].
  apply bind_ret in H as (x & Hx & H). destruct (m_cancel (h_engine x) id) as [c m].
  pose proof (engine_keeps _ _ _ m Hx) as K. destruct c; [by injection H as _ <-|].
  eapply keeps_trans; [exact HR|exact K|by apply IH].
Qed.

Lemma on_tick_keeps k h t k' : mode (k_state k) = md → Kernel.on_tick k h t = Ret k' → keeps R (k_state k) (k_state k').
Proof.
  intros Hm H. unfold Kernel.on_tick in H. apply bind_ret in H as (x & Hx & H).
  set (s1 := State.put _ h _) in *. assert (keeps R (k_state k) s1) as K1.
  { change (keeps R (State.with_now (k_state k) (exch (t_stamp t))) s1). eapply put_keeps; [exact HR|exact Hx|apply Hmark]. }
  case_bool_decide.
  - eapply keeps_trans; [exact HR|exact K1|].
    apply (check_liquidation_keeps _ _ HR (Kernel.set_state k s1) _ _ H).
  - apply bind_ret in H as ([fs m] & _ & H). apply bind_ret in H as (k2 & H2 & H).
    eapply keeps_trans; [exact HR|exact K1|]. eapply keeps_trans; [exact HR| |by eapply check_liquidation_keeps].
    eapply keeps_trans; [exact HR|eapply (engine_keeps s1 h _ m); by eapply at_put|].
    refine (book_fills_keeps md R HR _ _ _ _ _ H2). exact Hm.
Qed.

Lemma on_venue_fill_keeps k f fee k' : mode (k_state k) = md → Kernel.on_venue_fill k f fee = Ret k' →
  keeps R (k_state k) (k_state k').
Proof.
  intros Hm H. unfold Kernel.on_venue_fill in H. destruct (negb _); [injection H as <-; by eapply keeps_refl|].
  apply bind_ret in H as (s1 & H1 & H). pose proof (withdrawn_keeps _ _ HR _ _ _ H1) as K1.
  apply bind_ret in H as (y & _ & H). destruct (match fee with Unsaid => _ | _ => _ end) as [c s2] eqn:E2.
  assert (mode s2 = mode s1 ∧ holdings s2 = holdings s1) as [E3 E4] by (destruct fee; injection E2 as _ <-; done).
  apply bind_ret in H as (s3 & H3 & H). pose proof (proj1 K1) as Em.
  eapply keeps_trans; [exact HR|exact K1|]. eapply keeps_trans; [exact HR| |exact (check_liquidation_keeps _ _ HR _ _ _ H)].
  eapply keeps_trans; [exact HR|by apply (keeps_refl md R HR s1 s2)|].
  refine (apply_fill_keeps md R HR _ _ _ _ H3). simpl. rewrite E3, Em. exact Hm.
Qed.

(** Every event takes each holding along [R]. *)
Lemma apply_keeps k e k' : mode (k_state k) = md → Kernel.apply k e = Ret k' → keeps R (k_state k) (k_state k').
Proof.
  intros Hm H. unfold Kernel.apply in H. simpl in H. destruct e as [i t|i id sd p q o st|id st|i a r m|i a c|a c m|a|c a|f fee|u].
  - destruct (Kernel.route _ i) as [h|]; [by apply on_tick_keeps in H|injection H as <-; by eapply keeps_refl].
  - unfold Kernel.on_submit in H. simpl in H. destruct (q <=? 0); [injection H as <-; by eapply keeps_refl|].
    case_bool_decide; [injection H as <-; by eapply keeps_refl|].
    destruct (Kernel.route _ i) as [h|]; [|injection H as <-; by eapply keeps_refl].
    destruct (_ <=? 0); [injection H as <-; by eapply keeps_refl|].
    apply bind_ret in H as (w & _ & H). apply bind_ret in H as (x & Hx & H). apply bind_ret in H as (m & _ & [= <-]).
    by apply engine_keeps.
  - apply bind_ret in H as ([b s1] & H1 & [= <-]). apply cancel_from_keeps in H1. by destruct b.
  - unfold Kernel.on_funding in H. simpl in H. destruct (Kernel.route _ i) as [h|]; [|injection H as <-; by eapply keeps_refl].
    apply bind_ret in H as (x & _ & H). destruct (Holding.flat x); [injection H as <-; by eapply keeps_refl|].
    apply check_liquidation_keeps with (md := md) (R := R) in H; [|done]. exact H.
  - injection H as <-. unfold Kernel.on_funding_charged. destruct (Kernel.route _ i); by eapply keeps_refl.
  - injection H as <-. by eapply keeps_refl.
  - injection H as <-. by eapply keeps_refl.
  - injection H as <-. by eapply keeps_refl.
  - by apply on_venue_fill_keeps in H.
  - destruct (_ =? _)%nat; [|injection H as <-; by eapply keeps_refl].
    apply bind_ret in H as (x & Hx & H). apply bind_ret in H as ([o m] & _ & [= <-]). by apply engine_keeps.
Qed.
End keeps.

Definition same_name : relation (Holding M) := λ x x', h_instrument x' = h_instrument x.

Lemma name_stable md : stable md same_name.
Proof.
  split; try done.
  - split; [done|]. intros x y z. unfold same_name. congruence.
  - by intros x short q p sg x' _ (? & _)%open_leg_frame.
  - by intros x short q p pnl x' _ (? & _)%close_leg_frame.
Qed.

Lemma apply_names k e k' : Kernel.apply k e = Ret k' →
  h_instrument <$> holdings (k_state k') = h_instrument <$> holdings (k_state k).
Proof.
  intros H. destruct (apply_keeps _ same_name (name_stable _) (λ _ _, eq_refl) k e k' eq_refl H) as [_ HF].
  induction HF as [|x y l l' E _ IH]; [done|]. cbn [fmap list_fmap]. by rewrite E, IH.
Qed.
End frames.

(** * Shards *)

Record Shards (M : Type) := mkShards { shards : list (Kernel M); sh_outputs : list Output }.
Arguments mkShards {M}.
Arguments shards {M}.
Arguments sh_outputs {M}.

Definition instrument_of (e : Event) : option InstrumentId :=
  match e with
  | ETick i _ | ESubmit i _ _ _ _ _ _ => i
  | _ => None
  end.
Definition order_id (e : Event) : option OrderId :=
  match e with
  | ESubmit _ id _ _ _ _ _ | ECancel id _ => Some id
  | _ => None
  end.

(** [Vec::dedup]: neighbours that are equal become one. *)
Fixpoint dedup (l : list Z) : list Z :=
  match l with
  | [] => []
  | x :: l' => match l' with
               | [] => [x]
               | y :: _ => if x =? y then dedup l' else x :: dedup l'
               end
  end.

Module Shards.
Section shards.
Context {M : Type} `{!MatcherOps M}.
Implicit Types (w : Shards M) (k : Kernel M).

(** [state().holding().instrument]. *)
Definition instrument (s : State M) : run InstrumentId := x ← State.holding s; mret (h_instrument x).
Fixpoint instruments (ss : list (State M)) : run (list InstrumentId) :=
  match ss with
  | [] => mret []
  | s :: ss => i ← instrument s; is_ ← instruments ss; mret (i :: is_)
  end.

Definition new (ss : list (State M)) : run (Shards M) :=
  seen ← instruments ss;
  if (length (dedup (sort_by_key id seen)) =? length seen)%nat
  then mret (mkShards (Kernel.new <$> ss) []) else Panic.

Definition len w : nat := length (shards w).
Definition is_empty w : bool := (len w =? 0)%nat.

(** The first shard of an instrument. *)
Fixpoint position_of (ks : list (Kernel M)) (i : InstrumentId) : run (option nat) :=
  match ks with
  | [] => mret None
  | k :: ks => j ← instrument (k_state k); if j =? i then mret (Some 0%nat) else n ← position_of ks i; mret (S <$> n)
  end.
Definition shard w (i : InstrumentId) : run (option (Kernel M)) :=
  n ← position_of (shards w) i; mret (n ≫= λ n, shards w !! n).

Definition route w (e : Event) : run (option nat) :=
  match instrument_of e with
  | Some i => position_of (shards w) i
  | None => mret (if (length (shards w) =? 1)%nat then Some 0%nat else None)
  end.

Definition apply w (e : Event) : run (Shards M) :=
  n ← route w e;
  match n with
  | None => mret (mkShards (shards w) [ORejected (default 0 (order_id e)) UnroutableObservation])
  | Some n =>
      k ← expect (shards w !! n);
      k ← Kernel.apply k e;
      mret (mkShards (<[n := k]> (shards w)) (outputs k))
  end.

Fixpoint run_shards w (es : list Event) : run (Shards M * list (list Output)) :=
  match es with
  | [] => mret (w, [])
  | e :: es => w ← apply w e; '(w', os) ← run_shards w es; mret (w', sh_outputs w :: os)
  end.
End shards.
End Shards.

(** * Shards share nothing *)

Lemma dedup_length l : (length (dedup l) ≤ length l)%nat.
Proof. induction l as [|x [|y l] IH]; simpl in *; [done..|]. destruct (x =? y); simpl in *; lia. Qed.

Lemma dedup_full l : StronglySorted Z.le l → length (dedup l) = length l → NoDup l.
Proof.
  induction 1 as [|x l Hs IH HF]; intros Hl; [constructor|]. destruct l as [|y l].
  { apply NoDup_singleton. }
  pose proof (dedup_length (y :: l)). cbn [dedup] in *. destruct (Z.eqb_spec x y) as [->|Hne]; [simpl in *; lia|].
  cbn [length] in Hl. assert (NoDup (y :: l)) as Hd by (apply IH; simpl in *; lia). constructor; [|done].
  intros Hin. apply elem_of_cons in Hin as [->|Hin]; [done|].
  assert (y ≤ x) by (inversion Hs as [|? ? _ HF']; subst; rewrite Forall_forall in HF'; by apply HF').
  apply Forall_cons in HF as [? _]. lia.
Qed.

Section independence.
Context {M : Type} `{!MatcherOps M}.
Implicit Types (w : Shards M) (k : Kernel M).

(** The name of a shard: the instrument of its first holding. *)
Definition named k (i : InstrumentId) : Prop := Shards.instrument (k_state k) = Ret i.

Lemma named_apply k e k' i : named k i → Kernel.apply k e = Ret k' → named k' i.
Proof.
  unfold named, Shards.instrument, State.holding, State.at_. intros Hn H. pose proof (apply_names _ _ _ H) as E.
  apply (f_equal (λ l, l !! 0%nat)) in E. rewrite !list_lookup_fmap in E.
  destruct (holdings (k_state k) !! 0%nat), (holdings (k_state k') !! 0%nat); simpl in *; congruence.
Qed.

Lemma instruments_names ss is_ : Shards.instruments ss = Ret is_ → Forall2 named (Kernel.new <$> ss) is_.
Proof.
  revert is_. induction ss as [|s ss IH]; intros is_ H; simpl in H; [injection H as <-; constructor|].
  apply bind_ret in H as (i & Hi & H). apply bind_ret in H as (l & Hl & [= <-]). constructor; [done|by apply IH].
Qed.

Lemma new_names ss w : Shards.new ss = Ret w → ∃ is_, shards w = Kernel.new <$> ss ∧ Forall2 named (shards w) is_ ∧ NoDup is_.
Proof.
  unfold Shards.new. intros (seen & Hs & H)%bind_ret. destruct (Nat.eqb_spec (length (dedup (sort_by_key id seen))) (length seen)) as [El|]; [|done].
  injection H as <-. exists seen. split; [done|]. split; [by apply instruments_names|].
  pose proof (sort_by_key_perm id seen) as Hp. rewrite <-(Permutation_length Hp) in El. rewrite <-Hp.
  by apply dedup_full; [apply (sort_by_key_sorted id)|].
Qed.

Lemma position_of_named ks is_ i : Forall2 named ks is_ → NoDup is_ → ∃ n, Shards.position_of ks i = Ret n ∧
  ∀ j, n = Some j ↔ is_ !! j = Some i.
Proof.
  induction 1 as [|k x ks is_ Hk HF IH]; intros Hd; simpl; [by exists None|].
  apply NoDup_cons in Hd as [Hx Hd]. rewrite Hk. cbn [mbind run_bind]. destruct (Z.eqb_spec x i) as [->|Hne].
  - exists (Some 0%nat). split; [done|]. intros [|j]; [done|]. split; [done|]. intros Hj. destruct Hx. by eapply list_elem_of_lookup_2.
  - destruct (IH Hd) as (n & -> & Hn). exists (S <$> n). split; [done|]. intros [|j]; simpl.
    + split; [by destruct n|by intros [= ->]].
    + rewrite <-Hn. destruct n; simpl; naive_solver.
Qed.

(** The events of a shard: those that name its instrument, or all of them when
    there is no other shard. *)
Definition addressed (n : nat) (i : InstrumentId) (e : Event) : Prop :=
  match instrument_of e with Some j => j = i | None => n = 1%nat end.
#[export] Instance addressed_dec n i e : Decision (addressed n i e).
Proof. unfold addressed. destruct (instrument_of e); apply _. Defined.

Lemma route_addressed w is_ e : Forall2 named (shards w) is_ → NoDup is_ →
  ∃ n, Shards.route w e = Ret n ∧ ∀ j i, is_ !! j = Some i → (n = Some j ↔ addressed (length is_) i e).
Proof.
  intros HF Hd. unfold Shards.route, addressed. destruct (instrument_of e) as [x|].
  - destruct (position_of_named _ _ x HF Hd) as (n & -> & Hn). exists n. split; [done|]. intros j i Hi. rewrite Hn. naive_solver.
  - rewrite (Forall2_length _ _ _ HF). eexists. split; [done|]. intros j i Hi. pose proof (lookup_lt_Some _ _ _ Hi).
    destruct (Nat.eqb_spec (length is_) 1); split; intros; simplify_eq; try done. f_equal. lia.
Qed.

Lemma apply_shard w is_ e w' : Forall2 named (shards w) is_ → NoDup is_ → Shards.apply w e = Ret w' →
  Forall2 named (shards w') is_ ∧
  ∀ j i k, is_ !! j = Some i → shards w !! j = Some k →
    if decide (addressed (length is_) i e)
    then ∃ k', Kernel.apply k e = Ret k' ∧ shards w' !! j = Some k' ∧ sh_outputs w' = outputs k'
    else shards w' !! j = Some k.
Proof.
  intros HF Hd H. destruct (route_addressed w is_ e HF Hd) as (n & En & Hn). unfold Shards.apply in H. rewrite En in H.
  cbn [mbind run_bind] in H. destruct n as [n|].
  - apply bind_ret in H as (k & Hk & H). apply bind_ret in H as (k' & Hk' & [= <-]). simpl.
    destruct (shards w !! n) as [k0|] eqn:E0; [|done]. injection Hk as ->.
    destruct (Forall2_lookup_l _ _ _ _ _ HF E0) as (x & Ex & Hx). split.
    + rewrite <-(list_insert_id _ _ _ Ex). apply Forall2_insert; [done|]. by eapply named_apply.
    + intros j i k1 Hi Hk1. case_decide as Ha.
      * apply (Hn j i Hi) in Ha as [= <-]. rewrite E0 in Hk1. injection Hk1 as <-. exists k'. split; [done|].
        split; [|done]. apply list_lookup_insert_eq. by eapply lookup_lt_Some.
      * rewrite list_lookup_insert_ne; [done|]. intros ->. apply Ha. by apply (Hn j i Hi).
  - injection H as <-. split; [done|]. intros j i k Hi Hk. case_decide as Ha; [|done]. by apply (Hn j i Hi) in Ha.
Qed.

Lemma run_shard w is_ es w' os : Forall2 named (shards w) is_ → NoDup is_ → Shards.run_shards w es = Ret (w', os) →
  length (shards w') = length (shards w) ∧ length os = length es ∧
  ∀ j i k, is_ !! j = Some i → shards w !! j = Some k →
    ∃ k', shards w' !! j = Some k' ∧
      Kernel.run_events k (filter (addressed (length is_) i) es) =
        Ret (k', (filter (λ p, addressed (length is_) i p.1) (zip es os)).*2).
Proof.
  intros HF Hd. revert w os HF. induction es as [|e es IH]; intros w os HF H; simpl in H.
  { injection H as <- <-. split; [done|]. split; [done|]. intros j i k _ Hk. by exists k. }
  apply bind_ret in H as (w1 & H1 & H). apply bind_ret in H as ([w2 os2] & H2 & [= <- <-]).
  destruct (apply_shard w is_ e w1 HF Hd H1) as [HF1 Hj]. destruct (IH w1 os2 HF1 H2) as (El & Eo & Hrec).
  split; [rewrite El, (Forall2_length _ _ _ HF1), (Forall2_length _ _ _ HF); done|]. split; [by simpl; rewrite Eo|].
  intros j i k Hi Hk. specialize (Hj j i k Hi Hk). cbn [zip_with]. rewrite !filter_cons. simpl.
  destruct (decide (addressed (length is_) i e)) as [Ha|Ha].
  - destruct Hj as (k1 & Ek & Hk1 & Eout). destruct (Hrec j i k1 Hi Hk1) as (k' & Hk' & Er). exists k'. split; [done|].
    cbn [Kernel.run_events]. rewrite Ek. cbn [mbind run_bind]. rewrite Er. cbn [mbind run_bind mret run_ret fmap list_fmap snd].
    by rewrite Eout.
  - destruct (Hrec j i k Hi Hj) as (k' & Hk' & Er). by exists k'.
Qed.

End independence.

Module DemoShards.
Definition state (i : InstrumentId) : State Matcher := State.new i DemoAccount.contract DemoAccount.table 1000000.
Definition tick (i n last : Z) : Event := ETick (Some i) (Tick.trades_only (mkStamp n n) last last last).
Definition events : list Event :=
  [tick 7 1 100; tick 8 1 50; ESubmit (Some 7) 1 Buy None 10 Open (mkStamp 1 1);
   ESubmit (Some 8) 1 Sell None 5 Open (mkStamp 1 1); tick 8 2 49; tick 7 2 101; tick 9 2 1].
Definition reordered : list Event :=
  [tick 8 1 50; ESubmit (Some 8) 1 Sell None 5 Open (mkStamp 1 1); tick 8 2 49;
   tick 7 1 100; ESubmit (Some 7) 1 Buy None 10 Open (mkStamp 1 1); tick 7 2 101].
End DemoShards.


(** A funding event that names its instrument is refused when there are two
    shards, although one of them holds that instrument. *)
Lemma named_funding_is_refused :
  ∃ w w', Shards.new [DemoShards.state 7; DemoShards.state 8] = Ret w ∧
    Shards.apply w (EFunding (Some 7) 1 1000 100) = Ret w' ∧ sh_outputs w' = [ORejected 0 UnroutableObservation].
Proof. eexists _, _. split; [vm_compute; reflexivity|]. split; vm_compute; reflexivity. Qed.
