(* ===== verification/Trader.v ===== *)
(** From what a strategy wanted to what a venue was asked
    ([oq-live/src/trader.rs], with the halt of [oq-live/src/run.rs]).  A
    [BTreeMap] by the strategy's ids is a [gmap] read in the order of its
    keys. *)

From stdpp Require Import gmap strings.
From S2P Require Import Prelude Slices Text Types Order Instrument Tick Strategy Risk Books LiveBook LiveSession SessionLife.
#[local] Open Scope Z_scope.

Import (hints) Strategy.

(** * The trader *)

Inductive Outcome :=
| OSent (local : OrderId) (client_id : text)
| ORefused (local : OrderId) (why : text)
| OUnresolved (local : OrderId) (client_id why : text)
| OUnknownOrder (local : OrderId)
| OCancelled (local : OrderId) (client_id : text)
| OCancelFailed (local : OrderId) (client_id why : text).
Definition NOT_FOUND_IS_ANSWER_AFTER : Nanos := 10000000000.
Record RestingOrder := mkRestingOrder {
  ro_local : Z; ro_client_id : text; ro_closing : bool; ro_side : option Side; ro_price : option PriceTicks; ro_qty : option QtyLots;
}.
Abbreviation Asked := (Side * option PriceTicks * QtyLots)%type (only parsing).
Record Trader (S : Type) := mkTrader {
  tr_strategy : S;
  tr_session : Session;
  tr_live : gmap Z text;
  tr_closing : gset Z;
  tr_withdrawn : gset Z;
  tr_intents : list Intent;
  tr_asked : gmap Z Asked;
  tr_unanswered : list (OrderId * text * Nanos);
}.
#[global] Arguments mkTrader {S}.
#[global] Arguments tr_strategy {S}.
#[global] Arguments tr_session {S}.
#[global] Arguments tr_live {S}.
#[global] Arguments tr_closing {S}.
#[global] Arguments tr_withdrawn {S}.
#[global] Arguments tr_intents {S}.
#[global] Arguments tr_asked {S}.
#[global] Arguments tr_unanswered {S}.

(** A map in the order of its keys. *)
Definition in_order {A} (m : gmap Z A) : list (Z * A) := sort_by_key fst (map_to_list m).

Module Trader.
Section trader.
Context {S : Type} `{Strategy.Strategy S} (v : Venue) (os : Os).
Implicit Types (t : Trader S) (w : World) (id : text) (local : OrderId) (now : Nanos).

Definition new (strategy : S) (session : Session) : Trader S := mkTrader strategy session ∅ ∅ ∅ [] ∅ [].
Definition set_strategy t (s : S) : Trader S :=
  mkTrader s (tr_session t) (tr_live t) (tr_closing t) (tr_withdrawn t) (tr_intents t) (tr_asked t) (tr_unanswered t).
Definition set_session t (s : Session) : Trader S :=
  mkTrader (tr_strategy t) s (tr_live t) (tr_closing t) (tr_withdrawn t) (tr_intents t) (tr_asked t) (tr_unanswered t).
Definition set_intents t (i : list Intent) : Trader S :=
  mkTrader (tr_strategy t) (tr_session t) (tr_live t) (tr_closing t) (tr_withdrawn t) i (tr_asked t) (tr_unanswered t).
Definition set_unanswered t (u : list (OrderId * text * Nanos)) : Trader S :=
  mkTrader (tr_strategy t) (tr_session t) (tr_live t) (tr_closing t) (tr_withdrawn t) (tr_intents t) (tr_asked t) u.
Definition set_live t (m : gmap Z text) : Trader S :=
  mkTrader (tr_strategy t) (tr_session t) m (tr_closing t) (tr_withdrawn t) (tr_intents t) (tr_asked t) (tr_unanswered t).
Definition set_closing t (c : gset Z) : Trader S :=
  mkTrader (tr_strategy t) (tr_session t) (tr_live t) c (tr_withdrawn t) (tr_intents t) (tr_asked t) (tr_unanswered t).
Definition set_withdrawn t (x : gset Z) : Trader S :=
  mkTrader (tr_strategy t) (tr_session t) (tr_live t) (tr_closing t) x (tr_intents t) (tr_asked t) (tr_unanswered t).
Definition set_asked t (a : gmap Z Asked) : Trader S :=
  mkTrader (tr_strategy t) (tr_session t) (tr_live t) (tr_closing t) (tr_withdrawn t) (tr_intents t) a (tr_unanswered t).

(** ** Questions *)

Definition local_id t id : option OrderId := fst <$> find (λ p : Z * text, bool_decide (p.2 = id)) (in_order (tr_live t)).
Definition is_live t local : bool := bool_decide (is_Some (tr_live t !! local)).
Definition resting t : list text := (in_order (tr_live t)).*2.
Definition resting_order t (p : Z * text) : RestingOrder :=
  let asked := tr_asked t !! p.1 in
  mkRestingOrder p.1 p.2 (bool_decide (p.1 ∈ tr_closing t)) ((λ a : Asked, a.1.1) <$> asked) (asked ≫= λ a : Asked, a.1.2)
    ((λ a : Asked, a.2) <$> asked).
Definition resting_orders t : list RestingOrder := resting_order t <$> in_order (tr_live t).
Definition unanswered t : nat := length (tr_unanswered t).

(** ** Acting on intents *)

Definition withdraw t w local id : Outcome * World :=
  let '(answer, w) := Session.cancel v (tr_session t) w id in
  (match answer with
   | Sent _ => OCancelled local id
   | Refused b => OCancelFailed local id (breach_text b)
   | SRejected why => OCancelFailed local id why
   | SUnresolved _ why => OCancelFailed local id why
   end, w).
Fixpoint withdraw_each t w (orders : list (Z * text)) : list Outcome * World :=
  match orders with
  | [] => ([], w)
  | (local, id) :: orders =>
      let '(o, w) := withdraw t w local id in
      let '(os, w) := withdraw_each t w orders in (o :: os, w)
  end.

Definition send t w local (o : ProposedOrder) (mark : PriceTicks) now : run (Outcome * Trader S * World) :=
  let closing := po_reduce_only o in
  let t := set_asked t (<[local := (po_side o, po_limit_price o, po_qty o)]> (tr_asked t)) in
  '(submitted, s, w) ← Session.submit v os (tr_session t) w o mark now;
  let t := set_session t s in
  let t := match submitted with Refused _ | SRejected _ => set_asked t (delete local (tr_asked t)) | _ => t end in
  mret match submitted with
       | Sent id =>
           let t := set_live t (<[local := id]> (tr_live t)) in
           (OSent local id, if closing then set_closing t ({[local]} ∪ tr_closing t) else t, w)
       | Refused b => (ORefused local (breach_text b), t, w)
       | SRejected why => (ORefused local why, t, w)
       | SUnresolved id why => (OUnresolved local id why, if closing then set_closing t ({[local]} ∪ tr_closing t) else t, w)
       end.

Definition is_close (o : Offset) : bool := match o with Close => true | _ => false end.
Definition act t w (intent : Intent) (mark : PriceTicks) now : run (list Outcome * Trader S * World) :=
  match intent with
  | Limit _ id side price qty offset =>
      '(o, t, w) ← send t w id (mkProposed side (Some price) qty (is_close offset)) mark now; mret ([o], t, w)
  | Market _ id side qty offset =>
      '(o, t, w) ← send t w id (mkProposed side None qty (is_close offset)) mark now; mret ([o], t, w)
  | Cancel id =>
      mret match tr_live t !! id with
           | Some client_id => let '(o, w) := withdraw t w id client_id in ([o], t, w)
           | None => ([OUnknownOrder id], t, w)
           end
  | CancelAll => let '(os, w) := withdraw_each t w (in_order (tr_live t)) in mret (os, t, w)
  end.
Fixpoint act_all t w (intents : list Intent) (mark : PriceTicks) now : run (list Outcome * Trader S * World) :=
  match intents with
  | [] => mret ([], t, w)
  | i :: intents => '(a, t, w) ← act t w i mark now; '(b, t, w) ← act_all t w intents mark now; mret (a ++ b, t, w)
  end.

Definition report_placement now t (o : Outcome) : Trader S :=
  match o with
  | OSent local _ => set_strategy t (Strategy.on_placed (tr_strategy t) local true)
  | ORefused local _ => set_strategy t (Strategy.on_placed (tr_strategy t) local false)
  | OCancelFailed local _ why => set_strategy t (Strategy.on_cancel_failed (tr_strategy t) local why)
  | OUnresolved local id _ => set_unanswered t (tr_unanswered t ++ [(local, id, now)])
  | OUnknownOrder _ | OCancelled _ _ => t
  end.
Definition report_placements t (outcomes : list Outcome) now : Trader S := fold_left (report_placement now) outcomes t.
(** What every callback that may want something shares. *)
Definition deliver t w (r : S * list Intent) (cx : Context) now : run (list Outcome * Trader S * World) :=
  '(out, t, w) ← act_all (set_strategy t r.1) w r.2 (t_last (cx_tick cx)) now;
  mret (out, report_placements (set_intents t r.2) out now, w).
Definition on_tick t w (cx : Context) now : run (list Outcome * Trader S * World) :=
  deliver t w (Strategy.on_tick (tr_strategy t) cx []) cx now.
Definition on_fill t w (f : Fill) (cx : Context) now : run (list Outcome * Trader S * World) :=
  deliver t w (Strategy.on_fill (tr_strategy t) f cx []) cx now.
Definition on_venue_closed t w (c : VenueClosed) (cx : Context) now : run (list Outcome * Trader S * World) :=
  deliver t w (Strategy.on_venue_closed (tr_strategy t) c cx []) cx now.

Definition forget_one t local : Trader S :=
  mkTrader (tr_strategy t) (tr_session t) (delete local (tr_live t)) (tr_closing t ∖ {[local]}) (tr_withdrawn t ∖ {[local]})
    (tr_intents t) (delete local (tr_asked t)) (tr_unanswered t).
Definition forget t id : Trader S :=
  fold_left forget_one (List.filter (λ p : Z * text, bool_decide (p.2 = id)) (in_order (tr_live t))).*1 t.
Definition on_ended t w id (ending : Ending) (cx : Context) now : run (list Outcome * Trader S * World) :=
  match local_id t id with
  | None => mret ([], forget t id, w)
  | Some local =>
      '(out, t, w) ← deliver t w (Strategy.on_ended (tr_strategy t) local ending []) cx now;
      mret (out, forget t id, w)
  end.

(** ** Halting *)

Definition opening t (p : Z * text) : bool := negb (bool_decide (p.1 ∈ tr_closing t)) && negb (bool_decide (p.1 ∈ tr_withdrawn t)).
Definition is_cancelled (o : Outcome) : option Z := match o with OCancelled local _ => Some local | _ => None end.
(** The orders are collected first, so what is withdrawn on the way changes none of the rest. *)
Definition withdraw_opening t w : list Outcome * Trader S * World :=
  let '(out, w) := withdraw_each t w (List.filter (opening t) (in_order (tr_live t))) in
  (out, set_withdrawn t (list_to_set (omap is_cancelled out) ∪ tr_withdrawn t), w).
(** [TraderLike::halt]. *)
Definition halt t w (why : text) : list Outcome * Trader S * World :=
  withdraw_opening (set_session t (Session.trip (Session.note_halt (tr_session t) why))) w.

(** ** Replaying, and what it waits for *)

Definition on_history t (cx : Context) : Trader S := set_strategy t (Strategy.on_history (tr_strategy t) cx).
Definition on_history_fill t (f : Fill) (cx : Context) : Trader S := set_strategy t (Strategy.on_history_fill (tr_strategy t) f cx).
Definition record_waiting t w (at_ : Nanos) : run (Trader S * World) :=
  '(s, w) ← Session.record_waiting os (tr_session t) w at_ (Strategy.waiting_on (tr_strategy t)); mret (set_session t s, w).

(** ** Submissions without an answer *)

Fixpoint chase t w (us : list (OrderId * text * Nanos)) now
    : Trader S * World * list (OrderId * bool) * list (OrderId * text * Nanos) :=
  match us with
  | [] => (t, w, [], [])
  | (local, id, sent) :: us =>
      let symbol := sc_symbol (ss_config (tr_session t)) in
      let answer := v_order_status v (w_calls w) symbol id in
      let w := call w (Asking symbol id) in
      match answer with
      | Ok (Some _) =>
          let t := set_live (set_session t (Session.confirm_resting (tr_session t) id)) (<[local := id]> (tr_live t)) in
          let '(t, w, settled, open) := chase t w us now in (t, w, (local, true) :: settled, open)
      | Ok None =>
          if NOT_FOUND_IS_ANSWER_AFTER <=? sat64 (now - sent) then
            let t := set_asked (set_closing t (tr_closing t ∖ {[local]})) (delete local (tr_asked t)) in
            let '(t, w, settled, open) := chase t w us now in (t, w, (local, false) :: settled, open)
          else let '(t, w, settled, open) := chase t w us now in (t, w, settled, (local, id, sent) :: open)
      | Err _ => let '(t, w, settled, open) := chase t w us now in (t, w, settled, (local, id, sent) :: open)
      end
  end.
Definition chase_unanswered t w now : list (OrderId * bool) * Trader S * World :=
  let '(t', w, settled, open) := chase t w (tr_unanswered t) now in
  let t' := set_unanswered t' open in
  (settled, set_strategy t' (fold_left (λ s x, Strategy.on_placed s x.1 x.2) settled (tr_strategy t')), w).
End trader.
End Trader.

(** * A run of the loop *)

(** A strategy with a record of what it was told of its submissions. *)
#[export] Instance told_strategy {S} `{Strategy.Strategy S} : Strategy.Strategy (S * list (OrderId * bool)) := {
  Strategy.on_tick s cx out := let r := Strategy.on_tick s.1 cx out in ((r.1, s.2), r.2);
  Strategy.on_fill s f cx out := let r := Strategy.on_fill s.1 f cx out in ((r.1, s.2), r.2);
  Strategy.on_venue_closed s c cx out := let r := Strategy.on_venue_closed s.1 c cx out in ((r.1, s.2), r.2);
  Strategy.on_placed s id accepted := (Strategy.on_placed s.1 id accepted, s.2 ++ [(id, accepted)]);
  Strategy.on_cancel_failed s id why := (Strategy.on_cancel_failed s.1 id why, s.2);
  Strategy.on_ended s id e out := let r := Strategy.on_ended s.1 id e out in ((r.1, s.2), r.2);
  Strategy.on_history s cx := (Strategy.on_history s.1 cx, s.2);
  Strategy.on_history_fill s f cx := (Strategy.on_history_fill s.1 f cx, s.2);
  Strategy.waiting_on s := Strategy.waiting_on s.1;
  Strategy.name s := Strategy.name s.1;
}.

(** What the loop does with a trader; with its session it does as it likes. *)
Inductive TraderOp :=
| OpTick (cx : Context) (now : Nanos)
| OpFill (f : Fill) (cx : Context) (now : Nanos)
| OpVenueClosed (c : VenueClosed) (cx : Context) (now : Nanos)
| OpEnded (id : text) (e : Ending) (cx : Context) (now : Nanos)
| OpForget (id : text)
| OpHalt (why : text)
| OpChase (now : Nanos)
| OpSession (s : Session) (w : World).

(** The orders a list of intents asks for. *)
Definition proposal (i : Intent) : list (OrderId * ProposedOrder) :=
  match i with
  | Limit _ id side price qty offset => [(id, mkProposed side (Some price) qty (Trader.is_close offset))]
  | Market _ id side qty offset => [(id, mkProposed side None qty (Trader.is_close offset))]
  | Cancel _ | CancelAll => []
  end.
Definition proposals (wanted : list Intent) : list (OrderId * ProposedOrder) := flat_map proposal wanted.

Section steps.
Context {S : Type} `{Strategy.Strategy S} (v : Venue) (os : Os).
Implicit Types (t : Trader (S * list (OrderId * bool))) (w : World) (id : text).

(** One operation: the orders it asked for. *)
Definition trader_op t w (x : TraderOp) : run (list (OrderId * ProposedOrder) * Trader (S * list (OrderId * bool)) * World) :=
  match x with
  | OpTick cx now => '(_, t, w) ← Trader.on_tick v os t w cx now; mret (proposals (tr_intents t), t, w)
  | OpFill f cx now => '(_, t, w) ← Trader.on_fill v os t w f cx now; mret (proposals (tr_intents t), t, w)
  | OpVenueClosed c cx now => '(_, t, w) ← Trader.on_venue_closed v os t w c cx now; mret (proposals (tr_intents t), t, w)
  | OpEnded id e cx now =>
      '(_, t', w) ← Trader.on_ended v os t w id e cx now;
      mret (if bool_decide (Trader.local_id t id = None) then [] else proposals (tr_intents t'), t', w)
  | OpForget id => mret ([], Trader.forget t id, w)
  | OpHalt why => let '(_, t, w) := Trader.halt v t w why in mret ([], t, w)
  | OpChase now => let '(_, t, w) := Trader.chase_unanswered v t w now in mret ([], t, w)
  | OpSession s w => mret ([], Trader.set_session t s, w)
  end.
Fixpoint trader_ops t w (xs : list TraderOp) : run (list (OrderId * ProposedOrder) * Trader (S * list (OrderId * bool)) * World) :=
  match xs with
  | [] => mret ([], t, w)
  | x :: xs => '(a, t, w) ← trader_op t w x; '(b, t, w) ← trader_ops t w xs; mret (a ++ b, t, w)
  end.

Definition asks (o : ProposedOrder) : Asked := (po_side o, po_limit_price o, po_qty o).
Definition told_of (o : Outcome) : list (OrderId * bool) :=
  match o with OSent l _ => [(l, true)] | ORefused l _ => [(l, false)] | _ => [] end.
Definition open_of (now : Nanos) (o : Outcome) : list (OrderId * text * Nanos) :=
  match o with OUnresolved l id _ => [(l, id, now)] | _ => [] end.
Definition waiting (un : list (OrderId * text * Nanos)) : list OrderId := (λ u : OrderId * text * Nanos, u.1.1) <$> un.

(** What holds between calls, of the orders asked for so far, what the strategy
    was told, and the submissions still open. *)
Record holds t (told : list (OrderId * bool)) (un : list (OrderId * text * Nanos)) (asked : list (OrderId * ProposedOrder)) : Prop := {
  ho_ids : Permutation asked.*1 (told.*1 ++ waiting un);
  ho_nodup : NoDup asked.*1;
  ho_live : ∀ l, is_Some (tr_live t !! l) → (l, true) ∈ told;
  ho_asked : ∀ l o, (l, o) ∈ asked → is_Some (tr_live t !! l) ∨ l ∈ waiting un →
    tr_asked t !! l = Some (asks o) ∧ (l ∈ tr_closing t ↔ po_reduce_only o = true);
  ho_closing : ∀ l, l ∈ tr_closing t → l ∈ asked.*1;
  ho_withdrawn : ∀ l, l ∈ tr_withdrawn t → is_Some (tr_live t !! l);
}.

(** Only the maps count. *)
Lemma holds_same t t' told un asked : holds t told un asked → tr_live t' = tr_live t → tr_closing t' = tr_closing t →
  tr_withdrawn t' = tr_withdrawn t → tr_asked t' = tr_asked t → holds t' told un asked.
Proof. intros [? ? ? ? ? ?] E1 E2 E3 E4. split; try done; rewrite ?E1, ?E2, ?E3, ?E4; done. Qed.

Lemma asked_unique (asked : list (OrderId * ProposedOrder)) l o o' : NoDup asked.*1 → (l, o) ∈ asked → (l, o') ∈ asked → o = o'.
Proof.
  induction asked as [|x asked IH]; intros Hn; [by intros ?%elem_of_nil|]. cbn in Hn. apply NoDup_cons in Hn as [Hx Hn].
  rewrite !elem_of_cons. intros [E|Hi] [E'|Hi'].
  - congruence.
  - exfalso. apply Hx. subst x. apply list_elem_of_fmap. by exists (l, o').
  - exfalso. apply Hx. subst x. apply list_elem_of_fmap. by exists (l, o).
  - by apply IH.
Qed.
Lemma elem_fst {A B} (l : list (A * B)) a b : (a, b) ∈ l → a ∈ l.*1.
Proof. intros Hi. apply list_elem_of_fmap. by exists (a, b). Qed.

(** An order asked for under a new id, whatever became of it. *)
Lemma holds_ask t t' told un asked l o a b : holds t told un asked → l ∉ asked.*1 →
  (∀ m, m ≠ l → tr_live t' !! m = tr_live t !! m ∧ tr_asked t' !! m = tr_asked t !! m ∧ (m ∈ tr_closing t' ↔ m ∈ tr_closing t)) →
  tr_withdrawn t' = tr_withdrawn t → a.*1 ++ waiting b = [l] → (is_Some (tr_live t' !! l) → (l, true) ∈ a) →
  (is_Some (tr_live t' !! l) ∨ l ∈ waiting b → tr_asked t' !! l = Some (asks o) ∧ (l ∈ tr_closing t' ↔ po_reduce_only o = true)) →
  holds t' (told ++ a) (un ++ b) (asked ++ [(l, o)]).
Proof.
  intros [Hids Hnd Hlive Hask Hcl Hwd] Hnew Hoff Hw Hab Hl Hla. unfold waiting in *.
  assert (¬ is_Some (tr_live t !! l)) as Hnl.
  { intros Hi. apply Hnew. rewrite Hids, elem_of_app. left. by eapply elem_fst, Hlive. }
  assert (∀ m p, (m, p) ∈ asked → m ≠ l) as Hne by (intros m p Hm ->; by eapply Hnew, elem_fst).
  split.
  - rewrite !fmap_app, Hids. unfold waiting. rewrite fmap_app. cbn [fmap list_fmap fst]. change (fst <$> a) with (a.*1) in *. rewrite <- Hab, <- !app_assoc. apply Permutation_app_head.
    rewrite !app_assoc. apply Permutation_app_tail, Permutation_app_comm.
  - rewrite fmap_app. apply NoDup_app. split; [done|]. split; [|apply NoDup_singleton]. intros x Hx Hx'%list_elem_of_singleton. by subst.
  - intros m Hm. rewrite elem_of_app. destruct (decide (m = l)) as [->|Hml]; [right; by apply Hl|]. left. apply Hlive.
    by rewrite <- (proj1 (Hoff m Hml)).
  - intros m p [Hm|Hm%list_elem_of_singleton]%elem_of_app Hor.
    + pose proof (Hne m p Hm) as Hml. destruct (Hoff m Hml) as (E1 & E2 & E3). rewrite E2, E3. apply Hask; [done|]. rewrite E1 in Hor. destruct Hor as [?|Hu]; [by left|].
      right. unfold waiting in Hu. rewrite fmap_app, elem_of_app in Hu. destruct Hu as [?|Hu]; [done|]. exfalso. apply Hml.
      apply list_elem_of_singleton. rewrite <- Hab, elem_of_app. by right.
    + injection Hm as -> ->. apply Hla. destruct Hor as [?|Hu]; [by left|]. unfold waiting in Hu. rewrite fmap_app, elem_of_app in Hu.
      destruct Hu as [Hu|?]; [|by right]. exfalso. apply Hnew. rewrite Hids, elem_of_app. by right.
  - intros m Hm. rewrite fmap_app, elem_of_app. destruct (decide (m = l)) as [->|Hml]; [right; by left|]. left. apply Hcl.
    by apply (proj2 (proj2 (Hoff m Hml))).
  - intros m Hm. rewrite Hw in Hm. apply Hwd in Hm. assert (m ≠ l) as Hml by (by intros ->). by rewrite (proj1 (Hoff m Hml)).
Qed.

Lemma holds_send t w told un asked l o mark now out t' w' : holds t told un asked → l ∉ asked.*1 →
  Trader.send v os t w l o mark now = Ret (out, t', w') →
  holds t' (told ++ told_of out) (un ++ open_of now out) (asked ++ [(l, o)]) ∧ tr_unanswered t' = tr_unanswered t ∧ tr_strategy t' = tr_strategy t.
Proof.
  intros Hh Hnew Hs. unfold Trader.send in Hs. apply bind_ret in Hs as ([[y s] w1] & _ & Hs).
  assert (¬ is_Some (tr_live t !! l)) as Hnl.
  { destruct Hh as [Hids _ Hlive _ _ _]. intros Hl. apply Hnew. rewrite Hids, elem_of_app. left. by eapply elem_fst, Hlive. }
  assert (l ∉ tr_closing t) as Hnc by (intros Hl; by apply Hnew, (ho_closing _ _ _ _ Hh)).
  destruct y as [id|b|why|id why]; injection Hs as <- <- <-; (split; [|by destruct (po_reduce_only o)]);
    apply (holds_ask t); try done; destruct (po_reduce_only o) eqn:Er; cbn; rewrite ?lookup_insert_eq, ?lookup_delete_eq; try done;
    try (intros m Hm; rewrite ?lookup_insert_ne, ?lookup_delete_ne, ?lookup_insert_ne by done; set_solver);
    try (intros _; by left); try (intros [?|?%elem_of_nil]; done); try (intros _; rewrite ?lookup_insert_eq; split; [done|set_solver]).
Qed.

Definition told_all (out : list Outcome) : list (OrderId * bool) := flat_map told_of out.
Definition open_all (now : Nanos) (out : list Outcome) : list (OrderId * text * Nanos) := flat_map (open_of now) out.
Lemma told_all_app a b : told_all (a ++ b) = told_all a ++ told_all b.
Proof. apply flat_map_app. Qed.
Lemma open_all_app now a b : open_all now (a ++ b) = open_all now a ++ open_all now b.
Proof. apply flat_map_app. Qed.

(** A withdrawal says nothing of whether an order exists. *)
Lemma withdraw_quiet t w l id o w' : Trader.withdraw v t w l id = (o, w') → told_of o = [] ∧ ∀ now, open_of now o = [].
Proof. unfold Trader.withdraw. destruct (Session.cancel _ _ _ _) as [[]]; by intros [= <- <-]. Qed.
Lemma withdraw_each_quiet t orders : ∀ w os' w', Trader.withdraw_each v t w orders = (os', w') → told_all os' = [] ∧ ∀ now, open_all now os' = [].
Proof.
  induction orders as [|[l id] orders IH]; intros w os' w' Hw; cbn [Trader.withdraw_each] in Hw; [by injection Hw as <- <-|].
  destruct (Trader.withdraw v t w l id) as [o w1] eqn:E. destruct (Trader.withdraw_each v t w1 orders) as [os1 w2] eqn:E2. injection Hw as <- <-.
  apply withdraw_quiet in E as [E Eo]. apply IH in E2 as [E2 E2o]. unfold told_all, open_all in *. cbn [flat_map]. rewrite E, E2. split; [done|].
  intros now. by rewrite Eo, E2o.
Qed.

Lemma holds_act t w i mark now told un asked out t' w' : holds t told un asked → Trader.act v os t w i mark now = Ret (out, t', w') →
  NoDup (asked ++ proposal i).*1 →
  holds t' (told ++ told_all out) (un ++ open_all now out) (asked ++ proposal i) ∧ tr_unanswered t' = tr_unanswered t ∧ tr_strategy t' = tr_strategy t.
Proof.
  intros Hh Ha Hnd. destruct i as [n id side price qty offset|n id side qty offset|id|]; cbn [Trader.act proposal] in *.
  1, 2: apply bind_ret in Ha as ([[o t1] w1] & Hs & [= <- <- <-]); unfold told_all, open_all; cbn [flat_map]; rewrite !app_nil_r;
    eapply holds_send; try done; rewrite fmap_app in Hnd; apply NoDup_app in Hnd as (_ & Hd & _); intros Hi; by eapply Hd; [|left].
  - rewrite app_nil_r. destruct (tr_live t !! id) as [cid|].
    + destruct (Trader.withdraw v t w id cid) as [o w1] eqn:E. injection Ha as <- <- <-. apply withdraw_quiet in E as [E Eo].
      unfold told_all, open_all. cbn [flat_map]. by rewrite E, Eo, !app_nil_r.
    + injection Ha as <- <- <-. cbn. by rewrite !app_nil_r.
  - rewrite app_nil_r. destruct (Trader.withdraw_each v t w (in_order (tr_live t))) as [os1 w1] eqn:E. injection Ha as <- <- <-.
    apply withdraw_each_quiet in E as [E Eo]. by rewrite E, Eo, !app_nil_r.
Qed.
Lemma holds_act_all mark now wanted : ∀ t w told un asked out t' w', holds t told un asked →
  Trader.act_all v os t w wanted mark now = Ret (out, t', w') → NoDup (asked ++ proposals wanted).*1 →
  holds t' (told ++ told_all out) (un ++ open_all now out) (asked ++ proposals wanted) ∧ tr_unanswered t' = tr_unanswered t ∧ tr_strategy t' = tr_strategy t.
Proof.
  induction wanted as [|i wanted IH]; intros t w told un asked out t' w' Hh Ha Hnd; cbn [Trader.act_all proposals flat_map] in *.
  { injection Ha as <- <- <-. cbn. by rewrite !app_nil_r. }
  apply bind_ret in Ha as ([[a t1] w1] & Hi & Ha). apply bind_ret in Ha as ([[b t2] w2] & Ha & [= <- <- <-]).
  fold (proposals wanted) in *. rewrite app_assoc in Hnd |- *. rewrite told_all_app, open_all_app, !app_assoc.
  eapply holds_act in Hi as (Hh1 & <- & <-); [|done|]. { by eapply IH. }
  rewrite fmap_app in Hnd. by apply NoDup_app in Hnd as (? & _).
Qed.

(** Reporting tells the strategy just that, and keeps the open ones. *)
Lemma report_placements_spec now out : ∀ t, let t' := Trader.report_placements t out now in
  (tr_strategy t').2 = (tr_strategy t).2 ++ told_all out ∧ tr_unanswered t' = tr_unanswered t ++ open_all now out ∧
  tr_live t' = tr_live t ∧ tr_closing t' = tr_closing t ∧ tr_withdrawn t' = tr_withdrawn t ∧ tr_asked t' = tr_asked t ∧
  tr_intents t' = tr_intents t.
Proof.
  unfold Trader.report_placements. induction out as [|o out IH]; intros t; cbn [fold_left]; [cbn; by rewrite !app_nil_r|].
  destruct (IH (Trader.report_placement now t o)) as (-> & -> & -> & -> & -> & -> & ->). unfold told_all, open_all. cbn [flat_map].
  destruct o; cbn; by rewrite ?app_nil_r, <- ?app_assoc.
Qed.

(** The state between operations. *)
Definition trading t (asked : list (OrderId * ProposedOrder)) : Prop := holds t (tr_strategy t).2 (tr_unanswered t) asked.

Lemma trading_deliver t w r cx now asked out t' w' : trading t asked → (r.1.2 : list (OrderId * bool)) = (tr_strategy t).2 →
  Trader.deliver v os t w r cx now = Ret (out, t', w') → NoDup (asked ++ proposals r.2).*1 →
  trading t' (asked ++ proposals r.2) ∧ tr_intents t' = r.2.
Proof.
  intros Hh Hr Hd Hnd. unfold Trader.deliver in Hd. apply bind_ret in Hd as ([[out1 t1] w1] & Ha & [= <- <- <-]).
  eapply (holds_act_all _ _ _ _ _ (tr_strategy t).2 (tr_unanswered t)) in Ha as (Hh1 & Hu & Hs); [|by eapply holds_same|done].
  destruct (report_placements_spec now out1 (Trader.set_intents t1 r.2)) as (E1 & E2 & E3 & E4 & E5 & E6 & E7).
  split; [|by rewrite E7]. unfold trading. rewrite E1, E2. cbn [tr_strategy tr_unanswered Trader.set_intents]. rewrite Hs, Hu.
  cbn [tr_strategy tr_unanswered Trader.set_strategy]. rewrite Hr. by eapply holds_same.
Qed.

Lemma holds_forget_one t l told un asked : holds t told un asked → l ∉ waiting un → holds (Trader.forget_one t l) told un asked.
Proof.
  intros [Hids Hnd Hlive Hask Hcl Hwd] Hl. split; try done; unfold Trader.forget_one; cbn [tr_live tr_closing tr_withdrawn tr_asked].
  - intros m [Hm Hi]%lookup_delete_is_Some. by apply Hlive.
  - intros m o Hm Hor. destruct (decide (m = l)) as [->|Hml].
    + rewrite lookup_delete_eq in Hor. destruct Hor as [[? ?]|?]; done.
    + rewrite lookup_delete_ne in Hor by done. rewrite lookup_delete_ne by done. destruct (Hask m o Hm Hor) as [? Hc]. split; [done|]. rewrite <- Hc. set_solver.
  - set_solver.
  - intros m Hm. rewrite lookup_delete_is_Some. split; [set_solver|]. apply Hwd. set_solver.
Qed.
Lemma in_order_elem {A} (m : gmap Z A) k x : (k, x) ∈ in_order m ↔ m !! k = Some x.
Proof. unfold in_order. by rewrite sort_by_key_perm, elem_of_map_to_list. Qed.
Lemma trading_forget t id asked : trading t asked → trading (Trader.forget t id) asked.
Proof.
  intros Hh. unfold Trader.forget.
  assert (∀ ls t1, tr_strategy t1 = tr_strategy t → tr_unanswered t1 = tr_unanswered t → holds t1 (tr_strategy t).2 (tr_unanswered t) asked →
    Forall (λ l, l ∉ waiting (tr_unanswered t)) ls → trading (fold_left Trader.forget_one ls t1) asked) as Hf.
  { induction ls as [|l ls IH]; intros t1 Es Eu H1 Hl; cbn [fold_left].
    - unfold trading. by rewrite Es, Eu.
    - apply Forall_cons in Hl as [Hl Hls]. apply IH; try done. by apply holds_forget_one. }
  apply Hf; [done|done|done|]. apply Forall_forall. intros l (p & -> & (Hp & _)%list_elem_of_In%filter_In)%list_elem_of_fmap Hw.
  destruct p as [l c]. apply list_elem_of_In, in_order_elem in Hp. cbn [fst] in Hw. destruct Hh as [Hids Hnd Hlive _ _ _].
  rewrite Hids in Hnd. apply NoDup_app in Hnd as (_ & Hd & _). apply (Hd l); [|done]. eapply elem_fst, Hlive. by eexists.
Qed.

Lemma withdraw_local t w l id o w' : Trader.withdraw v t w l id = (o, w') → ∀ m, Trader.is_cancelled o = Some m → m = l.
Proof. unfold Trader.withdraw. destruct (Session.cancel _ _ _ _) as [[]]; intros [= <- <-] m; cbn; congruence. Qed.
Lemma withdraw_each_local t orders : ∀ w out w', Trader.withdraw_each v t w orders = (out, w') → ∀ m, m ∈ omap Trader.is_cancelled out → m ∈ orders.*1.
Proof.
  induction orders as [|[l id] orders IH]; intros w out w' Hw m Hm; cbn [Trader.withdraw_each] in Hw; [by injection Hw as <- _|].
  destruct (Trader.withdraw v t w l id) as [o w1] eqn:E. destruct (Trader.withdraw_each v t w1 orders) as [os1 w2] eqn:E2. injection Hw as <- _.
  cbn [omap list_omap] in Hm. cbn [fmap list_fmap fst]. destruct (Trader.is_cancelled o) as [c|] eqn:Ec.
  - apply elem_of_cons in Hm as [->|Hm]; [rewrite (withdraw_local _ _ _ _ _ _ E c Ec); by left|right; by eapply IH].
  - right. by eapply IH.
Qed.
Lemma trading_halt t w why out t' w' asked : trading t asked → Trader.halt v t w why = (out, t', w') → trading t' asked.
Proof.
  intros [Hids Hnd Hlive Hask Hcl Hwd] Hw. unfold Trader.halt, Trader.withdraw_opening in Hw. set (t0 := Trader.set_session t _) in Hw.
  destruct (Trader.withdraw_each v t0 w _) as [o1 w1] eqn:E. injection Hw as <- <- <-. split; try done. cbn [Trader.set_withdrawn tr_withdrawn tr_live].
  intros l [Hl|Hl]%elem_of_union; [|by apply Hwd]. apply elem_of_list_to_set in Hl.
  eapply withdraw_each_local in Hl; [|exact E]. apply list_elem_of_fmap in Hl as ([k x] & -> & (Hp & _)%list_elem_of_In%filter_In).
  apply list_elem_of_In, in_order_elem in Hp. by eexists.
Qed.

Lemma holds_found t s l id told pre us sent asked : holds t told (pre ++ (l, id, sent) :: us) asked →
  holds (Trader.set_live (Trader.set_session t s) (<[l := id]> (tr_live t))) (told ++ [(l, true)]) (pre ++ us) asked.
Proof.
  intros [Hids Hnd Hlive Hask Hcl Hwd]. unfold waiting in *. rewrite fmap_app in Hids, Hask. cbn [fmap list_fmap fst] in *.
  split; cbn [Trader.set_live Trader.set_session tr_live tr_closing tr_withdrawn tr_asked]; try done.
  - rewrite Hids. unfold waiting. rewrite !fmap_app. cbn [fmap list_fmap fst]. rewrite <- !app_assoc. apply Permutation_app_head. symmetry. exact (Permutation_middle _ _ _).
  - intros m Hm. rewrite elem_of_app. destruct (decide (m = l)) as [->|Hml]; [right; by left|]. left. apply Hlive. by rewrite lookup_insert_ne in Hm.
  - intros m o Hm Hor. apply Hask; [done|]. unfold waiting in Hor. rewrite fmap_app in Hor. rewrite elem_of_app, elem_of_cons. rewrite elem_of_app in Hor.
    destruct (decide (m = l)) as [->|Hml]; [auto|]. rewrite lookup_insert_ne in Hor by done. naive_solver.
  - intros m Hm. destruct (decide (m = l)) as [->|Hml]; [rewrite lookup_insert_eq; by eexists|]. rewrite lookup_insert_ne by done. by apply Hwd.
Qed.
Lemma holds_gone t l id told pre us sent asked : holds t told (pre ++ (l, id, sent) :: us) asked →
  holds (Trader.set_asked (Trader.set_closing t (tr_closing t ∖ {[l]})) (delete l (tr_asked t))) (told ++ [(l, false)]) (pre ++ us) asked.
Proof.
  intros [Hids Hnd Hlive Hask Hcl Hwd]. unfold waiting in *. rewrite fmap_app in Hids, Hask. cbn [fmap list_fmap fst] in *.
  assert (NoDup (told.*1 ++ l :: (((λ u : OrderId * text * Nanos, u.1.1) <$> pre) ++ ((λ u : OrderId * text * Nanos, u.1.1) <$> us)))) as Hn.
  { rewrite Hids in Hnd. by rewrite Permutation_middle. }
  apply NoDup_app in Hn as (_ & Hd & [Hn _]%NoDup_cons).
  split; cbn [Trader.set_asked Trader.set_closing tr_live tr_closing tr_withdrawn tr_asked]; try done.
  - rewrite Hids. unfold waiting. rewrite !fmap_app. cbn [fmap list_fmap fst]. rewrite <- !app_assoc. apply Permutation_app_head. symmetry. exact (Permutation_middle _ _ _).
  - intros m Hm. rewrite elem_of_app. left. by apply Hlive.
  - intros m o Hm Hor. unfold waiting in Hor. rewrite fmap_app in Hor. assert (m ≠ l) as Hml.
    { intros ->. destruct Hor as [Hor|Hor]; [|done]. apply Hlive, elem_fst, Hd in Hor. apply Hor. by left. }
    rewrite lookup_delete_ne by done. assert (m ∈ tr_closing t ∖ {[l]} ↔ m ∈ tr_closing t) as -> by set_solver. apply Hask; [done|].
    rewrite elem_of_app, elem_of_cons. rewrite elem_of_app in Hor. naive_solver.
  - set_solver.
Qed.
Lemma holds_chase now asked us : ∀ t w told pre t' w' settled open, holds t told (pre ++ us) asked →
  Trader.chase v t w us now = (t', w', settled, open) → holds t' (told ++ settled) (pre ++ open) asked ∧ tr_strategy t' = tr_strategy t.
Proof.
  induction us as [|[[l id] sent] us IH]; intros t w told pre t' w' settled open Hh Hc; cbn [Trader.chase] in Hc.
  { injection Hc as <- <- <- <-. by rewrite !app_nil_r in *. }
  assert (∀ t1 w1, (let '(t2, w2, settled0, open0) := Trader.chase v t1 w1 us now in (t2, w2, settled0, (l, id, sent) :: open0)) = (t', w', settled, open) →
    holds t1 told (pre ++ (l, id, sent) :: us) asked → holds t' (told ++ settled) (pre ++ open) asked ∧ tr_strategy t' = tr_strategy t1) as Hopen.
  { intros t1 w1 Hk H1. destruct (Trader.chase v t1 w1 us now) as [[[t2 w2] se] op] eqn:E. injection Hk as <- <- <- <-.
    change ((l, id, sent) :: us) with ([(l, id, sent)] ++ us) in H1. rewrite app_assoc in H1. eapply IH in E; [|exact H1]. by rewrite <- app_assoc in E. }
  assert (∀ t1 w1 b, (let '(t2, w2, settled0, open0) := Trader.chase v t1 w1 us now in (t2, w2, (l, b) :: settled0, open0)) = (t', w', settled, open) →
    holds t1 (told ++ [(l, b)]) (pre ++ us) asked → holds t' (told ++ settled) (pre ++ open) asked ∧ tr_strategy t' = tr_strategy t1) as Hsettled.
  { intros t1 w1 b Hk H1. destruct (Trader.chase v t1 w1 us now) as [[[t2 w2] se] op] eqn:E. injection Hk as <- <- <- <-.
    eapply IH in E; [|exact H1]. by rewrite <- app_assoc in E. }
  destruct (v_order_status v (w_calls w) _ id) as [[a|]|e].
  - eapply Hsettled in Hc as [? ->]; [done|by eapply holds_found].
  - destruct (NOT_FOUND_IS_ANSWER_AFTER <=? sat64 (now - sent)); [|by eapply Hopen].
    eapply Hsettled in Hc as [? ->]; [done|by eapply holds_gone].
  - by eapply Hopen.
Qed.
Lemma placed_told settled : ∀ (s : S * list (OrderId * bool)), (fold_left (λ s x, Strategy.on_placed s x.1 x.2) settled s).2 = s.2 ++ settled.
Proof.
  induction settled as [|[l b] settled IH]; intros s; cbn [fold_left]; [by rewrite app_nil_r|]. rewrite IH. cbn. by rewrite <- app_assoc.
Qed.
Lemma trading_chase t w now settled t' w' asked : trading t asked → Trader.chase_unanswered v t w now = (settled, t', w') → trading t' asked.
Proof.
  intros Hh Hc. unfold Trader.chase_unanswered in Hc. destruct (Trader.chase v t w (tr_unanswered t) now) as [[[t1 w1] se] op] eqn:E.
  injection Hc as <- <- <-. eapply (holds_chase now asked _ t w _ []) in E as [Hh1 Es]; [|exact Hh].
  unfold trading. cbn [tr_strategy tr_unanswered Trader.set_strategy Trader.set_unanswered]. rewrite placed_told, Es. by eapply holds_same.
Qed.

Lemma deliver_intents t w r cx now out t' w' : Trader.deliver v os t w r cx now = Ret (out, t', w') → tr_intents t' = r.2.
Proof.
  intros Hd. unfold Trader.deliver in Hd. apply bind_ret in Hd as ([[out1 t1] w1] & _ & [= _ <- _]).
  by destruct (report_placements_spec now out1 (Trader.set_intents t1 r.2)) as (_ & _ & _ & _ & _ & _ & ->).
Qed.
Lemma trading_delivered t w r cx now asked out t' w' : trading t asked → (r.1.2 : list (OrderId * bool)) = (tr_strategy t).2 →
  Trader.deliver v os t w r cx now = Ret (out, t', w') → NoDup (asked ++ proposals (tr_intents t')).*1 → trading t' (asked ++ proposals (tr_intents t')).
Proof. intros Hh Hr Hd Hnd. pose proof (deliver_intents _ _ _ _ _ _ _ _ Hd) as Hi. rewrite Hi in Hnd |- *. by eapply trading_deliver. Qed.
Lemma forget_intents t id : tr_intents (Trader.forget t id) = tr_intents t.
Proof.
  unfold Trader.forget. generalize (List.filter (λ p : Z * text, bool_decide (p.2 = id)) (in_order (tr_live t))).*1. intros ls. revert t.
  induction ls as [|l ls IH]; intros t; [done|]. cbn [fold_left]. by rewrite IH.
Qed.
Lemma trader_op_trading t w x asked a t' w' : trading t asked → trader_op t w x = Ret (a, t', w') → NoDup (asked ++ a).*1 → trading t' (asked ++ a).
Proof.
  intros Hh Hx Hnd. destruct x as [cx now|f cx now|c cx now|id e cx now|id|why|now|s w1]; cbn [trader_op] in Hx.
  1-3: apply bind_ret in Hx as ([[out t1] w1] & Hd & [= <- <- <-]); by eapply trading_delivered in Hd.
  - unfold Trader.on_ended in Hx. destruct (Trader.local_id t id) as [l|]; cbn [bool_decide decide decide_rel] in Hx.
    + apply bind_ret in Hx as ([[out t1] w1] & Hd & Hx). apply bind_ret in Hd as ([[out2 t2] w2] & Hd & [= <- <- <-]).
      rewrite bool_decide_false in Hx by done. injection Hx as <- <- <-. rewrite forget_intents in Hnd |- *. apply trading_forget.
      by eapply trading_delivered in Hd.
    + rewrite bool_decide_true in Hx by done. injection Hx as <- <- <-. rewrite app_nil_r. by apply trading_forget.
  - injection Hx as <- <- <-. rewrite app_nil_r. by apply trading_forget.
  - destruct (Trader.halt v t w why) as [[out t1] w1] eqn:E. injection Hx as <- <- <-. rewrite app_nil_r. by eapply trading_halt.
  - destruct (Trader.chase_unanswered v t w now) as [[out t1] w1] eqn:E. injection Hx as <- <- <-. rewrite app_nil_r. by eapply trading_chase.
  - injection Hx as <- <- <-. rewrite app_nil_r. by eapply holds_same.
Qed.
Lemma trader_ops_trading xs : ∀ t w asked a t' w', trading t asked → trader_ops t w xs = Ret (a, t', w') → NoDup (asked ++ a).*1 → trading t' (asked ++ a).
Proof.
  induction xs as [|x xs IH]; intros t w asked a t' w' Hh Hx Hnd; cbn [trader_ops] in Hx.
  { injection Hx as <- <- <-. by rewrite app_nil_r. }
  apply bind_ret in Hx as ([[a1 t1] w1] & Hx1 & Hx). apply bind_ret in Hx as ([[a2 t2] w2] & Hx & [= <- <- <-]). rewrite app_assoc in Hnd |- *.
  eapply IH; [|exact Hx|done]. eapply trader_op_trading; [done|exact Hx1|]. rewrite fmap_app in Hnd. by apply NoDup_app in Hnd as (? & _).
Qed.
Lemma trading_new (s : S) session : trading (Trader.new (s, []) session) [].
Proof.
  split; cbn; try done; try apply NoDup_nil_2; intros l; rewrite ?lookup_empty; try (intros [? ?]; done); set_solver.
Qed.

(** C11. Over any run, of any strategy that gives each of its orders an id of its
    own: the strategy is told once of each submission, or it is still waiting
    for the venue's answer and will be asked about; an order held to be resting
    is one the strategy was told was accepted; and what is kept of it is what
    was asked: its side, its price, its size, and whether it reduces. *)
Theorem every_submission_is_answered_once (s : S) session w xs asked t w' :
  trader_ops (Trader.new (s, []) session) w xs = Ret (asked, t, w') → NoDup asked.*1 →
  let told := (tr_strategy t).2 in
  Permutation asked.*1 (told.*1 ++ waiting (tr_unanswered t)) ∧
  ∀ r, r ∈ Trader.resting_orders t → (ro_local r, true) ∈ told ∧
    ∃ o, (ro_local r, o) ∈ asked ∧ tr_live t !! ro_local r = Some (ro_client_id r) ∧ ro_closing r = po_reduce_only o ∧
      ro_side r = Some (po_side o) ∧ ro_price r = po_limit_price o ∧ ro_qty r = Some (po_qty o).
Proof.
  intros Hx Hnd. eapply (trader_ops_trading _ _ _ []) in Hx as [Hids _ Hlive Hask _ _]; [|apply trading_new|done]. cbn [app] in *.
  split; [done|]. intros r ([l id] & -> & Hl%in_order_elem)%list_elem_of_fmap. cbn [Trader.resting_order ro_local ro_client_id ro_closing ro_side ro_price ro_qty fst snd].
  assert (is_Some (tr_live t !! l)) as Hs by (by eexists). pose proof (Hlive l Hs) as Htold. split; [done|].
  assert (l ∈ asked.*1) as ([l' o] & El & Ho)%list_elem_of_fmap by (rewrite Hids, elem_of_app; left; by eapply elem_fst).
  cbn [fst] in El. subst l'. exists o. destruct (Hask l o Ho (or_introl Hs)) as [-> Hc]. split; [done|]. split; [done|]. split; [|done].
  destruct (po_reduce_only o); [apply bool_decide_true; by apply Hc|apply bool_decide_false; by rewrite Hc].
Qed.

End steps.

(** * A halt *)

Section halt.
Context {T : Type} (v : Venue).
Implicit Types (t : Trader T) (w : World).

Lemma withdraw_each_calls t orders : ∀ w out w', Trader.withdraw_each v t w orders = (out, w') →
  w_calls w' = w_calls w ++ map (λ p : Z * text, Cancelling (sc_symbol (ss_config (tr_session t))) p.2) orders ∧ length out = length orders.
Proof.
  induction orders as [|[l id] orders IH]; intros w out w' Hw; cbn [Trader.withdraw_each] in Hw; [injection Hw as <- <-; by rewrite app_nil_r|].
  destruct (Trader.withdraw v t w l id) as [o w1] eqn:E. destruct (Trader.withdraw_each v t w1 orders) as [os1 w2] eqn:E2. injection Hw as <- <-.
  apply IH in E2 as [-> Hl]. unfold Trader.withdraw, Session.cancel in E. injection E as _ <-. cbn [map call w_calls snd length]. by rewrite <- app_assoc, Hl.
Qed.

(** C14. A halt asks the venue to withdraw exactly the resting orders that would
    add to the position and that no earlier halt withdrew, in the order of their
    ids, and nothing else; every order that reduces it stays; one whose cancel was taken
    is not asked for again, and one whose cancel failed is. *)
Theorem a_halt_withdraws_what_opens t w why out t' w' : Trader.halt v t w why = (out, t', w') →
  let opens (r : RestingOrder) := negb (ro_closing r) && negb (bool_decide (ro_local r ∈ tr_withdrawn t)) in
  w_calls w' = w_calls w ++ map (λ r, Cancelling (sc_symbol (ss_config (tr_session t))) (ro_client_id r)) (List.filter opens (Trader.resting_orders t)) ∧
  length out = length (List.filter opens (Trader.resting_orders t)) ∧
  (∀ l, l ∈ tr_withdrawn t' ↔ (∃ id, OCancelled l id ∈ out) ∨ l ∈ tr_withdrawn t) ∧
  tripped (ss_gate (tr_session t')) = true ∧ Trader.resting_orders t' = Trader.resting_orders t.
Proof.
  unfold Trader.halt, Trader.withdraw_opening. set (t0 := Trader.set_session t _).
  destruct (Trader.withdraw_each v t0 w _) as [o1 w1] eqn:E. intros [= <- <- <-].
  assert (Hf : ∀ l, map (λ r, (ro_local r, ro_client_id r)) (List.filter (λ r, negb (ro_closing r) && negb (bool_decide (ro_local r ∈ tr_withdrawn t)))
    (Trader.resting_order t <$> l)) = List.filter (Trader.opening t0) l).
  { induction l as [|[k x] l IH]; [done|]. cbn [fmap list_fmap List.filter]. change (Trader.opening t0 (k, x)) with
      (negb (ro_closing (Trader.resting_order t (k, x))) && negb (bool_decide (ro_local (Trader.resting_order t (k, x)) ∈ tr_withdrawn t))).
    destruct (negb _ && negb _); cbn [map]; rewrite IH; done. }
  apply withdraw_each_calls in E as [-> ->]. change (tr_live t0) with (tr_live t). rewrite <- Hf. rewrite map_map, length_map.
  assert (ss_config (tr_session t0) = ss_config (tr_session t)) as ->.
  { cbn. unfold Session.trip, Session.note_halt, Session.set_gate. by destruct (ss_halt_reason (tr_session t)). }
  split; [done|]. split; [done|]. split; [|split; [|done]].
  - intros l. cbn [Trader.set_withdrawn tr_withdrawn]. rewrite elem_of_union, elem_of_list_to_set, list_elem_of_omap.
    split; intros [Hl|Hl]; [left|by right|left|by right].
    + destruct Hl as ([] & Ho & [= ->]). by eexists.
    + destruct Hl as (id & Ho). by exists (OCancelled l id).
  - done.
Qed.
End halt.

(** * A trader in action *)

Module DemoTrader.
(** The venue accepts the first order and loses the answer to the second, of
    which it says nothing at first and then that it is there. *)
Definition ack (id status : text) : OrderAck := mkAck (text_of "77") id status (text_of "0").
Definition venue (status : text) : Venue := mkVenue
  (λ calls o _, match calls with
                | [] => Accepted (ack (no_client_id o) (text_of "NEW"))
                | _ => Unknown (mkUnresolved (no_client_id o) (text_of "timed out"))
                end)
  (λ _ _ id, Accepted (ack id (text_of "CANCELED")))
  (λ calls _ id, match calls with [_; _; _] => Ok (Some (ack id status)) | _ => Err (text_of "unreachable") end).
(** Buys once, with its exit. *)
#[global] Instance once : Strategy.Strategy bool := {
  Strategy.on_tick s cx out := (true, out ++ if s then [] else [Limit 1 1 Buy 100 5 Open; Limit 1 2 Sell 110 5 Close]);
  Strategy.on_fill s _ _ out := (s, out);
  Strategy.on_venue_closed s _ _ out := (s, out);
  Strategy.on_placed s _ _ := s;
  Strategy.on_cancel_failed s _ _ := s;
  Strategy.on_ended s _ _ out := (s, out);
  Strategy.on_history s _ := s;
  Strategy.on_history_fill s _ _ := s;
  Strategy.waiting_on _ := [];
  Strategy.name _ := text_of "once";
}.
Definition context : Context := mkContext 1 (mkTick (mkStamp 0 0) 100 100 100 0 0 0) 0 0 0 0 0 0.
Definition start : Trader (bool * list (OrderId * bool)) := Trader.new (false, []) DemoSession.fresh.
Definition ops : list TraderOp := [OpTick context 5; OpTick context 6; OpChase 7; OpHalt (text_of "look")].
Definition ended (status : text) (xs : list TraderOp) :=
  match trader_ops (venue status) DemoSession.os start (mkWorld [] 0) xs with Ret x => x | _ => ([], start, mkWorld [] 0) end.
End DemoTrader.

Lemma every_submission_is_answered_once_witness : ∃ asked t w,
  trader_ops (DemoTrader.venue (text_of "NEW")) DemoSession.os DemoTrader.start (mkWorld [] 0) DemoTrader.ops = Ret (asked, t, w) ∧
  (tr_strategy t).2 = [(1, true); (2, true)] ∧
  Permutation asked.*1 ((tr_strategy t).2.*1 ++ waiting (tr_unanswered t)) ∧ tr_withdrawn t = {[1]}.
Proof.
  destruct (trader_ops (DemoTrader.venue (text_of "NEW")) DemoSession.os DemoTrader.start (mkWorld [] 0) DemoTrader.ops) as [[[asked t] w]| |] eqn:E;
    [|vm_compute in E; discriminate E|vm_compute in E; discriminate E].
  exists asked, t, w. split; [reflexivity|].
  assert (asked.*1 = [1; 2] ∧ (tr_strategy t).2 = [(1, true); (2, true)] ∧ tr_withdrawn t = {[1]}) as (Ha & Ht & Hw).
  { vm_compute in E. injection E as <- <- _. vm_compute. done. }
  split; [exact Ht|]. split; [|exact Hw].
  refine (proj1 (every_submission_is_answered_once (DemoTrader.venue (text_of "NEW")) DemoSession.os false DemoSession.fresh (mkWorld [] 0) DemoTrader.ops asked t w E _)).
  rewrite Ha. by apply (bool_decide_unpack _).
Defined.
Lemma a_halt_withdraws_what_opens_witness : ∃ (t : Trader (bool * list (OrderId * bool))) w out t' w',
  Trader.halt (DemoTrader.venue (text_of "NEW")) t w (text_of "look") = (out, t', w') ∧
  length (Trader.resting_orders t) = 2%nat ∧ w_calls w' = w_calls w ++ [Cancelling (text_of "BTCUSDT") (text_of "oq-1")].
Proof.
  set (x := DemoTrader.ended (text_of "NEW") (take 3 DemoTrader.ops)).
  destruct (Trader.halt (DemoTrader.venue (text_of "NEW")) x.1.2 x.2 (text_of "look")) as [[out t'] w'] eqn:E.
  exists x.1.2, x.2, out, t', w'. split; [exact E|]. split; [vm_compute; reflexivity|].
  destruct (a_halt_withdraws_what_opens (DemoTrader.venue (text_of "NEW")) x.1.2 x.2 (text_of "look") out t' w' E) as [H _].
  rewrite H. f_equal; vm_compute; reflexivity.
Defined.

(** The venue is asked whether the order is there and not whether it still
    rests: one it reports filled is taken for a resting order. *)
Example an_ended_order_is_registered :
  (ro_client_id <$> Trader.resting_orders (DemoTrader.ended (text_of "FILLED") (take 3 DemoTrader.ops)).1.2) = [text_of "oq-1"; text_of "oq-2"].
Proof. vm_compute. reflexivity. Qed.
