(* ===== verification/Reports.v ===== *)
(** What the run loop reads of a venue's reports and positions
    ([oq-live/src/run.rs]): the fill in an order update, the leg it is on, what
    the venue closed on its own, how an order ended, the lots it took over, and
    the spacing of its attempts to replace a stream. *)

From stdpp Require Import strings.
From Stdlib Require Import Floats.SpecFloat.
From S2P Require Import Prelude Text Floats Decimal Types Strategy Instrument Kernel Json Account LiveBook LiveRun Belief Trader.
#[local] Open Scope Z_scope.

Implicit Types (s : text) (i : Instrument).

Inductive Initiator := ByAccount | ByLiquidation | ByAdl | BySettlement.
(** The fields of a report that are not in [OrderUpdate]. *)
Record Report := mkReport { rp_update : OrderUpdate; rp_last_price : text; rp_maker : bool; rp_initiator : Initiator }.
Implicit Types (u : Report).

(** * Reading decimals *)

(** [trim_start_matches('+')]. *)
Fixpoint drop_plus s : text := match s with c :: r => if c =? 43 then drop_plus r else s | [] => [] end.
Definition split_point s : text * text := default (s, []) (split_once 46 s).
(** [scaled_decimal]: the digits past the scale are left out. *)
Definition scaled_decimal s (scale : nat) : option Z :=
  let '(int, frac) := split_point s in
  parse_i64 (drop_plus int ++ take scale frac ++ replicate (scale - length (take scale frac)) 48).
(** [scaled], in [fill_of]: they must be zeros. *)
Definition scaled s (scale : nat) : option Z :=
  let '(int, frac) := split_point s in
  if existsb (λ c, negb (c =? 48)) (drop scale frac) then None else scaled_decimal s scale.

(** * A fill *)

Definition NOT_A_FILL : text := text_of "no traded quantity".
Definition UNKNOWN_SIDE : text := text_of "the fill's side is neither buy nor sell".
Definition offset_of (position_side side : text) : Offset :=
  let sell := eq_ignore_ascii_case side (text_of "SELL") in
  if eq_ignore_ascii_case position_side LONG then (if sell then Close else Open)
  else if eq_ignore_ascii_case position_side SHORT then (if sell then Open else Close)
  else Open.
Definition side_word (side : text) : option Side :=
  if eq_ignore_ascii_case side (text_of "BUY") then Some Buy
  else if eq_ignore_ascii_case side (text_of "SELL") then Some Sell else None.
Definition fill_of u i (order : OrderId) (at_ : Nanos) : result Fill text :=
  let o := rp_update u in
  match scaled (ou_last_qty o) (Z.to_nat (qty_scale i)) with
  | None => Err (text_of "quantity is not a number")
  | Some qty =>
      if qty =? 0 then Err NOT_A_FILL
      else if qty <? 0 then Err (text_of "quantity is negative")
      else
        match scaled (rp_last_price u) (Z.to_nat (price_scale i)) with
        | None => Err (text_of "price is not a number")
        | Some price =>
            if price <=? 0 then Err (text_of "price is not positive")
            else
              match side_word (ou_side o) with
              | None => Err UNKNOWN_SIDE
              | Some side =>
                  Ok (mkFill (mkStamp at_ at_) 1 order (Z.abs (default 0 (ou_trade_id o))) side
                        (offset_of (ou_position_side o) (ou_side o)) price qty (if rp_maker u then Maker else Taker))
              end
        end
  end.

(** [side_of]: what is not a buy is a sell. *)
Definition side_of (word : text) : Side := if eq_ignore_ascii_case word (text_of "BUY") then Buy else Sell.
Definition ending_of (status : text) : option Ending :=
  if bool_decide (status = FILLED) then Some Strategy.Filled
  else if existsb (λ w, bool_decide (status = w)) [text_of "CANCELED"; text_of "EXPIRED"; text_of "EXPIRED_IN_MATCH"] then Some Cancelled
  else None.
Definition venue_closed_of u (f : Fill) : option VenueClosed :=
  let closed reason := Some (mkVenueClosed (f_instrument f) reason (opposite (f_side f)) (f_qty f) (f_price f) (exch (f_stamp f))) in
  match rp_initiator u with
  | ByAccount => None
  | ByLiquidation => closed Liquidation
  | ByAdl => closed Adl
  | BySettlement => closed Settlement
  end.
Definition reports_on u (symbol : text) : bool := eq_ignore_ascii_case (ou_symbol (rp_update u)) symbol.

(** [missed_reports]: [recover] is what the venue answers of each order. *)
Definition missed (booked : Z → Side → bool) u : bool :=
  match ou_trade_id (rp_update u) with
  | Some t => negb (booked (Z.abs t) (side_of (ou_side (rp_update u))))
  | None => bool_decide (is_Some (ending_of (ou_status (rp_update u))))
  end.
Definition missed_reports (recover : text → result (option (list Report)) VenueError) (resting : list text)
    (booked : Z → Side → bool) : list Report :=
  flat_map (λ id, match recover id with Ok (Some reports) => List.filter (missed booked) reports | _ => [] end) resting.

(** * Positions *)

Definition leg_side (p : PositionSnapshot) : Side :=
  if eq_ignore_ascii_case (position_side p) LONG then Buy
  else if eq_ignore_ascii_case (position_side p) SHORT then Sell
  else if F64.ltb F64.zero (amount p) then Buy else Sell.
(** [abs] panics at the least [i64]. *)
Fixpoint adopted_lots (ps : list PositionSnapshot) i : run (list (Side * QtyLots * PriceTicks)) :=
  match ps with
  | [] => mret []
  | p :: ps =>
      if F64.eqb (amount p) F64.zero then adopted_lots ps i
      else
        lots ← chk64 (Z.abs (default 0 (scaled_decimal (amount_text p) (Z.to_nat (qty_scale i)))));
        rest ← adopted_lots ps i;
        mret ((leg_side p, lots, default 0 (scaled_decimal (entry_text p) (Z.to_nat (price_scale i)))) :: rest)
  end.
Inductive NetError := InvalidQuantity (symbol side amount : text) | SumOverflow.
Fixpoint net_from (ps : list PositionSnapshot) i (net : QtyLots) : result QtyLots NetError :=
  match ps with
  | [] => Ok net
  | p :: ps =>
      match scaled_decimal (amount_text p) (Z.to_nat (qty_scale i)) with
      | None => Err (InvalidQuantity (p_symbol p) (position_side p) (amount_text p))
      | Some lots => match checked i64 (net + lots) with Some net => net_from ps i net | None => Err SumOverflow end
      end
  end.
Definition venue_net_lots (ps : list PositionSnapshot) i : result QtyLots NetError := net_from ps i 0.

(** [fee_evidence]: bare negations. *)
Definition fee_evidence (venue_charged model_charged : Cash) : run (Cash * Cash) :=
  a ← chk64 (- venue_charged); b ← chk64 (- model_charged); mret (a, b).

(** * Replacing a stream *)

Module Retry.
Record Retry := mkRetry { wait : Z; next : option Z }.
Definition default : Retry := mkRetry 0 None.
Definition FIRST : Z := 1000000000.
Definition LONGEST : Z := 60 * 1000000000.
Definition due (r : Retry) (now : Z) : bool := match next r with None => true | Some t => t <=? now end.
Definition failed (r : Retry) (now : Z) : Retry :=
  let w := match next r with None => FIRST | Some _ => Z.min (wait r * 2) LONGEST end in mkRetry w (Some (now + w)).
Definition succeeded (r : Retry) : Retry := default.
End Retry.

(** * Decimals read exactly *)

Lemma parse_i64_digits neg ds : forallb is_digit ds = true → ds ≠ [] →
  parse_i64 ((if neg : bool then [45] else []) ++ ds) = checked i64 (signed neg (digits_value ds)).
Proof.
  intros Hd Hn. unfold parse_i64. destruct neg; cbn [app Z.eqb Pos.eqb].
  - by rewrite bool_decide_false, Hd by done.
  - destruct ds as [|c ds]; [done|]. pose proof Hd as Hd'. cbn [forallb] in Hd'. apply andb_true_iff in Hd' as [Hc _]. unfold is_digit in Hc.
    destruct (Z.eqb_spec c 45); [lia|]. destruct (Z.eqb_spec c 43); [lia|]. by rewrite bool_decide_false, Hd by done.
Qed.
Lemma split_point_decimal s neg int frac : decimal s neg int frac → split_point s = ((if neg then [45] else []) ++ int, frac).
Proof.
  intros [(point & -> & Hp) _ Hi _]. unfold split_point.
  assert (46 ∉ (if neg then [45] else []) ++ int) as Hn.
  { rewrite elem_of_app. intros [H|H]; [destruct neg; set_solver|]. by apply (digits_none 46 int) in H. }
  rewrite app_assoc. destruct Hp as [->|[-> ->]]; [by rewrite split_once_app|]. rewrite app_nil_r. by rewrite (proj2 (split_once_none _ _)).
Qed.
Lemma drop_plus_digits neg int : forallb is_digit int = true → drop_plus ((if neg : bool then [45] else []) ++ int) = (if neg then [45] else []) ++ int.
Proof.
  intros Hi. destruct neg; [done|]. destruct int as [|c int]; [done|]. cbn [forallb] in Hi. apply andb_true_iff in Hi as [Hc _]. unfold is_digit in Hc.
  cbn [app drop_plus]. by destruct (Z.eqb_spec c 43); [lia|].
Qed.
Lemma scaled_decimal_value s neg int frac n : decimal s neg int frac → int ≠ [] →
  scaled_decimal s n = checked i64 (signed neg (digits_value int * 10 ^ Z.of_nat n + places n frac)).
Proof.
  intros Hd Hn. unfold scaled_decimal. rewrite (split_point_decimal _ _ _ _ Hd). destruct Hd as [_ _ Hi Hf].
  rewrite drop_plus_digits, <- app_assoc by done. rewrite parse_i64_digits; [|rewrite !forallb_app, Hi; cbn [andb]|by destruct int].
  - do 2 f_equal. unfold places. rewrite !digits_value_app, digits_value_zeros, length_app, length_replicate, length_take.
    replace (n - (n `min` length frac))%nat with (n - length frac)%nat by lia.
    replace (n `min` length frac + (n - length frac))%nat with n by lia. lia.
  - apply andb_true_iff. split; [|by induction (n - length (take n frac))%nat]. rewrite <- (take_drop n frac), forallb_app in Hf. by apply andb_true_iff in Hf as [? _].
Qed.
Lemma scaled_exact s neg int frac n v : decimal s neg int frac → int ≠ [] →
  scaled s n = Some v ↔ ∃ w, worth int frac n w ∧ v = signed neg w ∧ i64 v.
Proof.
  intros Hd Hn. unfold scaled. rewrite (split_point_decimal _ _ _ _ Hd). destruct (existsb _ _) eqn:Ez.
  - split; [done|]. intros (w & Hw & _). exfalso. destruct (decide (length (trim_zeros frac) ≤ n)%nat) as [Hl|Hl].
    + apply zeros_past in Hl. congruence.
    + destruct Hd as [_ _ _ Hf]. by apply (too_precise_inexact int frac n w Hf ltac:(lia)).
  - apply zeros_past, (worth_places int) in Ez. rewrite (scaled_decimal_value _ _ _ _ _ Hd Hn). unfold checked. split.
    + case_decide as Hi; [|done]. intros [= <-]. eauto.
    + intros (w & Hw & -> & Hi). rewrite (worth_unique _ _ _ _ _ Ez Hw). by rewrite decide_True.
Qed.

Lemma side_word_some side x : side_word side = Some x ↔ eq_ignore_ascii_case side (match x with Buy => text_of "BUY" | Sell => text_of "SELL" end) = true.
Proof.
  unfold side_word, eq_ignore_ascii_case. destruct x; repeat case_bool_decide; split; try done; try congruence;
    match goal with H1 : ?a = _, H2 : ?a = _ |- _ => rewrite H1 in H2; discriminate H2 end.
Qed.

(** C15. A report's fill is booked exactly or not at all: a fill is read from it
    just when its quantity and its price are worth whole positive numbers of
    lots and of ticks and it names a side, and the fill has those numbers, that
    side, and the trade and the leg the report names. *)
Theorem a_fill_is_read_exactly u i order at_ qn qi qf pn pi pf :
  decimal (ou_last_qty (rp_update u)) qn qi qf → decimal (rp_last_price u) pn pi pf → qi ≠ [] → pi ≠ [] → ∀ f,
  fill_of u i order at_ = Ok f ↔ ∃ q p side,
    worth qi qf (Z.to_nat (qty_scale i)) q ∧ worth pi pf (Z.to_nat (price_scale i)) p ∧ 0 < signed qn q ≤ I64_MAX ∧ 0 < signed pn p ≤ I64_MAX ∧
    eq_ignore_ascii_case (ou_side (rp_update u)) (match side with Buy => text_of "BUY" | Sell => text_of "SELL" end) = true ∧
    f = mkFill (mkStamp at_ at_) 1 order (Z.abs (default 0 (ou_trade_id (rp_update u)))) side
          (offset_of (ou_position_side (rp_update u)) (ou_side (rp_update u))) (signed pn p) (signed qn q) (if rp_maker u then Maker else Taker).
Proof.
  intros Hq Hp Hqi Hpi f. pose proof (λ v, scaled_exact _ _ _ _ (Z.to_nat (qty_scale i)) v Hq Hqi) as Eq.
  pose proof (λ v, scaled_exact _ _ _ _ (Z.to_nat (price_scale i)) v Hp Hpi) as Ep. unfold fill_of. split.
  - destruct (scaled (ou_last_qty _) _) as [qty|] eqn:E1; [|done]. destruct (proj1 (Eq _) eq_refl) as (q & Hq1 & -> & Hq2).
    destruct (Z.eqb_spec (signed qn q) 0); [done|]. destruct (Z.ltb_spec (signed qn q) 0); [done|].
    destruct (scaled (rp_last_price u) _) as [price|] eqn:E2; [|done]. destruct (proj1 (Ep _) eq_refl) as (p & Hp1 & -> & Hp2).
    destruct (Z.leb_spec (signed pn p) 0); [done|]. destruct (side_word _) as [side|] eqn:Es; [|done]. intros [= <-].
    apply side_word_some in Es. exists q, p, side. unfold i64 in *. split_and!; try done; lia.
  - intros (q & p & side & Hq1 & Hp1 & Hq2 & Hp2 & Hs & ->). rewrite (proj2 (Eq (signed qn q))) by (exists q; split_and!; [done|done|unfold i64; lia]).
    destruct (Z.eqb_spec (signed qn q) 0); [lia|]. destruct (Z.ltb_spec (signed qn q) 0); [lia|].
    rewrite (proj2 (Ep (signed pn p))) by (exists p; split_and!; [done|done|unfold i64; lia]).
    destruct (Z.leb_spec (signed pn p) 0); [lia|]. by rewrite (proj2 (side_word_some _ side)).
Qed.
Module DemoReport.
Definition report (qty price : string) : Report :=
  mkReport (mkUpdate (text_of "BTCUSDT") (text_of "oq-1") PARTIALLY_FILLED (text_of qty) (text_of "sell") LONG (Some 42)) (text_of price) true ByAccount.
End DemoReport.
Lemma a_fill_is_read_exactly_witness :
  fill_of (DemoReport.report "0.0150" "63090.1") (linear 2 3) 7 5 = Ok (mkFill (mkStamp 5 5) 1 7 42 Sell Close 6309010 15 Maker) ∧
  fill_of (DemoReport.report "0.0155" "63090.1") (linear 2 3) 7 5 = Err (text_of "quantity is not a number").
Proof.
  split; [|reflexivity].
  assert (decimal (text_of "0.0150") false (text_of "0") (text_of "0150")) as Hq.
  { split; try done. exists (text_of ".0150"). split; [done|by left]. }
  assert (decimal (text_of "63090.1") false (text_of "63090") (text_of "1")) as Hp.
  { split; try done. exists (text_of ".1"). split; [done|by left]. }
  apply (a_fill_is_read_exactly (DemoReport.report "0.0150" "63090.1") (linear 2 3) 7 5 false (text_of "0") (text_of "0150") false (text_of "63090") (text_of "1")
    Hq Hp ltac:(discriminate) ltac:(discriminate)).
  exists 15, 6309010, Sell. split_and!; try reflexivity; vm_compute; discriminate.
Defined.

(** On a hedged account a fill is booked on the leg the venue names, and what
    the venue closed on its own is that leg. *)
Lemma fills_land_on_the_named_leg u i order at_ f (long : bool) : fill_of u i order at_ = Ok f →
  eq_ignore_ascii_case (ou_position_side (rp_update u)) (if long then LONG else SHORT) = true →
  execution_leg Hedge f = (if long then LONG else SHORT) ∧
  ∀ c, venue_closed_of u f = Some c → f_offset f = Close → vc_leg c = (if long then Buy else Sell).
Proof.
  intros Hf Hl. unfold fill_of in Hf. destruct (scaled (ou_last_qty _) _) as [qty|]; [|done]. destruct (qty =? 0); [done|]. destruct (qty <? 0); [done|].
  destruct (scaled (rp_last_price u) _) as [price|]; [|done]. destruct (price <=? 0); [done|].
  destruct (side_word _) as [s|] eqn:Hs; [|done]. injection Hf as <-. apply side_word_some in Hs.
  assert (offset_of (ou_position_side (rp_update u)) (ou_side (rp_update u)) =
    match s, long with Buy, true | Sell, false => Open | _, _ => Close end) as ->.
  { unfold offset_of, eq_ignore_ascii_case in *. apply bool_decide_eq_true in Hl. apply bool_decide_eq_true in Hs. rewrite Hl, Hs. by destruct s, long. }
  split; [by destruct s, long|]. intros c. unfold venue_closed_of. destruct (rp_initiator u); intros [= <-]; by destruct s, long.
Qed.

(** * Spacing *)

Definition failing (r : Retry.Retry) (times : list Z) : Retry.Retry := fold_left Retry.failed times r.
(** Attempts to replace a stream are a second apart after the first failure,
    twice as far after each other one, and never more than a minute; the next
    is due when that has passed and not before. *)
Lemma failures_space_attempts_out times t now : let r := failing Retry.default (times ++ [t]) in
  Retry.wait r = Z.min (2 ^ Z.of_nat (length times) * Retry.FIRST) Retry.LONGEST ∧ (Retry.due r now = true ↔ t + Retry.wait r ≤ now).
Proof.
  assert (∀ ts, ts ≠ [] → Retry.next (failing Retry.default ts) ≠ None) as Hn.
  { intros ts. destruct ts as [|x ts] using rev_ind; [done|]. intros _. unfold failing. by rewrite fold_left_app. }
  cbv zeta. split.
  - revert t. induction times as [|x times IH] using rev_ind; intros t; [done|]. unfold failing in *. rewrite fold_left_app. cbn [fold_left].
    unfold Retry.failed at 1. cbn [Retry.wait]. specialize (Hn (times ++ [x])). unfold failing in Hn. destruct (Retry.next (fold_left Retry.failed (times ++ [x]) Retry.default)); [|by destruct Hn; [destruct times|]].
    rewrite IH, length_app. cbn [length]. rewrite Nat2Z.inj_add, Z.pow_add_r by lia. change (2 ^ Z.of_nat 1) with 2. unfold Retry.FIRST, Retry.LONGEST. lia.
  - unfold failing. rewrite fold_left_app. cbn [fold_left]. unfold Retry.due, Retry.failed at 1 2. cbn [Retry.next Retry.wait]. apply Z.leb_le.
Qed.

(** * What is read short *)

(** A size finer than the contract is cut off where a position is taken over,
    and an empty one is nothing at all. *)
Example a_finer_size_is_cut_off : scaled_decimal (text_of "0.0015") 3 = Some 1 ∧ scaled (text_of "0.0015") 3 = None.
Proof. done. Qed.
Example an_empty_size_is_zero : scaled_decimal [] 3 = Some 0 ∧ scaled_decimal [] 0 = None ∧ 
  fill_of (DemoReport.report "" "63090.1") (linear 2 3) 7 5 = Err NOT_A_FILL.
Proof. done. Qed.
