(* ===== verification/Operator.v ===== *)
(** What the run loop does for its operator and at its end
    ([oq-live/src/run.rs]): the commands of the control port, when a resume is
    refused, the actions of the supervisor, and the withdrawal of every order at
    shutdown with its verification.

    The replies to [status], [metrics] and [attribution] print floats and
    counters kept elsewhere: the text of each is a parameter. *)

From stdpp Require Import gmap strings.
From S2P Require Import Prelude Text Types Strategy Risk Json Frame Journal LiveRecord Bytes ClientIds LiveSession SessionLife Supervisor Trader Control.
#[local] Open Scope Z_scope.

(** * Resuming *)

Definition POSITION_READ_MAX_AGE_MS : Z := 5000.
(** [checked_sub], and the age in nanoseconds. *)
Definition current_position_agreement (last : option (Nanos * bool)) (at_revision current_revision : nat) (now : Nanos) : option bool :=
  '(at_, agreed) ← last;
  age ← checked i64 (now - at_);
  if (at_revision =? current_revision)%nat && ((0 <=? age) && (age <=? POSITION_READ_MAX_AGE_MS * 1000000)) then Some agreed else None.
Definition resume_refusal (allowed halted : bool) (journal_lost : option text) (last_reconcile_agreed : option bool)
    (books_disagree : Z) : option text :=
  if negb allowed then Some (text_of "resume is not enabled for this process (start it with --control-allow-resume)")
  else if negb halted then Some (text_of "not halted")
  else
    match journal_lost with
    | Some why => Some (text_of "the journal cannot record orders: " ++ why)
    | None =>
        match last_reconcile_agreed with
        | None => Some (text_of "no position check has run yet; wait for one")
        | Some false => Some (text_of "the last position check disagreed with the venue")
        | Some true =>
            if negb (books_disagree =? 0) then Some (text_of "the strategy reports books_disagree " ++ shown books_disagree) else None
        end
    end.

(** * Replies *)

Definition ok_reply (state : text) : text :=
  finish (end_object (str (text_of "state") state (bool_ (text_of "ok") true (begin_object new)))).
Definition side_name (s : Side) : text := match s with Buy => text_of "BUY" | Sell => text_of "SELL" end.
Definition opt_int (k : text) (z : option Z) (j : JsonOut) : JsonOut := match z with Some z => int k z j | None => null k j end.
Definition order_item (j : JsonOut) (o : RestingOrder) : JsonOut :=
  let j := begin_object j in
  let j := uint (text_of "local") (ro_local o) j in
  let j := str (text_of "client_id") (ro_client_id o) j in
  let j := bool_ (text_of "closing") (ro_closing o) j in
  let j := opt_str (text_of "side") (side_name <$> ro_side o) j in
  let j := opt_int (text_of "price_ticks") (ro_price o) j in
  let j := opt_int (text_of "qty_lots") (ro_qty o) j in
  end_object j.
Definition orders_reply (orders : list RestingOrder) : text :=
  let j := begin_array (field (text_of "orders") (bool_ (text_of "ok") true (begin_object new))) in
  finish (end_object (end_array (fold_left order_item orders j))).

(** * The desk *)

Record Desk (S : Type) := mkDesk {
  dk_trader : Trader S; dk_world : World; dk_supervisor : Supervisor;
  dk_last_reconcile : option (Nanos * bool); dk_reconcile_revision : nat; dk_operator_exit : option text;
}.
#[global] Arguments mkDesk {S}.
#[global] Arguments dk_trader {S}.
#[global] Arguments dk_world {S}.
#[global] Arguments dk_supervisor {S}.
#[global] Arguments dk_last_reconcile {S}.
#[global] Arguments dk_reconcile_revision {S}.
#[global] Arguments dk_operator_exit {S}.

Module Desk.
Section desk.
Context {S : Type} `{Strategy.Strategy S} (v : Venue) (os : Os) (allow_resume : bool).
(** The replies that are only read. *)
Context (view : Command → Desk S → text).
Implicit Types (d : Desk S) (t : Trader S) (w : World).

Definition set_trader d t w : Desk S :=
  mkDesk t w (dk_supervisor d) (dk_last_reconcile d) (dk_reconcile_revision d) (dk_operator_exit d).
Definition set_supervisor d (s : Supervisor) : Desk S :=
  mkDesk (dk_trader d) (dk_world d) s (dk_last_reconcile d) (dk_reconcile_revision d) (dk_operator_exit d).
Definition set_exit d (why : text) : Desk S :=
  mkDesk (dk_trader d) (dk_world d) (dk_supervisor d) (dk_last_reconcile d) (dk_reconcile_revision d) (Some why).
Definition halted d : bool := tripped (ss_gate (tr_session (dk_trader d))).

Definition books_disagree d : Z :=
  default 0 (snd <$> find (λ x : text * Z, bool_decide (x.1 = text_of "books_disagree")) (Strategy.waiting_on (tr_strategy (dk_trader d)))).
Definition agreement d (booked : nat) (wall : Nanos) : option bool :=
  current_position_agreement (dk_last_reconcile d) (dk_reconcile_revision d) booked wall.
Definition refused d (booked : nat) (wall : Nanos) : option text :=
  resume_refusal allow_resume (halted d) (ss_journal_lost (tr_session (dk_trader d))) (agreement d booked wall) (books_disagree d).

Definition record_operator d (now : Nanos) (command reason origin outcome : text) : run (Desk S) :=
  '(s, w) ← Session.record_operator os (tr_session (dk_trader d)) (dk_world d) now command reason origin outcome;
  mret (set_trader d (Trader.set_session (dk_trader d) s) w).
Definition halt d (why : text) : Desk S := let '(_, t, w) := Trader.halt v (dk_trader d) (dk_world d) why in set_trader d t w.

(** One request of the port: the reply, at [now], with [booked] the executions
    the books have taken and [wall] the clock. *)
Definition request d (req : Request) (now wall : Nanos) (booked : nat) : run (text * Desk S) :=
  let origin := rq_origin req in
  match rq_command req with
  | Status | Metrics | Attribution => mret (view (rq_command req) d, d)
  | Orders => mret (orders_reply (Trader.resting_orders (dk_trader d)), d)
  | Halt reason =>
      d ← record_operator (halt d (text_of "operator: " ++ reason)) now (text_of "halt") reason origin (text_of "halted");
      mret (ok_reply (text_of "halted"), d)
  | Shutdown reason =>
      d ← record_operator d now (text_of "shutdown") reason origin (text_of "shutting down");
      mret (ok_reply (text_of "shutting down"), set_exit d reason)
  | Resume reason =>
      let refused := refused d booked wall in
      let d := if bool_decide (agreement d booked wall = None) then set_supervisor d (Supervisor.request_position_check (dk_supervisor d)) else d in
      match refused with
      | Some why =>
          d ← record_operator d now (text_of "resume") reason origin (text_of "refused: " ++ why);
          mret (refusal why, d)
      | None =>
          let d := set_trader d (Trader.set_session (dk_trader d) (Session.clear_halt (tr_session (dk_trader d)))) (dk_world d) in
          d ← record_operator d now (text_of "resume") reason origin (text_of "resumed");
          mret (ok_reply (text_of "resumed"), d)
      end
  end.

(** [act]: reconnecting is done where the reader is. *)
Definition act d (a : Action) : Desk S :=
  match a with
  | RenewKey | Reconnect => d
  | CheckPositions | Reconcile => set_supervisor d (Supervisor.request_position_check (dk_supervisor d))
  | Supervisor.Halt why => halt d why
  end.
End desk.
End Desk.

(** * The end of a run *)

Section shutdown.
Context {S : Type} (v : Venue) (os : Os).
Implicit Types (t : Trader S) (w : World).

Definition WITHDRAWN_WORDS : list text := text_of <$> ["CANCELED"; "EXPIRED"; "EXPIRED_IN_MATCH"]%string.
(** [record_endings]: only a cancellation the venue confirms is written. *)
Fixpoint record_endings t w (symbol : text) (ids : list text) (wall : Nanos) : run (Trader S * World) :=
  match ids with
  | [] => mret (t, w)
  | id :: ids =>
      let answer := v_order_status v (w_calls w) symbol id in
      let w := call w (Asking symbol id) in
      '(t, w) ← match answer with
                | Ok (Some a) =>
                    if existsb (λ x, bool_decide (ak_status a = x)) WITHDRAWN_WORDS
                    then '(s, w) ← Session.record_cancelled os (tr_session t) w wall id; mret (Trader.set_session t s, w)
                    else mret (t, w)
                | _ => mret (t, w)
                end;
      record_endings t w symbol ids wall
  end.

Definition ATTEMPTS : nat := 5.
(** Each attempt to verify, with the client ids the venue lists as open. *)
Definition still_open (ids open : list text) : list text := List.filter (λ id, bool_decide (id ∈ open)) ids.
Fixpoint joined (ids : list text) : text :=
  match ids with [] => [] | [id] => id | id :: ids => id ++ text_of ", " ++ joined ids end.
Fixpoint verify (turns : nat) (listing : nat → result (list text) text) (ids : list text) (attempt : nat) (last_error : option text)
    : result () text :=
  match turns with
  | O => Err (default (text_of "withdrawal could not be verified") last_error)
  | Datatypes.S turns =>
      match listing attempt with
      | Ok open =>
          if bool_decide (still_open ids open = []) then Ok ()
          else verify turns listing ids (Datatypes.S attempt) (Some (text_of "still resting: " ++ joined (still_open ids open)))
      | Err e => verify turns listing ids (Datatypes.S attempt) (Some (text_of "could not verify open orders: " ++ e))
      end
  end.
Fixpoint cancel_each t w (ids : list text) : World :=
  match ids with [] => w | id :: ids => cancel_each t (Session.cancel v (tr_session t) w id).2 ids end.
Definition cancel_all t w (listing : nat → result (list text) text) (wall : Nanos) : run (result () text * Trader S * World) :=
  let ids := Trader.resting t in
  if bool_decide (ids = []) then mret (Ok (), t, w)
  else
    let w := cancel_each t w ids in
    match verify ATTEMPTS listing ids 0 None with
    | Ok _ => '(t, w) ← record_endings t w (sc_symbol (ss_config (tr_session t))) ids wall; mret (Ok (), t, w)
    | Err e => mret (Err e, t, w)
    end.
End shutdown.

(** * Lemmas *)

Lemma write_gate os s w r b s' w' : Session.write os s w r = Ret (b, s', w') → ss_gate s' = ss_gate s.
Proof.
  intros H. unfold Session.write in H. destruct (ss_journal s); [|by injection H as <- <- <-].
  case_bool_decide; [by injection H as <- <- <-|]. apply bind_ret in H as ([a j] & _ & H).
  destruct (match a with Ok _ => _ | Err e => _ end) as [c j']. by destruct c; injection H as <- <- <-.
Qed.

Section desk.
Context {S : Type} `{Strategy.Strategy S} (v : Venue) (os : Os) (allow_resume : bool) (view : Command → Desk S → text).
Implicit Types (d : Desk S).

Lemma record_operator_gate d now c r o x d' : Desk.record_operator os d now c r o x = Ret d' → Desk.halted d' = Desk.halted d.
Proof.
  intros H1. unfold Desk.record_operator, Session.record_operator, Session.note in H1. apply bind_ret in H1 as ([s w] & H1 & [= <-]).
  apply bind_ret in H1 as ([[b s1] w1] & H1 & [= <- <-]). apply write_gate in H1. unfold Desk.halted. cbn. by rewrite H1.
Qed.
Lemma halt_halts d why : Desk.halted (Desk.halt v d why) = true.
Proof.
  unfold Desk.halt. destruct (Trader.halt v (dk_trader d) (dk_world d) why) as [[out t] w] eqn:E.
  by apply a_halt_withdraws_what_opens in E as (_ & _ & _ & E & _).
Qed.

(** What a resume that is not refused rests on. *)
Definition seen (d : Desk S) (booked : nat) (wall : Nanos) : Prop :=
  allow_resume = true ∧ ss_journal_lost (tr_session (dk_trader d)) = None ∧ Desk.books_disagree d = 0 ∧
  ∃ at_, dk_last_reconcile d = Some (at_, true) ∧ dk_reconcile_revision d = booked ∧ 0 ≤ wall - at_ ≤ 5000000000.
Lemma not_refused d booked wall : Desk.halted d = true → Desk.refused allow_resume d booked wall = None → seen d booked wall.
Proof.
  unfold Desk.refused, resume_refusal, Desk.agreement, current_position_agreement. intros ->. destruct allow_resume eqn:Ea; [|done]. cbn [negb].
  destruct (ss_journal_lost _) eqn:El; [done|]. destruct (dk_last_reconcile d) as [[at_ agreed]|] eqn:Er; [|done]. cbn [mbind option_bind].
  unfold checked. case_decide; [|done]. cbn [mbind option_bind]. destruct (Nat.eqb_spec (dk_reconcile_revision d) booked) as [Eb|]; [|done]. cbn [andb].
  destruct (Z.leb_spec 0 (wall - at_)); [|done]. destruct (Z.leb_spec (wall - at_) (POSITION_READ_MAX_AGE_MS * 1000000)) as [Hle|]; [|done]. cbn [andb].
  destruct agreed; [|done]. destruct (Z.eqb_spec (Desk.books_disagree d) 0); [|done]. intros _. split_and!; try done. by exists at_.
Qed.


Lemma record_operator_written d now c r o x d' fs : Desk.record_operator os d now c r o x = Ret d' →
  bytes c → bytes r → bytes o → bytes x → holds_records (tr_session (dk_trader d)) fs → ss_journal_lost (tr_session (dk_trader d')) = None →
  ∃ g, fr_kind g = Rec.OPERATOR ∧ fr_payload g = Rec.encode (RecOperator now c r o x) ∧ holds_records (tr_session (dk_trader d')) (fs ++ [g]).
Proof.
  intros H1 Hc Hb Ho Hx Hh Hl. unfold Desk.record_operator, Session.record_operator, Session.note in H1. apply bind_ret in H1 as ([s w] & H1 & [= <-]).
  apply bind_ret in H1 as ([[b s1] w1] & H1 & [= <- <-]). eapply write_spec in H1 as (_ & _ & _ & Hf & Ht); [|exact Hh|].
  - cbn [Desk.set_trader Trader.set_session dk_trader tr_session] in Hl |- *. destruct b; [|destruct (Hf eq_refl); congruence].
    destruct (Ht eq_refl) as (_ & _ & g & Hk & Hp & Hg & _). by exists g.
  - cbn [Rec.encode]. unfold Rec.put_i64. auto 20 using put_str_bytes with bytes.
Qed.

Lemma refused_bytes_text d booked wall why : Desk.refused allow_resume d booked wall = Some why →
  (∀ l, ss_journal_lost (tr_session (dk_trader d)) = Some l → bytes l) → bytes why.
Proof.
  intros Hr Hl. unfold Desk.refused, resume_refusal in Hr. repeat case_match; try done; apply (inj Some) in Hr as <-; try apply text_of_ascii_bytes;
    (apply Forall_app_2; [apply text_of_ascii_bytes|]); [by apply Hl|apply shown_bytes].
Qed.

Lemma record_operator_lost d now c r o x d' : Desk.record_operator os d now c r o x = Ret d' →
  ss_journal_lost (tr_session (dk_trader d')) = None → ss_journal_lost (tr_session (dk_trader d)) = None.
Proof.
  intros H1 Hl. unfold Desk.record_operator, Session.record_operator in H1. apply bind_ret in H1 as ([s w] & H1 & [= <-]).
  destruct (ss_journal_lost (tr_session (dk_trader d))) eqn:E; [|done]. apply lost_notes_nothing in H1 as [-> ->]; [|by rewrite E]. by cbn in Hl; rewrite E in Hl.
Qed.

(** C13. Every change an operator asks for is on record, or the journal says it
    is lost: the last record of the journal is then the command, its reason, who
    asked, and what came of it, as the operator is answered. *)
Theorem every_change_is_on_record d req now wall booked reply d' fs : Desk.request v os allow_resume view d req now wall booked = Ret (reply, d') →
  Command.mutates (rq_command req) = true → bytes (Command.reason (rq_command req)) → bytes (rq_origin req) →
  holds_records (tr_session (dk_trader d)) fs → ss_journal_lost (tr_session (dk_trader d')) = None →
  ∃ g x, fr_kind g = Rec.OPERATOR ∧
    fr_payload g = Rec.encode (RecOperator now (Command.name (rq_command req)) (Command.reason (rq_command req)) (rq_origin req) x) ∧
    holds_records (tr_session (dk_trader d')) (fs ++ [g]) ∧ (reply = ok_reply x ∨ ∃ why, x = text_of "refused: " ++ why ∧ reply = refusal why).
Proof.
  unfold Desk.request. intros Hr Hm Hb Ho Hh Hl. destruct (rq_command req) as [| | | |reason|reason|reason]; try done; cbn [Command.name Command.reason] in *.
  - apply bind_ret in Hr as (d1 & Hr & [= <- <-]). eapply (record_operator_written _ _ _ _ _ _ _ fs) in Hr as (g & Hk & Hp & Hg); eauto with bytes.
    + exists g, (text_of "halted"). auto.
    + unfold Desk.halt, Trader.halt, Trader.withdraw_opening. destruct (Trader.withdraw_each _ _ _ _) as [o1 w1]. cbn.
      unfold Session.trip, Session.note_halt. by destruct (ss_halt_reason _).
  - apply bind_ret in Hr as (d1 & Hr & [= <- <-]). eapply (record_operator_written _ _ _ _ _ _ _ fs) in Hr as (g & Hk & Hp & Hg); eauto with bytes.
    exists g, (text_of "shutting down"). auto.
  - set (d0 := if bool_decide _ then _ else d) in Hr. assert (dk_trader d0 = dk_trader d) as E0 by (by unfold d0; case_bool_decide).
    destruct (Desk.refused allow_resume d booked wall) as [why|] eqn:Er.
    + apply bind_ret in Hr as (d1 & Hr & [= <- <-]). pose proof (record_operator_lost _ _ _ _ _ _ _ Hr Hl) as Hnone. rewrite E0 in Hnone.
      eapply (record_operator_written _ _ _ _ _ _ _ fs) in Hr as (g & Hk & Hp & Hg); rewrite ?E0; eauto with bytes.
      * exists g, (text_of "refused: " ++ why). split_and!; try done. right. by exists why.
      * apply Forall_app_2; [apply text_of_ascii_bytes|]. apply (refused_bytes_text _ _ _ _ Er). congruence.
    + apply bind_ret in Hr as (d1 & Hr & [= <- <-]). eapply (record_operator_written _ _ _ _ _ _ _ fs) in Hr as (g & Hk & Hp & Hg); eauto with bytes.
      * exists g, (text_of "resumed"). auto.
      * cbn. by rewrite E0.
Qed.
End desk.

(** * What the replies say *)

Definition opt_word (z : option Z) : json := match z with Some z => JWord (shown z) | None => JWord (text_of "null") end.
Definition opt_text (x : option text) : json := match x with Some x => JStr x | None => JWord (text_of "null") end.
Definition order_json (o : RestingOrder) : json :=
  JObj [(text_of "local", JWord (shown (ro_local o))); (text_of "client_id", JStr (ro_client_id o));
        (text_of "closing", JWord (text_of (if ro_closing o then "true" else "false")));
        (text_of "side", opt_text (side_name <$> ro_side o)); (text_of "price_ticks", opt_word (ro_price o)); (text_of "qty_lots", opt_word (ro_qty o))].
(** The reply to [orders] is the JSON of the orders, whatever their ids hold. *)
Lemma orders_reply_is_json orders :
  orders_reply orders = render (JObj [(text_of "ok", JWord (text_of "true")); (text_of "orders", JArr (order_json <$> orders))]).
Proof.
  assert (∀ o j, order_item j o = emit (order_json o) None j) as Hi by (intros [? ? ? [] [] []] j; reflexivity).
  assert (∀ j, fold_left order_item orders j = fold_left (λ j v, emit v None j) (order_json <$> orders) j) as Hf.
  { induction orders as [|o orders IH]; intros j; [done|]. cbn [fold_left fmap list_fmap]. by rewrite Hi, IH. }
  unfold orders_reply. rewrite Hf. match goal with |- finish ?j = _ => change j with
    (emit (JObj [(text_of "ok", JWord (text_of "true")); (text_of "orders", JArr (order_json <$> orders))]) None new) end.
  rewrite emit_top; [done|]. cbn [writable forallb snd andb]. rewrite andb_true_r. clear. induction orders as [|[? ? ? [] [] []] orders IH]; [done|..]; exact IH.
Qed.

(** * The end of a run *)

Lemma verify_ok listing ids n : ∀ k e, verify n listing ids k e = Ok () → ∃ a open, (k ≤ a < k + n)%nat ∧ listing a = Ok open ∧ ∀ id, id ∈ ids → id ∉ open.
Proof.
  induction n as [|n IH]; intros k e Hv; [done|]. cbn [verify] in Hv. destruct (listing k) as [open|x] eqn:El.
  - case_bool_decide as Ho.
    + exists k, open. split_and!; try done; [lia|]. intros id Hi Hin.
      assert (id ∈ still_open ids open) as Hs; [|by rewrite Ho in Hs; apply elem_of_nil in Hs].
      apply list_elem_of_In, filter_In. split; [by apply list_elem_of_In|by apply bool_decide_eq_true].
    + apply IH in Hv as (a & open' & Ha & ?). exists a, open'. split; [lia|done].
  - apply IH in Hv as (a & open' & Ha & ?). exists a, open'. split; [lia|done].
Qed.
Lemma cancel_each_calls {S} (v : Venue) (t : Trader S) ids : ∀ w,
  w_calls (cancel_each v t w ids) = w_calls w ++ map (Cancelling (sc_symbol (ss_config (tr_session t)))) ids.
Proof.
  induction ids as [|id ids IH]; intros w; cbn [cancel_each map]; [by rewrite app_nil_r|]. rewrite IH. cbn. by rewrite <- app_assoc.
Qed.
(** A clean shutdown means the venue was asked to cancel every order believed to
    rest, and then listed what is open without any of them. *)
Lemma a_clean_shutdown_left_nothing {S} (v : Venue) (os : Os) (t : Trader S) w listing wall t' w' :
  cancel_all v os t w listing wall = Ret (Ok (), t', w') → Trader.resting t ≠ [] →
  map (Cancelling (sc_symbol (ss_config (tr_session t)))) (Trader.resting t) `sublist_of` drop (length (w_calls w)) (w_calls w') ∧
  ∃ a open, (a < ATTEMPTS)%nat ∧ listing a = Ok open ∧ ∀ id, id ∈ Trader.resting t → id ∉ open.
Proof.
  unfold cancel_all. intros Hc Hne. rewrite bool_decide_false in Hc by done. destruct (verify _ _ _ _ _) as [[]|e] eqn:Ev; [|discriminate Hc].
  apply verify_ok in Ev as (a & open & Ha & Hl & Hno). split; [|exists a, open; split_and!; try done; unfold ATTEMPTS in *; lia].
  apply bind_ret in Hc as ([t1 w1] & Hr & [= <- <-]).
  assert (∀ ids (t0 : Trader S) w0 (t2 : Trader S) w2, record_endings v os t0 w0 (sc_symbol (ss_config (tr_session t))) ids wall = Ret (t2, w2) → ∃ cs, w_calls w2 = w_calls w0 ++ cs) as Hrec.
  { induction ids as [|id ids IH]; intros t0 w0 t2 w2 He; cbn [record_endings] in He; [injection He as _ <-; exists []; by rewrite app_nil_r|].
    apply bind_ret in He as ([t3 w3] & He1 & He). apply IH in He as [cs ->].
    assert (w_calls w3 = w_calls w0 ++ [Asking (sc_symbol (ss_config (tr_session t))) id]) as ->; [|rewrite <- app_assoc; by eexists].
    destruct (v_order_status _ _ _ _) as [[x|]|y]; [destruct (existsb _ _)|..]; try by injection He1 as _ <-.
    apply bind_ret in He1 as ([s3 w4] & He1 & [= _ <-]). unfold Session.record_cancelled, Session.note in He1.
    apply bind_ret in He1 as ([[b s4] w5] & He1 & [= _ <-]). by apply write_frame in He1 as (-> & _). }
  apply Hrec in Hr as [cs ->]. rewrite cancel_each_calls, <- app_assoc, drop_app_length. by apply sublist_inserts_r.
Qed.

(** * A desk in action *)

Module DemoDesk.
Definition view (c : Command) (d : Desk (bool * list (OrderId * bool))) : text := [].
Definition start : Desk (bool * list (OrderId * bool)) :=
  mkDesk (Trader.new (false, []) DemoSession.journalled.1) DemoSession.journalled.2 (Supervisor.new Timings_default) (Some (4000000000, true)) 3 None.
Definition ask (c : Command) (wall : Z) (booked : nat) (d : Desk (bool * list (OrderId * bool))) :=
  match Desk.request (DemoTrader.venue (text_of "NEW")) DemoSession.os true view d (mkRequest 1 c (text_of "uid 501")) 9 wall booked with
  | Ret x => x | _ => ([], d)
  end.
Definition halted := (ask (Halt (text_of "look")) 0 3 start).2.
Lemma journal_sound : ∃ fs, holds_records (tr_session (dk_trader start)) fs.
Proof.
  assert (Session.write DemoSession.os (Session.set_journal (Session.with_id_rules DemoSession.ranged (IdText 36 true)) (Some DemoSession.writer) true None)
    (mkWorld [] 0) (RecSessionStart (text_of "oq") (text_of "BTCUSDT") 1 3) = Ret (true, DemoSession.journalled.1, DemoSession.journalled.2)) as Hw by (vm_compute; reflexivity).
  eapply (write_spec _ _ _ _ _ _ _ []) in Hw as (_ & _ & _ & _ & Ht).
  - destruct (Ht eq_refl) as (_ & _ & g & _ & _ & Hg & _). by exists ([] ++ [g]).
  - exists DemoSession.writer. split; [done|]. intros _.
    by destruct (open_writer_at [] None EveryRecordNoFsync DemoSession.writer ltac:(apply Forall_nil_2) eq_refl ltac:(unfold u64; simpl; lia) DemoSession.opened).
  - cbn [Rec.encode]. repeat (apply Forall_app_2; [first [apply put_str_bytes, text_of_ascii_bytes|repeat constructor; by vm_compute]|]);
      first [apply put_str_bytes, text_of_ascii_bytes|repeat constructor; by vm_compute].
Qed.
End DemoDesk.

Lemma every_change_is_on_record_witness : ∃ fs g x, fr_payload g = Rec.encode (RecOperator 9 (text_of "halt") (text_of "look") (text_of "uid 501") x) ∧
  holds_records (tr_session (dk_trader DemoDesk.halted)) (fs ++ [g]).
Proof.
  destruct DemoDesk.journal_sound as [fs Hfs].
  destruct (Desk.request (DemoTrader.venue (text_of "NEW")) DemoSession.os true DemoDesk.view DemoDesk.start
    (mkRequest 1 (Halt (text_of "look")) (text_of "uid 501")) 9 0 3) as [[reply d']| |] eqn:E; [|vm_compute in E; discriminate E|vm_compute in E; discriminate E].
  assert (DemoDesk.halted = d') as -> by (unfold DemoDesk.halted, DemoDesk.ask; rewrite E; reflexivity).
  destruct (every_change_is_on_record (DemoTrader.venue (text_of "NEW")) DemoSession.os true DemoDesk.view DemoDesk.start
    (mkRequest 1 (Halt (text_of "look")) (text_of "uid 501")) 9 0 3 reply d' fs E eq_refl) as (g & x & _ & Hp & Hh & _).
  - apply text_of_ascii_bytes.
  - apply text_of_ascii_bytes.
  - exact Hfs.
  - vm_compute in E. injection E as _ <-. vm_compute. reflexivity.
  - exists fs, g, x. split; [exact Hp|exact Hh].
Defined.
