(* ===== verification/Capture.v ===== *)
(** The frames of a capture file ([oq-l2feed/src/frame.rs]): the venue's bytes,
    verbatim, between a length and two checksums; version 1 frames, which are
    only read, and version 2 frames, which are written. *)

From S2P Require Import Prelude Bytes Crc.

Definition HEADER_LEN : nat := 21.
Definition HEADER_LEN_V2 : nat := 25.
Definition LEN_PREFIX : nat := 4.
Definition MAX_FRAME_LEN : Z := 64 * 1024 * 1024.
Definition NO_EXCH_TS : Z := I64_MIN.

Inductive Kind := Payload | Control.

Record CaptureRecord := mkRecord { cr_kind : Kind; local_ts : Z; exch_ts : Z; cr_payload : list Z }.

Inductive DecodeError :=
| Truncated
| ChecksumMismatch
| UnknownKind (k : Z)
| InvalidLength (l : Z)
| HeaderChecksumMismatch.

#[export] Instance Kind_eq_dec : EqDecision Kind.
Proof. solve_decision. Defined.
#[export] Instance CaptureRecord_eq_dec : EqDecision CaptureRecord.
Proof. solve_decision. Defined.
#[export] Instance DecodeError_eq_dec : EqDecision DecodeError.
Proof. solve_decision. Defined.

Definition as_u8_v2 (kind : Kind) : Z := match kind with Payload => 2 | Control => 3 end.
(** The kind, and whether the header is version 2. *)
Definition from_u8 (value : Z) : option (Kind * bool) :=
  if value =? 0 then Some (Payload, false)
  else if value =? 1 then Some (Control, false)
  else if value =? 2 then Some (Payload, true)
  else if value =? 3 then Some (Control, true)
  else None.

Module Capture.
Definition payload (local exch : Z) (data : list Z) : CaptureRecord := mkRecord Payload local exch data.
Definition control (local : Z) (data : list Z) : CaptureRecord := mkRecord Control local NO_EXCH_TS data.
Definition day_ts (r : CaptureRecord) : Z := if exch_ts r =? NO_EXCH_TS then local_ts r else exch_ts r.
Definition encoded_len (r : CaptureRecord) : nat := (LEN_PREFIX + HEADER_LEN_V2 + length (cr_payload r))%nat.

(** Appends to [out].  The cast to [u32] drops the high bits of a longer frame. *)
Definition encode (r : CaptureRecord) (out : list Z) : run (list Z) :=
  let len := as_u32 (Z.of_nat (HEADER_LEN_V2 + length (cr_payload r))) in
  let start := length out in
  let out := out ++ le 4 len in
  let out := out ++ [as_u8_v2 (cr_kind r)] in
  let out := out ++ le 8 (local_ts r) in
  let out := out ++ le 8 (exch_ts r) in
  header_crc ← crc32 <$> slice_ix start (LEN_PREFIX + 17) out;
  let out := out ++ le 4 header_crc in
  let out := out ++ le 4 (crc32 (cr_payload r)) in
  mret (out ++ cr_payload r).

(** The header of a version 2 frame, checked before its length is believed. *)
Definition header_error (input : list Z) : run (option DecodeError) :=
  if (length input <? LEN_PREFIX + HEADER_LEN_V2)%nat then mret (Some Truncated)
  else
    stored ← unle <$> slice_ix 21 4 input;
    computed ← crc32 <$> slice_ix 0 21 input;
    mret (if negb (computed =? stored) then Some HeaderChecksumMismatch else None).

Definition decode (input : list Z) : run (result (CaptureRecord * nat) DecodeError) :=
  if (length input <? LEN_PREFIX + 1)%nat then mret (Err Truncated)
  else
    len ← unle <$> slice_ix 0 4 input;
    byte ← ix input 4;
    match from_u8 byte with
    | None => mret (Err (UnknownKind byte))
    | Some (kind, v2) =>
        let header_len := if v2 then HEADER_LEN_V2 else HEADER_LEN in
        refused ← if v2 then header_error input else mret None;
        match refused with
        | Some e => mret (Err e)
        | None =>
            if (len <? Z.of_nat header_len) || (MAX_FRAME_LEN <? len) then mret (Err (InvalidLength len))
            else
              let total := (LEN_PREFIX + Z.to_nat len)%nat in
              if (length input <? total)%nat then mret (Err Truncated)
              else
                local ← unle_i64 <$> slice_ix 5 8 input;
                exch ← unle_i64 <$> slice_ix 13 8 input;
                let crc_at := (LEN_PREFIX + header_len - 4)%nat in
                expected ← unle <$> slice_ix crc_at 4 input;
                data ← slice_ix (LEN_PREFIX + header_len) (total - (LEN_PREFIX + header_len)) input;
                if negb (crc32 data =? expected) then mret (Err ChecksumMismatch)
                else mret (Ok (mkRecord kind local exch data, total))
        end
    end.

Fixpoint decode_loop (fuel : nat) (input : list Z) (offset : nat) (records : list CaptureRecord) :
    run (result (list CaptureRecord * nat) DecodeError) :=
  match fuel with
  | O => OutOfFuel
  | S fuel =>
      if (offset <? length input)%nat then
        r ← decode (drop offset input);
        match r with
        | Ok (record, consumed) => decode_loop fuel input (offset + consumed) (records ++ [record])
        | Err Truncated => mret (Ok (records, (length input - offset)%nat))
        | Err other => mret (Err other)
        end
      else mret (Ok (records, 0%nat))
  end.
(** A frame takes at least a byte. *)
Definition decode_all (input : list Z) : run (result (list CaptureRecord * nat) DecodeError) :=
  decode_loop (S (length input)) input 0 [].
End Capture.
Import Capture.

Implicit Types (bs tl d rest : list Z) (r : CaptureRecord).

(** * Well-formed records and their images *)

Record record_ok r : Prop := {
  local_ok : i64 (local_ts r);
  exch_ok : i64 (exch_ts r);
  payload_bytes : bytes (cr_payload r);
  payload_fits : Z.of_nat (HEADER_LEN_V2 + length (cr_payload r)) ≤ MAX_FRAME_LEN;
}.
#[export] Instance record_ok_dec r : Decision (record_ok r).
Proof.
  refine (cast_if (decide (i64 (local_ts r) ∧ i64 (exch_ts r) ∧ bytes (cr_payload r) ∧
    Z.of_nat (HEADER_LEN_V2 + length (cr_payload r)) ≤ MAX_FRAME_LEN))).
  - abstract (by split; naive_solver).
  - abstract (by intros []; naive_solver).
Defined.

(** What the header's checksum covers: a length, a kind byte, two stamps. *)
Definition covered (n k l e : Z) : list Z := le 4 n ++ [k] ++ le 8 l ++ le 8 e.
Definition frame_head r : list Z :=
  covered (Z.of_nat (HEADER_LEN_V2 + length (cr_payload r))) (as_u8_v2 (cr_kind r)) (local_ts r) (exch_ts r).
Definition image r : list Z := frame_head r ++ le 4 (crc32 (frame_head r)) ++ le 4 (crc32 (cr_payload r)) ++ cr_payload r.
(** What an older build wrote. *)
Definition image_v1 r : list Z :=
  covered (Z.of_nat (HEADER_LEN + length (cr_payload r))) (match cr_kind r with Payload => 0 | Control => 1 end)
    (local_ts r) (exch_ts r) ++ le 4 (crc32 (cr_payload r)) ++ cr_payload r.

Lemma length_covered n k l e : length (covered n k l e) = 21%nat.
Proof. unfold covered. by rewrite !length_app, !length_le. Qed.
Lemma image_length r : length (image r) = encoded_len r.
Proof. unfold image, frame_head, encoded_len. by rewrite !length_app, !length_le, length_covered. Qed.
Lemma image_v1_length r : length (image_v1 r) = (LEN_PREFIX + HEADER_LEN + length (cr_payload r))%nat.
Proof. unfold image_v1. by rewrite !length_app, !length_le, length_covered. Qed.

Lemma covered_bytes n k l e : u8 k → bytes (covered n k l e).
Proof.
  intros Hk. unfold covered, bytes. rewrite !Forall_app. split_and!; try apply le_bytes. by constructor.
Qed.
Lemma kind_u8 kind : u8 (as_u8_v2 kind).
Proof. by destruct kind. Qed.
Lemma frame_head_bytes r : bytes (frame_head r).
Proof. apply covered_bytes, kind_u8. Qed.
Lemma bytes_image r : record_ok r → bytes (image r).
Proof.
  intros Hr. unfold image, bytes. rewrite !Forall_app. split_and!; try apply le_bytes; [apply frame_head_bytes|apply Hr].
Qed.

Lemma encode_writes r out : record_ok r → encode r out = Ret (out ++ image r).
Proof.
  intros Hr. pose proof (payload_fits r Hr) as Hl. unfold MAX_FRAME_LEN in Hl. unfold encode, as_u32.
  rewrite Z.mod_small by lia. unfold slice_ix.
  assert (slice (length out) (LEN_PREFIX + 17) ((((out ++ le 4 (Z.of_nat (HEADER_LEN_V2 + length (cr_payload r)))) ++
    [as_u8_v2 (cr_kind r)]) ++ le 8 (local_ts r)) ++ le 8 (exch_ts r)) = Some (frame_head r)) as ->.
  { rewrite <-!(assoc_L (++)). change (le 4 _ ++ _) with (frame_head r).
    rewrite <-(app_nil_r (frame_head r)) at 1. by apply slice_cover, length_covered. }
  cbn [expect mbind run_bind fmap run_fmap]. f_equal. unfold image, frame_head, covered. by rewrite <-!(assoc_L (++)).
Qed.

(** * What decoding does, field by field *)

Definition body_v2 (n l e : Z) (kind : Kind) rest : result (CaptureRecord * nat) DecodeError :=
  if (n <? 25) || (MAX_FRAME_LEN <? n) then Err (InvalidLength n)
  else if (length rest <? Z.to_nat n - 21)%nat then Err Truncated
  else
    let data := take (Z.to_nat n - 25) (drop 4 rest) in
    if negb (crc32 data =? unle (take 4 rest)) then Err ChecksumMismatch
    else Ok (mkRecord kind l e data, (4 + Z.to_nat n)%nat).

Lemma decode_v2 kind n l e h rest : u32 n → i64 l → i64 e → u32 h → (4 ≤ length rest)%nat →
  decode (covered n (as_u8_v2 kind) l e ++ le 4 h ++ rest) =
    Ret (if negb (crc32 (covered n (as_u8_v2 kind) l e) =? h) then Err HeaderChecksumMismatch
         else body_v2 n l e kind rest).
Proof.
  intros Hn Hl He Hh Hr. set (c := covered n (as_u8_v2 kind) l e).
  assert (length c = 21%nat) as Hc by apply length_covered.
  unfold decode. rewrite !length_app, length_le, Hc. unfold LEN_PREFIX.
  rewrite (proj2 (Nat.ltb_ge _ _)) by lia. unfold slice_ix, ix.
  assert (slice 0 4 (c ++ le 4 h ++ rest) = Some (le 4 n) ∧ (c ++ le 4 h ++ rest) !! 4%nat = Some (as_u8_v2 kind) ∧
    slice 5 8 (c ++ le 4 h ++ rest) = Some (le 8 l) ∧ slice 13 8 (c ++ le 4 h ++ rest) = Some (le 8 e))
    as (-> & -> & -> & ->).
  { unfold c, covered. rewrite <-!(assoc_L (++)). cbn [app]. by split_and!; rd. }
  cbn [expect mbind run_bind fmap run_fmap]. rewrite unle_u32 by done.
  replace (from_u8 (as_u8_v2 kind)) with (Some (kind, true)) by by destruct kind.
  unfold header_error. rewrite !length_app, length_le, Hc. unfold LEN_PREFIX, HEADER_LEN_V2.
  destruct (Nat.ltb_spec (21 + (4 + length rest)) (4 + 25)) as [|_]; [lia|]. unfold slice_ix.
  rewrite (slice_cover c (le 4 h) rest 21 4), (slice_hit c _ 21) by (done || apply length_le).
  cbn [expect mbind run_bind fmap run_fmap]. rewrite unle_u32 by done.
  destruct (negb (crc32 c =? h)); [done|]. unfold body_v2. change (Z.of_nat 25) with 25.
  destruct (n <? 25) eqn:En; [done|]. destruct (MAX_FRAME_LEN <? n); [done|]. cbn [orb]. apply Z.ltb_ge in En.
  destruct (Nat.ltb_spec (length rest) (Z.to_nat n - 21)) as [Hlt|Hge].
  { by rewrite (proj2 (Nat.ltb_lt _ _)) by lia. }
  rewrite (proj2 (Nat.ltb_ge _ _)) by lia. rewrite !unle_i64_le by done.
  rewrite (assoc_L (++)), !slice_skip by (rewrite length_app, length_le, Hc; lia).
  rewrite length_app, length_le, Hc. simpl (_ + _ - _ - _)%nat.
  replace (4 + Z.to_nat n - 29)%nat with (Z.to_nat n - 25)%nat by lia.
  unfold slice. rewrite !(proj2 (Nat.leb_le _ _)) by lia. rewrite drop_0.
  cbn [expect mbind run_bind fmap run_fmap]. by destruct (negb _).
Qed.

Definition body_v1 (n l e c : Z) (kind : Kind) rest : result (CaptureRecord * nat) DecodeError :=
  if (n <? 21) || (MAX_FRAME_LEN <? n) then Err (InvalidLength n)
  else if (length rest <? Z.to_nat n - 21)%nat then Err Truncated
  else
    let data := take (Z.to_nat n - 21) rest in
    if negb (crc32 data =? c) then Err ChecksumMismatch
    else Ok (mkRecord kind l e data, (4 + Z.to_nat n)%nat).

Lemma decode_v1 kind k n l e c rest : from_u8 k = Some (kind, false) → u32 n → i64 l → i64 e → u32 c →
  decode (covered n k l e ++ le 4 c ++ rest) = Ret (body_v1 n l e c kind rest).
Proof.
  intros Hk Hn Hl He Hc. set (h := covered n k l e).
  assert (length h = 21%nat) as Hh by apply length_covered.
  unfold decode. rewrite !length_app, length_le, Hh. unfold LEN_PREFIX.
  rewrite (proj2 (Nat.ltb_ge _ _)) by lia. unfold slice_ix, ix.
  assert (slice 0 4 (h ++ le 4 c ++ rest) = Some (le 4 n) ∧ (h ++ le 4 c ++ rest) !! 4%nat = Some k ∧
    slice 5 8 (h ++ le 4 c ++ rest) = Some (le 8 l) ∧ slice 13 8 (h ++ le 4 c ++ rest) = Some (le 8 e))
    as (-> & -> & -> & ->).
  { unfold h, covered. rewrite <-!(assoc_L (++)). cbn [app]. by split_and!; rd. }
  cbn [expect mbind run_bind fmap run_fmap]. rewrite unle_u32, Hk by done. cbn [mret run_ret].
  unfold body_v1, HEADER_LEN. change (Z.of_nat 21) with 21.
  destruct (n <? 21) eqn:En; [done|]. destruct (MAX_FRAME_LEN <? n); [done|]. cbn [orb]. apply Z.ltb_ge in En.
  destruct (Nat.ltb_spec (length rest) (Z.to_nat n - 21)) as [Hlt|Hge].
  { by rewrite (proj2 (Nat.ltb_lt _ _)) by lia. }
  rewrite (proj2 (Nat.ltb_ge _ _)) by lia. rewrite !unle_i64_le by done.
  change (4 + 21 - 4)%nat with 21%nat. rewrite (slice_cover h (le 4 c) rest 21 4) by (done || apply length_le).
  rewrite (assoc_L (++)), !slice_skip by (rewrite length_app, length_le, Hh; lia).
  rewrite length_app, length_le, Hh. simpl (_ + _ - _)%nat.
  replace (4 + Z.to_nat n - 25)%nat with (Z.to_nat n - 21)%nat by lia.
  unfold slice. rewrite !(proj2 (Nat.leb_le _ _)) by lia. rewrite drop_0.
  cbn [expect mbind run_bind fmap run_fmap]. rewrite unle_u32 by done. by destruct (negb _).
Qed.

(** Fewer bytes than a header, of either version. *)
Lemma decode_too_short bs : (length bs < LEN_PREFIX + 1)%nat → decode bs = Ret (Err Truncated).
Proof. intros. unfold decode. by rewrite (proj2 (Nat.ltb_lt _ _)). Qed.

(** Everything a reader decides about the front of a buffer stands however
    the buffer goes on: only [Truncated] waits for more. *)
Lemma decode_app bs tl x : decode bs = Ret x → x ≠ Err Truncated → decode (bs ++ tl) = Ret x.
Proof.
  unfold decode. rewrite length_app. unfold LEN_PREFIX, HEADER_LEN, HEADER_LEN_V2.
  destruct (Nat.ltb_spec (length bs) (4 + 1)) as [|H5]; [by intros [= <-]|].
  destruct (Nat.ltb_spec (length bs + length tl) (4 + 1)) as [|_]; [lia|]. unfold slice_ix, ix. rewrite lookup_app_l by lia.
  rewrite (slice_app_l 0 4) by lia. intros Hx Hne. revert Hx.
  destruct (slice 0 4 bs) as [n|]; [|done]. destruct (bs !! 4%nat) as [k|]; [|done].
  cbn [expect mbind run_bind fmap run_fmap]. destruct (from_u8 k) as [[kind v2]|]; [|done].
  assert (∀ (X Y : option DecodeError → run (result (CaptureRecord * nat) DecodeError)),
    (Y (Some Truncated) = Ret (Err Truncated)) → (∀ o, Y o = Ret x → X o = Ret x) →
    (if v2 then header_error bs else mret None) ≫= Y = Ret x →
    (if v2 then header_error (bs ++ tl) else mret None) ≫= X = Ret x) as Hhead.
  { intros X Y Y1 Y2. destruct v2; [|apply Y2]. unfold header_error. rewrite length_app. unfold LEN_PREFIX, HEADER_LEN_V2.
    destruct (Nat.ltb_spec (length bs) (4 + 25)) as [|H29].
    { cbn [mbind run_bind mret run_ret]. rewrite Y1. by intros [= <-]. }
    destruct (Nat.ltb_spec (length bs + length tl) (4 + 25)) as [|_]; [lia|]. unfold slice_ix. rewrite !slice_app_l by lia.
    destruct (slice 21 4 bs); [|done]. destruct (slice 0 21 bs); [|done].
    cbn [expect mbind run_bind fmap run_fmap mret run_ret]. apply Y2. }
  apply Hhead; [done|]. clear Hhead. intros [err|]; [done|]. set (m := unle n).
  destruct ((m <? _) || (MAX_FRAME_LEN <? m)) eqn:Em; [done|].
  destruct (Nat.ltb_spec (length bs) (4 + Z.to_nat m)) as [|Hm]; [by intros [= <-]|].
  destruct (Nat.ltb_spec (length bs + length tl) (4 + Z.to_nat m)) as [|_]; [lia|]. apply orb_false_iff in Em as [Em _].
  assert ((if v2 then 25 else 21) ≤ Z.to_nat m)%nat as Hlow by (destruct v2; apply Z.ltb_ge in Em; lia).
  rewrite !slice_app_l by (destruct v2; lia). done.
Qed.

(** Decoding never panics. *)
Lemma decoding_returns bs : ∃ x, decode bs = Ret x.
Proof.
  unfold decode, LEN_PREFIX, HEADER_LEN, HEADER_LEN_V2.
  destruct (Nat.ltb_spec (length bs) (4 + 1)) as [|H5]; [eauto|]. unfold slice_ix, ix.
  destruct (slice_some 0 4 bs) as [n ->]; [lia|]. destruct (lookup_lt_is_Some_2 bs 4) as [k ->]; [lia|].
  cbn [expect mbind run_bind fmap run_fmap]. destruct (from_u8 k) as [[kind v2]|]; [|eauto].
  assert (∃ o, (if v2 then header_error bs else mret None) = Ret o) as [o ->].
  { destruct v2; [|eauto]. unfold header_error, LEN_PREFIX, HEADER_LEN_V2.
    destruct (Nat.ltb_spec (length bs) (4 + 25)) as [|H29]; [eauto|]. unfold slice_ix.
    destruct (slice_some 21 4 bs) as [? ->]; [lia|]. destruct (slice_some 0 21 bs) as [? ->]; [lia|]. eauto. }
  cbn [mbind run_bind]. destruct o as [err|]; [eauto|]. set (m := unle n).
  destruct ((m <? _) || (MAX_FRAME_LEN <? m)) eqn:Em; [eauto|].
  destruct (Nat.ltb_spec (length bs) (4 + Z.to_nat m)) as [|Hm]; [eauto|]. apply orb_false_iff in Em as [Em _].
  assert ((if v2 then 25 else 21) ≤ Z.to_nat m)%nat as Hlow by (destruct v2; apply Z.ltb_ge in Em; lia).
  destruct (slice_some 5 8 bs) as [? ->]; [destruct v2; lia|]. destruct (slice_some 13 8 bs) as [? ->]; [destruct v2; lia|].
  destruct (slice_some (4 + (if v2 then 25 else 21) - 4) 4 bs) as [? ->]; [destruct v2; lia|].
  destruct (slice_some (4 + (if v2 then 25 else 21)) (4 + Z.to_nat m - (4 + (if v2 then 25 else 21))) bs)
    as [? ->]; [destruct v2; lia|]. cbn [expect mbind run_bind fmap run_fmap]. destruct (negb _); eauto.
Qed.

(** What is decoded takes at least a byte, and no more than there is; a
    version 1 frame is four bytes shorter than the one written today. *)
Lemma decode_takes bs r n : decode bs = Ret (Ok (r, n)) → (0 < n ≤ length bs ∧ encoded_len r ≤ n + 4)%nat.
Proof.
  unfold decode, LEN_PREFIX. destruct (_ <? _)%nat; [done|]. intros (v & _ & H)%bind_ret.
  apply bind_ret in H as (k & _ & H). destruct (from_u8 k) as [[kind v2]|]; [|done].
  apply bind_ret in H as ([err|] & _ & H); [done|]. destruct (_ || _) eqn:Ev; [done|].
  apply orb_false_iff in Ev as [Ev%Z.ltb_ge _].
  destruct (Nat.ltb_spec (length bs) (4 + Z.to_nat v)) as [|Hm]; [done|].
  do 3 apply bind_ret in H as (? & _ & H). apply bind_ret in H as (data & Hd & H). destruct (negb _); [done|].
  injection H as <- <-. unfold slice_ix in Hd. destruct (slice _ _ bs) as [z|] eqn:Hs; [|done]. injection Hd as <-.
  apply slice_length in Hs as [Hs _]. unfold encoded_len, LEN_PREFIX, HEADER_LEN_V2, HEADER_LEN in *. cbn [cr_payload].
  destruct v2; lia.
Qed.
Lemma decode_consumes bs r n : decode bs = Ret (Ok (r, n)) → (0 < n ≤ length bs)%nat.
Proof. intros H. apply (decode_takes _ _ _ H). Qed.

(** * Whole frames and torn ones *)

Lemma frame_len_u32 r m : record_ok r → (m ≤ 25)%nat → u32 (Z.of_nat (m + length (cr_payload r))).
Proof. intros [_ _ _ H] Hm. unfold MAX_FRAME_LEN, HEADER_LEN_V2 in H. mlia. Qed.
Lemma v1_u8 kind : u8 (match kind with Payload => 0 | Control => 1 end).
Proof. by destruct kind. Qed.

Lemma image_parts r tl : image r ++ tl =
  covered (Z.of_nat (25 + length (cr_payload r))) (as_u8_v2 (cr_kind r)) (local_ts r) (exch_ts r) ++
    le 4 (crc32 (frame_head r)) ++ le 4 (crc32 (cr_payload r)) ++ cr_payload r ++ tl.
Proof. unfold image. by rewrite <-!(assoc_L (++)). Qed.

Lemma decode_whole r tl : record_ok r → decode (image r ++ tl) = Ret (Ok (r, length (image r))).
Proof.
  intros Hr. pose proof Hr as [Hl He Hb Hf]. rewrite image_parts, decode_v2; try done.
  2: by apply (frame_len_u32 r 25). 2: apply crc_u32, frame_head_bytes. 2: rewrite !length_app, length_le; lia.
  fold HEADER_LEN_V2. fold (frame_head r). rewrite Z.eqb_refl. cbn [negb]. unfold body_v2.
  rewrite (proj2 (Z.ltb_ge _ _)) by (unfold HEADER_LEN_V2; lia). rewrite (proj2 (Z.ltb_ge _ _)) by done. cbn [orb].
  rewrite Nat2Z.id. unfold HEADER_LEN_V2. rewrite (proj2 (Nat.ltb_ge _ _)) by (rewrite !length_app, length_le; lia).
  replace (25 + length (cr_payload r) - 25)%nat with (length (cr_payload r)) by lia.
  rewrite (drop_app_length' _ _ 4), (take_app_length' _ _ 4) by by rewrite length_le.
  rewrite take_app_length, unle_u32, Z.eqb_refl by (by apply crc_u32). cbn [negb].
  rewrite image_length. unfold encoded_len, LEN_PREFIX, HEADER_LEN_V2. by destruct r.
Qed.

Lemma decode_whole_v1 r tl : record_ok r → decode (image_v1 r ++ tl) = Ret (Ok (r, length (image_v1 r))).
Proof.
  intros Hr. pose proof Hr as [Hl He Hb Hf]. unfold HEADER_LEN_V2, MAX_FRAME_LEN in Hf.
  unfold image_v1. rewrite <-!(assoc_L (++)), (decode_v1 (cr_kind r)); try done.
  2: by destruct (cr_kind r). 2: by apply (frame_len_u32 r 21); [|lia]. 2: by apply crc_u32.
  unfold body_v1, MAX_FRAME_LEN, HEADER_LEN. do 2 rewrite (proj2 (Z.ltb_ge _ _)) by lia. cbn [orb]. rewrite Nat2Z.id.
  rewrite (proj2 (Nat.ltb_ge _ _)) by (rewrite !length_app; lia).
  replace (21 + length (cr_payload r) - 21)%nat with (length (cr_payload r)) by lia.
  rewrite take_app_length, Z.eqb_refl. cbn [negb]. rewrite !length_app, length_covered, length_le.
  do 3 f_equal; first [by destruct r|lia].
Qed.

(** The first five bytes say how long the frame is to be. *)
Lemma front n k bs l e j : (5 ≤ j)%nat →
  slice 0 4 (take j (covered n k l e ++ bs)) = Some (le 4 n) ∧ take j (covered n k l e ++ bs) !! 4%nat = Some k.
Proof.
  intros Hj. rewrite lookup_take_lt by lia. split.
  - unfold slice. rewrite length_take, length_app, length_covered, (proj2 (Nat.leb_le _ _)) by lia.
    rewrite drop_0, take_take, Nat.min_l by lia. unfold covered. rewrite <-!(assoc_L (++)).
    by rewrite take_app_length' by by rewrite length_le.
  - unfold covered. rewrite <-!(assoc_L (++)). cbn [app]. by rd.
Qed.

(** A frame cut short anywhere is a torn tail. *)
Lemma decode_cut r j : record_ok r → (j < length (image r))%nat → decode (take j (image r)) = Ret (Err Truncated).
Proof.
  intros Hr Hj. pose proof Hr as [Hl He Hb Hf].
  destruct (Nat.lt_ge_cases j 5); [apply decode_too_short; rewrite length_take; unfold LEN_PREFIX; lia|].
  destruct (Nat.lt_ge_cases j 29).
  - unfold decode. rewrite length_take, Nat.min_l by lia. rewrite (proj2 (Nat.ltb_ge _ _)) by (unfold LEN_PREFIX; lia).
    unfold slice_ix, ix. rewrite <-(app_nil_r (image r)), image_parts.
    destruct (front (Z.of_nat (25 + length (cr_payload r))) (as_u8_v2 (cr_kind r))
      (le 4 (crc32 (frame_head r)) ++ le 4 (crc32 (cr_payload r)) ++ cr_payload r ++ []) (local_ts r) (exch_ts r) j)
      as [-> ->]; [done|]. cbn [expect mbind run_bind fmap run_fmap].
    replace (from_u8 (as_u8_v2 (cr_kind r))) with (Some (cr_kind r, true)) by by destruct (cr_kind r).
    unfold header_error. rewrite length_take. unfold LEN_PREFIX, HEADER_LEN_V2.
    match goal with |- context [(?a <? 4 + 25)%nat] => destruct (Nat.ltb_spec a (4 + 25)) end; [done|].
    exfalso. revert H1. rewrite !length_app, length_covered, !length_le. lia.
  - rewrite <-(app_nil_r (image r)), image_parts, app_nil_r. rewrite image_length in Hj.
    unfold encoded_len, LEN_PREFIX, HEADER_LEN_V2 in *.
    rewrite (assoc_L (++)), take_app_ge by (rewrite length_app, length_covered, length_le; lia).
    rewrite <-(assoc_L (++)), length_app, length_covered, length_le.
    assert (length (take (j - (21 + 4)) (le 4 (crc32 (cr_payload r)) ++ cr_payload r)) = (j - 25)%nat) as Hn
      by (rewrite length_take, length_app, length_le; lia).
    rewrite decode_v2; try done. 2: by apply (frame_len_u32 r 25). 2: apply crc_u32, frame_head_bytes. 2: rewrite Hn; lia.
    change 25%nat with HEADER_LEN_V2. fold (frame_head r). rewrite Z.eqb_refl. cbn [negb]. unfold body_v2, HEADER_LEN_V2.
    do 2 rewrite (proj2 (Z.ltb_ge _ _)) by lia. cbn [orb]. rewrite Nat2Z.id, Hn.
    by rewrite (proj2 (Nat.ltb_lt _ _)) by lia.
Qed.

Lemma decode_cut_v1 r j : record_ok r → (j < length (image_v1 r))%nat →
  decode (take j (image_v1 r)) = Ret (Err Truncated).
Proof.
  intros Hr Hj. pose proof Hr as [Hl He Hb Hf]. unfold HEADER_LEN_V2, MAX_FRAME_LEN in Hf.
  destruct (Nat.lt_ge_cases j 5); [apply decode_too_short; rewrite length_take; unfold LEN_PREFIX; lia|].
  rewrite image_v1_length in Hj. unfold LEN_PREFIX, HEADER_LEN in Hj.
  assert (length (take j (image_v1 r)) = j) as Hj'
    by (rewrite length_take, image_v1_length; unfold LEN_PREFIX, HEADER_LEN; lia).
  unfold decode. rewrite Hj'. rewrite (proj2 (Nat.ltb_ge _ _)) by (unfold LEN_PREFIX; lia). unfold slice_ix, ix.
  unfold image_v1. set (k := match cr_kind r with Payload => 0 | Control => 1 end).
  destruct (front (Z.of_nat (HEADER_LEN + length (cr_payload r))) k (le 4 (crc32 (cr_payload r)) ++ cr_payload r)
    (local_ts r) (exch_ts r) j) as [-> ->]; [done|]. cbn [expect mbind run_bind fmap run_fmap].
  replace (from_u8 k) with (Some (cr_kind r, false)) by (unfold k; by destruct (cr_kind r)).
  cbn [mret run_ret]. rewrite unle_u32 by by apply (frame_len_u32 r 21); [|lia]. unfold MAX_FRAME_LEN, HEADER_LEN, LEN_PREFIX.
  do 2 rewrite (proj2 (Z.ltb_ge _ _)) by lia. cbn [orb]. rewrite Nat2Z.id. by rewrite (proj2 (Nat.ltb_lt _ _)) by lia.
Qed.

(** * A whole file *)

(** A file of either version. *)
Definition written (v2 : bool) r : list Z := if v2 then image r else image_v1 r.
Definition capture_file (frames : list (bool * CaptureRecord)) : list Z := concat ((λ x, written x.1 x.2) <$> frames).

Lemma decode_written v2 r tl : record_ok r → decode (written v2 r ++ tl) = Ret (Ok (r, length (written v2 r))).
Proof. destruct v2; [apply decode_whole|apply decode_whole_v1]. Qed.
Lemma written_nonempty v2 r : (0 < length (written v2 r))%nat.
Proof. destruct v2; simpl; [rewrite image_length|rewrite image_v1_length]; unfold encoded_len, LEN_PREFIX; lia. Qed.

Lemma decode_loop_file frames : ∀ fuel before tl records, Forall (λ x, record_ok x.2) frames →
  (length frames ≤ fuel)%nat →
  decode_loop fuel (before ++ capture_file frames ++ tl) (length before) records =
    decode_loop (fuel - length frames) (before ++ capture_file frames ++ tl) (length (before ++ capture_file frames))
      (records ++ frames.*2).
Proof.
  induction frames as [|[v2 r] frames IH]; intros fuel before tl records Hok Hf.
  { simpl. by rewrite Nat.sub_0_r, !app_nil_r. }
  inversion Hok as [|? ? Hr Hrest]; subst. simpl in Hf. destruct fuel as [|fuel]; [lia|].
  change (capture_file ((v2, r) :: frames)) with (written v2 r ++ capture_file frames). cbn [decode_loop length].
  rewrite <-(assoc_L (++)). pose proof (written_nonempty v2 r) as Hp.
  rewrite (proj2 (Nat.ltb_lt _ _)) by (rewrite !length_app; lia).
  rewrite drop_app_length, decode_written by done. cbn [mbind run_bind].
  rewrite <-length_app, (assoc_L (++) before), IH by (done || lia).
  rewrite <-!(assoc_L (++)). by simpl.
Qed.

Lemma file_length frames : (length frames ≤ length (capture_file frames))%nat.
Proof.
  induction frames as [|[v2 r] frames IH]; [done|]. change (capture_file ((v2, r) :: frames)) with (written v2 r ++ capture_file frames).
  rewrite length_app. pose proof (written_nonempty v2 r). simpl. lia.
Qed.

(** Whole frames, and then what decides. *)
Lemma decode_all_file frames tl : Forall (λ x, record_ok x.2) frames →
  ∃ fuel, decode_all (capture_file frames ++ tl) =
    decode_loop (S (length tl + fuel)) (capture_file frames ++ tl) (length (capture_file frames)) frames.*2.
Proof.
  intros Hok. unfold decode_all. pose proof (file_length frames).
  rewrite (decode_loop_file frames _ [] tl []); [|done|rewrite length_app; lia].
  exists (length (capture_file frames) - length frames)%nat. rewrite length_app. cbn [app]. f_equal. lia.
Qed.

Lemma decode_all_ends frames tl : Forall (λ x, record_ok x.2) frames →
  decode tl = Ret (Err Truncated) → decode_all (capture_file frames ++ tl) = Ret (Ok (frames.*2, length tl)).
Proof.
  intros Hok Ht. destruct (decode_all_file frames tl Hok) as [fuel ->]. cbn [decode_loop].
  rewrite length_app, drop_app_length, Ht. cbn [mbind run_bind].
  destruct (Nat.ltb_spec (length (capture_file frames)) (length (capture_file frames) + length tl)).
  - do 3 f_equal. lia.
  - assert (length tl = 0%nat) as -> by lia. done.
Qed.

Lemma decode_all_fails frames tl e : Forall (λ x, record_ok x.2) frames → e ≠ Truncated →
  decode tl = Ret (Err e) → decode_all (capture_file frames ++ tl) = Ret (Err e).
Proof.
  intros Hok He Ht. destruct (decode_all_file frames tl Hok) as [fuel ->]. cbn [decode_loop].
  rewrite length_app, drop_app_length, Ht. cbn [mbind run_bind].
  destruct (Nat.ltb_spec (length (capture_file frames)) (length (capture_file frames) + length tl)); [by destruct e|].
  assert (length tl = 0%nat) as Hn by lia. apply nil_length_inv in Hn as ->. injection Ht as <-. done.
Qed.

(** * Reading on

    What a reader makes of a buffer does not depend on how it got there. *)

(** These records at the front of a buffer, and what is left. *)
Inductive reads : list Z → list CaptureRecord → list Z → Prop :=
| reads_nil c : reads c [] c
| reads_cons c r n rs tl : decode c = Ret (Ok (r, n)) → reads (drop n c) rs tl → reads c (r :: rs) tl.

Lemma reads_app c rs tl b : reads c rs tl → reads (c ++ b) rs (tl ++ b).
Proof.
  induction 1 as [c|c r n rs tl H _ IH]; [constructor|]. apply (reads_cons _ r n); [by apply decode_app|].
  pose proof (decode_consumes _ _ _ H). by rewrite drop_app_le by lia.
Qed.
Lemma reads_trans c rs tl rs' tl' : reads c rs tl → reads tl rs' tl' → reads c (rs ++ rs') tl'.
Proof. induction 1; [done|]. intros. cbn [app]. econstructor; eauto. Qed.
Lemma reads_rest c rs tl : reads c rs tl → ∃ front, c = front ++ tl.
Proof.
  induction 1 as [c|c r n rs tl H _ [f IH]]; [by exists []|]. exists (take n c ++ f).
  by rewrite <-(assoc_L (++)), <-IH, take_drop.
Qed.
Lemma reads_unique c rs tl rs' tl' e e' : reads c rs tl → decode tl = Ret (Err e) →
  reads c rs' tl' → decode tl' = Ret (Err e') → rs = rs' ∧ tl = tl'.
Proof.
  intros H. revert rs' tl'. induction H as [c|c r n rs tl H _ IH]; intros rs' tl' He H' He'; inversion H'; subst; try done.
  - congruence.
  - congruence.
  - rewrite H in *. simplify_eq. by edestruct IH as [-> ->].
Qed.
Lemma reads_file frames tl : Forall (λ x, record_ok x.2) frames → reads (capture_file frames ++ tl) frames.*2 tl.
Proof.
  induction 1 as [|[v r] frames Hr _ IH]; [constructor|].
  change (capture_file ((v, r) :: frames)) with (written v r ++ capture_file frames). rewrite <-(assoc_L (++)).
  eapply reads_cons; [by apply decode_written|]. by rewrite drop_app_length.
Qed.

(** Every buffer stops somewhere. *)
Lemma reads_stops c : ∃ rs tl e, reads c rs tl ∧ decode tl = Ret (Err e).
Proof.
  remember (length c) as n eqn:Hn. revert c Hn. induction (lt_wf n) as [n _ IH]. intros c ->.
  destruct (decoding_returns c) as [[[r k]|e] E]; [|exists [], c, e; by split; [constructor|]].
  pose proof (decode_consumes _ _ _ E) as Hk.
  destruct (IH (length (drop k c))) with (c := drop k c) as (rs & tl & e & H & He); [rewrite length_drop; lia|done|].
  exists (r :: rs), tl, e. by split; [econstructor|].
Qed.

Lemma decode_loop_reads fuel : ∀ input offset acc, (length input - offset < fuel)%nat →
  ∃ rs tl e, reads (drop offset input) rs tl ∧ decode tl = Ret (Err e) ∧
    decode_loop fuel input offset acc =
      Ret (match e with Truncated => Ok (acc ++ rs, length tl) | _ => Err e end).
Proof.
  induction fuel as [|fuel IH]; intros input offset acc Hf; [lia|]. cbn [decode_loop].
  destruct (Nat.ltb_spec offset (length input)) as [Hlt|Hge].
  - destruct (decoding_returns (drop offset input)) as [[[r n]|e] E]; rewrite E; cbn [mbind run_bind].
    + pose proof (decode_consumes _ _ _ E) as Hn. rewrite length_drop in Hn.
      destruct (IH input (offset + n)%nat (acc ++ [r])) as (rs & tl & e & H & He & ->); [lia|].
      rewrite <-drop_drop in H. exists (r :: rs), tl, e. split; [by econstructor|]. split; [done|].
      by rewrite <-(assoc_L (++)).
    + exists [], (drop offset input), e. split; [constructor|]. split; [done|]. rewrite app_nil_r, length_drop.
      by destruct e.
  - exists [], [], Truncated. rewrite drop_ge by lia. split; [constructor|]. split; [done|]. by rewrite app_nil_r.
Qed.
(** A whole buffer is read to where it stops. *)
Lemma decode_all_reads input : ∃ rs tl e, reads input rs tl ∧ decode tl = Ret (Err e) ∧
  decode_all input = Ret (match e with Truncated => Ok (rs, length tl) | _ => Err e end).
Proof. unfold decode_all. destruct (decode_loop_reads (S (length input)) input 0 []) as (rs & tl & e & H); [lia|]. eauto. Qed.

(** * Damage *)

(** Written over part of the header and its checksum. *)
Lemma header_damage r j d tl : record_ok r → bytes d → (length d ≤ 4)%nat → (j + length d ≤ 25)%nat →
  patch j d (image r) ≠ image r → patch j d (image r) !! 4%nat ∉ [Some 0; Some 1] →
  ∃ e, decode (patch j d (image r) ++ tl) = Ret (Err e) ∧ (e = HeaderChecksumMismatch ∨ ∃ k, e = UnknownKind k).
Proof.
  intros Hr Hd H4 Hj Hne Hk. set (w := frame_head r ++ le 4 (crc32 (frame_head r))).
  assert (length w = 25%nat) as Hw by (unfold w; rewrite length_app, length_le; unfold frame_head; by rewrite length_covered).
  set (s := le 4 (crc32 (cr_payload r)) ++ cr_payload r).
  assert (image r = w ++ s) as Ei by (unfold image, w, s; by rewrite <-!(assoc_L (++))).
  assert (bytes w) as Hwb by (apply Forall_app_2; [apply frame_head_bytes|apply le_bytes]).
  rewrite Ei, patch_app in Hne, Hk |- * by lia. set (p := patch j d w) in *.
  assert (length p = 25%nat) as Hp by (unfold p; by rewrite length_patch by lia).
  assert (bytes p) as Hpb by by apply patch_bytes.
  assert (crc32 p ≠ crc32 w) as Hc.
  { intros H. apply Hne. f_equal. apply burst_detected; by rewrite ?Hw. }
  rewrite lookup_app_l in Hk by lia. destruct (lookup_lt_is_Some_2 p 4) as [k Ek]; [lia|]. rewrite Ek in Hk.
  rewrite <-(assoc_L (++)). unfold decode, LEN_PREFIX. rewrite length_app, Hp.
  destruct (Nat.ltb_spec (25 + length (s ++ tl)) (4 + 1)) as [|_]; [lia|].
  unfold slice_ix, ix. rewrite (lookup_app_l p) by lia. rewrite Ek. rewrite (slice_app_l 0 4) by lia.
  destruct (slice_some 0 4 p) as [n ->]; [lia|]. cbn [expect mbind run_bind fmap run_fmap].
  unfold from_u8. rewrite !list_elem_of_In in Hk. simpl in Hk.
  destruct (Z.eqb_spec k 0) as [->|]; [tauto|]. destruct (Z.eqb_spec k 1) as [->|]; [tauto|].
  assert (∀ kind, ∃ e, (header_error (p ++ s ++ tl) ≫= λ refused, match refused with
    | Some e => mret (Err e)
    | None => kind refused
    end) = (Ret (Err e) : run (result (CaptureRecord * nat) DecodeError)) ∧ e = HeaderChecksumMismatch) as Hh.
  { intros kind. unfold header_error, LEN_PREFIX, HEADER_LEN_V2. rewrite length_app, Hp. unfold s at 1.
    destruct (Nat.ltb_spec (25 + length ((le 4 (crc32 (cr_payload r)) ++ cr_payload r) ++ tl)) (4 + 25)) as [H|_].
    { rewrite !length_app, length_le in H. lia. }
    unfold slice_ix. rewrite !slice_app_l by lia. rewrite (slice_all' 21 4) by lia.
    destruct (slice_some 0 21 p) as [h Eh]; [lia|]. rewrite Eh. cbn [expect mbind run_bind fmap run_fmap mret run_ret].
    unfold slice in Eh. rewrite (proj2 (Nat.leb_le _ _)) in Eh by lia. rewrite drop_0 in Eh. injection Eh as <-.
    destruct (Z.eqb_spec (crc32 (take 21 p)) (unle (drop 21 p))) as [E|]; cbn [negb]; [|eauto].
    destruct Hc. rewrite <-(take_drop 21 p).
    assert (drop 21 p = le 4 (crc32 (take 21 p))) as ->.
    { rewrite E, le_unle_at; [done|by apply Forall_drop|rewrite length_drop; lia]. }
    unfold w. rewrite !crc_residue; [done|apply frame_head_bytes|by apply Forall_take]. }
  destruct (k =? 2); [edestruct Hh as (e & -> & ->); eauto|].
  destruct (k =? 3); [edestruct Hh as (e & -> & ->); eauto|]. cbn [mret run_ret]. eauto.
Qed.

(** Written over the payload's checksum, or over the payload. *)
Lemma payload_damage r j d tl : record_ok r → bytes d → (length d ≤ 4)%nat → (j + length d ≤ length (image r))%nat →
  (25 ≤ j)%nat ∧ (j + length d ≤ 29)%nat ∨ (29 ≤ j)%nat → patch j d (image r) ≠ image r →
  decode (patch j d (image r) ++ tl) = Ret (Err ChecksumMismatch).
Proof.
  intros Hr Hd H4 Hj Hz Hne. pose proof Hr as [Hl He Hb Hf]. unfold HEADER_LEN_V2, MAX_FRAME_LEN in Hf.
  set (h := frame_head r ++ le 4 (crc32 (frame_head r))).
  assert (length h = 25%nat) as Hh by (unfold h; rewrite length_app, length_le; unfold frame_head; by rewrite length_covered).
  set (c := le 4 (crc32 (cr_payload r))). assert (length c = 4%nat) as Hc by apply length_le.
  assert (image r = h ++ c ++ cr_payload r) as Ei by (unfold image, h; by rewrite <-!(assoc_L (++))).
  rewrite image_length in Hj. unfold encoded_len, LEN_PREFIX, HEADER_LEN_V2 in Hj.
  assert (∃ c' q, patch j d (image r) = h ++ c' ++ q ∧ length c' = 4%nat ∧ length q = length (cr_payload r) ∧
    crc32 q ≠ unle c') as (c' & q & Ep & Hc' & Hq & Hbad).
  { destruct Hz as [[H25 H29]|H29].
    - exists (patch (j - 25) d c), (cr_payload r). rewrite Ei, patch_skip, Hh by lia. rewrite patch_app by lia.
      rewrite length_patch by lia. split_and!; try done. intros E. apply Hne. rewrite Ei, patch_skip, Hh by lia.
      rewrite patch_app by lia. do 2 f_equal. unfold c at 2. rewrite E.
      symmetry. apply le_unle_at; [by apply patch_bytes; [apply le_bytes|]|by rewrite length_patch by lia].
    - exists c, (patch (j - 29) d (cr_payload r)). rewrite Ei, (assoc_L (++)), patch_skip by (rewrite length_app; lia).
      rewrite length_app, Hh, Hc. rewrite <-(assoc_L (++)). rewrite length_patch by lia. split_and!; try done.
      intros E. unfold c in E. rewrite unle_u32 in E by by apply crc_u32. apply Hne.
      rewrite Ei, (assoc_L (++)), patch_skip by (rewrite length_app; lia). rewrite length_app, Hh, Hc.
      apply burst_detected in E; [|done..|lia]. change (25 + 4)%nat with 29%nat. by rewrite E. }
  rewrite Ep. unfold h, frame_head. rewrite <-!(assoc_L (++)), decode_v2; try done.
  2: by apply (frame_len_u32 r 25). 2: apply crc_u32, covered_bytes, kind_u8. 2: rewrite !length_app; lia.
  rewrite Z.eqb_refl. cbn [negb]. unfold body_v2, MAX_FRAME_LEN, HEADER_LEN_V2.
  do 2 rewrite (proj2 (Z.ltb_ge _ _)) by lia. cbn [orb]. rewrite Nat2Z.id.
  rewrite (proj2 (Nat.ltb_ge _ _)) by (rewrite !length_app; lia).
  replace (25 + length (cr_payload r) - 25)%nat with (length q) by lia.
  rewrite (drop_app_length' c' _ 4), (take_app_length' c' _ 4), take_app_length by done.
  by rewrite (proj2 (Z.eqb_neq _ _)).
Qed.

(** A tear is not damage, and damage is not a tear.  A file of whole frames of
    either version whose last write was cut short reads as the whole frames,
    and as many bytes of a tear as there are.  Up to four consecutive bytes
    overwritten within the header and its checksum, within the payload's
    checksum or within the payload stop the reader with an error, however
    many frames stand before and whatever follows: not one frame after the
    damage is passed over in silence.  The damage must leave the kind byte
    saying version 2: see [a_cleared_version_bit_hides_the_rest]. *)
Theorem damage_is_never_taken_for_a_tear (frames : list (bool * CaptureRecord)) r (j : nat) d tl
    (Hfs : Forall (λ x, record_ok x.2) frames) (Hr : record_ok r) :
  ((j < length (image r))%nat →
    decode_all (capture_file frames ++ take j (image r)) = Ret (Ok (frames.*2, j))) ∧
  (bytes d → (length d ≤ 4)%nat → (j + length d ≤ length (image r))%nat → patch j d (image r) ≠ image r →
    (j + length d ≤ 25)%nat ∧ patch j d (image r) !! 4%nat ∉ [Some 0; Some 1] ∨
      (25 ≤ j)%nat ∧ (j + length d ≤ 29)%nat ∨ (29 ≤ j)%nat →
    ∃ e, decode_all (capture_file frames ++ patch j d (image r) ++ tl) = Ret (Err e)).
Proof.
  split.
  - intros Hj. rewrite (decode_all_ends frames) by (done || by apply decode_cut).
    do 3 f_equal. rewrite length_take. lia.
  - intros Hd H4 Hl Hne [[Hj Hk]|Hz].
    + destruct (header_damage r j d tl) as (e & E & He); try done. exists e. apply decode_all_fails; try done.
      by destruct He as [->|[k ->]].
    + exists ChecksumMismatch. apply decode_all_fails; try done. by apply payload_damage.
Qed.

Module DemoCapture.
Definition first : CaptureRecord := payload 1000 900 [123; 125].
Definition gap : CaptureRecord := control 1500 [10].
Definition second : CaptureRecord := payload 2000 1900 [1; 2; 3].
End DemoCapture.
Import DemoCapture.

Lemma damage_is_never_taken_for_a_tear_witness :
  decode_all (capture_file [(false, first); (true, gap)] ++ take 12 (image second)) = Ret (Ok ([first; gap], 12%nat)) ∧
  ∃ e, decode_all (capture_file [(true, first)] ++ patch 3 [7] (image second) ++ image gap) = Ret (Err e).
Proof.
  assert (Forall (λ x, record_ok x.2) [(false, first); (true, gap)]) as H1
    by (apply (bool_decide_unpack _); vm_compute; exact I).
  assert (Forall (λ x, record_ok x.2) [(true, first)]) as H2 by (apply (bool_decide_unpack _); vm_compute; exact I).
  assert (record_ok second) as H3 by (apply (bool_decide_unpack _); vm_compute; exact I). split.
  - apply (damage_is_never_taken_for_a_tear [(false, first); (true, gap)] second 12 [] [] H1 H3).
    rewrite image_length. unfold encoded_len, LEN_PREFIX, HEADER_LEN_V2. simpl. lia.
  - apply (damage_is_never_taken_for_a_tear [(true, first)] second 3 [7] (image gap) H2 H3).
    + repeat constructor; mlia.
    + simpl. lia.
    + rewrite image_length. unfold encoded_len, LEN_PREFIX, HEADER_LEN_V2. simpl. lia.
    + vm_compute. discriminate.
    + left. split; [simpl; lia|]. apply (bool_decide_unpack _); vm_compute; exact I.
Defined.

(** Two neighbouring bytes, the last of the length and the kind, damaged so
    that the frame passes for a version 1 frame still being written: the
    reader drops it and every frame after it as a torn tail. *)
Example a_cleared_version_bit_hides_the_rest :
  decode_all (patch 3 [1; 0] (image first) ++ image gap ++ image second) = Ret (Ok ([], 93%nat)).
Proof. by vm_compute. Qed.
