(* ===== verification/UtcDay.v ===== *)
(** Days, hours and the files that hold them ([oq-l2feed/src/day.rs] and
    [stream.rs]): which stretch of time a record belongs to, the calendar date
    of a day, and the path of a file. *)

From stdpp Require Import strings.
From S2P Require Import Prelude Text Decimal.
#[local] Open Scope Z_scope.

Implicit Types (s a b : text).

Definition NS_PER_DAY : Z := 86400000000000.
Definition NS_PER_HOUR : Z := 3600000000000.

Module UtcDay.
Definition from_nanos (ts : Z) : Z := div_euclid ts NS_PER_DAY.
Definition start_nanos (day : Z) : Z := sat64 (day * NS_PER_DAY).

(** The date of a day counted from 0000-03-01, by the eras of 400 years.  No
    operator here can leave 64 bits. *)
Definition civil (z : Z) : Z * Z * Z :=
  let era := div_euclid z 146097 in
  let doe := rem_euclid z 146097 in
  let yoe := (doe - doe / 1460 + doe / 36524 - doe / 146096) / 365 in
  let y := yoe + era * 400 in
  let doy := doe - (365 * yoe + yoe / 4 - yoe / 100) in
  let mp := (5 * doy + 2) / 153 in
  let d := doy - (153 * mp + 2) / 5 + 1 in
  let m := if mp <? 10 then mp + 3 else mp - 9 in
  ((if m <=? 2 then y + 1 else y), m, d).
Definition to_ymd (day : Z) : run (Z * Z * Z) := z ← chk64 (day + 719468); mret (civil z).

(** [{y:04}-{m:02}-{d:02}]. *)
Definition display (day : Z) : run text :=
  '(y, m, d) ← to_ymd day;
  mret (zero_padded 4 y ++ [45] ++ zero_padded 2 m ++ [45] ++ zero_padded 2 d).
End UtcDay.

Inductive Rotation := Daily | Hourly.
Definition parse_rotation (s : text) : option Rotation :=
  if bool_decide (s = text_of "daily") || bool_decide (s = text_of "day") then Some Daily
  else if bool_decide (s = text_of "hourly") || bool_decide (s = text_of "hour") then Some Hourly
  else None.

Record Window := mkWindow { w_day : Z; w_hour : option Z }.
#[export] Instance Window_eq_dec : EqDecision Window.
Proof. solve_decision. Defined.

Module Window.
Definition from_nanos (ts : Z) (rotation : Rotation) : run Window :=
  let day := UtcDay.from_nanos ts in
  match rotation with
  | Daily => mret (mkWindow day None)
  | Hourly =>
      into_day ← chk64 (ts - UtcDay.start_nanos day);
      let hour := Z.quot into_day NS_PER_HOUR in
      mret (mkWindow day (Some (if decide (u32 hour) then hour else 0)))
  end.

Definition start_nanos (w : Window) : run Z :=
  hours ← chk64 (default 0 (w_hour w) * NS_PER_HOUR);
  chk64 (UtcDay.start_nanos (w_day w) + hours).

(** The derived order: by day, then by hour, none before any. *)
Definition lt (a b : Window) : bool :=
  if w_day a =? w_day b then
    match w_hour a, w_hour b with
    | None, Some _ => true
    | Some x, Some y => x <? y
    | _, None => false
    end
  else w_day a <? w_day b.

Definition relative_path (w : Window) (extension : text) : run text :=
  day ← UtcDay.display (w_day w);
  mret (match w_hour w with
  | None => day ++ [46] ++ extension
  | Some h => path_join day (zero_padded 2 h ++ [46] ++ extension)
  end).

Definition display (w : Window) : run text :=
  day ← UtcDay.display (w_day w);
  mret (match w_hour w with None => day | Some h => day ++ [84] ++ zero_padded 2 h end).
End Window.

(** * The stream a file belongs to *)

Record StreamId := mkStream { st_venue : text; st_symbol : text; st_stream : text }.

Module StreamId.
Definition directory (id : StreamId) (root : text) : text :=
  path_join (path_join (path_join root (st_venue id)) (st_symbol id)) (st_stream id).
Definition file_for (id : StreamId) (root : text) (w : Window) : run text :=
  rel ← Window.relative_path w (text_of "oqcap"); mret (path_join (directory id root) rel).
Definition manifest_for (id : StreamId) (root : text) (w : Window) : run text :=
  rel ← Window.relative_path w (text_of "manifest.json"); mret (path_join (directory id root) rel).
End StreamId.

(** * The calendar *)

Definition is_leap (y : Z) : bool := (y mod 4 =? 0) && (negb (y mod 100 =? 0) || (y mod 400 =? 0)).
Definition days_in_month (y m : Z) : Z :=
  if m =? 2 then if is_leap y then 29 else 28
  else if bool_decide (m ∈ [4; 6; 9; 11]) then 30 else 31.
Definition next_date (date : Z * Z * Z) : Z * Z * Z :=
  let '(y, m, d) := date in
  if d <? days_in_month y m then (y, m, d + 1) else if m <? 12 then (y, m + 1, 1) else (y + 1, 1, 1).

(** A day of an era of 400 years that start in March: its year and the day
    of that year.  The leap day is the last. *)
Definition year_of (doe : Z) : Z := (doe - doe / 1460 + doe / 36524 - doe / 146096) / 365.
Definition day_of (doe : Z) : Z := doe - (365 * year_of doe + year_of doe / 4 - year_of doe / 100).
Definition long (yoe : Z) : bool := is_leap (yoe + 1).

Lemma year_of_bounds doe : 0 ≤ doe < 146097 → 0 ≤ year_of doe < 400.
Proof. intros H. unfold year_of. Z.to_euclidean_division_equations; lia. Qed.
Lemma day_of_bounds doe : 0 ≤ doe < 146097 → 0 ≤ day_of doe ≤ 365.
Proof. intros H. unfold day_of, year_of. Z.to_euclidean_division_equations; lia. Qed.
Lemma day_of_365 doe : 0 ≤ doe < 146097 → day_of doe = 365 → long (year_of doe) = true.
Proof.
  intros H Hd. pose proof (year_of_bounds doe H). unfold long, is_leap. unfold day_of in Hd.
  revert Hd. unfold year_of. intros Hd. 
  destruct ((_ + 1) mod 4 =? 0) eqn:E1, ((_ + 1) mod 100 =? 0) eqn:E2, ((_ + 1) mod 400 =? 0) eqn:E3; try done; exfalso.
  all: rewrite ?Z.eqb_eq, ?Z.eqb_neq in *; Z.to_euclidean_division_equations; lia.
Qed.

(** The days before a year of the era. *)
Definition before_year (y : Z) : Z := 365 * y + y / 4 - y / 100.
Lemma before_year_step y : 0 ≤ y < 399 → before_year (y + 1) = before_year y + 365 + Z.b2z (long y).
Proof.
  intros H. unfold before_year, long, is_leap.
  destruct ((y + 1) mod 4 =? 0) eqn:E1, ((y + 1) mod 100 =? 0) eqn:E2, ((y + 1) mod 400 =? 0) eqn:E3; simpl Z.b2z.
  all: rewrite ?Z.eqb_eq, ?Z.eqb_neq in *; Z.to_euclidean_division_equations; lia.
Qed.
Lemma before_year_mono y y' : y < y' → before_year y + 365 ≤ before_year y'.
Proof. intros H. unfold before_year. Z.to_euclidean_division_equations; lia. Qed.

(** The day after, within the era. *)
Lemma next_in_era doe : 0 ≤ doe < 146096 →
  year_of (doe + 1) = year_of doe ∧ day_of (doe + 1) = day_of doe + 1 ∧ day_of doe < 364 + Z.b2z (long (year_of doe)) ∨
  year_of (doe + 1) = year_of doe + 1 ∧ day_of (doe + 1) = 0 ∧ day_of doe = 364 + Z.b2z (long (year_of doe)).
Proof.
  intros H. pose proof (year_of_bounds doe) as Y. pose proof (year_of_bounds (doe + 1)) as Y'.
  pose proof (day_of_bounds doe) as D. pose proof (day_of_bounds (doe + 1)) as D'.
  pose proof (day_of_365 doe) as L. pose proof (day_of_365 (doe + 1)) as L'.
  assert (doe = before_year (year_of doe) + day_of doe) as E by (unfold day_of, before_year; lia).
  assert (doe + 1 = before_year (year_of (doe + 1)) + day_of (doe + 1)) as E' by (unfold day_of, before_year; lia).
  set (y := year_of doe) in *. set (y' := year_of (doe + 1)) in *. set (d := day_of doe) in *. set (d' := day_of (doe + 1)) in *.
  clearbody y y' d d'. destruct (Z.lt_trichotomy y' y) as [Hlt|[->|Hgt]].
  - pose proof (before_year_mono y' y Hlt). lia.
  - left. assert (d' = d + 1) as -> by lia. split_and!; try done.
    destruct (long y) eqn:El; simpl; [lia|]. destruct (Z.eq_dec (d + 1) 365) as [E5|]; [|lia].
    discriminate L'; lia.
  - right. destruct (Z.eq_dec y' (y + 1)) as [->|].
    + rewrite before_year_step in E' by lia. destruct (long y) eqn:El; simpl in *; [lia|].
      destruct (Z.eq_dec d 365) as [E5|]; [|lia]. discriminate L; lia.
    + pose proof (before_year_mono (y + 1) y'). pose proof (before_year_step y). destruct (long y); simpl in *; lia.
Qed.

(** The month and the day of a day of a year that starts in March. *)
Definition month_day (doy : Z) : Z * Z :=
  let mp := (5 * doy + 2) / 153 in
  (if mp <? 10 then mp + 3 else mp - 9, doy - (153 * mp + 2) / 5 + 1).
Definition date_of (y doy : Z) : Z * Z * Z :=
  let '(m, d) := month_day doy in ((if m <=? 2 then y + 1 else y), m, d).

(** A year, whether it ends in a leap day or not, day by day. *)
Definition month_length (leap : bool) (m : Z) : Z :=
  if m =? 2 then if leap then 29 else 28 else if bool_decide (m ∈ [4; 6; 9; 11]) then 30 else 31.
Definition follows (leap : bool) (doy : Z) : bool :=
  let '(m, d) := month_day doy in
  if doy =? 364 + Z.b2z leap then (m =? 2) && (d =? month_length leap 2)
  else if 364 + Z.b2z leap <? doy then true
  else
    let '(m', d') := month_day (doy + 1) in
    if d <? month_length leap m then (m' =? m) && (d' =? d + 1)
    else (m' =? (if m <? 12 then m + 1 else 1)) && (d' =? 1) && negb (m =? 2).
Lemma months_follow leap doy : 0 ≤ doy ≤ 365 → follows leap doy = true.
Proof.
  intros H. assert (forallb (λ n, follows true (Z.of_nat n) && follows false (Z.of_nat n)) (seq 0 366) = true) as Hall
    by by vm_compute.
  rewrite forallb_forall in Hall. specialize (Hall (Z.to_nat doy)). rewrite Z2Nat.id in Hall by lia.
  destruct leap; apply andb_true_iff in Hall as [? ?]; try done; apply in_seq; lia.
Qed.
Lemma month_day_range doy : 0 ≤ doy ≤ 365 → 1 ≤ (month_day doy).1 ≤ 12 ∧ 1 ≤ (month_day doy).2 ≤ 31.
Proof.
  intros H. unfold month_day. cbn [fst snd]. destruct (Z.ltb_spec ((5 * doy + 2) / 153) 10);
    Z.to_euclidean_division_equations; lia.
Qed.

Lemma next_in_year y doy : 0 ≤ doy ≤ 364 + Z.b2z (is_leap (y + 1)) →
  next_date (date_of y doy) =
    if doy =? 364 + Z.b2z (is_leap (y + 1)) then (y + 1, 3, 1) else date_of y (doy + 1).
Proof.
  intros H. assert (0 ≤ doy ≤ 365) as H' by (destruct (is_leap (y + 1)); simpl in H; lia).
  pose proof (months_follow (is_leap (y + 1)) doy H') as F. pose proof (month_day_range doy H') as R.
  unfold date_of, follows in *. destruct (month_day doy) as [m d]. cbn [fst snd] in R.
  assert (days_in_month (if m <=? 2 then y + 1 else y) m = month_length (is_leap (y + 1)) m) as E.
  { unfold days_in_month, month_length. by destruct (Z.eqb_spec m 2) as [->|]. }
  unfold next_date. rewrite E. destruct (doy =? _) eqn:Ed.
  - apply andb_true_iff in F as [->%Z.eqb_eq ->%Z.eqb_eq]. by rewrite Z.ltb_irrefl.
  - apply Z.eqb_neq in Ed. rewrite (proj2 (Z.ltb_ge _ _)) in F by lia. destruct (month_day (doy + 1)) as [m' d'].
    destruct (d <? _).
    + by apply andb_true_iff in F as [->%Z.eqb_eq ->%Z.eqb_eq].
    + rewrite !andb_true_iff in F. destruct F as [[->%Z.eqb_eq ->%Z.eqb_eq] Hm].
      destruct (Z.ltb_spec m 12).
      * destruct (Z.leb_spec m 2), (Z.leb_spec (m + 1) 2); try done; try lia.
      * assert (m = 12) as -> by lia. done.
Qed.

Lemma civil_date z : UtcDay.civil z =
  date_of (year_of (z mod 146097) + z / 146097 * 400) (day_of (z mod 146097)).
Proof.
  unfold UtcDay.civil, date_of, month_day, day_of, year_of. by rewrite div_euclid_pos, rem_euclid_pos by lia.
Qed.
Lemma leap_era y era : is_leap (y + era * 400 + 1) = long y.
Proof.
  unfold long, is_leap. replace (y + era * 400 + 1) with (y + 1 + era * 400) by lia.
  rewrite (Z.mod_add (y + 1) era 400) by lia.
  replace (y + 1 + era * 400) with (y + 1 + (era * 100) * 4) at 1 by lia. rewrite (Z.mod_add (y + 1) (era * 100) 4) by lia.
  replace (y + 1 + era * 400) with (y + 1 + (era * 4) * 100) by lia. by rewrite (Z.mod_add (y + 1) (era * 4) 100) by lia.
Qed.

Lemma civil_next z : UtcDay.civil (z + 1) = next_date (UtcDay.civil z).
Proof.
  rewrite !civil_date. pose proof (Z.mod_pos_bound z 146097 ltac:(lia)) as B.
  pose proof (day_of_bounds (z mod 146097) B) as D. pose proof (day_of_365 _ B) as L.
  assert (day_of (z mod 146097) ≤ 364 + Z.b2z (long (year_of (z mod 146097)))) as Hd.
  { destruct (long _) eqn:El; simpl; [lia|]. destruct (Z.eq_dec (day_of (z mod 146097)) 365) as [E|]; [|lia]. discriminate L; lia. }
  rewrite next_in_year by (rewrite leap_era; lia). rewrite leap_era.
  destruct (Z.eq_dec (z mod 146097) 146096) as [E|].
  - assert ((z + 1) mod 146097 = 0 ∧ (z + 1) / 146097 = z / 146097 + 1) as [-> ->]
      by (split; Z.to_euclidean_division_equations; lia).
    rewrite E. change (day_of 146096 =? 364 + Z.b2z (long (year_of 146096))) with true. cbv iota.
    change (year_of 146096) with 399. change (year_of 0) with 0. change (day_of 0) with 0. unfold date_of.
    change (month_day 0) with (3, 1). cbv iota beta. change (3 <=? 2) with false. cbv iota. do 2 f_equal. lia.
  - assert ((z + 1) mod 146097 = z mod 146097 + 1 ∧ (z + 1) / 146097 = z / 146097) as [-> ->]
      by (split; Z.to_euclidean_division_equations; lia).
    destruct (next_in_era (z mod 146097)) as [(-> & -> & Hl)|(-> & -> & ->)]; [lia| |].
    + by rewrite (proj2 (Z.eqb_neq _ _)) by lia.
    + rewrite Z.eqb_refl. unfold date_of. change (month_day 0) with (3, 1). cbv iota beta. change (3 <=? 2) with false.
      cbv iota. do 2 f_equal. lia.
Qed.

(** The dates follow the calendar: from the first day of 1970 on and back,
    the date of the day after is the date after, months of 28 to 31 days,
    a leap day every fourth year but the centuries not divisible by 400. *)
Theorem dates_follow_the_calendar (day : Z) (Hlo : I64_MIN ≤ day + 719468) (Hhi : day + 1 + 719468 ≤ I64_MAX) :
  UtcDay.to_ymd 0 = Ret (1970, 1, 1) ∧
  ∃ date, UtcDay.to_ymd day = Ret date ∧ UtcDay.to_ymd (day + 1) = Ret (next_date date).
Proof.
  split; [done|]. exists (UtcDay.civil (day + 719468)). unfold UtcDay.to_ymd. rewrite !chk_ret by mlia.
  cbn [mbind run_bind mret run_ret]. split; [done|]. rewrite <-civil_next. do 2 f_equal. lia.
Qed.
Lemma dates_follow_the_calendar_witness :
  ∃ date, UtcDay.to_ymd 11016 = Ret date ∧ UtcDay.to_ymd 11017 = Ret (next_date date).
Proof. apply (dates_follow_the_calendar 11016); lia. Defined.
Example the_leap_day_of_2000 : UtcDay.display 11016 = Ret (text_of "2000-02-29").
Proof. by vm_compute. Qed.

(** * A date names one day *)

Definition days_from_civil (date : Z * Z * Z) : Z :=
  let '(y, m, d) := date in
  let y := if m <=? 2 then y - 1 else y in
  let mp := if m <=? 2 then m + 9 else m - 3 in
  y / 400 * 146097 + before_year (y mod 400) + (153 * mp + 2) / 5 + d - 1.

Lemma civil_inverse z : days_from_civil (UtcDay.civil z) = z.
Proof.
  rewrite civil_date. pose proof (Z.mod_pos_bound z 146097 ltac:(lia)) as B.
  pose proof (day_of_bounds (z mod 146097) B) as D. pose proof (year_of_bounds (z mod 146097) B) as Y.
  assert (before_year (year_of (z mod 146097)) = z mod 146097 - day_of (z mod 146097)) as E
    by (unfold day_of, before_year; lia).
  pose proof (Z.div_mod z 146097 ltac:(lia)) as Ez. set (e := z / 146097) in *. set (doe := z mod 146097) in *.
  set (y := year_of doe) in *. set (doy := day_of doe) in *. clearbody e doe y doy.
  unfold date_of, month_day. pose proof (month_day_range doy D) as [M _]. unfold month_day in M. cbn [fst] in M.
  set (mp := (5 * doy + 2) / 153) in *. assert (0 ≤ mp ≤ 11) as Hmp by (unfold mp; Z.to_euclidean_division_equations; lia).
  unfold days_from_civil.
  assert ((y + e * 400) / 400 = e ∧ (y + e * 400) mod 400 = y) as [H1 H2]
    by (rewrite Z.div_add, Z.mod_add, Z.div_small, Z.mod_small by lia; lia).
  destruct (Z.ltb_spec mp 10).
  - rewrite (proj2 (Z.leb_gt _ _)) by lia. replace (mp + 3 - 3) with mp by lia. rewrite H1, H2, E. lia.
  - rewrite (proj2 (Z.leb_le _ _)) by lia. replace (mp - 9 + 9) with mp by lia.
    replace (y + e * 400 + 1 - 1) with (y + e * 400) by lia. rewrite H1, H2, E. lia.
Qed.

Lemma civil_ranges z : 719468 - 106752 ≤ z ≤ 719468 + 106752 →
  let '(y, m, d) := UtcDay.civil z in 0 ≤ y < 10000 ∧ 1 ≤ m ≤ 12 ∧ 1 ≤ d ≤ 31.
Proof.
  intros Hz. rewrite civil_date. pose proof (Z.mod_pos_bound z 146097 ltac:(lia)) as B.
  pose proof (day_of_bounds (z mod 146097) B) as D. pose proof (year_of_bounds (z mod 146097) B) as Y.
  pose proof (month_day_range _ D) as R. unfold date_of. destruct (month_day _) as [m d]. cbn [fst snd] in R.
  assert (4 ≤ z / 146097 ≤ 5) by (Z.to_euclidean_division_equations; lia). destruct (m <=? 2); lia.
Qed.

(** * Windows *)

(** A time whose day starts within 64 bits. *)
Definition dated (ts : Z) : Prop := -106751 * NS_PER_DAY ≤ ts ≤ I64_MAX.
#[export] Instance dated_dec ts : Decision (dated ts).
Proof. unfold dated; apply _. Defined.
Definition period (rotation : Rotation) : Z := match rotation with Daily => NS_PER_DAY | Hourly => NS_PER_HOUR end.
Definition window (ts : Z) (rotation : Rotation) : Window :=
  mkWindow (ts / NS_PER_DAY) (match rotation with Daily => None | Hourly => Some (ts mod NS_PER_DAY / NS_PER_HOUR) end).

Lemma dated_day ts : dated ts → -106751 ≤ ts / NS_PER_DAY ≤ 106751 ∧ i64 (ts / NS_PER_DAY * NS_PER_DAY).
Proof. unfold dated, NS_PER_DAY, i64. intros H. Z.to_euclidean_division_equations; lia. Qed.

Lemma window_spec ts rotation : dated ts → Window.from_nanos ts rotation = Ret (window ts rotation).
Proof.
  intros H. destruct (dated_day ts H) as [_ Hs]. unfold Window.from_nanos, window, UtcDay.from_nanos, UtcDay.start_nanos.
  rewrite div_euclid_pos by done. destruct rotation; [done|]. rewrite sat64_id by done.
  unfold dated, NS_PER_DAY, NS_PER_HOUR, i64 in *.
  rewrite chk_ret by (unfold i64; Z.to_euclidean_division_equations; lia). cbn [mbind run_bind].
  replace (ts - ts / 86400000000000 * 86400000000000) with (ts mod 86400000000000) by (rewrite Z.mod_eq; lia).
  rewrite Z.quot_div_nonneg by (try apply Z.mod_pos_bound; lia).
  rewrite decide_True by (unfold u32; Z.to_euclidean_division_equations; lia). done.
Qed.

Lemma window_start ts rotation : dated ts →
  ∃ start, Window.start_nanos (window ts rotation) = Ret start ∧ start ≤ ts < start + period rotation.
Proof.
  intros H. destruct (dated_day ts H) as [_ Hs]. unfold Window.start_nanos, window, UtcDay.start_nanos. cbn [w_day w_hour].
  rewrite sat64_id by done. unfold dated, NS_PER_DAY, NS_PER_HOUR, period, i64 in *.
  destruct rotation; cbn [from_option id]; unfold id; rewrite chk_ret, bind_Ret, chk_ret by (unfold i64; Z.to_euclidean_division_equations; lia);
    (eexists; split; [done|]; unfold NS_PER_HOUR, NS_PER_DAY; Z.to_euclidean_division_equations; lia).
Qed.

Lemma window_lt ts ts' rotation :
  Window.lt (window ts rotation) (window ts' rotation) = true ↔ ts < ts' ∧ window ts rotation ≠ window ts' rotation.
Proof.
  unfold Window.lt, window, NS_PER_DAY, NS_PER_HOUR. cbn [w_day w_hour].
  destruct (Z.eqb_spec (ts / 86400000000000) (ts' / 86400000000000)) as [E|E].
  - rewrite E. destruct rotation; [naive_solver|]. rewrite Z.ltb_lt. split.
    + intros H. split; [Z.to_euclidean_division_equations; lia|]. intros [= E']. lia.
    + intros [H Hne]. assert (ts mod 86400000000000 / 3600000000000 ≠ ts' mod 86400000000000 / 3600000000000)
        by (intros E'; apply Hne; by rewrite E'). Z.to_euclidean_division_equations; lia.
  - rewrite Z.ltb_lt. split.
    + intros H. split; [Z.to_euclidean_division_equations; lia|]. intros [= E' _]. lia.
    + intros [H _]. Z.to_euclidean_division_equations; lia.
Qed.

(** * A path names one window *)

Definition date_text (date : Z * Z * Z) : text :=
  let '(y, m, d) := date in zero_padded 4 y ++ [45] ++ zero_padded 2 m ++ [45] ++ zero_padded 2 d.

Lemma zero_padded_spec n z : 0 ≤ z < 10 ^ Z.of_nat n → (0 < n)%nat →
  length (zero_padded n z) = n ∧ forallb is_digit (zero_padded n z) = true ∧ digits_value (zero_padded n z) = z.
Proof. intros Hz Hn. unfold zero_padded. rewrite (proj2 (Z.ltb_ge _ _)) by lia. by apply padded_spec. Qed.
Lemma zero_padded_inj n z z' : 0 ≤ z < 10 ^ Z.of_nat n → 0 ≤ z' < 10 ^ Z.of_nat n → (0 < n)%nat →
  zero_padded n z = zero_padded n z' → z = z'.
Proof.
  intros Hz Hz' Hn E. destruct (zero_padded_spec n z Hz Hn) as (_ & _ & <-).
  destruct (zero_padded_spec n z' Hz' Hn) as (_ & _ & <-). by rewrite E.
Qed.

Lemma day_text ts : dated ts →
  ∃ t, UtcDay.display (ts / NS_PER_DAY) = Ret t ∧ length t = 10%nat ∧ (∃ c r, t = c :: r ∧ is_digit c = true) ∧
    ∀ ts' t', dated ts' → UtcDay.display (ts' / NS_PER_DAY) = Ret t' → t = t' → ts / NS_PER_DAY = ts' / NS_PER_DAY.
Proof.
  assert (∀ ts, dated ts → UtcDay.display (ts / NS_PER_DAY) = Ret (date_text (UtcDay.civil (ts / NS_PER_DAY + 719468)))) as Hd.
  { intros x Hx. destruct (dated_day x Hx) as [Hr _]. unfold UtcDay.display, UtcDay.to_ymd. rewrite chk_ret by mlia.
    cbn [mbind run_bind mret run_ret]. by destruct (UtcDay.civil _) as [[y m] d]. }
  intros H. exists (date_text (UtcDay.civil (ts / NS_PER_DAY + 719468))). split; [by apply Hd|].
  destruct (dated_day ts H) as [Hr _].
  pose proof (civil_ranges (ts / NS_PER_DAY + 719468) ltac:(lia)) as R.
  pose proof (civil_inverse (ts / NS_PER_DAY + 719468)) as I.
  destruct (UtcDay.civil (ts / NS_PER_DAY + 719468)) as [[y m] d]. destruct R as (Hy & Hm & Hday).
  destruct (zero_padded_spec 4 y) as (Ly & Dy & Vy); [simpl; lia|lia|].
  destruct (zero_padded_spec 2 m) as (Lm & Dm & Vm); [simpl; lia|lia|].
  destruct (zero_padded_spec 2 d) as (Ld & Dd & Vd); [simpl; lia|lia|]. unfold date_text at 1 2.
  split; [rewrite !length_app, Ly, Lm, Ld; done|]. split.
  { destruct (zero_padded 4 y) as [|c r] eqn:Ec; [done|]. exists c. eexists. split; [done|].
    simpl in Dy. by apply andb_true_iff in Dy as [? _]. }
  intros ts' t' H' Et. rewrite Hd in Et by done.
  assert (t' = date_text (UtcDay.civil (ts' / NS_PER_DAY + 719468))) as -> by congruence. clear Et. destruct (dated_day ts' H') as [Hr' _].
  pose proof (civil_ranges (ts' / NS_PER_DAY + 719468) ltac:(lia)) as R'.
  pose proof (civil_inverse (ts' / NS_PER_DAY + 719468)) as I'.
  destruct (UtcDay.civil (ts' / NS_PER_DAY + 719468)) as [[y' m'] d']. destruct R' as (Hy' & Hm' & Hday').
  destruct (zero_padded_spec 4 y') as (Ly' & _ & Vy'); [simpl; lia|lia|].
  destruct (zero_padded_spec 2 m') as (Lm' & _ & Vm'); [simpl; lia|lia|].
  unfold date_text. intros E. apply app_inj_1 in E as [E1 E]; [|lia]. apply app_inj_1 in E as [_ E]; [|done].
  apply app_inj_1 in E as [E2 E]; [|lia]. apply app_inj_1 in E as [_ E]; [|done].
  apply zero_padded_inj in E1; [|simpl; lia..|lia]. apply zero_padded_inj in E2; [|simpl; lia..|lia].
  apply zero_padded_inj in E; [|simpl; lia..|lia]. subst. lia.
Qed.

Lemma path_join_relative a : ∃ pre, ∀ b, starts_with b [47] = false → path_join a b = pre ++ b.
Proof.
  unfold path_join. destruct (bool_decide (a = []) || ends_with a [47]).
  - exists a. by intros b ->.
  - exists (a ++ [47]). intros b ->. by rewrite <-(assoc_L (++)).
Qed.
Lemma digit_relative c r : is_digit c = true → starts_with (c :: r) [47] = false.
Proof. unfold is_digit, starts_with. intros H. apply bool_decide_eq_false. intros [= ->]. done. Qed.
Lemma relative_app a c r b : a = c :: r → is_digit c = true → starts_with (a ++ b) [47] = false.
Proof. intros -> H. by apply digit_relative. Qed.

Definition hour_text (h : Z) (extension : text) : text := zero_padded 2 h ++ [46] ++ extension.
Lemma hour_bounds ts : 0 ≤ ts mod NS_PER_DAY / NS_PER_HOUR < 24.
Proof. unfold NS_PER_DAY, NS_PER_HOUR. Z.to_euclidean_division_equations; lia. Qed.
Lemma hour_relative h extension : 0 ≤ h < 24 → starts_with (hour_text h extension) [47] = false.
Proof.
  intros Hh. destruct (zero_padded_spec 2 h) as (L & D & _); [simpl; lia|lia|].
  unfold hour_text. destruct (zero_padded 2 h) as [|c r]; [done|]. apply (relative_app _ c r); [done|].
  simpl in D. by apply andb_true_iff in D as [? _].
Qed.

Lemma relative_spec ts rotation extension : dated ts →
  ∃ rel, Window.relative_path (window ts rotation) extension = Ret rel ∧ starts_with rel [47] = false ∧
    (∃ pre, rel = pre ++ extension) ∧
    ∀ ts' rel', dated ts' → Window.relative_path (window ts' rotation) extension = Ret rel' → rel = rel' →
      window ts rotation = window ts' rotation.
Proof.
  intros H. destruct (day_text ts H) as (t & Et & Lt & (c & r & Ec & Hc) & Ht).
  unfold Window.relative_path, window. cbn [w_day w_hour]. rewrite Et. cbn [mbind run_bind].
  pose proof (hour_bounds ts) as Hh. destruct rotation; eexists; (split; [done|]).
  - split; [by eapply relative_app|]. split; [exists (t ++ [46]); by rewrite <-(assoc_L (++))|].
    intros ts' rel' H' E' E. destruct (day_text ts' H') as (t' & Et' & Lt' & _). rewrite Et' in E'.
    injection E' as <-. apply app_inj_1 in E as [E _]; [|lia]. by rewrite (Ht ts' t').
  - destruct (path_join_relative t) as [pre Hpre].
    assert (pre = t ∨ pre = t ++ [47]) as Hp.
    { pose proof (hour_relative 0 extension ltac:(lia)) as Hx. specialize (Hpre _ Hx). unfold path_join in Hpre.
      rewrite Hx in Hpre. destruct (_ || _); [left|right; rewrite (assoc_L (++)) in Hpre]; by apply app_inv_tail in Hpre. }
    set (h := ts mod NS_PER_DAY / NS_PER_HOUR) in *. pose proof (hour_relative h extension Hh) as Hr.
    fold (hour_text h extension). rewrite Hpre by done. split.
    { destruct Hp as [->| ->]; rewrite <-?(assoc_L (++)); by eapply relative_app. }
    split; [exists (pre ++ zero_padded 2 h ++ [46]); unfold hour_text; by rewrite <-!(assoc_L (++))|].
    intros ts' rel' H' E' E. destruct (day_text ts' H') as (t' & Et' & Lt' & _). rewrite Et' in E'.
    set (h' := ts' mod NS_PER_DAY / NS_PER_HOUR) in *. pose proof (hour_bounds ts') as Hh'. fold h' in Hh'.
    pose proof (hour_relative h' extension Hh') as Hr'. cbn [mbind run_bind mret run_ret] in E'.
    fold (hour_text h' extension) in E'. unfold path_join in E'. rewrite Hr' in E'.
    assert (∃ pre', rel' = pre' ++ hour_text h' extension ∧ (pre' = t' ∨ pre' = t' ++ [47])) as (pre' & -> & Hp').
    { injection E' as <-. destruct (_ || _); [exists t'; auto|exists (t' ++ [47]); rewrite <-(assoc_L (++)); auto]. }
    assert (t = t') as Ett.
    { destruct Hp as [->| ->], Hp' as [->| ->]; rewrite <-?(assoc_L (++)) in E; apply app_inj_1 in E as [E _]; done || lia. }
    rewrite <-(Ht ts' t') by done. do 2 f_equal. rewrite (Ht ts' t') in * by done.
    assert (pre = pre') as Epre.
    { destruct (zero_padded_spec 2 h) as (L & D & _); [simpl; lia|lia|].
      destruct (zero_padded_spec 2 h') as (L' & D' & _); [simpl; lia|lia|].
      apply (f_equal length) in E. unfold hour_text in E. rewrite !length_app, L, L' in E.
      destruct Hp as [->| ->], Hp' as [->| ->]; rewrite ?length_app in E; subst t'; try done; simpl in E; lia. }
    subst pre'. apply app_inv_head in E. unfold hour_text in E.
    destruct (zero_padded_spec 2 h) as (L & _ & _); [simpl; lia|lia|].
    destruct (zero_padded_spec 2 h') as (L' & _ & _); [simpl; lia|lia|].
    apply app_inj_1 in E as [E _]; [|lia]. apply zero_padded_inj in E; [done|simpl; lia..|lia].
Qed.

(** A file is one window's: two records filed under one path are of one
    window. *)
Lemma file_for_spec id root ts rotation : dated ts →
  ∃ p, StreamId.file_for id root (window ts rotation) = Ret p ∧
    ∀ ts' p', dated ts' → StreamId.file_for id root (window ts' rotation) = Ret p' → p = p' →
      window ts rotation = window ts' rotation.
Proof.
  intros H. destruct (relative_spec ts rotation (text_of "oqcap") H) as (rel & E & Hs & _ & Hinj).
  destruct (path_join_relative (StreamId.directory id root)) as [pre Hpre]. unfold StreamId.file_for.
  rewrite E. eexists. split; [done|]. intros ts' p' H' E' Ep.
  destruct (relative_spec ts' rotation (text_of "oqcap") H') as (rel' & F' & Hs' & _). rewrite F' in E'.
  injection E' as <-. rewrite !Hpre in Ep by done. apply app_inv_head in Ep. by apply (Hinj ts' rel').
Qed.

Lemma manifest_for_spec id root ts rotation : dated ts →
  ∃ p, StreamId.manifest_for id root (window ts rotation) = Ret p ∧
    (∀ ts' p', dated ts' → StreamId.manifest_for id root (window ts' rotation) = Ret p' → p = p' →
      window ts rotation = window ts' rotation) ∧
    ∀ ts' p', dated ts' → StreamId.file_for id root (window ts' rotation) = Ret p' → p ≠ p'.
Proof.
  intros H. destruct (relative_spec ts rotation (text_of "manifest.json") H) as (rel & E & Hs & [pre ->] & Hinj).
  destruct (path_join_relative (StreamId.directory id root)) as [dir Hdir]. unfold StreamId.manifest_for, StreamId.file_for.
  rewrite E. eexists. split; [done|]. split; intros ts' p' H' E' Ep.
  - destruct (relative_spec ts' rotation (text_of "manifest.json") H') as (rel' & F' & Hs' & _). rewrite F' in E'.
    injection E' as <-. rewrite !Hdir in Ep by done. apply app_inv_head in Ep. by apply (Hinj ts' rel').
  - destruct (relative_spec ts' rotation (text_of "oqcap") H') as (rel' & F' & Hs' & [pre' ->] & _). rewrite F' in E'.
    injection E' as <-. rewrite !Hdir in Ep by done. apply app_inv_head in Ep. apply (f_equal last) in Ep.
    change (text_of "manifest.json") with (text_of "manifest.jso" ++ [110]) in Ep.
    change (text_of "oqcap") with (text_of "oqca" ++ [112]) in Ep.
    by rewrite !(assoc_L (++)), !last_snoc in Ep.
Qed.
