(* ===== verification/Manifest.v ===== *)
(** The manifest that seals a capture file ([oq-l2feed/src/manifest.rs]): what
    its builder counts while records are written, how it is printed, and the
    control records the capture process writes between the venue's bytes. *)

From stdpp Require Import strings.
From S2P Require Import Prelude Bytes Text Decimal Capture UtcDay.
#[local] Open Scope Z_scope.

Implicit Types (s : text) (r : CaptureRecord).

Definition FORMAT_VERSION : Z := 2.

Record Software := mkSoftware { sw_version : text; sw_commit : text }.

Record ClockOffset := mkClock { at_start_ns : Z; at_end_ns : Z; max_abs_ns : Z }.

Record Manifest := mkManifest {
  format_version : Z;
  m_venue : text; m_symbol : text; m_stream : text;
  m_window : Window;
  m_records : Z; m_bytes_raw : Z;
  exch_ts_range : option (Z * Z); local_ts_range : option (Z * Z);
  m_gaps : Z; m_gap_ns_total : Z;
  m_clock_offset : ClockOffset;
  capture_version : text; capture_commit : text;
  sha256_raw : text;
}.

Record ManifestBuilder := mkBuilder {
  b_records : Z; b_bytes_raw : Z;
  exch_first : option Z; exch_last : option Z;
  local_first : option Z; local_last : option Z;
  b_gaps : Z; b_gap_ns_total : Z;
  b_clock_offset : ClockOffset; clock_seen : bool;
}.

#[export] Instance ClockOffset_eq_dec : EqDecision ClockOffset.
Proof. solve_decision. Defined.
#[export] Instance ManifestBuilder_eq_dec : EqDecision ManifestBuilder.
Proof. solve_decision. Defined.

(** [Option::get_or_insert]: what is there stays. *)
Definition or_insert (o : option Z) (z : Z) : option Z := Some (default z o).

Module Builder.
Definition new : ManifestBuilder := mkBuilder 0 0 None None None None 0 0 (mkClock 0 0 0) false.

Definition observe (r : CaptureRecord) (b : ManifestBuilder) : run ManifestBuilder :=
  records ← chku64 (b_records b + 1);
  bytes_raw ← chku64 (b_bytes_raw b + Z.of_nat (Capture.encoded_len r));
  let seen := negb (exch_ts r =? NO_EXCH_TS) in
  mret {| b_records := records; b_bytes_raw := bytes_raw;
    exch_first := if seen then or_insert (exch_first b) (exch_ts r) else exch_first b;
    exch_last := if seen then Some (exch_ts r) else exch_last b;
    local_first := or_insert (local_first b) (local_ts r);
    local_last := Some (local_ts r);
    b_gaps := b_gaps b; b_gap_ns_total := b_gap_ns_total b;
    b_clock_offset := b_clock_offset b; clock_seen := clock_seen b |}.

Definition observe_gap (outage_ns : Z) (b : ManifestBuilder) : run ManifestBuilder :=
  gaps ← chku64 (b_gaps b + 1);
  total ← chk64 (b_gap_ns_total b + outage_ns);
  mret {| b_records := b_records b; b_bytes_raw := b_bytes_raw b;
    exch_first := exch_first b; exch_last := exch_last b; local_first := local_first b; local_last := local_last b;
    b_gaps := gaps; b_gap_ns_total := total; b_clock_offset := b_clock_offset b; clock_seen := clock_seen b |}.

(** The magnitude of the lowest integer panics. *)
Definition observe_clock_offset (offset_ns : Z) (b : ManifestBuilder) : run ManifestBuilder :=
  let at_start := if clock_seen b then at_start_ns (b_clock_offset b) else offset_ns in
  magnitude ← chk64 (Z.abs offset_ns);
  mret {| b_records := b_records b; b_bytes_raw := b_bytes_raw b;
    exch_first := exch_first b; exch_last := exch_last b; local_first := local_first b; local_last := local_last b;
    b_gaps := b_gaps b; b_gap_ns_total := b_gap_ns_total b;
    b_clock_offset := mkClock at_start offset_ns (Z.max (max_abs_ns (b_clock_offset b)) magnitude);
    clock_seen := true |}.

(** [Option::zip]. *)
Definition zip_ends (a b : option Z) : option (Z * Z) := x ← a; y ← b; Some (x, y).
Definition build_hashed (b : ManifestBuilder) (id : StreamId) (w : Window) (sw : Software) (digest : text) : Manifest :=
  {| format_version := FORMAT_VERSION;
    m_venue := st_venue id; m_symbol := st_symbol id; m_stream := st_stream id; m_window := w;
    m_records := b_records b; m_bytes_raw := b_bytes_raw b;
    exch_ts_range := zip_ends (exch_first b) (exch_last b);
    local_ts_range := zip_ends (local_first b) (local_last b);
    m_gaps := b_gaps b; m_gap_ns_total := b_gap_ns_total b; m_clock_offset := b_clock_offset b;
    capture_version := sw_version sw; capture_commit := sw_commit sw; sha256_raw := digest |}.
End Builder.

(** * Printing *)

Definition hex_digit (z : Z) : Z := if z <? 10 then 48 + z else 87 + z.
(** One character. *)
Definition escape_char (c : text) : text :=
  match c with
  | [b] =>
      if b =? 34 then [92; 34]
      else if b =? 92 then [92; 92]
      else if b =? 10 then [92; 110]
      else if b =? 13 then [92; 114]
      else if b =? 9 then [92; 116]
      else if b <? 32 then [92; 117; 48; 48; hex_digit (b / 16); hex_digit (b mod 16)]
      else c
  | _ => c
  end.
Definition escape s : text := mjoin (escape_char <$> chars s).

Definition quoted s : text := [34] ++ s ++ [34].
Definition push_num (key : string) (value : Z) : text :=
  text_of "  " ++ quoted (text_of key) ++ text_of ": " ++ shown value ++ [44; 10].
Definition push_opt_num (key : string) (value : option Z) : text :=
  match value with
  | Some v => push_num key v
  | None => text_of "  " ++ quoted (text_of key) ++ text_of ": null" ++ [44; 10]
  end.
Definition push_str_field (key : string) (value : text) : text :=
  text_of "  " ++ quoted (text_of key) ++ text_of ": " ++ quoted (escape value) ++ [44; 10].

(** [as i64] of a count. *)
Definition as_i64 (z : Z) : Z := signed64 (as_u64 z).
Definition to_json (m : Manifest) : run text :=
  day ← UtcDay.display (w_day (m_window m));
  mret ([123; 10] ++
    push_num "format_version" (format_version m) ++
    push_str_field "venue" (m_venue m) ++ push_str_field "symbol" (m_symbol m) ++ push_str_field "stream" (m_stream m) ++
    push_str_field "utc_day" day ++
    match w_hour (m_window m) with Some hour => push_num "utc_hour" hour | None => [] end ++
    push_num "records" (as_i64 (m_records m)) ++ push_num "bytes_raw" (as_i64 (m_bytes_raw m)) ++
    push_opt_num "first_exch_ts" (fst <$> exch_ts_range m) ++ push_opt_num "last_exch_ts" (snd <$> exch_ts_range m) ++
    push_opt_num "first_local_ts" (fst <$> local_ts_range m) ++ push_opt_num "last_local_ts" (snd <$> local_ts_range m) ++
    push_num "gaps" (as_i64 (m_gaps m)) ++ push_num "gap_ns_total" (m_gap_ns_total m) ++
    text_of "  " ++ quoted (text_of "clock_offset_ns") ++ text_of ": {" ++
      quoted (text_of "at_start") ++ text_of ": " ++ shown (at_start_ns (m_clock_offset m)) ++ text_of ", " ++
      quoted (text_of "at_end") ++ text_of ": " ++ shown (at_end_ns (m_clock_offset m)) ++ text_of ", " ++
      quoted (text_of "max_abs") ++ text_of ": " ++ shown (max_abs_ns (m_clock_offset m)) ++ text_of "}," ++ [10] ++
    push_str_field "capture_version" (capture_version m) ++ push_str_field "capture_commit" (capture_commit m) ++
    text_of "  " ++ quoted (text_of "sha256_raw") ++ text_of ": " ++ quoted (escape (sha256_raw m)) ++ [10; 125; 10]).

(** * Control records *)

Definition typed (kind : string) : text := [123] ++ quoted (text_of "type") ++ [58] ++ quoted (text_of kind).
Definition field (key : string) (value : text) : text := [44] ++ quoted (text_of key) ++ [58] ++ value.
Definition session_start (version venue symbol stream : text) : text :=
  typed "session_start" ++ field "capture_version" (quoted (escape version)) ++ field "venue" (quoted (escape venue)) ++
  field "symbol" (quoted (escape symbol)) ++ field "stream" (quoted (escape stream)) ++ [125].
Definition clock_offset (offset_ns dispersion_ns : Z) : text :=
  typed "clock_offset" ++ field "offset_ns" (shown offset_ns) ++ field "dispersion_ns" (shown dispersion_ns) ++ [125].
Definition gap (reason : text) (last_seq : option Z) (outage_ns : Z) : text :=
  typed "gap" ++ field "reason" (quoted (escape reason)) ++
  field "last_seq" (match last_seq with Some q => shown q | None => text_of "null" end) ++
  field "outage_ns" (shown outage_ns) ++ [125].
Definition snapshot (seq : Z) : text := typed "snapshot" ++ field "seq" (shown seq) ++ [125].
Definition session_end (records bytes_ : Z) : text :=
  typed "session_end" ++ field "records" (shown records) ++ field "bytes" (shown bytes_) ++ [125].

(** A payload that is not UTF-8 is no marker. *)
Definition is_gap r : bool :=
  bool_decide (cr_kind r = Control) && utf8 (cr_payload r) &&
  bool_decide (is_Some (find_text (quoted (text_of "type") ++ [58] ++ quoted (text_of "gap")) (cr_payload r))).

(** * What the builder counts *)

Fixpoint observe_all (rs : list CaptureRecord) (b : ManifestBuilder) : run ManifestBuilder :=
  match rs with [] => mret b | r :: rs => b ← Builder.observe r b; observe_all rs b end.

Definition exchanged (rs : list CaptureRecord) : list Z := filter (λ t, t ≠ NO_EXCH_TS) (exch_ts <$> rs).
(** A builder that has seen these records, whatever gaps and clocks. *)
Record counted (rs : list CaptureRecord) (b : ManifestBuilder) : Prop := {
  counted_records : b_records b = Z.of_nat (length rs);
  counted_bytes : b_bytes_raw b = zsum ((λ r, Z.of_nat (Capture.encoded_len r)) <$> rs);
  counted_exch_first : exch_first b = head (exchanged rs);
  counted_exch_last : exch_last b = last (exchanged rs);
  counted_local_first : local_first b = head (local_ts <$> rs);
  counted_local_last : local_last b = last (local_ts <$> rs);
}.

Lemma counted_new : counted [] Builder.new.
Proof. by split. Qed.

Lemma exchanged_snoc rs r :
  exchanged (rs ++ [r]) = if exch_ts r =? NO_EXCH_TS then exchanged rs else exchanged rs ++ [exch_ts r].
Proof.
  unfold exchanged. rewrite fmap_app, filter_app. cbn [fmap list_fmap]. rewrite filter_cons, filter_nil.
  destruct (Z.eqb_spec (exch_ts r) NO_EXCH_TS) as [E|E].
  - rewrite decide_False by tauto. by rewrite app_nil_r.
  - by rewrite decide_True.
Qed.
Lemma head_snoc (l : list Z) x : head (l ++ [x]) = or_insert (head l) x.
Proof. by destruct l. Qed.

Lemma observe_counts rs r b b' : counted rs b → Builder.observe r b = Ret b' → counted (rs ++ [r]) b'.
Proof.
  intros [C1 C2 C3 C4 C5 C6] H. unfold Builder.observe in H.
  apply bind_ret in H as (n & [-> _]%chk_inv & H). apply bind_ret in H as (m & [-> _]%chk_inv & H). injection H as <-.
  split; cbn [b_records b_bytes_raw exch_first exch_last local_first local_last].
  - rewrite C1, length_app. simpl. lia.
  - rewrite C2, fmap_app, zsum_app. simpl. lia.
  - rewrite exchanged_snoc, C3. destruct (exch_ts r =? NO_EXCH_TS); [done|]. by rewrite head_snoc.
  - rewrite exchanged_snoc, C4. destruct (exch_ts r =? NO_EXCH_TS); [done|]. by rewrite last_snoc.
  - rewrite fmap_app, C5. symmetry. apply head_snoc.
  - rewrite fmap_app. symmetry. apply last_snoc.
Qed.

Lemma observe_all_counts rs : ∀ b b' seen, counted seen b → observe_all rs b = Ret b' → counted (seen ++ rs) b'.
Proof.
  induction rs as [|r rs IH]; intros b b' seen Hb H; [injection H as <-; by rewrite app_nil_r|].
  apply bind_ret in H as (b1 & H1 & H). replace (seen ++ r :: rs) with ((seen ++ [r]) ++ rs) by by rewrite <-(assoc_L (++)).
  by eapply IH, H; eapply observe_counts.
Qed.

(** Neither gaps nor clocks are records. *)
Lemma observe_gap_counts rs o b b' : counted rs b → Builder.observe_gap o b = Ret b' → counted rs b'.
Proof.
  intros [] H. unfold Builder.observe_gap in H. apply bind_ret in H as (? & _ & H). apply bind_ret in H as (? & _ & H).
  injection H as <-. by split.
Qed.
Lemma observe_clock_counts rs o b b' : counted rs b → Builder.observe_clock_offset o b = Ret b' → counted rs b'.
Proof.
  intros [] H. unfold Builder.observe_clock_offset in H. apply bind_ret in H as (? & _ & H). injection H as <-. by split.
Qed.

(** A gap marker is told from the payloads around it. *)
Lemma gap_is_gap local reason last_seq outage_ns : utf8 (gap reason last_seq outage_ns) = true →
  is_gap (Capture.control local (gap reason last_seq outage_ns)) = true.
Proof.
  intros H. unfold is_gap. cbn [cr_kind cr_payload Capture.control]. rewrite H. cbn [andb].
  rewrite bool_decide_true by done. cbn [andb]. apply bool_decide_eq_true. unfold gap, typed.
  rewrite <-!(assoc_L (++)). exists 1%nat. by vm_compute.
Qed.
