(* ===== verification/CaptureWriter.v ===== *)
(** Writing capture files ([oq-l2feed/src/writer.rs]): one file per window of
    time, kept open a little longer for late records, reopened after a
    restart, sealed with a manifest. *)

From stdpp Require Import gmap strings.
From S2P Require Import Prelude Bytes Text Crc Sha Capture UtcDay Manifest.
#[local] Open Scope Z_scope.

Implicit Types (r : CaptureRecord) (p : text) (id : StreamId).

(** * The disk

    What is in the files, and how the operating system answers the calls to
    come: as asked, with fewer bytes than asked for, or with an error after
    some bytes were written.  With no answer left, as asked. *)

Inductive Answer := Fine | Short (n : nat) | Fails (n : nat).
Record Disk := mkDisk { files : gmap text (list Z); answers : list Answer }.

Inductive IoError :=
| Os
| TooLate (w open : Window)
| NoDayOpen
| CannotReopen (e : DecodeError).

#[export] Instance IoError_eq_dec : EqDecision IoError.
Proof. solve_decision. Defined.

(** A fallible call that moves a state and the disk, also when it fails. *)
Definition io (S A : Type) : Type := S → Disk → run (result A IoError * S * Disk).
#[export] Instance io_ret S : MRet (io S) := λ A a s d, Ret (Ok a, s, d).
#[export] Instance io_bind S : MBind (io S) := λ A B f m s d,
  '(r, s, d) ← m s d;
  match r with Ok a => f a s d | Err e => Ret (Err e, s, d) end.
Definition fail {S A} (e : IoError) : io S A := λ s d, Ret (Err e, s, d).
Definition get {S} : io S S := λ s d, Ret (Ok s, s, d).
Definition put {S} (s : S) : io S unit := λ _ d, Ret (Ok (), s, d).
(** A computation that may panic. *)
Definition pure_run {S A} (m : run A) : io S A := λ s d, a ← m; Ret (Ok a, s, d).
(** A call on another state. *)
Definition within {S T A} (t : T) (m : io T A) (back : T → S → S) : io S A := λ s d,
  '(r, t, d) ← m t d; Ret (r, back t s, d).

Lemma io_bind_ok {S A B} {m : io S A} {f : A → io S B} {s d a s' d'} :
  m s d = Ret (Ok a, s', d') → (m ≫= f) s d = f a s' d'.
Proof. intros E. unfold mbind, io_bind. by rewrite E. Qed.
Lemma io_bind_err {S A B} {m : io S A} {f : A → io S B} {s d e s' d'} :
  m s d = Ret (Err e, s', d') → (m ≫= f) s d = Ret (Err e, s', d').
Proof. intros E. unfold mbind, io_bind. by rewrite E. Qed.
Lemma io_bind_inv {S A B} {m : io S A} {f : A → io S B} {s d x s' d'} :
  (m ≫= f) s d = Ret (x, s', d') →
  (∃ a s1 d1, m s d = Ret (Ok a, s1, d1) ∧ f a s1 d1 = Ret (x, s', d')) ∨
  ∃ e, m s d = Ret (Err e, s', d') ∧ x = Err e.
Proof.
  unfold mbind, io_bind. intros (y & E & H)%bind_ret. destruct y as [[[a|e] s1] d1]; [left; eauto|].
  right. exists e. by injection H as <- <- <-.
Qed.
Lemma io_bind_stuck {S A B} {m : io S A} {f : A → io S B} {s d} :
  (∀ x, m s d ≠ Ret x) → ∀ x, (m ≫= f) s d ≠ Ret x.
Proof. unfold mbind, io_bind. intros H x. destruct (m s d) as [y| |]; [by destruct (H y)|done..]. Qed.
Lemma pure_run_ok {S A} {m : run A} {a} {s : S} {d} : m = Ret a → pure_run m s d = Ret (Ok a, s, d).
Proof. by intros ->. Qed.
Lemma pure_run_stuck {S A} {m : run A} {s : S} {d} : (∀ a, m ≠ Ret a) → ∀ x, pure_run m s d ≠ Ret x.
Proof. unfold pure_run. intros H x. destruct m as [a| |]; [by destruct (H a)|done..]. Qed.

Section os.
Context {S : Type}.

(** One system call. *)
Definition syscall : io S Answer := λ s d,
  match answers d with
  | [] => Ret (Ok Fine, s, d)
  | a :: rest => Ret (match a with Fails _ => Err Os | _ => Ok a end, s, mkDisk (files d) rest)
  end.
Definition set_file p (c : list Z) : io S unit := λ s d, Ret (Ok (), s, mkDisk (<[p := c]> (files d)) (answers d)).
Definition forget_file p : io S unit := λ s d, Ret (Ok (), s, mkDisk (delete p (files d)) (answers d)).
Definition contents p : io S (option (list Z)) := λ s d, Ret (Ok (files d !! p), s, d).

(** Bytes at the end of a file that is open: all of them, or some and an
    error. *)
Definition append_bytes p (data : list Z) : io S unit := λ s d,
  let c := default [] (files d !! p) in
  match answers d with
  | Fails n :: rest => Ret (Err Os, s, mkDisk (<[p := c ++ take (Nat.min n (length data - 1)) data]> (files d)) rest)
  | _ => Ret (Ok (), s, mkDisk (<[p := c ++ data]> (files d)) (tail (answers d)))
  end.

(** [fs::write]: what was there goes first. *)
Definition fs_write p (data : list Z) : io S unit :=
  _ ← syscall;
  _ ← set_file p [];
  append_bytes p data.

(** [Path::exists]: a failed call is no. *)
Definition exists_ p : io S bool := λ s d,
  match answers d with
  | Fails _ :: rest => Ret (Ok false, s, mkDisk (files d) rest)
  | _ => Ret (Ok (bool_decide (is_Some (files d !! p))), s, mkDisk (files d) (tail (answers d)))
  end.

(** A chunk of at most a megabyte: none at the end of the file. *)
Definition CHUNK : nat := Nat.pow 2 20.
Definition read_chunk p (offset : nat) : io S (list Z) :=
  a ← syscall;
  c ← contents p;
  let rest := drop offset (default [] c) in
  mret (take (match a with Short n => Nat.max 1 (Nat.min n CHUNK) | _ => CHUNK end) rest).
End os.

(** * The buffer in front of a file *)

Record BufWriter := mkBuf { bw_path : text; bw_buffer : list Z }.
Definition CAPACITY : nat := Nat.pow 2 20.

Module BufWriter.
(** What was written leaves the buffer, also when the rest was not. *)
Definition flush_buf : io BufWriter unit := λ b d,
  match bw_buffer b with
  | [] => Ret (Ok (), b, d)
  | data =>
      let n := match answers d with Fails n :: _ => Nat.min n (length data - 1) | _ => length data end in
      '(r, _, d) ← append_bytes (bw_path b) data () d;
      Ret (r, mkBuf (bw_path b) (drop n data), d)
  end.
Definition write_all (data : list Z) : io BufWriter unit :=
  b ← get;
  if (length data <? CAPACITY - length (bw_buffer b))%nat then put (mkBuf (bw_path b) (bw_buffer b ++ data))
  else
    _ ← (if (CAPACITY - length (bw_buffer b) <? length data)%nat then flush_buf else mret ());
    if (CAPACITY <=? length data)%nat then append_bytes (bw_path b) data
    else
      b ← get;
      put (mkBuf (bw_path b) (bw_buffer b ++ data)).
End BufWriter.

(** * The writer *)

Record OpenDay := mkDay {
  od_window : Window; od_path : text; od_file : BufWriter; od_builder : ManifestBuilder;
  late_records : Z; resumed_after : option Z;
}.
Record SealedDay := mkSealed { sd_window : Window; sd_path : text; sd_manifest : Manifest; sd_manifest_path : text }.

Definition DEFAULT_GRACE : Z := 60 * 1000000000.
Record CaptureWriter := mkWriter {
  root : text; stream : StreamId; software : Software;
  open : option OpenDay; previous : option OpenDay;
  grace_ns : Z; rotation : Rotation;
  window_of : option (Z → Rotation → run Window);
}.

Definition set_open o (w : CaptureWriter) : CaptureWriter :=
  mkWriter (root w) (stream w) (software w) o (previous w) (grace_ns w) (rotation w) (window_of w).
Definition set_previous o (w : CaptureWriter) : CaptureWriter :=
  mkWriter (root w) (stream w) (software w) (open w) o (grace_ns w) (rotation w) (window_of w).
Definition set_file_of f (o : OpenDay) : OpenDay :=
  mkDay (od_window o) (od_path o) f (od_builder o) (late_records o) (resumed_after o).
Definition set_builder b (o : OpenDay) : OpenDay :=
  mkDay (od_window o) (od_path o) (od_file o) b (late_records o) (resumed_after o).
Definition set_late n (o : OpenDay) : OpenDay :=
  mkDay (od_window o) (od_path o) (od_file o) (od_builder o) n (resumed_after o).
Definition set_resumed t (o : OpenDay) : OpenDay :=
  mkDay (od_window o) (od_path o) (od_file o) (od_builder o) (late_records o) t.

Definition on_previous {A} (day : OpenDay) (m : io OpenDay A) : io CaptureWriter A :=
  within day m (λ o, set_previous (Some o)).
Definition on_open {A} (day : OpenDay) (m : io OpenDay A) : io CaptureWriter A :=
  within day m (λ o, set_open (Some o)).

Module CaptureWriter.
Definition new (root : text) (stream : StreamId) (software : Software) : io () CaptureWriter :=
  _ ← syscall;
  mret (mkWriter root stream software None None DEFAULT_GRACE Daily None).
Definition with_rotation (rotation : Rotation) (w : CaptureWriter) : CaptureWriter :=
  mkWriter (root w) (stream w) (software w) (open w) (previous w) (grace_ns w) rotation (window_of w).
Definition with_windowing (f : Z → Rotation → run Window) (w : CaptureWriter) : CaptureWriter :=
  mkWriter (root w) (stream w) (software w) (open w) (previous w) (grace_ns w) (rotation w) (Some f).
Definition with_grace (grace : Z) (w : CaptureWriter) : CaptureWriter :=
  mkWriter (root w) (stream w) (software w) (open w) (previous w) (if decide (i64 grace) then grace else I64_MAX)
    (rotation w) (window_of w).

Definition window_for r : io CaptureWriter Window :=
  self ← get;
  pure_run (match window_of self with
  | None => Window.from_nanos (Capture.day_ts r) (rotation self)
  | Some f => f (Capture.day_ts r) (rotation self)
  end).

(** The SHA-256 of a file, a chunk at a time.  Every turn but the last reads
    a byte. *)
Fixpoint hash_loop {S} (fuel : nat) p (offset : nat) (h : Hasher) : io S Hasher :=
  match fuel with
  | O => pure_run OutOfFuel
  | Datatypes.S fuel =>
      chunk ← read_chunk p offset;
      if (length chunk =? 0)%nat then mret h
      else
        h ← pure_run (Sha256.update chunk h);
        hash_loop fuel p (offset + length chunk) h
  end.
Definition hash_file {S} p : io S text :=
  _ ← syscall;
  c ← contents p;
  h ← hash_loop (Datatypes.S (length (default [] c))) p 0 Sha256.new;
  pure_run (d ← Sha256.finalize h; mret (to_hex d)).

(** Decode what is whole at the front of [pending]. *)
Fixpoint scan_pending {S} (fuel : nat) (pending : list Z) (offset : nat) (b : ManifestBuilder) :
    io S (nat * ManifestBuilder) :=
  match fuel with
  | O => pure_run OutOfFuel
  | Datatypes.S fuel =>
      x ← pure_run (Capture.decode (drop offset pending));
      match x with
      | Ok (record, consumed) =>
          b ← pure_run (Builder.observe record b);
          scan_pending fuel pending (offset + consumed) b
      | Err Truncated => mret (offset, b)
      | Err e => fail (CannotReopen e)
      end
  end.
Fixpoint scan_loop {S} (fuel : nat) p (offset : nat) (pending : list Z) (clean : nat) (b : ManifestBuilder) :
    io S (nat * ManifestBuilder) :=
  match fuel with
  | O => pure_run OutOfFuel
  | Datatypes.S fuel =>
      x ← scan_pending (Datatypes.S (length pending)) pending 0 b;
      let '(taken, b) := (x : nat * ManifestBuilder) in
      let pending := drop taken pending in
      let clean := (clean + taken)%nat in
      chunk ← read_chunk p offset;
      if (length chunk =? 0)%nat then mret (clean, b)
      else scan_loop fuel p (offset + length chunk) (pending ++ chunk) clean b
  end.
(** Where the last whole record ends, and how long the file is; nothing when
    there is no file or nothing in it. *)
Definition scan_existing {S} p (b : ManifestBuilder) : io S (option (nat * nat) * ManifestBuilder) :=
  _ ← syscall;
  c ← contents p;
  match c with
  | None => mret (None, b)
  | Some c =>
      _ ← syscall;
      if (length c =? 0)%nat then mret (None, b)
      else
        x ← scan_loop (Datatypes.S (length c)) p 0 [] 0 b;
        let '(clean, b) := (x : nat * ManifestBuilder) in
        mret (Some (clean, length c), b)
  end.

Definition open_window (w : Window) : io CaptureWriter unit :=
  self ← get;
  path ← pure_run (StreamId.file_for (stream self) (root self) w);
  _ ← syscall;
  x ← scan_existing path Builder.new;
  let '(found, b) := (x : option (nat * nat) * ManifestBuilder) in
  _ ← match found with
      | Some (clean, len) =>
          if (clean <? len)%nat then
            _ ← syscall;
            _ ← syscall;
            c ← contents path;
            _ ← set_file path (take clean (default [] c));
            _ ← syscall;
            mret ()
          else mret ()
      | None => mret ()
      end;
  manifest_path ← pure_run (StreamId.manifest_for (stream self) (root self) w);
  there ← exists_ manifest_path;
  _ ← (if (there : bool) then _ ← syscall; forget_file manifest_path else mret ());
  _ ← syscall;
  c ← contents path;
  _ ← match c with None => set_file path [] | Some _ => mret () end;
  self ← get;
  put (set_open (Some (mkDay w path (mkBuf path []) b 0 (local_last b))) self).

(** Dropping a buffer writes what it can; nobody hears of a failure. *)
Definition drop_day (o : OpenDay) (d : Disk) : run Disk :=
  '(_, _, d) ← BufWriter.flush_buf (od_file o) d; mret d.

Definition seal_day (o : OpenDay) : io CaptureWriter SealedDay := λ self d,
  '(flushed, file, d) ← BufWriter.flush_buf (od_file o) d;
  match flushed with
  | Err e => d ← drop_day (set_file_of file o) d; mret (Err e, self, d)
  | Ok _ =>
      (_ ← syscall;
      digest ← hash_file (od_path o);
      let manifest := Builder.build_hashed (od_builder o) (stream self) (od_window o) (software self) digest in
      manifest_path ← pure_run (StreamId.manifest_for (stream self) (root self) (od_window o));
      json ← pure_run (to_json manifest);
      _ ← fs_write manifest_path json;
      mret (mkSealed (od_window o) (od_path o) manifest manifest_path)) self d
  end.

Definition seal_previous : io CaptureWriter (option SealedDay) :=
  self ← get;
  match previous self with
  | Some day =>
      _ ← put (set_previous None self);
      sealed ← seal_day day;
      mret (Some sealed)
  | None => mret None
  end.

Definition seal : io CaptureWriter SealedDay :=
  _ ← seal_previous;
  self ← get;
  match open self with
  | None => fail NoDayOpen
  | Some day => _ ← put (set_open None self); seal_day day
  end.

(** One frame, and what the builder makes of it. *)
Definition put_record r : io OpenDay unit :=
  buffer ← pure_run (Capture.encode r []);
  o ← get;
  _ ← within (od_file o) (BufWriter.write_all buffer) set_file_of;
  o ← get;
  b ← pure_run (Builder.observe r (od_builder o));
  put (set_builder b o).

(** The rotation a record asks for. *)
Definition rotate (w : Window) : io CaptureWriter (option SealedDay) :=
  self ← get;
  match open self with
  | Some day =>
      if bool_decide (od_window day = w) then mret None
      else if Window.lt w (od_window day) then fail (TooLate w (od_window day))
      else
        sealed ← seal_previous;
        self ← get;
        _ ← put (set_open None (set_previous (open self) self));
        mret sealed
  | None => mret None
  end.

(** A record that is not late. *)
Definition append_open r (w : Window) : io CaptureWriter (option SealedDay) :=
  sealed ← rotate w;
  self ← get;
  _ ← match open self with None => open_window w | Some _ => mret () end;
  self ← get;
  day ← pure_run (expect (open self));
  _ ← on_open day (put_record r);
  self ← get;
  match previous self with
  | None => mret sealed
  | Some _ =>
      start ← pure_run (Window.start_nanos w);
      if grace_ns self <? sat64 (Capture.day_ts r - start) then seal_previous else mret sealed
  end.

Definition append r : io CaptureWriter (option SealedDay) :=
  w ← window_for r;
  self ← get;
  match previous self with
  | Some day =>
      if bool_decide (od_window day = w) then
        _ ← on_previous day (
          _ ← put_record r;
          o ← get;
          late ← pure_run (chku64 (late_records o + 1));
          put (set_late late o));
        mret None
      else append_open r w
  | None => append_open r w
  end.

(** What a control record adds to the builder of the file that holds it. *)
Definition tell_builder (w : Window) (f : ManifestBuilder → run ManifestBuilder) : io CaptureWriter unit :=
  self ← get;
  let tell := (o ← get; b ← pure_run (f (od_builder o)); put (set_builder b o)) : io OpenDay unit in
  match previous self, open self with
  | Some day, o =>
      if bool_decide (od_window day = w) then on_previous day tell
      else match o with
           | Some day => if bool_decide (od_window day = w) then on_open day tell else mret ()
           | None => mret ()
           end
  | None, Some day => if bool_decide (od_window day = w) then on_open day tell else mret ()
  | None, None => mret ()
  end.

(** Only the open day is flushed. *)
Definition flush : io CaptureWriter unit :=
  self ← get;
  match open self with
  | Some day => on_open day (o ← get; within (od_file o) BufWriter.flush_buf set_file_of)
  | None => mret ()
  end.
Definition sync : io CaptureWriter unit :=
  self ← get;
  match open self with
  | Some day => _ ← flush; _ ← syscall; mret ()
  | None => mret ()
  end.

Definition append_control r (f : ManifestBuilder → run ManifestBuilder) : io CaptureWriter (option SealedDay) :=
  w ← window_for r;
  sealed ← append r;
  _ ← tell_builder w f;
  _ ← flush;
  mret sealed.
Definition append_gap (local : Z) (reason : text) (last_seq : option Z) (outage_ns : Z) :
    io CaptureWriter (option SealedDay) :=
  append_control (Capture.control local (gap reason last_seq outage_ns)) (Builder.observe_gap outage_ns).
Definition append_clock_offset (local offset_ns dispersion_ns : Z) : io CaptureWriter (option SealedDay) :=
  append_control (Capture.control local (clock_offset offset_ns dispersion_ns)) (Builder.observe_clock_offset offset_ns).

Definition take_resumed : io CaptureWriter (option Z) :=
  self ← get;
  match open self with
  | Some day => _ ← put (set_open (Some (set_resumed None day)) self); mret (resumed_after day)
  | None => mret None
  end.
Definition append_session_start (local : Z) : io CaptureWriter (option SealedDay) :=
  self ← get;
  let payload := session_start (sw_version (software self)) (st_venue (stream self)) (st_symbol (stream self))
    (st_stream (stream self)) in
  sealed ← append (Capture.control local payload);
  resumed ← take_resumed;
  sealed ← match resumed with
           | Some before =>
               let outage := sat64 (local - before) in
               if 0 <? outage then
                 s ← append_gap local (text_of "capture restarted") None outage;
                 mret (match s with Some _ => s | None => sealed end)
               else mret sealed
           | None => mret sealed
           end;
  _ ← flush;
  mret sealed.

(** The end of a writer that is not killed. *)
Definition close (self : CaptureWriter) (d : Disk) : run Disk :=
  d ← match open self with Some o => drop_day o d | None => mret d end;
  match previous self with Some o => drop_day o d | None => mret d end.
End CaptureWriter.

(** * The life of a capture process *)

Inductive WriterOp :=
| Append (r : CaptureRecord)
| AppendGap (local : Z) (reason : text) (last_seq : option Z) (outage_ns : Z)
| AppendClockOffset (local offset_ns dispersion_ns : Z)
| AppendSessionStart (local : Z)
| Flush
| Sync
| Seal
| SealPrevious.

Definition writer_op (op : WriterOp) : io CaptureWriter (option SealedDay) :=
  match op with
  | Append r => CaptureWriter.append r
  | AppendGap local reason last_seq outage => CaptureWriter.append_gap local reason last_seq outage
  | AppendClockOffset local offset dispersion => CaptureWriter.append_clock_offset local offset dispersion
  | AppendSessionStart local => CaptureWriter.append_session_start local
  | Flush => _ ← CaptureWriter.flush; mret None
  | Sync => _ ← CaptureWriter.sync; mret None
  | Seal => sealed ← CaptureWriter.seal; mret (Some sealed)
  | SealPrevious => CaptureWriter.seal_previous
  end.

(** Operations until one fails: a failed write ends the capture. *)
Fixpoint writer_ops (ops : list WriterOp) : io CaptureWriter (list SealedDay) :=
  match ops with
  | [] => mret []
  | op :: ops =>
      sealed ← writer_op op;
      rest ← writer_ops ops;
      mret (match sealed with Some s => s :: rest | None => rest end)
  end.

(** * Reopening

    A file read in pieces, however the pieces fall, is the file. *)

Implicit Types (rs : list CaptureRecord) (c tl pending : list Z) (b : ManifestBuilder).

(** * Counting within the range of a counter *)

(** There is room for what [n] bytes can hold: a record a byte, five bytes
    counted for one. *)
Definition room b (n : nat) : Prop :=
  0 ≤ b_records b ∧ b_records b + Z.of_nat n ≤ U64_MAX ∧
  0 ≤ b_bytes_raw b ∧ b_bytes_raw b + 5 * Z.of_nat n ≤ U64_MAX.

Lemma observe_room b c r n k : Capture.decode c = Ret (Ok (r, n)) → room b (length c + k) →
  ∃ b', Builder.observe r b = Ret b' ∧ room b' (length (drop n c) + k).
Proof.
  intros H (R1 & R2 & R3 & R4). apply decode_takes in H as [[H1 H2] H3]. unfold Builder.observe.
  rewrite !chk_ret by (unfold u64; lia). cbn [mbind run_bind]. eexists. split; [done|].
  unfold room. cbn [b_records b_bytes_raw]. rewrite length_drop. lia.
Qed.

Lemma observe_all_app rs rs' b : observe_all (rs ++ rs') b = observe_all rs b ≫= observe_all rs'.
Proof. revert b. induction rs as [|r rs IH]; intros b; [done|]. cbn [app observe_all]. by destruct (Builder.observe r b); cbn. Qed.

Lemma reads_room c rs tl b k : reads c rs tl → room b (length c + k) →
  ∃ b', observe_all rs b = Ret b' ∧ room b' (length tl + k).
Proof.
  intros H. revert b. induction H as [c|c r n rs tl H _ IH]; intros b Hb; [by exists b|].
  destruct (observe_room b c r n k H Hb) as (b1 & E & Hb1). cbn [observe_all]. rewrite E. by apply IH.
Qed.

(** * What is whole at the front of a piece *)

Lemma scan_pending_spec {S} fuel : ∀ pending offset b (s : S) d,
  (offset ≤ length pending)%nat → (length pending - offset < fuel)%nat →
  ∃ rs tl e, reads (drop offset pending) rs tl ∧ Capture.decode tl = Ret (Err e) ∧
    match observe_all rs b with
    | Ret b' => CaptureWriter.scan_pending fuel pending offset b s d =
        Ret (match e with Truncated => Ok ((length pending - length tl)%nat, b') | _ => Err (CannotReopen e) end, s, d)
    | _ => ∀ x, CaptureWriter.scan_pending fuel pending offset b s d ≠ Ret x
    end.
Proof.
  induction fuel as [|fuel IH]; intros pending offset b s d Ho Hf; [lia|]. cbn [CaptureWriter.scan_pending].
  destruct (decoding_returns (drop offset pending)) as [[[r n]|e] E].
  - pose proof (decode_consumes _ _ _ E) as Hn. rewrite length_drop in Hn.
    destruct (Builder.observe r b) as [b1| |] eqn:Eb.
    2, 3: destruct (reads_stops (drop n (drop offset pending))) as (rs & tl & e & H & He);
      exists (r :: rs), tl, e; (split; [by econstructor|]); (split; [done|]); cbn [observe_all]; rewrite Eb; cbn [mbind run_bind];
      rewrite (io_bind_ok (pure_run_ok E)); apply io_bind_stuck, pure_run_stuck; congruence.
    destruct (IH pending (offset + n)%nat b1 s d) as (rs & tl & e & H & He & Es); [lia..|].
    exists (r :: rs), tl, e. split; [econstructor; [done|by rewrite drop_drop]|]. split; [done|].
    cbn [observe_all]. rewrite Eb, bind_Ret. by rewrite (io_bind_ok (pure_run_ok E)), (io_bind_ok (pure_run_ok Eb)).
  - exists [], (drop offset pending), e. split; [constructor|]. split; [done|]. cbn [observe_all].
    rewrite (io_bind_ok (pure_run_ok E)), length_drop. unfold mret, run_ret, io_ret, fail. destruct e; try done.
    do 5 f_equal. lia.
Qed.

(** * A file in pieces *)

Lemma read_chunk_spec {S} p offset (s : S) d c : files d !! p = Some c →
  ∃ x d', read_chunk p offset s d = Ret (x, s, d') ∧ files d' = files d ∧
    match x with
    | Ok chunk => ∃ n, (0 < n)%nat ∧ chunk = take n (drop offset c)
    | Err e => e = Os ∧ ∃ n, Fails n ∈ answers d
    end.
Proof.
  intros Hc. unfold read_chunk, syscall, contents, mbind, io_bind.
  assert (0 < CHUNK)%nat as Hk by (apply Nat.neq_0_lt_0, Nat.pow_nonzero; lia).
  destruct (answers d) as [|[|k|k] rest] eqn:Ea; cbn [mbind run_bind files answers]; rewrite ?Hc; cbn [default].
  1, 2: do 2 eexists; split; [done|]; split; [done|]; exists CHUNK; done.
  - do 2 eexists; split; [done|]; split; [done|]; eexists; split; [|done]. lia.
  - do 2 eexists; split; [done|]; split; [done|]; split; [done|]. exists k. left.
Qed.

Lemma read_chunk_answers {S} p offset (s : S) d x s' d' : read_chunk p offset s d = Ret (x, s', d') →
  ∀ n, Fails n ∈ answers d' → Fails n ∈ answers d.
Proof.
  unfold read_chunk, syscall, contents, mbind, io_bind. destruct (answers d) as [|[|k|k] rest] eqn:Ea;
    cbn [mbind run_bind files answers]; intros [= _ _ <-] n; cbn [answers]; rewrite ?Ea; try done; by right.
Qed.

(** What a scan that began at [b0] says of a file. *)
Definition scanned_as c b0 (x : result (nat * ManifestBuilder) IoError) (failing : Prop) : Prop :=
  match x with
  | Ok (clean, b) => ∃ rs tl, reads c rs tl ∧ Capture.decode tl = Ret (Err Truncated) ∧
      clean = (length c - length tl)%nat ∧ observe_all rs b0 = Ret b
  | Err (CannotReopen e) => e ≠ Truncated ∧ ∃ rs tl, reads c rs tl ∧ Capture.decode tl = Ret (Err e)
  | Err Os => failing
  | Err _ => False
  end.

(** A count out of range, on records that are in the file. *)
Definition uncountable c b0 : Prop := ∃ rs tl, reads c rs tl ∧ ∀ b, observe_all rs b0 ≠ Ret b.

Lemma scan_loop_spec {S} p c b0 fuel : ∀ offset pending seen b (s : S) d,
  files d !! p = Some c → (length c - offset < fuel)%nat → (offset ≤ length c)%nat →
  reads (take offset c) seen pending → observe_all seen b0 = Ret b →
  (uncountable c b0 ∧ ∀ x, CaptureWriter.scan_loop fuel p offset pending (offset - length pending) b s d ≠ Ret x) ∨
  ∃ x d', CaptureWriter.scan_loop fuel p offset pending (offset - length pending) b s d = Ret (x, s, d') ∧
    files d' = files d ∧ scanned_as c b0 x (∃ n, Fails n ∈ answers d).
Proof.
  induction fuel as [|fuel IH]; intros offset pending seen b s d Hc Hf Ho Hseen Hb; [lia|].
  cbn [CaptureWriter.scan_loop].
  destruct (reads_rest _ _ _ Hseen) as [front Hfront].
  assert (length pending ≤ offset)%nat as Hpo.
  { apply (f_equal length) in Hfront. rewrite length_take, length_app in Hfront. lia. }
  destruct (scan_pending_spec (Datatypes.S (length pending)) pending 0 b s d) as (rs & tl & e & H & He & Es); [lia..|].
  rewrite drop_0 in H. assert (reads (take offset c) (seen ++ rs) tl) as Hall by by eapply reads_trans.
  assert (reads c (seen ++ rs) (tl ++ drop offset c)) as Hall' by (rewrite <-(take_drop offset c) at 1; by apply reads_app).
  destruct (observe_all rs b) as [b'| |] eqn:Hb'.
  2, 3: left; split; [|by apply io_bind_stuck]; exists (seen ++ rs), (tl ++ drop offset c); (split; [done|]); intros b';
    rewrite observe_all_app, Hb, bind_Ret; congruence.
  assert (observe_all (seen ++ rs) b0 = Ret b') as Hball by by rewrite observe_all_app, Hb.
  destruct (decide (e = Truncated)) as [->|Hne].
  2: { right. exists (Err (CannotReopen e)), d. split; [apply io_bind_err; rewrite Es; by destruct e|]. split; [done|]. split; [done|].
    exists (seen ++ rs), (tl ++ drop offset c). split; [done|]. apply decode_app; [done|congruence]. }
  destruct (reads_rest _ _ _ H) as [front' Hfront'].
  assert (drop (length pending - length tl) pending = tl) as Hd.
  { rewrite Hfront', length_app. by rewrite drop_app_length' by lia. }
  assert (length tl ≤ length pending)%nat as Htl by (rewrite Hfront', length_app; lia).
  rewrite (io_bind_ok Es), Hd.
  destruct (read_chunk_spec p offset s d c Hc) as (x & d1 & Ex & Hd1 & Hx).
  destruct x as [chunk|err]; [|right; exists (Err err), d1; destruct Hx as [-> Hx]; by rewrite (io_bind_err Ex)].
  destruct Hx as (n & Hn & ->). rewrite (io_bind_ok Ex).
  destruct (Nat.eqb_spec (length (take n (drop offset c))) 0) as [E|E].
  - rewrite length_take, length_drop in E. assert (offset = length c) as -> by lia.
    right. eexists _, d1. split; [done|]. split; [done|]. rewrite take_ge in Hall by done.
    exists (seen ++ rs), tl. split_and!; try done. lia.
  - rewrite length_take, length_drop in E.
    set (offset' := (offset + length (take n (drop offset c)))%nat).
    assert (take offset' c = take offset c ++ take n (drop offset c)) as Et.
    { unfold offset'. rewrite length_take, length_drop, <-take_take_drop. f_equal.
      destruct (Nat.le_ge_cases n (length c - offset)); [f_equal; lia|].
      rewrite !take_ge; [done|rewrite length_drop; lia..]. }
    replace (offset - length pending + (length pending - length tl))%nat
      with (offset' - length (tl ++ take n (drop offset c)))%nat by (unfold offset'; rewrite length_app; lia).
    destruct (IH offset' (tl ++ take n (drop offset c)) (seen ++ rs) b' s d1) as [Hp|(x & d2 & -> & Hd2 & Hx)]; try done.
    + by rewrite Hd1.
    + unfold offset'. rewrite length_take, length_drop. lia.
    + unfold offset'. rewrite length_take, length_drop. lia.
    + rewrite Et. by apply reads_app.
    + by left.
    + right. exists x, d2. split; [done|]. split; [congruence|]. destruct x as [[]|[]]; try done.
      destruct Hx as [m Hm]. exists m. by eapply read_chunk_answers.
Qed.

Lemma syscall_spec {S} (s : S) d : ∃ x d', syscall s d = Ret (x, s, d') ∧ files d' = files d ∧
  (∀ n, Fails n ∈ answers d' → Fails n ∈ answers d) ∧
  match x with Ok _ => True | Err e => e = Os ∧ ∃ n, Fails n ∈ answers d end.
Proof.
  unfold syscall. destruct (answers d) as [|[|n|n] rest] eqn:E; do 2 eexists; (split; [done|]); (split; [done|]);
    cbn [answers]; rewrite ?E.
  - by split.
  - split; [|done]. by right.
  - split; [|done]. by right.
  - split; [by right|]. split; [done|]. exists n. by left.
Qed.

Lemma scan_existing_spec {S} p b0 (s : S) d :
  (∃ c, files d !! p = Some c ∧ uncountable c b0 ∧ ∀ x, CaptureWriter.scan_existing p b0 s d ≠ Ret x) ∨
  ∃ x d', CaptureWriter.scan_existing p b0 s d = Ret (x, s, d') ∧ files d' = files d ∧
    match x with
    | Ok (None, b) => b = b0 ∧ default [] (files d !! p) = []
    | Ok (Some (clean, len), b) => ∃ c, files d !! p = Some c ∧ len = length c ∧ c ≠ [] ∧ scanned_as c b0 (Ok (clean, b)) True
    | Err Os => ∃ n, Fails n ∈ answers d
    | Err e => ∃ c, files d !! p = Some c ∧ c ≠ [] ∧ scanned_as c b0 (Err e) True
    end.
Proof.
  unfold CaptureWriter.scan_existing.
  destruct (syscall_spec s d) as (x & d1 & E1 & F1 & A1 & Hx).
  destruct x as [a|e]; [|destruct Hx as [-> ?]; right; exists (Err Os), d1; by rewrite (io_bind_err E1)].
  rewrite (io_bind_ok E1). assert (@contents S p s d1 = Ret (Ok (files d !! p), s, d1)) as E2 by (unfold contents; by rewrite F1).
  rewrite (io_bind_ok E2). destruct (files d !! p) as [c|] eqn:Ec; [|right; by exists (Ok (None, b0)), d1].
  destruct (syscall_spec s d1) as (x & d2 & E3 & F2 & A2 & Hx2).
  destruct x as [a2|e]; [|right; destruct Hx2 as (-> & n & ?); exists (Err Os), d2; rewrite (io_bind_err E3); split_and!; [done|congruence|eauto]].
  rewrite (io_bind_ok E3). destruct (Nat.eqb_spec (length c) 0) as [E0|E0].
  { right. exists (Ok (None, b0)), d2. split_and!; [done|congruence|done|]. by apply nil_length_inv. }
  assert (c ≠ []) as Hne by (by intros ->).
  destruct (scan_loop_spec p c b0 (Datatypes.S (length c)) 0 [] [] b0 s d2) as [[Hu Hp]|(x & d3 & E & F3 & Hs)];
    try done; [by rewrite F2, F1|lia|lia|constructor|left; exists c|].
  { split; [done|]. split; [done|]. apply io_bind_stuck. cbn [length] in Hp. by rewrite Nat.sub_0_r in Hp. }
  right. cbn [length] in E. rewrite Nat.sub_0_r in E. 
  assert (files d3 = files d) as F by congruence.
  destruct x as [[clean b]|e]; [rewrite (io_bind_ok E)|rewrite (io_bind_err E)].
  - exists (Ok (Some (clean, length c), b)), d3. split_and!; [done|done|]. exists c. by split_and!.
  - exists (Err e), d3. split; [done|]. split; [done|]. destruct e; try done.
    + destruct Hs as [n Hn]. eauto.
    + exists c. by split_and!.
Qed.

Lemma room_new (n : nat) : Z.of_nat n ≤ 2 ^ 60 → room Builder.new n.
Proof. intros H. unfold room, Builder.new. cbn [b_records b_bytes_raw]. lia. Qed.

(** Reopening a file reads it in pieces and decodes what is whole at the
    front of what it has; the records it counts, the place it finds the tear
    and the damage it refuses are those of the whole file read at once,
    however short the reads fall. *)
Theorem a_file_scanned_in_pieces_is_the_file p c d
    (Hc : files d !! p = Some c) (Hne : c ≠ []) (Hl : Z.of_nat (length c) ≤ 2 ^ 60)
    (Hreads : ∀ n, Fails n ∉ answers d) :
  ∃ x d', CaptureWriter.scan_existing p Builder.new () d = Ret (x, (), d') ∧ files d' = files d ∧
    match Capture.decode_all c with
    | Ret (Ok (rs, rest)) => ∃ b, observe_all rs Builder.new = Ret b ∧ x = Ok (Some ((length c - rest)%nat, length c), b)
    | Ret (Err e) => x = Err (CannotReopen e)
    | _ => False
    end.
Proof.
  destruct (scan_existing_spec p Builder.new () d) as [(c' & Hc' & (rs & tl & H & Hu) & _)|(x & d' & E & F & Hx)].
  { rewrite Hc in Hc'. injection Hc' as <-. destruct (reads_room _ _ _ Builder.new 0 H) as (b & Hb & _); [|by destruct (Hu b)].
    apply room_new. lia. }
  exists x, d'. split; [done|]. split; [done|].
  destruct (decode_all_reads c) as (rs & tl & e & H & He & ->). rewrite Hc in Hx.
  assert (∀ e', (∃ c', Some c = Some c' ∧ c' ≠ [] ∧ scanned_as c' Builder.new (Err e') True) →
    e' ≠ Os → match e with Truncated => False | _ => e' = CannotReopen e end) as Herr.
  { intros e' (c' & [= <-] & _ & Hs) Hos. destruct e' as [| | |e']; try done. destruct Hs as (Hnt & rs' & tl' & H' & He').
    destruct (reads_unique _ _ _ _ _ _ _ H He H' He') as [_ ->]. rewrite He in He'. injection He' as ->.
    by destruct e'. }
  destruct x as [[[[clean len]|] b]|err].
  - destruct Hx as (c' & [= <-] & -> & _ & rs' & tl' & H' & He' & -> & Hb).
    destruct (reads_unique _ _ _ _ _ _ _ H He H' He') as [-> ->]. rewrite He in He'. injection He' as ->. eauto.
  - by destruct Hx as [_ Hx%Hne].
  - destruct err; [by destruct Hx as [n Hn%Hreads]|..]; apply Herr in Hx; try done; destruct e; try done; congruence.
Qed.

Lemma a_file_scanned_in_pieces_is_the_file_witness :
  ∃ x d', CaptureWriter.scan_existing [1] Builder.new ()
      (mkDisk {[ [1] := capture_file [(true, Capture.payload 7 5 [1; 2])] ++ [9; 9] ]} [Short 3; Short 5; Fine; Short 1; Short 7]) =
    Ret (x, (), d') ∧ ∃ b, x = Ok (Some (31%nat, 33%nat), b).
Proof.
  set (c := capture_file [(true, Capture.payload 7 5 [1; 2])] ++ [9; 9]).
  destruct (a_file_scanned_in_pieces_is_the_file [1] c (mkDisk {[ [1] := c ]} [Short 3; Short 5; Fine; Short 1; Short 7]))
    as (x & d' & E & _ & H).
  - apply lookup_singleton_eq.
  - discriminate.
  - vm_compute. discriminate.
  - cbn [answers]. intros n Hn. rewrite !elem_of_cons in Hn. destruct_or! Hn; try done. by apply elem_of_nil in Hn.
  - exists x, d'. split; [exact E|].
    assert (Capture.decode_all c = Ret (Ok ([Capture.payload 7 5 [1; 2]], 2%nat))) as Hd by (by vm_compute).
    rewrite Hd in H. destruct H as (b & _ & ->). exists b. f_equal.
Defined.

(** The digest in a manifest is the standard's, of the file. *)
Lemma hash_loop_spec {S} p c fuel : ∀ offset h (s : S) d,
  files d !! p = Some c → (length c - offset < fuel)%nat → (offset ≤ length c)%nat →
  Sha256Correct.holds (take offset c) h → 8 * Z.of_nat (length c) < 2 ^ 64 →
  ∃ x d', CaptureWriter.hash_loop fuel p offset h s d = Ret (x, s, d') ∧ files d' = files d ∧
    match x with Ok h' => Sha256Correct.holds c h' | Err e => e = Os end.
Proof.
  induction fuel as [|fuel IH]; intros offset h s d Hc Hf Ho Hh Hl; [lia|]. cbn [CaptureWriter.hash_loop].
  unfold mbind at 1, io_bind at 1.
  destruct (read_chunk_spec p offset s d c Hc) as (x & d1 & -> & F1 & Hx). cbn [mbind run_bind].
  destruct x as [chunk|e]; [|destruct Hx as [-> _]; by exists (Err Os), d1]. destruct Hx as (n & Hn & ->).
  destruct (Nat.eqb_spec (length (take n (drop offset c))) 0) as [E|E]; rewrite length_take, length_drop in E.
  - exists (Ok h), d1. split; [done|]. split; [done|]. by rewrite take_ge in Hh by lia.
  - unfold mbind at 1, io_bind at 1, pure_run.
    destruct (Sha256Correct.holds_update _ (take n (drop offset c)) h Hh) as (h' & -> & Hh').
    { rewrite length_take, length_drop. lia. }
    cbn [mbind run_bind].
    destruct (IH (offset + length (take n (drop offset c)))%nat h' s d1) as (x & d2 & -> & F2 & Hx).
    + by rewrite F1.
    + rewrite length_take, length_drop. lia.
    + rewrite length_take, length_drop. lia.
    + rewrite length_take, length_drop, <-take_take_drop.
      replace (take (Nat.min n (length c - offset)) (drop offset c)) with (take n (drop offset c)); [done|].
      destruct (Nat.le_ge_cases n (length c - offset)); [f_equal; lia|]. rewrite !take_ge; [done|rewrite length_drop; lia..].
    + done.
    + exists x, d2. split_and!; [done|congruence|done].
Qed.

Lemma hash_file_spec {S} p c (s : S) d : files d !! p = Some c → 8 * Z.of_nat (length c) < 2 ^ 64 →
  ∃ x d', CaptureWriter.hash_file p s d = Ret (x, s, d') ∧ files d' = files d ∧
    match x with Ok t => t = to_hex (sha256_spec c) | Err e => e = Os end.
Proof.
  intros Hc Hl. unfold CaptureWriter.hash_file. unfold mbind at 1, io_bind at 1.
  destruct (syscall_spec s d) as (x & d1 & -> & F1 & _ & Hx). cbn [mbind run_bind].
  destruct x as [a|e]; [|destruct Hx as [-> _]; by exists (Err Os), d1].
  unfold mbind at 1, io_bind at 1, contents. cbn [mbind run_bind]. rewrite F1, Hc. change (default [] (Some c)) with c.
  unfold mbind at 1, io_bind at 1. destruct (hash_loop_spec p c (Datatypes.S (length c)) 0 Sha256.new s d1)
    as (x & d2 & -> & F2 & H2); [by rewrite F1|lia|lia|apply Sha256Correct.holds_new|done|]. cbn [mbind run_bind].
  destruct x as [h|e]; [|exists (Err e), d2; split_and!; [done|congruence|done]]. unfold pure_run.
  rewrite (Sha256Correct.holds_finalize c) by done. cbn [mbind run_bind mret run_ret].
  eexists _, d2. split_and!; [done|congruence|done].
Qed.
