(* ===== verification/CaptureKept.v ===== *)
(** What the capture writer keeps: every file of the archive holds the frames
    of its own window and no others, whatever fails and whenever the process
    dies; every manifest describes the file it seals. *)

From stdpp Require Import gmap strings.
From S2P Require Import Prelude Bytes Text Crc Sha Capture UtcDay Manifest CaptureWriter.
#[local] Open Scope Z_scope.

Implicit Types (r : CaptureRecord) (p q : text) (c tl : list Z) (b : ManifestBuilder) (o : OpenDay) (W : Window).
Implicit Types (frames : list (bool * CaptureRecord)) (fs : gmap text (list Z)) (w : CaptureWriter).

(** * What a call does, if it returns *)

Definition does {S A} (m : io S A) (s : S) (d : Disk) (Q : result A IoError → S → gmap text (list Z) → Prop) : Prop :=
  ∀ x s' d', m s d = Ret (x, s', d') → Q x s' (files d').

Section rules.
Context {S : Type}.
Implicit Types (s : S) (d : Disk).

Lemma does_mono {A} (m : io S A) s d (Q Q' : result A IoError → S → gmap text (list Z) → Prop) :
  does m s d Q → (∀ x s' fs', Q x s' fs' → Q' x s' fs') → does m s d Q'.
Proof. intros H HQ x s' d' E. by apply HQ, H. Qed.
Lemma does_bind {A B} (m : io S A) (f : A → io S B) s d (Q : result B IoError → S → gmap text (list Z) → Prop) :
  does m s d (λ x s' fs', match x with Ok a => ∀ d', files d' = fs' → does (f a) s' d' Q | Err e => Q (Err e) s' fs' end) →
  does (m ≫= f) s d Q.
Proof.
  intros H x s' d' [(a & s1 & d1 & E & E')|(e & E & ->)]%io_bind_inv.
  - by apply (H _ _ _ E d1 eq_refl).
  - by apply (H _ _ _ E).
Qed.
Lemma does_ret {A} (a : A) s d (Q : result A IoError → S → gmap text (list Z) → Prop) : Q (Ok a) s (files d) → does (mret a) s d Q.
Proof. by intros H x s' d' [= <- <- <-]. Qed.
Lemma does_fail {A} (e : IoError) s d (Q : result A IoError → S → gmap text (list Z) → Prop) : Q (Err e) s (files d) → does (fail e) s d Q.
Proof. by intros H x s' d' [= <- <- <-]. Qed.
Lemma does_get s d (Q : result S IoError → S → gmap text (list Z) → Prop) : Q (Ok s) s (files d) → does get s d Q.
Proof. by intros H x s' d' [= <- <- <-]. Qed.
Lemma does_put (t : S) s d (Q : result () IoError → S → gmap text (list Z) → Prop) : Q (Ok ()) t (files d) → does (put t) s d Q.
Proof. by intros H x s' d' [= <- <- <-]. Qed.
Lemma does_pure {A} (m : run A) s d (Q : result A IoError → S → gmap text (list Z) → Prop) :
  (∀ a, m = Ret a → Q (Ok a) s (files d)) → does (pure_run m) s d Q.
Proof. intros H x s' d' E. unfold pure_run in E. apply bind_ret in E as (a & Ea & [= <- <- <-]). by apply H. Qed.
Lemma does_within {T A} (t : T) (m : io T A) (back : T → S → S) s d (Q : result A IoError → S → gmap text (list Z) → Prop) :
  does m t d (λ x t' fs', Q x (back t' s) fs') → does (within t m back) s d Q.
Proof. intros H x s' d' E. unfold within in E. apply bind_ret in E as ([[y t'] d1] & E & [= <- <- <-]). by apply (H _ _ _ E). Qed.

(** A system call changes no file. *)
Lemma does_syscall s d (Q : result Answer IoError → S → gmap text (list Z) → Prop) :
  (∀ x, Q x s (files d)) → does syscall s d Q.
Proof.
  intros H x s' d' E. destruct (syscall_spec s d) as (y & d1 & E1 & F & _). rewrite E1 in E.
  injection E as <- <- <-. by rewrite F.
Qed.
Lemma does_contents p s d (Q : result (option (list Z)) IoError → S → gmap text (list Z) → Prop) :
  Q (Ok (files d !! p)) s (files d) → does (contents p) s d Q.
Proof. by intros H x s' d' [= <- <- <-]. Qed.
Lemma does_set_file p c s d (Q : result () IoError → S → gmap text (list Z) → Prop) :
  Q (Ok ()) s (<[p := c]> (files d)) → does (set_file p c) s d Q.
Proof. by intros H x s' d' [= <- <- <-]. Qed.
Lemma does_forget_file p s d (Q : result () IoError → S → gmap text (list Z) → Prop) :
  Q (Ok ()) s (delete p (files d)) → does (forget_file p) s d Q.
Proof. by intros H x s' d' [= <- <- <-]. Qed.
Lemma does_exists p s d (Q : result bool IoError → S → gmap text (list Z) → Prop) :
  (∀ there : bool, Q (Ok there) s (files d)) → does (exists_ p) s d Q.
Proof. intros H x s' d'. unfold exists_. destruct (answers d) as [|[] ?]; intros [= <- <- <-]; apply H. Qed.

(** All the bytes, or an error and not all of them. *)
Lemma does_append p (data : list Z) s d (Q : result () IoError → S → gmap text (list Z) → Prop) c :
  files d !! p = Some c →
  (Q (Ok ()) s (<[p := c ++ data]> (files d))) →
  (∀ n, n = Nat.min n (length data - 1) → Q (Err Os) s (<[p := c ++ take n data]> (files d))) →
  does (append_bytes p data) s d Q.
Proof.
  intros Hc H1 H2 x s' d'. unfold append_bytes. rewrite Hc. change (default [] (Some c)) with c.
  destruct (answers d) as [|[] ?]; intros [= <- <- <-]; try done. apply H2. lia.
Qed.
End rules.

(** * The buffer *)

(** Whatever happens, what was in the file and what is in the buffer are
    still there, in order. *)
Lemma flush_buf_does bw d c : files d !! bw_path bw = Some c →
  does BufWriter.flush_buf bw d (λ x bw' fs', ∃ c', bw_path bw' = bw_path bw ∧ fs' = <[bw_path bw := c']> (files d) ∧
    c' ++ bw_buffer bw' = c ++ bw_buffer bw ∧ (x = Ok () → bw_buffer bw' = [])).
Proof.
  intros Hc x bw' d' E. unfold BufWriter.flush_buf in E. destruct (bw_buffer bw) as [|y data] eqn:Eb.
  { injection E as <- <- <-. exists c. rewrite Eb, insert_id by done. by rewrite app_nil_r. }
  apply bind_ret in E as ([[z u] d1] & E & [= <- <- <-]). unfold append_bytes in E. rewrite Hc in E.
  change (default [] (Some c)) with c in E. cbn [bw_path bw_buffer].
  destruct (answers d) as [|[|n|n] rest]; injection E as <- _ <-; cbn [files].
  1, 2, 3: eexists; split; [done|]; split; [done|]; split; [|intros _]; rewrite drop_ge by (simpl; lia); try done; by rewrite app_nil_r.
  eexists. split; [done|]. split; [done|]. split; [|done]. by rewrite <-(assoc_L (++)), take_drop.
Qed.

Lemma write_all_does (data : list Z) bw d c : files d !! bw_path bw = Some c → (0 < length data)%nat →
  does (BufWriter.write_all data) bw d (λ x bw' fs', ∃ c' n, bw_path bw' = bw_path bw ∧ fs' = <[bw_path bw := c']> (files d) ∧
    c' ++ bw_buffer bw' = c ++ bw_buffer bw ++ take n data ∧
    match x with Ok _ => n = length data | Err _ => (n < length data)%nat end).
Proof.
  intros Hc Hl. unfold BufWriter.write_all. apply does_bind, does_get. intros d0 F0. destruct (_ <? _)%nat eqn:Efast.
  { apply does_put. exists c, (length data). cbn [bw_path bw_buffer]. rewrite F0, insert_id by done.
    rewrite take_ge by lia. by split_and!. }
  apply does_bind. eapply does_mono with (Q := λ x bw' fs', ∃ c', bw_path bw' = bw_path bw ∧ fs' = <[bw_path bw := c']> (files d) ∧
    c' ++ bw_buffer bw' = c ++ bw_buffer bw ∧ (x = Ok () → (CAPACITY <= length data)%nat → bw_buffer bw' = [])).
  { destruct (Nat.ltb_spec (CAPACITY - length (bw_buffer bw)) (length data)) as [Hs|Hs].
    - eapply does_mono; [apply (flush_buf_does _ _ c); by rewrite F0|]. rewrite F0. intros x bw' fs' (c' & ? & ? & ? & Hok).
      exists c'. split_and!; try done. intros Hx _. by apply Hok.
    - apply does_ret. rewrite F0. exists c. rewrite insert_id by done. split_and!; try done. intros _ Hcap.
      apply nil_length_inv. assert (0 < CAPACITY)%nat by (apply Nat.neq_0_lt_0, Nat.pow_nonzero; lia). lia. }
  intros [[]|e] bw1 fs1 (c1 & Hp1 & -> & Hc1 & Hempty).
  2: { exists c1, 0%nat. split_and!; try done. by rewrite take_0, app_nil_r. }
  intros d1 F1. assert (files d1 !! bw_path bw1 = Some c1) as Hd1 by (by rewrite F1, Hp1, lookup_insert_eq).
  destruct (Nat.leb_spec CAPACITY (length data)) as [Hcap|Hcap].
  - rewrite Hempty in Hc1 by done. rewrite app_nil_r in Hc1. eapply does_append; [rewrite Hp1 in Hd1; exact Hd1| |].
    + exists (c1 ++ data), (length data). rewrite F1, insert_insert_eq, take_ge by lia. rewrite Hempty, app_nil_r, Hc1 by done.
      split_and!; try done. by rewrite <-(assoc_L (++)).
    + intros n Hn. exists (c1 ++ take n data), n. rewrite F1, insert_insert_eq, Hempty, app_nil_r, Hc1 by done.
      split_and!; try done; [by rewrite <-(assoc_L (++))|lia].
  - apply does_bind, does_get. intros d2 F2. apply does_put. exists c1, (length data). cbn [bw_path bw_buffer].
    rewrite F2, F1, take_ge by lia. split_and!; try done. by rewrite !(assoc_L (++)), Hc1.
Qed.

(** * The archive *)

Section archive.
Context (rt : text) (id : StreamId) (sw : Software) (rot : Rotation).

Definition is_window W : Prop := ∃ ts, dated ts ∧ W = window ts rot.
(** A record of this window. *)
Definition filed W r : Prop := record_ok r ∧ dated (Capture.day_ts r) ∧ window (Capture.day_ts r) rot = W.
Definition all_filed W frames : Prop := Forall (λ x, filed W x.2) frames.
(** What a write that was cut short leaves of a frame. *)
Definition torn tl : Prop := ∃ v r (j : nat), record_ok r ∧ (j < length (written v r))%nat ∧ tl = take j (written v r).
(** Whole frames of a window, and perhaps part of one. *)
Definition kept W c : Prop := ∃ frames tl, c = capture_file frames ++ tl ∧ all_filed W frames ∧ torn tl.
(** Whole frames of a window, and their count. *)
Definition whole W c b : Prop := ∃ frames, c = capture_file frames ∧ all_filed W frames ∧ counted frames.*2 b.

Definition archive fs : Prop := ∀ W p c, is_window W → StreamId.file_for id rt W = Ret p → fs !! p = Some c → kept W c.

(** The files of a window, and what leaves the others alone. *)
Definition belongs W q : Prop := StreamId.file_for id rt W = Ret q ∨ StreamId.manifest_for id rt W = Ret q.
Definition only W fs fs' : Prop := ∀ W' q, is_window W' → W' ≠ W → belongs W' q → fs' !! q = fs !! q.

Lemma torn_nil : torn [].
Proof.
  exists true, (Capture.payload 0 0 []), 0%nat. split; [by apply (bool_decide_unpack _); vm_compute|].
  split; [apply written_nonempty|done].
Qed.
Lemma torn_truncated tl : torn tl → Capture.decode tl = Ret (Err Truncated).
Proof. intros ([] & r & j & Hr & Hj & ->); [by apply decode_cut|by apply decode_cut_v1]. Qed.
Lemma torn_take tl k : torn tl → torn (take k tl).
Proof.
  intros (v & r & j & Hr & Hj & ->). exists v, r, (Nat.min k j). split; [done|]. split; [lia|]. by rewrite take_take.
Qed.
Lemma filed_ok W frames : all_filed W frames → Forall (λ x, record_ok x.2) frames.
Proof. intros H. eapply Forall_impl; [exact H|]. by intros [] []. Qed.

Lemma whole_kept W c b : whole W c b → kept W c.
Proof. intros (frames & -> & Hf & _). exists frames, []. rewrite app_nil_r. split_and!; try done. apply torn_nil. Qed.
Lemma kept_nil W : kept W [].
Proof. exists [], []. split_and!; [done|constructor|apply torn_nil]. Qed.

(** A file that lost its end is a file. *)
Lemma kept_take W c k : kept W c → kept W (take k c).
Proof.
  intros (frames & tl & -> & Hf & Ht). revert k. induction Hf as [|[v r] frames Hr Hf IH]; intros k.
  { exists [], (take k tl). split_and!; [done|constructor|by apply torn_take]. }
  change (capture_file ((v, r) :: frames)) with (written v r ++ capture_file frames). rewrite <-(assoc_L (++)).
  destruct (Nat.lt_ge_cases k (length (written v r))) as [Hk|Hk].
  - exists [], (take k (written v r)). rewrite take_app_le by lia. split_and!; [done|constructor|].
    exists v, r, k. split_and!; try done. by destruct Hr.
  - rewrite take_app_ge by lia. destruct (IH (k - length (written v r))%nat) as (frames' & tl' & -> & Hf' & Ht').
    exists ((v, r) :: frames'), tl'. split_and!; [|by constructor|done]. unfold capture_file. cbn. by rewrite <-(assoc_L (++)).
Qed.
Lemma kept_app W c c' : kept W (c ++ c') → kept W c.
Proof. intros H. rewrite <-(take_app_length c c'). by apply kept_take. Qed.
(** Whole frames, and part of the next. *)
Lemma kept_next W c b r n : whole W c b → filed W r → (n < length (image r))%nat → kept W (c ++ take n (image r)).
Proof.
  intros (frames & -> & Hf & _) [Hr _] Hn. exists frames, (take n (image r)). split_and!; [done|done|]. by exists true, r, n.
Qed.
Lemma whole_next W c b r b' : whole W c b → filed W r → Builder.observe r b = Ret b' → whole W (c ++ image r) b'.
Proof.
  intros (frames & -> & Hf & Hc) Hr Hb. exists (frames ++ [(true, r)]). split_and!.
  - unfold capture_file. rewrite fmap_app, concat_app. cbn. by rewrite app_nil_r.
  - by apply Forall_app_2; [|constructor].
  - rewrite fmap_app. by eapply observe_counts.
Qed.

(** ** Files and windows *)

Lemma belongs_unique W W' q : is_window W → is_window W' → belongs W q → belongs W' q → W = W'.
Proof.
  intros (ts & H & ->) (ts' & H' & ->) HW HW'.
  destruct (file_for_spec id rt ts rot H) as (p & Ep & Ip). destruct (manifest_for_spec id rt ts rot H) as (m & Em & Im & Jm).
  destruct (file_for_spec id rt ts' rot H') as (p' & Ep' & Ip'). destruct (manifest_for_spec id rt ts' rot H') as (m' & Em' & Im' & Jm').
  destruct HW as [E|E], HW' as [E'|E'].
  - rewrite Ep in E. injection E as <-. by apply (Ip ts' p).
  - rewrite Em' in E'. injection E' as <-. by destruct (Jm' ts m' H E).
  - rewrite Em in E. injection E as <-. by destruct (Jm ts' m H' E').
  - rewrite Em in E. injection E as <-. by apply (Im ts' m).
Qed.
Lemma manifest_not_file W W' m p : is_window W → is_window W' → StreamId.manifest_for id rt W = Ret m →
  StreamId.file_for id rt W' = Ret p → m ≠ p.
Proof.
  intros (ts & H & ->) (ts' & H' & ->) Em Ep. destruct (manifest_for_spec id rt ts rot H) as (m' & Em' & _ & Jm).
  rewrite Em in Em'. injection Em' as <-. by apply (Jm ts').
Qed.

Lemma only_refl W fs : only W fs fs.
Proof. by intros W' q. Qed.
Lemma only_trans W fs1 fs2 fs3 : only W fs1 fs2 → only W fs2 fs3 → only W fs1 fs3.
Proof. intros H1 H2 W' q HW Hne Hq. rewrite (H2 W' q) by done. by apply (H1 W' q). Qed.
Lemma only_insert W q c fs : is_window W → belongs W q → only W fs (<[q := c]> fs).
Proof.
  intros HW Hq W' q' HW' Hne Hq'. apply lookup_insert_ne. intros <-. apply Hne. symmetry. by apply (belongs_unique W W' q).
Qed.
Lemma only_delete W q fs : is_window W → belongs W q → only W fs (delete q fs).
Proof.
  intros HW Hq W' q' HW' Hne Hq'. apply lookup_delete_ne. intros <-. apply Hne. symmetry. by apply (belongs_unique W W' q).
Qed.

Lemma archive_file W p c fs : archive fs → is_window W → StreamId.file_for id rt W = Ret p → kept W c → archive (<[p := c]> fs).
Proof.
  intros Ha HW Hp Hc W' p' c' HW' Hp' E. destruct (decide (p' = p)) as [->|Hne].
  - rewrite lookup_insert_eq in E. injection E as <-.
    assert (W' = W) as -> by (apply (belongs_unique W' W p); try done; by left). done.
  - rewrite lookup_insert_ne in E by done. by apply (Ha W' p').
Qed.
Lemma archive_other W m c fs : archive fs → is_window W → StreamId.manifest_for id rt W = Ret m → archive (<[m := c]> fs).
Proof.
  intros Ha HW Hm W' p' c' HW' Hp' E. rewrite lookup_insert_ne in E by by apply (manifest_not_file W W').
  by apply (Ha W' p').
Qed.
Lemma archive_forget W m fs : archive fs → is_window W → StreamId.manifest_for id rt W = Ret m → archive (delete m fs).
Proof.
  intros Ha HW Hm W' p' c' HW' Hp' E. rewrite lookup_delete_ne in E by by apply (manifest_not_file W W').
  by apply (Ha W' p').
Qed.

(** * A day that is open *)

Record placed o : Prop := {
  pl_window : is_window (od_window o);
  pl_path : StreamId.file_for id rt (od_window o) = Ret (od_path o);
  pl_file : bw_path (od_file o) = od_path o;
}.
(** In the file and the buffer, whole frames and their count. *)
Definition day_whole fs o : Prop :=
  placed o ∧ ∃ c, fs !! od_path o = Some c ∧ whole (od_window o) (c ++ bw_buffer (od_file o)) (od_builder o).
(** After a failure, perhaps part of a frame at the end. *)
Definition day_kept fs o : Prop :=
  placed o ∧ ∃ c, fs !! od_path o = Some c ∧ kept (od_window o) (c ++ bw_buffer (od_file o)).

Lemma day_whole_kept fs o : day_whole fs o → day_kept fs o.
Proof. intros [Hp (c & Hc & Hw)]. split; [done|]. exists c. split; [done|]. by eapply whole_kept. Qed.
Lemma day_same fs fs' o W : placed o → is_window (od_window o) → od_window o ≠ W → only W fs fs' →
  fs' !! od_path o = fs !! od_path o.
Proof. intros Hp Hw Hne Ho. apply (Ho (od_window o)); try done. left. apply Hp. Qed.
Lemma day_whole_only fs fs' o W : day_whole fs o → od_window o ≠ W → only W fs fs' → day_whole fs' o.
Proof.
  intros [Hp (c & Hc & Hw)] Hne Ho. split; [done|]. exists c. split; [|done].
  rewrite (day_same fs fs' o W); try done. apply Hp.
Qed.
Lemma day_kept_only fs fs' o W : day_kept fs o → od_window o ≠ W → only W fs fs' → day_kept fs' o.
Proof.
  intros [Hp (c & Hc & Hw)] Hne Ho. split; [done|]. exists c. split; [|done].
  rewrite (day_same fs fs' o W); try done. apply Hp.
Qed.

(** What one day's operation leaves: the same day, and the other files. *)
Definition moved fs o o' fs' : Prop :=
  od_window o' = od_window o ∧ only (od_window o) fs fs' ∧ (archive fs → archive fs').
Definition day_outcome {A} fs o (x : result A IoError) o' fs' : Prop :=
  moved fs o o' fs' ∧ match x with Ok _ => day_whole fs' o' | Err _ => day_kept fs' o' end.

(** New content of a day's file. *)
Lemma day_moved fs o c' f' : placed o → bw_path f' = od_path o → kept (od_window o) (c' ++ bw_buffer f') →
  moved fs o (set_file_of f' o) (<[od_path o := c']> fs) ∧ day_kept (<[od_path o := c']> fs) (set_file_of f' o).
Proof.
  intros [Hw Hp Hf] Hf' Hk. split; [split; [done|]; split|].
  - apply only_insert; [done|by left].
  - intros Ha. eapply archive_file; try done. by eapply kept_app.
  - split; [by split|]. exists c'. cbn [set_file_of od_path od_window od_file]. rewrite lookup_insert_eq. done.
Qed.

Lemma flush_day_does o d : day_whole (files d) o →
  does (o ← get; within (od_file o) BufWriter.flush_buf set_file_of) o d (λ x o' fs',
    day_outcome (files d) o x o' fs' ∧ (x = Ok () → bw_buffer (od_file o') = []) ∧
    od_builder o' = od_builder o ∧ od_path o' = od_path o).
Proof.
  intros [Hp (c & Hc & Hw)]. apply does_bind, does_get. intros d0 F0. apply does_within.
  eapply does_mono; [apply (flush_buf_does _ _ c); by rewrite F0, (pl_file o Hp)|]. rewrite F0, (pl_file o Hp).
  intros x f' fs' (c' & Hf' & -> & Hcc & Hempty).
  destruct (day_moved (files d) o c' f') as [Hm Hk]; [done|by rewrite Hf'| |].
  { rewrite Hcc. by eapply whole_kept. }
  split; [split; [done|]|by split]. destruct x; [|done]. destruct Hk as [Hpl _]. split; [done|]. exists c'.
  cbn [set_file_of od_path od_window od_file od_builder]. by rewrite lookup_insert_eq, Hcc.
Qed.

Lemma put_record_does r o d : day_whole (files d) o → filed (od_window o) r →
  does (CaptureWriter.put_record r) o d (λ x o' fs', day_outcome (files d) o x o' fs').
Proof.
  intros [Hp (c & Hc & Hw)] Hr. pose proof Hr as [Hok _]. unfold CaptureWriter.put_record.
  apply does_bind, does_pure. intros buffer Eb. rewrite encode_writes in Eb by done. injection Eb as <-.
  intros d0 F0. apply does_bind, does_get. intros d1 F1. apply does_bind, does_within.
  eapply does_mono; [apply (write_all_does (image r) (od_file o) d1 c)|].
  { by rewrite F1, F0, (pl_file o Hp). }
  { rewrite image_length. unfold Capture.encoded_len, LEN_PREFIX. lia. }
  rewrite F1, F0, (pl_file o Hp). intros x f' fs' (c' & n & Hf' & -> & Hcc & Hn).
  rewrite (assoc_L (++)) in Hcc. destruct x as [[]|e].
  - subst n. rewrite take_ge in Hcc by lia. intros d2 F2. apply does_bind, does_get. intros d3 F3.
    apply does_bind, does_pure. intros b' Hb'. cbn [set_file_of od_builder] in Hb'. intros d4 F4. apply does_put.
    rewrite F4, F3, F2. destruct (day_moved (files d) o c' f') as [Hm Hk]; [done|by rewrite Hf'| |].
    { rewrite Hcc. eapply whole_kept, whole_next; done. }
    split; [done|]. destruct Hk as [Hpl _]. split; [by destruct Hpl|]. exists c'.
    cbn [set_builder set_file_of od_path od_window od_file od_builder]. rewrite lookup_insert_eq. split; [done|].
    rewrite Hcc. by eapply whole_next.
  - destruct (day_moved (files d) o c' f') as [Hm Hk]; [done|by rewrite Hf'| |done].
    rewrite Hcc. by eapply kept_next.
Qed.

(** * Sealing *)

(** What a manifest says is so: of the file, of its frames, of its bytes; and
    the manifest is on the disk beside it. *)
Definition describes sd fs : Prop :=
  ∃ frames json,
    StreamId.file_for id rt (sd_window sd) = Ret (sd_path sd) ∧ fs !! sd_path sd = Some (capture_file frames) ∧
    all_filed (sd_window sd) frames ∧
    (let m := sd_manifest sd in
     m_window m = sd_window sd ∧ m_records m = Z.of_nat (length frames) ∧
     m_bytes_raw m = zsum ((λ r, Z.of_nat (Capture.encoded_len r)) <$> frames.*2) ∧
     (Forall (λ x, x.1 = true) frames → m_bytes_raw m = Z.of_nat (length (capture_file frames))) ∧
     exch_ts_range m = Builder.zip_ends (head (exchanged frames.*2)) (last (exchanged frames.*2)) ∧
     local_ts_range m = Builder.zip_ends (head (local_ts <$> frames.*2)) (last (local_ts <$> frames.*2)) ∧
     (8 * Z.of_nat (length (capture_file frames)) < 2 ^ 64 → sha256_raw m = to_hex (sha256_spec (capture_file frames)))) ∧
    to_json (sd_manifest sd) = Ret json ∧
    StreamId.manifest_for id rt (sd_window sd) = Ret (sd_manifest_path sd) ∧ fs !! sd_manifest_path sd = Some json.

Lemma describes_only sd fs fs' W : describes sd fs → is_window (sd_window sd) → sd_window sd ≠ W → only W fs fs' →
  describes sd fs'.
Proof.
  intros (frames & json & Hp & Hc & Hf & Hm & Hj & Hmp & Hmc) Hw Hne Ho. exists frames, json.
  rewrite (Ho (sd_window sd) (sd_path sd) Hw Hne (or_introl Hp)).
  rewrite (Ho (sd_window sd) (sd_manifest_path sd) Hw Hne (or_intror Hmp)).
  exact (conj Hp (conj Hc (conj Hf (conj Hm (conj Hj (conj Hmp Hmc)))))).
Qed.

Lemma frames_bytes frames : Forall (λ x, x.1 = true) frames →
  zsum ((λ r, Z.of_nat (Capture.encoded_len r)) <$> frames.*2) = Z.of_nat (length (capture_file frames)).
Proof.
  induction 1 as [|[v r] frames Hv _ IH]; [done|]. cbn in Hv. subst v.
  change (capture_file ((true, r) :: frames)) with (image r ++ capture_file frames).
  rewrite length_app, image_length. cbn [fmap list_fmap zsum foldr snd]. cbn [fmap list_fmap] in IH. unfold zsum in IH. lia.
Qed.

Lemma hash_file_does {S} p (s : S) d : does (CaptureWriter.hash_file p) s d (λ x s' fs', s' = s ∧ fs' = files d ∧
  match x with Ok t => ∀ c, files d !! p = Some c → 8 * Z.of_nat (length c) < 2 ^ 64 → t = to_hex (sha256_spec c) | Err _ => True end).
Proof.
  assert (∀ fuel offset h (d0 : Disk), does (CaptureWriter.hash_loop fuel p offset h) s d0 (λ _ s' fs', s' = s ∧ fs' = files d0)) as Hloop.
  { intros fuel. induction fuel as [|fuel IH]; intros offset h d0; [by intros x s' d'|]. cbn [CaptureWriter.hash_loop].
    apply does_bind. unfold read_chunk. apply does_bind, does_syscall. intros [a|e]; [|done]. intros d1 F1.
    apply does_bind, does_contents. intros d2 F2. apply does_ret. intros d3 F3.
    destruct (_ =? 0)%nat; [apply does_ret; by rewrite F3, F2, F1|]. apply does_bind, does_pure. intros h' Hh' d4 F4.
    eapply does_mono; [apply IH|]. intros ? ? ?. by rewrite F4, F3, F2, F1. }
  intros x s' d' E. assert (s' = s ∧ files d' = files d) as [-> F].
  { revert x s' d' E. change (does (CaptureWriter.hash_file p) s d (λ _ s' fs', s' = s ∧ fs' = files d)).
    unfold CaptureWriter.hash_file. apply does_bind, does_syscall. intros [a|e]; [|done]. intros d1 F1.
    apply does_bind, does_contents. intros d2 F2. apply does_bind. eapply does_mono; [apply Hloop|].
    rewrite F2, F1. intros [h|e] s' fs' [-> ->]; [|done]. intros d3 F3. apply does_pure. by rewrite F3. }
  split; [done|]. split; [done|]. destruct x as [t|e]; [|done]. intros c Hc Hl.
  destruct (hash_file_spec p c s d Hc Hl) as (x & d1 & E1 & _ & Hx). rewrite E1 in E. by injection E as -> _.
Qed.

(** The writer of this archive. *)
Definition conf w : Prop := root w = rt ∧ stream w = id ∧ software w = sw ∧ rotation w = rot ∧ window_of w = None.

Lemma seal_day_does o w d : conf w → archive (files d) → day_whole (files d) o →
  does (CaptureWriter.seal_day o) w d (λ x w' fs', w' = w ∧ only (od_window o) (files d) fs' ∧ archive fs' ∧
    match x with Ok sd => sd_window sd = od_window o ∧ describes sd fs' | Err _ => True end).
Proof.
  intros (Hr & Hs & _) Ha [Hp (c & Hc & frames & Hwhole & Hf & Hcount)] x w' d' E. unfold CaptureWriter.seal_day in E.
  apply bind_ret in E as ([[y f1] d1] & E1 & E).
  assert (files d !! bw_path (od_file o) = Some c) as Hc' by (by rewrite (pl_file o Hp)).
  destruct (flush_buf_does _ _ _ Hc' _ _ _ E1) as (c1 & Hf1 & F1 & Hcc & Hempty). rewrite (pl_file o Hp) in Hf1, F1.
  pose proof Hp as [Hw Hpath Hfile].
  assert (kept (od_window o) (c1 ++ bw_buffer f1)) as Hkept1.
  { rewrite Hcc. eapply whole_kept. by exists frames. }
  assert (archive (files d1)) as Ha1 by (rewrite F1; eapply archive_file; try done; by eapply kept_app).
  assert (only (od_window o) (files d) (files d1)) as Ho1 by (rewrite F1; apply only_insert; [done|by left]).
  destruct y as [[]|e].
  2: { apply bind_ret in E as (d2 & E2 & [= <- <- <-]). unfold CaptureWriter.drop_day in E2.
    apply bind_ret in E2 as ([[z f2] d3] & E2 & [= <-]). cbn [od_file set_file_of] in E2.
    assert (files d1 !! bw_path f1 = Some c1) as Hc1 by (by rewrite F1, Hf1, lookup_insert_eq).
    destruct (flush_buf_does _ _ _ Hc1 _ _ _ E2) as (c2 & _ & F2 & Hcc2 & _). rewrite Hf1 in F2. split; [done|].
    split; [eapply only_trans; [done|rewrite F2; apply only_insert; [done|by left]]|]. split; [|done].
    rewrite F2. eapply archive_file; try done. eapply kept_app. by rewrite Hcc2. }
  rewrite Hempty, app_nil_r in Hcc by done. revert x w' d' E.
  match goal with |- context [?m w d1 = _] => change (does m w d1 (λ x w' fs', w' = w ∧ only (od_window o) (files d) fs' ∧ archive fs' ∧
    match x with Ok sd => sd_window sd = od_window o ∧ describes sd fs' | Err _ => True end)) end.
  apply does_bind, does_syscall. intros [a|e]; [|done]. intros d2 F2.
  apply does_bind. eapply does_mono; [apply hash_file_does|]. intros [digest|e] w1 fs1 (-> & -> & Hdig); [|by rewrite F2].
  intros d3 F3. apply does_bind, does_pure. intros mpath Hm d4 F4. apply does_bind, does_pure. intros json Hj d5 F5.
  assert (files d5 = files d1) as F51 by congruence.
  assert (StreamId.manifest_for id rt (od_window o) = Ret mpath) as Hm' by (by rewrite <-Hs, <-Hr).
  assert (mpath ≠ od_path o) as Hne by by apply (manifest_not_file (od_window o) (od_window o)).
  assert (∀ j : list Z, only (od_window o) (files d) (<[mpath := j]> (files d1)) ∧ archive (<[mpath := j]> (files d1))) as Hman.
  { intros j. split; [eapply only_trans; [done|apply only_insert; [done|by right]]|]. by eapply archive_other. }
  apply does_bind. unfold fs_write. apply does_bind, does_syscall. intros [a6|e]; [|by rewrite F51]. intros d6 F6.
  apply does_bind, does_set_file. rewrite F6, F51. intros d7 F7. eapply does_append; [rewrite F7; apply lookup_insert_eq| |].
  - rewrite F7, insert_insert_eq. cbn [app]. intros d8 F8. apply does_ret. rewrite F8. split; [done|].
    destruct (Hman json) as [Hon Har]. split; [done|]. split; [done|]. split; [done|].
    assert (files d1 !! od_path o = Some (capture_file frames)) as Hfile1.
    { rewrite F1, lookup_insert_eq. by rewrite Hcc, Hwhole. }
    exists frames, json. cbn [sd_window sd_path sd_manifest sd_manifest_path].
    rewrite lookup_insert_ne, lookup_insert_eq by done.
    assert (8 * Z.of_nat (length (capture_file frames)) < 2 ^ 64 → digest = to_hex (sha256_spec (capture_file frames))) as Hd.
    { apply Hdig. by rewrite F2. }
    clear - Hpath Hfile1 Hf Hcount Hd Hj Hm'. destruct Hcount as [C1 C2 C3 C4 C5 C6].
    split; [done|]. split; [done|]. split; [done|]. split; [|by split_and!].
    unfold Builder.build_hashed. cbn [m_window m_records m_bytes_raw exch_ts_range local_ts_range sha256_raw].
    rewrite C1, C2, C3, C4, C5, C6. split_and!; try done; [by rewrite length_fmap|by apply frames_bytes].
  - intros n _. rewrite F7, insert_insert_eq. destruct (Hman (take n json)) as [Hon Har]. cbn [app]. done.
Qed.

(** * The writer *)

Record state_ok (day : gmap text (list Z) → OpenDay → Prop) w fs : Prop := {
  so_conf : conf w;
  so_archive : archive fs;
  so_open : ∀ o, open w = Some o → day fs o;
  so_previous : ∀ o, previous w = Some o → day fs o;
  so_apart : ∀ o o', open w = Some o → previous w = Some o' → od_window o ≠ od_window o';
}.
(** Between operations, and after one that failed. *)
Definition sound := state_ok day_whole.
Definition settled := state_ok day_kept.
Definition kept_up {A} (x : result A IoError) w fs : Prop := match x with Ok _ => sound w fs | Err _ => settled w fs end.

Lemma sound_settled w fs : sound w fs → settled w fs.
Proof. intros [C A O P D]. split; try done; intros; by apply day_whole_kept; auto. Qed.
Lemma kept_up_settled {A} (x : result A IoError) w fs : kept_up x w fs → settled w fs.
Proof. destruct x; [apply sound_settled|done]. Qed.

(** A state whose other files did not change. *)
Lemma sound_open w fs fs' o o' : sound w fs → open w = Some o → moved fs o o' fs' → day_whole fs' o' →
  sound (set_open (Some o') w) fs'.
Proof.
  intros [C A O P D] Ho (Hw & Hon & Har) Hd. split; cbn [open previous set_open]; [done|auto|by intros ? [= <-]| |].
  - intros p Hp. eapply day_whole_only; [by apply P| |done]. intros E. by apply (D o p).
  - intros ? p [= <-] Hp. rewrite Hw. by apply D.
Qed.
Lemma settled_open w fs fs' o o' : sound w fs → open w = Some o → moved fs o o' fs' → day_kept fs' o' →
  settled (set_open (Some o') w) fs'.
Proof.
  intros [C A O P D] Ho (Hw & Hon & Har) Hd. split; cbn [open previous set_open]; [done|auto|by intros ? [= <-]| |].
  - intros p Hp. eapply day_kept_only; [by apply day_whole_kept, P| |done]. intros E. by apply (D o p).
  - intros ? p [= <-] Hp. rewrite Hw. by apply D.
Qed.
Lemma sound_previous w fs fs' o o' : sound w fs → previous w = Some o → moved fs o o' fs' → day_whole fs' o' →
  sound (set_previous (Some o') w) fs'.
Proof.
  intros [C A O P D] Ho (Hw & Hon & Har) Hd. split; cbn [open previous set_previous]; [done|auto| |by intros ? [= <-]|].
  - intros p Hp. eapply day_whole_only; [by apply O| |done]. by apply D.
  - intros p ? Hp [= <-]. rewrite Hw. by apply D.
Qed.
Lemma settled_previous w fs fs' o o' : sound w fs → previous w = Some o → moved fs o o' fs' → day_kept fs' o' →
  settled (set_previous (Some o') w) fs'.
Proof.
  intros [C A O P D] Ho (Hw & Hon & Har) Hd. split; cbn [open previous set_previous]; [done|auto| |by intros ? [= <-]|].
  - intros p Hp. eapply day_kept_only; [by apply day_whole_kept, O| |done]. by apply D.
  - intros p ? Hp [= <-]. rewrite Hw. by apply D.
Qed.

Lemma on_open_does {A} (m : io OpenDay A) w o d : sound w (files d) → open w = Some o →
  does m o d (λ x o' fs', day_outcome (files d) o x o' fs') →
  does (on_open o m) w d (λ x w' fs', kept_up x w' fs' ∧ only (od_window o) (files d) fs' ∧
    ∃ o', w' = set_open (Some o') w ∧ od_window o' = od_window o).
Proof.
  intros Hs Ho Hm. apply does_within. eapply does_mono; [exact Hm|]. intros x o' fs' [Hmv Hd].
  split; [|split; [apply Hmv|exists o'; by destruct Hmv]].
  destruct x; [by eapply sound_open|by eapply settled_open].
Qed.
Lemma on_previous_does {A} (m : io OpenDay A) w o d : sound w (files d) → previous w = Some o →
  does m o d (λ x o' fs', day_outcome (files d) o x o' fs') →
  does (on_previous o m) w d (λ x w' fs', kept_up x w' fs' ∧ only (od_window o) (files d) fs' ∧
    ∃ o', w' = set_previous (Some o') w ∧ od_window o' = od_window o).
Proof.
  intros Hs Ho Hm. apply does_within. eapply does_mono; [exact Hm|]. intros x o' fs' [Hmv Hd].
  split; [|split; [apply Hmv|exists o'; by destruct Hmv]].
  destruct x; [by eapply sound_previous|by eapply settled_previous].
Qed.

Definition open_at W w : Prop := ∀ o, open w = Some o → od_window o = W.
Definition previous_not W w : Prop := ∀ o, previous w = Some o → od_window o ≠ W.

Lemma seal_previous_does w d : sound w (files d) →
  does CaptureWriter.seal_previous w d (λ x w' fs', kept_up x w' fs' ∧ open w' = open w ∧ previous w' = None ∧
    match x with
    | Ok (Some sd) => describes sd fs' ∧ ∃ o, previous w = Some o ∧ sd_window sd = od_window o
    | Ok None => previous w = None ∧ fs' = files d
    | Err _ => True
    end).
Proof.
  intros Hs. pose proof Hs as [C A O P D]. unfold CaptureWriter.seal_previous. apply does_bind, does_get. intros d0 F0.
  destruct (previous w) as [o|] eqn:Ho.
  - apply does_bind, does_put. intros d1 F1. apply does_bind. assert (files d1 = files d) as F by congruence.
    eapply does_mono; [apply seal_day_does; [exact C|by rewrite F|rewrite F; by apply P]|]. rewrite F.
    intros x w' fs' (-> & Hon & Har & Hx). destruct x as [sd|e].
    + destruct Hx as [Hsd Hde]. intros d2 F2. apply does_ret. rewrite F2. split.
      { split; cbn [open previous set_previous]; try done. intros o' Ho'. eapply day_whole_only; [by apply O| |done]. by apply D. }
      split; [done|]. split; [done|]. split; [done|]. by exists o.
    + split; [|done]. split; cbn [open previous set_previous]; try done. intros o' Ho'.
      eapply day_kept_only; [by apply day_whole_kept, O| |done]. by apply D.
  - apply does_ret. rewrite F0. by split_and!.
Qed.

Lemma rotate_does W w d : sound w (files d) → previous_not W w →
  does (CaptureWriter.rotate W) w d (λ x w' fs', kept_up x w' fs' ∧
    match x with
    | Ok sealed => open_at W w' ∧ previous_not W w' ∧
        match sealed with
        | Some sd => describes sd fs' ∧ is_window (sd_window sd) ∧ sd_window sd ≠ W
        | None => fs' = files d
        end
    | Err _ => True
    end).
Proof.
  intros Hs Hprev. unfold CaptureWriter.rotate. apply does_bind, does_get. intros d0 F0.
  destruct (open w) as [o|] eqn:Ho.
  2: { apply does_ret. rewrite F0. split; [done|]. split; [intros o'; congruence|]. done. }
  case_bool_decide as Hw.
  { apply does_ret. rewrite F0. split; [done|]. split; [intros o' ?; by simplify_eq|]. done. }
  destruct (Window.lt W (od_window o)); [apply does_fail; rewrite F0; split; [by apply sound_settled|done]|].
  apply does_bind. eapply does_mono; [apply seal_previous_does; by rewrite F0|]. rewrite F0.
  intros x w1 fs1 (Hk & Ho1 & Hp1 & Hx). destruct x as [sealed|e]; [|done]. intros d1 F1.
  apply does_bind, does_get. intros d2 F2. apply does_bind, does_put. intros d3 F3. apply does_ret.
  assert (files d3 = fs1) as -> by congruence. destruct Hk as [C A O P D]. rewrite Ho in Ho1.
  split; [split; cbn [open previous set_open set_previous]; try done; naive_solver|].
  split; [done|]. split; [intros o' Ho'; cbn [previous set_open set_previous] in Ho'; rewrite Ho1 in Ho'; by injection Ho' as <-|].
  destruct sealed as [sd|]; [|by destruct Hx]. destruct Hx as (Hd & o' & Ho' & ->). split; [done|].
  split; [|by apply Hprev]. destruct Hs as [_ _ _ P' _]. by apply P'.
Qed.

Lemma scan_existing_does {S} p b0 (s : S) d :
  does (CaptureWriter.scan_existing p b0) s d (λ x s' fs', s' = s ∧ fs' = files d ∧
    match x with
    | Ok (None, b) => b = b0 ∧ default [] (files d !! p) = []
    | Ok (Some (clean, len), b) => ∃ c, files d !! p = Some c ∧ len = length c ∧ scanned_as c b0 (Ok (clean, b)) True
    | Err _ => True
    end).
Proof.
  intros x s' d' E. destruct (scan_existing_spec p b0 s d) as [(c & _ & _ & Hn)|(y & d1 & E1 & F & Hy)]; [by destruct (Hn _ E)|].
  rewrite E in E1. injection E1 as -> -> ->. split; [done|]. split; [done|].
  destruct y as [[[[clean len]|] b]|e]; [|done..]. destruct Hy as (c & Hc & Hl & _ & Hs). by exists c.
Qed.

(** What a scan finds of a kept file is its whole frames. *)
Lemma scanned_kept W c clean b : kept W c → scanned_as c Builder.new (Ok (clean, b)) True →
  (clean ≤ length c)%nat ∧ whole W (take clean c) b.
Proof.
  intros (frames & tl & -> & Hf & Ht) (rs & tl' & H & He & -> & Hb).
  destruct (reads_unique _ _ _ _ _ _ _ (reads_file frames tl (filed_ok _ _ Hf)) (torn_truncated tl Ht) H He) as [<- <-].
  rewrite length_app. split; [lia|]. replace (length (capture_file frames) + length tl - length tl)%nat with (length (capture_file frames)) by lia.
  rewrite take_app_length. exists frames. split_and!; try done.
  exact (observe_all_counts frames.*2 Builder.new b [] counted_new Hb).
Qed.

Lemma open_window_does W w d : sound w (files d) → open w = None → is_window W → previous_not W w →
  does (CaptureWriter.open_window W) w d (λ x w' fs', kept_up x w' fs' ∧ only W (files d) fs' ∧
    match x with
    | Ok _ => previous w' = previous w ∧ ∃ o, open w' = Some o ∧ od_window o = W
    | Err _ => True
    end).
Proof.
  intros Hs Ho HW Hprev. pose proof Hs as [C A O P D]. pose proof C as (Cr & Ci & Cs & Cro & Cw).
  assert (∀ fs', only W (files d) fs' → archive fs' → sound w fs') as Hstay.
  { intros fs' Hon Har. split; try done; intros o Ho'; [congruence|]. eapply day_whole_only; [by apply P| |done]. by apply Hprev. }
  assert (∀ d', files d' = files d → settled w (files d')) as Hsame by (intros d' ->; by apply sound_settled).
  unfold CaptureWriter.open_window. apply does_bind, does_get. intros d0 F0. apply does_bind, does_pure. intros path Ep d1 F1.
  rewrite Ci, Cr in Ep. assert (files d1 = files d) as F by congruence.
  apply does_bind, does_syscall. intros [a|e]; [|rewrite F; split_and!; [by apply sound_settled|apply only_refl|done]]. intros d2 F2.
  apply does_bind. eapply does_mono; [apply scan_existing_does|]. rewrite F2, F.
  intros [[found b]|e] w1 fs1 (-> & -> & Hx); [|split_and!; [by apply sound_settled|apply only_refl|done]].
  intros d3 F3.
  (* the torn tail is cut off *)
  apply does_bind. eapply does_mono with (Q := λ x w' fs', w' = w ∧ only W (files d) fs' ∧ archive fs' ∧
    match x with Ok _ => whole W (default [] (fs' !! path)) b | Err _ => True end).
  { destruct found as [[clean len]|].
    - destruct Hx as (c & Hc & -> & Hscan). destruct (scanned_kept W c clean b) as [Hcl Hwhole]; [by apply (A W path)|done|].
      destruct (Nat.ltb_spec clean (length c)).
      + apply does_bind, does_syscall. rewrite F3. intros [a3|e]; [|split_and!; try done; apply only_refl]. intros d4 F4.
        apply does_bind, does_syscall. rewrite F4. intros [a4|e]; [|split_and!; try done; apply only_refl]. intros d5 F5.
        apply does_bind, does_contents. intros d6 F6. apply does_bind, does_set_file. rewrite F6, F5. intros d7 F7. rewrite Hc in F7.
        change (default [] (Some c)) with c in F7.
        assert (only W (files d) (files d7) ∧ archive (files d7)) as [Hon Har].
        { rewrite F7. split; [apply only_insert; [done|by left]|]. eapply archive_file; try done. by eapply whole_kept. }
        apply does_bind, does_syscall. intros [a7|e]; [|done]. intros d8 F8. apply does_ret. rewrite F8. split_and!; try done.
        rewrite F7, lookup_insert_eq. done.
      + apply does_ret. rewrite F3, Hc. split_and!; try done. change (default [] (Some c)) with c.
        by rewrite take_ge in Hwhole by lia.
    - destruct Hx as [-> Hx]. apply does_ret. rewrite F3, Hx. split_and!; try done.
      exists []. split_and!; [done|constructor|apply counted_new]. }
  intros x w2 fs2 (-> & Hon2 & Har2 & Hx2). destruct x as [u|e]; [|split_and!; try done; by apply sound_settled, Hstay].
  intros d4 F4. apply does_bind, does_pure. intros mpath Em d5 F5. rewrite Ci, Cr in Em.
  (* the old manifest goes *)
  apply does_bind, does_exists. intros there d6 F6. apply does_bind.
  eapply does_mono with (Q := λ x w' fs', w' = w ∧ only W (files d) fs' ∧ archive fs' ∧
    match x with Ok _ => whole W (default [] (fs' !! path)) b | Err _ => True end).
  { assert (files d6 = fs2) as F6' by congruence. destruct there.
    - apply does_bind, does_syscall. rewrite F6'. intros [a6|e]; [|done]. intros d7 F7. apply does_forget_file. rewrite F7.
      split; [done|]. split; [eapply only_trans; [done|apply only_delete; [done|by right]]|]. split; [by eapply archive_forget|].
      rewrite lookup_delete_ne; [done|]. by apply (manifest_not_file W W).
    - apply does_ret. by rewrite F6'. }
  intros x w3 fs3 (-> & Hon3 & Har3 & Hx3). destruct x as [u'|e]; [|split_and!; try done; by apply sound_settled, Hstay].
  intros d7 F7. apply does_bind, does_syscall. rewrite F7. intros [a7|e]; [|split_and!; try done; by apply sound_settled, Hstay].
  intros d8 F8. apply does_bind, does_contents. intros d9 F9. rewrite F8. apply does_bind.
  eapply does_mono with (Q := λ x w' fs', w' = w ∧ only W (files d) fs' ∧ archive fs' ∧
    match x with Ok _ => ∃ c, fs' !! path = Some c ∧ whole W c b | Err _ => True end).
  { destruct (fs3 !! path) as [c|] eqn:Ec.
    - apply does_ret. rewrite F9, F8. split_and!; try done. by exists c.
    - apply does_set_file. rewrite F9, F8. split; [done|].
      split; [eapply only_trans; [done|apply only_insert; [done|by left]]|].
      split; [eapply archive_file; try done; apply kept_nil|]. exists []. by rewrite lookup_insert_eq. }
  intros x w4 fs4 (-> & Hon4 & Har4 & Hx4). destruct x as [u''|e]; [|split_and!; try done; by apply sound_settled, Hstay].
  intros d10 F10. apply does_bind, does_get. intros d11 F11. apply does_put. rewrite F11, F10.
  destruct Hx4 as (c & Hc & Hwhole). split; [|split; [done|split; [done|by eexists]]].
  destruct (Hstay fs4 Hon4 Har4) as [_ _ _ P4 _]. split; cbn [open previous set_open]; try done.
  - intros ? [= <-]. split; [by split|]. exists c. cbn [od_path od_window od_file od_builder bw_buffer]. by rewrite app_nil_r.
  - intros ? o' [= <-] Ho'. cbn [od_window]. intros E. by apply (Hprev o').
Qed.

(** * The operations *)

(** What a call that files a record in [W] leaves: a sound writer, or after a
    failure one whose files are kept; a day it sealed is another's, and its
    manifest describes it; and once [W] is the open window only [W] changes. *)
Definition filing {A} W w fs (sealed : A → option SealedDay) (x : result A IoError) w' fs' : Prop :=
  kept_up x w' fs' ∧
  match x with
  | Ok a =>
      match sealed a with
      | Some sd => describes sd fs' ∧ is_window (sd_window sd) ∧ sd_window sd ≠ W ∧ open_at W w'
      | None => open_at W w → only W fs fs' ∧ open_at W w'
      end
  | Err _ => True
  end.

Lemma append_open_does r W w d : sound w (files d) → filed W r → is_window W → previous_not W w →
  does (CaptureWriter.append_open r W) w d (filing W w (files d) (λ s, s)).
Proof.
  intros Hs Hr HW Hprev. unfold CaptureWriter.append_open. apply does_bind.
  eapply does_mono; [by apply rotate_does|]. intros x w1 fs1 [Hk1 Hx1]. destruct x as [sealed|e]; [|done].
  destruct Hx1 as (Hat & Hprev1 & Hsealed). intros d1 F1. apply does_bind, does_get. intros d2 F2.
  assert (files d2 = fs1) as F by congruence. apply does_bind.
  eapply does_mono with (Q := λ x w' fs', kept_up x w' fs' ∧ only W fs1 fs' ∧
    match x with Ok _ => previous_not W w' ∧ ∃ o, open w' = Some o ∧ od_window o = W | Err _ => True end).
  { destruct (open w1) as [o|] eqn:Ho.
    - apply does_ret. rewrite F. split; [done|]. split; [apply only_refl|]. split; [done|]. exists o. auto.
    - eapply does_mono; [apply open_window_does; try done; by rewrite F|]. rewrite F.
      intros [u|e] w2 fs2 (Hk2 & Hon2 & Hx2); [|done]. split; [done|]. split; [done|]. destruct Hx2 as [Hp2 Ho2].
      split; [|done]. intros o. rewrite Hp2. apply Hprev1. }
  intros x w2 fs2 (Hk2 & Hon2 & Hx2). destruct x as [u|e]; [|done]. destruct Hx2 as (Hprev2 & o & Ho2 & Hw2).
  intros d3 F3. apply does_bind, does_get. intros d4 F4. apply does_bind, does_pure. intros day Eday d5 F5.
  rewrite Ho2 in Eday. injection Eday as <-. assert (files d5 = fs2) as F52 by congruence.
  apply does_bind. eapply does_mono.
  { apply (on_open_does (CaptureWriter.put_record r)); [by rewrite F52|done|]. rewrite F52.
    destruct Hk2 as [_ _ O2 _ _]. rewrite <-F52. apply put_record_does; [rewrite F52; by apply O2|by rewrite Hw2]. }
  rewrite F52, Hw2. intros x w3 fs3 (Hk3 & Hon3 & o3 & -> & Hw3). destruct x as [u'|e]; [|done].
  intros d6 F6. apply does_bind, does_get. intros d7 F7. assert (files d7 = fs3) as F73 by congruence.
  assert (only W fs1 fs3) as Hon by by eapply only_trans.
  assert (open_at W (set_open (Some o3) w2)) as Hat3 by (intros ? [= <-]; by rewrite Hw3).
  assert (filing W w (files d) (λ s, s) (Ok sealed) (set_open (Some o3) w2) fs3) as Hdone.
  { split; [done|]. destruct sealed as [sd|].
    - destruct Hsealed as (Hd & Hsw & Hne). split_and!; try done. by eapply describes_only.
    - intros _. split; [|done]. by rewrite Hsealed in Hon. }
  destruct (previous (set_open (Some o3) w2)) as [o'|] eqn:Ho'; [|apply does_ret; by rewrite F73].
  apply does_bind, does_pure. intros start _ d8 F8. destruct (_ <? _); [|apply does_ret; by rewrite F8, F73].
  eapply does_mono; [apply seal_previous_does; by rewrite F8, F73|]. rewrite F8, F73.
  intros x w4 fs4 (Hk4 & Ho4 & _ & Hx4). split; [done|]. destruct x as [[sd|]|e]; [| |done].
  - destruct Hx4 as (Hd & o4 & Ep4 & Hsw). split; [done|].
    assert (previous w2 = Some o4) as Ep2 by done. destruct Hk2 as [_ _ _ P2 _]. rewrite Hsw.
    split; [by apply P2|]. split; [by apply Hprev2|]. intros o5. rewrite Ho4. apply Hat3.
  - destruct Hx4 as [Hnone _]. congruence.
Qed.

Lemma window_for_does r w d : conf w → dated (Capture.day_ts r) →
  does (CaptureWriter.window_for r) w d (λ x w' fs', w' = w ∧ fs' = files d ∧ x = Ok (window (Capture.day_ts r) rot)).
Proof.
  intros (_ & _ & _ & Hrot & Hw) Hd. unfold CaptureWriter.window_for. apply does_bind, does_get. intros d0 F0.
  rewrite Hw, Hrot, window_spec by done. apply does_pure. intros W [= <-]. by rewrite F0.
Qed.

Lemma append_does r w d : sound w (files d) → record_ok r → dated (Capture.day_ts r) →
  does (CaptureWriter.append r) w d (filing (window (Capture.day_ts r) rot) w (files d) (λ s, s)).
Proof.
  intros Hs Hr Hd. set (W := window (Capture.day_ts r) rot).
  assert (filed W r) as Hf by done. assert (is_window W) as HW by by exists (Capture.day_ts r).
  unfold CaptureWriter.append. apply does_bind. eapply does_mono; [apply window_for_does; [apply Hs|done]|].
  intros x w0 fs0 (-> & -> & ->). fold W. intros d1 F1. apply does_bind, does_get. intros d2 F2.
  assert (files d2 = files d) as F by congruence.
  destruct (previous w) as [o|] eqn:Ho; [case_bool_decide as Ew|].
  - apply does_bind. eapply does_mono.
    { apply (on_previous_does _ w o); [by rewrite F|done|]. rewrite F. apply does_bind.
      eapply does_mono; [apply put_record_does; [rewrite F; by apply (so_previous _ _ _ Hs)|by rewrite Ew]|]. rewrite F.
      intros x o1 fs1 [Hm1 Hx1]. destruct x as [u|e]; [|by split]. intros d3 F3. apply does_bind, does_get. intros d4 F4.
      apply does_bind, does_pure. intros late _ d5 F5. apply does_put. assert (files d5 = fs1) as -> by congruence.
      split; [done|]. by destruct Hx1 as [[] ?]. }
    rewrite F, Ew. intros x w1 fs1 (Hk & Hon & o1 & -> & Hw1). destruct x as [u|e]; [|done].
    intros d3 F3. apply does_ret. rewrite F3. split; [done|]. by intros Hat.
  - rewrite <-F. apply append_open_does; try done; [by rewrite F|]. intros o' ?. by simplify_eq.
  - rewrite <-F. apply append_open_does; try done; [by rewrite F|]. intros o' ?. by simplify_eq.
Qed.

Lemma tell_builder_does W (f : ManifestBuilder → run ManifestBuilder) w d :
  (∀ rs b b', counted rs b → f b = Ret b' → counted rs b') → sound w (files d) →
  does (CaptureWriter.tell_builder W f) w d (λ x w' fs', kept_up x w' fs' ∧ fs' = files d ∧
    (∀ W', open_at W' w → open_at W' w') ∧ is_Some (match x with Ok u => Some u | Err _ => None end)).
Proof.
  intros Hf Hs.
  assert (∀ o d1, files d1 = files d → day_whole (files d) o →
    does (o ← get; b ← pure_run (f (od_builder o)); put (set_builder b o)) o d1 (λ x o' fs',
      (day_outcome (files d) o x o' fs' ∧ fs' = files d) ∧ x = Ok ())) as Htell.
  { intros o d1 F1 [Hp (c & Hc & frames & Ew & Hfr & Hcount)]. apply does_bind, does_get. intros d2 F2.
    apply does_bind, does_pure. intros b Hb d3 F3. apply does_put. assert (files d3 = files d) as -> by congruence.
    split; [|done]. split; [|done]. split; [split; [done|]; split; [apply only_refl|done]|]. split; [by destruct Hp|].
    exists c. split; [done|]. exists frames. cbn [od_window od_file od_builder set_builder]. split_and!; try done. by eapply Hf. }
  assert (∀ d0, files d0 = files d → does (mret () : io CaptureWriter ()) w d0 (λ x w' fs', kept_up x w' fs' ∧ fs' = files d ∧
    (∀ W', open_at W' w → open_at W' w') ∧ is_Some (match x with Ok u => Some u | Err _ => None end))) as Hnone.
  { intros d0 F0. apply does_ret. rewrite F0. by split_and!. }
  unfold CaptureWriter.tell_builder. apply does_bind, does_get. intros d0 F0. cbv zeta.
  assert (∀ o, previous w = Some o → does (on_previous o (o ← get; b ← pure_run (f (od_builder o)); put (set_builder b o))) w d0
    (λ x w' fs', kept_up x w' fs' ∧ fs' = files d ∧ (∀ W', open_at W' w → open_at W' w') ∧
      is_Some (match x with Ok u => Some u | Err _ => None end))) as Hprev.
  { intros o Ho. apply does_within. eapply does_mono; [apply Htell; [done|by apply (so_previous _ _ _ Hs)]|].
    intros x o' fs' [[[Hm Hd] ->] ->]. split; [eapply sound_previous; [exact Hs|done|done|done]|]. by split_and!. }
  assert (∀ o, open w = Some o → does (on_open o (o ← get; b ← pure_run (f (od_builder o)); put (set_builder b o))) w d0
    (λ x w' fs', kept_up x w' fs' ∧ fs' = files d ∧ (∀ W', open_at W' w → open_at W' w') ∧
      is_Some (match x with Ok u => Some u | Err _ => None end))) as Hopen.
  { intros o Ho. apply does_within. eapply does_mono; [apply Htell; [done|by apply (so_open _ _ _ Hs)]|].
    intros x o' fs' [[[Hm Hd] ->] ->]. split; [eapply sound_open; [exact Hs|done|done|done]|]. split; [done|].
    split; [|by eexists]. intros W' Hat o'' [= <-]. destruct Hm as [-> _]. by apply Hat. }
  destruct (previous w) as [o|] eqn:Ho; [case_bool_decide; [by apply Hprev|]|];
    (destruct (open w) as [o'|] eqn:Ho'; [case_bool_decide; [by apply Hopen|]|]; by apply Hnone).
Qed.

Lemma flush_does w d : sound w (files d) →
  does CaptureWriter.flush w d (λ x w' fs', kept_up x w' fs' ∧ previous w' = previous w ∧
    (∀ W, open_at W w → open_at W w') ∧ (∀ W, open_at W w → only W (files d) fs') ∧
    match x with Ok _ => ∀ o, open w' = Some o → bw_buffer (od_file o) = [] | Err _ => True end).
Proof.
  intros Hs. unfold CaptureWriter.flush. apply does_bind, does_get. intros d0 F0.
  destruct (open w) as [o|] eqn:Ho.
  2: { apply does_ret. rewrite F0. split_and!; try done. congruence. }
  apply does_within. eapply does_mono; [apply flush_day_does; rewrite F0; by apply (so_open _ _ _ Hs)|]. rewrite F0.
  intros x o' fs' ([Hm Hd] & Hempty & Hb & Hpath). split; [destruct x; [by eapply sound_open|by eapply settled_open]|].
  split; [done|]. destruct Hm as (Hw & Hon & _). split; [intros W Hat o'' [= <-]; rewrite Hw; by apply Hat|].
  split; [intros W Hat; by rewrite <-(Hat o Ho)|]. destruct x as [[]|e]; [|done]. intros o'' [= <-]. by apply Hempty.
Qed.

Lemma append_control_does r (f : ManifestBuilder → run ManifestBuilder) w d :
  (∀ rs b b', counted rs b → f b = Ret b' → counted rs b') → sound w (files d) → record_ok r → dated (Capture.day_ts r) →
  does (CaptureWriter.append_control r f) w d (filing (window (Capture.day_ts r) rot) w (files d) (λ s, s)).
Proof.
  intros Hf Hs Hr Hd. set (W := window (Capture.day_ts r) rot). unfold CaptureWriter.append_control.
  apply does_bind. eapply does_mono; [apply window_for_does; [apply Hs|done]|]. intros x w0 fs0 (-> & -> & ->). fold W.
  intros d1 F1. apply does_bind. rewrite <-F1. eapply does_mono; [apply append_does; try done; by rewrite F1|]. fold W.
  intros x w1 fs1 [Hk1 Hx1]. destruct x as [sealed|e]; [|done]. intros d2 F2. apply does_bind.
  eapply does_mono; [apply tell_builder_does; [done|by rewrite F2]|]. rewrite F2.
  intros x w2 fs2 (Hk2 & -> & Hat2 & Hok). destruct x as [u|e]; [|by destruct Hok]. intros d3 F3.
  apply does_bind. eapply does_mono; [apply flush_does; by rewrite F3|]. rewrite F3.
  intros x w3 fs3 (Hk3 & _ & Hat3 & Hon3 & _). destruct x as [u'|e]; [|done]. intros d4 F4. apply does_ret. rewrite F4.
  split; [done|]. destruct sealed as [sd|].
  - destruct Hx1 as (Hde & Hsw & Hne & Hat). split_and!; try done; [|by apply Hat3, Hat2].
    eapply describes_only; [done..|]. by apply Hon3, Hat2.
  - intros Hat. destruct (Hx1 Hat) as [Hon Hat']. split; [|by apply Hat3, Hat2]. eapply only_trans; [done|]. by apply Hon3, Hat2.
Qed.

(** The marker of a restart is a record like any other. *)
Lemma restart_gap_ok local outage : i64 local → i64 outage → 0 ≤ outage →
  record_ok (Capture.control local (gap (text_of "capture restarted") None outage)).
Proof.
  intros Hl Ho H0. set (before := typed "gap" ++ field "reason" (quoted (escape (text_of "capture restarted"))) ++
    field "last_seq" (text_of "null") ++ [44] ++ quoted (text_of "outage_ns") ++ [58]).
  assert (gap (text_of "capture restarted") None outage = before ++ shown outage ++ [125]) as ->.
  { unfold gap, before, field. by rewrite <-!(assoc_L (++)). }
  assert (length (shown outage) ≤ 20)%nat as Hlen by (apply shown_length; mlia).
  split; cbn [local_ts exch_ts cr_payload Capture.control]; [done|unfold NO_EXCH_TS; mlia| |].
  - apply Forall_app_2; [|apply Forall_app_2; [|by repeat constructor]].
    + assert (forallb (λ z, (0 <=? z) && (z <=? 255)) before = true) as Hb by by vm_compute.
      apply Forall_forall. intros z Hz. rewrite forallb_forall in Hb. apply list_elem_of_In, Hb in Hz.
      unfold u8. lia.
    + eapply Forall_impl; [apply shown_ascii|]. intros z Hz. mlia.
  - rewrite !length_app. replace (length before) with 71%nat by by vm_compute. unfold MAX_FRAME_LEN, HEADER_LEN_V2. simpl length. lia.
Qed.

Definition start_record (local : Z) : CaptureRecord :=
  Capture.control local (session_start (sw_version sw) (st_venue id) (st_symbol id) (st_stream id)).

Lemma control_ts local payload : Capture.day_ts (Capture.control local payload) = local.
Proof. reflexivity. Qed.

Definition good {A} (sealed : A → option SealedDay) (x : result A IoError) w' fs' : Prop :=
  kept_up x w' fs' ∧ match x with Ok a => ∀ sd, sealed a = Some sd → describes sd fs' | Err _ => True end.
Lemma filing_good {A} W w fs (sealed : A → option SealedDay) x w' fs' : filing W w fs sealed x w' fs' → good sealed x w' fs'.
Proof. intros [Hk Hx]. split; [done|]. destruct x as [a|]; [|done]. intros sd E. rewrite E in Hx. by destruct Hx. Qed.

Lemma session_start_does local w d : sound w (files d) → dated local → record_ok (start_record local) →
  does (CaptureWriter.append_session_start local) w d (good (λ s, s)).
Proof.
  intros Hs Hd Hr. set (W := window local rot). unfold CaptureWriter.append_session_start.
  apply does_bind, does_get. intros d0 F0. destruct (so_conf _ _ _ Hs) as (_ & Ei & Es & _). rewrite Ei, Es. cbv zeta.
  fold (start_record local). rewrite <-F0 in Hs. apply does_bind. eapply does_mono; [by apply append_does|].
  change (Capture.day_ts (start_record local)) with local. fold W. intros x w1 fs1 [Hk1 Hx1]. destruct x as [sealed|e]; [|done]. intros d1 F1. subst fs1.
  apply does_bind. eapply does_mono with (Q := λ x w' fs', fs' = files d1 ∧ sound w' fs' ∧ (∀ W', open_at W' w1 → open_at W' w') ∧
    match x with Ok _ => True | Err _ => False end).
  { unfold CaptureWriter.take_resumed. apply does_bind, does_get. intros d2 F2.
    destruct (open w1) as [o|] eqn:Ho; [|apply does_ret; by rewrite F2].
    apply does_bind, does_put. intros d3 F3. apply does_ret. rewrite F3, F2. split; [done|].
    destruct (so_open _ _ _ Hk1 o Ho) as [Hp Hw]. split.
    - eapply (sound_open w1); [done..| |].
      + split; [done|]. split; [apply only_refl|done].
      + split; [by destruct Hp|done].
    - split; [|done]. intros W' Hat o' [= <-]. by apply (Hat o). }
  intros x w2 fs2 (-> & Hs2 & Hat2 & Hx2). destruct x as [resumed|e]; [|done]. intros d2 F2. rewrite <-F2 in Hs2, Hx1.
  apply does_bind. eapply does_mono with (Q := λ x w' fs', kept_up x w' fs' ∧ match x with
    | Ok (Some sd) => describes sd fs' ∧ is_window (sd_window sd) ∧ sd_window sd ≠ W ∧ open_at W w' | _ => True end).
  { assert (∀ d0, files d0 = files d2 → does (mret sealed : io CaptureWriter (option SealedDay)) w2 d0 (λ x w' fs', kept_up x w' fs' ∧ match x with
      | Ok (Some sd) => describes sd fs' ∧ is_window (sd_window sd) ∧ sd_window sd ≠ W ∧ open_at W w' | _ => True end)) as Hsame.
    { intros d3 F3. apply does_ret. rewrite F3. split; [done|]. destruct sealed as [sd|]; [|done].
      destruct Hx1 as (? & ? & ? & ?). split_and!; try done. by apply Hat2. }
    destruct resumed as [before|]; [|by apply Hsame]. cbv zeta. destruct (Z.ltb_spec 0 (sat64 (local - before))) as [Hpos|]; [|by apply Hsame].
    apply does_bind. eapply does_mono.
    { unfold CaptureWriter.append_gap. apply append_control_does; [intros; by eapply observe_gap_counts|done| |done].
      apply restart_gap_ok; [unfold dated, NS_PER_DAY in Hd; mlia|apply sat64_range|lia]. }
    rewrite control_ts. fold W. intros x w3 fs3 [Hk3 Hx3]. destruct x as [s|e]; [|done]. intros d3 F3. apply does_ret. rewrite F3.
    split; [done|]. destruct s as [sd|]; [done|]. destruct sealed as [sd|]; [|done].
    destruct Hx1 as (Hde & Hsw & Hne & Hat). destruct (Hx3 (Hat2 W Hat)) as [Hon Hat3]. split_and!; try done.
    by eapply describes_only. }
  intros x w3 fs3 [Hk3 Hx3]. destruct x as [s|e]; [|done]. intros d3 F3. subst fs3. apply does_bind.
  eapply does_mono; [by apply flush_does|]. intros x w4 fs4 (Hk4 & _ & _ & Hon4 & _). destruct x as [u|e]; [|done].
  intros d4 F4. apply does_ret. rewrite F4. split; [done|]. intros sd ->. destruct Hx3 as (Hde & Hsw & Hne & Hat).
  eapply describes_only; [done..|]. by apply Hon4.
Qed.

Lemma seal_does w d : sound w (files d) → does CaptureWriter.seal w d (good Some).
Proof.
  intros Hs. unfold CaptureWriter.seal. apply does_bind. eapply does_mono; [by apply seal_previous_does|].
  intros x w1 fs1 (Hk1 & Ho1 & Hp1 & _). destruct x as [s|e]; [|done]. intros d1 F1. apply does_bind, does_get. intros d2 F2.
  assert (files d2 = fs1) as F by congruence. destruct (open w1) as [o|] eqn:Ho.
  2: { apply does_fail. rewrite F. split; [by apply sound_settled|done]. }
  apply does_bind, does_put. intros d3 F3. assert (files d3 = fs1) as F31 by congruence. destruct Hk1 as [C A O P D].
  eapply does_mono; [apply seal_day_does; [exact C|by rewrite F31|rewrite F31; by apply O]|].
  intros x w2 fs2 (-> & _ & Har & Hx). split.
  - assert (sound (set_open None w1) fs2) as Hs2.
    { split; cbn [open previous set_open]; try done; intros o'; congruence. }
    destruct x; [done|by apply sound_settled].
  - destruct x as [sd|]; [|done]. intros ? [= <-]. by apply Hx.
Qed.

Definition op_ok (op : WriterOp) : Prop :=
  match op with
  | Append r => record_ok r ∧ dated (Capture.day_ts r)
  | AppendGap local reason last_seq outage =>
      record_ok (Capture.control local (gap reason last_seq outage)) ∧ dated local
  | AppendClockOffset local offset dispersion => record_ok (Capture.control local (clock_offset offset dispersion)) ∧ dated local
  | AppendSessionStart local => record_ok (start_record local) ∧ dated local
  | _ => True
  end.
#[export] Instance op_ok_dec op : Decision (op_ok op).
Proof. destruct op; apply _. Defined.

Lemma writer_op_does op w d : sound w (files d) → op_ok op → does (writer_op op) w d (good (λ s, s)).
Proof.
  intros Hs Hop. destruct op as [r|local reason last_seq outage|local offset dispersion|local| | | |]; cbn [writer_op op_ok] in *.
  - destruct Hop. eapply does_mono; [by apply append_does|]. intros x w' fs'. apply filing_good.
  - destruct Hop. eapply does_mono; [|intros x w' fs'; apply (filing_good (window local rot) w (files d))].
    apply append_control_does; [|done..]. intros. by eapply observe_gap_counts.
  - destruct Hop. eapply does_mono; [|intros x w' fs'; apply (filing_good (window local rot) w (files d))].
    apply append_control_does; [|done..]. intros. by eapply observe_clock_counts.
  - destruct Hop. by apply session_start_does.
  - apply does_bind. eapply does_mono; [by apply flush_does|]. intros x w1 fs1 (Hk & _). destruct x as [u|e]; [|by split].
    intros d1 F1. apply does_ret. by rewrite F1.
  - apply does_bind. eapply does_mono with (Q := λ x w' fs', kept_up x w' fs').
    { unfold CaptureWriter.sync. apply does_bind, does_get. intros d1 F1. destruct (open w) as [o|]; [|apply does_ret; by rewrite F1].
      apply does_bind. eapply does_mono; [apply flush_does; by rewrite F1|]. intros x w1 fs1 (Hk & _). destruct x as [u|e]; [|done].
      intros d2 F2. apply does_bind, does_syscall. rewrite F2. intros [a|e]; [|by apply sound_settled]. intros d3 F3.
      apply does_ret. by rewrite F3. }
    intros x w1 fs1 Hk. destruct x as [u|e]; [|by split]. intros d1 F1. apply does_ret. by rewrite F1.
  - apply does_bind. eapply does_mono; [by apply seal_does|]. intros x w1 fs1 [Hk Hx]. destruct x as [sd|e]; [|by split].
    intros d1 F1. apply does_ret. rewrite F1. split; [done|]. intros ? [= <-]. by apply Hx.
  - eapply does_mono; [by apply seal_previous_does|]. intros x w1 fs1 (Hk & _ & _ & Hx). split; [done|].
    destruct x as [[sd|]|e]; [|done..]. intros ? [= <-]. by apply Hx.
Qed.

Lemma writer_ops_does ops : ∀ w d, sound w (files d) → Forall op_ok ops →
  does (writer_ops ops) w d (λ x w' fs', kept_up x w' fs').
Proof.
  induction ops as [|op ops IH]; intros w d Hs Hops; [by apply does_ret|]. inversion Hops; subst. cbn [writer_ops].
  apply does_bind. eapply does_mono; [by apply writer_op_does|]. intros x w1 fs1 [Hk _]. destruct x as [s|e]; [|done].
  intros d1 F1. subst fs1. apply does_bind. eapply does_mono; [by apply IH|]. intros x w2 fs2 Hk2. destruct x as [l|e]; [|done].
  intros d2 F2. apply does_ret. by rewrite F2.
Qed.

(** However the process ends, the archive stands. *)
Lemma drop_day_archive o d d' : archive (files d) → day_kept (files d) o → CaptureWriter.drop_day o d = Ret d' →
  archive (files d') ∧ only (od_window o) (files d) (files d').
Proof.
  intros Ha [[Hw Hp Hf] (c & Hc & Hk)] E. unfold CaptureWriter.drop_day in E.
  apply bind_ret in E as ([[x f'] d1] & E & [= <-]). rewrite <-Hf in Hc.
  destruct (flush_buf_does _ _ _ Hc _ _ _ E) as (c' & _ & F & Hcc & _). rewrite Hf in F. rewrite F.
  split; [|apply only_insert; [done|by left]]. eapply archive_file; try done. eapply kept_app. by rewrite Hcc.
Qed.
Lemma close_archive w d d' : settled w (files d) → CaptureWriter.close w d = Ret d' → archive (files d').
Proof.
  intros [C A O P D] E. unfold CaptureWriter.close in E. apply bind_ret in E as (d1 & E1 & E).
  destruct (open w) as [o|] eqn:Ho.
  - destruct (drop_day_archive o d d1 A (O o eq_refl) E1) as [A1 Hon]. destruct (previous w) as [o'|] eqn:Ho'; [|by injection E as <-].
    eapply drop_day_archive; [exact A1| |exact E]. eapply day_kept_only; [by apply P| |exact Hon].
    intros Ew. by apply (D o o').
  - injection E1 as <-. destruct (previous w) as [o'|] eqn:Ho'; [|by injection E as <-].
    by apply (drop_day_archive o' d d' A (P o' eq_refl) E).
Qed.

(** * The life of an archive

    Processes come and go over it: each starts a writer, performs operations
    until one fails, and is killed or closes.  A process killed in the middle
    of an operation is one whose calls all fail from there on. *)

Definition started (grace : Z) fs (answers : list Answer) w d : Prop :=
  ∃ w0, CaptureWriter.new rt id sw () (mkDisk fs answers) = Ret (Ok w0, (), d) ∧
    w = CaptureWriter.with_grace grace (CaptureWriter.with_rotation rot w0).

Inductive archived : gmap text (list Z) → Prop :=
| archived_empty : archived ∅
| archived_killed fs grace answers ops w d x w' d' :
    archived fs → started grace fs answers w d → Forall op_ok ops → writer_ops ops w d = Ret (x, w', d') →
    archived (files d')
| archived_closed fs grace answers ops w d x w' d' d'' :
    archived fs → started grace fs answers w d → Forall op_ok ops → writer_ops ops w d = Ret (x, w', d') →
    CaptureWriter.close w' d' = Ret d'' → archived (files d'').

Lemma started_sound grace fs answers w d : archive fs → started grace fs answers w d → sound w (files d) ∧ files d = fs.
Proof.
  intros Ha (w0 & E & ->). unfold CaptureWriter.new in E.
  assert (does (_ ← syscall; mret (mkWriter rt id sw None None DEFAULT_GRACE Daily None)) () (mkDisk fs answers)
    (λ x _ fs', fs' = fs ∧ match x with Ok w => w = mkWriter rt id sw None None DEFAULT_GRACE Daily None | Err _ => True end)) as H.
  { apply does_bind, does_syscall. intros [a|e]; [|done]. intros d1 F1. by apply does_ret. }
  destruct (H _ _ _ E) as [F ->]. split; [|done]. rewrite F. by split.
Qed.
Lemma archived_archive fs : archived fs → archive fs.
Proof.
  induction 1 as [|fs grace answers ops w d x w' d' _ IH Hst Hops E|fs grace answers ops w d x w' d' d'' _ IH Hst Hops E Hc].
  - by intros W p c _ _ H.
  - destruct (started_sound _ _ _ _ _ IH Hst) as [Hs _].
    apply (so_archive day_kept w'), (kept_up_settled x), (writer_ops_does ops w d Hs Hops _ _ _ E).
  - destruct (started_sound _ _ _ _ _ IH Hst) as [Hs _]. eapply close_archive; [|exact Hc].
    eapply kept_up_settled. by apply (writer_ops_does ops w d Hs Hops _ _ _ E).
Qed.

Lemma archived_reads fs ts p c : archived fs → dated ts → StreamId.file_for id rt (window ts rot) = Ret p → fs !! p = Some c →
  ∃ rs rest, Capture.decode_all c = Ret (Ok (rs, rest)) ∧ Forall (λ r, window (Capture.day_ts r) rot = window ts rot) rs.
Proof.
  intros Ha Hd Hp Hc. destruct (archived_archive fs Ha (window ts rot) p c) as (frames & tl & -> & Hf & Ht); try done; [by exists ts|].
  exists frames.*2, (length tl). split; [apply decode_all_ends; [by eapply filed_ok|by apply torn_truncated]|].
  apply Forall_fmap. eapply Forall_impl; [exact Hf|]. by intros [v r] (_ & _ & E).
Qed.
End archive.

(** C20. A file holds its own window.  Whatever a capture process is asked to
    write, whichever calls to the system fail and after however many bytes,
    wherever it is killed and however often it is started again: every
    capture file of the archive decodes to its end, but perhaps for one torn
    frame, and every record in it belongs to the day or the hour the file is
    named after. *)
Theorem a_file_holds_only_its_window (rt : text) (id : StreamId) (sw : Software) (rot : Rotation)
    (fs : gmap text (list Z)) (ts : Z) (p : text) (c : list Z)
    (Hfs : archived rt id sw rot fs) (Hts : dated ts)
    (Hp : StreamId.file_for id rt (window ts rot) = Ret p) (Hc : fs !! p = Some c) :
  ∃ rs rest, Capture.decode_all c = Ret (Ok (rs, rest)) ∧
    Forall (λ r, window (Capture.day_ts r) rot = window ts rot) rs.
Proof. by eapply archived_reads. Qed.

(** C21. A manifest describes the file it seals.  Over an archive that any number
    of capture processes left as they were killed, a writer that has come
    this far without an error and seals a file, because the day turned or
    because it was told to, leaves whole frames of the file's window in it,
    counts them all, those of earlier processes too, states their first and
    last times and the digest of the bytes on the disk, and puts that
    manifest beside the file. *)
Theorem a_manifest_describes_its_file (rt : text) (id : StreamId) (sw : Software) (rot : Rotation)
    (fs : gmap text (list Z)) (grace : Z) (answers : list Answer) (ops : list WriterOp) (op : WriterOp)
    (w w1 w2 : CaptureWriter) (d d1 d2 : Disk) (l : list SealedDay) (sd : SealedDay)
    (Hfs : archived rt id sw rot fs) (Hw : started rt id sw rot grace fs answers w d)
    (Hops : Forall (op_ok id sw) ops) (Hop : op_ok id sw op)
    (H1 : writer_ops ops w d = Ret (Ok l, w1, d1)) (H2 : writer_op op w1 d1 = Ret (Ok (Some sd), w2, d2)) :
  describes rt id rot sd (files d2).
Proof.
  destruct (started_sound _ _ _ _ _ _ _ _ _ (archived_archive _ _ _ _ _ Hfs) Hw) as [Hs _].
  pose proof (writer_ops_does _ _ _ _ ops w d Hs Hops _ _ _ H1) as Hs1.
  destruct (writer_op_does _ _ _ _ op w1 d1 Hs1 Hop _ _ _ H2) as [_ Hd]. by apply Hd.
Qed.

Module DemoArchive.
Definition id : StreamId := mkStream (text_of "venue") (text_of "SYM") (text_of "depth").
Definition sw : Software := mkSoftware (text_of "v") (text_of "c").
Definition T : Z := 20000 * NS_PER_DAY.
Definition rt : text := text_of "root".
Definition path : text := text_of "root/venue/SYM/depth/2024-10-04.oqcap".
Definition writer : CaptureWriter := mkWriter rt id sw None None DEFAULT_GRACE Daily None.
Definition trade (ts n : Z) : CaptureRecord := Capture.payload ts ts [n].
(** The first process dies with a frame half written, and is started again. *)
Definition first_ops : list WriterOp := [Append (trade (T + 1) 7); Flush; Append (trade (T + 2) 8); Flush].
Definition first_answers : list Answer := replicate 5 Fine ++ [Fails 12].
Definition first_life := writer_ops first_ops writer (mkDisk ∅ first_answers).
Definition crashed : gmap text (list Z) := match first_life with Ret (_, _, d) => files d | _ => ∅ end.
Definition second_ops : list WriterOp := [Append (trade (T + 9) 9)].
Definition second_life := writer_ops second_ops writer (mkDisk crashed []).
Definition sealing := match second_life with Ret (_, w, d) => writer_op Seal w d | _ => Panic end.

Definition appends : bool := match second_life with Ret (Ok _, _, _) => true | _ => false end.
Lemma it_appends : appends = true.
Proof. by vm_compute. Qed.
Definition seals : bool := match sealing with Ret (Ok (Some _), _, _) => true | _ => false end.
Lemma it_seals : seals = true.
Proof. by vm_compute. Qed.
Lemma starts fs answers : started rt id sw Daily DEFAULT_GRACE fs (Fine :: answers) writer (mkDisk fs answers).
Proof. by eexists. Qed.
Lemma ops_ok : Forall (op_ok id sw) (first_ops ++ second_ops).
Proof. apply (bool_decide_unpack _). vm_compute. exact I. Qed.
Lemma archived_crashed : archived rt id sw Daily crashed.
Proof.
  pose proof ops_ok as [H _]%Forall_app. unfold crashed. destruct first_life as [[[x w] d]| |] eqn:E; [|constructor..].
  eapply archived_killed; [apply archived_empty|apply starts|exact H|exact E].
Qed.
End DemoArchive.
Import DemoArchive.

Lemma a_file_holds_only_its_window_witness :
  ∃ rs rest, Capture.decode_all (image (trade (T + 1) 7) ++ take 12 (image (trade (T + 2) 8))) = Ret (Ok (rs, rest)) ∧
    Forall (λ r, window (Capture.day_ts r) Daily = window T Daily) rs.
Proof.
  apply (a_file_holds_only_its_window rt id sw Daily crashed T path); [apply archived_crashed| | |].
  - vm_compute. split; discriminate.
  - vm_compute. reflexivity.
  - vm_compute. reflexivity.
Defined.

Lemma a_manifest_describes_its_file_witness :
  ∃ sd w2 d2, sealing = Ret (Ok (Some sd), w2, d2) ∧ describes rt id Daily sd (files d2).
Proof.
  pose proof it_seals as H. unfold seals in H. pose proof it_appends as H1. unfold appends in H1.
  destruct sealing as [[[[[sd|]|e] w2] d2]| |] eqn:E; [|discriminate H..].
  exists sd, w2, d2. split; [reflexivity|]. unfold sealing in E.
  destruct second_life as [[[[l|e] w1] d1]| |] eqn:E1; [|discriminate H1..].
  apply (a_manifest_describes_its_file rt id sw Daily crashed DEFAULT_GRACE [Fine] second_ops Seal writer w1 w2
    (mkDisk crashed []) d1 d2 l sd archived_crashed (starts crashed [])); [pose proof ops_ok as [_ Hops]%Forall_app; exact Hops|exact I|exact E1|exact E].
Defined.

Example the_manifest_counts_both_lives :
  match sealing with Ret (Ok (Some sd), _, _) => m_records (sd_manifest sd) | _ => 0 end = 2.
Proof. by vm_compute. Qed.

(** A gap recorded before a restart is in the file and not in its manifest:
    the scan of a file that is reopened counts its records, and neither the
    gaps nor the clocks they tell of. *)
Definition gap_then_restart : run (option (Z * nat)) :=
  '(_, _, d) ← writer_ops [AppendSessionStart T; AppendGap (T + 5) (text_of "connection lost") None 100; Seal] writer (mkDisk ∅ []);
  '(x, _, d) ← writer_ops [AppendSessionStart (T + 50); Seal] writer (mkDisk (files d) []);
  all ← Capture.decode_all (default [] (files d !! path));
  mret (match x, all with
  | Ok (sd :: _), Ok (rs, _) => Some (m_gaps (sd_manifest sd), length (List.filter is_gap rs))
  | _, _ => None
  end).
Example a_restart_forgets_the_gaps : gap_then_restart = Ret (Some (1, 2%nat)).
Proof. by vm_compute. Qed.

(** A gap declared for the day that was just left stays in memory: only the
    open day is flushed, though every control record is said to be. *)
Definition late_gap : run (option (nat * nat)) :=
  '(x, w, d) ← writer_ops [Append (trade (T - 10) 1); Append (trade (T + 10) 2);
    AppendGap (T - 5) (text_of "connection lost") None 100; Flush] writer (mkDisk ∅ []);
  mret (match x, previous w with
  | Ok _, Some day => Some (length (default [] (files d !! od_path day)), length (bw_buffer (od_file day)))
  | _, _ => None
  end).
Example a_late_gap_is_not_flushed : late_gap = Ret (Some (0%nat, 132%nat)).
Proof. by vm_compute. Qed.

(** A file an older build began is counted four bytes a frame too long. *)
Definition upgraded : run (option (Z * nat)) :=
  '(x, _, d) ← writer_ops [Append (trade (T + 9) 9); Seal] writer (mkDisk {[ path := image_v1 (trade (T + 1) 7) ]} []);
  mret (match x with
  | Ok (sd :: _) => Some (m_bytes_raw (sd_manifest sd), length (default [] (files d !! path)))
  | _ => None
  end).
Example an_older_frame_is_counted_long : upgraded = Ret (Some (60, 56%nat)).
Proof. by vm_compute. Qed.

(** A record that turns the day and lies past the grace period of the new one
    seals two files, and the caller is told of one. *)
Definition two_turns : run (option (nat * nat)) :=
  '(x, _, d) ← writer_ops [Append (trade (T + 1) 7); Append (trade (T + NS_PER_DAY + 1) 8);
    Append (trade (T + 2 * NS_PER_DAY + DEFAULT_GRACE + 1) 9)] writer (mkDisk ∅ []);
  let sealed := filter (λ ts, is_Some (match StreamId.manifest_for id rt (window ts Daily) with
                                      | Ret m => files d !! m | _ => None end)) [T; T + NS_PER_DAY] in
  mret (match x with Ok l => Some (length l, length sealed) | Err _ => None end).
Example two_are_sealed_and_one_reported : two_turns = Ret (Some (1, 2)%nat).
Proof. by vm_compute. Qed.
