(* ===== verification/Backtest.v ===== *)
(** Running a strategy over a stream of observations ([oq-backtest/src/run.rs],
    with the stream of [oq-engine/src/observation.rs]) and the comparison of a
    run with the one that is never liquidated ([deviation.rs]). *)

From stdpp Require Import strings.
From S2P Require Import Prelude Slices Text Types Order Currency Margin Liquidation Funding.
From S2P Require Import Tick RestingBook L0 Depth L1 L2 Matcher Cost Event Kernel Ledger Strategy.
#[local] Open Scope Z_scope.
Import (hints) Strategy.

(** * What a run is given *)

(** One arrival on the stream.  Only the time of a tick or a snapshot is read. *)
Inductive Observation :=
| OTick (t : Tick)
| ODepth (u : DepthUpdate)
| OSnapshot (update_id : Z) (bids asks : list Level)
| OSnapshotAt (at_ : Nanos) (update_id : Z) (bids asks : list Level)
| OGap (at_ : Nanos).
Definition at_ms (o : Observation) : option Z :=
  match o with
  | OTick t => Some (Z.quot (exch (t_stamp t)) 1000000)
  | ODepth u => Some (event_ms u)
  | OSnapshot _ _ _ => None
  | OSnapshotAt a _ _ _ | OGap a => Some (Z.quot a 1000000)
  end.

Inductive MarginMode := Enforced | Ignored.

Inductive Tier := TierL0 | TierL1 (p : Policy) | TierL2 (p : Policy).
Module Tier.
Definition matcher (t : Tier) (i : InstrumentId) : Matcher :=
  match t with
  | TierL0 => Matcher.l0 i
  | TierL1 p => ML1 (L1.new i p)
  | TierL2 p => ML2 (L2.new (L1.new i p))
  end.
End Tier.
(** [Matcher::tier]. *)
Definition tier_name (m : Matcher) : text :=
  match m with ML0 _ => text_of "L0" | ML1 _ => text_of "L1" | ML2 _ => text_of "L2" end.

Record RunConfig := mkRunConfig {
  equity_every : Z;
  track_margin : bool;
  rc_instrument : InstrumentId;
  rc_contract : Contract;
  rc_table : TierTable;
  starting_balance : Cash;
  rc_margin : MarginMode;
  rc_funding : FundingSchedule;
  rc_fees : Fees;
  position_mode : PositionMode;
  rc_tier : Tier;
}.
Module RunConfig.
Definition new (i : InstrumentId) (c : Contract) (t : TierTable) (starting : Cash) : RunConfig :=
  mkRunConfig 0 false i c t starting Enforced (mkFunding []) Fees.none OneWay TierL0.
Definition at_tier (tier : Tier) (c : RunConfig) : RunConfig :=
  mkRunConfig (equity_every c) (track_margin c) (rc_instrument c) (rc_contract c) (rc_table c) (starting_balance c)
    (rc_margin c) (rc_funding c) (rc_fees c) (position_mode c) tier.
Definition tracking_margin (c : RunConfig) : RunConfig :=
  mkRunConfig (equity_every c) true (rc_instrument c) (rc_contract c) (rc_table c) (starting_balance c)
    (rc_margin c) (rc_funding c) (rc_fees c) (position_mode c) (rc_tier c).
Definition sampling_equity_every (n : Z) (c : RunConfig) : RunConfig :=
  mkRunConfig n (track_margin c) (rc_instrument c) (rc_contract c) (rc_table c) (starting_balance c)
    (rc_margin c) (rc_funding c) (rc_fees c) (position_mode c) (rc_tier c).
Definition with_fees (f : Fees) (c : RunConfig) : RunConfig :=
  mkRunConfig (equity_every c) (track_margin c) (rc_instrument c) (rc_contract c) (rc_table c) (starting_balance c)
    (rc_margin c) (rc_funding c) f (position_mode c) (rc_tier c).
Definition with_margin (m : MarginMode) (c : RunConfig) : RunConfig :=
  mkRunConfig (equity_every c) (track_margin c) (rc_instrument c) (rc_contract c) (rc_table c) (starting_balance c)
    m (rc_funding c) (rc_fees c) (position_mode c) (rc_tier c).
Definition with_funding (f : FundingSchedule) (c : RunConfig) : RunConfig :=
  mkRunConfig (equity_every c) (track_margin c) (rc_instrument c) (rc_contract c) (rc_table c) (starting_balance c)
    (rc_margin c) f (rc_fees c) (position_mode c) (rc_tier c).
End RunConfig.

(** * What a run produces *)

Inductive MarginUsage :=
| NotTracked
| NoPosition
| Tracked (peak_maintenance min_headroom : Cash).

Record Liquidation := mkLiquidation {
  lq_at : Nanos; lq_price : PriceTicks; lq_qty : QtyLots; lq_equity : Cash; lq_forfeited : Cash;
}.

Record RunResult := mkRunResult {
  rr_strategy : text;
  rr_fills : list Fill;
  rr_liquidations : list Liquidation;
  rr_ticks : Z;
  rr_final_equity : Cash;
  rr_realized : Cash;
  rr_funding_paid : Cash;
  rr_fees_paid : Cash;
  rr_min_equity : Cash;
  rr_equity_curve : list Cash;
  rr_max_adverse_ticks : Z;
  rr_margin_usage : MarginUsage;
  rr_tier : text;
  rr_depth_applied : Z;
  rr_depth_refused : Z;
  rr_depth_gaps : Z;
  rr_depth_invalid_ticks : Z;
  rr_misrouted_orders : Z;
  rr_depth_unused : Z;
}.

(** ** Reading the outputs of the kernel *)

Definition fill_of (o : Output) : option Fill := match o with OFilled f => Some f | _ => None end.
Definition liquidation_of (o : Output) : option Liquidation :=
  match o with
  | OLiquidated at_ price qty equity forfeited _ _ _ => Some (mkLiquidation at_ price qty equity forfeited)
  | _ => None
  end.
(** The legs a liquidation closed. *)
Definition venue_closes (o : Output) : run (list VenueClosed) :=
  match o with
  | OLiquidated at_ price _ _ _ i long short =>
      let closed (leg : Side) (qty : QtyLots) : run (list VenueClosed) :=
        if QtyLots.is_zero qty then mret []
        else q ← chk64 (Z.abs qty); mret [mkVenueClosed i Strategy.Liquidation leg q price at_] in
      a ← closed Buy long;
      b ← closed Sell short;
      mret (a ++ b)
  | _ => mret []
  end.
Fixpoint closed_legs (os : list Output) : run (list VenueClosed) :=
  match os with
  | [] => mret []
  | o :: os => a ← venue_closes o; b ← closed_legs os; mret (a ++ b)
  end.

Definition ending_of (o : Output) : option (OrderId * Ending) :=
  match o with
  | OFilled f => Some (f_order f, Strategy.Filled)
  | OCancelled id => Some (id, Strategy.Cancelled)
  | _ => None
  end.
Definition note_ending (working : list OrderId) (ended : list (OrderId * Ending)) (o : Output) : list (OrderId * Ending) :=
  match ending_of o with
  | Some (id, e) =>
      if negb (bool_decide (id ∈ working)) && negb (existsb (λ x, x.1 =? id) ended) then ended ++ [(id, e)] else ended
  | None => ended
  end.
Definition note_endings (os : list Output) (working : list OrderId) (ended : list (OrderId * Ending)) :
    list (OrderId * Ending) := fold_left (note_ending working) os ended.

(** * The loop *)

Record Counts := mkCounts {
  n_ticks : Z; n_misrouted : Z; n_applied : Z; n_refused : Z; n_gaps : Z; n_unused : Z; n_orders : Z;
}.
Record Measures := mkMeasures {
  min_equity : Cash; peak_maintenance : Cash; min_headroom : option Cash; equity_curve : list Cash; max_adverse : Z;
}.
(** The locals of the loop. *)
Record Host (S : Type) := mkHost {
  ho_strategy : S;
  ho_kernel : Kernel Matcher;
  ho_fills : list Fill;
  ho_liquidations : list Liquidation;
  ho_closed : list VenueClosed;
  ho_ended : list (OrderId * Ending);
  ho_last_funding : Nanos;
  ho_measures : Measures;
  ho_counts : Counts;
}.
#[global] Arguments mkHost {S}.
#[global] Arguments ho_strategy {S}.
#[global] Arguments ho_kernel {S}.
#[global] Arguments ho_fills {S}.
#[global] Arguments ho_liquidations {S}.
#[global] Arguments ho_closed {S}.
#[global] Arguments ho_ended {S}.
#[global] Arguments ho_last_funding {S}.
#[global] Arguments ho_measures {S}.
#[global] Arguments ho_counts {S}.

Definition count_applied c : run Counts :=
  n ← chku64 (n_applied c + 1); mret (mkCounts (n_ticks c) (n_misrouted c) n (n_refused c) (n_gaps c) (n_unused c) (n_orders c)).
Definition count_refused c : run Counts :=
  n ← chku64 (n_refused c + 1); mret (mkCounts (n_ticks c) (n_misrouted c) (n_applied c) n (n_gaps c) (n_unused c) (n_orders c)).
Definition count_gap c : run Counts :=
  n ← chku64 (n_gaps c + 1); mret (mkCounts (n_ticks c) (n_misrouted c) (n_applied c) (n_refused c) n (n_unused c) (n_orders c)).
Definition count_unused c : run Counts :=
  n ← chku64 (n_unused c + 1); mret (mkCounts (n_ticks c) (n_misrouted c) (n_applied c) (n_refused c) (n_gaps c) n (n_orders c)).
Definition count_tick c : run Counts :=
  n ← chku64 (n_ticks c + 1); mret (mkCounts n (n_misrouted c) (n_applied c) (n_refused c) (n_gaps c) (n_unused c) (n_orders c)).
Definition count_misrouted c : run Counts :=
  n ← chku64 (n_misrouted c + 1); mret (mkCounts (n_ticks c) n (n_applied c) (n_refused c) (n_gaps c) (n_unused c) (n_orders c)).
Definition count_order c : run Counts :=
  n ← chku64 (n_orders c + 1); mret (mkCounts (n_ticks c) (n_misrouted c) (n_applied c) (n_refused c) (n_gaps c) (n_unused c) n).

Section host.
Context {S : Type} `{Strategy.Strategy S} (config : RunConfig).
Implicit Types (h : Host S).

Definition set_kernel h k : Host S :=
  mkHost (ho_strategy h) k (ho_fills h) (ho_liquidations h) (ho_closed h) (ho_ended h) (ho_last_funding h) (ho_measures h) (ho_counts h).
Definition set_strategy h (s : S) : Host S :=
  mkHost s (ho_kernel h) (ho_fills h) (ho_liquidations h) (ho_closed h) (ho_ended h) (ho_last_funding h) (ho_measures h) (ho_counts h).
Definition set_counts h c : Host S :=
  mkHost (ho_strategy h) (ho_kernel h) (ho_fills h) (ho_liquidations h) (ho_closed h) (ho_ended h) (ho_last_funding h) (ho_measures h) c.
Definition set_measures h m : Host S :=
  mkHost (ho_strategy h) (ho_kernel h) (ho_fills h) (ho_liquidations h) (ho_closed h) (ho_ended h) (ho_last_funding h) m (ho_counts h).
Definition set_last_funding h t : Host S :=
  mkHost (ho_strategy h) (ho_kernel h) (ho_fills h) (ho_liquidations h) (ho_closed h) (ho_ended h) t (ho_measures h) (ho_counts h).
Definition set_ended h e : Host S :=
  mkHost (ho_strategy h) (ho_kernel h) (ho_fills h) (ho_liquidations h) (ho_closed h) e (ho_last_funding h) (ho_measures h) (ho_counts h).
(** What the outputs say of liquidations. *)
Definition note_closings h (os : list Output) : run (Host S) :=
  closed ← closed_legs os;
  mret (mkHost (ho_strategy h) (ho_kernel h) (ho_fills h) (ho_liquidations h ++ omap liquidation_of os)
    (ho_closed h ++ closed) (ho_ended h) (ho_last_funding h) (ho_measures h) (ho_counts h)).
Definition note_fills h (fs : list Fill) : Host S :=
  mkHost (ho_strategy h) (ho_kernel h) (ho_fills h ++ fs) (ho_liquidations h) (ho_closed h) (ho_ended h)
    (ho_last_funding h) (ho_measures h) (ho_counts h).

(** ** Depth *)

Definition take_depth h (x : run (DepthOutcome * Kernel Matcher)) : run (Host S) :=
  '(o, k) ← x;
  c ← match o with
      | DepthApplied => count_applied (ho_counts h)
      | DepthRefused _ => count_refused (ho_counts h)
      | NotRead => count_unused (ho_counts h)
      end;
  mret (set_counts (set_kernel h k) c).
Definition take_snapshot h (x : run (bool * Kernel Matcher)) : run (Host S) :=
  '(read, k) ← x;
  c ← (if read : bool then mret (ho_counts h) else count_unused (ho_counts h));
  mret (set_counts (set_kernel h k) c).
Definition take_gap h (x : run (bool * Kernel Matcher)) : run (Host S) :=
  '(read, k) ← x;
  c ← (if read : bool then count_gap (ho_counts h) else count_unused (ho_counts h));
  mret (set_counts (set_kernel h k) c).

(** ** Funding *)

Definition settle_one h (r : FundingRate) : run (Host S) :=
  k ← Kernel.apply (ho_kernel h) (EFunding None (fr_at r) (fr_rate r) (fr_mark r));
  note_closings (set_kernel h k) (outputs k).
(** What settled since the last tick, before this one. *)
Definition settle_funding h (now : Nanos) : run (Host S) :=
  match rates (rc_funding config) with
  | [] => mret h
  | _ =>
      h ← foldM settle_one h (FundingSchedule.between (rc_funding config) (ho_last_funding h) now);
      mret (set_last_funding h (Z.max (ho_last_funding h) now))
  end.

(** ** A tick *)

Definition match_tick h (t : Tick) : run (list Fill * Host S) :=
  c ← count_tick (ho_counts h);
  k ← Kernel.apply (ho_kernel h) (ETick None t);
  let h := set_counts (set_kernel h k) c in
  let h := set_ended h (note_endings (outputs k) (working k) (ho_ended h)) in
  let fs := omap fill_of (outputs k) in
  h ← note_closings (note_fills h fs) (outputs k);
  mret (fs, h).

Definition measure_margin (m : Measures) (sm : Summary) (maintenance : run Cash) : run (Cash * option Cash) :=
  if track_margin config && (negb (QtyLots.is_zero (sm_qty sm)) || negb (QtyLots.is_zero (sm_short_qty sm))) then
    required ← maintenance;
    room ← chk64 (sm_equity sm - required);
    mret (if peak_maintenance m <? required then required else peak_maintenance m,
          match min_headroom m with
          | None => Some room
          | Some x => if room <? x then Some room else Some x
          end)
  else mret (peak_maintenance m, min_headroom m).
Definition measure_adverse (m : Measures) (sm : Summary) (t : Tick) : run Z :=
  if negb (QtyLots.is_zero (sm_qty sm)) && (0 <? sm_entry sm) then
    adverse ← (if 0 <? sm_qty sm then chk64 (sm_entry sm - Tick.dn_extent t) else chk64 (Tick.up_extent t - sm_entry sm));
    mret (if max_adverse m <? adverse then adverse else max_adverse m)
  else mret (max_adverse m).
Definition measure (m : Measures) (ticks : Z) (sm : Summary) (maintenance : run Cash) (t : Tick) : run Measures :=
  let curve := if (0 <? equity_every config) && (ticks mod equity_every config =? 0)
               then equity_curve m ++ [sm_equity sm] else equity_curve m in
  let low := if sm_equity sm <? min_equity m then sm_equity sm else min_equity m in
  '(peak, headroom) ← measure_margin m sm maintenance;
  adverse ← measure_adverse m sm t;
  mret (mkMeasures low peak headroom curve adverse).

Definition context_of (t : Tick) (sm : Summary) (k : Kernel Matcher) : Context :=
  mkContext (rc_instrument config) t (sm_qty sm) (sm_entry sm) (sm_short_qty sm) (sm_short_entry sm) (sm_equity sm)
    (length (working k)).

(** Fills, what the venue closed, what ended, and then the tick. *)
Definition tell_strategy h (cx : Context) (fs : list Fill) : Host S * list Intent :=
  let x := (ho_strategy h, []) in
  let x := fold_left (λ (x : S * list Intent) f, Strategy.on_fill x.1 f cx x.2) fs x in
  let x := fold_left (λ (x : S * list Intent) c, Strategy.on_venue_closed x.1 c cx x.2) (ho_closed h) x in
  let x := fold_left (λ (x : S * list Intent) e, Strategy.on_ended x.1 e.1 e.2 x.2) (ho_ended h) x in
  let '(s, out) := Strategy.on_tick x.1 cx x.2 in
  (mkHost s (ho_kernel h) (ho_fills h) (ho_liquidations h) [] [] (ho_last_funding h) (ho_measures h) (ho_counts h), out).

(** ** Intents *)

Definition intent_id (i : Intent) : option OrderId :=
  match i with Limit _ id _ _ _ _ | Market _ id _ _ _ => Some id | Cancel _ | CancelAll => None end.
Definition event_of (t : Tick) (i : Intent) : option Event :=
  match i with
  | Limit n id side price qty offset => Some (ESubmit (Some n) id side (Some price) qty offset (t_stamp t))
  | Market n id side qty offset => Some (ESubmit (Some n) id side None qty offset (t_stamp t))
  | Cancel id => Some (ECancel id (t_stamp t))
  | CancelAll => None
  end.
Definition note_ends h : Host S :=
  set_ended h (note_endings (outputs (ho_kernel h)) (working (ho_kernel h)) (ho_ended h)).
Definition cancel_one (t : Tick) h (id : OrderId) : run (Host S) :=
  k ← Kernel.apply (ho_kernel h) (ECancel id (t_stamp t));
  mret (note_ends (set_kernel h k)).
Definition refused_id (id : OrderId) (o : Output) : bool :=
  match o with ORejected rejected _ => rejected =? id | _ => false end.
(** The kernel's answer to a submission. *)
Definition report_placed h (e : Event) : Host S :=
  match e with
  | ESubmit _ id _ _ _ _ _ =>
      set_strategy h (Strategy.on_placed (ho_strategy h) id (negb (existsb (refused_id id) (outputs (ho_kernel h)))))
  | _ => h
  end.
Definition misrouted (i : Intent) : bool :=
  match Intent.instrument i with Some wanted => negb (wanted =? rc_instrument config) | None => false end.
Definition act (t : Tick) h (i : Intent) : run (Host S) :=
  if misrouted i then
    c ← count_misrouted (ho_counts h);
    let h := set_counts h c in
    mret match intent_id i with
         | Some id => set_strategy h (Strategy.on_placed (ho_strategy h) id false)
         | None => h
         end
  else
    match event_of t i with
    | None => foldM (cancel_one t) h (working (ho_kernel h))
    | Some e =>
        c ← count_order (ho_counts h);
        k ← Kernel.apply (ho_kernel h) e;
        mret (note_ends (report_placed (set_counts (set_kernel h k) c) e))
    end.

Definition observe_tick h (t : Tick) : run (Host S) :=
  h ← settle_funding h (exch (t_stamp t));
  '(fs, h) ← match_tick h t;
  sm ← summary (ho_kernel h);
  m ← measure (ho_measures h) (n_ticks (ho_counts h)) sm (State.maintenance (k_state (ho_kernel h))) t;
  let '(h, intents) := tell_strategy (set_measures h m) (context_of t sm (ho_kernel h)) fs in
  foldM (act t) h intents.

Definition observe h (o : Observation) : run (Host S) :=
  match o with
  | OTick t => observe_tick h t
  | ODepth u => take_depth h (Kernel.apply_depth (ho_kernel h) u)
  | OSnapshot id bids asks => take_snapshot h (Kernel.install_snapshot (ho_kernel h) id bids asks)
  | OSnapshotAt a id bids asks => take_snapshot h (Kernel.install_snapshot_at (ho_kernel h) a id bids asks)
  | OGap _ => take_gap h (Kernel.apply_depth_gap (ho_kernel h))
  end.

(** ** From start to finish *)

Definition start : run (Kernel Matcher) :=
  let s := State.new (rc_instrument config) (rc_contract config) (rc_table config) (starting_balance config) in
  s ← State.matching_with (State.with_mode (State.with_fees s (rc_fees config)) (position_mode config))
        (Tier.matcher (rc_tier config) (rc_instrument config));
  mret (Kernel.new (match rc_margin config with Enforced => s | Ignored => State.without_liquidation s end)).

Definition open_host (s : S) (k : Kernel Matcher) : Host S :=
  mkHost s k [] [] [] [] I64_MIN
    (mkMeasures (starting_balance config) Cash.ZERO None
      (if 0 <? equity_every config then [starting_balance config] else []) 0)
    (mkCounts 0 0 0 0 0 0 1).

Definition finish (tier : text) h : run (S * RunResult) :=
  k ← Kernel.settle_unreported (ho_kernel h);
  let fills := ho_fills h ++ omap fill_of (outputs k) in
  sm ← summary k;
  x ← State.holding (k_state k);
  let m := ho_measures h in
  let c := ho_counts h in
  mret (ho_strategy h,
    mkRunResult (Strategy.name (ho_strategy h)) fills (ho_liquidations h) (n_ticks c) (sm_equity sm) (sm_realized sm)
      (sm_funding sm) (sm_fees sm) (min_equity m) (equity_curve m) (max_adverse m)
      (if track_margin config then
         match min_headroom m with Some room => Tracked (peak_maintenance m) room | None => NoPosition end
       else NotTracked)
      tier (n_applied c) (n_refused c) (n_gaps c) (Matcher.invalid_depth_ticks (h_engine x)) (n_misrouted c) (n_unused c)).

(** The strategy as the run leaves it, and the result. *)
Definition run_observations (s : S) (stream : list Observation) : run (S * RunResult) :=
  k ← start;
  x ← State.holding (k_state k);
  h ← foldM observe (open_host s k) stream;
  finish (tier_name (h_engine x)) h.
Definition run_stream (s : S) (ticks : list Tick) : run (S * RunResult) := run_observations s (OTick <$> ticks).
Definition run_ticks (s : S) (ticks : list Tick) : run (S * RunResult) := run_stream s ticks.
End host.

(** * With margin, and without *)

Record DeviationReport := mkDeviation { dv_strategy : text; dv_ticks : nat; enforced : RunResult; ignored : RunResult }.
Inductive Verdict := NoDifference | Liquidated (count : nat) (first_at : Nanos) (overstated_by : Cash).
Module DeviationReport.
(** [make] is the closure that makes a strategy, and what it keeps between
    its two calls. *)
Definition compare {S C} `{Strategy.Strategy S} (config : RunConfig) (make : C → C * S) (c : C) (ticks : list Tick) :
    run (C * DeviationReport) :=
  let '(c, s) := make c in
  '(_, a) ← run_ticks (RunConfig.with_margin Enforced config) s ticks;
  let '(c, s) := make c in
  '(_, b) ← run_ticks (RunConfig.with_margin Ignored config) s ticks;
  mret (c, mkDeviation (rr_strategy a) (length ticks) a b).
Definition verdict (d : DeviationReport) : Verdict :=
  match rr_liquidations (enforced d) with
  | [] => NoDifference
  | first :: _ =>
      Liquidated (length (rr_liquidations (enforced d))) (lq_at first)
        (Cash.sub (rr_final_equity (ignored d)) (rr_final_equity (enforced d)))
  end.
Definition margin_free_result_is_honest (d : DeviationReport) : bool :=
  match verdict d with NoDifference => true | Liquidated _ _ _ => false end.
Definition fills_after_first_liquidation (d : DeviationReport) : nat :=
  match rr_liquidations (enforced d) with
  | [] => 0
  | first :: _ => length (List.filter (λ f, lq_at first <? exch (f_stamp f)) (rr_fills (ignored d)))
  end.
End DeviationReport.

(** ** An account that is never liquidated *)

Section free.
Context {M : Type} `{!MatcherOps M}.
Implicit Types (s : State M) (k : Kernel M) (h : nat).

(** The same state, in an account nobody liquidates. *)
Definition free s : State M := State.without_liquidation s.
Definition kfree k : Kernel M := mkKernel (free (k_state k)) (outputs k) (working k).
Definition calm (os : list Output) : Prop := omap liquidation_of os = [].

Lemma calm_app a b : calm (a ++ b) ↔ calm a ∧ calm b.
Proof. unfold calm. rewrite omap_app. split; [apply app_eq_nil|by intros [-> ->]]. Qed.

Lemma at_free s h : State.at_ (free s) h = State.at_ s h.
Proof. done. Qed.
Lemma apply_fill_hedged_free s f : State.apply_fill_hedged (free s) f = free <$> State.apply_fill_hedged s f.
Proof.
  unfold State.apply_fill_hedged. change (State.holding_index (free s)) with (State.holding_index s).
  destruct (expect _) as [h| |]; [|done..]. rewrite !bind_Ret, at_free. destruct (State.at_ s h) as [x| |]; [|done..].
  rewrite !bind_Ret. destruct (f_offset f).
  - by destruct (Holding.open_leg _ _ _ _ _).
  - by destruct (Holding.close_leg _ _ _ _) as [[pnl y]| |].
Qed.
Lemma apply_fill_free s f : State.apply_fill (free s) f = free <$> State.apply_fill s f.
Proof.
  unfold State.apply_fill. change (State.holding_index (free s)) with (State.holding_index s).
  change (mode (free s)) with (mode s). destruct (expect _) as [h| |]; [|done..]. rewrite !bind_Ret.
  destruct (bool_decide _); [apply apply_fill_hedged_free|]. destruct (position_delta f) as [d| |]; [|done..].
  rewrite !bind_Ret, at_free. destruct (State.at_ s h) as [x| |]; [|done..]. rewrite !bind_Ret. cbv zeta.
  destruct (negb (h_qty x =? 0) && _).
  - destruct (Holding.close_leg _ _ _ _) as [[pnl y]| |]; [|done..]. rewrite !bind_Ret.
    destruct (chk64 _) as [left| |]; [|done..]. rewrite !bind_Ret. destruct (left >? 0); [|done].
    by destruct (Holding.open_leg _ _ _ _ _).
  - by destruct (Holding.open_leg _ _ _ _ _).
Qed.
Lemma book_fills_free fs : ∀ k h, Kernel.book_fills (kfree k) h fs = kfree <$> Kernel.book_fills k h fs.
Proof.
  induction fs as [|f fs IH]; intros k h; [done|]. cbn [Kernel.book_fills]. change (k_state (kfree k)) with (free (k_state k)).
  rewrite at_free. destruct (State.at_ _ h) as [x| |]; [|done..]. rewrite !bind_Ret. cbv zeta.
  change (State.apply_fill (State.credit (State.add_fees (free (k_state k))
    (Fees.charge (fee_schedule (free (k_state k))) (h_contract x) f))
    (Cash.neg (Fees.charge (fee_schedule (free (k_state k))) (h_contract x) f))) f) with
    (State.apply_fill (free (State.credit (State.add_fees (k_state k) (Fees.charge (fee_schedule (k_state k)) (h_contract x) f))
    (Cash.neg (Fees.charge (fee_schedule (k_state k)) (h_contract x) f)))) f).
  rewrite apply_fill_free. destruct (State.apply_fill _ f) as [s| |]; [|done..].
  exact (IH (Kernel.push (Kernel.forget (Kernel.set_state k s) (f_order f)) (OFilled f)) h).
Qed.
Lemma cancel_from_free hs : ∀ s id, Kernel.cancel_from (free s) id hs = (λ '(b, s), (b, free s)) <$> Kernel.cancel_from s id hs.
Proof.
  induction hs as [|h hs IH]; intros s id; [done|]. cbn [Kernel.cancel_from]. rewrite at_free.
  destruct (State.at_ s h) as [x| |]; [|done..]. rewrite !bind_Ret. destruct (m_cancel _ id) as [[] m]; [done|].
  exact (IH (State.put s h (Holding.set_engine x m)) id).
Qed.
Lemma settle_from_free hs : ∀ k, Kernel.settle_from (kfree k) hs = kfree <$> Kernel.settle_from k hs.
Proof.
  induction hs as [|h hs IH]; intros k; [done|]. cbn [Kernel.settle_from]. change (k_state (kfree k)) with (free (k_state k)).
  rewrite at_free. destruct (State.at_ _ h) as [x| |]; [|done..]. rewrite !bind_Ret.
  destruct (m_drain_unreported _) as [fs m].
  change (Kernel.set_state (kfree k) (State.put (free (k_state k)) h (Holding.set_engine x m))) with
    (kfree (Kernel.set_state k (State.put (k_state k) h (Holding.set_engine x m)))).
  rewrite book_fills_free. destruct (Kernel.book_fills _ h _) as [k'| |]; [|done..]. apply IH.
Qed.
Lemma settle_unreported_free k : Kernel.settle_unreported (kfree k) = kfree <$> Kernel.settle_unreported k.
Proof. apply (settle_from_free _ (mkKernel (k_state k) [] (working k))). Qed.

(** ** A liquidation is reported *)

Lemma liquidate_each_length hs : ∀ s os s', State.liquidate_each s hs = Ret (os, s') →
  length (omap liquidation_of os) = length hs.
Proof.
  induction hs as [|h hs IH]; intros s os s'; cbn [State.liquidate_each]; [by intros [= <- <-]|].
  intros (x & _ & H)%bind_ret. apply bind_ret in H as ([o s1] & Ho & H). apply bind_ret in H as ([os1 s2] & Hos & [= <- <-]).
  apply bind_ret in Ho as (y & _ & H). cbv zeta in H. apply bind_ret in H as (q & _ & H).
  destruct (m_cancel_all _) as [n m]. injection H as <- _. cbn. by rewrite (IH _ _ _ Hos).
Qed.
Lemma close_all_reports s p os s' : State.is_flat s = false → State.close_all s p = Ret (os, s') →
  (0 < length (omap liquidation_of os))%nat.
Proof.
  unfold State.close_all. intros Hf. destruct (_ =? 1)%nat.
  - intros ([o s1] & Ho & [= <- <-])%bind_ret. apply bind_ret in Ho as (y & _ & H). cbv zeta in H.
    apply bind_ret in H as (q & _ & H). destruct (m_cancel_all _) as [n m]. injection H as <- _. cbn. lia.
  - intros ->%liquidate_each_length. unfold State.is_flat in Hf.
    assert (∃ i x, holdings s !! i = Some x ∧ Holding.flat x = false) as (i & x & Hi & Hx).
    { induction (holdings s) as [|x l IH]; [done|]. cbn in Hf. destruct (Holding.flat x) eqn:E.
      - destruct (IH Hf) as (i & y & Hi & Hy). by exists (Datatypes.S i), y.
      - by exists 0%nat, x. }
    assert (In i (List.filter (λ h, match holdings s !! h with Some x => negb (Holding.flat x) | None => false end)
      (seq 0 (length (holdings s))))) as Hin.
    { apply filter_In. split; [apply in_seq; apply lookup_lt_Some in Hi; lia|]. by rewrite Hi, Hx. }
    destruct (List.filter _ _); [done|simpl; lia].
Qed.
Lemma restate_reports c o : liquidation_of (State.restate c o) = None ↔ liquidation_of o = None.
Proof. by destruct o. Qed.
Lemma report_forfeit_reports c os : length (omap liquidation_of (State.report_forfeit c os)) = length (omap liquidation_of os).
Proof.
  induction os as [|o os IH]; [done|]. destruct os as [|o' os]; [by destruct o|].
  assert (State.report_forfeit c (o :: o' :: os) = o :: State.report_forfeit c (o' :: os)) as -> by by destruct o.
  cbn [omap list_omap]. destruct (liquidation_of o); [cbn [length]; f_equal|]; apply IH.
Qed.
Lemma liquidate_reports s p os s' : State.is_flat s = false → State.liquidate s p = Ret (os, s') → ¬ calm os.
Proof.
  intros Hf. unfold State.liquidate. intros ([out s1] & Ho & H)%bind_ret. injection H as <- _.
  apply (close_all_reports _ _ _ _ Hf) in Ho. unfold calm. intros E. apply (f_equal length) in E.
  rewrite report_forfeit_reports in E. cbn [length] in E.
  assert (∀ c os, length (omap liquidation_of (State.restate c <$> os)) = length (omap liquidation_of os)) as Hl.
  { intros c l. induction l as [|o l IH]; [done|]. destruct o; cbn; rewrite IH; done. }
  rewrite Hl in E. lia.
Qed.
Lemma check_liquidation_calm k mark k' : Kernel.check_liquidation k mark = Ret k' → calm (outputs k') → k' = k.
Proof.
  unfold Kernel.check_liquidation. destruct (State.is_flat (k_state k)) eqn:Hf.
  { rewrite orb_true_r. by intros [= <-]. }
  destruct (negb _); [by intros [= <-]|]. cbn [orb]. intros (b & _ & H)%bind_ret Hc. destruct b; [|by injection H as <-].
  apply bind_ret in H as ([out s] & Ho & [= <-]). exfalso. apply (liquidate_reports _ _ _ _ Hf Ho).
  by apply (calm_app (outputs k) out) in Hc as [_ ?].
Qed.
Lemma check_liquidation_free k mark : Kernel.check_liquidation (kfree k) mark = Ret (kfree k).
Proof. done. Qed.
Lemma check_liquidation_twin k mark k' : Kernel.check_liquidation k mark = Ret k' → calm (outputs k') →
  Kernel.check_liquidation (kfree k) mark = Ret (kfree k').
Proof. intros H Hc. by rewrite check_liquidation_free, (check_liquidation_calm _ _ _ H Hc). Qed.

(** ** One step of the kernel *)

Lemma on_tick_twin k h t k' : Kernel.on_tick k h t = Ret k' → calm (outputs k') → Kernel.on_tick (kfree k) h t = Ret (kfree k').
Proof.
  unfold Kernel.on_tick. change (State.with_now (k_state (kfree k)) (exch (t_stamp t))) with (free (State.with_now (k_state k) (exch (t_stamp t)))).
  rewrite at_free. destruct (State.at_ _ h) as [x| |]; [|done..]. rewrite !bind_Ret. cbv zeta.
  set (s := State.put (State.with_now (k_state k) (exch (t_stamp t))) h (Holding.set_mark x (t_last t))).
  change (State.put (free (State.with_now (k_state k) (exch (t_stamp t)))) h (Holding.set_mark x (t_last t))) with (free s).
  change (matching (free s)) with (matching s). destruct (bool_decide _).
  - apply (check_liquidation_twin (Kernel.set_state k s)).
  - destruct (m_on_tick _ t) as [[fs m]| |]; [|done..]. rewrite !bind_Ret.
    set (s1 := State.put s h (Holding.set_engine (Holding.set_mark x (t_last t)) m)).
    change (Kernel.set_state (kfree k) (State.put (free s) h (Holding.set_engine (Holding.set_mark x (t_last t)) m)))
      with (kfree (Kernel.set_state k s1)).
    rewrite book_fills_free. destruct (Kernel.book_fills _ h _) as [k1| |]; [|done..]. apply check_liquidation_twin.
Qed.
Lemma on_funding_twin k i a r m k' : Kernel.on_funding k i a r m = Ret k' → calm (outputs k') →
  Kernel.on_funding (kfree k) i a r m = Ret (kfree k').
Proof.
  unfold Kernel.on_funding. set (s := State.with_now (k_state k) a).
  change (State.with_now (k_state (kfree k)) a) with (free s). change (Kernel.route (free s) i) with (Kernel.route s i).
  destruct (Kernel.route s i) as [h|]; [|by intros [= <-]]. rewrite at_free. destruct (State.at_ s h) as [x| |]; [|done..].
  rewrite !bind_Ret. destruct (Holding.flat x); [by intros [= <-]|]. cbv zeta.
  apply (check_liquidation_twin (Kernel.push (Kernel.set_state (Kernel.set_state k s)
    (State.add_funding (State.credit s (Kernel.funding_of x a r m)) (Kernel.funding_of x a r m)))
    (OFunded (Kernel.funding_of x a r m) a))).
Qed.
Lemma on_submit_free k i id sd p q off st : Kernel.on_submit (kfree k) i id sd p q off st = kfree <$> Kernel.on_submit k i id sd p q off st.
Proof.
  unfold Kernel.on_submit. destruct (q <=? 0); [done|]. change (working (kfree k)) with (working k).
  destruct (bool_decide _); [done|]. change (Kernel.route (k_state (kfree k)) i) with (Kernel.route (k_state k) i).
  destruct (Kernel.route _ i) as [h|]; [|done]. change (State.balance (k_state (kfree k))) with (State.balance (k_state k)).
  destruct (_ <=? 0); [done|]. destruct (match p with Some p0 => limit_order id sd p0 q st off | None => market_order id sd q st off end) as [o| |]; [|done..].
  rewrite !bind_Ret. change (k_state (kfree k)) with (free (k_state k)). rewrite at_free.
  destruct (State.at_ _ h) as [x| |]; [|done..]. rewrite !bind_Ret. by destruct (m_submit _ o _).
Qed.
(** What a backtest gives a kernel to do. *)
Definition hosted (e : Event) : Prop :=
  match e with ETick _ _ | ESubmit _ _ _ _ _ _ _ | ECancel _ _ | EFunding _ _ _ _ => True | _ => False end.
Lemma apply_twin k e k' : hosted e → Kernel.apply k e = Ret k' → calm (outputs k') → Kernel.apply (kfree k) e = Ret (kfree k').
Proof.
  set (k0 := mkKernel (k_state k) [] (working k)). destruct e; try done; intros _; unfold Kernel.apply; cbv zeta.
  - change (k_state (mkKernel (k_state (kfree k)) [] (working (kfree k)))) with (free (k_state k0)).
    change (Kernel.route (free (k_state k0)) instrument) with (Kernel.route (k_state k0) instrument).
    destruct (Kernel.route _ _) as [h|]; [|by intros [= <-]]. apply (on_tick_twin k0).
  - intros H _. pose proof (on_submit_free k0 instrument id side price qty offset stamp) as E. unfold k0 in E.
    rewrite H in E. exact E.
  - intros H _. pose proof (cancel_from_free (seq 0 (length (holdings (k_state k)))) (k_state k) id) as E. cbn in E, H |- *.
    rewrite E. clear E. revert H. by destruct (Kernel.cancel_from _ _ _) as [[[] s]| |]; [intros [= <-]..| |].
  - apply (on_funding_twin k0).
Qed.
End free.

(** ** One step of the host *)

Section twin.
Context {S : Type} `{Strategy.Strategy S} (config : RunConfig).
Implicit Types (h : Host S).

Definition hfree h : Host S := set_kernel h (kfree (ho_kernel h)).
Definition quiet h : Prop := ho_liquidations h = [].

Lemma note_closings_twin h os h' : note_closings h os = Ret h' → quiet h' →
  quiet h ∧ calm os ∧ note_closings (hfree h) os = Ret (hfree h').
Proof.
  unfold note_closings. intros (c & E & [= <-])%bind_ret Hq. apply app_eq_nil in Hq as [Hh Hc].
  split_and!; [done..|]. by rewrite E.
Qed.
Lemma settle_one_twin h r h' : settle_one h r = Ret h' → quiet h' → quiet h ∧ settle_one (hfree h) r = Ret (hfree h').
Proof.
  unfold settle_one. intros (k & E & H')%bind_ret Hq. destruct (note_closings_twin _ _ _ H' Hq) as (Hh & Hc & Ht).
  split; [exact Hh|]. change (ho_kernel (hfree h)) with (kfree (ho_kernel h)).
  rewrite (apply_twin _ (EFunding None (fr_at r) (fr_rate r) (fr_mark r)) k I E Hc). exact Ht.
Qed.
Lemma settle_funding_twin h now h' : settle_funding config h now = Ret h' → quiet h' →
  quiet h ∧ settle_funding config (hfree h) now = Ret (hfree h').
Proof.
  unfold settle_funding. destruct (rates _) as [|r rs]; [by intros [= <-]|]. intros (h1 & E & [= <-])%bind_ret Hq.
  destruct (foldM_twin _ settle_one hfree quiet _ settle_one_twin _ _ E Hq) as [Hh Ht]. split; [exact Hh|].
  change (ho_last_funding (hfree h)) with (ho_last_funding h). by rewrite Ht.
Qed.
Lemma match_tick_twin h t fs h' : match_tick h t = Ret (fs, h') → quiet h' →
  quiet h ∧ match_tick (hfree h) t = Ret (fs, hfree h').
Proof.
  unfold match_tick. intros (c & Ec & H1)%bind_ret Hq. apply bind_ret in H1 as (k & Ek & H1). cbv zeta in H1.
  apply bind_ret in H1 as (h1 & E1 & [= <- <-]). destruct (note_closings_twin _ _ _ E1 Hq) as (Hh & Hc & Ht).
  split; [exact Hh|]. change (ho_counts (hfree h)) with (ho_counts h). rewrite Ec, bind_Ret.
  change (ho_kernel (hfree h)) with (kfree (ho_kernel h)). rewrite (apply_twin _ (ETick None t) k I Ek Hc), bind_Ret. cbv zeta.
  match type of Ht with ?m = _ => match goal with |- ?m' ≫= _ = _ => change m' with m end end. by rewrite Ht.
Qed.
(** Nothing but an outcome of the market is a liquidation. *)
Lemma asked_calm (k : Kernel Matcher) e k' : match e with ESubmit _ _ _ _ _ _ _ | ECancel _ _ => True | _ => False end →
  Kernel.apply k e = Ret k' → calm (outputs k').
Proof.
  destruct e; try done; intros _; unfold Kernel.apply; cbv zeta.
  - unfold Kernel.on_submit. repeat case_match; intros E; try (by injection E as <-).
    all: apply bind_ret in E as (o & _ & E); apply bind_ret in E as (x & _ & E);
      apply bind_ret in E as (m & _ & E); by injection E as <-.
  - intros ([b s] & _ & E)%bind_ret. destruct b; by injection E as <-.
Qed.
Lemma cancel_one_twin t h id h' : cancel_one t h id = Ret h' → quiet h' → quiet h ∧ cancel_one t (hfree h) id = Ret (hfree h').
Proof.
  unfold cancel_one. intros (k & E & [= <-])%bind_ret Hq. split; [exact Hq|]. change (ho_kernel (hfree h)) with (kfree (ho_kernel h)).
  by rewrite (apply_twin _ (ECancel id (t_stamp t)) k I E (asked_calm _ (ECancel id (t_stamp t)) _ I E)).
Qed.
Lemma act_twin t h i h' : act config t h i = Ret h' → quiet h' → quiet h ∧ act config t (hfree h) i = Ret (hfree h').
Proof.
  unfold act. change (ho_counts (hfree h)) with (ho_counts h). destruct (misrouted config i).
  - intros (c & E & [= <-])%bind_ret Hq. rewrite E. by destruct (intent_id i).
  - destruct (event_of t i) as [e|] eqn:Ee.
    + intros (c & E & H1)%bind_ret Hq. apply bind_ret in H1 as (k & Ek & [= <-]). rewrite E, bind_Ret.
      assert (hosted e ∧ calm (outputs k)) as [He Hc].
      { destruct i; try done; injection Ee as <-; (split; [done|]); by eapply asked_calm, Ek. }
      change (ho_kernel (hfree h)) with (kfree (ho_kernel h)). rewrite (apply_twin _ _ _ He Ek Hc).
      split; [by destruct e|]. by destruct e.
    + apply (foldM_twin _ (cancel_one t) hfree quiet); [apply cancel_one_twin].
Qed.
Lemma take_twin h (o : Observation) h' : match o with OTick _ => False | _ => True end →
  observe config h o = Ret h' → quiet h' → quiet h ∧ observe config (hfree h) o = Ret (hfree h').
Proof.
  assert (∀ (x : Holding Matcher) m, Kernel.set_state (kfree (ho_kernel h)) (State.put (k_state (kfree (ho_kernel h))) 0 (Holding.set_engine x m))
    = kfree (Kernel.set_state (ho_kernel h) (State.put (k_state (ho_kernel h)) 0 (Holding.set_engine x m)))) as Hput by done.
  destruct o; try done; intros _; cbn [observe]; change (ho_kernel (hfree h)) with (kfree (ho_kernel h));
    unfold take_depth, take_snapshot, take_gap, Kernel.apply_depth, Kernel.install_snapshot, Kernel.install_snapshot_at, Kernel.apply_depth_gap;
    change (State.holding (k_state (kfree (ho_kernel h)))) with (State.holding (k_state (ho_kernel h)));
    (destruct (State.holding _) as [x| |]; [|done..]); rewrite !bind_Ret.
  - destruct (m_on_depth _ u) as [[a m]| |]; [|done..]. rewrite !bind_Ret. destruct a; intros (c & E & [= <-])%bind_ret Hq;
      (split; [exact Hq|]); cbn [mbind run_bind mret run_ret]; change (ho_counts (hfree h)) with (ho_counts h); by rewrite E.
  - destruct (m_install_snapshot _ _ _ _) as [[] m]; cbn [mbind run_bind mret run_ret].
    + intros [= <-] Hq. by split.
    + change (ho_counts (hfree h)) with (ho_counts h). destruct (count_unused _); [|done..]. intros [= <-] Hq. by split.
  - destruct (m_install_snapshot_at _ _ _ _ _) as [[] m]; cbn [mbind run_bind mret run_ret].
    + intros [= <-] Hq. by split.
    + change (ho_counts (hfree h)) with (ho_counts h). destruct (count_unused _); [|done..]. intros [= <-] Hq. by split.
  - destruct (m_on_gap _) as [[] m]; cbn [mbind run_bind mret run_ret]; change (ho_counts (hfree h)) with (ho_counts h);
      (destruct (_ (ho_counts h)); [|done..]); intros [= <-] Hq; by split.
Qed.
Lemma observe_tick_twin h t h' : observe_tick config h t = Ret h' → quiet h' → quiet h ∧ observe_tick config (hfree h) t = Ret (hfree h').
Proof.
  unfold observe_tick. intros (h1 & E1 & H1)%bind_ret Hq. apply bind_ret in H1 as ([fs h2] & E2 & H2).
  apply bind_ret in H2 as (sm & E3 & H3). apply bind_ret in H3 as (m & E4 & H4).
  destruct (tell_strategy (set_measures h2 m) (context_of config t sm (ho_kernel h2)) fs) as [h3 intents] eqn:E5.
  destruct (foldM_twin _ (act config t) hfree quiet _ (act_twin t) _ _ H4 Hq) as [Q3 T3].
  assert (quiet h2) as Q2.
  { unfold tell_strategy in E5. destruct (Strategy.on_tick _ _ _) in E5. by injection E5 as <- <-. }
  destruct (match_tick_twin _ _ _ _ E2 Q2) as [Q1 T2]. destruct (settle_funding_twin _ _ _ E1 Q1) as [Q0 T1].
  split; [exact Q0|]. rewrite T1, bind_Ret, T2, bind_Ret. change (summary (ho_kernel (hfree h2))) with (summary (ho_kernel h2)).
  rewrite E3, bind_Ret. change (ho_measures (hfree h2)) with (ho_measures h2). change (ho_counts (hfree h2)) with (ho_counts h2).
  change (State.maintenance (k_state (ho_kernel (hfree h2)))) with (State.maintenance (k_state (ho_kernel h2))).
  rewrite E4, bind_Ret.
  assert (tell_strategy (set_measures (hfree h2) m) (context_of config t sm (ho_kernel (hfree h2))) fs = (hfree h3, intents)) as ->.
  { revert E5. unfold tell_strategy. change (context_of config t sm (ho_kernel (hfree h2))) with (context_of config t sm (ho_kernel h2)).
    cbn [ho_strategy set_measures hfree set_kernel ho_closed ho_ended]. destruct (Strategy.on_tick _ _ _). by intros [= <- <-]. }
  exact T3.
Qed.
Lemma observe_twin h o h' : observe config h o = Ret h' → quiet h' → quiet h ∧ observe config (hfree h) o = Ret (hfree h').
Proof. destruct o; [apply observe_tick_twin|by apply take_twin..]. Qed.
Lemma finish_twin tier h x : finish config tier h = Ret x → finish config tier (hfree h) = Ret x.
Proof.
  unfold finish. change (ho_kernel (hfree h)) with (kfree (ho_kernel h)). rewrite settle_unreported_free.
  by destruct (Kernel.settle_unreported _).
Qed.
End twin.

(** ** From start to finish *)

(** A run that returns: its kernel at the start, after the stream and at the
    end. *)
Lemma run_steps {S} `{Strategy.Strategy S} config (s s' : S) stream r : run_observations config s stream = Ret (s', r) →
  ∃ k x h k', start config = Ret k ∧ State.holding (k_state k) = Ret x ∧
    foldM (observe config) (open_host config s k) stream = Ret h ∧ Kernel.settle_unreported (ho_kernel h) = Ret k' ∧
    finish config (tier_name (h_engine x)) h = Ret (s', r).
Proof.
  unfold run_observations. intros (k & Ek & H1)%bind_ret. apply bind_ret in H1 as (x & Ex & H1).
  apply bind_ret in H1 as (h & Eh & Ef). pose proof Ef as E. unfold finish in E. apply bind_ret in E as (k' & Es & _).
  by exists k, x, h, k'.
Qed.
Lemma start_ignored config : start (RunConfig.with_margin Ignored config) = kfree <$> start (RunConfig.with_margin Enforced config).
Proof.
  unfold start. cbn [RunConfig.with_margin rc_instrument rc_contract rc_table starting_balance rc_fees position_mode rc_tier rc_margin].
  by destruct (State.matching_with _ _).
Qed.

Lemma unliquidated_alike {S} `{Strategy.Strategy S} config (s s' : S) stream r :
  run_observations (RunConfig.with_margin Enforced config) s stream = Ret (s', r) → rr_liquidations r = [] →
  run_observations (RunConfig.with_margin Ignored config) s stream = Ret (s', r).
Proof.
  intros Hr Hq. destruct (run_steps _ _ _ _ _ Hr) as (k & x & h & k' & Ek & Ex & Eh & _ & Ef).
  assert (quiet h) as Qh.
  { unfold finish in Ef. apply bind_ret in Ef as (k1 & _ & Ef). apply bind_ret in Ef as (sm & _ & Ef).
    apply bind_ret in Ef as (y & _ & [= _ <-]). exact Hq. }
  destruct (foldM_twin _ (observe config) hfree quiet _ (observe_twin config) _ _ Eh Qh) as [_ Ht].
  pose proof (start_ignored config) as Ek'. rewrite Ek in Ek'. cbn [fmap run_fmap] in Ek'.
  unfold run_observations. rewrite Ek', bind_Ret. change (State.holding (k_state (kfree k))) with (State.holding (k_state k)).
  rewrite Ex, bind_Ret.
  change (foldM (observe config) (open_host (RunConfig.with_margin Ignored config) s (kfree k)) stream = Ret (hfree h)) in Ht.
  change (observe (RunConfig.with_margin Ignored config)) with (observe config). rewrite Ht, bind_Ret.
  exact (finish_twin config _ _ _ Ef).
Qed.

(** A report that calls its margin-free result honest shows one result. *)
Lemma an_honest_report_shows_one_result {S C} `{Strategy.Strategy S} (config : RunConfig) (make : C → C * S) c c' d ticks :
  (make (make c).1).2 = (make c).2 → DeviationReport.compare config make c ticks = Ret (c', d) →
  DeviationReport.margin_free_result_is_honest d = true → ignored d = enforced d.
Proof.
  intros Hm. unfold DeviationReport.compare. destruct (make c) as [c1 s]. cbn [fst snd] in Hm.
  intros ([s1 a] & Ea & H1)%bind_ret. destruct (make c1) as [c2 s2]. cbn [snd] in Hm. subst s2.
  apply bind_ret in H1 as ([s3 b] & Eb & [= _ <-]). unfold DeviationReport.margin_free_result_is_honest, DeviationReport.verdict.
  cbn [enforced ignored]. destruct (rr_liquidations a) eqn:El; [|done]. intros _.
  assert (run_observations (RunConfig.with_margin Ignored config) s (OTick <$> ticks) = Ret (s1, a)) as E.
  { by apply (unliquidated_alike config). }
  unfold run_ticks, run_stream in Eb. congruence.
Qed.
