(* ===== verification/BacktestRun.v ===== *)
(** What a backtest amounts to: its run as a script for the kernel, the money
    of its result, and what the control arm without margin shows. *)

From stdpp Require Import strings.
From S2P Require Import Prelude Slices Text Types Order Currency Margin Liquidation Funding.
From S2P Require Import Tick RestingBook L0 Depth L1 L2 Matcher Cost Event Kernel Ledger Strategy Backtest.
#[local] Open Scope Z_scope.
Import (hints) Strategy.

(** * A run is a script for the kernel

    Everything the loop gives the kernel to do, in order: for a tick the
    settlements that fell due, the tick, and what the strategy asked for. *)

Inductive HostOp :=
| HApply (e : Event)
| HDepth (u : DepthUpdate)
| HSnapshot (update_id : Z) (bids asks : list Level)
| HSnapshotAt (at_ : Nanos) (update_id : Z) (bids asks : list Level)
| HGap.
(** The kernel after an operation, and all it has reported. *)
Definition host_op (x : Kernel Matcher * list Output) (o : HostOp) : run (Kernel Matcher * list Output) :=
  let '(k, os) := x in
  match o with
  | HApply e => k ← Kernel.apply k e; mret (k, os ++ outputs k)
  | HDepth u => '(_, k) ← Kernel.apply_depth k u; mret (k, os)
  | HSnapshot id b a => '(_, k) ← Kernel.install_snapshot k id b a; mret (k, os)
  | HSnapshotAt t id b a => '(_, k) ← Kernel.install_snapshot_at k t id b a; mret (k, os)
  | HGap => '(_, k) ← Kernel.apply_depth_gap k; mret (k, os)
  end.
Definition play (x : Kernel Matcher * list Output) (ops : list HostOp) : run (Kernel Matcher * list Output) := foldM host_op x ops.

Definition funding_event (r : FundingRate) : Event := EFunding None (fr_at r) (fr_rate r) (fr_mark r).
Definition latest (last : Nanos) (o : Observation) : Nanos :=
  match o with OTick t => Z.max last (exch (t_stamp t)) | _ => last end.
Definition block (sch : FundingSchedule) (last : Nanos) (o : Observation) (asks : list Event) : list HostOp :=
  match o with
  | OTick t =>
      ((λ r, HApply (funding_event r)) <$> FundingSchedule.between sch last (exch (t_stamp t))) ++
      HApply (ETick None t) :: (HApply <$> asks)
  | ODepth u => [HDepth u]
  | OSnapshot id b a => [HSnapshot id b a]
  | OSnapshotAt t id b a => [HSnapshotAt t id b a]
  | OGap _ => [HGap]
  end.
Fixpoint script (sch : FundingSchedule) (last : Nanos) (stream : list Observation) (asks : list (list Event)) : list HostOp :=
  match stream, asks with
  | o :: stream, a :: asks => block sch last o a ++ script sch (latest last o) stream asks
  | _, _ => []
  end.
(** What a strategy may ask for, and when. *)
Definition asked (e : Event) : Prop := match e with ESubmit _ _ _ _ _ _ _ | ECancel _ _ => True | _ => False end.
Definition asked_of (o : Observation) (a : list Event) : Prop :=
  match o with OTick _ => Forall asked a | _ => a = [] end.

Section script.
Context {S : Type} `{Strategy.Strategy S} (config : RunConfig).
Implicit Types (h : Host S) (os : list Output).

(** What the host has heard is what the kernel has said. *)
Record told h os : Prop := {
  told_fills : ho_fills h = omap fill_of os;
  told_liquidations : ho_liquidations h = omap liquidation_of os;
  told_ledger : ledger_ok (k_state (ho_kernel h));
}.

Lemma reported_fills os : fills_reported os = length (omap fill_of os).
Proof. induction os as [|[] os IH]; [done|..]; cbn in *; unfold fills_reported in *; cbn; by rewrite ?IH. Qed.
(** Only a tick brings a fill. *)
Lemma no_fills (k : Kernel Matcher) e k' : ledger_ok (k_state k) → asked e ∨ (∃ r, e = funding_event r) → Kernel.apply k e = Ret k' →
  omap fill_of (outputs k') = [] ∧ ledger_ok (k_state k').
Proof.
  intros Hok He E. assert (event_ok e) as Hev by (destruct He as [He|[r ->]]; [by destruct e|done]).
  destruct (apply_moved k e k' Hok Hev E) as (ms & Hm & Hc & Hf & _). split; [|by eapply moved_ok].
  apply length_zero_iff_nil. rewrite <-reported_fills, Hf. destruct He as [He|[r ->]].
  - destruct e; try done; cbn in Hc; by subst ms.
  - cbn in Hc. clear -Hc. induction Hc as [|m ms Hm HF IH]; [done|]. destruct m; try done; exact IH.
Qed.

Lemma settle_one_plays h r h' os : told h os → settle_one h r = Ret h' →
  ∃ os', host_op (ho_kernel h, os) (HApply (funding_event r)) = Ret (ho_kernel h', os') ∧ told h' os' ∧
    ho_last_funding h' = ho_last_funding h.
Proof.
  intros [Hf Hl Hok]. unfold settle_one. intros (k & E & H1)%bind_ret.
  destruct (no_fills _ (funding_event r) k Hok ltac:(by right; exists r) E) as [Hn Hok'].
  unfold note_closings in H1. apply bind_ret in H1 as (c & _ & [= <-]). exists (os ++ outputs k). split_and!; [|split|done].
  - cbn [host_op]. unfold funding_event. by rewrite E.
  - by rewrite omap_app, Hn, app_nil_r.
  - cbn. by rewrite omap_app, Hl.
  - exact Hok'.
Qed.
Lemma settle_all_plays rs : ∀ h h' os, told h os → foldM settle_one h rs = Ret h' →
  ∃ os', play (ho_kernel h, os) ((λ r, HApply (funding_event r)) <$> rs) = Ret (ho_kernel h', os') ∧ told h' os' ∧
    ho_last_funding h' = ho_last_funding h.
Proof.
  induction rs as [|r rs IH]; intros h h' os Ht; [intros [= <-]; by exists os|].
  intros (h1 & E & H1)%bind_ret. destruct (settle_one_plays _ _ _ _ Ht E) as (os1 & P1 & T1 & L1).
  destruct (IH _ _ _ T1 H1) as (os2 & P2 & T2 & L2). exists os2. split_and!; [|done|congruence].
  cbn [fmap list_fmap play foldM]. by rewrite P1.
Qed.

(** The mark of the schedule, where there is one. *)
Definition marked h (last : Nanos) : Prop := rates (rc_funding config) = [] ∨ ho_last_funding h = last.
Lemma settle_funding_plays h t h' os last : told h os → marked h last → settle_funding config h t = Ret h' →
  ∃ os', play (ho_kernel h, os) ((λ r, HApply (funding_event r)) <$> FundingSchedule.between (rc_funding config) last t)
      = Ret (ho_kernel h', os') ∧ told h' os' ∧ marked h' (Z.max last t).
Proof.
  intros Ht Hm. unfold settle_funding. destruct (rates (rc_funding config)) as [|r rs] eqn:Er.
  - intros [= <-]. exists os. split_and!; [|done|by left].
    assert (FundingSchedule.between (rc_funding config) last t = []) as ->; [|done].
    unfold FundingSchedule.between. rewrite Er. by destruct (_ && _); rewrite ?drop_nil, ?take_nil.
  - destruct Hm as [Hm|Hm]; [by rewrite Er in Hm|]. intros (h1 & E & [= <-])%bind_ret. subst last.
    destruct (settle_all_plays _ _ _ _ Ht E) as (os' & P & [F L O] & N). exists os'. split_and!; [exact P|by split|right; cbn; by rewrite N].
Qed.

Lemma cancel_one_plays t h id h' os : told h os → cancel_one t h id = Ret h' →
  ∃ os', host_op (ho_kernel h, os) (HApply (ECancel id (t_stamp t))) = Ret (ho_kernel h', os') ∧ told h' os' ∧
    ho_last_funding h' = ho_last_funding h.
Proof.
  intros [Hf Hl Hok]. unfold cancel_one. intros (k & E & [= <-])%bind_ret.
  destruct (no_fills _ (ECancel id (t_stamp t)) k Hok (or_introl I) E) as [Hn Hok'].
  pose proof (asked_calm _ (ECancel id (t_stamp t)) k I E) as Hc. exists (os ++ outputs k). split_and!; [|split|done].
  - cbn [host_op]. by rewrite E.
  - by rewrite omap_app, Hn, app_nil_r.
  - by rewrite omap_app, Hc, app_nil_r.
  - exact Hok'.
Qed.
Lemma cancel_all_plays t ids : ∀ h h' os, told h os → foldM (cancel_one t) h ids = Ret h' →
  ∃ a os', Forall asked a ∧ play (ho_kernel h, os) (HApply <$> a) = Ret (ho_kernel h', os') ∧ told h' os' ∧
    ho_last_funding h' = ho_last_funding h.
Proof.
  induction ids as [|id ids IH]; intros h h' os Ht; [intros [= <-]; by exists [], os|].
  intros (h1 & E & H1)%bind_ret. destruct (cancel_one_plays _ _ _ _ _ Ht E) as (os1 & P1 & T1 & L1).
  destruct (IH _ _ _ T1 H1) as (a & os2 & Ha & P2 & T2 & L2). exists (ECancel id (t_stamp t) :: a), os2.
  split_and!; [by constructor| |done|congruence]. cbn [fmap list_fmap play foldM]. by rewrite P1.
Qed.
Lemma act_plays t h i h' os : told h os → act config t h i = Ret h' →
  ∃ a os', Forall asked a ∧ play (ho_kernel h, os) (HApply <$> a) = Ret (ho_kernel h', os') ∧ told h' os' ∧
    ho_last_funding h' = ho_last_funding h.
Proof.
  intros Ht. unfold act. destruct (misrouted config i).
  - intros (c & _ & [= <-])%bind_ret. exists [], os. destruct Ht as [F L O]. by destruct (intent_id i); split_and!.
  - destruct (event_of t i) as [e|] eqn:Ee; [|by apply cancel_all_plays].
    intros (c & _ & H1)%bind_ret. apply bind_ret in H1 as (k & E & [= <-]). destruct Ht as [F L O].
    assert (asked e) as He by (destruct i; try done; by injection Ee as <-).
    destruct (no_fills _ e k O (or_introl He) E) as [Hn Hok']. pose proof (asked_calm _ e k He E) as Hc.
    exists [e], (os ++ outputs k). split_and!; [by constructor| | |by destruct e].
    + cbn [fmap list_fmap play foldM host_op ho_kernel]. rewrite E. by destruct e.
    + split; [| |by destruct e]; rewrite omap_app, ?Hn, ?Hc, app_nil_r; by destruct e.
Qed.
Lemma act_all_plays t is_ : ∀ h h' os, told h os → foldM (act config t) h is_ = Ret h' →
  ∃ a os', Forall asked a ∧ play (ho_kernel h, os) (HApply <$> a) = Ret (ho_kernel h', os') ∧ told h' os' ∧
    ho_last_funding h' = ho_last_funding h.
Proof.
  induction is_ as [|i is_ IH]; intros h h' os Ht; [intros [= <-]; by exists [], os|].
  intros (h1 & E & H1)%bind_ret. destruct (act_plays _ _ _ _ _ Ht E) as (a1 & os1 & A1 & P1 & T1 & L1).
  destruct (IH _ _ _ T1 H1) as (a2 & os2 & A2 & P2 & T2 & L2). exists (a1 ++ a2), os2.
  split_and!; [by apply Forall_app_2| |done|congruence]. unfold play in *. by rewrite fmap_app, foldM_app, P1.
Qed.

Lemma match_tick_plays h t fs h' os : told h os → match_tick h t = Ret (fs, h') →
  ∃ os', host_op (ho_kernel h, os) (HApply (ETick None t)) = Ret (ho_kernel h', os') ∧ told h' os' ∧
    ho_last_funding h' = ho_last_funding h.
Proof.
  intros [F L O]. unfold match_tick. intros (c & _ & H1)%bind_ret. apply bind_ret in H1 as (k & E & H1). cbv zeta in H1.
  unfold note_closings in H1. apply bind_ret in H1 as (h1 & H1 & [= <- <-]). apply bind_ret in H1 as (cs & _ & [= <-]).
  exists (os ++ outputs k). split_and!; [by cbn [host_op]; rewrite E|split|done]; cbn.
  - by rewrite omap_app, F.
  - by rewrite omap_app, L.
  - destruct (apply_moved _ (ETick None t) k O I E) as (ms & Hm & _). by eapply moved_ok.
Qed.
Lemma tell_kept h cx fs h' out : tell_strategy h cx fs = (h', out) →
  ho_kernel h' = ho_kernel h ∧ ho_fills h' = ho_fills h ∧ ho_liquidations h' = ho_liquidations h ∧ ho_last_funding h' = ho_last_funding h.
Proof. unfold tell_strategy. destruct (Strategy.on_tick _ _ _). by intros [= <- <-]. Qed.

Lemma observe_plays h o h' os last : told h os → marked h last → observe config h o = Ret h' →
  ∃ a os', asked_of o a ∧ play (ho_kernel h, os) (block (rc_funding config) last o a) = Ret (ho_kernel h', os') ∧
    told h' os' ∧ marked h' (latest last o).
Proof.
  intros Ht Hm. destruct o as [t|u|id b a|at_ id b a|at_]; cbn [observe].
  - unfold observe_tick. intros (h1 & E1 & H1)%bind_ret. apply bind_ret in H1 as ([fs h2] & E2 & H2).
    apply bind_ret in H2 as (sm & _ & H3). apply bind_ret in H3 as (m & _ & H4).
    destruct (tell_strategy (set_measures h2 m) _ fs) as [h3 is_] eqn:E5. apply tell_kept in E5 as (K3 & F3 & L3 & T3).
    destruct (settle_funding_plays _ _ _ _ _ Ht Hm E1) as (os1 & P1 & T1 & M1).
    destruct (match_tick_plays _ _ _ _ _ T1 E2) as (os2 & P2 & [F2 L2 O2] & N2).
    assert (told h3 os2) as T3'.
    { split; [by rewrite F3|by rewrite L3|by rewrite K3]. }
    destruct (act_all_plays _ _ _ _ _ T3' H4) as (a & os3 & A & P3 & T4 & N3). rewrite K3 in P3.
    exists a, os3. split_and!; [exact A| |exact T4|].
    + unfold play in *. cbn [block]. rewrite foldM_app, P1, bind_Ret. cbn [foldM]. rewrite P2. exact P3.
    + destruct M1 as [M1|M1]; [by left|right]. cbn [latest]. rewrite N3, T3. cbn. congruence.
  - unfold take_depth. intros ([x k] & E & H1)%bind_ret. apply bind_ret in H1 as (c & _ & [= <-]). destruct Ht as [F L O].
    exists [], os. split_and!; [done| |split; [done..|]|done]; [by cbn [block play foldM host_op]; rewrite E|].
    apply bind_ret in E as (y & _ & E). apply bind_ret in E as ([a m] & _ & [= <- <-]). exact O.
  - unfold take_snapshot. intros ([x k] & E & H1)%bind_ret. apply bind_ret in H1 as (c & _ & [= <-]). destruct Ht as [F L O].
    exists [], os. split_and!; [done| |split; [done..|]|done]; [by cbn [block play foldM host_op]; rewrite E|].
    apply bind_ret in E as (y & _ & E). destruct (m_install_snapshot _ _ _ _) as [z m]. by injection E as <- <-.
  - unfold take_snapshot. intros ([x k] & E & H1)%bind_ret. apply bind_ret in H1 as (c & _ & [= <-]). destruct Ht as [F L O].
    exists [], os. split_and!; [done| |split; [done..|]|done]; [by cbn [block play foldM host_op]; rewrite E|].
    apply bind_ret in E as (y & _ & E). destruct (m_install_snapshot_at _ _ _ _ _) as [z m]. by injection E as <- <-.
  - unfold take_gap. intros ([x k] & E & H1)%bind_ret. apply bind_ret in H1 as (c & _ & [= <-]). destruct Ht as [F L O].
    exists [], os. split_and!; [done| |split; [done..|]|done]; [by cbn [block play foldM host_op]; rewrite E|].
    apply bind_ret in E as (y & _ & E). destruct (m_on_gap _) as [z m]. by injection E as <- <-.
Qed.
Lemma stream_plays stream : ∀ h h' os last, told h os → marked h last → foldM (observe config) h stream = Ret h' →
  ∃ asks os', Forall2 asked_of stream asks ∧
    play (ho_kernel h, os) (script (rc_funding config) last stream asks) = Ret (ho_kernel h', os') ∧ told h' os'.
Proof.
  induction stream as [|o stream IH]; intros h h' os last Ht Hm; [intros [= <-]; by exists [], os|].
  intros (h1 & E & H1)%bind_ret. destruct (observe_plays _ _ _ _ _ Ht Hm E) as (a & os1 & A & P1 & T1 & M1).
  destruct (IH _ _ _ _ T1 M1 H1) as (asks & os2 & As & P2 & T2). exists (a :: asks), os2.
  split_and!; [by constructor| |done]. unfold play in *. cbn [script]. by rewrite foldM_app, P1.
Qed.
End script.

(** ** The settlements of a script *)

Definition settlement_of (o : HostOp) : option FundingRate :=
  match o with HApply (EFunding _ a r m) => Some (mkRate a r m) | _ => None end.
(** The latest tick of a stream. *)
Definition horizon (last : Nanos) (stream : list Observation) : Nanos := fold_left latest stream last.

Lemma horizon_le stream : ∀ last, last ≤ horizon last stream.
Proof.
  induction stream as [|o stream IH]; intros last; [done|]. specialize (IH (latest last o)). unfold horizon in *. cbn.
  destruct o; cbn in *; lia.
Qed.
Lemma settlements_asked a : Forall asked a → omap settlement_of (HApply <$> a) = [].
Proof. induction 1 as [|e a He Ha IH]; [done|]. by destruct e. Qed.
Lemma settlements_due (rs : list FundingRate) : omap settlement_of ((λ r, HApply (funding_event r)) <$> rs) = rs.
Proof. induction rs as [|[a r m] rs IH]; [done|]. cbn. by rewrite IH. Qed.
Lemma settlements_block sch last o a : asked_of o a → funding_ok sch →
  omap settlement_of (block sch last o a) = FundingSchedule.between sch last (latest last o).
Proof.
  intros Ha Hs. assert (FundingSchedule.between sch last last = []) as Hnil
    by (rewrite between_filter by done; apply filter_none, Forall_forall; unfold in_window; lia).
  destruct o as [t| | | |]; cbn [block latest]; try by rewrite Hnil. rewrite omap_app, settlements_due.
  cbn [omap list_omap settlement_of]. rewrite settlements_asked by done. rewrite app_nil_r.
  destruct (Z.le_gt_cases last (exch (t_stamp t))) as [Hle|Hgt]; [by rewrite Z.max_r|].
  rewrite (Z.max_l last) by lia. rewrite Hnil. rewrite between_filter by done. apply filter_none, Forall_forall.
  unfold in_window. lia.
Qed.
Lemma settlements_script sch : funding_ok sch → ∀ stream asks last, Forall2 asked_of stream asks →
  omap settlement_of (script sch last stream asks) = FundingSchedule.between sch last (horizon last stream).
Proof.
  intros Hs stream asks last HF. revert last. induction HF as [|o a stream asks Ha HF IH]; intros last.
  - cbn. rewrite between_filter by done. symmetry. apply filter_none, Forall_forall. unfold in_window, horizon. cbn. lia.
  - cbn [script]. rewrite omap_app, (settlements_block sch last o a Ha Hs), IH.
    assert (last ≤ latest last o) as Hle by (destruct o; cbn; lia).
    apply (funding_windows_partition sch last _ _ Hs Hle (horizon_le stream _)).
Qed.

(** ** The control arm *)

Lemma fills_calm fs : calm (OFilled <$> fs).
Proof. induction fs as [|f fs IH]; [done|]. exact IH. Qed.
Lemma check_free_ends (k : Kernel Matcher) mark k' : enforce_liquidation (k_state k) = false →
  Kernel.check_liquidation k mark = Ret k' → k' = k.
Proof. unfold Kernel.check_liquidation. intros ->. by intros [= <-]. Qed.
Lemma free_calm (k : Kernel Matcher) e k' : hosted e → ledger_ok (k_state k) → enforce_liquidation (k_state k) = false →
  Kernel.apply k e = Ret k' → calm (outputs k') ∧ ledger_ok (k_state k') ∧ enforce_liquidation (k_state k') = false.
Proof.
  intros He Hok Hk E.
  assert (ledger_ok (k_state k') ∧ enforce_liquidation (k_state k') = false) as [Hok' Hk'].
  { destruct (apply_moved k e k' Hok ltac:(by destruct e) E) as (ms & (_ & O & _ & _ & _ & En) & _). by rewrite En. }
  split_and!; [|done..]. destruct e; try done; [|by eapply (asked_calm _ (ESubmit _ _ _ _ _ _ _)), E|by eapply (asked_calm _ (ECancel _ _)), E|].
  - unfold Kernel.apply in E. cbv zeta in E. destruct (Kernel.route _ _) as [h|]; [|by injection E as <-].
    unfold Kernel.on_tick in E. apply bind_ret in E as (x & _ & E). cbv zeta in E. destruct (bool_decide _).
    { apply check_free_ends in E; [by subst k'|done]. }
    apply bind_ret in E as ([fs m] & _ & E). apply bind_ret in E as (k1 & E1 & E).
    pose proof (book_fills_outputs _ _ _ _ E1) as Ho. apply book_fills_moved in E1 as (ms & os & (_ & _ & _ & _ & _ & En) & _); [|done].
    apply check_free_ends in E; [|by rewrite En]. subst k'. rewrite Ho. apply fills_calm.
  - unfold Kernel.apply, Kernel.on_funding in E. cbv zeta in E. destruct (Kernel.route _ _) as [h|]; [|by injection E as <-].
    apply bind_ret in E as (x & _ & E). destruct (Holding.flat x); [by injection E as <-|]. cbv zeta in E.
    apply check_free_ends in E; [by subst k'|done].
Qed.

(** The operations of a script are the ones a backtest gives. *)
Definition host_ok (o : HostOp) : Prop := match o with HApply e => hosted e | _ => True end.
Lemma script_ok sch stream asks : Forall2 asked_of stream asks → ∀ last, Forall host_ok (script sch last stream asks).
Proof.
  induction 1 as [|o a stream asks Ha HF IH]; intros last; [constructor|]. cbn [script]. apply Forall_app_2; [|apply IH].
  destruct o; cbn [block]; try by repeat constructor. apply Forall_app_2; [apply Forall_fmap, Forall_forall; done|].
  constructor; [done|]. apply Forall_fmap. eapply Forall_impl; [exact Ha|]. by intros [].
Qed.
(** Only the engine of the first holding hears of depth. *)
Lemma depth_op_kept k os o k' os' : match o with HApply _ => False | _ => True end → host_op (k, os) o = Ret (k', os') →
  ∃ x, k' = Kernel.set_state k (State.put (k_state k) 0 x) ∧ os' = os.
Proof.
  destruct o as [e|u|id b a|at_ id b a|]; try done; intros _; cbn [host_op];
    intros ([y k1] & E & [= <- <-])%bind_ret; apply bind_ret in E as (h & _ & E).
  - apply bind_ret in E as ([a m] & _ & [= <- <-]). by eexists.
  - destruct (m_install_snapshot _ _ _ _) as [z m]. injection E as <- <-. by eexists.
  - destruct (m_install_snapshot_at _ _ _ _ _) as [z m]. injection E as <- <-. by eexists.
  - destruct (m_on_gap _) as [z m]. injection E as <- <-. by eexists.
Qed.
Lemma play_calm ops : Forall host_ok ops → ∀ k os k' os', ledger_ok (k_state k) → enforce_liquidation (k_state k) = false →
  play (k, os) ops = Ret (k', os') → calm os → calm os'.
Proof.
  induction 1 as [|o ops Ho HF IH]; intros k os k' os' Hok Hk; [by intros [= <- <-]|].
  intros ([k1 os1] & E & H)%bind_ret Hc. assert (match o with HApply _ => False | _ => True end ∨ ∃ e, o = HApply e) as [Hd|[e ->]]
    by (destruct o; eauto).
  - destruct (depth_op_kept _ _ _ _ _ Hd E) as (x & -> & ->). refine (IH _ _ _ _ _ _ H Hc); [exact Hok|exact Hk].
  - cbn [host_op] in E. apply bind_ret in E as (k2 & E & [= <- <-]).
    destruct (free_calm _ _ _ Ho Hok Hk E) as (Hc2 & Hok2 & Hk2). eapply (IH _ _ _ _ Hok2 Hk2 H). by apply calm_app.
Qed.

(** * Results *)

Section results.
Context {S : Type} `{Strategy.Strategy S} (config : RunConfig).

Lemma start_kernel k : start config = Ret k → outputs k = [] ∧
  books_of (k_state k) = mkBooks (State.balance (k_state k)) 0 0 0 0 ∧
  balances (k_state k) = Balances.of_ Currency.usdt (starting_balance config) ∧ settlement (k_state k) = Currency.usdt ∧
  enforce_liquidation (k_state k) = match rc_margin config with Enforced => true | Ignored => false end.
Proof.
  unfold start. intros (st & E & [= <-])%bind_ret. unfold State.matching_with in E. apply bind_ret in E as (x & _ & E).
  destruct (_ =? _); [|done]. injection E as <-. by destruct (rc_margin config).
Qed.
Lemma start_told (s : S) k : i64 (starting_balance config) → start config = Ret k → told (open_host config s k) [].
Proof. intros Hb Hk. apply start_kernel in Hk as (_ & _ & E & _). split; [done..|]. cbn. unfold ledger_ok. rewrite E. by apply balances_of_ok. Qed.

(** The kernel a run ends with. *)
Definition ends_as (s : S) stream : run (Kernel Matcher) :=
  k ← start config;
  h ← foldM (observe config) (open_host config s k) stream;
  Kernel.settle_unreported (ho_kernel h).
(** A run as its script. *)
Lemma run_script (s s' : S) stream r : i64 (starting_balance config) → run_observations config s stream = Ret (s', r) →
  ∃ k0 asks k os k', start config = Ret k0 ∧ ends_as s stream = Ret k' ∧ Forall2 asked_of stream asks ∧
    play (k0, []) (script (rc_funding config) I64_MIN stream asks) = Ret (k, os) ∧ ledger_ok (k_state k) ∧
    Kernel.settle_unreported k = Ret k' ∧
    rr_fills r = omap fill_of (os ++ outputs k') ∧ rr_liquidations r = omap liquidation_of os ∧
    rr_realized r = realized (k_state k') ∧ rr_funding_paid r = funding (k_state k') ∧ rr_fees_paid r = fees (k_state k') ∧
    rr_final_equity r = State.equity (k_state k').
Proof.
  intros Hb Hr. destruct (run_steps config _ _ _ _ Hr) as (k & x & h & k' & Ek & Ex & Eh & Es & Ef).
  pose proof (start_told s k Hb Ek) as Ht.
  destruct (stream_plays config stream _ _ _ I64_MIN Ht ltac:(by right) Eh) as (asks & os & As & P & [F L O]).
  exists k, asks, (ho_kernel h), os, k'. split_and!; try done; [by unfold ends_as; rewrite Ek, bind_Ret, Eh|..].
  all: unfold finish in Ef; rewrite Es, bind_Ret in Ef; apply bind_ret in Ef as (sm & Esm & Ef);
    apply bind_ret in Ef as (y & _ & [= _ <-]); cbn; try done.
  - by rewrite omap_app, F.
  - unfold summary in Esm. by apply bind_ret in Esm as (z & _ & [= <-]).
  - unfold summary in Esm. by apply bind_ret in Esm as (z & _ & [= <-]).
  - unfold summary in Esm. by apply bind_ret in Esm as (z & _ & [= <-]).
  - unfold summary in Esm. by apply bind_ret in Esm as (z & _ & [= <-]).
Qed.
End results.

(** ** What the venue kept *)

(** The amounts liquidations say were forfeited. *)
Definition forfeits (os : list Output) : list Cash := lq_forfeited <$> omap liquidation_of os.
Lemma forfeits_app a b : forfeits (a ++ b) = forfeits a ++ forfeits b.
Proof. unfold forfeits. by rewrite omap_app, fmap_app. Qed.
Lemma forfeits_calm os : calm os → forfeits os = [].
Proof. unfold forfeits. by intros ->. Qed.
Lemma cash_sum_i64 cs : ∀ a, i64 a → i64 (fold_left Cash.add cs a).
Proof. induction cs as [|c cs IH]; intros a Ha; [done|]. apply IH, sat64_range. Qed.

Section forfeit.
Implicit Types (k : Kernel Matcher) (s : State Matcher) (os : list Output).

Lemma no_forfeit b ms : Forall (λ m, m ≠ MForfeit) ms → b_forfeited (post_all b ms) = b_forfeited b.
Proof.
  intros HF. revert b. induction HF as [|m ms Hm HF IH]; intros b; [done|]. unfold post_all in *. cbn. rewrite IH. by destruct m.
Qed.
Lemma pnl_no_forfeit ms : Forall is_pnl ms → Forall (λ m, m ≠ MForfeit) ms.
Proof. intros HF. eapply Forall_impl; [exact HF|]. by intros []. Qed.
Lemma moved_kept s s' ms : moved s s' ms → Forall (λ m, m ≠ MForfeit) ms → forfeited s' = forfeited s.
Proof. intros (E & _) HF. apply (f_equal b_forfeited) in E. rewrite no_forfeit in E by done. exact E. Qed.
Lemma book_fills_kept fs : ∀ k h k', ledger_ok (k_state k) → Kernel.book_fills k h fs = Ret k' →
  forfeited (k_state k') = forfeited (k_state k) ∧ ledger_ok (k_state k').
Proof.
  induction fs as [|f fs IH]; intros k h k' Hok; cbn [Kernel.book_fills]; [by intros [= <-]|].
  intros (x & _ & H)%bind_ret. apply bind_ret in H as (s & Hs & H).
  destruct (paid_fill_moved _ _ _ _ Hok (charge_i64 _ _ _) Hs) as (ms & M & Hp).
  destruct (IH _ _ _ (moved_ok _ _ _ M : ledger_ok (k_state (Kernel.push (Kernel.forget (Kernel.set_state k s) (f_order f)) (OFilled f)))) H)
    as [E O]. split; [|done]. rewrite E. cbn. eapply moved_kept; [exact M|]. constructor; [done|by apply pnl_no_forfeit].
Qed.

(** Each closing says zero, and the last one what was taken. *)
Lemma liquidate_holding_says s h p o s' : State.liquidate_holding s h p = Ret (o, s') → forfeits [o] = [0].
Proof.
  unfold State.liquidate_holding. intros (x & _ & H)%bind_ret. apply bind_ret in H as (q & _ & H).
  destruct (m_cancel_all _) as [n m]. by injection H as <- _.
Qed.
Lemma liquidate_each_says hs : ∀ s os s', State.liquidate_each s hs = Ret (os, s') → forfeits os = replicate (length os) 0.
Proof.
  induction hs as [|h hs IH]; intros s os s'; cbn [State.liquidate_each]; [by intros [= <- <-]|].
  intros (x & _ & H)%bind_ret. apply bind_ret in H as ([o s1] & Ho & H). apply bind_ret in H as ([os1 s2] & Hos & [= <- <-]).
  change (o :: os1) with ([o] ++ os1). by rewrite forfeits_app, (liquidate_holding_says _ _ _ _ _ Ho), (IH _ _ _ Hos).
Qed.
Lemma close_all_says s p os s' : State.close_all s p = Ret (os, s') → forfeits os = replicate (length os) 0.
Proof.
  unfold State.close_all. destruct (_ =? 1)%nat; [|by apply liquidate_each_says].
  intros ([o s1] & Ho & [= <- <-])%bind_ret. exact (liquidate_holding_says _ _ _ _ _ Ho).
Qed.
Lemma forfeits_restate e os : forfeits (State.restate e <$> os) = forfeits os.
Proof. induction os as [|o os IH]; [done|]. destruct o; cbn in *; unfold forfeits in *; cbn; by rewrite ?IH. Qed.
Lemma forfeits_report c os : Forall is_liquidated os → os ≠ [] → forfeits (State.report_forfeit c os) = take (length os - 1) (forfeits os) ++ [c].
Proof.
  induction 1 as [|o os Ho HF IH]; [done|]. intros _. destruct o; try done. destruct os as [|o' os]; [done|].
  cbn [State.report_forfeit]. specialize (IH ltac:(done)). cbn [length Nat.sub] in IH |- *. rewrite Nat.sub_0_r in IH.
  unfold forfeits in *. cbn [omap list_omap liquidation_of fmap list_fmap] in IH |- *. cbn [take app]. f_equal. exact IH.
Qed.
Lemma zeros_add n : ∀ a, i64 a → fold_left Cash.add (replicate n 0) a = a.
Proof.
  induction n as [|n IH]; intros a Ha; [done|]. cbn. unfold Cash.add at 2. rewrite Z.add_0_r, sat64_id by done. by apply IH.
Qed.

Lemma check_liquidation_says k mark k' : ledger_ok (k_state k) → i64 (forfeited (k_state k)) →
  Kernel.check_liquidation k mark = Ret k' → ∃ out, outputs k' = outputs k ++ out ∧ omap fill_of out = [] ∧
    forfeited (k_state k') = fold_left Cash.add (forfeits out) (forfeited (k_state k)).
Proof.
  intros Hok Hi. unfold Kernel.check_liquidation. destruct (State.is_flat (k_state k)) eqn:Hf.
  { rewrite orb_true_r. intros [= <-]. exists []. rewrite app_nil_r. split_and!; reflexivity. }
  destruct (negb _); [intros [= <-]; exists []; rewrite app_nil_r; split_and!; reflexivity|]. cbn [orb]. intros (b & _ & H)%bind_ret.
  destruct b; [|injection H as <-; exists []; rewrite app_nil_r; split_and!; reflexivity].
  apply bind_ret in H as ([out s] & Ho & [= <-]). exists out. unfold State.liquidate in Ho.
  apply bind_ret in Ho as ([out0 s1] & E & Ho). injection Ho as <- <-.
  pose proof (close_all_reports _ _ _ _ Hf E) as Hn. pose proof (close_all_says _ _ _ _ E) as Hz.
  destruct (close_all_moved _ _ _ _ Hok E) as (ms & M & Hp & Ho). pose proof (moved_kept _ _ _ M (pnl_no_forfeit _ Hp)) as Hk.
  assert (Forall is_liquidated (State.restate (State.balance (State.add_forfeited (State.credit s1 (Cash.neg (State.balance s1))) (State.balance s1))) <$> out0)) as Hl
    by (apply Forall_fmap; eapply Forall_impl; [exact Ho|]; by intros []).
  split_and!; [done| |].
  - apply report_forfeit_liquidated with (c := State.balance s1) in Hl. clear -Hl. induction Hl as [|o os Ho Hl IH]; [done|]. by destruct o.
  - cbn [k_state forfeited]. rewrite forfeits_report; [|exact Hl|destruct out0; [cbn in Hn; lia|done]]. rewrite forfeits_restate, Hz, take_replicate, fold_left_app, zeros_add by done.
    cbn. by rewrite Hk.
Qed.

(** The amounts an event's reports say were forfeited are what the account
    counts. *)
Lemma apply_says k e k' : hosted e → ledger_ok (k_state k) → i64 (forfeited (k_state k)) → Kernel.apply k e = Ret k' →
  forfeited (k_state k') = fold_left Cash.add (forfeits (outputs k')) (forfeited (k_state k)).
Proof.
  intros He Hok Hi E. destruct e; try done.
  - unfold Kernel.apply in E. cbv zeta in E. destruct (Kernel.route _ _) as [h|]; [|by injection E as <-].
    unfold Kernel.on_tick in E. apply bind_ret in E as (x & _ & E). cbv zeta in E.
    set (s := State.put (State.with_now (k_state (mkKernel (k_state k) [] (working k))) (exch (t_stamp tick))) h (Holding.set_mark x (t_last tick))) in *.
    destruct (bool_decide _).
    { apply (check_liquidation_says (Kernel.set_state (mkKernel (k_state k) [] (working k)) s)) in E as (out & -> & _ & ->); [|exact Hok|exact Hi].
      done. }
    apply bind_ret in E as ([fs m] & _ & E). apply bind_ret in E as (k1 & E1 & E).
    pose proof (book_fills_outputs _ _ _ _ E1) as Ho. apply book_fills_kept in E1 as [F1 O1]; [|exact Hok].
    apply check_liquidation_says in E as (out & -> & _ & ->); [|exact O1|by rewrite F1]. rewrite Ho, !forfeits_app, F1.
    cbn [k_state outputs Kernel.set_state app]. by rewrite (forfeits_calm (OFilled <$> _) (fills_calm _)).
  - pose proof (asked_calm _ (ESubmit instrument id side price qty offset stamp) _ I E) as Hc. rewrite (forfeits_calm _ Hc).
    destruct (apply_moved k (ESubmit instrument id side price qty offset stamp) k' Hok I E) as (ms & M & C & _). cbn in C. subst ms. eapply moved_kept; [exact M|constructor].
  - pose proof (asked_calm _ (ECancel id stamp) _ I E) as Hc. rewrite (forfeits_calm _ Hc).
    destruct (apply_moved k (ECancel id stamp) k' Hok I E) as (ms & M & C & _). cbn in C. subst ms. eapply moved_kept; [exact M|constructor].
  - unfold Kernel.apply, Kernel.on_funding in E. cbv zeta in E. destruct (Kernel.route _ _) as [h|]; [|by injection E as <-].
    apply bind_ret in E as (x & _ & E). destruct (Holding.flat x); [by injection E as <-|]. cbv zeta in E.
    set (a := Kernel.funding_of x at_ rate mark) in *.
    apply check_liquidation_says in E as (out & -> & _ & ->); [|by eapply (moved_ok _ _ [MFunding a]), moved_funding; [|apply funding_of_i64]|exact Hi].
    done.
Qed.
End forfeit.

(** ** The money of a run *)

Lemma horizon_deposits e : hosted e → ∀ ms, causes e ms → deposits ms = 0.
Proof.
  intros He ms Hc. destruct e; try done; cbn in Hc; try by subst ms.
  - by apply (no_deposits is_trade); [intros []|].
  - by apply (no_deposits is_funding); [intros []|].
Qed.

(** What a play leaves: movements, a fee for every fill, and the forfeits as
    reported. *)
Record accounted (k0 k : Kernel Matcher) os ms : Prop := {
  ac_books : books_of (k_state k) = post_all (books_of (k_state k0)) ms;
  ac_fees : fee_count ms = length (omap fill_of os);
  ac_deposits : deposits ms = 0;
  ac_forfeits : forfeited (k_state k) = fold_left Cash.add (forfeits os) 0;
  ac_ledger : ledger_ok (k_state k);
}.
Lemma play_accounts k0 ops : Forall host_ok ops → ∀ k os ms k' os', accounted k0 k os ms →
  play (k, os) ops = Ret (k', os') → ∃ ms', accounted k0 k' os' ms'.
Proof.
  induction 1 as [|o ops Ho HF IH]; intros k os ms k' os' Ha; [intros [= <- <-]; by exists ms|].
  intros ([k1 os1] & E & H)%bind_ret.
  assert (match o with HApply _ => False | _ => True end ∨ ∃ e, o = HApply e) as [Hd|[e ->]] by (destruct o; eauto).
  - destruct (depth_op_kept _ _ _ _ _ Hd E) as (x & -> & ->). eapply (IH _ _ ms); [|exact H]. by destruct Ha.
  - cbn [host_op] in E. apply bind_ret in E as (k2 & E & [= <- <-]). destruct Ha as [A1 A2 A3 A4 A5].
    destruct (apply_moved k e k2 A5 ltac:(by destruct e) E) as (ns & M & C & F & _).
    assert (i64 (forfeited (k_state k))) as Hi by (rewrite A4; by apply cash_sum_i64).
    pose proof (apply_says _ _ _ Ho A5 Hi E) as Hs. eapply (IH _ _ (ms ++ ns)); [|exact H]. split.
    + destruct M as (M & _). by rewrite post_all_app, <-A1.
    + by rewrite fee_count_app, omap_app, length_app, A2, <-F, reported_fills.
    + by rewrite deposits_app, A3, (horizon_deposits e Ho _ C).
    + by rewrite forfeits_app, fold_left_app, <-A4.
    + by eapply moved_ok.
Qed.
Lemma settle_accounts k0 hs : ∀ k os ms k', accounted k0 k os ms → Kernel.settle_from k hs = Ret k' →
  ∃ os' ms', outputs k' = outputs k ++ os' ∧ calm os' ∧ accounted k0 k' (os ++ os') ms'.
Proof.
  induction hs as [|h hs IH]; intros k os ms k' Ha; cbn [Kernel.settle_from].
  { intros [= <-]. exists [], ms. by rewrite !app_nil_r. }
  intros (x & _ & H)%bind_ret. destruct (m_drain_unreported _) as [fs m]. apply bind_ret in H as (k1 & E & H).
  set (k2 := Kernel.set_state k (State.put (k_state k) h (Holding.set_engine x m))) in *. destruct Ha as [A1 A2 A3 A4 A5].
  pose proof (book_fills_outputs _ _ _ _ E) as Ho. destruct (book_fills_kept _ k2 _ _ A5 E) as [Hf Hk].
  destruct (book_fills_moved _ k2 _ _ A5 E) as (ns & qs & (M & _) & Eq & HF & C & _).
  assert (qs = OFilled <$> (lf_fill <$> fs)) as -> by (apply (app_inv_head (outputs k2)); congruence).
  destruct (IH k1 (os ++ (OFilled <$> (lf_fill <$> fs))) (ms ++ ns) k') as (os' & ms' & E' & C' & A'); [|exact H|].
  - split.
    + by rewrite post_all_app, M, <-A1.
    + by rewrite fee_count_app, omap_app, length_app, A2, <-C, reported_fills.
    + rewrite deposits_app, A3. by apply (no_deposits is_trade); [intros []|].
    + rewrite forfeits_app, (forfeits_calm (OFilled <$> _) (fills_calm _)), app_nil_r, Hf. exact A4.
    + exact Hk.
  - exists ((OFilled <$> (lf_fill <$> fs)) ++ os'), ms'. rewrite E', Ho, !app_assoc. split_and!; [done| |done].
    apply calm_app. split; [apply fills_calm|done].
Qed.

Lemma run_ends {S} `{Strategy.Strategy S} config (s s' : S) stream r : i64 (starting_balance config) →
  run_observations config s stream = Ret (s', r) →
  ∃ k' os ms k0, ends_as config s stream = Ret k' ∧ start config = Ret k0 ∧ accounted k0 k' os ms ∧
    rr_fills r = omap fill_of os ∧ rr_liquidations r = omap liquidation_of os ∧
    rr_realized r = realized (k_state k') ∧ rr_funding_paid r = funding (k_state k') ∧ rr_fees_paid r = fees (k_state k') ∧
    rr_final_equity r = State.equity (k_state k').
Proof.
  intros Hb Hr. destruct (run_script config s s' stream r Hb Hr) as (k0 & asks & k & os & k' & E0 & Ee & As & P & _ & E1 & F & L & R).
  pose proof (start_kernel config k0 E0) as (_ & B0 & Bs & _ & _).
  assert (accounted k0 k0 [] []) as A0.
  { split; try done; [|unfold ledger_ok; rewrite Bs; by apply balances_of_ok]. by apply (f_equal b_forfeited) in B0. }
  destruct (play_accounts k0 _ (script_ok (rc_funding config) _ _ As I64_MIN) _ _ _ _ _ A0 P) as (ms & A1).
  destruct (settle_accounts k0 _ (mkKernel (k_state k) [] (working k)) os ms k' ltac:(by destruct A1) E1) as (os' & ms' & Eo & Hc & A2).
  exists k', (os ++ os'), ms', k0. cbn in Eo. rewrite Eo in F. split_and!; try done; try apply R.
  rewrite L, omap_app, Hc. by rewrite app_nil_r.
Qed.

(** * Properties *)

(** C17. The margin model changes nothing it does not act on.  If the run with
    margin enforced returns and was never liquidated, the run with margin
    ignored returns the very same result, and leaves the strategy in the very
    same state, whatever the strategy, the stream and the tier; and a run with
    margin ignored is never liquidated. *)
Theorem no_liquidation_means_no_difference {S} `{Strategy.Strategy S} (config : RunConfig) (s : S)
    (stream : list Observation) (Hb : i64 (starting_balance config)) :
  (∀ s' r, run_observations (RunConfig.with_margin Enforced config) s stream = Ret (s', r) → rr_liquidations r = [] →
    run_observations (RunConfig.with_margin Ignored config) s stream = Ret (s', r)) ∧
  (∀ s' r, run_observations (RunConfig.with_margin Ignored config) s stream = Ret (s', r) → rr_liquidations r = []).
Proof.
  split; intros s' r Hr; [by apply (unliquidated_alike config)|].
  set (control := RunConfig.with_margin Ignored config) in *.
  destruct (run_script control _ _ _ _ Hb Hr) as (k0 & asks & k & os & k' & E0 & _ & As & P & _ & _ & _ & L & _).
  destruct (start_kernel _ _ E0) as (_ & _ & Bs & _ & En). rewrite L.
  refine (play_calm _ (script_ok _ _ _ As _) _ _ _ _ _ En P eq_refl). unfold ledger_ok. rewrite Bs. by apply balances_of_ok.
Qed.



(** * A concrete run *)

Module DemoRun.
(** Buys once, leaves a bid far below, and remembers how its orders ended. *)
Definition Holder : Type := bool * list (OrderId * Ending).
#[global] Instance holder : Strategy.Strategy Holder := {
  Strategy.on_tick s cx out := ((true, s.2), out ++ if s.1 then [] else [Market 7 1 Buy 10 Open; Limit 7 2 Buy 10 1 Open; Limit 8 3 Buy 10 1 Open]);
  Strategy.on_fill s _ _ out := (s, out);
  Strategy.on_venue_closed s _ _ out := (s, out);
  Strategy.on_placed s _ _ := s;
  Strategy.on_cancel_failed s _ _ := s;
  Strategy.on_ended s id e out := ((s.1, s.2 ++ [(id, e)]), out);
  Strategy.on_history s _ := s;
  Strategy.on_history_fill s _ _ := s;
  Strategy.waiting_on _ := [];
  Strategy.name _ := text_of "holder";
}.
Definition config (balance : Cash) : RunConfig :=
  RunConfig.with_fees (Fees.flat 1000000) (RunConfig.with_funding
    (FundingSchedule.new [mkRate 25 1000000 100; mkRate 5 1000000 100; mkRate 95 1000000 100])
    (RunConfig.new 7 DemoAccount.contract DemoAccount.table balance)).
Definition at_ (n last : Z) : Observation := OTick (Tick.trades_only (mkStamp n n) last last last).
Definition calm_stream : list Observation := [at_ 10 100; at_ 20 100; OGap 21; at_ 30 120; at_ 25 110; at_ 40 115].
Definition fall : list Observation := [at_ 10 100; at_ 20 100; at_ 30 75; at_ 40 75; at_ 50 75].
Definition untold : Holder := (false, []).
Abbreviation rich := (run_observations (config 1000000) untold calm_stream).
Abbreviation poor := (run_observations (config 20000) untold fall).

(** What was booked, and the orders the strategy was told of. *)
Definition told_of (x : run (Holder * RunResult)) : option (nat * nat * Cash * list (OrderId * Ending)) :=
  match x with
  | Ret (s, r) => Some (length (rr_fills r), length (rr_liquidations r), rr_funding_paid r, s.2)
  | _ => None
  end.
Lemma told_inv x a b c e : told_of x = Some (a, b, c, e) →
  ∃ s r, x = Ret (s, r) ∧ length (rr_fills r) = a ∧ length (rr_liquidations r) = b ∧ rr_funding_paid r = c ∧ s.2 = e.
Proof. destruct x as [[s r]| |]; [|done..]. intros [= <- <- <- <-]. by exists s, r. Qed.
Lemma rich_told : told_of rich = Some (1%nat, 0%nat, -100, [(1, Strategy.Filled)]).
Proof. by vm_compute. Qed.
Lemma poor_told : told_of poor = Some (1%nat, 1%nat, -100, [(1, Strategy.Filled)]).
Proof. by vm_compute. Qed.
Lemma poor_balance : i64 (starting_balance (config 20000)).
Proof. by apply (bool_decide_unpack _). Qed.
Lemma rich_balance : i64 (starting_balance (config 1000000)).
Proof. by apply (bool_decide_unpack _). Qed.
Lemma rich_funding : funding_ok (rc_funding (config 1000000)).
Proof. apply funding_new_ok. Qed.
Lemma rich_settlements : filter (in_window I64_MIN (horizon I64_MIN calm_stream)) (rates (rc_funding (config 1000000))) =
  [mkRate 5 1000000 100; mkRate 25 1000000 100].
Proof. by vm_compute. Qed.
End DemoRun.

Lemma no_liquidation_means_no_difference_witness :
  ∃ s r, run_observations (RunConfig.with_margin Ignored (DemoRun.config 1000000)) DemoRun.untold DemoRun.calm_stream = Ret (s, r) ∧
    length (rr_fills r) = 1%nat.
Proof.
  destruct (DemoRun.told_inv _ _ _ _ _ DemoRun.rich_told) as (s & r & E & Hf & Hl%length_zero_iff_nil & _).
  exists s, r. split; [|exact Hf].
  exact (proj1 (no_liquidation_means_no_difference (DemoRun.config 1000000) DemoRun.untold DemoRun.calm_stream DemoRun.rich_balance) s r E Hl).
Defined.



(** What a liquidation withdraws is never reported as ended: the bid no longer
    works, and the strategy heard of the end of its other order only. *)
Example a_liquidation_ends_orders_silently :
  match DemoRun.poor, ends_as (DemoRun.config 20000) DemoRun.untold DemoRun.fall with
  | Ret (s, _), Ret k => (s.2, working k) | _, _ => ([], [2])
  end = ([(1, Strategy.Filled)], []).
Proof. by vm_compute. Qed.
